(* ===== verification/_CoqProject ===== *)
-Q . S2P
Prelude.v
Serial.v
CFile.v
CText.v
Glib.v
Destor.v
Queue.v
SyncQueue.v
LruCache.v
Container.v
Recipe.v
Segmenting.v
Sampling.v
KvStore.v
Chunking.v
ChunkPhase.v
ReadPhase.v
HashPhase.v
Trace.v
RestoreCache.v
Replacement.v
OptRestore.v
DoRestore.v
Double.v
RestoreAware.v
Index.v
IndexInv.v
Filter.v
FilterInv.v
DedupPhase.v
Backup.v
Job.v
Har.v
Rewrite.v
Cbr.v
RewritePhase.v
Network.v
Command.v
ClientPhase.v
Routing.v
Group.v
Server.v
Node.v
FileRecipe.v
Worker.v
Agent.v
Keys.v
Cluster.v
Delete.v
Fsl.v
Bloom.v
Sds.v
Config.v
