(* ===== verification/Prelude.v ===== *)
(** * UniDedup: a verification library for a cluster of deduplicating nodes

    ** The program

    UniDedup ([src/client], C++, and [src/destor], C with pthreads and GLib) keeps
    the files of users on nodes that deduplicate. The agent of a user's machine
    cuts a file into groups of blocks, routes every group to a node, sends it, and
    keeps in a recipe where the groups are; machines talk through Redis. A node
    runs destor: it stores a group as a backup, a pipeline of threads joined by
    blocking queues (read, chunk, hash, dedup, rewrite, filter, and a thread that
    appends full containers to the container pool). The dedup thread looks the
    chunks of a segment up in the fingerprint index, the filter thread writes
    those that are not duplicates to a container, writes the recipe of the segment
    and updates the index; both run under one lock. A restore reads a recipe and
    fetches the chunks from containers through one of several caches.

    ** Conventions

    A C function is a function of the same name over the state it reads and
    writes. A failure (an assertion, [exit], a null pointer, an access outside an
    object, a division by zero) is a value [Err e] of the error monad [res]; a
    theorem that states [Ok] states that none of them occurs. Integers are [Z],
    with the wrap-around written out ([s32], [s64], [u64]) where the source
    computes in a fixed width; bytes are integers from 0 to 255. GLib's order of
    iteration and its treatment of equal elements are parameters with the
    documented laws ([Glib]); so are Redis ([Network], [FileRecipe]) and
    libhashfile ([Fsl]). Functions of the C library are modelled as far as they
    are used.

    ** The files and the parts of the source they model

    - [Prelude]: the error monad, machine integers, byte arrays, loops over lists,
      the tactics [step], [zlen] and [decide_it].
    - [Serial] (utils/serial.c), [CFile] (the FILE functions of the C library),
      [CText] (numbers printed and scanned), [Glib] (hash tables, sorted
      sequences), [Double] (the type double), [Sds] (utils/sds.c: splitting,
      trimming and quoting text), [Bloom] (utils/bloom_filter.c).
    - [Destor] (destor.h, the end of destor.c): chunks, segments, flags. [Config]
      (config.c, [destor_start] and [destor_shutdown] of destor.c): the
      configuration file, and the statistics a node leaves to the next run.
    - [Queue] (utils/queue.c) over a heap of nodes, refined to a list;
      [SyncQueue] (utils/sync_queue.c): the blocking queue as the steps of any
      number of threads; [LruCache] (utils/lru_cache.c).
    - [Container] (storage/containerstore.c): containers in memory and in the
      pool, and the append thread; [Recipe] (recipe/recipestore.c): the three
      files of a backup version.
    - [ReadPhase], [Chunking] (chunking/), [ChunkPhase], [HashPhase], [Trace]
      (trace_phase.c), [Fsl] (fsl/read_fsl_trace.c): from a directory tree, or a
      trace, to hashed chunks.
    - [Segmenting], [Sampling], [KvStore] (index/segmenting_method.c,
      sampling_method.c, kvstore.c, kvstore_htable.c), [Index] (index.c,
      fingerprint_cache.c, similarity_detection.c), [RestoreAware]
      (restore_aware.c), [DedupPhase], [Filter] (filter_phase.c): from hashed
      chunks to containers, recipes and the index.
    - [IndexInv], [FilterInv], [Backup]: the invariants of a running backup and
      its threads together.
    - [Har] (har_rewrite.c, cma.c): the records of sparse containers and the
      manifests of containers; [Rewrite] (the buffer of rewrite_phase.c, cfl, cap),
      [Cbr] (cbr_rewrite.c), [RewritePhase]: the threads that mark fragmented
      chunks.
    - [RestoreCache] (do_restore.c, assembly_restore.c), [OptRestore]
      (optimal_restore.c): the restore caches; [Replacement]: replacement of a
      cache in general, and why looking farthest ahead is optimal; [DoRestore]
      (do_restore.c): the reader of the recipe and the sender of the chunks.
    - [Job] (do_backup.c): a backup from disk to disk, and the life of a node as
      the sequence of its jobs. [Delete] (do_delete.c): the deletion of a version.
    - [Network]: processes that talk through Redis servers, and why the order in
      which they run does not matter. [Command] (utils/redis_util.c, and
      client/src/protocol): requests.
    - [ClientPhase] (Reading.cc, Chunking.cc, Hashing.cc of client/src/common),
      [Routing] (Fingerprint.cc, stateful_routing.cc), [Group] (Group.cc): from a
      file to groups that have a node. [FileRecipe] (FileRecipe.cc,
      redis_cluster.cc): where the groups of a file are.
    - [Server] (destor_server.c): a node as a process. [Node]: what it does with a
      request, on top of [Job].
    - [Worker] (Worker.cc, Client.cc): the agent and the program of the user as
      processes. [Agent]: the messages of the agent. [Keys]: keys of Redis are not
      confused. [Cluster]: all machines together.

    ** The theorems

    - The whole system: [files_survive] ([Cluster]): with a user, the agent of his
      machine and any number of nodes, in any interleaving, every execution ends,
      and what the user reads under a name is what he wrote. It is proved by a
      schedule (the processes own their keys, so their steps commute and one
      schedule that ends well stands for all, [Network]) and from
      [every_version_restores] on the side of the nodes. Its conditions are listed
      with it: among others no stateful routing, no chunking by AE, no rewriting (or
      no threshold), reads after writes, and groups that fit one packet, because a
      node cannot receive a second one ([large_group_overflows], [Server]).
    - A node: the threads of a backup are a step relation over the
      shared state (a step is what a thread does under the lock, [Backup]), and a
      backup job is a run of them between opening and closing the files ([Job]).
      [every_version_restores]: after any number of jobs, whatever their
      interleavings, a restore of any version, through any cache, sends the bytes
      that were backed up, for the versions of one file; [backup_completes]: in no
      reachable state does a thread fail, and [backup_job_ends]: a job that fits
      comes to its end, however its threads run and whatever the rewriting marks,
      unless the rewriting buffer and the index buffer block each other, which they
      can with the threshold that the program sets ([threshold_blocks],
      [RewritePhase]).
      [backup_leaves_store]: the recipe is that of the input.
      [exact_backup_stores_once]: exact deduplication stores nothing twice.
      [deletion_prunes_index]: a deletion removes exactly what no younger version
      uses, and every version of one file is still restored;
      [reclaim_segments_ends]: the loop of a deletion over segments ends.
      The invariant has three layers: [IndexInv] (a chunk in flight is unique
      and fresh, or names a container that holds it, or follows its unique
      original), proved against the interface [PrefetchUnits] of what the index
      needs of the stores; [FilterInv], which discharges the interface from the
      invariants of [Container] and [Recipe] and shows what the filter of a
      segment keeps; and [Backup], the interleavings.
    - Starting and stopping: [config_typed]: whatever the bytes of the two files
      are, every member has a value of its type or the program stops;
      [stat_roundtrip]: the statistics survive; [quoting_roundtrip]: quoted
      arguments are read back.
    - Up to the hashed chunks: [read_phase_stream], [chunk_phase_correct] (the
      chunks concatenate to the file and their boundaries depend on the content
      only), [ingest_correct] for the three phases together, [trace_roundtrip],
      [fsl_trace_replayed].
    - The client: [split2Groups_covers] (groups are the file, in order),
      [consistent_hash_spec], [request_roundtrip], [cluster_recipe_roundtrip].
    - The stores: serving, progress, persistence and bounds of the container
      store, the round trip of recipes, segment ids, the key-value store as
      bounded queues and its dump.
    - Data structures: the queue and the blocking queue (safety, no lost
      wake-up), the LRU cache, serialisation, segmenting, sampling, the Bloom
      filter ([bloom_filter_answers]).
    - Rewriting: every algorithm ends, keeps the stream, marks what it should
      ([cfl_rewrite_runs], [cap_rewrite_keeps_top], [cbr_rewrite_decides]) and is
      the rewriting step of [Backup], on which it hands a segment over in time
      ([rewriting_refines_backup]); it holds back a bounded number of chunks
      ([rewriting_releases_segment]). [close_har_keeps_sparse]
      and [cma_reclaims] are about what one backup records for the next.
    - Restoring: [restore_caches_agree], [optimal_restore_serves]: the three caches
      serve the same chunks; [optimal_restore_fewest_reads]: as long as the
      comparator of the optimal cache is an order on the records it sorts, no cache
      reads fewer containers; [do_restore_sends]: the packets of a restore
      job, [do_restore_many_files]: its limit.

    ** Bounds

    Loops that are not structural take fuel, and the theorems prove a result for
    enough of it: one unit per byte or per element is always enough, and is what
    the theorems ask for. [count_max] bounds container ids by [2^40], so that an
    offset in the pool fits 64 bits. A segment has fewer than 65536 chunks and a
    recipe less than 4 GB: these are the widths of the fields of a segment id
    (see [segment_id_roundtrip] for what happens beyond).

    ** Not modelled, and why

    In [Backup] the marks of har_rewrite.c without a rewriting algorithm are left
    out, and its steps let a segment be filtered as soon as it was looked up: they
    are those of the threads and more, so that what holds of all reachable states
    holds of those of the program; the theorems that a backup ends count only on
    the steps that the rewriting allows for sure ([released]). The sync queue of
    [SyncQueue] does not run out of memory. [Worker] is one worker: several would share the queues
    and the configuration of the chunking, which are globals. The nodes of
    [Cluster] run without simulation.
    The command line ([main] of destor.c only starts the server; usage, log and
    the printing of statistics write to the terminal), proxy.c, and the
    configuration of the client (an XML file, read by a bundled library) are input
    and output. Every call of Echash.cc, Receiving.cc and Assembling.cc of the
    client is commented out or gone. The sync queue and the queue of the client
    are the text of those of destor with tests for null pointers. sds_destor.c, an
    older copy of sds.c, is not built.
    Redis, GLib, libhashfile, OpenSSL, the erasure-coded storage (QFS, HDFS) and
    the other bundled libraries are third-party code.
    Timers, log messages and the release of memory are left out of the functions
    that are modelled. *)

From stdpp Require Export base numbers list gmap strings sorting.
From Stdlib Require Export ZArith Lia.

#[global] Open Scope Z_scope.

(** ** Failures of a C computation *)

(** [EAssert]: an [assert] of the source fails; [EExit n]: the source calls
    [exit(n)]; [ENull]: a null pointer is dereferenced; [EBounds]: an access
    outside an object; [EArith]: a division by zero or an out-of-range shift;
    [EFuel]: the bound given to a loop of the model is used up. *)
Inductive error : Set :=
| EAssert
| EExit (code : Z)
| ENull
| EBounds
| EArith
| EFuel.

#[export] Instance error_eq_dec : EqDecision error.
Proof. solve_decision. Defined.

Inductive res (A : Type) : Type :=
| Ok (a : A)
| Err (e : error).
Arguments Ok {A} _.
Arguments Err {A} _.

#[export] Instance res_eq_dec {A} `{!EqDecision A} : EqDecision (res A).
Proof. solve_decision. Defined.

#[export] Instance res_ret : MRet res := fun A a => Ok a.
#[export] Instance res_bind : MBind res := fun A B f m =>
  match m with Ok a => f a | Err e => Err e end.
#[export] Instance res_fmap : FMap res := fun A B f m =>
  match m with Ok a => Ok (f a) | Err e => Err e end.

(** [assert(b)] of the source. *)
Definition c_assert (b : bool) : res unit := if b then Ok tt else Err EAssert.

(** A pointer that the source dereferences without a test. *)
Definition deref {A} (o : option A) : res A :=
  match o with Some a => Ok a | None => Err ENull end.

(** Left fold of a fallible step: the [for] loops over a sequence. *)
Fixpoint foldM {S A} (f : S -> A -> res S) (s : S) (l : list A) : res S :=
  match l with
  | [] => Ok s
  | a :: l' => f s a ≫= fun s' => foldM f s' l'
  end.

Lemma bind_Ok {A B} (m : res A) (f : A -> res B) (b : B) :
  m ≫= f = Ok b <-> exists a, m = Ok a /\ f a = Ok b.
Proof.
  destruct m as [a|e]; cbn; split.
  - intros H. by exists a.
  - by intros (a' & [= <-] & H).
  - done.
  - by intros (? & ? & ?).
Qed.

(** One step of a computation, as a rewrite rule. *)
Lemma bind_ret {A B} (a : A) (f : A -> res B) : Ok a ≫= f = f a.
Proof. reflexivity. Qed.

Ltac step := rewrite bind_ret; cbv beta iota.

Lemma c_assert_Ok (b : bool) u : c_assert b = Ok u <-> b = true.
Proof. destruct b, u; cbn; naive_solver. Qed.

Lemma deref_Ok {A} (o : option A) a : deref o = Ok a <-> o = Some a.
Proof. destruct o; cbn; naive_solver. Qed.

Lemma foldM_app {S A} (f : S -> A -> res S) l1 l2 s :
  foldM f s (l1 ++ l2) = foldM f s l1 ≫= fun s' => foldM f s' l2.
Proof.
  revert s. induction l1 as [|a l1 IH]; intros s; [done|].
  cbn. destruct (f s a) as [s'|e]; cbn; [apply IH|done].
Qed.

(** An invariant of the step is an invariant of the loop. *)
Lemma foldM_inv {S A} (f : S -> A -> res S) (I : S -> Prop) l s s' :
  (forall s a s', a ∈ l -> I s -> f s a = Ok s' -> I s') ->
  I s -> foldM f s l = Ok s' -> I s'.
Proof.
  revert s. induction l as [|a l IH]; intros s Hf Hs; cbn.
  - by intros [= <-].
  - rewrite bind_Ok. intros (s1 & H1 & H2). eapply IH; [|eapply Hf|exact H2]; [|..|done]; try set_solver.
Qed.

(** A loop whose every step succeeds and keeps an invariant that knows what has
    been consumed runs to the end. *)
Lemma foldM_steps {S A} (f : S -> A -> res S) (I : S -> list A -> Prop) l s :
  (forall s done a todo, l = done ++ a :: todo -> I s done -> exists s', f s a = Ok s' /\ I s' (done ++ [a])) ->
  I s [] -> exists s', foldM f s l = Ok s' /\ I s' l.
Proof.
  intros Hf Hs. enough (G : forall todo done s, l = done ++ todo -> I s done -> exists s', foldM f s todo = Ok s' /\ I s' l) by by apply (G l []).
  clear s Hs. induction todo as [|a todo IH]; intros done s -> Hs.
  - exists s. rewrite app_nil_r in *. by split.
  - destruct (Hf s done a todo eq_refl Hs) as (s1 & E & H1). cbn. rewrite E. cbn. apply (IH (done ++ [a])); [by rewrite <- app_assoc|done].
Qed.

Lemma foldM_run {S A} (f : S -> A -> res S) (I : S -> list A -> Prop) (P : A -> Prop) l s :
  (forall s done a, I s done -> P a -> exists s', f s a = Ok s' /\ I s' (done ++ [a])) ->
  I s [] -> Forall P l -> exists s', foldM f s l = Ok s' /\ I s' l.
Proof.
  intros Hf Hs HP. apply foldM_steps; [|done]. intros s1 done a todo -> H1. apply Hf; [done|].
  by apply Forall_app in HP as [_ [? _]%Forall_cons].
Qed.

(** Destruct a successful sequence of binds into its steps. *)
Ltac res_inv :=
  repeat match goal with
  | H : _ ≫= _ = Ok _ |- _ => apply bind_Ok in H; destruct H as (? & ? & ?)
  | H : c_assert _ = Ok _ |- _ => apply c_assert_Ok in H
  | H : deref _ = Ok _ |- _ => apply deref_Ok in H
  | H : mret _ = Ok _ |- _ => cbn in H
  | H : Ok _ = Ok _ |- _ => injection H as H
  | H : Err _ = Ok _ |- _ => discriminate H
  end; simplify_eq.

(** Closed decidable goals, by evaluation. *)
Ltac decide_it := refine (bool_decide_unpack _ _); vm_compute; exact I.

(** ** Machine integers *)

(** Conversion to an unsigned or two's complement type of [w] bits. *)
Definition uwrap (w z : Z) : Z := z mod 2 ^ w.
Definition swrap (w z : Z) : Z := (z + 2 ^ (w - 1)) mod 2 ^ w - 2 ^ (w - 1).
#[global] Arguments uwrap : simpl never.
#[global] Arguments swrap : simpl never.

Abbreviation u8 := (uwrap 8).
Abbreviation u16 := (uwrap 16).
Abbreviation u32 := (uwrap 32).
Abbreviation u64 := (uwrap 64).
Abbreviation s16 := (swrap 16).
Abbreviation s32 := (swrap 32).
Abbreviation s64 := (swrap 64).

Definition in_u (w z : Z) : Prop := 0 <= z < 2 ^ w.
Definition in_s (w z : Z) : Prop := - 2 ^ (w - 1) <= z < 2 ^ (w - 1).

#[export] Instance in_u_dec w z : Decision (in_u w z).
Proof. unfold in_u. apply _. Defined.
#[export] Instance in_s_dec w z : Decision (in_s w z).
Proof. unfold in_s. apply _. Defined.

Lemma uwrap_range w z : 0 <= w -> in_u w (uwrap w z).
Proof. intros. apply Z.mod_pos_bound. lia. Qed.

Lemma uwrap_id w z : in_u w z -> uwrap w z = z.
Proof. apply Z.mod_small. Qed.

Lemma pow2_split w : 0 < w -> 2 ^ w = 2 * 2 ^ (w - 1).
Proof. intros. rewrite <- Z.pow_succ_r by lia. f_equal. lia. Qed.

Lemma swrap_range w z : 0 < w -> in_s w (swrap w z).
Proof.
  intros Hw. unfold in_s, swrap. pose proof (pow2_split w Hw).
  assert (0 < 2 ^ (w - 1)) by (apply Z.pow_pos_nonneg; lia).
  pose proof (Z.mod_pos_bound (z + 2 ^ (w - 1)) (2 ^ w)). lia.
Qed.

Lemma swrap_id w z : 0 < w -> in_s w z -> swrap w z = z.
Proof.
  intros Hw. unfold in_s, swrap. pose proof (pow2_split w Hw). intros ?.
  rewrite Z.mod_small by lia. lia.
Qed.

Lemma s32_id n : - 2 ^ 31 <= n < 2 ^ 31 -> s32 n = n.
Proof. intros. by apply swrap_id; [lia|]. Qed.

Lemma s64_id n : - 2 ^ 63 <= n < 2 ^ 63 -> s64 n = n.
Proof. intros. by apply swrap_id; [lia|]. Qed.

(** Going through the unsigned type of the same width loses nothing. *)
Lemma swrap_uwrap w z : 0 < w -> swrap w (uwrap w z) = swrap w z.
Proof.
  intros Hw. unfold swrap, uwrap. f_equal.
  rewrite Zplus_mod_idemp_l. done.
Qed.

Lemma uwrap_swrap w z : 0 < w -> uwrap w (swrap w z) = uwrap w z.
Proof.
  intros Hw. unfold swrap, uwrap.
  rewrite Zminus_mod_idemp_l. f_equal. lia.
Qed.

(** ** Bytes and buffers *)

(** A byte is an integer of [0..255]. Memory that was allocated and never
    written holds [undef], which is no byte: a result whose bytes are all in
    range was computed from written memory only. *)
Definition is_byte (b : Z) : Prop := 0 <= b < 256.
Definition undef : Z := -1.

#[export] Instance is_byte_dec b : Decision (is_byte b).
Proof. unfold is_byte. apply _. Defined.

Definition zlen {A} (l : list A) : Z := Z.of_nat (length l).

Definition ztake {A} (n : Z) (l : list A) : list A := take (Z.to_nat n) l.
Definition zdrop {A} (n : Z) (l : list A) : list A := drop (Z.to_nat n) l.

#[global] Arguments zlen : simpl never.
#[global] Arguments ztake : simpl never.
#[global] Arguments zdrop : simpl never.
#[global] Arguments Z.to_nat : simpl never.

(** [calloc]/[malloc] of [n] cells. *)
Definition zeros (n : Z) : list Z := replicate (Z.to_nat n) 0.
Definition fresh_bytes (n : Z) : list Z := replicate (Z.to_nat n) undef.

#[global] Arguments zeros : simpl never.
#[global] Arguments fresh_bytes : simpl never.

(** [memcpy(dst, buf + off, len)] and [memcpy(buf + off, src, |src|)], with the
    accesses checked against the size of [buf]. *)
Definition read_bytes (buf : list Z) (off len : Z) : res (list Z) :=
  if bool_decide (0 <= off /\ 0 <= len /\ off + len <= zlen buf)
  then Ok (ztake len (zdrop off buf)) else Err EBounds.

Definition write_bytes (buf : list Z) (off : Z) (src : list Z) : res (list Z) :=
  if bool_decide (0 <= off /\ off + zlen src <= zlen buf)
  then Ok (ztake off buf ++ src ++ zdrop (off + zlen src) buf) else Err EBounds.

Lemma zlen_nonneg {A} (l : list A) : 0 <= zlen l.
Proof. unfold zlen. lia. Qed.

Lemma zlen_nil {A} : zlen (@nil A) = 0.
Proof. done. Qed.

Lemma zlen_cons {A} (x : A) l : zlen (x :: l) = 1 + zlen l.
Proof. unfold zlen. cbn. lia. Qed.

Lemma zlen_app {A} (l1 l2 : list A) : zlen (l1 ++ l2) = zlen l1 + zlen l2.
Proof. unfold zlen. rewrite length_app. lia. Qed.

Lemma zlen_ztake {A} n (l : list A) : 0 <= n <= zlen l -> zlen (ztake n l) = n.
Proof. unfold zlen, ztake. rewrite length_take. lia. Qed.

Lemma zlen_zdrop {A} n (l : list A) : 0 <= n <= zlen l -> zlen (zdrop n l) = zlen l - n.
Proof. unfold zlen, zdrop. rewrite length_drop. lia. Qed.

Lemma zlen_zeros n : 0 <= n -> zlen (zeros n) = n.
Proof. unfold zlen, zeros. rewrite length_replicate. lia. Qed.

Lemma zlen_fresh n : 0 <= n -> zlen (fresh_bytes n) = n.
Proof. unfold zlen, fresh_bytes. rewrite length_replicate. lia. Qed.

Lemma ztake_zdrop {A} n (l : list A) : ztake n l ++ zdrop n l = l.
Proof. apply take_drop. Qed.

Lemma ztake_app_exact {A} n (l1 l2 : list A) : n = zlen l1 -> ztake n (l1 ++ l2) = l1.
Proof. intros ->. unfold ztake, zlen. rewrite Nat2Z.id. apply take_app_length. Qed.

Lemma zdrop_app_exact {A} n (l1 l2 : list A) : n = zlen l1 -> zdrop n (l1 ++ l2) = l2.
Proof. intros ->. unfold zdrop, zlen. rewrite Nat2Z.id. apply drop_app_length. Qed.

Lemma ztake_ge {A} n (l : list A) : zlen l <= n -> ztake n l = l.
Proof. unfold ztake, zlen. intros. apply take_ge. lia. Qed.

Lemma ztake_0 {A} (l : list A) : ztake 0 l = [].
Proof. done. Qed.

Lemma zdrop_0 {A} (l : list A) : zdrop 0 l = l.
Proof. done. Qed.

Lemma zdrop_zdrop {A} n m (l : list A) :
  0 <= n -> 0 <= m -> zdrop n (zdrop m l) = zdrop (m + n) l.
Proof. unfold zdrop. intros. rewrite drop_drop. f_equal. lia. Qed.

Lemma ztake_zdrop_ztake {A} a n off (l : list A) :
  0 <= a -> 0 <= n -> a + n <= off -> ztake n (zdrop a (ztake off l)) = ztake n (zdrop a l).
Proof.
  unfold ztake, zdrop. intros.
  assert (drop (Z.to_nat a) (take (Z.to_nat off) l) = take (Z.to_nat (off - a)) (drop (Z.to_nat a) l)) as ->.
  { rewrite take_drop_commute. do 2 f_equal. lia. }
  rewrite take_take. f_equal. lia.
Qed.

Lemma split_at_pos {A} (l : list A) n :
  0 <= n <= zlen l -> exists pre rest, l = pre ++ rest /\ zlen pre = n.
Proof. intros. exists (ztake n l), (zdrop n l). by rewrite ztake_zdrop, zlen_ztake. Qed.

Lemma read_bytes_Ok buf off len r :
  read_bytes buf off len = Ok r <->
  0 <= off /\ 0 <= len /\ off + len <= zlen buf /\ r = ztake len (zdrop off buf).
Proof. unfold read_bytes. case_bool_decide; split; [intros [= <-]|intros (?&?&?&->)|done|]; tauto. Qed.

Lemma write_bytes_Ok buf off src r :
  write_bytes buf off src = Ok r <->
  0 <= off /\ off + zlen src <= zlen buf /\
  r = ztake off buf ++ src ++ zdrop (off + zlen src) buf.
Proof. unfold write_bytes. case_bool_decide; split; [intros [= <-]|intros (?&?&->)|done|]; tauto. Qed.

Lemma read_bytes_len buf off len r : read_bytes buf off len = Ok r -> zlen r = len.
Proof.
  rewrite read_bytes_Ok. intros (?&?&?&->).
  rewrite zlen_ztake; [done|]. rewrite zlen_zdrop; lia.
Qed.

Lemma write_bytes_len buf off src r : write_bytes buf off src = Ok r -> zlen r = zlen buf.
Proof.
  rewrite write_bytes_Ok. intros (?&?&->). pose proof (zlen_nonneg src).
  rewrite !zlen_app, zlen_ztake, zlen_zdrop; lia.
Qed.

Lemma write_bytes_total buf off src :
  0 <= off -> off + zlen src <= zlen buf ->
  exists r, write_bytes buf off src = Ok r /\ zlen r = zlen buf.
Proof.
  intros. eexists. assert (write_bytes buf off src = Ok (ztake off buf ++ src ++ zdrop (off + zlen src) buf))
    by (apply write_bytes_Ok; done).
  split; [done|]. by eapply write_bytes_len.
Qed.

(** Appending at the write position of a buffer whose written prefix is [pre]. *)
Lemma write_bytes_app pre src rest off :
  off = zlen pre -> zlen src <= zlen rest ->
  write_bytes (pre ++ rest) off src = Ok ((pre ++ src) ++ zdrop (zlen src) rest).
Proof.
  intros -> ?. apply write_bytes_Ok. pose proof (zlen_nonneg pre). pose proof (zlen_nonneg src).
  rewrite zlen_app. split; [lia|]. split; [lia|].
  rewrite ztake_app_exact by done. rewrite <- zdrop_zdrop by lia.
  rewrite zdrop_app_exact by done. by rewrite app_assoc.
Qed.

(** Reading the [src] that follows a prefix [pre]. *)
Lemma read_bytes_app pre src rest off len :
  off = zlen pre -> len = zlen src -> read_bytes (pre ++ src ++ rest) off len = Ok src.
Proof.
  intros -> ->. apply read_bytes_Ok. rewrite !zlen_app.
  pose proof (zlen_nonneg pre). pose proof (zlen_nonneg src). pose proof (zlen_nonneg rest).
  repeat split; try lia. rewrite zdrop_app_exact by done. by rewrite ztake_app_exact.
Qed.

Lemma swrap_add w a b : 0 < w -> swrap w (swrap w a + b) = swrap w (a + b).
Proof.
  intros Hw. unfold swrap. f_equal.
  replace ((a + 2 ^ (w - 1)) mod 2 ^ w - 2 ^ (w - 1) + b + 2 ^ (w - 1)) with ((a + 2 ^ (w - 1)) mod 2 ^ w + b) by lia.
  rewrite Zplus_mod_idemp_l. f_equal. lia.
Qed.

Lemma zlen_nil_inv {A} (l : list A) : zlen l = 0 -> l = [].
Proof. destruct l; [done|]. rewrite zlen_cons. pose proof (zlen_nonneg l). lia. Qed.

Lemma ztake_ztake {A} n m (l : list A) : 0 <= n -> ztake n (ztake m l) = ztake (n `min` m) l.
Proof. intros. unfold ztake. rewrite take_take. f_equal. lia. Qed.

Lemma ztake_zdrop_comm {A} n k (l : list A) : 0 <= k <= n -> ztake (n - k) (zdrop k l) = zdrop k (ztake n l).
Proof. intros. unfold ztake, zdrop. rewrite take_drop_commute. do 2 f_equal. lia. Qed.

Lemma ztake_prefix {A} n (l1 l2 : list A) : n <= zlen l1 -> ztake n (l1 ++ l2) = ztake n l1.
Proof. unfold ztake, zlen. intros. apply take_app_le. lia. Qed.

Lemma read_all b n : n = zlen b -> read_bytes b 0 n = Ok b.
Proof.
  intros ->. apply read_bytes_Ok. rewrite zdrop_0, ztake_ge by lia. pose proof (zlen_nonneg b). split_and!; [lia..|done].
Qed.

Lemma write_all d b : zlen d = zlen b -> write_bytes d 0 b = Ok b.
Proof.
  intros Hd. apply write_bytes_Ok. split_and!; [lia..|]. rewrite ztake_0, app_nil_l, Z.add_0_l.
  rewrite <- Hd. unfold zdrop, zlen. rewrite Nat2Z.id, drop_ge by lia. by rewrite app_nil_r.
Qed.

#[export] Hint Resolve zlen_nonneg : core.
Create Rewrite HintDb zlen.
#[export] Hint Rewrite @zlen_nil @zlen_cons @zlen_app : zlen.

(** ** Integers in memory *)

(** The host is little-endian: [le_bytes n z] is the image of an [n]-byte
    integer, [le_val] reads it back as an unsigned value. *)
Fixpoint le_bytes (n : nat) (z : Z) : list Z :=
  match n with
  | O => []
  | S n => z mod 256 :: le_bytes n (z / 256)
  end.

Fixpoint le_val (l : list Z) : Z :=
  match l with
  | [] => 0
  | b :: l => b + 256 * le_val l
  end.

Lemma length_le_bytes n z : length (le_bytes n z) = n.
Proof. revert z. induction n; cbn; auto. Qed.

Lemma zlen_le_bytes n z : zlen (le_bytes n z) = Z.of_nat n.
Proof. unfold zlen. by rewrite length_le_bytes. Qed.
#[export] Hint Rewrite zlen_le_bytes : zlen.

(** Linear goals about lengths of concatenations. *)
Ltac zlen := repeat (progress autorewrite with zlen in * ); try lia.

Lemma le_bytes_is_byte n z : Forall is_byte (le_bytes n z).
Proof.
  revert z. induction n; intros z; cbn; constructor; [|done].
  apply Z.mod_pos_bound. lia.
Qed.

Lemma le_val_bytes n z : le_val (le_bytes n z) = z mod 2 ^ (8 * Z.of_nat n).
Proof.
  revert z. induction n as [|n IH]; intros z.
  - cbn. by rewrite Z.mod_1_r.
  - change (le_val (le_bytes (S n) z)) with (z mod 256 + 256 * le_val (le_bytes n (z / 256))).
    rewrite IH. replace (8 * Z.of_nat (S n)) with (8 + 8 * Z.of_nat n) by lia.
    rewrite Z.pow_add_r by lia. change (2 ^ 8) with 256.
    symmetry. apply Z.rem_mul_r; [lia|]. apply Z.pow_pos_nonneg; lia.
Qed.

Lemma le_val_bound l : Forall is_byte l -> 0 <= le_val l < 2 ^ (8 * zlen l).
Proof.
  induction 1 as [|b l Hb _ IH]; [done|].
  rewrite zlen_cons. replace (8 * (1 + zlen l)) with (8 + 8 * zlen l) by lia.
  rewrite Z.pow_add_r by (pose proof (zlen_nonneg l); lia). change (2 ^ 8) with 256.
  unfold is_byte in Hb. change (le_val (b :: l)) with (b + 256 * le_val l). lia.
Qed.

Lemma le_bytes_val l : Forall is_byte l -> le_bytes (length l) (le_val l) = l.
Proof.
  induction 1 as [|b l Hb _ IH]; cbn [length le_bytes le_val]; [done|].
  unfold is_byte in Hb. f_equal.
  - rewrite Z.mul_comm, Z_mod_plus_full. by apply Z.mod_small.
  - rewrite Z.mul_comm, Z_div_plus_full by lia. by rewrite Z.div_small, Z.add_0_l.
Qed.

(** An [n]-byte two's complement integer survives a store and a load. *)
Lemma le_load_signed n z :
  (0 < n)%nat -> in_s (8 * Z.of_nat n) z ->
  swrap (8 * Z.of_nat n) (le_val (le_bytes n z)) = z.
Proof.
  intros Hn Hz. rewrite le_val_bytes.
  change (z mod 2 ^ (8 * Z.of_nat n)) with (uwrap (8 * Z.of_nat n) z).
  rewrite swrap_uwrap by lia. by apply swrap_id; [lia|].
Qed.

Lemma le_load_unsigned n z :
  in_u (8 * Z.of_nat n) z -> le_val (le_bytes n z) = z.
Proof. intros. rewrite le_val_bytes. by apply uwrap_id. Qed.

(** The value of the bytes in reverse order is what a byte swap computes. *)
Definition bswap (n : nat) (z : Z) : Z := le_val (rev (le_bytes n z)).

Lemma rev_is_byte l : Forall is_byte l -> Forall is_byte (rev l).
Proof. rewrite !Forall_forall. intros H x Hx. apply H. by rewrite list_elem_of_In, in_rev, <- list_elem_of_In. Qed.

#[global] Arguments le_bytes : simpl never.
