(* ===== verification/Serial.v ===== *)
(** Serialisation of integers and strings: [destor/src/utils/serial.c] and the
    [ser_*]/[unser_*] macros of [serial.h].

    The [uint8_t **ptr] argument is a [cursor]: the object pointed into and the
    offset of [*ptr] in it. The functions write through the pointer and advance
    it. [Codec] is the interface the record formats of the container store use:
    what one [serial_*] function writes and that its [unserial_*] reads it. *)

From S2P Require Import Prelude.

(** ** Byte order *)

(** [htons], [htonl], [ntohs] and [ntohl] of a little-endian host. *)
Definition htons (v : Z) : Z := bswap 2 v.
Definition htonl (v : Z) : Z := bswap 4 v.
Definition ntohs (v : Z) : Z := bswap 2 v.
Definition ntohl (v : Z) : Z := bswap 4 v.

Record cursor := mk_cursor { mem : list Z; pos : Z }.

(** [memcpy( *ptr, bs, |bs|); *ptr += |bs|] and the reading counterpart. *)
Definition put (p : cursor) (bs : list Z) : res cursor :=
  m ← write_bytes (mem p) (pos p) bs;
  Ok (mk_cursor m (pos p + zlen bs)).

Definition get (p : cursor) (n : Z) : res (list Z * cursor) :=
  bs ← read_bytes (mem p) (pos p) n;
  Ok (bs, mk_cursor (mem p) (pos p + n)).

(** ** Serialisation *)

Definition serial_int16 (p : cursor) (v : Z) : res cursor :=
  let vo := s16 (htons (u16 v)) in put p (le_bytes 2 vo).

Definition serial_uint16 (p : cursor) (v : Z) : res cursor :=
  let vo := u16 (htons v) in put p (le_bytes 2 vo).

Definition serial_int32 (p : cursor) (v : Z) : res cursor :=
  let vo := s32 (htonl (u32 v)) in put p (le_bytes 4 vo).

Definition serial_uint32 (p : cursor) (v : Z) : res cursor :=
  let vo := u32 (htonl v) in put p (le_bytes 4 vo).

(** [rv[i] = pv[7 - i]] for [i = 0..7]. *)
Definition reverse8 (pv : list Z) : list Z :=
  map (fun i => nth (7 - i) pv 0) (seq 0 8).

Definition serial_int64 (p : cursor) (v : Z) : res cursor :=
  if htonl 1 =? 1 then put p (le_bytes 8 v) else put p (reverse8 (le_bytes 8 v)).

Definition serial_uint64 (p : cursor) (v : Z) : res cursor :=
  if htonl 1 =? 1 then put p (le_bytes 8 v) else put p (reverse8 (le_bytes 8 v)).

(** A C string is the list of its bytes before the terminating NUL. *)
Definition serial_string (p : cursor) (str : list Z) : res cursor :=
  put p (str ++ [0]).

(** ** Deserialisation *)

Definition unserial_int16 (p : cursor) : res (Z * cursor) :=
  '(bs, q) ← get p 2; let vo := s16 (le_val bs) in Ok (s16 (ntohs (u16 vo)), q).

Definition unserial_uint16 (p : cursor) : res (Z * cursor) :=
  '(bs, q) ← get p 2; Ok (u16 (ntohs (le_val bs)), q).

Definition unserial_int32 (p : cursor) : res (Z * cursor) :=
  '(bs, q) ← get p 4; let vo := s32 (le_val bs) in Ok (s32 (ntohl (u32 vo)), q).

Definition unserial_uint32 (p : cursor) : res (Z * cursor) :=
  '(bs, q) ← get p 4; Ok (u32 (ntohl (le_val bs)), q).

Definition unserial_int64 (p : cursor) : res (Z * cursor) :=
  '(bs, q) ← get p 8;
  if htonl 1 =? 1 then Ok (s64 (le_val bs), q) else Ok (s64 (le_val (reverse8 bs)), q).

Definition unserial_uint64 (p : cursor) : res (Z * cursor) :=
  '(bs, q) ← get p 8;
  if htonl 1 =? 1 then Ok (le_val bs, q) else Ok (le_val (reverse8 bs), q).

(** [strlen] of the bytes at an address: the object ends before a NUL is found
    when the result is [None]. *)
Fixpoint c_strlen (l : list Z) : option Z :=
  match l with
  | [] => None
  | b :: l => if b =? 0 then Some 0 else Z.succ <$> c_strlen l
  end.

(** [dst] is the object the [str] argument points to. *)
Definition unserial_string (p : cursor) (dst : list Z) : res (list Z * cursor) :=
  match c_strlen (zdrop (pos p) (mem p)) with
  | None => Err EBounds
  | Some n =>
      '(bs, q) ← get p (n + 1);
      dst' ← write_bytes dst 0 bs;
      Ok (dst', q)
  end.

(** ** The codec interface *)

(** [ser] writes the [codec_bytes] of a value, always [codec_size] of them, and
    [unser] reads a value of the domain back from them. *)
Class Codec (ser : cursor -> Z -> res cursor) (unser : cursor -> res (Z * cursor))
    (dom : Z -> Prop) := {
  codec_size : Z;
  codec_bytes : Z -> list Z;
  codec_len v : zlen (codec_bytes v) = codec_size;
  codec_ser p v : ser p v = put p (codec_bytes v);
  codec_unser pre v rest : dom v ->
    unser (mk_cursor (pre ++ codec_bytes v ++ rest) (zlen pre)) =
    Ok (v, mk_cursor (pre ++ codec_bytes v ++ rest) (zlen pre + codec_size));
}.

Lemma get_app pre bs rest n :
  n = zlen bs ->
  get (mk_cursor (pre ++ bs ++ rest) (zlen pre)) n =
  Ok (bs, mk_cursor (pre ++ bs ++ rest) (zlen pre + n)).
Proof. intros ->. unfold get. cbn. by rewrite (read_bytes_app pre bs rest). Qed.

Lemma put_app pre bs rest :
  zlen bs <= zlen rest ->
  put (mk_cursor (pre ++ rest) (zlen pre)) bs =
  Ok (mk_cursor ((pre ++ bs) ++ zdrop (zlen bs) rest) (zlen (pre ++ bs))).
Proof.
  intros. unfold put. cbn. rewrite write_bytes_app by done. cbn. by rewrite zlen_app.
Qed.

Lemma le_bytes_mod n z : le_bytes n (z mod 2 ^ (8 * Z.of_nat n)) = le_bytes n z.
Proof.
  rewrite <- le_val_bytes.
  pose proof (le_bytes_val (le_bytes n z) (le_bytes_is_byte n z)) as H.
  by rewrite length_le_bytes in H.
Qed.

Lemma le_bytes_uwrap w n z : w = 8 * Z.of_nat n -> le_bytes n (uwrap w z) = le_bytes n z.
Proof. intros ->. apply le_bytes_mod. Qed.

Lemma le_bytes_swrap w n z : (0 < n)%nat -> w = 8 * Z.of_nat n -> le_bytes n (swrap w z) = le_bytes n z.
Proof.
  intros Hn ->. rewrite <- (le_bytes_mod n (swrap _ z)), <- (le_bytes_mod n z).
  f_equal. by apply uwrap_swrap; lia.
Qed.

(** Storing a swapped integer stores its bytes in network order. *)
Lemma le_bytes_bswap n z : le_bytes n (bswap n z) = rev (le_bytes n z).
Proof.
  unfold bswap. rewrite <- (length_le_bytes n z) at 1. rewrite <- length_rev at 1.
  apply le_bytes_val, rev_is_byte, le_bytes_is_byte.
Qed.

Lemma bswap_involutive n z : bswap n (bswap n z) = z mod 2 ^ (8 * Z.of_nat n).
Proof. unfold bswap at 1. by rewrite le_bytes_bswap, rev_involutive, le_val_bytes. Qed.

Lemma bswap_range n z : in_u (8 * Z.of_nat n) (bswap n z).
Proof.
  unfold bswap, in_u. pose proof (le_val_bound (rev (le_bytes n z))
    (rev_is_byte _ (le_bytes_is_byte n z))) as H.
  unfold zlen in H. by rewrite length_rev, length_le_bytes in H.
Qed.

Lemma le_val_rev_bytes n z : le_val (rev (le_bytes n z)) = bswap n z.
Proof. done. Qed.

Lemma reverse8_rev l : length l = 8%nat -> reverse8 l = rev l.
Proof. intros. by do 9 (destruct l as [|? l]; try done). Qed.

(** The six integer codecs all write the value's bytes in reverse. *)
Definition be_bytes (n : nat) (v : Z) : list Z := rev (le_bytes n v).
#[global] Arguments be_bytes : simpl never.

Lemma zlen_be_bytes n v : zlen (be_bytes n v) = Z.of_nat n.
Proof. unfold be_bytes, zlen. by rewrite length_rev, length_le_bytes. Qed.

Local Ltac codec_ser_tac w n :=
  intros p v; cbv [serial_int16 serial_uint16 serial_int32 serial_uint32 htons htonl be_bytes];
  rewrite ?(le_bytes_swrap w n) by lia; rewrite ?(le_bytes_uwrap w n) by lia;
  rewrite le_bytes_bswap; rewrite ?(le_bytes_uwrap w n) by lia; reflexivity.

Local Ltac codec_unser_tac n :=
  intros pre v rest Hv;
  cbv [unserial_int16 unserial_uint16 unserial_int32 unserial_uint32 unserial_int64
       unserial_uint64];
  rewrite get_app by (by rewrite zlen_be_bytes);
  cbn [mbind res_bind]; unfold be_bytes.

#[export] Instance codec_int16 : Codec serial_int16 unserial_int16 (in_s 16).
Proof.
  refine {| codec_size := 2; codec_bytes := be_bytes 2 |}.
  - apply zlen_be_bytes.
  - codec_ser_tac 16 2%nat.
  - codec_unser_tac 2. rewrite le_val_rev_bytes, uwrap_swrap, uwrap_id by (done || apply (bswap_range 2)).
    unfold ntohs. rewrite bswap_involutive. do 2 f_equal.
    change (v mod 2 ^ (8 * Z.of_nat 2)) with (uwrap 16 v). rewrite swrap_uwrap by done. by apply swrap_id.
Defined.

#[export] Instance codec_uint16 : Codec serial_uint16 unserial_uint16 (in_u 16).
Proof.
  refine {| codec_size := 2; codec_bytes := be_bytes 2 |}.
  - apply zlen_be_bytes.
  - codec_ser_tac 16 2%nat.
  - codec_unser_tac 2. rewrite le_val_rev_bytes. unfold ntohs. rewrite bswap_involutive.
    do 2 f_equal.
    change (v mod 2 ^ (8 * Z.of_nat 2)) with (uwrap 16 v). by rewrite !(uwrap_id 16 v).
Defined.

#[export] Instance codec_int32 : Codec serial_int32 unserial_int32 (in_s 32).
Proof.
  refine {| codec_size := 4; codec_bytes := be_bytes 4 |}.
  - apply zlen_be_bytes.
  - codec_ser_tac 32 4%nat.
  - codec_unser_tac 4. rewrite le_val_rev_bytes, uwrap_swrap, uwrap_id by (done || apply (bswap_range 4)).
    unfold ntohl. rewrite bswap_involutive. do 2 f_equal.
    change (v mod 2 ^ (8 * Z.of_nat 4)) with (uwrap 32 v). rewrite swrap_uwrap by done. by apply swrap_id.
Defined.

#[export] Instance codec_uint32 : Codec serial_uint32 unserial_uint32 (in_u 32).
Proof.
  refine {| codec_size := 4; codec_bytes := be_bytes 4 |}.
  - apply zlen_be_bytes.
  - codec_ser_tac 32 4%nat.
  - codec_unser_tac 4. rewrite le_val_rev_bytes. unfold ntohl. rewrite bswap_involutive.
    do 2 f_equal.
    change (v mod 2 ^ (8 * Z.of_nat 4)) with (uwrap 32 v). by rewrite !(uwrap_id 32 v).
Defined.

#[export] Instance codec_int64 : Codec serial_int64 unserial_int64 (in_s 64).
Proof.
  refine {| codec_size := 8; codec_bytes := be_bytes 8 |}.
  - apply zlen_be_bytes.
  - intros p v. unfold serial_int64. change (htonl 1 =? 1) with false.
    cbn match. by rewrite reverse8_rev by apply length_le_bytes.
  - codec_unser_tac 8. change (htonl 1 =? 1) with false. cbn match.
    rewrite reverse8_rev by (by rewrite length_rev, length_le_bytes). rewrite rev_involutive.
    do 2 f_equal. by apply (le_load_signed 8); [lia|].
Defined.

#[export] Instance codec_uint64 : Codec serial_uint64 unserial_uint64 (in_u 64).
Proof.
  refine {| codec_size := 8; codec_bytes := be_bytes 8 |}.
  - apply zlen_be_bytes.
  - intros p v. unfold serial_uint64. change (htonl 1 =? 1) with false.
    cbn match. by rewrite reverse8_rev by apply length_le_bytes.
  - codec_unser_tac 8. change (htonl 1 =? 1) with false. cbn match.
    rewrite reverse8_rev by (by rewrite length_rev, length_le_bytes). rewrite rev_involutive.
    do 2 f_equal. by apply (le_load_unsigned 8).
Defined.

(** ** Formats *)

(** [writes f bs]: [f] appends the bytes [bs] at the write position, whatever
    precedes it and provided they fit. [reads f v bs]: at the bytes [bs], [f]
    returns [v] and moves past them. Record formats are built from these. *)
Definition writes (f : cursor -> res cursor) (bs : list Z) : Prop :=
  forall pre rest, zlen bs <= zlen rest ->
  f (mk_cursor (pre ++ rest) (zlen pre)) =
  Ok (mk_cursor ((pre ++ bs) ++ zdrop (zlen bs) rest) (zlen (pre ++ bs))).

Definition reads {A} (f : cursor -> res (A * cursor)) (v : A) (bs : list Z) : Prop :=
  forall pre rest,
  f (mk_cursor (pre ++ bs ++ rest) (zlen pre)) =
  Ok (v, mk_cursor (pre ++ bs ++ rest) (zlen (pre ++ bs))).

Lemma writes_put bs : writes (fun cur => put cur bs) bs.
Proof. intros pre rest ?. by apply put_app. Qed.

Lemma writes_nil : writes (fun cur => Ok cur) [].
Proof. intros pre rest _. by rewrite app_nil_r. Qed.

Lemma writes_codec ser unser dom `{C : !Codec ser unser dom} v :
  writes (fun cur => ser cur v) (codec_bytes v).
Proof. intros pre rest ?. rewrite codec_ser. by apply put_app. Qed.

Lemma writes_bind f g b1 b2 :
  writes f b1 -> writes g b2 -> writes (fun cur => f cur ≫= g) (b1 ++ b2).
Proof.
  intros Hf Hg pre rest. rewrite zlen_app. intros ?.
  pose proof (zlen_nonneg b1). pose proof (zlen_nonneg b2).
  rewrite Hf by lia. cbn. rewrite Hg by (rewrite zlen_zdrop; lia).
  by rewrite zdrop_zdrop, !app_assoc by lia.
Qed.

Lemma writes_foldM {A} (f : cursor -> A -> res cursor) (enc : A -> list Z) l :
  (forall a, a ∈ l -> writes (fun cur => f cur a) (enc a)) ->
  writes (fun cur => foldM f cur l) (concat (map enc l)).
Proof.
  induction l as [|a l IH]; intros Ha; cbn; [apply writes_nil|].
  apply (writes_bind (fun cur => f cur a) (fun cur => foldM f cur l)); [apply Ha|apply IH; intros; apply Ha]; set_solver.
Qed.

Lemma reads_get bs n : n = zlen bs -> reads (fun cur => get cur n) bs bs.
Proof. intros -> pre rest. rewrite get_app by done. by rewrite zlen_app. Qed.

Lemma reads_ret {A} (v : A) : reads (fun cur => Ok (v, cur)) v [].
Proof. intros pre rest. by rewrite app_nil_r. Qed.

Lemma reads_codec ser unser (dom : Z -> Prop) `{C : !Codec ser unser dom} v :
  dom v -> reads unser v (codec_bytes v).
Proof. intros ? pre rest. rewrite codec_unser by done. by rewrite zlen_app, codec_len. Qed.

Lemma reads_bind {A B} (f : cursor -> res (A * cursor)) (g : A -> cursor -> res (B * cursor)) v w b1 b2 :
  reads f v b1 -> reads (g v) w b2 ->
  reads (fun cur => '(v, cur) ← f cur; g v cur) w (b1 ++ b2).
Proof.
  intros Hf Hg pre rest. rewrite <- app_assoc, Hf. cbn.
  rewrite (app_assoc pre b1), Hg. by rewrite <- !app_assoc.
Qed.

Lemma reads_guard {A} (b : bool) (f : cursor -> res (A * cursor)) v bs :
  b = true -> reads f v bs -> reads (fun cur => c_assert b ≫= fun _ => f cur) v bs.
Proof. intros -> Hf. exact Hf. Qed.

(** ** Round trips *)

(** What a writer and its reader promise to a caller that has [n] bytes of
    room: the writer succeeds, advances the pointer by [n], changes no byte
    before or after them, and the reader started at the same place returns the
    value and the same pointer. *)
Definition roundtrips (ser : cursor -> Z -> res cursor) (unser : cursor -> res (Z * cursor))
    (dom : Z -> Prop) (n : Z) : Prop :=
  forall p v, dom v -> 0 <= pos p -> pos p + n <= zlen (mem p) ->
  exists q, ser p v = Ok q /\ pos q = pos p + n /\ zlen (mem q) = zlen (mem p) /\
    ztake (pos p) (mem q) = ztake (pos p) (mem p) /\
    zdrop (pos p + n) (mem q) = zdrop (pos p + n) (mem p) /\
    unser (mk_cursor (mem q) (pos p)) = Ok (v, q).

Lemma codec_roundtrips ser unser dom `{C : !Codec ser unser dom} :
  roundtrips ser unser dom codec_size.
Proof.
  intros [m o] v Hv Ho Hn. cbn in *. rewrite codec_ser.
  pose proof (codec_len v) as Hlen. pose proof (zlen_nonneg (codec_bytes v)).
  destruct (split_at_pos m o) as (pre & rest & -> & <-); [lia|].
  rewrite zlen_app in Hn. rewrite put_app by lia.
  eexists. split; [reflexivity|]. cbn [mem pos].
  rewrite <- app_assoc, !zlen_app, zlen_zdrop by lia. repeat split; try lia.
  - by rewrite !ztake_app_exact.
  - rewrite app_assoc, !zdrop_app_exact by (rewrite ?zlen_app; lia).
    rewrite <- zdrop_zdrop, zdrop_app_exact by (done || lia). by rewrite Hlen.
  - rewrite codec_unser by done. by rewrite Hlen.
Qed.

(** ** Properties *)

(** Each [serial_*] integer function of [serial.c], given room for its
    type, writes exactly the bytes of the value, advances the pointer by the
    size of the type and leaves every other byte alone, and its [unserial_*]
    counterpart reads the value back and advances by the same amount; for every
    value of the 16, 32 and 64-bit signed and unsigned types. *)
Theorem serial_roundtrip :
  roundtrips serial_int16 unserial_int16 (in_s 16) 2 /\
  roundtrips serial_uint16 unserial_uint16 (in_u 16) 2 /\
  roundtrips serial_int32 unserial_int32 (in_s 32) 4 /\
  roundtrips serial_uint32 unserial_uint32 (in_u 32) 4 /\
  roundtrips serial_int64 unserial_int64 (in_s 64) 8 /\
  roundtrips serial_uint64 unserial_uint64 (in_u 64) 8.
Proof.
  exact (conj (codec_roundtrips _ _ _ (C := codec_int16))
        (conj (codec_roundtrips _ _ _ (C := codec_uint16))
        (conj (codec_roundtrips _ _ _ (C := codec_int32))
        (conj (codec_roundtrips _ _ _ (C := codec_uint32))
        (conj (codec_roundtrips _ _ _ (C := codec_int64))
              (codec_roundtrips _ _ _ (C := codec_uint64))))))).
Qed.

Lemma c_strlen_str str rest :
  Forall (fun b => b <> 0) str -> c_strlen (str ++ [0] ++ rest) = Some (zlen str).
Proof.
  induction 1 as [|b str Hb _ IH]; cbn; [done|].
  destruct (Z.eqb_spec b 0); [done|]. cbn in IH. rewrite IH. cbn. by rewrite zlen_cons, Z.add_1_l.
Qed.

(** A NUL-free string written by [serial_string] is read back by
    [unserial_string] into any destination that has room for it and its NUL,
    and the reader's pointer ends where the writer's did. *)
Theorem serial_string_roundtrip p str dst :
  Forall (fun b => b <> 0) str ->
  0 <= pos p -> pos p + zlen str + 1 <= zlen (mem p) -> zlen str + 1 <= zlen dst ->
  exists q dst', serial_string p str = Ok q /\
    unserial_string (mk_cursor (mem q) (pos p)) dst = Ok (dst', q) /\
    dst' = str ++ [0] ++ zdrop (zlen str + 1) dst.
Proof.
  destruct p as [m o]. cbn. intros Hs Ho Hn Hd. pose proof (zlen_nonneg str).
  destruct (split_at_pos m o) as (pre & rest & -> & <-); [lia|].
  rewrite zlen_app in Hn. unfold serial_string.
  rewrite put_app by zlen.
  do 2 eexists. split; [reflexivity|]. split; [|reflexivity].
  unfold unserial_string. cbn [mem pos].
  rewrite <- !app_assoc, zdrop_app_exact, c_strlen_str by done.
  rewrite (app_assoc str), get_app by zlen.
  cbn [mbind res_bind]. assert (write_bytes dst 0 (str ++ [0]) =
    Ok (str ++ [0] ++ zdrop (zlen str + 1) dst)) as ->.
  { apply write_bytes_Ok. rewrite <- app_assoc. zlen. repeat split; lia. }
  cbn. do 3 f_equal. zlen.
Qed.

Lemma serial_string_roundtrip_witness :
  exists q dst', serial_string (mk_cursor (zeros 8) 2) [104; 105] = Ok q /\
    unserial_string (mk_cursor (mem q) 2) (zeros 4) = Ok (dst', q) /\
    dst' = [104; 105; 0; 0].
Proof.
  apply (serial_string_roundtrip (mk_cursor (zeros 8) 2) [104; 105] (zeros 4)); decide_it.
Defined.
