(* ===== verification/CFile.v ===== *)
(** The C library the source uses on its files: a [FILE] opened for update is
    its contents and the position indicator. Input and output errors are not
    modelled: a disk is never full. Reading past the end of a file returns the
    bytes there are; writing past the end leaves a hole of zero bytes. *)

From S2P Require Import Prelude.

Record file := mk_file { fdata : list Z; fpos : Z }.

(** [fopen(name, "w+")]. *)
Definition empty_file : file := mk_file [] 0.

(** [fseek(fp, off, SEEK_SET)] is an error for a negative offset. *)
Definition fseek (f : file) (off : Z) : res file :=
  if off <? 0 then Err EBounds else Ok (mk_file (fdata f) off).

(** [fwrite(bs, |bs|, 1, fp)]. *)
Definition file_write (data : list Z) (off : Z) (bs : list Z) : list Z :=
  let d := data ++ zeros (off - zlen data) in
  ztake off d ++ bs ++ zdrop (off + zlen bs) d.
Definition fwrite (f : file) (bs : list Z) : file :=
  mk_file (file_write (fdata f) (fpos f) bs) (fpos f + zlen bs).

(** [fread(buf, n, 1, fp)]: the bytes read, [n] of them unless the file ends. *)
Definition fread (f : file) (n : Z) : list Z * file :=
  let bs := ztake n (zdrop (fpos f) (fdata f)) in (bs, mk_file (fdata f) (fpos f + zlen bs)).

(** [fread] into an object: what is not read keeps its contents. *)
Definition fread_into (f : file) (buf : list Z) (n : Z) : res (list Z * file) :=
  let '(bs, f) := fread f n in
  if n <=? zlen buf then m ← write_bytes buf 0 bs; Ok (m, f) else Err EBounds.

Lemma fseek_Ok f off g : fseek f off = Ok g <-> 0 <= off /\ g = mk_file (fdata f) off.
Proof.
  unfold fseek. destruct (Z.ltb_spec off 0); split; try (intros [= <-]); try (intros [? ->]); try done; lia.
Qed.

(** Reading never changes the contents. *)
Lemma fread_into_data f buf n b g : fread_into f buf n = Ok (b, g) -> fdata g = fdata f.
Proof.
  unfold fread_into, fread. destruct (n <=? zlen buf); [|discriminate].
  intros H. apply bind_Ok in H as (? & _ & H). injection H as _ <-. reflexivity.
Qed.

(** ** Regions of a file *)

(** [bs] are the bytes at offset [off]. *)
Definition file_has (data : list Z) (off : Z) (bs : list Z) : Prop :=
  exists pre post, data = pre ++ bs ++ post /\ zlen pre = off.

Lemma zlen_zeros_max n : zlen (zeros n) = 0 `max` n.
Proof. unfold zlen, zeros. rewrite length_replicate. lia. Qed.

Lemma file_write_has data off bs : 0 <= off -> file_has (file_write data off bs) off bs.
Proof.
  intros. unfold file_write.
  eexists _, _. split; [reflexivity|]. apply zlen_ztake. zlen. rewrite zlen_zeros_max.
  pose proof (zlen_nonneg data). lia.
Qed.

Lemma ztake_app_le {A} n (l1 l2 : list A) : 0 <= n <= zlen l1 -> ztake n (l1 ++ l2) = ztake n l1.
Proof. unfold ztake, zlen. intros. apply take_app_le. lia. Qed.

Lemma ztake_app_ge {A} n (l1 l2 : list A) : zlen l1 <= n -> ztake n (l1 ++ l2) = l1 ++ ztake (n - zlen l1) l2.
Proof. unfold ztake, zlen. intros. rewrite take_app_ge by lia. do 2 f_equal. lia. Qed.

Lemma zdrop_app_le {A} n (l1 l2 : list A) : 0 <= n <= zlen l1 -> zdrop n (l1 ++ l2) = zdrop n l1 ++ l2.
Proof. unfold zdrop, zlen. intros. apply drop_app_le. lia. Qed.

Lemma zdrop_app_ge {A} n (l1 l2 : list A) : zlen l1 <= n -> zdrop n (l1 ++ l2) = zdrop (n - zlen l1) l2.
Proof. unfold zdrop, zlen. intros. rewrite drop_app_ge by lia. f_equal. lia. Qed.

(** A write leaves the bytes outside it alone. *)
Lemma file_write_other data off w roff bs :
  0 <= off -> file_has data roff bs -> roff + zlen bs <= off \/ off + zlen w <= roff ->
  file_has (file_write data off w) roff bs.
Proof.
  intros Hoff (pre & post & -> & Hpre) Hd. unfold file_write.
  set (z := zeros _). rewrite <- !app_assoc. pose proof (zlen_nonneg pre).
  pose proof (zlen_nonneg bs). pose proof (zlen_nonneg w).
  destruct Hd as [Hd|Hd].
  - rewrite ztake_app_ge by lia. rewrite ztake_app_ge by lia. rewrite <- !app_assoc.
    eexists pre, _. split; [reflexivity|done].
  - rewrite (zdrop_app_le _ pre) by lia. rewrite !app_assoc.
    rewrite <- (app_assoc _ post), <- (app_assoc _ bs).
    eexists _, _. split; [reflexivity|].
    rewrite <- !app_assoc. rewrite ztake_app_le by lia.
    rewrite !zlen_app, zlen_ztake, zlen_zdrop by lia. lia.
Qed.

Lemma fread_has f bs n :
  file_has (fdata f) (fpos f) bs -> n = zlen bs ->
  fread f n = (bs, mk_file (fdata f) (fpos f + n)).
Proof.
  intros (pre & post & Hf & Hpre) ->. unfold fread.
  assert (Hr : ztake (zlen bs) (zdrop (fpos f) (fdata f)) = bs).
  { rewrite Hf, zdrop_app_exact by done. by apply ztake_app_exact. }
  by rewrite Hr.
Qed.

(** Part of a region is a region. *)
Lemma file_has_sub data off l1 bs l2 :
  file_has data off (l1 ++ bs ++ l2) -> file_has data (off + zlen l1) bs.
Proof.
  intros (pre & post & -> & <-). exists (pre ++ l1), (l2 ++ post).
  rewrite <- !app_assoc. split; [done|]. by rewrite zlen_app.
Qed.

Lemma fread_into_has f buf bs :
  file_has (fdata f) (fpos f) bs -> zlen buf = zlen bs ->
  fread_into f buf (zlen bs) = Ok (bs, mk_file (fdata f) (fpos f + zlen bs)).
Proof.
  intros H Hb. unfold fread_into. rewrite (fread_has f bs) by done.
  destruct (Z.leb_spec (zlen bs) (zlen buf)); [|lia].
  pose proof (write_bytes_app [] bs buf 0 eq_refl) as Hw. cbn [app] in Hw.
  rewrite Hw by lia. cbn. unfold zdrop. rewrite drop_ge; [by rewrite app_nil_r|].
  unfold zlen in *. lia.
Qed.

Lemma fread_into_at data off buf bs n :
  file_has data off bs -> zlen bs = n -> zlen buf = n ->
  fread_into (mk_file data off) buf n = Ok (bs, mk_file data (off + n)).
Proof. intros H <- Hb. by apply (fread_into_has (mk_file data off)). Qed.

(** [fread(&x, sizeof x, 1, fp)] for an object [x] whose bytes are [buf]: the
    number of complete items, what [x] holds afterwards, and the stream. *)
Definition fread_obj (f : file) (buf : list Z) : Z * list Z * file :=
  let '(bs, f) := fread f (zlen buf) in
  ((if zlen bs =? zlen buf then 1 else 0), bs ++ zdrop (zlen bs) buf, f).

Lemma fread_obj_has data off buf bs :
  file_has data off bs -> zlen buf = zlen bs ->
  fread_obj (mk_file data off) buf = (1, bs, mk_file data (off + zlen bs)).
Proof.
  intros H Hb. unfold fread_obj. rewrite (fread_has (mk_file data off) bs) by done.
  rewrite Hb, Z.eqb_refl.
  assert (zdrop (zlen bs) buf = []) as ->; [|by rewrite app_nil_r].
  unfold zdrop, zlen in *. apply drop_ge. lia.
Qed.

(** At the end of the file nothing is read. *)
Lemma fread_obj_eof data buf :
  0 < zlen buf -> fread_obj (mk_file data (zlen data)) buf = (0, buf, mk_file data (zlen data)).
Proof.
  intros Hb. unfold fread_obj, fread. cbn [fpos fdata].
  assert (zdrop (zlen data) data = []) as ->.
  { unfold zdrop, zlen. rewrite Nat2Z.id. by apply drop_ge. }
  assert (ztake (zlen buf) ([] : list Z) = []) as -> by (unfold ztake; apply take_nil).
  rewrite zlen_nil, (proj2 (Z.eqb_neq _ _)) by lia. by rewrite Z.add_0_r.
Qed.

(** [fseek(fp, 0, SEEK_END)]. *)
Definition fseek_end (f : file) : file := mk_file (fdata f) (zlen (fdata f)).

Lemma fwrite_end data bs : fwrite (mk_file data (zlen data)) bs = mk_file (data ++ bs) (zlen data + zlen bs).
Proof.
  unfold fwrite, file_write. cbn [fdata fpos]. rewrite Z.sub_diag.
  change (zeros 0) with (@nil Z). rewrite app_nil_r, (ztake_ge (zlen data) data) by lia.
  assert (zdrop (zlen data + zlen bs) data = []) as ->; [|by rewrite app_nil_r].
  unfold zdrop, zlen. apply drop_ge. lia.
Qed.

Lemma file_has_mid pre bs post : file_has (pre ++ bs ++ post) (zlen pre) bs.
Proof. by exists pre, post. Qed.
