(* ===== verification/CText.v ===== *)
(** Text as the C library prints and scans it: [fprintf] and [sscanf] of decimal
    integers, [fgets], [atoi] and string functions, as far as the source uses
    them. Text is a list of bytes; a [char] array is modelled with what it held
    before a call. A scanned number that does not fit its type, which the C
    standard leaves undefined, wraps around. *)

From S2P Require Import Prelude CFile.
From Stdlib Require String Ascii.

(** The bytes of a string literal. *)
Definition lit (s : String.string) : list Z := map (fun a => Z.of_N (Ascii.N_of_ascii a)) (String.list_ascii_of_string s).

(** ** The C library *)

(** The string at index [i] of a [char] array. *)
Fixpoint upto_nul (l : list Z) : option (list Z) :=
  match l with
  | [] => None
  | c :: l => if c =? 0 then Some [] else s ← upto_nul l; Some (c :: s)
  end.
Definition cstr (buf : list Z) (i : Z) : res (list Z) :=
  match upto_nul (zdrop i buf) with Some s => Ok s | None => Err EBounds end.

(** [%d] for an integer of at most 64 bits. *)
Fixpoint print_nat (fuel : nat) (n : Z) : list Z :=
  match fuel with
  | O => []
  | S fuel => if n <? 10 then [48 + n] else print_nat fuel (n / 10) ++ [48 + n mod 10]
  end.
Definition print_int (n : Z) : list Z := if n <? 0 then 45 :: print_nat 20 (- n) else print_nat 20 n.

Definition is_digit (c : Z) : bool := (48 <=? c) && (c <=? 57).
Definition is_space (c : Z) : bool := (c =? 32) || ((9 <=? c) && (c <=? 13)).

Fixpoint skip_space (s : list Z) : list Z :=
  match s with c :: s' => if is_space c then skip_space s' else s | [] => [] end.
Fixpoint scan_digits (acc : Z) (s : list Z) : Z :=
  match s with c :: s => if is_digit c then scan_digits (acc * 10 + (c - 48)) s else acc | [] => acc end.
Definition signed_digits (s : list Z) : Z * list Z :=
  match s with 45 :: s => (-1, s) | 43 :: s => (1, s) | _ => (1, s) end.

Definition atoi (s : list Z) : Z := let '(sg, s) := signed_digits (skip_space s) in s32 (sg * scan_digits 0 s).

(** [sscanf] with [%d]: [None] if there is no number, and the variable is not
    assigned. *)
Definition scan_int (s : list Z) : option Z :=
  let '(sg, s) := signed_digits (skip_space s) in
  match s with c :: _ => if is_digit c then Some (s32 (sg * scan_digits 0 s)) else None | [] => None end.

(** At most [n] bytes, up to the end of the line. *)
Fixpoint take_line (n : nat) (l : list Z) : list Z :=
  match n, l with S n, c :: l => if c =? 10 then [c] else c :: take_line n l | _, _ => [] end.

Definition fgets (buf : list Z) (n : Z) (fp : file) : res (list Z * file) :=
  let bs := take_line (Z.to_nat (n - 1)) (zdrop (fpos fp) (fdata fp)) in
  if bool_decide (bs = []) then Ok (buf, fp) else
  buf ← write_bytes buf 0 (bs ++ [0]); Ok (buf, mk_file (fdata fp) (fpos fp + zlen bs)).

(** [strncmp(s, prefix, strlen(prefix)) == 0] *)
Definition has_prefix (prefix s : list Z) : bool := bool_decide (ztake (zlen prefix) s = prefix).

(** [strncpy(dst, s, n)]: padded with NULs. *)
Definition strncpy (n : Z) (s : list Z) : list Z := ztake n s ++ zeros (n - zlen (ztake n s)).

(** [%d] ([w = 32]) and [%lld] ([w = 64]) inside a format: the number and the
    text after it. *)
Fixpoint skip_digits (s : list Z) : list Z :=
  match s with c :: s' => if is_digit c then skip_digits s' else s | [] => [] end.
Definition scan_num (w : Z) (s : list Z) : option (Z * list Z) :=
  let '(sg, s) := signed_digits (skip_space s) in
  match s with c :: _ => if is_digit c then Some (swrap w (sg * scan_digits 0 s), skip_digits s) else None | [] => None end.

(** ** Numbers *)

Lemma upto_nul_app s rest : Forall (fun c => c <> 0) s -> upto_nul (s ++ 0 :: rest) = Some s.
Proof.
  induction 1 as [|c s Hc _ IH]; [done|]. cbn [app upto_nul]. rewrite (proj2 (Z.eqb_neq c 0)) by done. by rewrite IH.
Qed.

Lemma digits_scan fuel : forall n acc rest, 0 <= n < 10 ^ Z.of_nat fuel ->
  scan_digits acc (print_nat fuel n ++ rest) = scan_digits (acc * 10 ^ zlen (print_nat fuel n) + n) rest.
Proof.
  induction fuel as [|fuel IH]; intros n acc rest Hn.
  - change (10 ^ Z.of_nat 0) with 1 in Hn. assert (n = 0) as -> by lia. cbn [print_nat app]. f_equal. change (zlen _) with 0. lia.
  - cbn [print_nat]. rewrite Nat2Z.inj_succ, Z.pow_succ_r in Hn by lia. destruct (Z.ltb_spec n 10).
    + cbn [app scan_digits]. unfold is_digit. rewrite (proj2 (Z.leb_le 48 _)), (proj2 (Z.leb_le _ 57)) by lia. cbn [andb].
      f_equal. change (zlen [48 + n]) with 1. lia.
    + pose proof (Z.div_mod n 10). pose proof (Z.mod_pos_bound n 10).
      rewrite <- app_assoc, IH by (split; [apply Z.div_pos; lia|apply Z.div_lt_upper_bound; lia]).
      cbn [app scan_digits]. unfold is_digit. rewrite (proj2 (Z.leb_le 48 _)), (proj2 (Z.leb_le _ 57)) by lia. cbn [andb].
      f_equal. rewrite zlen_app. change (zlen [_]) with 1. rewrite Z.pow_add_r by (try apply zlen_nonneg; lia). lia.
Qed.

Lemma print_nat_digits fuel : forall n, 0 <= n < 10 ^ Z.of_nat fuel ->
  Forall (fun c => is_digit c = true) (print_nat fuel n) /\ zlen (print_nat fuel n) <= Z.of_nat fuel /\
  (fuel <> O -> print_nat fuel n <> []).
Proof.
  induction fuel as [|fuel IH]; intros n Hn; [done|]. cbn [print_nat].
  rewrite Nat2Z.inj_succ, Z.pow_succ_r in * by lia.
  assert (Hd : forall d, 0 <= d < 10 -> is_digit (48 + d) = true).
  { intros d ?. unfold is_digit. by rewrite (proj2 (Z.leb_le 48 _)), (proj2 (Z.leb_le _ 57)) by lia. }
  destruct (Z.ltb_spec n 10).
  - split_and!; [constructor; [apply Hd; lia|constructor]|change (zlen [_]) with 1; lia|done].
  - destruct (IH (n / 10)) as (H1 & H2 & _); [split; [apply Z.div_pos; lia|apply Z.div_lt_upper_bound; lia]|].
    split_and!; [|rewrite zlen_app; change (zlen [_]) with 1; lia|intros _ ?%app_eq_nil; naive_solver].
    apply Forall_app. split; [done|]. constructor; [|done]. apply Hd. apply Z.mod_pos_bound. lia.
Qed.

(** A size or a length, as it is printed. *)
Lemma print_uint n : 0 <= n < 2 ^ 64 ->
  exists c s, print_int n = c :: s /\ Forall (fun c => is_digit c = true) (c :: s) /\ zlen (c :: s) <= 20 /\
    forall rest, scan_digits 0 (c :: s ++ rest) = scan_digits n rest.
Proof.
  intros Hn. unfold print_int. rewrite (proj2 (Z.ltb_ge n 0)) by lia.
  assert (Hb : 0 <= n < 10 ^ Z.of_nat 20) by (split; [lia|]; transitivity (2 ^ 64); [lia|done]).
  destruct (print_nat_digits 20 n Hb) as (Hd & Hl & Hne).
  pose proof (digits_scan 20 n 0) as Hs. 
  destruct (print_nat 20 n) as [|c s] eqn:E; [by destruct Hne|]. exists c, s. split_and!; [done|done|exact Hl|].
  intros rest. change (c :: s ++ rest) with ((c :: s) ++ rest). rewrite Hs by done. done.
Qed.

Lemma print_int_nonneg n : 0 <= n < 2 ^ 63 ->
  exists c s, print_int n = c :: s /\ Forall (fun c => is_digit c = true) (c :: s) /\ zlen (c :: s) <= 20 /\
    forall rest, scan_digits 0 (c :: s ++ rest) = scan_digits n rest.
Proof. intros Hn. apply print_uint. lia. Qed.

Lemma digit_cases c : is_digit c = true -> is_space c = false /\ (c =? 45) = false /\ (c =? 43) = false.
Proof. unfold is_digit, is_space. intros H. apply andb_prop in H as [H1 H2]. lia. Qed.

Lemma signed_digits_digit c s : is_digit c = true -> signed_digits (c :: s) = (1, c :: s).
Proof.
  unfold is_digit. intros H. apply andb_prop in H as [H1 H2].
  assert (c = 48 \/ c = 49 \/ c = 50 \/ c = 51 \/ c = 52 \/ c = 53 \/ c = 54 \/ c = 55 \/ c = 56 \/ c = 57) as Hc by lia.
  destruct Hc as [->|[->|[->|[->|[->|[->|[->|[->|[->| ->]]]]]]]]]; reflexivity.
Qed.

Lemma scan_print n rest :
  0 <= n < 2 ^ 31 -> scan_digits n rest = n ->
  atoi (print_int n ++ rest) = n /\ scan_int (print_int n ++ rest) = Some n.
Proof.
  intros Hn Hrest. destruct (print_int_nonneg n ltac:(lia)) as (c & s & -> & Hd & _ & Hs). apply Forall_cons in Hd as [Hc _].
  destruct (digit_cases c Hc) as (Hsp & _). cbn [app]. specialize (Hs rest). rewrite Hrest in Hs.
  unfold atoi, scan_int. cbn [skip_space]. rewrite Hsp, signed_digits_digit by done. rewrite Hc, Hs, Z.mul_1_l.
  rewrite swrap_id; [done|done|]. unfold in_s. change (2 ^ (32 - 1)) with (2 ^ 31). lia.
Qed.

(** ** Lines *)

(** The text that is left to read. *)
Definition at_text (fp : file) (t : list Z) : Prop := 0 <= fpos fp <= zlen (fdata fp) /\ zdrop (fpos fp) (fdata fp) = t.

Lemma at_text_advance fp l rest : at_text fp (l ++ rest) -> at_text (mk_file (fdata fp) (fpos fp + zlen l)) rest.
Proof.
  intros [Hp Ht]. pose proof (zlen_nonneg l). pose proof (zlen_nonneg rest).
  assert (zlen (fdata fp) - fpos fp = zlen l + zlen rest).
  { rewrite <- (zlen_zdrop (fpos fp) (fdata fp)), Ht, zlen_app by lia. done. }
  split; cbn [fdata fpos]; [lia|]. rewrite <- zdrop_zdrop, Ht by lia. by apply zdrop_app_exact.
Qed.

Lemma take_line_line body : forall n rest, Forall (fun c => c <> 10) body -> (List.length body < n)%nat ->
  take_line n (body ++ 10 :: rest) = body ++ [10].
Proof.
  induction body as [|c body IH]; intros n rest Hb Hn; destruct n as [|n]; try (cbn in Hn; lia); [done|].
  apply Forall_cons in Hb as [Hc Hb]. cbn [app take_line]. rewrite (proj2 (Z.eqb_neq c 10)) by done.
  f_equal. apply IH; [done|]. cbn in Hn. lia.
Qed.

Lemma take_line_last body : forall n, Forall (fun c => c <> 10) body -> (List.length body <= n)%nat -> take_line n body = body.
Proof.
  induction body as [|c body IH]; intros n Hb Hn; destruct n as [|n]; try (cbn in Hn; lia); [done|done|].
  apply Forall_cons in Hb as [Hc Hb]. cbn [take_line]. rewrite (proj2 (Z.eqb_neq c 10)) by done.
  f_equal. apply IH; [done|]. cbn in Hn. lia.
Qed.

(** [fgets] stores a line that fits. *)
Lemma fgets_ok buf n fp body tl rest :
  at_text fp (body ++ tl ++ rest) -> tl = [10] \/ (tl = [] /\ rest = [] /\ body <> []) ->
  Forall (fun c => c <> 10) body -> zlen body + 2 <= n -> n <= zlen buf ->
  exists fp', fgets buf n fp = Ok (body ++ tl ++ 0 :: zdrop (zlen (body ++ tl) + 1) buf, fp') /\ at_text fp' rest.
Proof.
  intros Hat Htl Hb Hn Hbuf. unfold fgets. destruct Hat as [Hp Ht] eqn:E. rewrite Ht.
  assert (Hl : take_line (Z.to_nat (n - 1)) (body ++ tl ++ rest) = body ++ tl).
  { unfold zlen in Hn. destruct Htl as [->|(-> & -> & _)].
    - apply take_line_line; [done|lia].
    - rewrite !app_nil_r. apply take_line_last; [done|lia]. }
  rewrite Hl. rewrite bool_decide_false by (intros ?%app_eq_nil; naive_solver).
  assert (Hlen : zlen (body ++ tl) <= zlen body + 1).
  { rewrite zlen_app. destruct Htl as [->|(-> & _)]; [change (zlen [10]) with 1|change (zlen (@nil Z)) with 0]; lia. }
  assert (write_bytes buf 0 ((body ++ tl) ++ [0]) = Ok (body ++ tl ++ 0 :: zdrop (zlen (body ++ tl) + 1) buf)) as ->.
  { apply write_bytes_Ok. rewrite (zlen_app (body ++ tl)). change (zlen [0]) with 1. split_and!; [lia|lia|].
    rewrite ztake_0, <- !app_assoc, Z.add_0_l. done. }
  step. eexists. split; [reflexivity|]. apply at_text_advance. rewrite <- app_assoc. done.
Qed.

Lemma cstr_line body tl rest : Forall (fun c => c <> 0) body -> tl = [10] \/ tl = [] ->
  cstr (body ++ tl ++ 0 :: rest) 0 = Ok (body ++ tl).
Proof.
  intros Hb Htl. unfold cstr. rewrite zdrop_0, app_assoc, upto_nul_app; [done|].
  apply Forall_app. split; [done|]. destruct Htl as [-> | ->]; by repeat constructor.
Qed.

Lemma at_text_start t : at_text (mk_file t 0) t.
Proof. split; [cbn; pose proof (zlen_nonneg t); lia|done]. Qed.

(** ** Numbers in a line *)

Lemma skip_digits_app d rest : Forall (fun c => is_digit c = true) d -> skip_digits rest = rest -> skip_digits (d ++ rest) = rest.
Proof. induction 1 as [|c d Hc _ IH]; [done|]. intros. cbn [app skip_digits]. rewrite Hc. auto. Qed.

(** A number that is followed by anything but a digit is scanned. *)
Lemma scan_num_print w n sep rest : 0 < w <= 64 -> 0 <= n < 2 ^ (w - 1) -> is_digit sep = false ->
  scan_num w (print_int n ++ sep :: rest) = Some (n, sep :: rest).
Proof.
  intros Hw Hn Hsep. assert (n < 2 ^ 63) by (assert (2 ^ (w - 1) <= 2 ^ 63) by (apply Z.pow_le_mono_r; lia); lia).
  destruct (print_int_nonneg n ltac:(lia)) as (c & s & -> & Hd & _ & Hs).
  assert (Hd' := Hd). apply Forall_cons in Hd' as [Hc _]. destruct (digit_cases c Hc) as (Hsp & _).
  unfold scan_num. cbn [app skip_space]. rewrite Hsp, signed_digits_digit, Hc, Hs by done.
  change (c :: s ++ sep :: rest) with ((c :: s) ++ sep :: rest).
  rewrite skip_digits_app by (try done; cbn [skip_digits]; by rewrite Hsep). cbn [scan_digits]. rewrite Hsep, Z.mul_1_l.
  rewrite swrap_id; [done|lia|]. unfold in_s. lia.
Qed.

(** White space before a number is skipped. *)
Lemma scan_num_space w c s : is_space c = true -> scan_num w (c :: s) = scan_num w s.
Proof. intros Hc. unfold scan_num. cbn [skip_space]. by rewrite Hc. Qed.

(** A scan takes at least one byte. *)
Lemma skip_space_len s : (List.length (skip_space s) <= List.length s)%nat.
Proof. induction s as [|c s IH]; cbn; [done|]. destruct (is_space c); cbn; lia. Qed.

Lemma skip_digits_len s : (List.length (skip_digits s) <= List.length s)%nat.
Proof. induction s as [|c s IH]; cbn; [done|]. destruct (is_digit c); cbn; lia. Qed.

Lemma signed_digits_len s : (List.length (signed_digits s).2 <= List.length s)%nat.
Proof.
  destruct s as [|x s]; [done|]. unfold signed_digits.
  repeat (match goal with |- context [match ?y with _ => _ end] => is_var y; destruct y end; cbn [snd List.length]; try lia).
Qed.

Lemma scan_num_len w s n rest : scan_num w s = Some (n, rest) -> (List.length rest < List.length s)%nat.
Proof.
  unfold scan_num. pose proof (skip_space_len s). pose proof (signed_digits_len (skip_space s)).
  destruct (signed_digits (skip_space s)) as [sg t]. cbn [snd] in *.
  destruct t as [|c t]; [done|]. destruct (is_digit c) eqn:Hc; [|done]. intros [= _ <-]. cbn [skip_digits]. rewrite Hc.
  pose proof (skip_digits_len t). cbn in *. lia.
Qed.
