(* ===== verification/Glib.v ===== *)
(** What the source relies on of GLib beyond plain sequences.

    A [GHashTable] is a [gmap]: an insertion replaces the value of an equal
    key. The order in which a table is iterated, the place of a new element
    among equal ones in a sorted sequence and the order a sort leaves equal
    elements in are not documented: they are the functions of the classes
    below, with the documented laws. The instances at the end, an arbitrary
    choice, are used by the witnesses only. *)

From S2P Require Import Prelude.

(** [g_hash_table_iter_*], [g_hash_table_foreach]. *)
Class HashIter (K V : Type) `{Countable K} := hash_iter : gmap K V -> list (K * V).

Class HashIterOk K V `{HashIter K V} : Prop :=
  hash_iter_perm : forall m : gmap K V, hash_iter m ≡ₚ map_to_list m.

(** [g_sequence_insert_sorted(seq, x, cmp)] and [g_sequence_sort(seq, cmp)]. *)
Class SeqSort (A : Type) := {
  insert_sorted : (A -> A -> Z) -> A -> list A -> list A;
  seq_sort : (A -> A -> Z) -> list A -> list A;
}.

Definition cmp_le {A} (cmp : A -> A -> Z) (x y : A) : Prop := cmp x y <= 0.

(** A comparison function as the documentation requires it. *)
Record cmp_ok {A} (dom : A -> Prop) (cmp : A -> A -> Z) : Prop := {
  cmp_antisym x y : dom x -> dom y -> cmp x y <= 0 \/ cmp y x <= 0;
  cmp_trans x y z : dom x -> dom y -> dom z -> cmp x y <= 0 -> cmp y z <= 0 -> cmp x z <= 0;
}.

Class SeqSortOk A `{SeqSort A} : Prop := {
  insert_sorted_perm cmp x l : insert_sorted cmp x l ≡ₚ x :: l;
  insert_sorted_sorted dom cmp x l : cmp_ok dom cmp -> dom x -> Forall dom l ->
    StronglySorted (cmp_le cmp) l -> StronglySorted (cmp_le cmp) (insert_sorted cmp x l);
  seq_sort_perm cmp l : seq_sort cmp l ≡ₚ l;
  seq_sort_sorted dom cmp l : cmp_ok dom cmp -> Forall dom l ->
    StronglySorted (cmp_le cmp) (seq_sort cmp l);
}.

(** [g_sequence_lookup(seq, x, cmp)]: the position of an element equal to [x], if
    there is one and the sequence is sorted. *)
Class SeqLookup (A : Type) := seq_lookup : (A -> A -> Z) -> A -> list A -> option nat.

Class SeqLookupOk A `{SeqLookup A} : Prop :=
  seq_lookup_sorted dom cmp x l : cmp_ok dom cmp -> dom x -> Forall dom l -> StronglySorted (cmp_le cmp) l ->
    match seq_lookup cmp x l with
    | Some i => exists y, l !! i = Some y /\ cmp y x = 0
    | None => Forall (fun y => cmp y x <> 0) l
    end.

(** Inserting what an iteration yields into an empty table copies the table. *)
Lemma fold_insert_lookup {K V} `{Countable K} (l : list (K * V)) (acc : gmap K V) k :
  NoDup l.*1 ->
  fold_left (fun m kv => <[kv.1 := kv.2]> m) l acc !! k =
  match (list_to_map l : gmap K V) !! k with Some v => Some v | None => acc !! k end.
Proof.
  revert acc. induction l as [|[k0 v0] l IH]; intros acc; cbn; [by rewrite lookup_empty|].
  intros [Hk Hnd]%NoDup_cons. rewrite IH by done.
  destruct (decide (k = k0)) as [->|Hne].
  - rewrite not_elem_of_list_to_map_1 by done. by rewrite !lookup_insert_eq.
  - by rewrite !lookup_insert_ne by done.
Qed.

Lemma hash_iter_elem {K V} `{HashIterOk K V} (m : gmap K V) k v :
  (k, v) ∈ hash_iter m <-> m !! k = Some v.
Proof. by rewrite hash_iter_perm, elem_of_map_to_list. Qed.

Lemma hash_iter_length {K V} `{HashIterOk K V} (m : gmap K V) : length (hash_iter m) = size m.
Proof. rewrite hash_iter_perm. apply length_map_to_list. Qed.

Lemma hash_iter_NoDup {K V} `{HashIterOk K V} (m : gmap K V) : NoDup (hash_iter m).*1.
Proof. rewrite hash_iter_perm. apply NoDup_fst_map_to_list. Qed.

Lemma hash_iter_rebuild {K V} `{HashIterOk K V} (m : gmap K V) :
  fold_left (fun acc kv => <[kv.1 := kv.2]> acc) (hash_iter m) (∅ : gmap K V) = m.
Proof.
  apply map_eq. intros k. rewrite fold_insert_lookup by apply hash_iter_NoDup. rewrite lookup_empty.
  assert ((list_to_map (hash_iter m) : gmap K V) = m) as ->; [|by destruct (m !! k)].
  rewrite <- (list_to_map_to_list m) at 2. apply list_to_map_proper; [apply hash_iter_NoDup|].
  apply hash_iter_perm.
Qed.

Lemma hash_iter_copy {K V} `{HashIterOk K V} (key : V -> K) (m : gmap K V) :
  (forall k v, m !! k = Some v -> key v = k) ->
  fold_left (fun acc v => <[key v := v]> acc) (map snd (hash_iter m)) ∅ = m.
Proof.
  intros Hkey. rewrite <- (hash_iter_rebuild m) at 2.
  assert (Hl : forall k v, (k, v) ∈ hash_iter m -> key v = k).
  { intros k v Hin. apply Hkey. by apply hash_iter_elem. }
  revert Hl. generalize (∅ : gmap K V) as acc. generalize (hash_iter m) as l.
  induction l as [|[k v] l IH]; intros acc Hl; cbn; [done|].
  rewrite (Hl k v) by set_solver. apply IH. intros. apply Hl. set_solver.
Qed.

(** ** Instances *)

Definition std_hash_iter {K V} `{Countable K} : HashIter K V := map_to_list.

Lemma std_hash_iter_ok {K V} `{Countable K} : @HashIterOk K V _ _ std_hash_iter.
Proof. by intros m. Qed.

Fixpoint ins_sorted {A} (cmp : A -> A -> Z) (x : A) (l : list A) : list A :=
  match l with
  | [] => [x]
  | y :: l => if cmp x y <=? 0 then x :: y :: l else y :: ins_sorted cmp x l
  end.

Definition std_seq_sort {A} : SeqSort A :=
  {| insert_sorted := ins_sorted;
     seq_sort cmp l := foldr (ins_sorted cmp) [] l |}.

Lemma ins_sorted_perm {A} cmp (x : A) l : ins_sorted cmp x l ≡ₚ x :: l.
Proof.
  induction l as [|y l IH]; cbn; [done|]. destruct (_ <=? 0); [done|].
  rewrite IH. apply Permutation_swap.
Qed.

Lemma ins_sorted_sorted {A} dom cmp (x : A) l :
  cmp_ok dom cmp -> dom x -> Forall dom l ->
  StronglySorted (cmp_le cmp) l -> StronglySorted (cmp_le cmp) (ins_sorted cmp x l).
Proof.
  intros [Ha Ht] Hx. induction l as [|y l IH]; cbn; intros Hd Hs.
  - repeat constructor.
  - apply Forall_cons in Hd as [Hy Hd].
    pose proof (StronglySorted_inv Hs) as [Hs' Hyl].
    destruct (Z.leb_spec (cmp x y) 0).
    + constructor; [done|]. constructor; [done|].
      rewrite Forall_forall in *. intros z Hz. eapply (Ht x y z); auto. by apply Hyl.
    + constructor; [auto|]. rewrite Forall_forall in *. intros z.
      rewrite ins_sorted_perm, elem_of_cons. intros [->|Hz]; [|auto].
      destruct (Ha x y); auto; unfold cmp_le; lia.
Qed.

Lemma std_seq_sort_ok {A} : @SeqSortOk A std_seq_sort.
Proof.
  assert (Hp : forall cmp (l : list A), foldr (ins_sorted cmp) [] l ≡ₚ l).
  { intros cmp. induction l as [|x l IH]; cbn; [done|]. by rewrite ins_sorted_perm, IH. }
  split; cbn; intros.
  - apply ins_sorted_perm.
  - by eapply ins_sorted_sorted.
  - apply Hp.
  - induction l as [|x l IH]; cbn; [constructor|].
    apply Forall_cons in H0 as [? Hl]. eapply ins_sorted_sorted; eauto. by rewrite Hp.
Qed.

Definition std_seq_lookup {A} : SeqLookup A := fun cmp x l => fst <$> list_find (fun y => cmp y x = 0) l.

Lemma std_seq_lookup_ok {A} : @SeqLookupOk A std_seq_lookup.
Proof.
  intros dom cmp x l _ _ _ _. unfold seq_lookup, std_seq_lookup. destruct (list_find _ l) as [[i y]|] eqn:E; cbn.
  - apply list_find_Some in E as (E & Hc & _). by exists y.
  - by apply list_find_None in E.
Qed.
