(* ===== verification/Destor.v ===== *)
(** The data of [destor/src/destor.h]: simulation levels, chunk flags, chunks
    and segments, with the functions at the end of [destor.c].

    A [fingerprint] is the list of its 20 bytes. A chunk owns its data: [None]
    is the null pointer. The configuration [struct destor] is a record of the
    fields the modelled components read. *)

From S2P Require Import Prelude.

(** ** Constants *)

Definition SIMULATION_NO := 0.
Definition SIMULATION_RESTORE := 1.
Definition SIMULATION_APPEND := 2.
Definition SIMULATION_ALL := 3.

Definition TEMPORARY_ID := -1.

(** The size of a read block: 1 MB. *)
Definition DEFAULT_BLOCK_SIZE := 1048576.

Definition CHUNK_UNIQUE := 0.
Definition CHUNK_DUPLICATE := 256.
Definition CHUNK_SPARSE := 512.
Definition CHUNK_OUT_OF_ORDER := 1024.
Definition CHUNK_IN_CACHE := 2048.
Definition CHUNK_REWRITE_DENIED := 4096.

Definition CHUNK_FILE_START := 1.
Definition CHUNK_FILE_END := 2.
Definition CHUNK_SEGMENT_START := 4.
Definition CHUNK_SEGMENT_END := 8.

Definition CHUNK_WAIT := 16.
Definition CHUNK_READY := 32.

(** ** Fingerprints *)

Definition fingerprint := list Z.

(** [sizeof(fingerprint)] *)
Definition fp_size : Z := 20.

Definition fp_wf (fp : fingerprint) : Prop := zlen fp = fp_size /\ Forall is_byte fp.

#[export] Instance fp_wf_dec fp : Decision (fp_wf fp).
Proof. unfold fp_wf. apply _. Defined.

(** The sign of [memcmp] on two objects of the same size. *)
Fixpoint memcmp (a b : list Z) : Z :=
  match a, b with
  | x :: a, y :: b => if x <? y then -1 else if y <? x then 1 else memcmp a b
  | _, _ => 0
  end.

Definition g_fingerprint_equal (fp1 fp2 : fingerprint) : bool := memcmp fp1 fp2 =? 0.

Definition g_fingerprint_cmp (fp1 fp2 : fingerprint) : Z := memcmp fp1 fp2.

(** ** Chunks *)

Record chunk := mk_chunk {
  ck_size : Z;
  ck_flag : Z;
  ck_id : Z;
  ck_fp : fingerprint;
  ck_data : option (list Z);
}.

#[export] Instance chunk_eq_dec : EqDecision chunk.
Proof. solve_decision. Defined.

Definition SET_CHUNK (c : chunk) (f : Z) : chunk :=
  mk_chunk (ck_size c) (Z.lor (ck_flag c) f) (ck_id c) (ck_fp c) (ck_data c).
Definition UNSET_CHUNK (c : chunk) (f : Z) : chunk :=
  mk_chunk (ck_size c) (Z.land (ck_flag c) (Z.lnot f)) (ck_id c) (ck_fp c) (ck_data c).
Definition CHECK_CHUNK (c : chunk) (f : Z) : bool := negb (Z.land (ck_flag c) f =? 0).

Definition set_ck_id (c : chunk) (id : Z) : chunk :=
  mk_chunk (ck_size c) (ck_flag c) id (ck_fp c) (ck_data c).

Definition new_chunk (size : Z) : chunk :=
  mk_chunk size CHUNK_UNIQUE TEMPORARY_ID (zeros fp_size)
    (if 0 <? size then Some (fresh_bytes size) else None).

(** [c = new_chunk(|bs|); memcpy(c->data, bs, |bs|)] *)
Definition filled_chunk (bs : list Z) : res chunk :=
  let c := new_chunk (zlen bs) in
  d ← deref (ck_data c);
  d ← write_bytes d 0 bs;
  Ok (mk_chunk (ck_size c) (ck_flag c) (ck_id c) (ck_fp c) (Some d)).

Definition g_chunk_cmp (a b : chunk) : Z := memcmp (ck_fp a) (ck_fp b).

(** ** Segments *)

(** [features] is used as a set of byte strings. *)
Record segment := mk_segment {
  seg_id : Z;
  seg_chunk_num : Z;     (** without the signal chunks *)
  seg_chunks : list chunk;
  seg_features : option (gset (list Z));
}.

Definition new_segment : segment := mk_segment TEMPORARY_ID 0 [] None.

Definition new_segment_full : segment := mk_segment TEMPORARY_ID 0 [] (Some ∅).

(** The chunks [free_segment] frees, in order, by taking the first one off the
    sequence until it is empty. *)
Fixpoint free_segment_loop (fuel : nat) (chunks freed : list chunk) : res (list chunk) :=
  match fuel, chunks with
  | _, [] => Ok freed
  | O, _ => Err EFuel
  | S fuel, c :: chunks => free_segment_loop fuel chunks (freed ++ [c])
  end.
Definition free_segment (s : segment) : res (list chunk) :=
  free_segment_loop (length (seg_chunks s)) (seg_chunks s) [].

(** ** Lemmas *)

Lemma memcmp_refl a : memcmp a a = 0.
Proof. induction a as [|x a IH]; cbn; [done|]. by rewrite Z.ltb_irrefl. Qed.

Lemma memcmp_eq a b : length a = length b -> memcmp a b = 0 <-> a = b.
Proof.
  revert b. induction a as [|x a IH]; intros [|y b]; cbn; try done. intros [= Hl].
  destruct (Z.ltb_spec x y); [naive_solver lia|]. destruct (Z.ltb_spec y x); [naive_solver lia|].
  rewrite IH by done. assert (x = y) by lia. naive_solver.
Qed.

Lemma memcmp_antisym a b : memcmp b a = - memcmp a b.
Proof.
  revert b. induction a as [|x a IH]; intros [|y b]; cbn; try done.
  destruct (Z.ltb_spec x y), (Z.ltb_spec y x); try lia; done.
Qed.

Lemma memcmp_trans a b c :
  length a = length b -> length b = length c ->
  memcmp a b <= 0 -> memcmp b c <= 0 -> memcmp a c <= 0.
Proof.
  revert b c. induction a as [|x a IH]; intros [|y b] [|z c]; cbn; try done.
  intros [= H1] [= H2].
  destruct (Z.ltb_spec x y), (Z.ltb_spec y x), (Z.ltb_spec y z), (Z.ltb_spec z y),
    (Z.ltb_spec x z), (Z.ltb_spec z x); try lia; eauto.
Qed.

Lemma g_fingerprint_equal_spec a b :
  fp_wf a -> fp_wf b -> g_fingerprint_equal a b = bool_decide (a = b).
Proof.
  intros [Ha _] [Hb _]. unfold g_fingerprint_equal, zlen in *. apply eq_bool_prop_intro.
  rewrite bool_decide_spec, <- (memcmp_eq a b) by lia. rewrite Is_true_true. lia.
Qed.

(** A chunk that holds the bytes [b]. *)
Definition block_chunk (b : list Z) : chunk := mk_chunk (zlen b) CHUNK_UNIQUE TEMPORARY_ID (zeros fp_size) (Some b).

Lemma new_chunk_pos k : 0 < k -> new_chunk k = mk_chunk k CHUNK_UNIQUE TEMPORARY_ID (zeros fp_size) (Some (fresh_bytes k)).
Proof. intros Hk. unfold new_chunk. by rewrite (proj2 (Z.ltb_lt 0 k)) by lia. Qed.

Lemma filled_chunk_ok bs : bs <> [] -> filled_chunk bs = Ok (block_chunk bs).
Proof.
  intros Hne. assert (0 < zlen bs) by (destruct bs; [done|rewrite zlen_cons; pose proof (zlen_nonneg bs); lia]).
  unfold filled_chunk. rewrite new_chunk_pos by done. cbn [ck_data deref]. step.
  rewrite write_all by (rewrite zlen_fresh; lia). step. done.
Qed.

(** Flags are bit masks. *)
Lemma CHECK_SET c f g : CHECK_CHUNK (SET_CHUNK c f) g = CHECK_CHUNK c g || negb (Z.land f g =? 0).
Proof.
  unfold CHECK_CHUNK, SET_CHUNK. cbn. rewrite Z.land_lor_distr_l.
  destruct (Z.eqb_spec (Z.lor (Z.land (ck_flag c) g) (Z.land f g)) 0) as [E|E].
  - apply Z.lor_eq_0_iff in E as [-> ->]. done.
  - destruct (Z.eqb_spec (Z.land (ck_flag c) g) 0) as [E1|]; [|done].
    destruct (Z.eqb_spec (Z.land f g) 0) as [E2|]; [|done]. by rewrite E1, E2 in E.
Qed.

Lemma free_segment_loop_all fuel chunks freed :
  (length chunks <= fuel)%nat -> free_segment_loop fuel chunks freed = Ok (freed ++ chunks).
Proof.
  revert chunks freed. induction fuel as [|fuel IH]; intros [|c chunks] freed; cbn; intros;
    rewrite ?app_nil_r; try done; [lia|]. rewrite IH by lia. by rewrite <- app_assoc.
Qed.

(** Freeing a segment terminates and frees each of its chunks once. *)
Lemma free_segment_all s : free_segment s = Ok (seg_chunks s).
Proof. by apply free_segment_loop_all. Qed.
