(* ===== verification/Queue.v ===== *)
(** The linked queue of [destor/src/utils/queue.c], over an explicit heap of
    [queue_ele_t] nodes, and its refinement of a list.

    An address is a nonzero integer and [0] is [NULL]. [malloc] is any allocator
    that returns [0] or an address that is not in use; the data the nodes point
    to is opaque. *)

From S2P Require Import Prelude.

(** [queue_ele_t] and [Queue]. *)
Record queue_ele (D : Type) := mk_ele { next : Z; ele_data : D }.
Arguments mk_ele {D} _ _.
Arguments next {D} _.
Arguments ele_data {D} _.

Record queue := mk_queue { first : Z; last_ : Z; elem_num : Z }.

(** What the source relies on of [malloc]: a result that is not [NULL] is the
    address of a node that is not in use. *)
Class Malloc (D : Type) := malloc : gmap Z (queue_ele D) -> Z.
Class MallocOk (D : Type) `{!Malloc D} : Prop :=
  malloc_fresh : forall h : gmap Z (queue_ele D), malloc h <> 0 -> h !! malloc h = None.

Section Queue.
Context {D : Type} `{!Malloc D}.
Abbreviation heap := (gmap Z (queue_ele D)).

Definition queue_new : queue := mk_queue 0 0 0.

Definition queue_init (q : queue) : queue := mk_queue 0 0 0.

(** [puts("Not enough memory!")] leaves the queue unchanged. *)
Definition queue_push (h : heap) (q : queue) (element : D) : res (heap * queue) :=
  let item := malloc h in
  if item =? 0 then Ok (h, q)
  else
    let h := <[item := mk_ele 0 element]> h in
    if first q =? 0 then
      Ok (h, mk_queue item item (s32 (elem_num q + 1)))
    else
      l ← deref (h !! last_ q);
      Ok (<[last_ q := mk_ele item (ele_data l)]> h,
          mk_queue (first q) item (s32 (elem_num q + 1))).

Definition queue_pop (h : heap) (q : queue) : res (option D * heap * queue) :=
  if elem_num q =? 0 then Ok (None, h, q)
  else
    let item := first q in
    n ← deref (h !! item);
    let last' := if last_ q =? item then 0 else last_ q in
    Ok (Some (ele_data n), delete item h, mk_queue (next n) last' (s32 (elem_num q - 1))).

Definition queue_top (h : heap) (q : queue) : res (option D) :=
  if elem_num q =? 0 then Ok None
  else n ← deref (h !! first q); Ok (Some (ele_data n)).

Definition queue_size (q : queue) : Z := elem_num q.

(** [while (queue->elem_num)]: the data is handed to [free_data] in order. *)
Fixpoint queue_empty_loop (fuel : nat) (h : heap) (q : queue) : res (list (option D) * heap * queue) :=
  if elem_num q =? 0 then Ok ([], h, q)
  else
    match fuel with
    | O => Err EFuel
    | S fuel =>
        '(d, h, q) ← queue_pop h q;
        '(ds, h, q) ← queue_empty_loop fuel h q;
        Ok (d :: ds, h, q)
    end.

Definition queue_empty (h : heap) (q : queue) : res (list (option D) * heap * queue) :=
  queue_empty_loop (Z.to_nat (elem_num q)) h q.

(** [queue_free] also frees the [Queue] itself. *)
Definition queue_free (h : heap) (q : queue) : res (list (option D) * heap) :=
  '(ds, h, _) ← queue_empty h q; Ok (ds, h).

(** [while (item) { func(item->data); item = item->next; }] *)
Fixpoint foreach_loop {U} (fuel : nat) (func : U -> D -> U) (u : U) (h : heap) (item : Z) : res U :=
  if item =? 0 then Ok u
  else
    match fuel with
    | O => Err EFuel
    | S fuel =>
        n ← deref (h !! item);
        foreach_loop fuel func (func u (ele_data n)) h (next n)
    end.

Definition queue_foreach {U} (h : heap) (q : queue) (func : U -> D -> U) (user_data : U) : res U :=
  if elem_num q =? 0 then Ok user_data
  else foreach_loop (Z.to_nat (elem_num q)) func user_data h (first q).

(** [while (i < n) { item = item->next; ++i; }] runs [n] times. *)
Fixpoint get_n_loop (n : nat) (h : heap) (item : Z) : res Z :=
  match n with
  | O => Ok item
  | S n => e ← deref (h !! item); get_n_loop n h (next e)
  end.

Definition queue_get_n (h : heap) (q : queue) (n : Z) : res (option D) :=
  if n >=? queue_size q then Ok None
  else
    item ← get_n_loop (Z.to_nat n) h (first q);
    e ← deref (h !! item);
    Ok (Some (ele_data e)).

(** [do { if (hit(item->data, data) == 1) break; } while ((item = item->next));] *)
Fixpoint find_loop {U} (fuel : nat) (hit : D -> U -> Z) (data : U) (h : heap) (item : Z) : res (option D) :=
  match fuel with
  | O => Err EFuel
  | S fuel =>
      n ← deref (h !! item);
      if hit (ele_data n) data =? 1 then Ok (Some (ele_data n))
      else if next n =? 0 then Ok None
      else find_loop fuel hit data h (next n)
  end.

Definition queue_find {U} (h : heap) (q : queue) (hit : D -> U -> Z) (data : U) : res (option D) :=
  if elem_num q =? 0 then Ok None
  else find_loop (Z.to_nat (elem_num q)) hit data h (first q).

(** ** The list a queue represents *)

(** [chain h a l]: from address [a], the nodes of [l] follow one another and
    the last one points to [NULL]. *)
Fixpoint chain (h : heap) (a : Z) (l : list (Z * D)) : Prop :=
  match l with
  | [] => a = 0
  | (b, d) :: l => a = b /\ b <> 0 /\ exists nx, h !! b = Some (mk_ele nx d) /\ chain h nx l
  end.

Definition last_addr (l : list (Z * D)) : Z := from_option fst 0 (last l).
Local Arguments last_addr : simpl never.

(** [elem_num] is an [int]. *)
Definition queue_at (h : heap) (q : queue) (l : list (Z * D)) : Prop :=
  NoDup l.*1 /\ chain h (first q) l /\ last_ q = last_addr l /\ elem_num q = zlen l /\ zlen l < 2 ^ 31.

Definition queue_repr (h : heap) (q : queue) (xs : list D) : Prop :=
  exists l, queue_at h q l /\ xs = l.*2.

Lemma chain_update h h' a l :
  (forall b, b ∈ l.*1 -> h' !! b = h !! b) -> chain h a l -> chain h' a l.
Proof.
  revert a. induction l as [|[b d] l IH]; intros a Hh; cbn; [done|].
  intros (-> & Hb & nx & Hnx & Hc). split; [done|]. split; [done|]. exists nx.
  rewrite Hh by (cbn; set_solver). split; [done|]. apply IH; [|done].
  intros b' ?. apply Hh. cbn. set_solver.
Qed.

Lemma chain_dom h a l b : chain h a l -> b ∈ l.*1 -> is_Some (h !! b).
Proof.
  revert a. induction l as [|[c d] l IH]; intros a; cbn; [set_solver|].
  intros (-> & _ & nx & Hnx & Hc) [->|Hb]%elem_of_cons; [by rewrite Hnx|eauto].
Qed.

Lemma last_addr_cons x y l : last_addr (x :: y :: l) = last_addr (y :: l).
Proof. done. Qed.

Lemma last_addr_snoc l b d : last_addr (l ++ [(b, d)]) = b.
Proof. unfold last_addr. by rewrite last_snoc. Qed.

Lemma last_addr_elem l : l <> [] -> last_addr l ∈ l.*1.
Proof.
  intros. destruct (exists_last H) as (l' & [b d] & ->).
  rewrite last_addr_snoc, fmap_app. set_solver.
Qed.

(** Linking a new last node behind the present one. *)
Lemma chain_snoc h a l item d e :
  NoDup l.*1 -> l <> [] -> item <> 0 -> item ∉ l.*1 -> chain h a l ->
  h !! item = Some (mk_ele 0 d) -> h !! last_addr l = Some e ->
  chain (<[last_addr l := mk_ele item (ele_data e)]> h) a (l ++ [(item, d)]).
Proof.
  revert a. induction l as [|[b db] l IH]; intros a Hnd Hne Hi Hni Hc Hit He; [done|].
  cbn in Hnd, Hni. apply NoDup_cons in Hnd as [Hb Hnd].
  destruct Hc as (-> & Hb0 & nx & Hnx & Hc). cbn [app chain]. split; [done|]. split; [done|].
  destruct l as [|[c dc] l].
  - change (last_addr [(b, db)]) with b in *. cbn in *. simplify_eq. exists item. rewrite lookup_insert_eq.
    split; [done|]. split; [done|]. split; [done|]. exists 0.
    rewrite lookup_insert_ne by set_solver. done.
  - rewrite last_addr_cons in *. exists nx. split.
    + rewrite lookup_insert_ne; [done|]. intros <-. apply Hb.
      apply (last_addr_elem ((c, dc) :: l)). done.
    + apply IH; try done. set_solver.
Qed.

(** ** Each operation on a represented queue *)

Lemma queue_new_repr h : queue_repr h queue_new [].
Proof. exists []. repeat split; try done. constructor. Qed.

Lemma queue_push_spec h q xs x `{!MallocOk D} :
  queue_repr h q xs -> zlen xs + 1 < 2 ^ 31 ->
  exists h' q', queue_push h q x = Ok (h', q') /\
    queue_repr h' q' (if malloc h =? 0 then xs else xs ++ [x]).
Proof.
  intros (l & (Hnd & Hc & Hl & Hn & Hlt) & ->) Hmax. unfold queue_push.
  assert (Hmax' : zlen l + 1 < 2 ^ 31) by (unfold zlen in *; by rewrite length_fmap in Hmax).
  destruct (Z.eqb_spec (malloc h) 0) as [|Hm]; [by do 2 eexists; split; [done|]; exists l|].
  pose proof (malloc_fresh h Hm) as Hf. set (item := malloc h) in *.
  assert (item ∉ l.*1) as Hni.
  { intros [? Hi]%(chain_dom _ _ _ _ Hc). congruence. }
  assert (chain (<[item := mk_ele 0 x]> h) (first q) l) as Hc'.
  { apply (chain_update h); [|done]. intros b Hb. apply lookup_insert_ne. set_solver. }
  assert (forall q', elem_num q' = s32 (elem_num q + 1) -> last_ q' = item ->
    forall h', chain h' (first q') (l ++ [(item, x)]) -> queue_repr h' q' (l.*2 ++ [x])) as Hdone.
  { intros q' Hq1 Hq2 h' Hch. exists (l ++ [(item, x)]). rewrite fmap_app. split; [|done].
    assert (Hz : zlen (l ++ [(item, x)]) = zlen l + 1) by (rewrite zlen_app; done). pose proof (zlen_nonneg l).
    split_and!; [|done| | |lia].
    - rewrite fmap_app. apply NoDup_app. repeat split; [done| |by apply NoDup_singleton].
      intros y Hy. cbn. set_solver.
    - by rewrite last_addr_snoc.
    - rewrite Hq1, Hn, Hz. apply s32_id. lia. }
  destruct (Z.eqb_spec (first q) 0) as [Hz|Hz].
  - destruct l as [|[b d] l]; [|by destruct Hc as (? & ? & _); congruence].
    do 2 eexists. split; [reflexivity|]. apply Hdone; [done..|].
    cbn. rewrite lookup_insert_eq. by repeat split; [..|exists 0].
  - assert (l <> []) as Hne by (intros ->; done).
    destruct (chain_dom _ _ _ (last_addr l) Hc') as [e He]; [by apply last_addr_elem|].
    rewrite Hl, He. cbn. do 2 eexists. split; [reflexivity|]. apply Hdone; [done..|].
    cbn. apply chain_snoc; try done. by rewrite lookup_insert_eq.
Qed.

Lemma queue_pop_spec h q xs :
  queue_repr h q xs ->
  exists h' q', queue_pop h q = Ok (head xs, h', q') /\ queue_repr h' q' (tail xs).
Proof.
  intros (l & (Hnd & Hc & Hl & Hn & Hlt) & ->). unfold queue_pop. rewrite Hn.
  destruct l as [|[b d] l]; cbn in *.
  - do 2 eexists. split; [done|]. exists []. done.
  - zlen. pose proof (zlen_nonneg l). rewrite (proj2 (Z.eqb_neq _ _)) by lia.
    destruct Hc as (Hb & Hb0 & nx & Hnx & Hc). rewrite Hb, Hnx. cbn.
    do 2 eexists. split; [reflexivity|]. apply NoDup_cons in Hnd as [Hni Hnd].
    exists l. split; [|done]. split_and!; cbn; [done| |..].
    + apply (chain_update h); [|done]. intros c ?. apply lookup_delete_ne. set_solver.
    + rewrite Hl. destruct l as [|[c dc] l]; [by change (last_addr [(b, d)]) with b; rewrite Z.eqb_refl|].
      rewrite last_addr_cons, (proj2 (Z.eqb_neq _ _)); [done|].
      intros Heq. apply Hni. rewrite <- Heq. by apply last_addr_elem.
    + rewrite s32_id; lia.
    + lia.
Qed.

Lemma queue_top_spec h q xs : queue_repr h q xs -> queue_top h q = Ok (head xs).
Proof.
  intros (l & (Hnd & Hc & Hl & Hn & Hlt) & ->). unfold queue_top. rewrite Hn.
  destruct l as [|[b d] l]; cbn in *; [done|].
  zlen. pose proof (zlen_nonneg l). rewrite (proj2 (Z.eqb_neq _ _)) by lia.
  destruct Hc as (-> & _ & nx & -> & _). done.
Qed.

Lemma queue_size_spec h q xs : queue_repr h q xs -> queue_size q = zlen xs.
Proof. intros (l & (_ & _ & _ & Hn & _) & ->). unfold queue_size, zlen in *. by rewrite length_fmap. Qed.

Lemma queue_empty_loop_spec n h q xs :
  queue_repr h q xs -> length xs = n ->
  exists h' q', queue_empty_loop n h q = Ok (Some <$> xs, h', q') /\ queue_repr h' q' [].
Proof.
  revert h q xs. induction n as [|n IH]; intros h q xs Hr Hl; cbn;
    pose proof (queue_size_spec _ _ _ Hr) as Hs; unfold queue_size in Hs; rewrite Hs;
    (destruct xs as [|x xs]; [|try done]); cbn.
  - by do 2 eexists.
  - done.
  - zlen. pose proof (zlen_nonneg xs). rewrite (proj2 (Z.eqb_neq _ _)) by lia.
    destruct (queue_pop_spec _ _ _ Hr) as (h1 & q1 & -> & Hr1). cbn.
    destruct (IH h1 q1 xs Hr1) as (h2 & q2 & -> & Hr2); [cbn in Hl; lia|].
    cbn. by do 2 eexists.
Qed.

Lemma queue_empty_spec h q xs :
  queue_repr h q xs ->
  exists h' q', queue_empty h q = Ok (Some <$> xs, h', q') /\ queue_repr h' q' [].
Proof.
  intros Hr. apply queue_empty_loop_spec; [done|].
  pose proof (queue_size_spec _ _ _ Hr) as Hs. unfold queue_size in Hs. rewrite Hs.
  unfold zlen. lia.
Qed.

Lemma foreach_loop_spec {U} (func : U -> D -> U) u h a l n :
  chain h a l -> (length l <= n)%nat -> foreach_loop n func u h a = Ok (fold_left func l.*2 u).
Proof.
  revert u a n. induction l as [|[b d] l IH]; intros u a n; cbn.
  - intros -> _. by destruct n.
  - intros (-> & Hb & nx & Hnx & Hc) Hn. destruct n as [|n]; [lia|]. cbn.
    rewrite (proj2 (Z.eqb_neq _ _)) by done. rewrite Hnx. cbn. apply IH; [done|lia].
Qed.

Lemma queue_foreach_spec {U} (func : U -> D -> U) u h q xs :
  queue_repr h q xs -> queue_foreach h q func u = Ok (fold_left func xs u).
Proof.
  intros (l & (Hnd & Hc & Hl & Hn & Hlt) & ->). unfold queue_foreach. rewrite Hn.
  destruct (Z.eqb_spec (zlen l) 0) as [Hz|Hz].
  - by destruct l; [|rewrite zlen_cons in Hz; pose proof (zlen_nonneg l); lia].
  - apply foreach_loop_spec; [done|]. unfold zlen. lia.
Qed.

Lemma get_n_loop_spec h a l n :
  chain h a l -> (n < length l)%nat ->
  exists b d, l !! n = Some (b, d) /\ get_n_loop n h a = Ok b /\ exists nx, h !! b = Some (mk_ele nx d).
Proof.
  revert a l. induction n as [|n IH]; intros a [|[b d] l]; cbn; try lia;
    intros (-> & Hb & nx & Hnx & Hc) Hn.
  - exists b, d. eauto.
  - rewrite Hnx. cbn. apply IH; [done|lia].
Qed.

Lemma queue_get_n_spec h q xs n :
  0 <= n -> queue_repr h q xs -> queue_get_n h q n = Ok (xs !! Z.to_nat n).
Proof.
  intros Hn0 Hr. unfold queue_get_n. rewrite (queue_size_spec _ _ _ Hr).
  destruct Hr as (l & (Hnd & Hc & Hl & Hn & Hmax) & ->).
  destruct (Z.geb_spec n (zlen l.*2)) as [Hge|Hlt]; unfold zlen in *; rewrite length_fmap in *.
  - rewrite lookup_ge_None_2; [done|]. rewrite length_fmap. lia.
  - destruct (get_n_loop_spec h (first q) l (Z.to_nat n)) as (b & d & Hl' & -> & nx & Hb); [done|lia|].
    cbn. rewrite Hb. cbn. by rewrite list_lookup_fmap, Hl'.
Qed.

Lemma find_loop_spec {U} (hit : D -> U -> Z) u h a l n :
  chain h a l -> l <> [] -> (length l <= n)%nat ->
  find_loop n hit u h a = Ok (List.find (fun d => hit d u =? 1) l.*2).
Proof.
  revert a n. induction l as [|[b d] l IH]; intros a n; [done|].
  intros (-> & Hb & nx & Hnx & Hc) _ Hn. destruct n as [|n]; [cbn in Hn; lia|]. cbn.
  rewrite Hnx. cbn. destruct (hit d u =? 1); [done|].
  destruct l as [|[c dc] l]; cbn in Hc; [by rewrite Hc|].
  pose proof Hc as (-> & Hc0 & _). rewrite (proj2 (Z.eqb_neq _ _)) by done.
  apply IH; [done..|]. cbn in *. lia.
Qed.

Lemma queue_find_spec {U} (hit : D -> U -> Z) u h q xs :
  queue_repr h q xs -> queue_find h q hit u = Ok (List.find (fun d => hit d u =? 1) xs).
Proof.
  intros (l & (Hnd & Hc & Hl & Hn & Hlt) & ->). unfold queue_find. rewrite Hn.
  destruct l as [|[b d] l]; [done|].
  rewrite (proj2 (Z.eqb_neq _ _)) by (rewrite zlen_cons; pose proof (zlen_nonneg l); lia).
  apply find_loop_spec; [done..|]. unfold zlen. lia.
Qed.
End Queue.

(** ** Refinement of the list queue *)

(** One call of the interface of [queue.h]. *)
Inductive queue_op (D : Type) :=
| QPush (x : D) | QPop | QTop | QSize | QGet (n : nat) | QFind (p : D -> bool) | QEmpty.
Arguments QPush {D} _. Arguments QPop {D}. Arguments QTop {D}. Arguments QSize {D}.
Arguments QGet {D} _. Arguments QFind {D} _. Arguments QEmpty {D}.

(** What a call returns: the data pointers it hands out, and an integer. *)
Definition queue_obs (D : Type) : Type := list (option D) * Z.

Definition spec_step {D} (xs : list D) (o : queue_op D) : list D * queue_obs D :=
  match o with
  | QPush x => (xs ++ [x], ([], 0))
  | QPop => (tail xs, ([head xs], 0))
  | QTop => (xs, ([head xs], 0))
  | QSize => (xs, ([], zlen xs))
  | QGet n => (xs, ([xs !! n], 0))
  | QFind p => (xs, ([List.find p xs], 0))
  | QEmpty => ([], (Some <$> xs, 0))
  end.

Definition impl_step {D} `{!Malloc D} (s : gmap Z (queue_ele D) * queue) (o : queue_op D) :
    res ((gmap Z (queue_ele D) * queue) * queue_obs D) :=
  let '(h, q) := s in
  match o with
  | QPush x => s ← queue_push h q x; Ok (s, ([], 0))
  | QPop => '(d, h, q) ← queue_pop h q; Ok ((h, q), ([d], 0))
  | QTop => d ← queue_top h q; Ok (s, ([d], 0))
  | QSize => Ok (s, ([], queue_size q))
  | QGet n => d ← queue_get_n h q (Z.of_nat n); Ok (s, ([d], 0))
  | QFind p => d ← queue_find h q (fun d (_ : unit) => if p d then 1 else 0) tt; Ok (s, ([d], 0))
  | QEmpty => '(ds, h, q) ← queue_empty h q; Ok ((h, q), (ds, 0))
  end.

Fixpoint spec_run {D} (xs : list D) (ops : list (queue_op D)) : list (queue_obs D) :=
  match ops with
  | [] => []
  | o :: ops => let '(xs, r) := spec_step xs o in r :: spec_run xs ops
  end.

Fixpoint impl_run {D} `{!Malloc D} (s : gmap Z (queue_ele D) * queue) (ops : list (queue_op D)) :
    res (list (queue_obs D)) :=
  match ops with
  | [] => Ok []
  | o :: ops => '(s, r) ← impl_step s o; rs ← impl_run s ops; Ok (r :: rs)
  end.

Lemma impl_step_refines {D} `{!Malloc D, !MallocOk D} (h : gmap Z (queue_ele D)) q xs o :
  (forall h : gmap Z (queue_ele D), malloc h <> 0) -> queue_repr h q xs -> zlen xs + 1 < 2 ^ 31 ->
  exists h' q', impl_step (h, q) o = Ok ((h', q'), (spec_step xs o).2) /\
    queue_repr h' q' (spec_step xs o).1.
Proof.
  intros Hm Hr Hmax. destruct o; cbn.
  - destruct (queue_push_spec h q xs x Hr Hmax) as (h' & q' & -> & Hr').
    rewrite (proj2 (Z.eqb_neq _ _)) in Hr' by done. by do 2 eexists.
  - destruct (queue_pop_spec h q xs Hr) as (h' & q' & -> & Hr'). by do 2 eexists.
  - rewrite (queue_top_spec h q xs Hr). by do 2 eexists.
  - rewrite (queue_size_spec h q xs Hr). by do 2 eexists.
  - rewrite (queue_get_n_spec h q xs (Z.of_nat n)) by (done || lia).
    rewrite Nat2Z.id. by do 2 eexists.
  - rewrite (queue_find_spec _ _ h q xs Hr). do 2 eexists. split; [|done]. cbn. do 4 f_equal.
    clear Hr Hmax. induction xs as [|y xs IH]; cbn; [done|]. rewrite IH. by destruct (p y).
  - destruct (queue_empty_spec h q xs Hr) as (h' & q' & -> & Hr'). by do 2 eexists.
Qed.

(** A call adds at most one element. *)
Lemma spec_step_length {D} (xs : list D) o : zlen (spec_step xs o).1 <= zlen xs + 1.
Proof. unfold zlen. destruct o; cbn; rewrite ?length_app; cbn; try lia. destruct xs; cbn; lia. Qed.

#[local] Arguments impl_step : simpl never.
#[local] Arguments spec_step : simpl never.

(** C15: from a new queue in any heap, every sequence of fewer than 2^31 calls to the
    operations of [queue.c] (the number of elements is an [int]) runs without
    dereferencing a null or dangling pointer and returns, call by call, what a
    plain list used as a FIFO returns, as long as memory is available. *)
Theorem queue_refines_list {D} `{!Malloc D, !MallocOk D} (h : gmap Z (queue_ele D)) ops :
  (forall h : gmap Z (queue_ele D), malloc h <> 0) -> zlen ops < 2 ^ 31 ->
  impl_run (h, queue_new) ops = Ok (spec_run [] ops).
Proof.
  intros Hm Hops. pose proof (queue_new_repr h) as Hr. change (zlen ops) with (zlen (@nil D) + zlen ops) in Hops.
  revert h Hr Hops. generalize queue_new. generalize (@nil D).
  induction ops as [|o ops IH]; intros xs q h Hr Hops; [done|]. rewrite zlen_cons in Hops. pose proof (zlen_nonneg ops). cbn.
  destruct (impl_step_refines h q xs o Hm Hr ltac:(lia)) as (h' & q' & -> & Hr'). cbn. pose proof (spec_step_length xs o).
  rewrite (IH _ _ _ Hr') by lia. cbn. by destruct (spec_step xs o).
Qed.

(** An allocator that never runs out: the first address above those in use. *)
Definition bump_malloc : Malloc Z := fun h => Z.of_nat (S (fresh (Z.to_nat ∘ Z.pred <$> (map_to_list h).*1))).

Lemma bump_malloc_ok : @MallocOk Z bump_malloc.
Proof.
  intros h _. unfold malloc, bump_malloc. destruct (h !! _) eqn:E; [|done].
  exfalso. set (l := Z.to_nat ∘ Z.pred <$> _) in *. apply (infinite_is_fresh l).
  unfold l at 2. apply list_elem_of_fmap. eexists. split; cycle 1.
  - apply list_elem_of_fmap. eexists (_, _). split; [done|].
    apply elem_of_map_to_list. exact E.
  - cbn. lia.
Qed.

Lemma queue_refines_list_witness :
  @impl_run Z bump_malloc (∅, queue_new) [QPush 7; QPush 8; QPop; QPush 9; QFind (Z.eqb 9); QSize; QPop; QPop; QPop] =
  Ok (spec_run [] [QPush 7; QPush 8; QPop; QPush 9; QFind (Z.eqb 9); QSize; QPop; QPop; QPop]).
Proof.
  apply (@queue_refines_list Z bump_malloc bump_malloc_ok); [|reflexivity].
  intros h. unfold malloc, bump_malloc. lia.
Defined.
