(* ===== verification/SyncQueue.v ===== *)
(** The bounded blocking queue of [destor/src/utils/sync_queue.c] as a state
    machine of threads.

    The contents are the list that [Queue.v] proves [queue.c] to implement. Any
    number of threads call the operations; each call is cut into the atomic
    steps between which other threads can run: taking the mutex, the tests and
    updates made under it, [pthread_cond_wait] (which releases the mutex and
    blocks in one step), [pthread_cond_broadcast], releasing the mutex. A waiter
    may also wake up spuriously, and [pthread_mutex_lock] may fail. The fields
    [pushed] and [popped] record the items in the order they entered and left. *)

From S2P Require Import Prelude.

(** Where a thread is in its current call. A thread in [Done] has returned;
    for the calls that return a pointer, with the given result. *)
Inductive pc (D : Type) :=
| Done (r : option D)
| PushLock (x : D) | PushTest (x : D) | PushLoop (x : D) | PushWait (x : D) | PushWake (x : D)
| PushBcast | PushUnlock
| PopLock | PopLoop | PopWait | PopWake | PopBcast (x : D) | PopUnlock (r : option D)
| TopLock | TopLoop | TopWait | TopWake | TopUnlock (r : option D)
| TermLock | TermSet | TermBcast | TermUnlock
| FindLock (p : D -> bool) | FindDo (p : D -> bool) | FindUnlock (r : option D).
Arguments Done {D} _. Arguments PushLock {D} _. Arguments PushTest {D} _.
Arguments PushLoop {D} _. Arguments PushWait {D} _. Arguments PushWake {D} _.
Arguments PushBcast {D}. Arguments PushUnlock {D}. Arguments PopLock {D}.
Arguments PopLoop {D}. Arguments PopWait {D}. Arguments PopWake {D}.
Arguments PopBcast {D} _. Arguments PopUnlock {D} _. Arguments TopLock {D}.
Arguments TopLoop {D}. Arguments TopWait {D}. Arguments TopWake {D}.
Arguments TopUnlock {D} _. Arguments TermLock {D}. Arguments TermSet {D}.
Arguments TermBcast {D}. Arguments TermUnlock {D}. Arguments FindLock {D} _.
Arguments FindDo {D} _. Arguments FindUnlock {D} _.

Record sync_queue (D : Type) := mk_sq {
  contents : list D;          (** [s_queue->queue] *)
  max_size : Z;
  term : bool;
  owner : option nat;         (** the thread that holds [mutex] *)
  pcs : nat -> pc D;
  pushed : list D;
  popped : list D;
}.
Arguments mk_sq {D} _ _ _ _ _ _ _.
Arguments contents {D} _. Arguments max_size {D} _. Arguments term {D} _.
Arguments owner {D} _. Arguments pcs {D} _ _. Arguments pushed {D} _. Arguments popped {D} _.

Section SyncQueue.
Context {D : Type}.
Implicit Types (s : sync_queue D) (t : nat) (c : pc D).

Definition upd (f : nat -> pc D) (t : nat) (c : pc D) : nat -> pc D :=
  fun u => if (u =? t)%nat then c else f u.

(** Thread [t] moves to [c]; the other fields are those of [s]. *)
Definition goto s t c : sync_queue D :=
  mk_sq (contents s) (max_size s) (term s) (owner s) (upd (pcs s) t c) (pushed s) (popped s).

Definition set_owner s (o : option nat) : sync_queue D :=
  mk_sq (contents s) (max_size s) (term s) o (pcs s) (pushed s) (popped s).

(** [pthread_mutex_lock]: enabled when nobody holds the mutex. *)
Definition lock s t c : option (sync_queue D) :=
  match owner s with
  | None => Some (goto (set_owner s (Some t)) t c)
  | Some _ => None
  end.

Definition unlock s t c : option (sync_queue D) := Some (goto (set_owner s None) t c).

(** [pthread_cond_broadcast(&min_work)] and [(&max_work)]. *)
Definition wake_min c : pc D :=
  match c with PopWait => PopWake | TopWait => TopWake | c => c end.

Definition wake_max c : pc D :=
  match c with PushWait x => PushWake x | c => c end.

Definition broadcast (wake : pc D -> pc D) s t c : option (sync_queue D) :=
  Some (goto (mk_sq (contents s) (max_size s) (term s) (owner s)
    (fun u => wake (pcs s u)) (pushed s) (popped s)) t c).

Definition queue_size s : Z := zlen (contents s).

Definition sync_queue_new (size : Z) : sync_queue D :=
  mk_sq [] size false None (fun _ => Done None) [] [].

(** The next step of a thread inside [sync_queue_push]. *)
Definition sync_queue_push s t c : option (sync_queue D) :=
  match c with
  | PushLock x => lock s t (PushTest x)
  | PushTest x => if term s then unlock s t (Done None) else Some (goto s t (PushLoop x))
  | PushLoop x =>
      if (0 <? max_size s) && (max_size s <=? queue_size s)
      then Some (goto (set_owner s None) t (PushWait x))
      else Some (goto (mk_sq (contents s ++ [x]) (max_size s) (term s) (owner s) (pcs s)
                         (pushed s ++ [x]) (popped s)) t PushBcast)
  | PushWake x => lock s t (PushLoop x)
  | PushBcast => broadcast wake_min s t PushUnlock
  | PushUnlock => unlock s t (Done None)
  | _ => None
  end.

(** ... inside [sync_queue_pop]. *)
Definition sync_queue_pop s t c : option (sync_queue D) :=
  match c with
  | PopLock => lock s t PopLoop
  | PopLoop =>
      match contents s with
      | [] => if term s then Some (goto s t (PopUnlock None))
              else Some (goto (set_owner s None) t PopWait)
      | x :: xs => Some (goto (mk_sq xs (max_size s) (term s) (owner s) (pcs s)
                                 (pushed s) (popped s ++ [x])) t (PopBcast x))
      end
  | PopWake => lock s t PopLoop
  | PopBcast x => broadcast wake_max s t (PopUnlock (Some x))
  | PopUnlock r => unlock s t (Done r)
  | _ => None
  end.

(** ... inside [sync_queue_get_top], which takes nothing out. *)
Definition sync_queue_get_top s t c : option (sync_queue D) :=
  match c with
  | TopLock => lock s t TopLoop
  | TopLoop =>
      match contents s with
      | [] => if term s then Some (goto s t (TopUnlock None))
              else Some (goto (set_owner s None) t TopWait)
      | x :: _ => Some (goto s t (TopUnlock (Some x)))
      end
  | TopWake => lock s t TopLoop
  | TopUnlock r => unlock s t (Done r)
  | _ => None
  end.

(** ... inside [sync_queue_term]. *)
Definition sync_queue_term s t c : option (sync_queue D) :=
  match c with
  | TermLock => lock s t TermSet
  | TermSet => Some (goto (mk_sq (contents s) (max_size s) true (owner s) (pcs s)
                             (pushed s) (popped s)) t TermBcast)
  | TermBcast => broadcast wake_min s t TermUnlock
  | TermUnlock => unlock s t (Done None)
  | _ => None
  end.

(** ... inside [sync_queue_find]. *)
Definition sync_queue_find s t c : option (sync_queue D) :=
  match c with
  | FindLock p => lock s t (FindDo p)
  | FindDo p => Some (goto s t (FindUnlock (List.find p (contents s))))
  | FindUnlock r => unlock s t (Done r)
  | _ => None
  end.

(** [sync_queue_size] reads the size without the mutex. *)
Definition sync_queue_size s : Z := queue_size s.

(** What happens next: thread [t] starts a call, makes its next step, wakes up
    spuriously, or sees [pthread_mutex_lock] fail and returns. *)
Inductive action := Start (c : pc D) | Go | Spurious | LockFails.

Definition starts c : bool :=
  match c with
  | PushLock _ | PopLock | TopLock | TermLock | FindLock _ => true
  | _ => false
  end.

Definition call_step s t c : option (sync_queue D) :=
  match c with
  | Done _ | PushWait _ | PopWait | TopWait => None
  | PushLock _ | PushTest _ | PushLoop _ | PushWake _ | PushBcast | PushUnlock =>
      sync_queue_push s t c
  | PopLock | PopLoop | PopWake | PopBcast _ | PopUnlock _ => sync_queue_pop s t c
  | TopLock | TopLoop | TopWake | TopUnlock _ => sync_queue_get_top s t c
  | TermLock | TermSet | TermBcast | TermUnlock => sync_queue_term s t c
  | FindLock _ | FindDo _ | FindUnlock _ => sync_queue_find s t c
  end.

Definition step s t (a : action) : option (sync_queue D) :=
  match a with
  | Start c =>
      match pcs s t with Done _ => if starts c then Some (goto s t c) else None | _ => None end
  | Go => call_step s t (pcs s t)
  | Spurious =>
      let c := wake_max (wake_min (pcs s t)) in
      match pcs s t with
      | PushWait _ | PopWait | TopWait => Some (goto s t c)
      | _ => None
      end
  | LockFails => if starts (pcs s t) then Some (goto s t (Done None)) else None
  end.

(** Every state some interleaving of any calls reaches. *)
Inductive reachable (size : Z) : sync_queue D -> Prop :=
| reach_new : reachable size (sync_queue_new size)
| reach_step s s' t a : reachable size s -> step s t a = Some s' -> reachable size s'.

(** ** The invariant *)

Definition holds c : bool :=
  match c with
  | PushTest _ | PushLoop _ | PushBcast | PushUnlock | PopLoop | PopBcast _ | PopUnlock _
  | TopLoop | TopUnlock _ | TermSet | TermBcast | TermUnlock | FindDo _ | FindUnlock _ => true
  | _ => false
  end.

Definition waits_min c : bool := match c with PopWait | TopWait => true | _ => false end.
Definition waits_max c : bool := match c with PushWait _ => true | _ => false end.
Definition bcasts_min c : bool := match c with PushBcast | TermBcast => true | _ => false end.
Definition bcasts_max c : bool := match c with PopBcast _ => true | _ => false end.

(** The result a thread is about to return under the mutex is the truth. *)
Definition result_ok s c : Prop :=
  match c with
  | PopUnlock None => contents s = [] /\ term s = true
  | TopUnlock r => r = head (contents s) /\ (r = None -> term s = true)
  | _ => True
  end.

Record inv s : Prop := {
  inv_owner t : holds (pcs s t) = true <-> owner s = Some t;
  inv_fifo : pushed s = popped s ++ contents s;
  inv_size : 0 < max_size s -> zlen (contents s) <= max_size s;
  inv_min t : waits_min (pcs s t) = true ->
    (contents s = [] /\ term s = false) \/ exists u, bcasts_min (pcs s u) = true;
  inv_max t : waits_max (pcs s t) = true ->
    (0 < max_size s <= zlen (contents s)) \/ exists u, bcasts_max (pcs s u) = true;
  inv_result t : result_ok s (pcs s t);
}.

Lemma upd_eq f t c : upd f t c t = c.
Proof. unfold upd. by rewrite Nat.eqb_refl. Qed.

Lemma upd_ne f t u c : u <> t -> upd f t c u = f u.
Proof. intros. unfold upd. by destruct (Nat.eqb_spec u t). Qed.

(** Case analysis on whether a thread is the one that moved. *)
Local Ltac cases_thread u t :=
  destruct (decide (u = t)) as [->|?]; [rewrite ?upd_eq in *|rewrite ?upd_ne in * by done].

Lemma bcasts_holds c : bcasts_min c = true \/ bcasts_max c = true -> holds c = true.
Proof. destruct c; cbn; intuition. Qed.

Lemma inv_holds_unique s t u :
  inv s -> holds (pcs s t) = true -> holds (pcs s u) = true -> u = t.
Proof. intros Hi Ht Hu. apply (inv_owner s Hi) in Ht, Hu. congruence. Qed.

(** A thread that is outside every critical section moves outside. *)
Lemma inv_outside s t c :
  inv s -> holds (pcs s t) = false -> holds c = false ->
  waits_min c = false -> waits_max c = false -> inv (goto s t c).
Proof.
  intros Hi Ho Hc Hmin Hmax.
  assert (bcasts_min (pcs s t) = false /\ bcasts_max (pcs s t) = false) as [Hb1 Hb2]
    by (destruct (pcs s t); done).
  split; cbn.
  - intros u. rewrite <- (inv_owner s Hi u). cases_thread u t; [|done]. by rewrite Hc, Ho.
  - apply Hi.
  - apply Hi.
  - intros u. cases_thread u t; [congruence|]. intros Hu.
    destruct (inv_min s Hi u Hu) as [?|[v Hv]]; [by left|]. right. exists v. cases_thread v t; congruence.
  - intros u. cases_thread u t; [congruence|]. intros Hu.
    destruct (inv_max s Hi u Hu) as [?|[v Hv]]; [by left|]. right. exists v. cases_thread v t; congruence.
  - intros u. cases_thread u t; [by destruct c|]. apply (inv_result s Hi u).
Qed.

Lemma inv_lock s s' t c :
  inv s -> holds c = true -> bcasts_min c = false -> bcasts_max c = false ->
  (forall r, c <> PopUnlock r /\ c <> TopUnlock r) ->
  lock s t c = Some s' -> inv s'.
Proof.
  intros Hi Hc Hb1 Hb2 Hr. unfold lock. destruct (owner s) eqn:Ho; [done|]. intros [= <-].
  assert (forall u, holds (pcs s u) = false) as Hno.
  { intros u. pose proof (inv_owner s Hi u). destruct (holds (pcs s u)); intuition congruence. }
  split; cbn.
  - intros u. cases_thread u t; [done|]. rewrite Hno. split; congruence.
  - apply Hi.
  - apply Hi.
  - intros u. cases_thread u t; [by destruct c|]. intros Hu. left.
    destruct (inv_min s Hi u Hu) as [?|[v Hv]]; [done|].
    pose proof (bcasts_holds (pcs s v)). rewrite Hno in *. intuition congruence.
  - intros u. cases_thread u t; [by destruct c|]. intros Hu. left.
    destruct (inv_max s Hi u Hu) as [?|[v Hv]]; [done|].
    pose proof (bcasts_holds (pcs s v)). rewrite Hno in *. intuition congruence.
  - intros u. cases_thread u t; [|apply (inv_result s Hi u)].
    destruct c; try done; destruct (Hr r); congruence.
Qed.

(** A step inside a critical section: [wake] is the identity unless the step
    is a broadcast. *)
Lemma inv_inside s s' t c :
  inv s -> pcs s' = upd (pcs s) t c -> holds (pcs s t) = true -> holds c = true ->
  owner s' = owner s -> max_size s' = max_size s ->
  pushed s' = popped s' ++ contents s' ->
  (0 < max_size s -> zlen (contents s') <= max_size s) ->
  (bcasts_min (pcs s t) = false /\ (contents s = [] /\ term s = false -> contents s' = [] /\ term s' = false)
   \/ bcasts_min c = true) ->
  (bcasts_max (pcs s t) = false /\ contents s' = contents s \/ bcasts_max c = true
   \/ bcasts_max (pcs s t) = false /\ zlen (contents s) <= zlen (contents s')) ->
  result_ok s' c -> inv s'.
Proof.
  intros Hi Hp Ht Hc Ho Hm Hfifo Hsize Hmin Hmax Hres.
  assert (forall u, u <> t -> holds (pcs s u) = false) as Hno.
  { intros u Hu. destruct (holds (pcs s u)) eqn:E; [|done].
    by pose proof (inv_holds_unique s t u Hi Ht E). }
  assert (waits_min c = false /\ waits_max c = false) as [? ?] by (by destruct c).
  split; rewrite ?Ho, ?Hm, ?Hp.
  - intros u. cases_thread u t; [rewrite Hc, <- (inv_owner s Hi); done|apply Hi].
  - done.
  - done.
  - intros u. cases_thread u t; [congruence|]. intros Hu.
    destruct Hmin as [[Hb Hmin]|?]; [|right; exists t; by rewrite upd_eq].
    destruct (inv_min s Hi u Hu) as [?|[v Hv]]; [by left; apply Hmin|].
    exfalso. destruct (decide (v = t)) as [->|?]; [congruence|].
    pose proof (bcasts_holds (pcs s v)). rewrite Hno in * by done. intuition congruence.
  - intros u. cases_thread u t; [congruence|]. intros Hu.
    destruct Hmax as [[Hb Hmax]|[?|[Hb Hmax]]]; [|right; exists t; by rewrite upd_eq|];
      (destruct (inv_max s Hi u Hu) as [?|[v Hv]]; [left; rewrite ?Hmax; lia|]);
      exfalso; (destruct (decide (v = t)) as [->|?]; [congruence|]);
      pose proof (bcasts_holds (pcs s v)); rewrite Hno in * by done; intuition congruence.
  - intros u. cases_thread u t; [done|]. pose proof (Hno u ltac:(done)) as Hh.
    by destruct (pcs s u).
Qed.

Lemma inv_unlock s t c :
  inv s -> holds (pcs s t) = true -> holds c = false ->
  bcasts_min (pcs s t) = false -> bcasts_max (pcs s t) = false ->
  (waits_min c = true -> contents s = [] /\ term s = false) ->
  (waits_max c = true -> 0 < max_size s <= zlen (contents s)) ->
  inv (goto (set_owner s None) t c).
Proof.
  intros Hi Ht Hc Hb1 Hb2 Hmin Hmax.
  assert (forall u, u <> t -> holds (pcs s u) = false) as Hno.
  { intros u Hu. destruct (holds (pcs s u)) eqn:E; [|done].
    by pose proof (inv_holds_unique s t u Hi Ht E). }
  split; cbn.
  - intros u. cases_thread u t; [by rewrite Hc|]. by rewrite Hno.
  - apply Hi.
  - apply Hi.
  - intros u. cases_thread u t; [by left; auto|]. intros Hu.
    destruct (inv_min s Hi u Hu) as [?|[v Hv]]; [by left|].
    right. exists v. cases_thread v t; congruence.
  - intros u. cases_thread u t; [by left; auto|]. intros Hu.
    destruct (inv_max s Hi u Hu) as [?|[v Hv]]; [by left|].
    right. exists v. cases_thread v t; congruence.
  - intros u. cases_thread u t; [by destruct c|]. apply (inv_result s Hi u).
Qed.

Lemma inv_broadcast s s' t c wake :
  inv s -> holds (pcs s t) = true -> holds c = true -> result_ok s c ->
  (wake = wake_min /\ bcasts_max (pcs s t) = false \/ wake = wake_max /\ bcasts_min (pcs s t) = false) ->
  broadcast wake s t c = Some s' -> inv s'.
Proof.
  intros Hi Ht Hc Hres Hw [= <-].
  assert (forall u, holds (wake (pcs s u)) = holds (pcs s u)) as Hwh.
  { intros u. by destruct Hw as [[-> _]|[-> _]], (pcs s u). }
  assert (forall u, bcasts_min (wake (pcs s u)) = bcasts_min (pcs s u) /\
                    bcasts_max (wake (pcs s u)) = bcasts_max (pcs s u)) as Hwb.
  { intros u. by destruct Hw as [[-> _]|[-> _]], (pcs s u). }
  split; cbn.
  - intros u. cases_thread u t; [rewrite Hc, <- (inv_owner s Hi); done|].
    rewrite Hwh. apply Hi.
  - apply Hi.
  - apply Hi.
  - intros u. cases_thread u t; [by destruct c|]. intros Hu.
    assert (wake = wake_max /\ bcasts_min (pcs s t) = false) as [-> Hb].
    { destruct Hw as [[-> _]|?]; [by destruct (pcs s u)|done]. }
    destruct (inv_min s Hi u) as [?|[v Hv]]; [by destruct (pcs s u)|by left|].
    right. exists v. cases_thread v t; [congruence|]. by rewrite (proj1 (Hwb v)).
  - intros u. cases_thread u t; [by destruct c|]. intros Hu.
    assert (wake = wake_min /\ bcasts_max (pcs s t) = false) as [-> Hb].
    { destruct Hw as [?|[-> _]]; [done|by destruct (pcs s u)]. }
    destruct (inv_max s Hi u) as [?|[v Hv]]; [by destruct (pcs s u)|by left|].
    right. exists v. cases_thread v t; [congruence|]. by rewrite (proj2 (Hwb v)).
  - intros u. cases_thread u t; [done|].
    destruct (decide (holds (pcs s u) = true)) as [E|E].
    + by pose proof (inv_holds_unique s t u Hi Ht E).
    + apply not_true_is_false in E. rewrite <- Hwh in E. by destruct (wake (pcs s u)).
Qed.

Lemma inv_new size : inv (sync_queue_new size).
Proof. split; cbn; intros; rewrite ?zlen_nil; (done || lia || by split). Qed.

Local Ltac inside Hi E :=
  eapply (inv_inside _ _ _ _ Hi); [reflexivity|..]; rewrite ?E; cbn;
  [done|done|done|done|..].

(** The step of each call under the mutex, by cases on where the thread is. *)
Lemma inv_call s s' t : inv s -> call_step s t (pcs s t) = Some s' -> inv s'.
Proof.
  intros Hi. pose proof (inv_fifo s Hi) as Hf. pose proof (inv_size s Hi) as Hs.
  pose proof (inv_result s Hi t) as Hr.
  destruct (pcs s t) as [r|x|x|x|x|x| | | | | | |x|r| | | | |r| | | | |p|p|r] eqn:E;
    cbn; try done;
    try (by apply inv_lock); try (intros [= <-]; apply inv_unlock; rewrite ?E; done).
  - destruct (term s) eqn:Et; intros [= <-]; [apply inv_unlock; by rewrite ?E|].
    inside Hi E; try done; by left.
  - unfold queue_size.
    destruct (Z.ltb_spec 0 (max_size s)), (Z.leb_spec (max_size s) (zlen (contents s))); cbn;
      intros [= <-]; (try (apply inv_unlock; rewrite ?E; done || lia));
      inside Hi E; try (by right); try (zlen; done || lia);
      try (right; right; split; [done|zlen]);
      by rewrite Hf, app_assoc.
  - apply inv_broadcast; rewrite ?E; by eauto.
  - destruct (contents s) as [|x xs] eqn:Ec; [destruct (term s) eqn:Et|]; intros [= <-].
    + inside Hi E; rewrite ?Ec, ?Et; try done; by left.
    + apply inv_unlock; by rewrite ?E.
    + inside Hi E; rewrite ?Ec; try done.
      * by rewrite Hf, <- app_assoc.
      * intros. specialize (Hs ltac:(done)). rewrite zlen_cons in Hs. lia.
      * left. split; [done|]. by intros [? _].
      * by right; left.
  - apply inv_broadcast; rewrite ?E; by eauto.
  - destruct (contents s) as [|x xs] eqn:Ec; [destruct (term s) eqn:Et|]; intros [= <-].
    + inside Hi E; rewrite ?Ec, ?Et; try done; by left.
    + apply inv_unlock; by rewrite ?E.
    + inside Hi E; rewrite ?Ec; try done; by left.
  - intros [= <-]. inside Hi E; try done; [by right|by left].
  - apply inv_broadcast; rewrite ?E; by eauto.
  - intros [= <-]. inside Hi E; try done; by left.
Qed.

Lemma inv_step s s' t a : inv s -> step s t a = Some s' -> inv s'.
Proof.
  intros Hi. destruct a as [c| | |]; cbn.
  - destruct (pcs s t) eqn:E; try done. destruct (starts c) eqn:Es; [|done].
    intros [= <-]. apply inv_outside; try done; [by rewrite E|by destruct c..].
  - by apply inv_call.
  - destruct (pcs s t) eqn:E; try done; intros [= <-]; apply inv_outside; by rewrite ?E.
  - destruct (starts (pcs s t)) eqn:E; [|done].
    intros [= <-]. apply inv_outside; try done. by destruct (pcs s t).
Qed.

Lemma inv_reachable size s : reachable size s -> inv s /\ max_size s = size.
Proof.
  induction 1 as [|s s' t a Hr [Hi Hm] Hs]; [split; [apply inv_new|done]|].
  split; [by eapply inv_step|]. rewrite <- Hm.
  destruct a; cbn in Hs; repeat (case_match; try done); simplify_eq; try done;
    unfold call_step, sync_queue_push, sync_queue_pop, sync_queue_get_top, sync_queue_term,
      sync_queue_find, lock, unlock, broadcast in *;
    repeat (case_match; try done); by simplify_eq.
Qed.

(** C18: in every interleaving of any number of threads calling the operations
    of a [SyncQueue] created with [sync_queue_new(size)], at most one thread is
    between [pthread_mutex_lock] and [pthread_mutex_unlock], no item is lost,
    duplicated or reordered (what was pushed is what was popped followed by the
    contents), and a positive [size] bounds the contents. *)
Theorem sync_queue_safe size s :
  reachable size s ->
  (forall t u, holds (pcs s t) = true -> holds (pcs s u) = true -> t = u) /\
  pushed s = popped s ++ contents s /\
  (0 < size -> zlen (contents s) <= size).
Proof.
  intros [Hi Hm]%inv_reachable. split; [|split].
  - intros t u Ht Hu. symmetry. by eapply inv_holds_unique.
  - apply Hi.
  - rewrite <- Hm. apply Hi.
Qed.

(** C19: no wakeup is lost. A thread that sleeps in [pthread_cond_wait] has
    reason to: for a consumer the queue is empty and not terminated, for a
    producer it is full, unless the thread inside the critical section is about
    to broadcast the very condition the sleeper waits for. And [sync_queue_pop]
    returns [NULL] only after [sync_queue_term], when every item accepted so
    far has been popped. *)
Theorem sync_queue_no_lost_wakeup size s t :
  reachable size s ->
  match pcs s t with
  | PopWait | TopWait =>
      (contents s = [] /\ term s = false) \/
      exists u, holds (pcs s u) = true /\ bcasts_min (pcs s u) = true
  | PushWait x =>
      0 < size <= zlen (contents s) \/
      exists u, holds (pcs s u) = true /\ bcasts_max (pcs s u) = true
  | PopUnlock None => term s = true /\ popped s = pushed s
  | _ => True
  end.
Proof.
  intros [Hi Hm]%inv_reachable.
  pose proof (inv_min s Hi t) as Hmin. pose proof (inv_max s Hi t) as Hmax.
  pose proof (inv_result s Hi t) as Hr.
  destruct (pcs s t) as [r|x|x|x|x|x| | | | | | |x|[r|]| | | | |r| | | | |p|p|r]; try done.
  - rewrite <- Hm. destruct (Hmax eq_refl) as [?|[u Hu]]; [by left|right; eauto using bcasts_holds].
  - destruct (Hmin eq_refl) as [?|[u Hu]]; [by left|right; eauto using bcasts_holds].
  - destruct Hr as [Hc Ht]. split; [done|]. by rewrite (inv_fifo s Hi), Hc, app_nil_r.
  - destruct (Hmin eq_refl) as [?|[u Hu]]; [by left|right; eauto using bcasts_holds].
Qed.
End SyncQueue.

(** Two threads on a queue of capacity one: the consumer sleeps, the producer
    fills the queue and is about to wake it. *)
Definition demo_script : list (nat * action) :=
  [ (0%nat, Start PopLock); (0%nat, Go); (0%nat, Go);
    (1%nat, Start (PushLock 5)); (1%nat, Go); (1%nat, Go); (1%nat, Go) ].

(** Actions that are not enabled are skipped. *)
Definition run_script {D} (s : sync_queue D) (l : list (nat * @action D)) : sync_queue D :=
  fold_left (fun s '(t, a) => default s (step s t a)) l s.

Lemma run_script_reachable {D} size (s : sync_queue D) l :
  reachable size s -> reachable size (run_script s l).
Proof.
  revert s. induction l as [|[t a] l IH]; intros s Hs; cbn; [done|]. apply IH.
  destruct (step s t a) eqn:E; [by eapply reach_step|done].
Qed.

Definition demo_state : sync_queue Z := run_script (sync_queue_new 1) demo_script.

Lemma sync_demo_reachable : reachable 1 demo_state.
Proof. apply run_script_reachable, reach_new. Qed.

Lemma sync_queue_safe_witness :
  (forall t u, holds (pcs demo_state t) = true -> holds (pcs demo_state u) = true -> t = u) /\
  pushed demo_state = popped demo_state ++ contents demo_state /\
  (0 < 1 -> zlen (contents demo_state) <= 1).
Proof. apply (sync_queue_safe 1 demo_state). apply sync_demo_reachable. Defined.

Lemma sync_queue_no_lost_wakeup_witness :
  (contents demo_state = [] /\ term demo_state = false) \/
  exists u, holds (pcs demo_state u) = true /\ bcasts_min (pcs demo_state u) = true.
Proof. exact (sync_queue_no_lost_wakeup 1 demo_state 0 sync_demo_reachable). Defined.
