(* ===== verification/LruCache.v ===== *)
(** The list-based cache of [destor/src/utils/lru_cache.c], used by the
    fingerprint cache, the restore caches and the restore-aware monitor.

    The [GList] is a list, head first. [hit_elem] returns a C truth value; the
    element [free_elem] is applied to is part of an operation's result. The hit
    and miss counters are [double]s that count by one: they are kept as
    integers. *)

From S2P Require Import Prelude.

Record lruCache (A U : Type) := mk_lru {
  elem_queue : list A;
  lru_max_size : Z;         (** less than zero means infinite cache *)
  lru_size : Z;
  hit_count : Z;
  miss_count : Z;
  hit_elem : A -> U -> bool;
}.
Arguments mk_lru {A U} _ _ _ _ _ _.
Arguments elem_queue {A U} _. Arguments lru_max_size {A U} _. Arguments lru_size {A U} _.
Arguments hit_count {A U} _. Arguments miss_count {A U} _. Arguments hit_elem {A U} _ _ _.

(** The first element a predicate accepts, with what precedes and follows it. *)
Fixpoint split_first {A} (p : A -> bool) (l : list A) : option (list A * A * list A) :=
  match l with
  | [] => None
  | x :: l =>
      if p x then Some ([], x, l)
      else match split_first p l with
           | Some (pre, y, post) => Some (x :: pre, y, post)
           | None => None
           end
  end.

Section LruCache.
Context {A U : Type}.
Implicit Types (c : lruCache A U).

Definition new_lru_cache (size : Z) (hit : A -> U -> bool) : lruCache A U :=
  mk_lru [] size 0 0 0 hit.

(** [g_list_free_full]: every element is freed. *)
Definition free_lru_cache c : list A := elem_queue c.

(** A hit moves the element to the head of the list. *)
Definition lru_cache_lookup c (user_data : U) : option A * lruCache A U :=
  match split_first (fun e => hit_elem c e user_data) (elem_queue c) with
  | Some (pre, e, post) =>
      (Some e, mk_lru (e :: pre ++ post) (lru_max_size c) (lru_size c)
                 (hit_count c + 1) (miss_count c) (hit_elem c))
  | None =>
      (None, mk_lru (elem_queue c) (lru_max_size c) (lru_size c)
               (hit_count c) (miss_count c + 1) (hit_elem c))
  end.

Definition lru_cache_lookup_without_update c (user_data : U) : option A :=
  match split_first (fun e => hit_elem c e user_data) (elem_queue c) with
  | Some (_, e, _) => Some e
  | None => None
  end.

Definition lru_cache_hits {V} c (user_data : V) (hit : A -> V -> bool) : option A * lruCache A U :=
  match split_first (fun e => hit e user_data) (elem_queue c) with
  | Some (pre, e, post) =>
      (Some e, mk_lru (e :: pre ++ post) (lru_max_size c) (lru_size c)
                 (hit_count c) (miss_count c) (hit_elem c))
  | None => (None, c)
  end.

(** The victim is the last element: [func] is called on it, then [free_elem]. *)
Definition lru_cache_insert c (data : A) : res (option A * lruCache A U) :=
  if (0 <? lru_max_size c) && (lru_size c =? lru_max_size c) then
    victim ← deref (last (elem_queue c));
    Ok (Some victim, mk_lru (data :: removelast (elem_queue c)) (lru_max_size c)
                       (lru_size c - 1 + 1) (hit_count c) (miss_count c) (hit_elem c))
  else
    Ok (None, mk_lru (data :: elem_queue c) (lru_max_size c) (lru_size c + 1)
                (hit_count c) (miss_count c) (hit_elem c)).

(** From the tail, the first element satisfying [func] is freed. *)
Definition lru_cache_kicks {V} c (user_data : V) (func : A -> V -> bool) : option A * lruCache A U :=
  match split_first (fun e => func e user_data) (rev (elem_queue c)) with
  | Some (post, e, pre) =>
      (Some e, mk_lru (rev pre ++ rev post) (lru_max_size c) (lru_size c - 1)
                 (hit_count c) (miss_count c) (hit_elem c))
  | None => (None, c)
  end.

Definition lru_cache_is_full c : bool :=
  if lru_max_size c <? 0 then false else lru_max_size c <=? lru_size c.

(** ** Well-formedness *)

Definition lru_wf c : Prop :=
  lru_size c = zlen (elem_queue c) /\ (0 < lru_max_size c -> lru_size c <= lru_max_size c).

Lemma split_first_Some p (l : list A) pre e post :
  split_first p l = Some (pre, e, post) ->
  l = pre ++ e :: post /\ p e = true /\ Forall (fun x => p x = false) pre.
Proof.
  revert pre e post. induction l as [|x l IH]; intros pre e post; cbn; [done|].
  destruct (p x) eqn:Hx; [by intros [= <- <- <-]; auto|].
  destruct (split_first p l) as [[[pre' y] post']|]; [|done]. intros [= <- <- <-].
  destruct (IH _ _ _ eq_refl) as (-> & ? & ?). by auto.
Qed.

Lemma split_first_None p (l : list A) :
  split_first p l = None <-> Forall (fun x => p x = false) l.
Proof.
  induction l as [|x l IH]; cbn; [by split; auto|].
  destruct (p x) eqn:Hx; [split; [done|intros H; inversion H; congruence]|].
  destruct (split_first p l) as [[[]]|].
  - split; [done|]. intros [_ ?%IH]%Forall_cons. done.
  - split; [|done]. intros _. constructor; [done|]. by apply IH.
Qed.

Lemma new_lru_cache_wf size hit : lru_wf (new_lru_cache size hit).
Proof. split; cbn; [done|lia]. Qed.

Lemma lru_cache_lookup_wf c u : lru_wf c -> lru_wf (lru_cache_lookup c u).2.
Proof.
  intros [Hs Hm]. unfold lru_cache_lookup.
  destruct (split_first _ _) as [[[pre e] post]|] eqn:E; [|done].
  apply split_first_Some in E as (E & _ & _). split; cbn; [|done].
  rewrite Hs, E. zlen.
Qed.

Lemma lru_cache_hits_wf {V} c (u : V) hit : lru_wf c -> lru_wf (lru_cache_hits c u hit).2.
Proof.
  intros [Hs Hm]. unfold lru_cache_hits.
  destruct (split_first _ _) as [[[pre e] post]|] eqn:E; [|done].
  apply split_first_Some in E as (E & _ & _). split; cbn; [|done].
  rewrite Hs, E. zlen.
Qed.

Lemma removelast_snoc (l : list A) x : removelast (l ++ [x]) = l.
Proof. by rewrite removelast_app, app_nil_r. Qed.

(** An insertion succeeds; it evicts the last element exactly when the cache
    is full. *)
Lemma lru_cache_insert_spec c a :
  lru_wf c ->
  exists v c', lru_cache_insert c a = Ok (v, c') /\ lru_wf c' /\
    lru_max_size c' = lru_max_size c /\ hit_elem c' = hit_elem c /\
    elem_queue c' ++ option_list v = a :: elem_queue c /\
    (is_Some v <-> 0 < lru_max_size c /\ lru_size c = lru_max_size c).
Proof.
  intros [Hs Hm]. unfold lru_cache_insert.
  destruct (Z.ltb_spec 0 (lru_max_size c)), (Z.eqb_spec (lru_size c) (lru_max_size c)); cbn.
  - destruct (exists_last (l := elem_queue c)) as (l & x & Hl).
    { intros E. rewrite E, zlen_nil in Hs. lia. }
    rewrite Hl, last_snoc, removelast_snoc. cbn. rewrite Hl in Hs. zlen.
    do 2 eexists. split; [reflexivity|]. unfold lru_wf. cbn. zlen.
    split_and!; try done; try lia; intros; by eexists.
  - do 2 eexists. split; [reflexivity|]. rewrite app_nil_r. unfold lru_wf. cbn. zlen.
    split_and!; try done; try lia; intros; naive_solver lia.
  - do 2 eexists. split; [reflexivity|]. rewrite app_nil_r. unfold lru_wf. cbn. zlen.
    split_and!; try done; try lia; intros; naive_solver lia.
  - do 2 eexists. split; [reflexivity|]. rewrite app_nil_r. unfold lru_wf. cbn. zlen.
    split_and!; try done; try lia; intros; naive_solver lia.
Qed.

Lemma lru_cache_kicks_wf {V} c (u : V) func : lru_wf c -> lru_wf (lru_cache_kicks c u func).2.
Proof.
  intros [Hs Hm]. unfold lru_cache_kicks.
  destruct (split_first _ _) as [[[post e] pre]|] eqn:E; [|done].
  apply split_first_Some in E as (E & _ & _).
  apply (f_equal (@rev A)) in E. rewrite rev_involutive, rev_app_distr in E. cbn in E.
  split; cbn; rewrite Hs, E; [|intros; rewrite <- E, <- Hs; lia].
  rewrite <- app_assoc. zlen.
Qed.

(** Some element that satisfies [func] leaves the cache, if there is one. *)
Lemma lru_cache_kicks_found {V} c (u : V) func : Exists (fun e => func e u = true) (elem_queue c) ->
  exists e c', lru_cache_kicks c u func = (Some e, c') /\ func e u = true /\ e :: elem_queue c' ≡ₚ elem_queue c /\
    hit_elem c' = hit_elem c /\ lru_max_size c' = lru_max_size c.
Proof.
  intros Hx. unfold lru_cache_kicks. destruct (split_first _ _) as [[[post e] pre]|] eqn:E.
  - apply split_first_Some in E as (E & He & _). do 2 eexists. split; [reflexivity|]. cbn. split_and!; try done.
    apply (f_equal (@rev A)) in E. rewrite rev_involutive, rev_app_distr in E. cbn in E. rewrite E, <- app_assoc.
    apply Permutation_middle.
  - apply split_first_None in E. apply Exists_exists in Hx as (e & Hin & He). rewrite Forall_forall in E.
    specialize (E e). rewrite He in E. discriminate E. by rewrite list_elem_of_In, <- in_rev, <- list_elem_of_In.
Qed.
End LruCache.

(** Looking an element up keeps the elements and finds one that satisfies the
    condition. *)
Lemma lru_lookup_forall {A U} (c : lruCache A U) u (P : A -> Prop) : lru_wf c -> Forall P (elem_queue c) ->
  let '(r, c') := lru_cache_lookup c u in
  lru_wf c' /\ hit_elem c' = hit_elem c /\ Forall P (elem_queue c') /\
  match r with Some e => P e /\ hit_elem c e u = true | None => True end.
Proof.
  intros Hw HP. pose proof (lru_cache_lookup_wf _ u Hw) as Hw'. unfold lru_cache_lookup in *.
  destruct (split_first _ _) as [[[pre e] post]|] eqn:E; cbn in *; [|by split_and!].
  apply split_first_Some in E as (E & He & _). rewrite E in HP. apply Forall_app in HP as [H1 [H2 H3]%Forall_cons].
  split_and!; try done. constructor; [done|]. by apply Forall_app.
Qed.

Lemma lru_hits_forall {A U V} (c : lruCache A U) (v : V) hit (P : A -> Prop) : lru_wf c -> Forall P (elem_queue c) ->
  let '(r, c') := lru_cache_hits c v hit in lru_wf c' /\ hit_elem c' = hit_elem c /\ Forall P (elem_queue c').
Proof.
  intros Hw HP. pose proof (lru_cache_hits_wf _ v hit Hw) as Hw'. unfold lru_cache_hits in *.
  destruct (split_first _ _) as [[[pre e] post]|] eqn:E; cbn in *; [|done].
  apply split_first_Some in E as (E & He & _). rewrite E in HP. apply Forall_app in HP as [H1 [H2 H3]%Forall_cons].
  split_and!; try done. constructor; [done|]. by apply Forall_app.
Qed.

(** What a hit or a miss says about the elements, and that they stay. *)
Lemma lru_hits_perm {A U V} (c : lruCache A U) (v : V) hit : lru_wf c ->
  let '(r, c') := lru_cache_hits c v hit in
  lru_wf c' /\ hit_elem c' = hit_elem c /\ lru_max_size c' = lru_max_size c /\ elem_queue c' ≡ₚ elem_queue c /\
  match r with Some e => e ∈ elem_queue c /\ hit e v = true | None => Forall (fun e => hit e v = false) (elem_queue c) end.
Proof.
  intros Hw. pose proof (lru_cache_hits_wf _ v hit Hw) as Hw'. unfold lru_cache_hits in *.
  destruct (split_first _ _) as [[[pre e] post]|] eqn:E; cbn in *.
  - apply split_first_Some in E as (E & He & _). rewrite E. split_and!; try done; [apply Permutation_middle|set_solver].
  - apply split_first_None in E. by split_and!.
Qed.

Lemma lru_lookup_perm {A U} (c : lruCache A U) u : lru_wf c ->
  let '(r, c') := lru_cache_lookup c u in
  lru_wf c' /\ hit_elem c' = hit_elem c /\ lru_max_size c' = lru_max_size c /\ elem_queue c' ≡ₚ elem_queue c /\
  match r with Some e => e ∈ elem_queue c /\ hit_elem c e u = true | None => Forall (fun e => hit_elem c e u = false) (elem_queue c) end.
Proof.
  intros Hw. pose proof (lru_cache_lookup_wf _ u Hw) as Hw'. unfold lru_cache_lookup in *.
  destruct (split_first _ _) as [[[pre e] post]|] eqn:E; cbn in *.
  - apply split_first_Some in E as (E & He & _). rewrite E. split_and!; try done; [apply Permutation_middle|set_solver].
  - apply split_first_None in E. by split_and!.
Qed.

Lemma lru_insert_forall {A U} (c : lruCache A U) a (P : A -> Prop) : lru_wf c -> Forall P (elem_queue c) -> P a ->
  exists v c', lru_cache_insert c a = Ok (v, c') /\ lru_wf c' /\ hit_elem c' = hit_elem c /\ Forall P (elem_queue c').
Proof.
  intros Hw HP Ha. destruct (lru_cache_insert_spec c a Hw) as (v & c' & E & W & _ & H & Q & _).
  exists v, c'. split_and!; try done. assert (F : Forall P (elem_queue c' ++ option_list v)) by (rewrite Q; by constructor).
  by apply Forall_app in F as [? _].
Qed.

Lemma lru_insert_head {A U} (c : lruCache A U) a v c' : lru_cache_insert c a = Ok (v, c') -> exists l, elem_queue c' = a :: l.
Proof.
  unfold lru_cache_insert. destruct (_ && _); [|by intros [= _ <-]; eexists].
  intros (x & _ & H)%bind_Ok. injection H as _ <-. by eexists.
Qed.

(** ** The cache as the most recently used keys *)

(** A client that looks a key up and inserts an element for it on a miss, such
    as [restore_aware_update] or [lru_restore_thread]. *)
Section Recency.
Context {A K : Type} `{!EqDecision K} (key : A -> K) (make : K -> A).
Context (key_make : forall k, key (make k) = k).

Definition key_hit (a : A) (k : K) : bool := bool_decide (key a = k).

(** The boolean says whether the access was a hit. *)
Definition access (c : lruCache A K) (k : K) : res (bool * lruCache A K) :=
  match lru_cache_lookup c k with
  | (Some _, c) => Ok (true, c)
  | (None, c) => '(_, c) ← lru_cache_insert c (make k); Ok (false, c)
  end.

Fixpoint accesses (c : lruCache A K) (ks : list K) : res (list bool * lruCache A K) :=
  match ks with
  | [] => Ok ([], c)
  | k :: ks => '(b, c) ← access c k; '(bs, c) ← accesses c ks; Ok (b :: bs, c)
  end.

(** All keys ever used, most recently used first. *)
Definition touch (stack : list K) (k : K) : list K := k :: filter (fun k' => k' <> k) stack.
Definition mru (hist : list K) : list K := fold_left touch hist [].

(** Whether each access finds its key among the [n] most recently used ones. *)
Fixpoint hits_of (n : nat) (stack : list K) (ks : list K) : list bool :=
  match ks with
  | [] => []
  | k :: ks => bool_decide (k ∈ take n stack) :: hits_of n (touch stack k) ks
  end.

Lemma touch_NoDup (st : list K) k : NoDup st -> NoDup (touch st k).
Proof.
  intros. apply NoDup_cons. split; [|by apply NoDup_filter].
  rewrite list_elem_of_filter. naive_solver.
Qed.

Lemma filter_absent (l : list K) k : k ∉ l -> filter (fun k' => k' <> k) l = l.
Proof.
  induction l as [|x l IH]; [done|]. intros [? ?]%not_elem_of_cons.
  rewrite filter_cons_True by congruence. by rewrite IH.
Qed.

Lemma filter_take_out n (st : list K) k :
  k ∉ take n st -> take n (filter (fun k' => k' <> k) st) = take n st.
Proof.
  revert n. induction st as [|x st IH]; intros [|n]; cbn; [done..|].
  intros [? ?]%not_elem_of_cons. rewrite decide_True by congruence. cbn. by rewrite IH.
Qed.

Lemma filter_take_in n (st : list K) k :
  NoDup st -> k ∈ take (S n) st ->
  take n (filter (fun k' => k' <> k) st) = filter (fun k' => k' <> k) (take (S n) st).
Proof.
  revert n. induction st as [|x st IH]; intros n; [by destruct n|].
  intros [Hx Hnd]%NoDup_cons Hin. rewrite firstn_cons in *.
  destruct (decide (x = k)) as [->|Hne].
  - rewrite !filter_cons_False by naive_solver.
    rewrite !filter_absent; [done| |done].
    intros (i & Hi & _)%elem_of_take. by apply list_elem_of_lookup_2 in Hi.
  - apply elem_of_cons in Hin as [?|Hin]; [congruence|].
    rewrite !filter_cons_True by done. destruct n as [|n]; [by apply elem_of_nil in Hin|].
    cbn [take]. by rewrite IH.
Qed.

(** The cache holds the [n] most recently used keys, in that order. *)
Definition holds_mru (n : nat) (c : lruCache A K) (stack : list K) : Prop :=
  lru_wf c /\ lru_max_size c = Z.of_nat n /\ hit_elem c = key_hit /\
  map key (elem_queue c) = take n stack /\ NoDup stack.

Lemma filter_drop_one (l1 l2 : list K) k :
  NoDup (l1 ++ k :: l2) -> filter (fun k' => k' <> k) (l1 ++ k :: l2) = l1 ++ l2.
Proof.
  intros Hnd. apply NoDup_app in Hnd as (_ & H1 & [H2 _]%NoDup_cons).
  rewrite filter_app, filter_cons_False by naive_solver.
  rewrite !filter_absent; [done|done|]. intros Hk. apply (H1 k Hk). set_solver.
Qed.

Lemma lookup_hit n c st k pre e post :
  holds_mru (S n) c st ->
  split_first (fun e => hit_elem c e k) (elem_queue c) = Some (pre, e, post) ->
  k ∈ take (S n) st /\ map key (e :: pre ++ post) = take (S n) (touch st k).
Proof.
  intros (_ & _ & Hh & Hk & Hnd) (Hq & He & _)%split_first_Some.
  rewrite Hh in He. apply bool_decide_eq_true in He.
  rewrite Hq, map_app in Hk. cbn in Hk. rewrite He in Hk.
  assert (Hin : k ∈ take (S n) st) by (rewrite <- Hk; set_solver).
  split; [done|]. unfold touch. cbn [take map]. rewrite He, map_app. f_equal.
  rewrite filter_take_in, <- Hk by done. symmetry. apply filter_drop_one.
  rewrite Hk. eapply sublist_NoDup; [exact Hnd|]. apply sublist_take.
Qed.

Lemma access_spec n c st k :
  holds_mru (S n) c st ->
  exists c', access c k = Ok (bool_decide (k ∈ take (S n) st), c') /\ holds_mru (S n) c' (touch st k).
Proof.
  intros HI. unfold access. pose proof (lru_cache_lookup_wf c k ltac:(apply HI)) as Hwf.
  unfold lru_cache_lookup in *.
  destruct (split_first _ _) as [[[pre e] post]|] eqn:E; cbn in Hwf.
  - destruct (lookup_hit _ _ _ _ _ _ _ HI E) as [Hin Hk]. destruct HI as (_ & Hm & Hh & _ & Hnd).
    eexists. rewrite bool_decide_true by done. split; [done|].
    split_and!; [done..|]. by apply touch_NoDup.
  - destruct HI as (_ & Hm & Hh & Hk & Hnd).
    apply split_first_None in E. rewrite Hh in E.
    destruct (lru_cache_insert_spec _ (make k) Hwf) as (v & c' & -> & [Hs' Hm'] & Hmx & Hhe & Hq & Hv).
    destruct Hwf as [Hsz _]. cbn in *. exists c'.
    assert (Hout : k ∉ take (S n) st).
    { rewrite <- Hk. intros (a & -> & Ha)%list_elem_of_fmap.
      rewrite Forall_forall in E. specialize (E a Ha). by apply bool_decide_eq_false in E. }
    rewrite bool_decide_false by done. split; [done|].
    split_and!; [done|congruence|congruence| |by apply touch_NoDup].
    transitivity (take (S n) (k :: map key (elem_queue c))).
    + rewrite <- key_make with (k := k) at 1. rewrite <- (map_cons key), <- Hq, map_app.
      unfold zlen in *. destruct v as [x|]; cbn.
      * destruct Hv as [[_ Hv] _]; [done|]. apply (f_equal (@length A)) in Hq.
        rewrite length_app in Hq. cbn in Hq. rewrite take_app_length'; [done|].
        rewrite length_map. lia.
      * rewrite app_nil_r, take_ge; [done|]. rewrite length_map. lia.
    + rewrite Hk. unfold touch. cbn [take]. f_equal.
      transitivity (take n (take (S n) st)); [done|].
      rewrite <- (filter_take_out (S n) st k) by done. rewrite take_take. f_equal. lia.
Qed.

(** C30: a client that looks a key up and inserts it on a miss never fails, is
    answered by a hit exactly when the key is among the [n] most recently used
    ones, and leaves exactly these keys cached, most recent first: the list of
    [lru_cache.c] implements least-recently-used replacement. *)
Theorem lru_cache_is_lru (n : nat) (ks : list K) :
  (0 < n)%nat ->
  exists c', accesses (new_lru_cache (Z.of_nat n) key_hit) ks = Ok (hits_of n [] ks, c') /\
    map key (elem_queue c') = take n (mru ks).
Proof.
  intros Hn. destruct n as [|n]; [lia|].
  assert (H : forall c st, holds_mru (S n) c st ->
    exists c', accesses c ks = Ok (hits_of (S n) st ks, c') /\ holds_mru (S n) c' (fold_left touch ks st)).
  { induction ks as [|k ks IH]; intros c st Hc; cbn -[take]; [by eexists|].
    destruct (access_spec _ _ _ k Hc) as (c1 & -> & H1). cbn -[take].
    destruct (IH _ _ H1) as (c2 & -> & H2). by eexists. }
  destruct (H (new_lru_cache (Z.of_nat (S n)) key_hit) []) as (c' & -> & Hc).
  - split_and!; [apply new_lru_cache_wf|done..|constructor].
  - exists c'. split; [done|]. apply Hc.
Qed.
End Recency.

Lemma lru_cache_is_lru_witness :
  exists c', accesses id (new_lru_cache 2 (key_hit id)) [1; 2; 1; 3; 2; 1] =
               Ok ([false; false; true; false; false; false], c') /\
    elem_queue c' = [1; 2].
Proof.
  destruct (lru_cache_is_lru id id (fun _ => eq_refl) 2 [1; 2; 1; 3; 2; 1]) as (c' & H1 & H2); [lia|].
  exists c'. split; [exact H1|]. rewrite map_id in H2. exact H2.
Defined.
