(* ===== verification/Container.v ===== *)
(** The container store: [destor/src/storage/containerstore.c].

    A container is a 4 MB block: chunk data from the front, the metadata (id,
    counts and one entry per chunk) in the last 32 KB. [container.pool] is an
    8-byte counter followed by the containers (or, when simulating, by their
    metadata only). The store's state is [cstore]: the static variables of the
    file; the queue [container_buffer] is the list of its elements, since
    [SyncQueue] proves that it behaves as one. [simulation_level] is the field
    of [destor]. *)

From S2P Require Import Prelude Serial CFile Glib Destor.

Definition CONTAINER_SIZE : Z := 4194304.
Definition CONTAINER_META_SIZE : Z := 32768.
Definition CONTAINER_HEAD : Z := 16.
Definition CONTAINER_META_ENTRY : Z := 28.

Record metaEntry := mk_entry { me_off : Z; me_len : Z; me_fp : fingerprint }.

Record containerMeta := mk_cmeta {
  cm_id : Z;
  cm_data_size : Z;
  cm_chunk_num : Z;
  cm_map : gmap fingerprint metaEntry;
}.

Record container := mk_container { c_meta : containerMeta; c_data : option (list Z) }.

#[export] Instance metaEntry_eq_dec : EqDecision metaEntry.
Proof. solve_decision. Defined.
#[export] Instance containerMeta_eq_dec : EqDecision containerMeta.
Proof. solve_decision. Defined.
#[export] Instance container_eq_dec : EqDecision container.
Proof. solve_decision. Defined.

Record cstore := mk_cstore {
  container_count : Z;
  cs_fp : file;
  container_buffer : list container;
}.

#[local] Opaque zeros fresh_bytes.

Section ContainerStore.
Context `{HI : !HashIter fingerprint metaEntry} (simulation_level : Z).

(** ** Containers in memory *)

Definition init_container_meta : containerMeta := mk_cmeta TEMPORARY_ID 0 0 ∅.

Definition create_container (st : cstore) : container * cstore :=
  let data := if simulation_level <? SIMULATION_APPEND then Some (zeros CONTAINER_SIZE) else None in
  let m := init_container_meta in
  (mk_container (mk_cmeta (container_count st) (cm_data_size m) (cm_chunk_num m) (cm_map m)) data,
   mk_cstore (container_count st + 1) (cs_fp st) (container_buffer st)).

Definition get_container_id (c : container) : Z := cm_id (c_meta c).

Definition container_empty (c : container) : bool := cm_chunk_num (c_meta c) =? 0.

Definition container_overflow (c : container) (size : Z) : bool :=
  if CONTAINER_SIZE - CONTAINER_META_SIZE <? s32 (cm_data_size (c_meta c) + size) then true
  else CONTAINER_META_SIZE <? s32 ((cm_chunk_num (c_meta c) + 1) * 28 + 16).

(** The first [n] bytes at a chunk's data pointer. *)
Definition chunk_bytes (ck : chunk) (n : Z) : res (list Z) :=
  match ck_data ck with
  | Some d => read_bytes d 0 n
  | None => if n =? 0 then Ok [] else Err ENull
  end.

(** Returns 1 or 0, the container and the chunk, whose [id] is set. *)
Definition add_chunk_to_container (c : container) (ck : chunk) : res (Z * container * chunk) :=
  _ ← c_assert (negb (container_overflow c (ck_size ck)));
  let m := c_meta c in
  let ck' := set_ck_id ck (cm_id m) in
  if bool_decide (is_Some (cm_map m !! ck_fp ck)) then Ok (0, c, ck') else
  let me := mk_entry (cm_data_size m) (ck_size ck) (ck_fp ck) in
  data ← (if simulation_level <? SIMULATION_APPEND then
            d ← deref (c_data c);
            bs ← chunk_bytes ck (ck_size ck);
            Some <$> write_bytes d (cm_data_size m) bs
          else Ok (c_data c));
  Ok (1, mk_container (mk_cmeta (cm_id m) (s32 (cm_data_size m + ck_size ck)) (s32 (cm_chunk_num m + 1))
                         (<[me_fp me := me]> (cm_map m))) data, ck').

Definition get_metaentry_in_container_meta (cm : containerMeta) (fp : fingerprint) : option metaEntry :=
  cm_map cm !! fp.

(** [arg] are the 20 bytes of memory at the address of the parameter [fp]
    itself: they are what the last [memcpy] copies. *)
Definition get_chunk_in_container (arg : fingerprint) (c : container) (fp : fingerprint) : res chunk :=
  match get_metaentry_in_container_meta (c_meta c) fp with
  | None => Err EAssert
  | Some me =>
      let ck := new_chunk (me_len me) in
      data ← (if simulation_level <? SIMULATION_RESTORE then
                d ← deref (c_data c);
                bs ← read_bytes d (me_off me) (me_len me);
                Ok (if 0 <? me_len me then Some bs else None)
              else Ok (ck_data ck));
      Ok (mk_chunk (me_len me) (ck_flag ck) (cm_id (c_meta c)) arg data)
  end.

Definition lookup_fingerprint_in_container_meta (cm : containerMeta) (fp : fingerprint) : Z :=
  if bool_decide (cm_map cm !! fp = None) then 0 else 1.

Definition lookup_fingerprint_in_container (c : container) (fp : fingerprint) : Z :=
  lookup_fingerprint_in_container_meta (c_meta c) fp.

Definition g_container_meta_cmp_desc (cm1 cm2 : containerMeta) : Z := s32 (s64 (cm_id cm2 - cm_id cm1)).
Definition g_container_cmp_desc (c1 c2 : container) : Z := g_container_meta_cmp_desc (c_meta c1) (c_meta c2).

Definition container_meta_check_id (cm : containerMeta) (id : Z) : bool := cm_id cm =? id.
Definition container_check_id (c : container) (id : Z) : bool := container_meta_check_id (c_meta c) id.

(** The fingerprints [func] is called on, in order. *)
Definition container_meta_foreach (cm : containerMeta) : list fingerprint :=
  map fst (hash_iter (cm_map cm)).

Definition container_meta_duplicate (c : container) : containerMeta :=
  let base := c_meta c in
  mk_cmeta (cm_id base) (cm_data_size base) (cm_chunk_num base)
    (fold_left (fun m kv => <[me_fp kv.2 := kv.2]> m) (hash_iter (cm_map base)) ∅).

(** ** The metadata on disk *)

Definition ser_entry (cur : cursor) (me : metaEntry) : res cursor :=
  cur ← put cur (me_fp me);
  cur ← put cur (le_bytes 4 (me_len me));
  put cur (le_bytes 4 (me_off me)).

(** From [ser_begin] to [ser_end]. *)
Definition ser_meta_fields (m : containerMeta) (cur : cursor) : res cursor :=
  cur ← serial_int64 cur (cm_id m);
  cur ← serial_int32 cur (cm_chunk_num m);
  cur ← serial_int32 cur (cm_data_size m);
  foldM ser_entry cur (map snd (hash_iter (cm_map m))).
Definition ser_meta (buf : list Z) (base : Z) (m : containerMeta) : res (list Z) :=
  cur ← ser_meta_fields m (mk_cursor buf base);
  _ ← c_assert (pos cur - base <=? CONTAINER_META_SIZE);
  Ok (mem cur).

Definition unser_entry (cur : cursor) : res (metaEntry * cursor) :=
  '(fp, cur) ← get cur fp_size;
  '(len, cur) ← get cur 4;
  '(off, cur) ← get cur 4;
  Ok (mk_entry (s32 (le_val off)) (s32 (le_val len)) fp, cur).

Fixpoint unser_entries (n : nat) (map : gmap fingerprint metaEntry) (cur : cursor) :
    res (gmap fingerprint metaEntry * cursor) :=
  match n with
  | O => Ok (map, cur)
  | S n => '(me, cur) ← unser_entry cur; unser_entries n (<[me_fp me := me]> map) cur
  end.

(** From [unser_begin] to [unser_end], with the check of the id. *)
Definition unser_meta (id : Z) (cur : cursor) : res (containerMeta * cursor) :=
  '(cid, cur) ← unserial_int64 cur;
  '(chunk_num, cur) ← unserial_int32 cur;
  '(data_size, cur) ← unserial_int32 cur;
  _ ← c_assert (cid =? id);
  '(map, cur) ← unser_entries (Z.to_nat chunk_num) ∅ cur;
  Ok (mk_cmeta cid data_size chunk_num map, cur).

(** ** The store *)

Definition write_container (st : cstore) (c : container) : res cstore :=
  let m := c_meta c in
  _ ← c_assert (cm_chunk_num m =? Z.of_nat (size (cm_map m)));
  if container_empty c then
    Ok (mk_cstore (container_count st - 1) (cs_fp st) (container_buffer st))
  else if simulation_level <? SIMULATION_APPEND then
    d ← deref (c_data c);
    d ← ser_meta d (CONTAINER_SIZE - CONTAINER_META_SIZE) m;
    f ← fseek (cs_fp st) (cm_id m * CONTAINER_SIZE + 8);
    Ok (mk_cstore (container_count st) (fwrite f d) (container_buffer st))
  else
    buf ← ser_meta (zeros CONTAINER_META_SIZE) 0 m;
    f ← fseek (cs_fp st) (cm_id m * CONTAINER_META_SIZE + 8);
    Ok (mk_cstore (container_count st) (fwrite f buf) (container_buffer st)).

Definition write_container_async (st : cstore) (c : container) : res cstore :=
  _ ← c_assert (cm_chunk_num (c_meta c) =? Z.of_nat (size (cm_map (c_meta c))));
  if container_empty c then
    Ok (mk_cstore (container_count st - 1) (cs_fp st) (container_buffer st))
  else Ok (mk_cstore (container_count st) (cs_fp st) (container_buffer st ++ [c])).

(** One iteration of the loop of [append_thread]: the top of the queue is
    written, then popped. [None] when the queue is empty. *)
Definition append_write (st : cstore) : option (res cstore) :=
  c ← head (container_buffer st); Some (write_container st c).
Definition append_pop (st : cstore) : cstore :=
  mk_cstore (container_count st) (cs_fp st) (tail (container_buffer st)).

Fixpoint append_thread (fuel : nat) (st : cstore) : res cstore :=
  match append_write st, fuel with
  | None, _ => Ok st
  | Some _, O => Err EFuel
  | Some r, S fuel => st ← r; append_thread fuel (append_pop st)
  end.

(** [pool] are the contents of [container.pool] if it exists. *)
Definition init_container_store (pool : option (list Z)) : res cstore :=
  match pool with
  | Some data =>
      '(buf, f) ← fread_into (mk_file data 0) (le_bytes 8 0) 8;
      Ok (mk_cstore (s64 (le_val buf)) f [])
  | None => Ok (mk_cstore 0 empty_file [])
  end.

(** The append thread empties the queue before it stops. *)
Definition close_container_store (st : cstore) : res file :=
  st ← append_thread (length (container_buffer st)) st;
  f ← fseek (cs_fp st) 0;
  Ok (fwrite f (le_bytes 8 (container_count st))).

Definition set_fp (st : cstore) (f : file) : cstore :=
  mk_cstore (container_count st) f (container_buffer st).

Definition retrieve_container_by_id (st : cstore) (id : Z) : res (container * cstore) :=
  if SIMULATION_RESTORE <=? simulation_level then
    f ← fseek (cs_fp st)
          (if SIMULATION_APPEND <=? simulation_level then id * CONTAINER_META_SIZE + 8
           else (id + 1) * CONTAINER_SIZE - CONTAINER_META_SIZE + 8);
    '(data, f) ← fread_into f (fresh_bytes CONTAINER_META_SIZE) CONTAINER_META_SIZE;
    '(m, cur) ← unser_meta id (mk_cursor data 0);
    _ ← c_assert (pos cur <=? CONTAINER_META_SIZE);
    Ok (mk_container m None, set_fp st f)
  else
    f ← fseek (cs_fp st) (id * CONTAINER_SIZE + 8);
    '(data, f) ← fread_into f (fresh_bytes CONTAINER_SIZE) CONTAINER_SIZE;
    let base := CONTAINER_SIZE - CONTAINER_META_SIZE in
    '(m, cur) ← unser_meta id (mk_cursor data base);
    _ ← c_assert (pos cur - base <=? CONTAINER_META_SIZE);
    Ok (mk_container m (Some data), set_fp st f).

Definition retrieve_container_meta_by_id (st : cstore) (id : Z) : res (containerMeta * cstore) :=
  match list_find (fun c => container_check_id c id = true) (container_buffer st) with
  | Some (_, c) => Ok (container_meta_duplicate c, st)
  | None =>
      f ← fseek (cs_fp st)
            (if SIMULATION_APPEND <=? simulation_level then id * CONTAINER_META_SIZE + 8
             else (id + 1) * CONTAINER_SIZE - CONTAINER_META_SIZE + 8);
      '(buf, f) ← fread_into f (fresh_bytes CONTAINER_META_SIZE) CONTAINER_META_SIZE;
      '(m, _) ← unser_meta id (mk_cursor buf 0);
      Ok (m, set_fp st f)
  end.

(** ** The metadata format *)

Record meta_ok (m : containerMeta) : Prop := {
  mo_id : in_s 64 (cm_id m);
  mo_num : cm_chunk_num m = Z.of_nat (size (cm_map m));
  mo_fits : CONTAINER_HEAD + CONTAINER_META_ENTRY * cm_chunk_num m <= CONTAINER_META_SIZE;
  mo_size : 0 <= cm_data_size m <= CONTAINER_SIZE - CONTAINER_META_SIZE;
  mo_entry fp me : cm_map m !! fp = Some me ->
    me_fp me = fp /\ zlen fp = fp_size /\ 0 <= me_off me /\ 0 <= me_len me /\
    me_off me + me_len me <= cm_data_size m;
}.

Definition entry_bytes (me : metaEntry) : list Z :=
  me_fp me ++ le_bytes 4 (me_len me) ++ le_bytes 4 (me_off me).

Definition entries (m : containerMeta) : list metaEntry := map snd (hash_iter (cm_map m)).

Definition meta_bytes (m : containerMeta) : list Z :=
  be_bytes 8 (cm_id m) ++ be_bytes 4 (cm_chunk_num m) ++ be_bytes 4 (cm_data_size m) ++
  concat (map entry_bytes (entries m)).

Definition entry_ok (me : metaEntry) : Prop :=
  zlen (me_fp me) = fp_size /\ in_s 32 (me_len me) /\ in_s 32 (me_off me).

#[local] Arguments meta_bytes : simpl never.
#[local] Arguments entry_bytes : simpl never.

Context `{HO : !HashIterOk fingerprint metaEntry}.

Lemma entries_ok m : meta_ok m -> Forall entry_ok (entries m).
Proof.
  intros [_ _ _ Hs He]. apply Forall_forall. intros me (kv & -> & Hkv)%list_elem_of_fmap.
  destruct kv as [fp me]. apply hash_iter_elem in Hkv. apply He in Hkv as (Hf & ? & ? & ? & ?).
  unfold CONTAINER_SIZE, CONTAINER_META_SIZE in Hs. unfold entry_ok, in_s. cbn. rewrite Hf.
  split_and!; [done|lia..].
Qed.

Lemma length_entries m : length (entries m) = size (cm_map m).
Proof. unfold entries. rewrite length_map. apply hash_iter_length. Qed.

Lemma zlen_entries l :
  Forall entry_ok l -> zlen (concat (map entry_bytes l)) = CONTAINER_META_ENTRY * zlen l.
Proof.
  induction 1 as [|me l [Hf _] _ IH]; cbn; [done|].
  unfold entry_bytes at 1. zlen. rewrite IH, Hf. unfold fp_size, CONTAINER_META_ENTRY. lia.
Qed.

Lemma zlen_meta_bytes m :
  meta_ok m -> zlen (meta_bytes m) = CONTAINER_HEAD + CONTAINER_META_ENTRY * cm_chunk_num m.
Proof.
  intros Hm. unfold meta_bytes. rewrite !zlen_app, !zlen_be_bytes, zlen_entries by by apply entries_ok.
  unfold zlen. rewrite length_entries, <- mo_num by done. unfold CONTAINER_HEAD. lia.
Qed.

Lemma writes_entry me : writes (fun cur => ser_entry cur me) (entry_bytes me).
Proof. unfold ser_entry. repeat apply writes_bind; apply writes_put. Qed.

Lemma writes_meta m : writes (ser_meta_fields m) (meta_bytes m).
Proof.
  unfold ser_meta_fields, meta_bytes.
  apply (writes_bind _ _ (be_bytes 8 _)); [exact (writes_codec serial_int64 unserial_int64 (in_s 64) _)|].
  apply (writes_bind _ _ (be_bytes 4 _)); [exact (writes_codec serial_int32 unserial_int32 (in_s 32) _)|].
  apply (writes_bind _ _ (be_bytes 4 _)); [exact (writes_codec serial_int32 unserial_int32 (in_s 32) _)|].
  apply writes_foldM. intros. apply writes_entry.
Qed.

Lemma ser_meta_spec pre rest m :
  meta_ok m -> CONTAINER_META_SIZE <= zlen rest ->
  ser_meta (pre ++ rest) (zlen pre) m =
  Ok ((pre ++ meta_bytes m) ++ zdrop (zlen (meta_bytes m)) rest).
Proof.
  intros Hm Hr. pose proof (zlen_meta_bytes m Hm). pose proof (mo_fits m Hm).
  unfold ser_meta. rewrite writes_meta by lia. cbn. rewrite zlen_app.
  replace (_ <=? _) with true; [done|]. symmetry. apply Z.leb_le. unfold CONTAINER_META_SIZE in *. lia.
Qed.

Lemma reads_entry me : entry_ok me -> reads unser_entry me (entry_bytes me).
Proof.
  intros (Hf & Hl & Ho). unfold unser_entry, entry_bytes.
  eapply reads_bind; [by apply reads_get|].
  eapply reads_bind; [apply reads_get; by rewrite zlen_le_bytes|].
  rewrite <- (app_nil_r (le_bytes 4 (me_off me))).
  eapply reads_bind; [apply reads_get; by rewrite zlen_le_bytes|].
  change 32 with (8 * Z.of_nat 4). rewrite (le_load_signed 4 (me_off me)), (le_load_signed 4 (me_len me)) by first [done|lia].
  destruct me. apply reads_ret.
Qed.

Lemma reads_entries l acc :
  Forall entry_ok l ->
  reads (unser_entries (length l) acc)
    (fold_left (fun acc me => <[me_fp me := me]> acc) l acc) (concat (map entry_bytes l)).
Proof.
  intros Hl. revert acc. induction Hl as [|me l Hme _ IH]; intros acc; cbn; [apply reads_ret|].
  eapply reads_bind; [by apply reads_entry|]. apply IH.
Qed.

Lemma reads_meta m : meta_ok m -> reads (unser_meta (cm_id m)) m (meta_bytes m).
Proof.
  intros Hm. unfold unser_meta, meta_bytes.
  destruct (Hm) as [Hid Hnum Hfits Hsize Hentry].
  unfold CONTAINER_SIZE, CONTAINER_META_SIZE, CONTAINER_HEAD, CONTAINER_META_ENTRY in *.
  eapply (reads_bind unserial_int64 _ _ _ (be_bytes 8 _)).
  { by refine (reads_codec serial_int64 unserial_int64 (in_s 64) _ _). }
  eapply (reads_bind unserial_int32 _ _ _ (be_bytes 4 _)).
  { refine (reads_codec serial_int32 unserial_int32 (in_s 32) _ _). unfold in_s. lia. }
  eapply (reads_bind unserial_int32 _ _ _ (be_bytes 4 _)).
  { refine (reads_codec serial_int32 unserial_int32 (in_s 32) _ _). unfold in_s. lia. }
  apply reads_guard; [lia|].
  rewrite <- (app_nil_r (concat _)). eapply reads_bind.
  - rewrite Hnum, Nat2Z.id, <- length_entries. apply reads_entries. by apply entries_ok.
  - cbn beta. unfold entries. rewrite hash_iter_copy by (by intros ?? [? _]%Hentry).
    destruct m. apply reads_ret.
Qed.

(** ** Containers that a backup builds *)

Definition container_ok (c : container) : Prop :=
  meta_ok (c_meta c) /\
  match c_data c with
  | Some d => simulation_level < SIMULATION_APPEND /\ zlen d = CONTAINER_SIZE
  | None => SIMULATION_APPEND <= simulation_level
  end.

(** The container stores the bytes [bs] for the fingerprint [fp]. *)
Definition chunk_in (c : container) (fp : fingerprint) (bs : list Z) : Prop :=
  exists me d, cm_map (c_meta c) !! fp = Some me /\ c_data c = Some d /\
    read_bytes d (me_off me) (me_len me) = Ok bs.

Lemma chunk_bytes_size c n bs : chunk_bytes c n = Ok bs -> zlen bs = n.
Proof.
  unfold chunk_bytes. destruct (ck_data c); [apply read_bytes_len|]. destruct (Z.eqb_spec n 0); [|done]. by intros [= <-].
Qed.

(** A chunk as the earlier phases produce it. *)
Definition chunk_ok (ck : chunk) : Prop :=
  zlen (ck_fp ck) = fp_size /\ 0 <= ck_size ck <= CONTAINER_SIZE /\
  (simulation_level < SIMULATION_APPEND -> exists bs, chunk_bytes ck (ck_size ck) = Ok bs).

Lemma create_container_ok st :
  in_s 64 (container_count st) -> container_ok (create_container st).1.
Proof.
  intros Hid. unfold container_ok, create_container. split.
  - split; cbn; done.
  - cbn. destruct (Z.ltb_spec simulation_level SIMULATION_APPEND); cbn; [|done].
    split; [done|]. by apply zlen_zeros.
Qed.

(** The check guards both the data area and the metadata area. *)
Lemma container_overflow_spec c size :
  meta_ok (c_meta c) -> 0 <= size <= CONTAINER_SIZE ->
  container_overflow c size = false <->
  cm_data_size (c_meta c) + size <= CONTAINER_SIZE - CONTAINER_META_SIZE /\
  CONTAINER_HEAD + CONTAINER_META_ENTRY * (cm_chunk_num (c_meta c) + 1) <= CONTAINER_META_SIZE.
Proof.
  intros [_ Hn Hf Hs _] Hsz. unfold container_overflow.
  unfold CONTAINER_SIZE, CONTAINER_META_SIZE, CONTAINER_HEAD, CONTAINER_META_ENTRY in *.
  rewrite !swrap_id by (unfold in_s; lia).
  destruct (Z.ltb_spec (4194304 - 32768) (cm_data_size (c_meta c) + size)); [split; [done|lia]|].
  rewrite Z.ltb_ge. lia.
Qed.

Lemma read_bytes_write_other d off bs d' a n r :
  write_bytes d off bs = Ok d' -> read_bytes d a n = Ok r -> a + n <= off ->
  read_bytes d' a n = Ok r.
Proof.
  rewrite write_bytes_Ok, !read_bytes_Ok. intros (? & ? & ->) (? & ? & ? & ->) ?.
  pose proof (zlen_nonneg bs).
  rewrite !zlen_app, zlen_ztake, zlen_zdrop by lia. split_and!; try lia.
  rewrite zdrop_app_le by (rewrite zlen_ztake; lia).
  rewrite ztake_app_le by (rewrite zlen_zdrop, zlen_ztake by (rewrite ?zlen_ztake; lia); lia).
  symmetry. apply ztake_zdrop_ztake; lia.
Qed.

(** Adding a chunk that fits never fails; a fingerprint already there is
    reported by 0 and adds nothing. *)
Lemma add_chunk_spec c ck :
  container_ok c -> chunk_ok ck -> container_overflow c (ck_size ck) = false ->
  exists r c', add_chunk_to_container c ck = Ok (r, c', set_ck_id ck (cm_id (c_meta c))) /\
    container_ok c' /\ cm_id (c_meta c') = cm_id (c_meta c) /\
    (forall fp bs, chunk_in c fp bs -> chunk_in c' fp bs) /\
    is_Some (cm_map (c_meta c') !! ck_fp ck) /\
    (r = 0 /\ c' = c \/
     r = 1 /\ cm_map (c_meta c) !! ck_fp ck = None /\
       cm_chunk_num (c_meta c') = cm_chunk_num (c_meta c) + 1 /\
       (forall bs, simulation_level < SIMULATION_APPEND ->
          chunk_bytes ck (ck_size ck) = Ok bs -> chunk_in c' (ck_fp ck) bs)).
Proof.
  intros [Hm Hd] (Hfp & Hsz & Hb) Hov. unfold add_chunk_to_container. rewrite Hov. cbn [negb c_assert mbind res_bind].
  apply container_overflow_spec in Hov as [Hfit Hhead]; [|done..].
  destruct (cm_map (c_meta c) !! ck_fp ck) as [me0|] eqn:Hin.
  { exists 0, c. rewrite bool_decide_true by by eexists. split_and!; try done; by left. }
  rewrite bool_decide_false by by intros []. cbn [me_fp].
  destruct Hm as [Hid Hnum Hf Hs He].
  unfold CONTAINER_SIZE, CONTAINER_META_SIZE, CONTAINER_HEAD, CONTAINER_META_ENTRY in *.
  rewrite (swrap_id 32 (cm_data_size (c_meta c) + ck_size ck)), (swrap_id 32 (cm_chunk_num (c_meta c) + 1))
    by (unfold in_s; lia).
  assert (Hmeta : meta_ok (mk_cmeta (cm_id (c_meta c)) (cm_data_size (c_meta c) + ck_size ck)
      (cm_chunk_num (c_meta c) + 1)
      (<[ck_fp ck := mk_entry (cm_data_size (c_meta c)) (ck_size ck) (ck_fp ck)]> (cm_map (c_meta c))))).
  { unfold CONTAINER_SIZE, CONTAINER_META_SIZE, CONTAINER_HEAD, CONTAINER_META_ENTRY in *.
    split; cbn; unfold CONTAINER_SIZE, CONTAINER_META_SIZE, CONTAINER_HEAD, CONTAINER_META_ENTRY; try lia; [done| |].
    - rewrite map_size_insert_None by done. lia.
    - intros fp me. rewrite lookup_insert_Some. intros [[<- <-]|[_ (?&?&?&?&?)%He]]; cbn; split_and!; auto; lia. }
  destruct (Z.ltb_spec simulation_level SIMULATION_APPEND) as [Hsim|Hsim].
  - destruct (c_data c) as [d|] eqn:Hcd; [|lia]. destruct Hd as [_ Hlen].
    destruct (Hb Hsim) as [bs Hbs]. rewrite Hbs. cbn [deref mbind res_bind].
    assert (Hbl : zlen bs = ck_size ck).
    { unfold chunk_bytes in Hbs. destruct (ck_data ck); [by eapply read_bytes_len|].
      destruct (Z.eqb_spec (ck_size ck) 0); [|done]. by injection Hbs as <-. }
    destruct (write_bytes_total d (cm_data_size (c_meta c)) bs) as (d' & Hw & Hl'); [lia..|].
    rewrite Hw. cbn. do 2 eexists. split; [reflexivity|].
    split_and!; try done; cbn.
    + split; [done|]. cbn. by rewrite Hl'.
    + intros fp bs' (me & d0 & Hfp' & [= <-]%(eq_trans (eq_sym Hcd)) & Hr).
      exists me, d'. split_and!; [|done|].
      * cbn. rewrite lookup_insert_ne; [done|]. congruence.
      * eapply read_bytes_write_other; [exact Hw|exact Hr|]. apply He in Hfp' as (?&?&?&?&?). done.
    + rewrite lookup_insert_eq. by eexists.
    + right. split_and!; try done. intros bs' _ [= <-].
      exists (mk_entry (cm_data_size (c_meta c)) (ck_size ck) (ck_fp ck)), d'. cbn.
      rewrite lookup_insert_eq. split_and!; [done|done|].
      apply write_bytes_Ok in Hw as (? & ? & ->). apply read_bytes_app; [|done].
      rewrite zlen_ztake; lia.
  - cbn. do 2 eexists. split; [reflexivity|]. split_and!; try done; cbn.
    + intros fp bs (me & d & Hfp' & Hcd & Hr). rewrite Hcd in Hd. lia.
    + rewrite lookup_insert_eq. by eexists.
    + right. split_and!; try done. lia.
Qed.

(** What an addition does to the table: nothing, or one more fingerprint. *)
Lemma add_chunk_map c ck r c' ck' : add_chunk_to_container c ck = Ok (r, c', ck') ->
  ck' = set_ck_id ck (cm_id (c_meta c)) /\ cm_id (c_meta c') = cm_id (c_meta c) /\
  (r = 0 /\ c' = c /\ is_Some (cm_map (c_meta c) !! ck_fp ck) \/
   r = 1 /\ cm_map (c_meta c) !! ck_fp ck = None /\ exists me, cm_map (c_meta c') = <[ck_fp ck := me]> (cm_map (c_meta c))).
Proof.
  unfold add_chunk_to_container. intros H. apply bind_Ok in H as (? & _ & H). case_bool_decide as E.
  - injection H as <- <- <-. split_and!; [done|done|]. by left.
  - apply bind_Ok in H as (d & _ & H). injection H as <- <- <-. split_and!; [done|done|]. right. apply eq_None_not_Some in E.
    split_and!; [done|done|by eexists].
Qed.

(** ** Containers on disk *)

Definition slot_size : Z :=
  if simulation_level <? SIMULATION_APPEND then CONTAINER_SIZE else CONTAINER_META_SIZE.
Definition slot_base (id : Z) : Z := id * slot_size + 8.

(** What is written for a container: its data, the metadata in place. *)
Definition image (c : container) : list Z :=
  match c_data c with
  | Some d =>
      let base := CONTAINER_SIZE - CONTAINER_META_SIZE in
      (ztake base d ++ meta_bytes (c_meta c)) ++ zdrop (zlen (meta_bytes (c_meta c))) (zdrop base d)
  | None => meta_bytes (c_meta c) ++ zdrop (zlen (meta_bytes (c_meta c))) (zeros CONTAINER_META_SIZE)
  end.

Definition on_disk (data : list Z) (c : container) : Prop :=
  file_has data (slot_base (cm_id (c_meta c))) (image c).

Lemma zlen_image c : container_ok c -> zlen (image c) = slot_size.
Proof.
  intros [Hm Hd]. pose proof (zlen_meta_bytes _ Hm) as Hl. pose proof (mo_fits _ Hm).
  pose proof (zlen_nonneg (meta_bytes (c_meta c))).
  unfold image, slot_size. unfold CONTAINER_SIZE, CONTAINER_META_SIZE in *.
  destruct (c_data c) as [d|].
  - destruct Hd as [Hs Hd]. rewrite (proj2 (Z.ltb_lt _ _) Hs).
    rewrite !zlen_app, zlen_ztake, !zlen_zdrop by (rewrite ?zlen_zdrop; lia). lia.
  - rewrite (proj2 (Z.ltb_ge _ _) Hd). rewrite !zlen_app, !zlen_zdrop, zlen_zeros by (rewrite ?zlen_zeros; lia). lia.
Qed.

Lemma slot_disjoint id1 id2 :
  id1 <> id2 -> slot_base id1 + slot_size <= slot_base id2 \/ slot_base id2 + slot_size <= slot_base id1.
Proof.
  unfold slot_base, slot_size, CONTAINER_SIZE, CONTAINER_META_SIZE. destruct (_ <? _); lia.
Qed.

(** A container with chunks is written to its slot. *)
Lemma write_container_spec st c :
  container_ok c -> container_empty c = false -> 0 <= cm_id (c_meta c) ->
  write_container st c =
  Ok (mk_cstore (container_count st)
        (fwrite (mk_file (fdata (cs_fp st)) (slot_base (cm_id (c_meta c)))) (image c))
        (container_buffer st)).
Proof.
  intros [Hm Hd] Hne Hid. unfold write_container. rewrite (mo_num _ Hm) at 1.
  rewrite Z.eqb_refl. cbn [c_assert mbind res_bind]. rewrite Hne.
  assert (Hmul : forall k, 0 <= k -> (cm_id (c_meta c) * k + 8 <? 0) = false) by (intros; apply Z.ltb_ge; lia).
  unfold slot_base, slot_size, image, fseek.
  destruct (c_data c) as [d|].
  - destruct Hd as [Hs Hd]. rewrite (proj2 (Z.ltb_lt _ _) Hs). cbn [deref mbind res_bind].
    rewrite <- (ztake_zdrop (CONTAINER_SIZE - CONTAINER_META_SIZE) d) at 1.
    unfold CONTAINER_SIZE, CONTAINER_META_SIZE in *.
    pose proof (ser_meta_spec (ztake (4194304 - 32768) d) (zdrop (4194304 - 32768) d) (c_meta c) Hm) as Hser.
    rewrite zlen_ztake, zlen_zdrop in Hser by lia. rewrite Hser by (unfold CONTAINER_META_SIZE; lia).
    cbn [mbind res_bind]. by rewrite Hmul by lia.
  - rewrite (proj2 (Z.ltb_ge _ _) Hd).
    pose proof (ser_meta_spec [] (zeros CONTAINER_META_SIZE) (c_meta c) Hm) as Hser.
    cbn [app] in Hser. change (zlen []) with 0 in Hser. rewrite Hser by (rewrite zlen_zeros; unfold CONTAINER_META_SIZE; lia).
    cbn [mbind res_bind]. by rewrite Hmul by (unfold CONTAINER_META_SIZE; lia).
Qed.

Lemma on_disk_write data c :
  container_ok c -> 0 <= cm_id (c_meta c) ->
  on_disk (file_write data (slot_base (cm_id (c_meta c))) (image c)) c.
Proof.
  intros. apply file_write_has. unfold slot_base, slot_size, CONTAINER_SIZE, CONTAINER_META_SIZE.
  destruct (_ <? _); lia.
Qed.

Lemma on_disk_write_other data c c' :
  container_ok c -> container_ok c' -> 0 <= cm_id (c_meta c') ->
  cm_id (c_meta c) <> cm_id (c_meta c') -> on_disk data c ->
  on_disk (file_write data (slot_base (cm_id (c_meta c'))) (image c')) c.
Proof.
  intros Hc Hc' Hid Hne Hd. apply file_write_other; [|done|].
  - unfold slot_base, slot_size, CONTAINER_SIZE, CONTAINER_META_SIZE. destruct (_ <? _); lia.
  - rewrite !zlen_image by done. by apply slot_disjoint.
Qed.

(** The metadata of a slot is at the same place for both readers. *)
Lemma on_disk_meta data c :
  container_ok c -> on_disk data c ->
  exists rest, zlen (meta_bytes (c_meta c) ++ rest) = CONTAINER_META_SIZE /\
    file_has data (if SIMULATION_APPEND <=? simulation_level
                   then cm_id (c_meta c) * CONTAINER_META_SIZE + 8
                   else (cm_id (c_meta c) + 1) * CONTAINER_SIZE - CONTAINER_META_SIZE + 8)
      (meta_bytes (c_meta c) ++ rest).
Proof.
  intros Hc Hd. pose proof (zlen_image c Hc) as Hi. destruct Hc as [_ Hdata].
  unfold on_disk, slot_base, slot_size, image in *. unfold CONTAINER_SIZE, CONTAINER_META_SIZE in *.
  destruct (c_data c) as [d|].
  - destruct Hdata as [Hs Hl]. rewrite (proj2 (Z.ltb_lt _ _) Hs) in *.
    rewrite (proj2 (Z.leb_gt _ _) Hs).
    rewrite <- app_assoc in Hi, Hd. rewrite zlen_app, zlen_ztake in Hi by lia.
    eexists. split; [|].
    + instantiate (1 := zdrop (zlen (meta_bytes (c_meta c))) (zdrop (4194304 - 32768) d)). lia.
    + set (tail := zdrop _ _). replace (_ + 8) with
        (cm_id (c_meta c) * 4194304 + 8 + zlen (ztake (4194304 - 32768) d)) by (rewrite zlen_ztake; lia).
      apply (file_has_sub _ _ _ _ []). by rewrite app_nil_r.
  - rewrite (proj2 (Z.ltb_ge _ _) Hdata) in *. rewrite (proj2 (Z.leb_le _ _) Hdata). eauto.
Qed.

(** Reading a container that is on disk. *)
Lemma retrieve_meta_disk st c :
  container_ok c -> 0 <= cm_id (c_meta c) -> on_disk (fdata (cs_fp st)) c ->
  list_find (fun c' => container_check_id c' (cm_id (c_meta c)) = true) (container_buffer st) = None ->
  exists st', retrieve_container_meta_by_id st (cm_id (c_meta c)) = Ok (c_meta c, st') /\
    fdata (cs_fp st') = fdata (cs_fp st) /\ container_count st' = container_count st /\
    container_buffer st' = container_buffer st.
Proof.
  intros Hc Hid Hd Hnone. unfold retrieve_container_meta_by_id. rewrite Hnone.
  destruct (on_disk_meta _ _ Hc Hd) as (rest & Hl & Hh). set (off := if _ : bool then _ else _) in *.
  assert (Hoff : 0 <= off).
  { unfold off, CONTAINER_META_SIZE, CONTAINER_SIZE. destruct (_ <=? _); lia. }
  unfold fseek. rewrite (proj2 (Z.ltb_ge _ _) Hoff). step.
  rewrite <- Hl. rewrite (fread_into_has (mk_file _ off) _ _ Hh) by (apply zlen_fresh, zlen_nonneg).
  step.
  pose proof (reads_meta _ (proj1 Hc) [] rest) as Hr. cbn [app] in Hr. change (zlen []) with 0 in Hr.
  rewrite Hr. step. eexists. split; [reflexivity|]. split_and!; reflexivity.
Qed.

Lemma retrieve_container_disk st c :
  container_ok c -> 0 <= cm_id (c_meta c) -> on_disk (fdata (cs_fp st)) c ->
  exists c' st', retrieve_container_by_id st (cm_id (c_meta c)) = Ok (c', st') /\
    c_meta c' = c_meta c /\
    (simulation_level < SIMULATION_RESTORE -> forall fp bs, chunk_in c fp bs -> chunk_in c' fp bs).
Proof.
  intros Hc Hid Hd. unfold retrieve_container_by_id.
  pose proof (zlen_meta_bytes _ (proj1 Hc)) as Hml. pose proof (mo_fits _ (proj1 Hc)) as Hfit.
  destruct (Z.leb_spec SIMULATION_RESTORE simulation_level) as [Hs|Hs].
  - destruct (on_disk_meta _ _ Hc Hd) as (rest & Hl & Hh). set (off := if _ : bool then _ else _) in *.
    assert (Hoff : 0 <= off).
    { unfold off, CONTAINER_META_SIZE, CONTAINER_SIZE. destruct (_ <=? _); lia. }
    unfold fseek. rewrite (proj2 (Z.ltb_ge _ _) Hoff). step.
    rewrite <- Hl. rewrite (fread_into_has (mk_file _ off) _ _ Hh) by (apply zlen_fresh, zlen_nonneg).
    step.
    pose proof (reads_meta _ (proj1 Hc) [] rest) as Hr. cbn [app] in Hr. change (zlen []) with 0 in Hr.
    rewrite Hr. step; cbn [pos]. rewrite Hl, Hml, (proj2 (Z.leb_le _ _) Hfit). cbn [c_assert]. step.
    do 2 eexists. split; [reflexivity|]. split; [done|]. lia.
  - pose proof (zlen_image c Hc) as Hi. destruct Hc as [Hm Hdata].
    unfold on_disk, image, slot_base, slot_size in *. unfold SIMULATION_RESTORE, SIMULATION_APPEND in *.
    destruct (c_data c) as [d|] eqn:Hcd; [|lia]. destruct Hdata as [Hs' Hl].
    rewrite (proj2 (Z.ltb_lt _ _) Hs') in *.
    set (body := ztake (CONTAINER_SIZE - CONTAINER_META_SIZE) d) in *.
    assert (Hb : zlen body = CONTAINER_SIZE - CONTAINER_META_SIZE).
    { unfold body. rewrite zlen_ztake; unfold CONTAINER_SIZE, CONTAINER_META_SIZE in *; lia. }
    rewrite <- app_assoc in Hd, Hi. set (rest := zdrop (zlen _) _) in *.
    set (off := cm_id (c_meta c) * CONTAINER_SIZE + 8) in *.
    assert (Hoff : 0 <= off) by (unfold off, CONTAINER_SIZE; lia).
    unfold fseek. rewrite (proj2 (Z.ltb_ge _ _) Hoff). step.
    pose proof (fread_into_has (mk_file _ off) (fresh_bytes CONTAINER_SIZE) _ Hd) as Hf.
    rewrite Hi in Hf. rewrite Hf by (apply zlen_fresh; done). clear Hf.
    step. rewrite <- Hb.
    rewrite (reads_meta _ Hm body rest). step; cbn [pos]. rewrite zlen_app, Hml.
    replace (_ <=? CONTAINER_META_SIZE) with true by (symmetry; apply Z.leb_le; lia). cbn [c_assert]. step.
    do 2 eexists. split; [reflexivity|]. split; [done|]. intros _ fp bs (me & d0 & Hfp & [= <-]%(eq_trans (eq_sym Hcd)) & Hr).
    exists me. eexists. split_and!; [done|done|].
    destruct (mo_entry _ Hm _ _ Hfp) as (_ & _ & Ho & Hle & Hmax). pose proof (mo_size _ Hm).
    apply read_bytes_Ok in Hr as (_ & _ & Hr & ->). apply read_bytes_Ok.
    pose proof (zlen_nonneg (meta_bytes (c_meta c))). pose proof (zlen_nonneg rest).
    rewrite zlen_app, Hb. split_and!; [lia..| |].
    { rewrite zlen_app. lia. }
    rewrite zdrop_app_le by lia. rewrite ztake_app_le by (rewrite zlen_zdrop; lia).
    symmetry. apply ztake_zdrop_ztake; lia.
Qed.

Lemma container_meta_duplicate_eq c : meta_ok (c_meta c) -> container_meta_duplicate c = c_meta c.
Proof.
  intros Hm. unfold container_meta_duplicate.
  pose proof (hash_iter_copy me_fp (cm_map (c_meta c)) (fun k v H => proj1 (mo_entry _ Hm k v H))) as Hc.
  assert (Hf : forall (l : list (fingerprint * metaEntry)) (acc : gmap fingerprint metaEntry),
    fold_left (fun m kv => <[me_fp kv.2 := kv.2]> m) l acc =
    fold_left (fun m me => <[me_fp me := me]> m) (map snd l) acc).
  { induction l as [|[k v] l IH]; intros acc; cbn; [done|]. apply IH. }
  rewrite Hf, Hc. by destruct (c_meta c).
Qed.

(** A chunk the container stores is returned with its bytes. *)
Lemma get_chunk_spec arg c fp bs :
  simulation_level < SIMULATION_RESTORE -> chunk_in c fp bs ->
  exists ck, get_chunk_in_container arg c fp = Ok ck /\ chunk_bytes ck (ck_size ck) = Ok bs /\
    ck_id ck = cm_id (c_meta c) /\ ck_flag ck = CHUNK_UNIQUE /\ ck_fp ck = arg.
Proof.
  intros Hs (me & d & Hfp & Hd & Hr). unfold get_chunk_in_container, get_metaentry_in_container_meta.
  rewrite Hfp, (proj2 (Z.ltb_lt _ _) Hs), Hd. cbn [deref]. step. rewrite Hr. step. step.
  eexists. split; [reflexivity|]. cbn [ck_size ck_id ck_flag ck_fp]. split_and!; try done.
  pose proof (read_bytes_len _ _ _ _ Hr) as Hl. pose proof (zlen_nonneg bs).
  unfold chunk_bytes. cbn [ck_data]. destruct (Z.ltb_spec 0 (me_len me)).
  - apply read_bytes_Ok. rewrite zdrop_0, ztake_ge by lia. split_and!; [lia..|done].
  - rewrite (proj2 (Z.eqb_eq _ _)) by lia. f_equal. destruct bs; [done|].
    rewrite zlen_cons in Hl. pose proof (zlen_nonneg bs). lia.
Qed.

(** ** The life of the containers *)

(** The store with its two users: the filter phase, which fills one container
    at a time and hands it over, and the append thread, which writes the top of
    the buffer and then pops it; other threads read metadata at any time.
    [y_log] are the non-empty containers handed over so far, by id. *)
Record sys := mk_sys {
  y_st : cstore;
  y_open : option container;
  y_written : bool;      (** the append thread is between its write and its pop *)
  y_log : gmap Z container;
}.

(** 2^40 containers are 4 EB. *)
Definition count_max : Z := 2 ^ 40.

Inductive sys_step : sys -> sys -> Prop :=
| sys_create st c st' w log :
    container_count st < count_max -> create_container st = (c, st') ->
    sys_step (mk_sys st None w log) (mk_sys st' (Some c) w log)
| sys_add st c ck r c' ck' w log :
    chunk_ok ck -> container_overflow c (ck_size ck) = false ->
    add_chunk_to_container c ck = Ok (r, c', ck') ->
    sys_step (mk_sys st (Some c) w log) (mk_sys st (Some c') w log)
| sys_submit st c st' w log :
    write_container_async st c = Ok st' ->
    sys_step (mk_sys st (Some c) w log)
      (mk_sys st' None w (if container_empty c then log else <[cm_id (c_meta c) := c]> log))
| sys_append st st' o log :
    append_write st = Some (Ok st') ->
    sys_step (mk_sys st o false log) (mk_sys st' o true log)
| sys_pop st o log :
    sys_step (mk_sys st o true log) (mk_sys (append_pop st) o false log)
| sys_retrieve st id m st' o w log :
    retrieve_container_meta_by_id st id = Ok (m, st') ->
    sys_step (mk_sys st o w log) (mk_sys st' o w log).

Definition sys_init (st : cstore) : sys := mk_sys st None false ∅.

(** A store as [init_container_store] leaves it. *)
Definition store_start (st : cstore) : Prop :=
  0 <= container_count st <= count_max /\ container_buffer st = [].

Record sys_inv (s : sys) : Prop := {
  si_count : 0 <= container_count (y_st s) <= count_max;
  si_open c : y_open s = Some c ->
    container_ok c /\ cm_id (c_meta c) = container_count (y_st s) - 1 /\
    0 <= cm_id (c_meta c);
  si_log id c : y_log s !! id = Some c ->
    container_ok c /\ container_empty c = false /\ cm_id (c_meta c) = id /\
    0 <= id < container_count (y_st s) - (if y_open s then 1 else 0);
  si_buffer c : c ∈ container_buffer (y_st s) -> y_log s !! cm_id (c_meta c) = Some c;
  si_nodup : NoDup (container_buffer (y_st s));
  si_kept id c : y_log s !! id = Some c ->
    c ∈ container_buffer (y_st s) \/ on_disk (fdata (cs_fp (y_st s))) c;
  si_written : y_written s = true ->
    exists c cs, container_buffer (y_st s) = c :: cs /\ on_disk (fdata (cs_fp (y_st s))) c;
}.

Lemma list_find_head (cs : list container) id :
  match list_find (fun c => container_check_id c id = true) cs with
  | Some (_, c) => c ∈ cs /\ cm_id (c_meta c) = id
  | None => forall c, c ∈ cs -> cm_id (c_meta c) <> id
  end.
Proof.
  destruct (list_find _ cs) as [[i c]|] eqn:E.
  - apply list_find_Some in E as (H1 & H2 & _). split; [by eapply list_elem_of_lookup_2|].
    by apply Z.eqb_eq in H2.
  - apply list_find_None in E. intros c Hc Hid. rewrite Forall_forall in E.
    apply (E c Hc). unfold container_check_id, container_meta_check_id. lia.
Qed.

Lemma retrieve_meta_frame st id m st' :
  retrieve_container_meta_by_id st id = Ok (m, st') ->
  fdata (cs_fp st') = fdata (cs_fp st) /\ container_count st' = container_count st /\
  container_buffer st' = container_buffer st.
Proof.
  unfold retrieve_container_meta_by_id. destruct (list_find _ _) as [[i c]|].
  - by intros [= <- <-].
  - intros H. apply bind_Ok in H as (f & Hf & H). apply bind_Ok in H as ([buf f'] & Hr & H).
    apply bind_Ok in H as ([m' cur] & _ & [= <- <-]). cbn [set_fp cs_fp container_count container_buffer].
    apply fseek_Ok in Hf as [_ ->]. apply fread_into_data in Hr. split_and!; [exact Hr|reflexivity..].
Qed.

Lemma sys_step_inv s s' : sys_inv s -> sys_step s s' -> sys_inv s'.
Proof.
  intros Hinv Hst. destruct Hinv as [Hcnt Hopen Hlog Hbuf Hnd Hkept Hwr].
  destruct Hst as [st c st' w log Hmax Hc|st c ck r c' ck' w log Hck Hov Hadd|st c st' w log Hsub
                  |st st' o log Happ|st o log|st id m st' o w log Hret];
    cbn [y_st y_open y_written y_log] in *.
  - pose proof (create_container_ok st) as Hok. unfold create_container in Hc. injection Hc as Hce Hste.
    rewrite <- Hste. split; cbn; try done; [lia| |].
    + intros ? [= <-]. rewrite <- Hce. cbn. split; [|lia]. apply Hok. unfold in_s, count_max in *. lia.
    + intros i c0 Hi. destruct (Hlog i c0 Hi) as (?&?&?&?). split_and!; auto; lia.
  - destruct (Hopen c eq_refl) as (Hok & Hid & Hge).
    destruct (add_chunk_spec c ck Hok Hck Hov) as (r0 & c0 & Ha & Hok' & Hid' & _).
    rewrite Ha in Hadd. injection Hadd as <- <- <-. split; cbn; try done.
    intros ? [= <-]. rewrite Hid'. done.
  - destruct (Hopen c eq_refl) as (Hok & Hid & Hge). unfold write_container_async in Hsub.
    rewrite (mo_num _ (proj1 Hok)), Z.eqb_refl in Hsub. cbn [c_assert] in Hsub. rewrite bind_ret in Hsub.
    destruct (container_empty c) eqn:He; injection Hsub as <-.
    + split; cbn; try done; [lia|]. intros i c0 Hi. destruct (Hlog i c0 Hi) as (?&?&?&?). split_and!; auto; lia.
    + assert (Hnew : log !! cm_id (c_meta c) = None).
      { destruct (log !! _) as [c0|] eqn:E; [|done]. destruct (Hlog _ _ E) as (_ & _ & _ & ?). lia. }
      split; cbn; try done.
      * intros i c0. rewrite lookup_insert_Some. intros [[<- <-]|[_ Hi]]; [split_and!; auto; lia|].
        destruct (Hlog i c0 Hi) as (?&?&?&?). split_and!; auto; lia.
      * intros c0 [Hin|Hin%list_elem_of_singleton]%elem_of_app; [|subst c0; apply lookup_insert_eq].
        rewrite lookup_insert_ne; [by apply Hbuf|]. intros E. apply Hbuf in Hin. congruence.
      * apply NoDup_app. split_and!; [done| |apply NoDup_singleton].
        intros c0 Hin Hc%list_elem_of_singleton. subst c0. apply Hbuf in Hin. congruence.
      * intros i c0. rewrite lookup_insert_Some. intros [[<- <-]|[_ Hi]]; [set_solver|].
        destruct (Hkept i c0 Hi); [set_solver|auto].
      * intros Hw. destruct (Hwr Hw) as (c0 & cs & -> & Hd). exists c0, (cs ++ [c]). done.
  - unfold append_write in Happ. destruct (container_buffer st) as [|c cs] eqn:Eb; [done|].
    cbn in Happ. injection Happ as Happ.
    destruct (Hlog _ _ (Hbuf c ltac:(set_solver))) as (Hok & Hne & _ & Hge & _).
    rewrite write_container_spec in Happ by done. injection Happ as <-.
    split; cbn [y_st y_open y_written y_log container_count container_buffer cs_fp fwrite fdata fpos]; rewrite ?Eb; try done.
    + intros i c0 Hi. destruct (decide (c0 = c)) as [->|Hne0]; [set_solver|].
      destruct (Hkept i c0 Hi) as [?|Hd]; [auto|]. right.
      destruct (Hlog i c0 Hi) as (Hok0 & _ & <- & _).
      apply on_disk_write_other; try done. intros E. apply Hne0.
      pose proof (Hbuf c ltac:(set_solver)) as Hc. congruence.
    + intros _. exists c, cs. split; [done|]. by apply on_disk_write.
  - destruct (Hwr eq_refl) as (c & cs & Eb & Hd).
    split; cbn; rewrite ?Eb; cbn; try done.
    + intros c0 Hin. apply Hbuf. rewrite Eb. set_solver.
    + rewrite Eb in Hnd. by apply NoDup_cons in Hnd as [_ ?].
    + intros i c0 Hi. destruct (decide (c0 = c)) as [->|Hne0]; [auto|].
      destruct (Hkept i c0 Hi) as [Hin|?]; [|auto]. rewrite Eb in Hin. set_solver.
  - destruct (retrieve_meta_frame _ _ _ _ Hret) as (Ef & Ec & Eb).
    split; cbn; rewrite ?Ef, ?Ec, ?Eb; done.
Qed.

Definition sys_reachable (st : cstore) (s : sys) : Prop := rtc sys_step (sys_init st) s.

Lemma sys_reachable_inv st s : store_start st -> sys_reachable st s -> sys_inv s.
Proof.
  intros [Hc Hb] Hr.
  assert (H0 : sys_inv (sys_init st)).
  { split; cbn; try done; rewrite ?Hb; try done; [set_solver|constructor]. }
  induction Hr as [|x y z Hxy _ IH]; [done|]. apply IH. by eapply sys_step_inv.
Qed.

(** ** What the store promises *)

(** The container [c'] read back has the metadata of [c] and returns the bytes
    of every chunk of [c]. *)
Definition reads_as (c' c : container) : Prop :=
  c_meta c' = c_meta c /\
  forall fp bs arg, simulation_level < SIMULATION_RESTORE -> chunk_in c fp bs ->
  exists ck, get_chunk_in_container arg c' fp = Ok ck /\ chunk_bytes ck (ck_size ck) = Ok bs /\
    ck_id ck = cm_id (c_meta c).

Lemma on_disk_reads_as st c :
  container_ok c -> 0 <= cm_id (c_meta c) -> on_disk (fdata (cs_fp st)) c ->
  exists c' st', retrieve_container_by_id st (cm_id (c_meta c)) = Ok (c', st') /\ reads_as c' c.
Proof.
  intros Hok Hid Hd. destruct (retrieve_container_disk st c Hok Hid Hd) as (c' & st' & Hr & Hm & Hch).
  exists c', st'. split; [exact Hr|]. split; [exact Hm|]. intros fp bs arg Hs Hin.
  destruct (get_chunk_spec arg c' fp bs Hs (Hch Hs fp bs Hin)) as (ck & Hg & Hb & Hi & _).
  exists ck. split_and!; [exact Hg|exact Hb|congruence].
Qed.

(** The append thread empties its queue and leaves every container on disk. *)
Lemma append_thread_spec n st log :
  sys_inv (mk_sys st None false log) -> length (container_buffer st) = n ->
  exists st', append_thread n st = Ok st' /\ sys_inv (mk_sys st' None false log) /\
    container_buffer st' = [] /\ container_count st' = container_count st.
Proof.
  revert st. induction n as [|n IH]; intros st Hinv Hlen.
  - exists st. destruct (container_buffer st) eqn:Eb; [|discriminate]. unfold append_thread, append_write.
    rewrite Eb. cbn. split_and!; [reflexivity|exact Hinv|reflexivity..].
  - destruct (container_buffer st) as [|c cs] eqn:Eb; [discriminate|].
    destruct (si_log _ Hinv (cm_id (c_meta c)) c) as (Hok & Hne & _ & Hge & _).
    { apply (si_buffer _ Hinv). cbn. rewrite Eb. set_solver. }
    pose proof (write_container_spec st c Hok Hne Hge) as Hw. set (st1 := mk_cstore _ _ _) in Hw.
    assert (Ha : append_write st = Some (Ok st1)).
    { unfold append_write. rewrite Eb. cbn. f_equal. exact Hw. }
    assert (H1 : sys_inv (mk_sys (append_pop st1) None false log)).
    { eapply sys_step_inv; [|apply sys_pop]. eapply sys_step_inv; [exact Hinv|]. by apply sys_append. }
    cbn [append_thread]. rewrite Ha. rewrite bind_ret.
    destruct (IH (append_pop st1) H1) as (st' & Hst & Hi & Hb & Hc).
    { unfold append_pop, st1. cbn. rewrite Eb in *. by injection Hlen. }
    exists st'. split_and!; done.
Qed.

Lemma retrieve_meta_count st id m st' : retrieve_container_meta_by_id st id = Ok (m, st') -> container_count st' = container_count st.
Proof.
  unfold retrieve_container_meta_by_id. destruct (list_find _ _) as [[? ?]|]; [by intros [= _ <-]|].
  intros (f & _ & H)%bind_Ok. apply bind_Ok in H as ([buf f'] & _ & H). apply bind_Ok in H as ([m' c'] & _ & H). by injection H as _ <-.
Qed.

(** The append thread does not fail. *)
Lemma sys_inv_append s r : sys_inv s -> append_write (y_st s) = Some r -> exists st', r = Ok st'.
Proof.
  intros Hinv. unfold append_write. destruct (container_buffer (y_st s)) as [|c cs] eqn:Eb; [done|].
  cbn. intros [= <-]. destruct (si_log _ Hinv (cm_id (c_meta c)) c) as (Hok & Hne & _ & Hge & _).
  { apply (si_buffer _ Hinv). rewrite Eb. set_solver. }
  rewrite write_container_spec by done. by eexists.
Qed.

(** A container handed over is found in the buffer or on disk. *)
Lemma sys_inv_meta s id c : sys_inv s -> y_log s !! id = Some c ->
  exists st', retrieve_container_meta_by_id (y_st s) id = Ok (c_meta c, st').
Proof.
  intros Hinv Hl. destruct (si_log _ Hinv _ _ Hl) as (Hok & _ & <- & Hge & _).
  pose proof (list_find_head (container_buffer (y_st s)) (cm_id (c_meta c))) as Hf.
  destruct (list_find _ _) as [[i c0]|] eqn:E.
  - destruct Hf as [Hin Hid]. pose proof (si_buffer _ Hinv _ Hin) as Hl0.
    assert (c0 = c) as -> by congruence. unfold retrieve_container_meta_by_id. rewrite E.
    rewrite container_meta_duplicate_eq by apply Hok. by eexists.
  - destruct (si_kept _ Hinv _ _ Hl) as [Hin|Hd]; [by apply Hf in Hin|].
    destruct (retrieve_meta_disk (y_st s) c Hok Hge Hd E) as (st' & ? & _). by exists st'.
Qed.

(** C7: the containers handed over for writing are never lost. Whatever the
    interleaving of the backup, the append thread and the readers, the metadata
    of every non-empty container handed over so far can be retrieved at once,
    and once the container has left the buffer it is read back from disk with
    every chunk's bytes. *)
Theorem container_store_serves st s id c :
  store_start st -> sys_reachable st s -> y_log s !! id = Some c ->
  (exists st', retrieve_container_meta_by_id (y_st s) id = Ok (c_meta c, st')) /\
  (c ∉ container_buffer (y_st s) ->
   exists c' st', retrieve_container_by_id (y_st s) id = Ok (c', st') /\ reads_as c' c).
Proof.
  intros H0 Hr Hl. pose proof (sys_reachable_inv _ _ H0 Hr) as Hinv. split; [by apply sys_inv_meta|].
  intros Hnb. destruct (si_log _ Hinv _ _ Hl) as (Hok & _ & <- & Hge & _).
  destruct (si_kept _ Hinv _ _ Hl) as [?|Hd]; [done|]. by apply on_disk_reads_as.
Qed.

(** No operation of a running backup fails: the open container accepts
    every chunk that [container_overflow] lets through and can be handed over,
    and the append thread can write the top of its queue. *)
Theorem container_store_progress st s :
  store_start st -> sys_reachable st s ->
  (forall c ck, y_open s = Some c -> chunk_ok ck -> container_overflow c (ck_size ck) = false ->
     exists r c', add_chunk_to_container c ck = Ok (r, c', set_ck_id ck (container_count (y_st s) - 1))) /\
  (forall c, y_open s = Some c -> exists st', write_container_async (y_st s) c = Ok st') /\
  (forall r, append_write (y_st s) = Some r -> exists st', r = Ok st').
Proof.
  intros H0 Hr. pose proof (sys_reachable_inv _ _ H0 Hr) as Hinv. split_and!.
  - intros c ck Ho Hck Hov. destruct (si_open _ Hinv c Ho) as (Hok & <- & _).
    destruct (add_chunk_spec c ck Hok Hck Hov) as (r & c' & Ha & _). by exists r, c'.
  - intros c Ho. destruct (si_open _ Hinv c Ho) as (Hok & _ & _). unfold write_container_async.
    rewrite (mo_num _ (proj1 Hok)), Z.eqb_refl. cbn [c_assert]. rewrite bind_ret.
    destruct (container_empty c); by eexists.
  - intros r. by apply sys_inv_append.
Qed.

(** A store that is closed and opened again is a store at rest with the same log. *)
Lemma container_reopens st0 log : sys_inv (mk_sys st0 None false log) ->
  exists f st2, close_container_store st0 = Ok f /\ init_container_store (Some (fdata f)) = Ok st2 /\
    container_count st2 = container_count st0 /\ sys_inv (mk_sys st2 None false log).
Proof.
  intros Hinv. destruct (append_thread_spec _ st0 log Hinv eq_refl) as (st1 & Ha & Hi1 & Hb & Hc).
  set (cnt := le_bytes 8 (container_count st0)).
  set (f := fwrite (mk_file (fdata (cs_fp st1)) 0) cnt).
  assert (Hf : close_container_store st0 = Ok f).
  { unfold close_container_store. rewrite Ha. step. unfold fseek. cbn [Z.ltb Z.compare]. rewrite bind_ret.
    unfold f, cnt. by rewrite Hc. }
  set (st2 := mk_cstore (container_count st0) (mk_file (fdata f) 8) []).
  pose proof (si_count _ Hinv) as Hcnt. cbn in Hcnt.
  assert (Hst2 : init_container_store (Some (fdata f)) = Ok st2).
  { unfold init_container_store.
    rewrite (fread_into_at (fdata f) 0 _ cnt 8);
      [|by apply file_write_has|by unfold cnt; rewrite zlen_le_bytes|by rewrite zlen_le_bytes].
    step. unfold cnt. change 64 with (8 * Z.of_nat 8). rewrite le_load_signed; [reflexivity|lia|].
    unfold count_max in Hcnt. unfold in_s. lia. }
  exists f, st2. split_and!; [exact Hf|exact Hst2|reflexivity|].
  split; cbn [y_st y_open y_written y_log container_count container_buffer cs_fp st2 fdata]; try done.
  - intros id c Hl. exact (si_log _ Hinv _ _ Hl).
  - intros c Hin. by apply elem_of_nil in Hin.
  - constructor.
  - intros id c Hl. right. destruct (si_log _ Hi1 _ _ Hl) as (Hok & _ & Hid & Hge & _).
    destruct (si_kept _ Hi1 _ _ Hl) as [Hin|Hd]; [cbn in Hin; rewrite Hb in Hin; set_solver|].
    apply (file_write_other (fdata (cs_fp st1)) 0 cnt); [lia|exact Hd|]. right.
    unfold cnt. rewrite zlen_le_bytes, Hid.
    unfold slot_base, slot_size, CONTAINER_SIZE, CONTAINER_META_SIZE. destruct (_ <? _); lia.
Qed.

(** closing the store and opening it again keeps the counter and every
    container handed over. *)
Theorem container_store_persists st s :
  store_start st -> sys_reachable st s -> y_open s = None -> y_written s = false ->
  exists f st2, close_container_store (y_st s) = Ok f /\
    init_container_store (Some (fdata f)) = Ok st2 /\
    container_count st2 = container_count (y_st s) /\
    forall id c, y_log s !! id = Some c ->
      exists c' st', retrieve_container_by_id st2 id = Ok (c', st') /\ reads_as c' c.
Proof.
  intros H0 Hr Ho Hw. pose proof (sys_reachable_inv _ _ H0 Hr) as Hinv.
  destruct s as [st0 o w log]. cbn in Ho, Hw |- *. subst o w.
  destruct (container_reopens st0 log Hinv) as (f & st2 & Hf & Hi & Hc & Hinv2). exists f, st2. split_and!; [done..|].
  intros id c Hl. destruct (si_log _ Hinv2 _ _ Hl) as (Hok & _ & <- & Hge & _).
  destruct (si_kept _ Hinv2 _ _ Hl) as [Hin|Hd]; cbn in *.
  - assert (Hb : container_buffer st2 = []) by (unfold init_container_store in Hi; apply bind_Ok in Hi as ([??] & _ & Hi); by injection Hi as <-).
    rewrite Hb in Hin. by apply elem_of_nil in Hin.
  - by apply on_disk_reads_as.
Qed.

(** a container takes a chunk exactly when the data area and the metadata
    area both have room for it; otherwise the assertion fails. *)
Theorem add_chunk_exact c ck :
  container_ok c -> chunk_ok ck ->
  (exists r c' ck', add_chunk_to_container c ck = Ok (r, c', ck')) /\
    cm_data_size (c_meta c) + ck_size ck <= CONTAINER_SIZE - CONTAINER_META_SIZE /\
    CONTAINER_HEAD + CONTAINER_META_ENTRY * (cm_chunk_num (c_meta c) + 1) <= CONTAINER_META_SIZE \/
  add_chunk_to_container c ck = Err EAssert /\
    (CONTAINER_SIZE - CONTAINER_META_SIZE < cm_data_size (c_meta c) + ck_size ck \/
     CONTAINER_META_SIZE < CONTAINER_HEAD + CONTAINER_META_ENTRY * (cm_chunk_num (c_meta c) + 1)).
Proof.
  intros Hok Hck. pose proof (container_overflow_spec c (ck_size ck) (proj1 Hok) ltac:(apply Hck)) as Hov.
  destruct (container_overflow c (ck_size ck)) eqn:E.
  - right. split; [unfold add_chunk_to_container; by rewrite E|].
    destruct (Z.le_gt_cases (cm_data_size (c_meta c) + ck_size ck) (CONTAINER_SIZE - CONTAINER_META_SIZE)) as [H1|]; [|left; lia].
    destruct (Z.le_gt_cases (CONTAINER_HEAD + CONTAINER_META_ENTRY * (cm_chunk_num (c_meta c) + 1)) CONTAINER_META_SIZE) as [H2|]; [|right; lia].
    discriminate (proj2 Hov (conj H1 H2)).
  - left. split; [|by apply Hov]. destruct (add_chunk_spec c ck Hok Hck E) as (r & c' & Ha & _). by eauto.
Qed.
End ContainerStore.

(** ** Witnesses *)

Section Demo.
#[local] Existing Instance std_hash_iter.
#[local] Existing Instance std_hash_iter_ok.

Definition demo_store : cstore := mk_cstore 0 empty_file [].
Definition demo_chunk : chunk := mk_chunk 3 0 (-1) (replicate 20 7) (Some [1; 2; 3]).

Lemma demo_chunk_ok : chunk_ok 0 demo_chunk.
Proof. split_and!; [done|done..|]. intros _. exists [1; 2; 3]. reflexivity. Qed.

(** A container of one chunk. *)
Definition demo_container (c : container) : Prop :=
  chunk_in c (ck_fp demo_chunk) [1; 2; 3] /\ forall fp, is_Some (cm_map (c_meta c) !! fp) -> fp = ck_fp demo_chunk.

(** It is handed over and written. *)
Lemma demo_round n f log : 0 <= n < count_max -> exists st c,
  rtc (sys_step 0) (mk_sys (mk_cstore n f []) None false log) (mk_sys st None false (<[n := c]> log)) /\
    container_buffer st = [] /\ container_count st = n + 1 /\ demo_container c.
Proof.
  intros Hn0. set (s0 := mk_cstore n f []). set (c0 := (create_container 0 s0).1). set (st0 := (create_container 0 s0).2).
  assert (Hok : container_ok 0 c0) by (apply create_container_ok; unfold count_max in Hn0; unfold in_s; cbn; lia).
  assert (Hov : container_overflow c0 3 = false) by (apply container_overflow_spec; [apply Hok|done|done]).
  destruct (add_chunk_spec 0 c0 demo_chunk Hok demo_chunk_ok Hov)
    as (r & c1 & Ha & Hok1 & Hid & _ & _ & [(-> & ->)|(-> & _ & Hn & Hin)]).
  { exfalso. clear -Ha. unfold add_chunk_to_container in Ha.
    destruct (c_assert _); [rewrite bind_ret in Ha|done]. cbn [c0 create_container fst c_meta cm_map init_container_meta] in Ha.
    rewrite bool_decide_false in Ha by (rewrite lookup_empty; by intros []).
    apply bind_Ok in Ha as (? & _ & ?). done. }
  assert (He : container_empty c1 = false) by (unfold container_empty; rewrite Hn; reflexivity).
  set (st1 := mk_cstore (n + 1) f [c1]). change (cm_id (c_meta c0)) with n in Hid.
  pose proof (write_container_spec 0 st1 c1 Hok1 He ltac:(rewrite Hid; lia)) as Hw. rewrite Hid in Hw.
  exists (append_pop (mk_cstore (n + 1) (fwrite (mk_file (fdata f) (slot_base 0 n)) (image c1)) [c1])), c1.
  split_and!; [|reflexivity|reflexivity|split; [by apply Hin|]].
  - eapply rtc_l; [by eapply (sys_create 0 s0 c0 st0); [apply Hn0|]|].
    eapply rtc_l; [by eapply sys_add; [apply demo_chunk_ok|exact Hov|exact Ha]|].
    eapply rtc_l; [eapply (sys_submit 0 st0 c1 st1)|].
    { unfold write_container_async. rewrite (mo_num _ (proj1 Hok1)), Z.eqb_refl. cbn [c_assert].
      rewrite bind_ret, He. reflexivity. }
    rewrite He, Hid. eapply rtc_l; [apply sys_append; unfold append_write, st1; cbn; f_equal; exact Hw|].
    eapply rtc_l; [apply sys_pop|]. apply rtc_refl.
  - intros fp Hs. destruct (add_chunk_map _ _ _ _ _ _ Ha) as (_ & _ & [(? & _)|(_ & _ & me & E)]); [done|]. rewrite E in Hs.
    destruct (decide (fp = ck_fp demo_chunk)); [done|]. rewrite lookup_insert_ne in Hs by done. cbn in Hs. rewrite lookup_empty in Hs. by destruct Hs.
Qed.

Lemma container_demo_reachable :
  exists st c, sys_reachable 0 demo_store (mk_sys st None false {[0 := c]}) /\
    container_buffer st = [] /\ container_count st = 1 /\ chunk_in c (ck_fp demo_chunk) [1; 2; 3] /\
    forall fp, is_Some (cm_map (c_meta c) !! fp) -> fp = ck_fp demo_chunk.
Proof.
  destruct (demo_round 0 empty_file ∅) as (st & c & Hr & Hb & Hc & H1 & H2); [by split|]. exists st, c.
  split_and!; [exact Hr|done|exact Hc|exact H1|exact H2].
Qed.

(** Any number of them. *)
Lemma demo_rounds (k : nat) : Z.of_nat k <= count_max -> exists st log, sys_reachable 0 demo_store (mk_sys st None false log) /\
  container_buffer st = [] /\ container_count st = Z.of_nat k /\ forall id, 0 <= id < Z.of_nat k -> exists c, log !! id = Some c /\ demo_container c.
Proof.
  induction k as [|k IH]; intros Hk.
  - exists demo_store, ∅. split; [apply rtc_refl|]. split_and!; [done|done|]. intros id Hid. lia.
  - destruct IH as (st & log & Hr & Hb & Hc & Hl); [lia|]. destruct st as [n f b]. cbn in Hb, Hc. subst n b.
    destruct (demo_round (Z.of_nat k) f log) as (st' & c & Hr' & Hb' & Hc' & Hd); [lia|]. exists st', (<[Z.of_nat k := c]> log).
    split; [by eapply (transitivity (R := rtc (sys_step 0)))|]. split; [done|]. split; [lia|]. intros id Hid. destruct (decide (id = Z.of_nat k)) as [->|Hne].
    + exists c. by rewrite lookup_insert_eq.
    + rewrite lookup_insert_ne by done. apply Hl. lia.
Qed.

Lemma container_demo_start : store_start demo_store.
Proof. by split. Qed.

Lemma container_store_serves_witness :
  exists st c ck, get_chunk_in_container 0 [] c (ck_fp demo_chunk) = Ok ck /\
    chunk_bytes ck (ck_size ck) = Ok [1; 2; 3] /\ exists st', retrieve_container_by_id 0 st 0 = Ok (c, st').
Proof.
  destruct container_demo_reachable as (st & c & Hr & Hb & _ & Hin & _).
  destruct (container_store_serves 0 demo_store _ 0 c container_demo_start Hr (lookup_singleton_eq _ _)) as [_ H].
  destruct H as (c' & st' & Hret & _ & Hch); [cbn; rewrite Hb; set_solver|].
  destruct (Hch _ _ [] eq_refl Hin) as (ck & Hg & Hbs & _). by exists st, c', ck; eauto.
Defined.

Lemma container_store_progress_witness :
  exists s, sys_reachable 0 demo_store s /\
    (exists c r c', y_open s = Some c /\
       add_chunk_to_container 0 c demo_chunk = Ok (r, c', set_ck_id demo_chunk 0)) /\
    forall r, append_write 0 (y_st s) = Some r -> exists st', r = Ok st'.
Proof.
  set (c0 := (create_container 0 demo_store).1). set (st0 := (create_container 0 demo_store).2).
  assert (Hr : sys_reachable 0 demo_store (mk_sys st0 (Some c0) false ∅)).
  { apply rtc_once. by eapply (sys_create 0 demo_store c0 st0). }
  destruct (container_store_progress 0 demo_store _ container_demo_start Hr) as (H1 & _ & H3).
  exists (mk_sys st0 (Some c0) false ∅). split; [exact Hr|]. split; [|exact H3].
  destruct (H1 c0 demo_chunk eq_refl demo_chunk_ok eq_refl) as (r & c' & Ha).
  exists c0, r, c'. split; [reflexivity|exact Ha].
Defined.

Lemma container_store_persists_witness :
  exists data st2 c' st', init_container_store (Some data) = Ok st2 /\
    retrieve_container_by_id 0 st2 0 = Ok (c', st') /\ container_count st2 = 1.
Proof.
  destruct container_demo_reachable as (st & c & Hr & Hb & Hcnt & Hin & _).
  destruct (container_store_persists 0 demo_store _ container_demo_start Hr eq_refl eq_refl)
    as (f & st2 & Hf & Hi & Hc & Hall).
  destruct (Hall 0 c (lookup_singleton_eq _ _)) as (c' & st' & Hret & _).
  exists (fdata f), st2, c', st'. split_and!; [exact Hi|exact Hret|]. rewrite Hc. exact Hcnt.
Defined.

Lemma add_chunk_exact_witness :
  exists r c' ck', add_chunk_to_container 0 (create_container 0 demo_store).1 demo_chunk = Ok (r, c', ck').
Proof.
  destruct (add_chunk_exact 0 (create_container 0 demo_store).1 demo_chunk) as [(H & _)|(_ & [H|H])].
  - by apply create_container_ok.
  - apply demo_chunk_ok.
  - exact H.
  - discriminate H.
  - discriminate H.
Defined.
End Demo.
