(* ===== verification/Recipe.v ===== *)
(** The recipe store: [destor/src/recipe/recipestore.c].

    A backup version has three files: [.meta] (a header and one entry per
    file), [.recipe] (segments: a start flag, chunk pointers, an end flag) and
    [.records] (the container ids in access order). The files of a version are
    found by its number: the directory is a [gmap] from version numbers to the
    contents of the three files. The static variables of the file are arguments
    and results of the functions that use them. *)

From S2P Require Import Prelude CFile Glib Destor.

(** ** Data *)

Record backupVersion := mk_bv {
  bv_path : list Z;
  bv_num : Z;
  bv_deleted : Z;
  number_of_files : Z;
  number_of_chunks : Z;
  metadata_fp : file;
  recipe_fp : file;
  record_fp : file;
  metabuf : option (list Z);
  metabufoff : Z;
  recordbuf : option (list Z);
  recordbufoff : Z;
  segmentbuf : option (list Z);
  segmentlen : Z;
  segmentbufoff : Z;
}.

Record fileRecipeMeta := mk_fmeta { fm_chunknum : Z; fm_filesize : Z; fm_filename : list Z }.

Record chunkPointer := mk_cp { cp_fp : fingerprint; cp_id : Z; cp_size : Z }.

Record segmentRecipe := mk_sr { sr_id : Z; kvpairs : gmap fingerprint chunkPointer }.

#[export] Instance chunkPointer_eq_dec : EqDecision chunkPointer.
Proof. solve_decision. Defined.
#[export] Instance segmentRecipe_eq_dec : EqDecision segmentRecipe.
Proof. solve_decision. Defined.

(** The contents of [bvN.meta], [bvN.recipe] and [bvN.records]. *)
Record version_files := mk_vf { vf_meta : list Z; vf_recipe : list Z; vf_records : list Z }.

Definition metabufsize : Z := 64 * 1024.
Definition recordbufsize : Z := 64 * 1024.

Definition slash : Z := 47.

(** The C string at an address: up to the first NUL. *)
Fixpoint cstr (l : list Z) : list Z :=
  match l with
  | [] => []
  | b :: l => if b =? 0 then [] else b :: cstr l
  end.

(** Field updates. *)
Definition bv_set_meta (b : backupVersion) (f : file) (buf : option (list Z)) (off files : Z) : backupVersion :=
  mk_bv (bv_path b) (bv_num b) (bv_deleted b) files (number_of_chunks b) f (recipe_fp b) (record_fp b)
    buf off (recordbuf b) (recordbufoff b) (segmentbuf b) (segmentlen b) (segmentbufoff b).
Definition bv_set_recipe (b : backupVersion) (f : file) : backupVersion :=
  mk_bv (bv_path b) (bv_num b) (bv_deleted b) (number_of_files b) (number_of_chunks b) (metadata_fp b) f (record_fp b)
    (metabuf b) (metabufoff b) (recordbuf b) (recordbufoff b) (segmentbuf b) (segmentlen b) (segmentbufoff b).
Definition bv_set_record (b : backupVersion) (f : file) (buf : option (list Z)) (off : Z) : backupVersion :=
  mk_bv (bv_path b) (bv_num b) (bv_deleted b) (number_of_files b) (number_of_chunks b) (metadata_fp b) (recipe_fp b) f
    (metabuf b) (metabufoff b) buf off (segmentbuf b) (segmentlen b) (segmentbufoff b).
Definition bv_set_segment (b : backupVersion) (buf : option (list Z)) (len off chunks : Z) : backupVersion :=
  mk_bv (bv_path b) (bv_num b) (bv_deleted b) (number_of_files b) chunks (metadata_fp b) (recipe_fp b) (record_fp b)
    (metabuf b) (metabufoff b) (recordbuf b) (recordbufoff b) buf len off.

(** ** Versions *)

(** [counter] are the contents of [backupversion.count] if it exists. *)
Definition init_recipe_store (counter : option (list Z)) : Z :=
  match counter with
  | Some data => let '(_, buf, _) := fread_obj (mk_file data 0) (le_bytes 4 0) in s32 (le_val buf)
  | None => 0
  end.

Definition close_recipe_store (backup_version_count : Z) : list Z :=
  fdata (fwrite empty_file (le_bytes 4 backup_version_count)).

Definition get_next_version_number (backup_version_count : Z) : Z * Z :=
  (backup_version_count, s32 (backup_version_count + 1)).

(** The loop cuts the path behind its last '/', from the end; without one it
    runs off the front of the buffer. *)
Fixpoint trim_path (rev_path : list Z) : res (list Z) :=
  match rev_path with
  | [] => Err EBounds
  | ch :: rest => if ch =? slash then Ok (rev rev_path) else trim_path rest
  end.

Definition meta_header (b : backupVersion) : list Z :=
  le_bytes 4 (bv_num b) ++ le_bytes 4 (bv_deleted b) ++ le_bytes 8 (number_of_files b) ++
  le_bytes 8 (number_of_chunks b) ++ le_bytes 4 (zlen (bv_path b)) ++ bv_path b.

(** The six [fwrite]s of the header. *)
Definition write_header (f : file) (b : backupVersion) : file :=
  let f := fwrite f (le_bytes 4 (bv_num b)) in
  let f := fwrite f (le_bytes 4 (bv_deleted b)) in
  let f := fwrite f (le_bytes 8 (number_of_files b)) in
  let f := fwrite f (le_bytes 8 (number_of_chunks b)) in
  let f := fwrite f (le_bytes 4 (zlen (bv_path b))) in
  fwrite f (bv_path b).

Definition create_backup_version (count : Z) (path : list Z) : res (backupVersion * Z) :=
  let '(num, count) := get_next_version_number count in
  path ← trim_path (rev path);
  let b := mk_bv path num 0 0 0 empty_file empty_file empty_file
             (Some (fresh_bytes metabufsize)) 0 (Some (fresh_bytes recordbufsize)) 0 None 0 0 in
  Ok (bv_set_meta b (write_header (metadata_fp b) b) (metabuf b) 0 0, count).

Definition backup_version_exists (dir : gmap Z version_files) (number : Z) : bool :=
  bool_decide (is_Some (dir !! number)).

Definition open_backup_version (dir : gmap Z version_files) (number : Z) : res backupVersion :=
  match dir !! number with
  | None => Err (EExit 1)
  | Some vf =>
      let f := mk_file (vf_meta vf) 0 in
      let '(_, num, f) := fread_obj f (fresh_bytes 4) in
      _ ← c_assert (s32 (le_val num) =? number);
      let '(_, deleted, f) := fread_obj f (fresh_bytes 4) in
      let '(_, files, f) := fread_obj f (fresh_bytes 8) in
      let '(_, chunks, f) := fread_obj f (fresh_bytes 8) in
      let '(_, pathlen, f) := fread_obj f (fresh_bytes 4) in
      let pathlen := s32 (le_val pathlen) in
      if pathlen <? 0 then Err EBounds else
      let '(_, path, f) := fread_obj f (fresh_bytes pathlen) in
      Ok (mk_bv (cstr path) (s32 (le_val num)) (s32 (le_val deleted)) (s64 (le_val files)) (s64 (le_val chunks))
            f (mk_file (vf_recipe vf) 0) (mk_file (vf_records vf) 0) None 0 None 0 None 0 0)
  end.

(** Returns the new value of [access_record] too. *)
Definition update_backup_version (b : backupVersion) (access_record : Z) : res (backupVersion * Z) :=
  '(f, off) ← match metabuf b with
              | Some buf => if 0 <? metabufoff b
                            then bs ← read_bytes buf 0 (metabufoff b); Ok (fwrite (metadata_fp b) bs, 0)
                            else Ok (metadata_fp b, metabufoff b)
              | None => Ok (metadata_fp b, metabufoff b)
              end;
  f ← fseek f 0;
  let b := bv_set_meta b (write_header f b) (metabuf b) off (number_of_files b) in
  '(f, off) ← match recordbuf b with
              | Some buf => if 0 <? recordbufoff b
                            then bs ← read_bytes buf 0 (recordbufoff b); Ok (fwrite (record_fp b) bs, 0)
                            else Ok (record_fp b, recordbufoff b)
              | None => Ok (record_fp b, recordbufoff b)
              end;
  let f := if access_record =? TEMPORARY_ID then f else fwrite f (le_bytes 8 access_record) in
  let access_record := TEMPORARY_ID in
  Ok (bv_set_record b (fwrite f (le_bytes 8 access_record)) (recordbuf b) off, access_record).

(** Closing the streams leaves their contents in the directory. *)
Definition free_backup_version (dir : gmap Z version_files) (b : backupVersion) : gmap Z version_files :=
  <[bv_num b := mk_vf (fdata (metadata_fp b)) (fdata (recipe_fp b)) (fdata (record_fp b))]> dir.

(** ** File recipes *)

Definition new_file_recipe_meta (name : list Z) : fileRecipeMeta := mk_fmeta 0 0 name.

(** A [memcpy] to [buf + off], and the new offset. *)
Definition bufput (buf : option (list Z)) (off : Z) (bs : list Z) : res (option (list Z) * Z) :=
  m ← deref buf; m ← write_bytes m off bs; Ok (Some m, off + zlen bs).

Definition append_file_recipe_meta (b : backupVersion) (r : fileRecipeMeta) : res backupVersion :=
  let len := zlen (fm_filename r) in
  '(f, off) ← (if u64 (metabufsize - metabufoff b) <? 4 + len + 8 + 8 then
                 buf ← deref (metabuf b);
                 bs ← read_bytes buf 0 (metabufoff b);
                 Ok (fwrite (metadata_fp b) bs, 0)
               else Ok (metadata_fp b, metabufoff b));
  '(buf, off) ← bufput (metabuf b) off (le_bytes 4 len);
  '(buf, off) ← bufput buf off (fm_filename r);
  '(buf, off) ← bufput buf off (le_bytes 8 (fm_chunknum r));
  '(buf, off) ← bufput buf off (le_bytes 8 (fm_filesize r));
  Ok (bv_set_meta b f buf off (number_of_files b + 1)).

Definition read_next_file_recipe_meta (b : backupVersion) (read_file_num : Z) :
    res (fileRecipeMeta * backupVersion * Z) :=
  _ ← c_assert (read_file_num <=? number_of_files b);
  let f := metadata_fp b in
  let '(_, len, f) := fread_obj f (fresh_bytes 4) in
  let len := s32 (le_val len) in
  if len <? 0 then Err EBounds else
  let '(_, filename, f) := fread_obj f (fresh_bytes len) in
  let r := new_file_recipe_meta (cstr filename) in
  let '(_, chunknum, f) := fread_obj f (le_bytes 8 (fm_chunknum r)) in
  let '(_, filesize, f) := fread_obj f (le_bytes 8 (fm_filesize r)) in
  Ok (mk_fmeta (s64 (le_val chunknum)) (s64 (le_val filesize)) (fm_filename r),
      bv_set_meta b f (metabuf b) (metabufoff b) (number_of_files b), s32 (read_file_num + 1)).

(** ** Segment ids: 16-bit backup id, 32-bit offset, 16-bit size *)

Definition make_segment_id (bid off size : Z) : Z :=
  s64 (s64 (s64 (Z.shiftl bid 48) + s64 (Z.shiftl off 16)) + size).

Definition id_to_size (id : Z) : Z := Z.land id 65535.
Definition id_to_off (id : Z) : Z := Z.land (Z.shiftr id 16) 4294967295.
Definition id_to_bnum (id : Z) : Z := Z.shiftr id 48.

(** ** Writing recipes *)

Definition cp_bytes (cp : chunkPointer) : list Z :=
  cp_fp cp ++ le_bytes 8 (cp_id cp) ++ le_bytes 4 (cp_size cp).

(** The three [memcpy]s of a chunk pointer. *)
Definition put_cp (buf : option (list Z)) (off : Z) (cp : chunkPointer) : res (option (list Z) * Z) :=
  '(buf, off) ← bufput buf off (cp_fp cp);
  '(buf, off) ← bufput buf off (le_bytes 8 (cp_id cp));
  bufput buf off (le_bytes 4 (cp_size cp)).

(** [sizeof(fingerprint) + sizeof(containerid) + sizeof(int32_t)] *)
Definition cp_len : Z := 32.

Definition append_segment_flag (b : backupVersion) (flag segment_size : Z) : res (backupVersion * Z) :=
  _ ← c_assert ((flag =? CHUNK_SEGMENT_START) || (flag =? CHUNK_SEGMENT_END));
  let cp := mk_cp (zeros fp_size) (0 - flag) segment_size in
  let b := bv_set_recipe b (fseek_end (recipe_fp b)) in
  let off := fpos (recipe_fp b) in
  let b := if flag =? CHUNK_SEGMENT_START
           then let len := s32 (cp_len * 2 + segment_size * cp_len) in
                bv_set_segment b (Some (fresh_bytes len)) len 0 (number_of_chunks b)
           else b in
  '(buf, boff) ← put_cp (segmentbuf b) (segmentbufoff b) cp;
  let b := bv_set_segment b buf (segmentlen b) boff (number_of_chunks b) in
  if flag =? CHUNK_SEGMENT_END then
    buf ← deref (segmentbuf b);
    bs ← read_bytes buf 0 (segmentlen b);
    let b := bv_set_recipe b (fwrite (recipe_fp b) bs) in
    Ok (bv_set_segment b None 0 (segmentbufoff b) (number_of_chunks b), TEMPORARY_ID)
  else Ok (b, make_segment_id (bv_num b) off segment_size).

(** One chunk pointer: the previous container id is recorded when it changes. *)
Definition append_chunk_pointer (s : backupVersion * Z) (bcp : chunkPointer) : res (backupVersion * Z) :=
  let '(b, access_record) := s in
  b ← (if negb (access_record =? TEMPORARY_ID) && negb (access_record =? cp_id bcp) then
         '(f, off) ← (if recordbufsize <? recordbufoff b + 8 then
                        buf ← deref (recordbuf b);
                        bs ← read_bytes buf 0 (recordbufoff b);
                        Ok (fwrite (record_fp b) bs, 0)
                      else Ok (record_fp b, recordbufoff b));
         '(buf, off) ← bufput (recordbuf b) off (le_bytes 8 access_record);
         Ok (bv_set_record b f buf off)
       else Ok b);
  let access_record := cp_id bcp in
  _ ← c_assert (negb (cp_id bcp =? TEMPORARY_ID));
  '(buf, off) ← put_cp (segmentbuf b) (segmentbufoff b) bcp;
  Ok (bv_set_segment b buf (segmentlen b) off (number_of_chunks b + 1), access_record).

Definition append_n_chunk_pointers (b : backupVersion) (access_record : Z) (cps : list chunkPointer) (n : Z) :
    res (backupVersion * Z) :=
  if n <=? 0 then Ok (b, access_record)
  else if zlen cps <? n then Err EBounds
  else foldM append_chunk_pointer (b, access_record) (ztake n cps).

(** ** Reading recipes *)

(** The bytes of a [struct chunkPointer], field by field. *)
Record cpbuf := mk_cpbuf { b_fp : list Z; b_id : list Z; b_size : list Z }.

Definition fresh_cp : cpbuf := mk_cpbuf (fresh_bytes 20) (fresh_bytes 8) (fresh_bytes 4).
Definition cp_of (c : cpbuf) : chunkPointer := mk_cp (b_fp c) (s64 (le_val (b_id c))) (s32 (le_val (b_size c))).

(** The three [fread]s of a chunk pointer and the sum of their results. *)
Definition read_cp (f : file) (c : cpbuf) : Z * cpbuf * file :=
  let '(r1, fp, f) := fread_obj f (b_fp c) in
  let '(r2, id, f) := fread_obj f (b_id c) in
  let '(r3, size, f) := fread_obj f (b_size c) in
  (r1 + r2 + r3, mk_cpbuf fp id size, f).

(** Segment boundaries are skipped by decrementing the counter: [num] pointers
    are still to be read. *)
Fixpoint read_pointers (fuel : nat) (f : file) (num : nat) : res (list chunkPointer * file) :=
  match num, fuel with
  | O, _ => Ok ([], f)
  | S num', O => Err EFuel
  | S num', S fuel =>
      let '(_, c, f) := read_cp f fresh_cp in
      let cp := cp_of c in
      if (cp_id cp =? 0 - CHUNK_SEGMENT_START) || (cp_id cp =? 0 - CHUNK_SEGMENT_END)
      then read_pointers fuel f num
      else '(cps, f) ← read_pointers fuel f num'; Ok (cp :: cps, f)
  end.

(** [None] is the null pointer returned at the end of the stream; the third
    component is the static [read_chunk_num]. *)
Definition read_next_n_chunk_pointers (fuel : nat) (b : backupVersion) (n read_chunk_num : Z) :
    res (option (list chunkPointer) * backupVersion * Z) :=
  if read_chunk_num =? number_of_chunks b then Ok (None, b, read_chunk_num) else
  let rest := number_of_chunks b - read_chunk_num in
  let num := s32 (if n <? rest then n else rest) in
  '(cps, f) ← read_pointers fuel (recipe_fp b) (Z.to_nat num);
  let read_chunk_num := s32 (read_chunk_num + num) in
  _ ← c_assert (read_chunk_num <=? number_of_chunks b);
  Ok (Some cps, bv_set_recipe b f, read_chunk_num).

(** [k] is the number of complete ids read; [ids[0]] is it too. With nothing
    read the test reads [ids[0]] before it is written. *)
Definition read_next_n_records (b : backupVersion) (n : Z) (at_end : bool) :
    option (list Z) * backupVersion * bool :=
  if at_end then (None, b, true) else
  let '(bs, f) := fread (record_fp b) (8 * n) in
  let k := zlen bs / 8 in
  let ids := map (fun i => s64 (le_val (ztake 8 (zdrop (8 * i) bs)))) (seqZ 0 k) in
  let last_id := match last ids with Some id => id | None => le_val (fresh_bytes 8) end in
  (Some (k :: ids), bv_set_record b f (recordbuf b) (recordbufoff b), last_id =? TEMPORARY_ID).

(** ** Segment recipes *)

Definition new_segment_recipe : segmentRecipe := mk_sr TEMPORARY_ID ∅.

Definition segment_recipe_check_id (sr : segmentRecipe) (id : Z) : bool := sr_id sr =? id.

Definition lookup_fingerprint_in_segment_recipe (sr : segmentRecipe) (fp : fingerprint) : Z :=
  if bool_decide (kvpairs sr !! fp = None) then 0 else 1.

(** The fingerprints [func] is called on. *)
Definition segment_recipe_foreach `{!HashIter fingerprint chunkPointer} (sr : segmentRecipe) : list fingerprint :=
  map fst (hash_iter (kvpairs sr)).

(** The loop over the pointers of a segment. *)
Fixpoint read_kvpairs (size : nat) (f : file) (kv : gmap fingerprint chunkPointer) :
    res (gmap fingerprint chunkPointer * file) :=
  match size with
  | O => Ok (kv, f)
  | S size =>
      let '(_, c, f) := read_cp f fresh_cp in
      let cp := cp_of c in
      _ ← c_assert (TEMPORARY_ID <? cp_id cp);
      read_kvpairs size f (<[cp_fp cp := cp]> kv)
  end.

(** The rest of a segment whose start flag was just read at offset [off]. *)
Definition read_segment_body (num off : Z) (f : file) (flag : cpbuf) : res (segmentRecipe * cpbuf * file) :=
  let size := cp_size (cp_of flag) in
  '(kv, f) ← read_kvpairs (Z.to_nat size) f (kvpairs new_segment_recipe);
  let '(_, flag, f) := read_cp f flag in
  _ ← c_assert (cp_id (cp_of flag) =? 0 - CHUNK_SEGMENT_END);
  Ok (mk_sr (make_segment_id num off size) kv, flag, f).

(** [count] prefetches are left; [first] tells the first round. *)
Fixpoint prefetch_loop (count : nat) (num : Z) (f : file) (flag : cpbuf) (first : bool) :
    res (list segmentRecipe * file) :=
  match count with
  | O => Ok ([], f)
  | S count =>
      let current_off := fpos f in
      let '(_, flag, f) := read_cp f flag in
      if negb (cp_id (cp_of flag) =? - CHUNK_SEGMENT_START) then
        _ ← c_assert (negb first); Ok ([], f)
      else
        '(sr, flag, f) ← read_segment_body num current_off f flag;
        '(srs, f) ← prefetch_loop count num f flag false;
        Ok (sr :: srs, f)
  end.

(** The version a segment is prefetched from: [jcr.bv] while it is written, or
    one that is opened and kept in [opened_bv] until another one is needed. *)
Inductive opened := NoVersion | JcrVersion | OtherVersion (b : backupVersion).

Definition opened_of (jcr_bv : backupVersion) (o : opened) : option backupVersion :=
  match o with NoVersion => None | JcrVersion => Some jcr_bv | OtherVersion b => Some b end.

Definition select_version (dir : gmap Z version_files) (jcr_bv : backupVersion) (o : opened) (bnum : Z) : res opened :=
  if match opened_of jcr_bv o with Some b => bv_num b =? bnum | None => false end then Ok o
  else if bnum =? bv_num jcr_bv then Ok JcrVersion
  else OtherVersion <$> open_backup_version dir bnum.

Definition prefetch_segments (dir : gmap Z version_files) (jcr_bv : backupVersion) (o : opened)
    (id prefetch_num : Z) : res (list segmentRecipe * backupVersion * opened) :=
  _ ← c_assert (negb (id =? TEMPORARY_ID));
  let bnum := id_to_bnum id in
  let off := id_to_off id in
  o ← select_version dir jcr_bv o bnum;
  b ← deref (opened_of jcr_bv o);
  f ← fseek (recipe_fp b) off;
  '(srs, f) ← prefetch_loop (Z.to_nat prefetch_num) (bv_num b) f fresh_cp true;
  let b := bv_set_recipe b f in
  Ok (srs, match o with JcrVersion => b | _ => jcr_bv end,
      match o with OtherVersion _ => OtherVersion b | o => o end).

Definition read_next_segment (bv : option backupVersion) : res (option segmentRecipe * option backupVersion) :=
  match bv with
  | None => Ok (None, None)
  | Some b =>
      let current_off := fpos (recipe_fp b) in
      let '(ret, flag, f) := read_cp (recipe_fp b) fresh_cp in
      if negb (ret =? 3) || negb (cp_id (cp_of flag) =? - CHUNK_SEGMENT_START) then
        Ok (None, Some (bv_set_recipe b f))
      else
        '(sr, _, f) ← read_segment_body (bv_num b) current_off f flag;
        Ok (Some sr, Some (bv_set_recipe b f))
  end.

(** ** The files of a version *)

Definition cp_ok (cp : chunkPointer) : Prop :=
  zlen (cp_fp cp) = fp_size /\ in_s 64 (cp_id cp) /\ in_s 32 (cp_size cp).

Lemma zlen_cp_bytes cp : cp_ok cp -> zlen (cp_bytes cp) = cp_len.
Proof. intros (Hf & _). unfold cp_bytes. zlen. rewrite Hf. reflexivity. Qed.

Lemma zlen_cps cps : Forall cp_ok cps -> zlen (concat (map cp_bytes cps)) = cp_len * zlen cps.
Proof.
  induction 1 as [|cp cps Hcp _ IH]; cbn [map concat]; [reflexivity|].
  rewrite zlen_app, zlen_cons, IH, zlen_cp_bytes by done. lia.
Qed.

Definition flag_cp (flag size : Z) : chunkPointer := mk_cp (zeros fp_size) (0 - flag) size.

(** A segment as it is written: a start flag, the pointers, an end flag. *)
Definition seg_items (cps : list chunkPointer) : list chunkPointer :=
  flag_cp CHUNK_SEGMENT_START (zlen cps) :: cps ++ [flag_cp CHUNK_SEGMENT_END 0].
Definition items_bytes (items : list chunkPointer) : list Z := concat (map cp_bytes items).
Definition seg_bytes (cps : list chunkPointer) : list Z := items_bytes (seg_items cps).

Lemma flag_cp_ok flag size : flag = CHUNK_SEGMENT_START \/ flag = CHUNK_SEGMENT_END -> in_s 32 size -> cp_ok (flag_cp flag size).
Proof. intros Hf Hs. split_and!; [done| |done]. by destruct Hf as [-> | ->]. Qed.

(** A buffer of size [n] with the bytes [pre] written before the offset. *)
Definition buf_pre (buf : option (list Z)) (off : Z) (pre : list Z) (n : Z) : Prop :=
  exists rest, buf = Some (pre ++ rest) /\ off = zlen pre /\ zlen (pre ++ rest) = n.

Lemma buf_pre_fresh n : 0 <= n -> buf_pre (Some (fresh_bytes n)) 0 [] n.
Proof. intros. exists (fresh_bytes n). split_and!; [done|done|by apply zlen_fresh]. Qed.

Lemma bufput_spec buf off pre n bs :
  buf_pre buf off pre n -> zlen pre + zlen bs <= n ->
  exists buf', bufput buf off bs = Ok (buf', off + zlen bs) /\ buf_pre buf' (off + zlen bs) (pre ++ bs) n.
Proof.
  intros (rest & -> & -> & Hn) Hle. rewrite zlen_app in Hn. pose proof (zlen_nonneg bs).
  unfold bufput. cbn [deref]. step. rewrite write_bytes_app by lia. step. eexists. split; [reflexivity|].
  eexists. split_and!; [reflexivity|by rewrite zlen_app|].
  rewrite !zlen_app, zlen_zdrop by lia. lia.
Qed.

Lemma buf_pre_flush buf off pre n :
  buf_pre buf off pre n -> exists m, buf = Some m /\ read_bytes m 0 off = Ok pre /\ buf_pre buf 0 [] n.
Proof.
  intros (rest & -> & -> & Hn). exists (pre ++ rest). split_and!; [done| |by eexists].
  exact (read_bytes_app [] pre rest 0 _ eq_refl eq_refl).
Qed.

Lemma put_cp_spec buf off pre n cp :
  buf_pre buf off pre n -> cp_ok cp -> zlen pre + cp_len <= n ->
  exists buf' off', put_cp buf off cp = Ok (buf', off') /\ buf_pre buf' off' (pre ++ cp_bytes cp) n.
Proof.
  intros Hb Hcp Hle. pose proof (zlen_cp_bytes _ Hcp) as Hl. unfold cp_bytes in Hl |- *.
  rewrite !zlen_app, !zlen_le_bytes in Hl. unfold put_cp. pose proof (zlen_nonneg (cp_fp cp)).
  destruct (bufput_spec _ _ _ _ (cp_fp cp) Hb) as (b1 & -> & H1); [lia|]. step.
  destruct (bufput_spec _ _ _ _ (le_bytes 8 (cp_id cp)) H1) as (b2 & -> & H2); [zlen|]. step.
  destruct (bufput_spec _ _ _ _ (le_bytes 4 (cp_size cp)) H2) as (b3 & -> & H3); [zlen|].
  do 2 eexists. split; [reflexivity|]. by rewrite !app_assoc in *.
Qed.

(** A buffered output file: what is flushed, then what the buffer holds. *)
Definition out_inv (f : file) (buf : option (list Z)) (off n : Z) (log : list Z) : Prop :=
  exists pre, f = mk_file (ztake (zlen log - zlen pre) log) (zlen log - zlen pre) /\
    buf_pre buf off pre n /\ (exists fl, log = fl ++ pre).

Lemma out_inv_intro fl pre buf off n :
  buf_pre buf off pre n -> out_inv (mk_file fl (zlen fl)) buf off n (fl ++ pre).
Proof.
  intros Hb. exists pre. rewrite zlen_app. replace (zlen fl + zlen pre - zlen pre) with (zlen fl) by lia.
  rewrite ztake_app_exact by done. split_and!; [done|done|by eexists].
Qed.

Lemma out_inv_elim f buf off n log :
  out_inv f buf off n log -> exists fl pre, f = mk_file fl (zlen fl) /\ buf_pre buf off pre n /\ log = fl ++ pre.
Proof.
  intros (pre & -> & Hb & (fl & ->)). exists fl, pre. rewrite zlen_app.
  replace (zlen fl + zlen pre - zlen pre) with (zlen fl) by lia. by rewrite ztake_app_exact.
Qed.

(** A version while it is written. *)
Record wstate (b : backupVersion) (num files chunks : Z) (path meta recipe records : list Z) : Prop := {
  ws_num : bv_num b = num;
  ws_path : bv_path b = path;
  ws_deleted : bv_deleted b = 0;
  ws_files : number_of_files b = files;
  ws_chunks : number_of_chunks b = chunks;
  ws_meta : out_inv (metadata_fp b) (metabuf b) (metabufoff b) metabufsize meta;
  ws_recipe : fdata (recipe_fp b) = recipe;
  ws_record : out_inv (record_fp b) (recordbuf b) (recordbufoff b) recordbufsize records;
}.

(** The id recorded when a pointer to [id] follows [prev]. *)
Definition record_of (prev id : Z) : list Z :=
  if negb (prev =? TEMPORARY_ID) && negb (prev =? id) then le_bytes 8 prev else [].

Lemma append_chunk_pointer_spec b ar num files chunks path meta recipe records pre cp :
  wstate b num files chunks path meta recipe records ->
  buf_pre (segmentbuf b) (segmentbufoff b) pre (segmentlen b) -> cp_ok cp -> cp_id cp <> TEMPORARY_ID ->
  zlen pre + cp_len <= segmentlen b ->
  exists b', append_chunk_pointer (b, ar) cp = Ok (b', cp_id cp) /\
    wstate b' num files (chunks + 1) path meta recipe (records ++ record_of ar (cp_id cp)) /\
    buf_pre (segmentbuf b') (segmentbufoff b') (pre ++ cp_bytes cp) (segmentlen b') /\
    segmentlen b' = segmentlen b.
Proof.
  intros Hw Hs Hcp Hid Hle. unfold append_chunk_pointer, record_of.
  destruct (put_cp_spec _ _ _ _ cp Hs Hcp Hle) as (sb & so & Hput & Hsb).
  rewrite (proj2 (Z.eqb_neq (cp_id cp) TEMPORARY_ID) Hid).
  destruct Hw as [? ? ? ? Hc Hm Hr Hrec].
  destruct (negb (ar =? TEMPORARY_ID) && negb (ar =? cp_id cp)).
  - apply out_inv_elim in Hrec as (fl & p & Hfl & Hb & ->).
    assert (Hflush : exists fl' p' off', (if recordbufsize <? recordbufoff b + 8 then
              buf ← deref (recordbuf b); bs ← read_bytes buf 0 (recordbufoff b); Ok (fwrite (record_fp b) bs, 0)
            else Ok (record_fp b, recordbufoff b)) = Ok (mk_file fl' (zlen fl'), off') /\
          buf_pre (recordbuf b) off' p' recordbufsize /\ fl' ++ p' = fl ++ p /\ zlen p' + 8 <= recordbufsize).
    { destruct (Z.ltb_spec recordbufsize (recordbufoff b + 8)) as [Hlt|Hge].
      - destruct (buf_pre_flush _ _ _ _ Hb) as (m & -> & Hrd & Hb0). cbn [deref]. step. rewrite Hrd. step.
        rewrite Hfl, fwrite_end. exists (fl ++ p), [], 0. rewrite zlen_app, app_nil_r. split_and!; done.
      - exists fl, p, (recordbufoff b). rewrite Hfl. split_and!; try done.
        destruct Hb as (? & _ & <- & _). lia. }
    destruct Hflush as (fl' & p' & off' & -> & Hb' & Hlog & Hroom). step.
    destruct (bufput_spec _ _ _ _ (le_bytes 8 ar) Hb') as (rb & -> & Hrb); [zlen|]. step. step.
    cbn [negb c_assert]. step. cbn [segmentbuf segmentbufoff bv_set_record]. rewrite Hput. step.
    eexists. split; [reflexivity|]. split_and!; [|exact Hsb|reflexivity].
    split; cbn; try done; [by rewrite Hc|].
    rewrite <- Hlog, <- app_assoc. by apply out_inv_intro.
  - step. cbn [negb c_assert]. step. rewrite Hput. step. rewrite app_nil_r.
    eexists. split; [reflexivity|]. split_and!; [|exact Hsb|reflexivity].
    split; cbn; try done. by rewrite Hc.
Qed.

(** What is recorded for a sequence of container ids. *)
Fixpoint records_of (prev : Z) (ids : list Z) : list Z :=
  match ids with
  | [] => []
  | id :: ids => record_of prev id ++ records_of id ids
  end.
Definition last_id (prev : Z) (ids : list Z) : Z := default prev (last ids).

Lemma last_id_cons prev id ids : last_id prev (id :: ids) = last_id id ids.
Proof. unfold last_id. rewrite last_cons. by destruct (last ids). Qed.

Lemma records_of_app prev l1 l2 :
  records_of prev (l1 ++ l2) = records_of prev l1 ++ records_of (last_id prev l1) l2.
Proof.
  revert prev. induction l1 as [|id l1 IH]; intros prev; [done|].
  cbn [app records_of]. by rewrite IH, last_id_cons, app_assoc.
Qed.

Lemma last_id_app prev l1 l2 : last_id prev (l1 ++ l2) = last_id (last_id prev l1) l2.
Proof. unfold last_id. rewrite last_app. by destruct (last l2). Qed.

Definition ptr_ok (cp : chunkPointer) : Prop := cp_ok cp /\ 0 <= cp_id cp.

Lemma append_pointers_spec cps : forall b ar num files chunks path meta recipe records pre,
  wstate b num files chunks path meta recipe records ->
  buf_pre (segmentbuf b) (segmentbufoff b) pre (segmentlen b) -> Forall ptr_ok cps ->
  zlen pre + cp_len * zlen cps <= segmentlen b ->
  exists b', foldM append_chunk_pointer (b, ar) cps = Ok (b', last_id ar (map cp_id cps)) /\
    wstate b' num files (chunks + zlen cps) path meta recipe (records ++ records_of ar (map cp_id cps)) /\
    buf_pre (segmentbuf b') (segmentbufoff b') (pre ++ items_bytes cps) (segmentlen b') /\
    segmentlen b' = segmentlen b.
Proof.
  induction cps as [|cp cps IH]; intros b ar num files chunks path meta recipe records pre Hw Hs Hok Hle.
  - exists b. cbn. rewrite !app_nil_r, zlen_nil, Z.add_0_r. done.
  - apply Forall_cons in Hok as [[Hcp Hge] Hok]. rewrite zlen_cons in Hle. pose proof (zlen_nonneg cps).
    unfold cp_len in *.
    destruct (append_chunk_pointer_spec b ar num files chunks path meta recipe records pre cp)
      as (b1 & Ha & Hw1 & Hs1 & Hl1); [done|done|done|unfold TEMPORARY_ID; lia|unfold cp_len; lia|].
    cbn [foldM map]. rewrite Ha. step.
    destruct (IH b1 (cp_id cp) _ _ _ _ _ _ _ _ Hw1 Hs1 Hok) as (b2 & Hf & Hw2 & Hs2 & Hl2).
    { rewrite Hl1, zlen_app, zlen_cp_bytes by done. unfold cp_len. lia. }
    exists b2. rewrite Hf, last_id_cons. split; [done|]. cbn [records_of].
    rewrite app_assoc, zlen_cons. replace (chunks + (1 + zlen cps)) with (chunks + 1 + zlen cps) by lia.
    split; [done|]. split; [|congruence].
    unfold items_bytes. cbn [map concat]. by rewrite app_assoc.
Qed.

(** What the filter phase does for a segment. *)
Definition write_segment (b : backupVersion) (ar : Z) (cps : list chunkPointer) : res (backupVersion * Z * Z) :=
  '(b, id) ← append_segment_flag b CHUNK_SEGMENT_START (zlen cps);
  '(b, ar) ← append_n_chunk_pointers b ar cps (zlen cps);
  '(b, _) ← append_segment_flag b CHUNK_SEGMENT_END 0;
  Ok (b, ar, id).

(** A segment that fits the 16-bit size field of its id. *)
Definition seg_ok (cps : list chunkPointer) : Prop := Forall ptr_ok cps /\ zlen cps < 65536.

Lemma zlen_seg_bytes cps : seg_ok cps -> zlen (seg_bytes cps) = cp_len * (zlen cps + 2).
Proof.
  intros [Hok Hl]. pose proof (zlen_nonneg cps). unfold seg_bytes, seg_items, items_bytes.
  rewrite zlen_cps.
  - rewrite zlen_cons, zlen_app, zlen_cons, zlen_nil. lia.
  - constructor; [apply flag_cp_ok; [by left|unfold in_s; lia]|].
    apply Forall_app. split; [eapply Forall_impl; [exact Hok|by intros ? []]|].
    constructor; [|done]. apply flag_cp_ok; [by right|unfold in_s; lia].
Qed.

Lemma append_start_spec b num files chunks path meta recipe records size :
  wstate b num files chunks path meta recipe records -> 0 <= size < 65536 ->
  exists b', append_segment_flag b CHUNK_SEGMENT_START size =
      Ok (b', make_segment_id num (zlen recipe) size) /\
    wstate b' num files chunks path meta recipe records /\
    buf_pre (segmentbuf b') (segmentbufoff b') (cp_bytes (flag_cp CHUNK_SEGMENT_START size)) (segmentlen b') /\
    segmentlen b' = cp_len * (size + 2).
Proof.
  intros [Hnum Hp Hd Hfi Hch Hm Hrec Hrecs] Hsize. unfold append_segment_flag.
  change ((CHUNK_SEGMENT_START =? CHUNK_SEGMENT_START) || _) with true.
  change (CHUNK_SEGMENT_START =? CHUNK_SEGMENT_START) with true.
  change (CHUNK_SEGMENT_START =? CHUNK_SEGMENT_END) with false. cbn [c_assert]. step.
  set (n := s32 _). assert (Hn : n = cp_len * (size + 2)).
  { unfold n. rewrite swrap_id; unfold in_s, cp_len; lia. }
  destruct (put_cp_spec (Some (fresh_bytes n)) 0 [] n (flag_cp CHUNK_SEGMENT_START size)) as (sb & so & Hput & Hsb).
  { apply buf_pre_fresh. unfold cp_len in *. lia. }
  { apply flag_cp_ok; [by left|unfold in_s; lia]. }
  { rewrite zlen_nil. unfold cp_len in *. lia. }
  change (mk_cp (zeros fp_size) _ size) with (flag_cp CHUNK_SEGMENT_START size).
  cbn [segmentbuf segmentbufoff bv_set_segment bv_set_recipe]. rewrite Hput. step.
  eexists. split; [|split_and!].
  - do 2 f_equal. cbn. by rewrite Hnum, Hrec.
  - split; try done.
  - exact Hsb.
  - exact Hn.
Qed.

Lemma append_end_spec b num files chunks path meta recipe records pre size :
  wstate b num files chunks path meta recipe records ->
  buf_pre (segmentbuf b) (segmentbufoff b) pre (segmentlen b) ->
  zlen pre + cp_len = segmentlen b -> 0 <= size < 65536 ->
  exists b', append_segment_flag b CHUNK_SEGMENT_END size = Ok (b', TEMPORARY_ID) /\
    wstate b' num files chunks path meta (recipe ++ pre ++ cp_bytes (flag_cp CHUNK_SEGMENT_END size)) records.
Proof.
  intros [Hnum Hp Hd Hfi Hch Hm Hrec Hrecs] Hs Hlen Hsize. unfold append_segment_flag.
  change ((CHUNK_SEGMENT_END =? CHUNK_SEGMENT_START) || _) with true.
  change (CHUNK_SEGMENT_END =? CHUNK_SEGMENT_START) with false.
  change (CHUNK_SEGMENT_END =? CHUNK_SEGMENT_END) with true. cbn [c_assert]. step.
  assert (Hok : cp_ok (flag_cp CHUNK_SEGMENT_END size)) by (apply flag_cp_ok; [by right|unfold in_s; lia]).
  destruct (put_cp_spec _ _ _ _ _ Hs Hok) as (sb & so & Hput & rest & -> & -> & Hl); [lia|].
  change (mk_cp (zeros fp_size) _ size) with (flag_cp CHUNK_SEGMENT_END size).
  cbn [segmentbuf segmentbufoff bv_set_segment bv_set_recipe]. rewrite Hput. step.
  cbn [segmentbuf segmentlen bv_set_segment bv_set_recipe deref]. step.
  assert (rest = []) as ->.
  { rewrite !zlen_app, zlen_cp_bytes in Hl by done. destruct rest; [done|].
    rewrite zlen_cons in Hl. pose proof (zlen_nonneg rest). lia. }
  rewrite app_nil_r in Hl |- *. rewrite <- Hl.
  pose proof (read_bytes_app [] (pre ++ cp_bytes (flag_cp CHUNK_SEGMENT_END size)) [] 0 _ eq_refl eq_refl) as Hrd.
  rewrite app_nil_r in Hrd. cbn [app] in Hrd. rewrite Hrd. step.
  eexists. split; [reflexivity|]. split; try done.
  cbn [bv_set_segment bv_set_recipe recipe_fp]. unfold fseek_end. by rewrite fwrite_end, Hrec.
Qed.

Lemma write_segment_spec b ar num files chunks path meta recipe records cps :
  wstate b num files chunks path meta recipe records -> seg_ok cps ->
  exists b', write_segment b ar cps =
      Ok (b', last_id ar (map cp_id cps), make_segment_id num (zlen recipe) (zlen cps)) /\
    wstate b' num files (chunks + zlen cps) path meta (recipe ++ seg_bytes cps)
      (records ++ records_of ar (map cp_id cps)).
Proof.
  intros Hw [Hok Hlt]. pose proof (zlen_nonneg cps) as Hnn. unfold write_segment.
  assert (Hcps : Forall cp_ok cps) by (eapply Forall_impl; [exact Hok|by intros ? []]).
  assert (Hs0 : cp_ok (flag_cp CHUNK_SEGMENT_START (zlen cps))) by (apply flag_cp_ok; [by left|unfold in_s; lia]).
  destruct (append_start_spec b _ _ _ _ _ _ _ (zlen cps) Hw) as (b1 & -> & Hw1 & Hs1 & Hl1); [lia|]. step.
  destruct (append_pointers_spec cps b1 ar _ _ _ _ _ _ _ _ Hw1 Hs1 Hok) as (b2 & Hf & Hw2 & Hs2 & Hl2).
  { rewrite Hl1, zlen_cp_bytes by done. unfold cp_len. lia. }
  assert (append_n_chunk_pointers b1 ar cps (zlen cps) = Ok (b2, last_id ar (map cp_id cps))) as ->.
  { unfold append_n_chunk_pointers. destruct (Z.leb_spec (zlen cps) 0).
    - assert (cps = []) as -> by (destruct cps as [|cp cps']; [done|rewrite zlen_cons in *; pose proof (zlen_nonneg cps'); lia]).
      cbn in Hf |- *. congruence.
    - by rewrite Z.ltb_irrefl, ztake_ge by lia. }
  step. destruct (append_end_spec b2 _ _ _ _ _ _ _ _ 0 Hw2 Hs2) as (b3 & -> & Hw3); [|lia|].
  { rewrite Hl2, Hl1, zlen_app, zlen_cp_bytes by done. unfold items_bytes. rewrite zlen_cps by done.
    unfold cp_len. lia. }
  step. exists b3. split; [done|].
  assert (seg_bytes cps = (cp_bytes (flag_cp CHUNK_SEGMENT_START (zlen cps)) ++ items_bytes cps) ++
            cp_bytes (flag_cp CHUNK_SEGMENT_END 0)) as ->; [|done].
  unfold seg_bytes, seg_items, items_bytes. cbn [map concat].
  by rewrite map_app, concat_app, <- app_assoc; cbn [map concat]; rewrite app_nil_r.
Qed.

(** ** File entries and the header *)

Definition fm_bytes (r : fileRecipeMeta) : list Z :=
  le_bytes 4 (zlen (fm_filename r)) ++ fm_filename r ++ le_bytes 8 (fm_chunknum r) ++ le_bytes 8 (fm_filesize r).

(** A file name that fits the buffer; the counts are 64-bit. *)
Definition fm_ok (r : fileRecipeMeta) : Prop :=
  zlen (fm_filename r) <= metabufsize - 20 /\ Forall (fun ch => ch <> 0) (fm_filename r) /\
  in_s 64 (fm_chunknum r) /\ in_s 64 (fm_filesize r).

Lemma append_file_spec b num files chunks path meta recipe records r :
  wstate b num files chunks path meta recipe records -> fm_ok r ->
  exists b', append_file_recipe_meta b r = Ok b' /\
    wstate b' num (files + 1) chunks path (meta ++ fm_bytes r) recipe records.
Proof.
  intros [Hnum Hp Hd Hfi Hch Hm Hrec Hrecs] (Hlen & _ & _ & _). unfold append_file_recipe_meta.
  pose proof (zlen_nonneg (fm_filename r)).
  apply out_inv_elim in Hm as (fl & p & Hfl & Hb & ->).
  assert (Hflush : exists fl' p' off', (if u64 (metabufsize - metabufoff b) <? 4 + zlen (fm_filename r) + 8 + 8 then
            buf ← deref (metabuf b); bs ← read_bytes buf 0 (metabufoff b); Ok (fwrite (metadata_fp b) bs, 0)
          else Ok (metadata_fp b, metabufoff b)) = Ok (mk_file fl' (zlen fl'), off') /\
        buf_pre (metabuf b) off' p' metabufsize /\ fl' ++ p' = fl ++ p /\
        zlen p' + (20 + zlen (fm_filename r)) <= metabufsize).
  { assert (Hoff : 0 <= metabufoff b <= metabufsize).
    { destruct Hb as (rest & _ & -> & Hl). rewrite zlen_app in Hl. pose proof (zlen_nonneg rest).
      pose proof (zlen_nonneg p). lia. }
    rewrite uwrap_id by (unfold in_u, metabufsize in *; lia).
    destruct (Z.ltb_spec (metabufsize - metabufoff b) (4 + zlen (fm_filename r) + 8 + 8)) as [Hlt|Hge].
    - destruct (buf_pre_flush _ _ _ _ Hb) as (m & -> & Hrd & Hb0). cbn [deref]. step. rewrite Hrd. step.
      rewrite Hfl, fwrite_end. exists (fl ++ p), [], 0. rewrite zlen_app, app_nil_r.
      split_and!; try done. unfold zlen at 1. cbn [length]. lia.
    - exists fl, p, (metabufoff b). rewrite Hfl. split_and!; try done.
      destruct Hb as (? & _ & <- & _). lia. }
  destruct Hflush as (fl' & p' & off' & -> & Hb' & Hlog & Hroom). step.
  destruct (bufput_spec _ _ _ _ (le_bytes 4 (zlen (fm_filename r))) Hb') as (b1 & -> & H1); [zlen|]. step.
  destruct (bufput_spec _ _ _ _ (fm_filename r) H1) as (b2 & -> & H2); [zlen|]. step.
  destruct (bufput_spec _ _ _ _ (le_bytes 8 (fm_chunknum r)) H2) as (b3 & -> & H3); [zlen|]. step.
  destruct (bufput_spec _ _ _ _ (le_bytes 8 (fm_filesize r)) H3) as (b4 & -> & H4); [zlen|]. step.
  eexists. split; [reflexivity|]. split; cbn; try done; [by rewrite Hfi|].
  rewrite <- Hlog, <- app_assoc. apply out_inv_intro. unfold fm_bytes. rewrite !app_assoc. exact H4.
Qed.

(** Consecutive writes over the front of a file. *)
Lemma fwrite_over pre rest bs :
  fwrite (mk_file (pre ++ rest) (zlen pre)) bs = mk_file ((pre ++ bs) ++ zdrop (zlen bs) rest) (zlen (pre ++ bs)).
Proof.
  unfold fwrite, file_write. cbn [fdata fpos]. pose proof (zlen_nonneg rest). pose proof (zlen_nonneg pre).
  pose proof (zlen_nonneg bs).
  assert (zeros (zlen pre - zlen (pre ++ rest)) = []) as ->.
  { unfold zeros. rewrite zlen_app. by replace (Z.to_nat _) with O by lia. }
  rewrite app_nil_r, ztake_app_exact by done. rewrite <- zdrop_zdrop by lia.
  rewrite zdrop_app_exact by done.
  by rewrite zlen_app, app_assoc.
Qed.

Lemma write_header_spec data b :
  write_header (mk_file data 0) b =
  mk_file (meta_header b ++ zdrop (zlen (meta_header b)) data) (zlen (meta_header b)).
Proof.
  unfold write_header.
  change (mk_file data 0) with (mk_file ([] ++ data) (zlen (@nil Z))).
  rewrite !fwrite_over. cbn [app]. f_equal.
  rewrite !zdrop_zdrop by (rewrite ?zlen_app; zlen; pose proof (zlen_nonneg (bv_path b)); lia).
  unfold meta_header. rewrite <- !app_assoc. do 7 f_equal. rewrite !zlen_app. lia.
Qed.

Lemma zlen_meta_header b : zlen (meta_header b) = 28 + zlen (bv_path b).
Proof. unfold meta_header. zlen. Qed.

Lemma trim_path_spec pre rest :
  Forall (fun ch => ch <> slash) rest -> trim_path (rev (pre ++ slash :: rest)) = Ok (pre ++ [slash]).
Proof.
  intros Hr. rewrite rev_app_distr. cbn [rev]. rewrite <- app_assoc. cbn [app].
  assert (Hr' : Forall (fun ch => ch <> slash) (rev rest)).
  { apply Forall_forall. rewrite Forall_forall in Hr. intros x Hx. apply Hr.
    by rewrite list_elem_of_In, in_rev, <- list_elem_of_In. }
  induction Hr' as [|ch l Hch _ IH]; cbn [app trim_path].
  - cbn. by rewrite rev_involutive.
  - rewrite (proj2 (Z.eqb_neq _ _) Hch). exact IH.
Qed.

Lemma create_spec count pre rest :
  0 <= count < 2 ^ 31 -> Forall (fun ch => ch <> slash) rest ->
  exists b, create_backup_version count (pre ++ slash :: rest) = Ok (b, s32 (count + 1)) /\
    wstate b count 0 0 (pre ++ [slash]) (meta_header b) [] [] /\ segmentbuf b = None.
Proof.
  intros Hc Hr. unfold create_backup_version, get_next_version_number. rewrite trim_path_spec by done. step.
  set (b0 := mk_bv _ _ _ _ _ _ _ _ _ _ _ _ _ _ _). eexists. split; [reflexivity|]. split; [|done].
  split; try reflexivity; cbn [bv_set_meta metadata_fp metabuf metabufoff record_fp recordbuf recordbufoff b0].
  - fold b0. change (empty_file) with (mk_file [] 0). rewrite (write_header_spec [] b0).
    assert (zdrop (zlen (meta_header b0)) [] = []) as -> by (unfold zdrop; apply drop_nil).
    rewrite app_nil_r. change (meta_header (bv_set_meta _ _ _ _ _)) with (meta_header b0).
    rewrite <- (app_nil_r (meta_header b0)) at 3. apply out_inv_intro. by apply buf_pre_fresh.
  - apply (out_inv_intro [] []). by apply buf_pre_fresh.
Qed.

(** Finishing a version. *)
Definition final_header (num files chunks : Z) (path : list Z) : list Z :=
  le_bytes 4 num ++ le_bytes 4 0 ++ le_bytes 8 files ++ le_bytes 8 chunks ++ le_bytes 4 (zlen path) ++ path.

Lemma update_spec b ar num files chunks path meta recipe records :
  wstate b num files chunks path meta recipe records ->
  exists b', update_backup_version b ar = Ok (b', TEMPORARY_ID) /\ bv_num b' = num /\
    fdata (metadata_fp b') = final_header num files chunks path ++ zdrop (28 + zlen path) meta /\
    fdata (recipe_fp b') = recipe /\
    fdata (record_fp b') =
      records ++ (if ar =? TEMPORARY_ID then [] else le_bytes 8 ar) ++ le_bytes 8 TEMPORARY_ID.
Proof.
  intros [Hnum Hp Hd Hfi Hch Hm Hrec Hrecs]. unfold update_backup_version.
  assert (Hflush : forall f buf off log n, out_inv f buf off n log ->
    exists off', match buf with
      | Some bf => if 0 <? off then bs ← read_bytes bf 0 off; Ok (fwrite f bs, 0) else Ok (f, off)
      | None => Ok (f, off) end = Ok (mk_file log (zlen log), off')).
  { intros f buf off log n (fl & p & -> & Hb & ->)%out_inv_elim.
    destruct (buf_pre_flush _ _ _ _ Hb) as (m & -> & Hrd & _). destruct (Z.ltb_spec 0 off).
    - rewrite Hrd. step. rewrite fwrite_end, zlen_app. by eexists.
    - destruct Hb as (? & _ & -> & _). destruct p; [|rewrite zlen_cons in *; pose proof (zlen_nonneg p); lia].
      rewrite app_nil_r. by eexists. }
  destruct (Hflush _ _ _ _ _ Hm) as (mo & ->). step. unfold fseek. cbn [Z.ltb Z.compare fdata]. step.
  cbn [recordbuf record_fp recordbufoff bv_set_meta].
  destruct (Hflush _ _ _ _ _ Hrecs) as (ro & ->). step.
  eexists. split; [reflexivity|]. cbn [bv_num bv_set_record bv_set_meta metadata_fp recipe_fp record_fp].
  split_and!; [done| |done|].
  - rewrite write_header_spec. cbn [fdata]. rewrite zlen_meta_header, Hp. unfold meta_header, final_header.
    by rewrite Hnum, Hp, Hfi, Hch, Hd.
  - destruct (ar =? TEMPORARY_ID); [by rewrite fwrite_end|]. rewrite fwrite_end, <- zlen_app, fwrite_end.
    cbn [fdata]. by rewrite <- app_assoc.
Qed.

(** ** Reading back *)

Definition cpbuf_wf (c : cpbuf) : Prop := zlen (b_fp c) = 20 /\ zlen (b_id c) = 8 /\ zlen (b_size c) = 4.

Lemma fresh_cp_wf : cpbuf_wf fresh_cp.
Proof. split_and!; by apply zlen_fresh. Qed.

Definition cpbuf_of (cp : chunkPointer) : cpbuf := mk_cpbuf (cp_fp cp) (le_bytes 8 (cp_id cp)) (le_bytes 4 (cp_size cp)).

Lemma cpbuf_of_wf cp : cp_ok cp -> cpbuf_wf (cpbuf_of cp).
Proof. intros (? & _). split_and!; cbn; [done|apply zlen_le_bytes..]. Qed.

Lemma cp_of_cpbuf cp : cp_ok cp -> cp_of (cpbuf_of cp) = cp.
Proof.
  intros (_ & Hid & Hs). unfold cp_of, cpbuf_of. cbn [b_fp b_id b_size].
  change 64 with (8 * Z.of_nat 8). change 32 with (8 * Z.of_nat 4).
  rewrite !le_load_signed by first [lia|done]. by destruct cp.
Qed.

Lemma file_has_app data off a b :
  file_has data off (a ++ b) -> file_has data off a /\ file_has data (off + zlen a) b.
Proof.
  intros H. split.
  - destruct H as (pre & post & -> & <-). exists pre, (b ++ post). by rewrite <- !app_assoc.
  - apply (file_has_sub data off a b []). by rewrite app_nil_r.
Qed.

Lemma read_cp_has data off cp c :
  file_has data off (cp_bytes cp) -> cp_ok cp -> cpbuf_wf c ->
  read_cp (mk_file data off) c = (3, cpbuf_of cp, mk_file data (off + cp_len)).
Proof.
  intros H Hcp (H1 & H2 & H3). pose proof Hcp as (Hf & _). unfold read_cp, cp_bytes in *.
  apply file_has_app in H as [Ha H]. apply file_has_app in H as [Hb Hc].
  rewrite (fread_obj_has _ _ _ (cp_fp cp)) by (done || by rewrite Hf).
  rewrite (fread_obj_has _ _ _ (le_bytes 8 (cp_id cp))) by (done || by rewrite zlen_le_bytes).
  rewrite (fread_obj_has _ _ _ (le_bytes 4 (cp_size cp))) by (done || by rewrite zlen_le_bytes).
  unfold cpbuf_of. do 2 f_equal. rewrite Hf, !zlen_le_bytes. unfold fp_size, cp_len. lia.
Qed.

(** The items of a recipe file that are pointers. *)
Definition is_flag (cp : chunkPointer) : bool :=
  (cp_id cp =? 0 - CHUNK_SEGMENT_START) || (cp_id cp =? 0 - CHUNK_SEGMENT_END).
Definition pointers (items : list chunkPointer) : list chunkPointer := filter (fun cp => is_flag cp = false) items.

Lemma items_bytes_cons cp items : items_bytes (cp :: items) = cp_bytes cp ++ items_bytes items.
Proof. done. Qed.

Lemma read_pointers_spec items : forall data off num fuel,
  file_has data off (items_bytes items) -> Forall cp_ok items ->
  (num <= length (pointers items))%nat -> (length items <= fuel)%nat ->
  exists k, read_pointers fuel (mk_file data off) num =
      Ok (take num (pointers items), mk_file data (off + cp_len * Z.of_nat k)) /\
    (k <= length items)%nat /\ pointers (drop k items) = drop num (pointers items).
Proof.
  induction items as [|cp items IH]; intros data off num fuel Hf Hok Hnum Hfuel.
  - destruct num as [|num]; [|cbn in Hnum; lia]. exists O. rewrite Z.mul_0_r, Z.add_0_r.
    destruct fuel; (split_and!; [done|lia|done]).
  - destruct num as [|num].
    { exists O. rewrite Z.mul_0_r, Z.add_0_r. destruct fuel; (split_and!; [done|lia|done]). }
    destruct fuel as [|fuel]; [cbn in Hfuel; lia|]. cbn [length] in Hfuel.
    apply Forall_cons in Hok as [Hcp Hok]. rewrite items_bytes_cons in Hf. apply file_has_app in Hf as [Hh Hf].
    rewrite zlen_cp_bytes in Hf by done. cbn [read_pointers].
    rewrite (read_cp_has _ _ cp) by (done || apply fresh_cp_wf). rewrite cp_of_cpbuf by done.
    unfold pointers in *. rewrite filter_cons in Hnum |- *. fold (is_flag cp).
    destruct (is_flag cp) eqn:Ef.
    + rewrite decide_False in Hnum |- * by done.
      destruct (IH data (off + cp_len) (S num) fuel) as (k & -> & Hk & Hd); [done..|lia|].
      exists (S k). split_and!; [do 3 f_equal; unfold cp_len; lia|cbn; lia|exact Hd].
    + rewrite decide_True in Hnum |- * by done. cbn [length] in Hnum.
      destruct (IH data (off + cp_len) num fuel) as (k & -> & Hk & Hd); [done..|lia|lia|]. step.
      exists (S k). split_and!; [do 3 f_equal; unfold cp_len; lia|cbn; lia|exact Hd].
Qed.

(** A client reading batches of [n] until the null pointer. *)
Fixpoint read_batches (rounds fuel : nat) (b : backupVersion) (n read_chunk_num : Z) : res (list chunkPointer) :=
  '(r, b, read_chunk_num) ← read_next_n_chunk_pointers fuel b n read_chunk_num;
  match r, rounds with
  | None, _ => Ok []
  | Some _, O => Err EFuel
  | Some cps, S rounds => rest ← read_batches rounds fuel b n read_chunk_num; Ok (cps ++ rest)
  end.

(** One batch of pointers. *)
Lemma read_batch_spec n fuel items b data off dn : 0 < n ->
  recipe_fp b = mk_file data off -> file_has data off (items_bytes items) -> Forall cp_ok items ->
  number_of_chunks b = dn + zlen (pointers items) -> 0 <= dn -> number_of_chunks b < 2 ^ 31 ->
  (length items <= fuel)%nat -> pointers items <> [] ->
  let num := Z.to_nat (n `min` zlen (pointers items)) in
  exists k, read_next_n_chunk_pointers fuel b n dn =
      Ok (Some (take num (pointers items)), bv_set_recipe b (mk_file data (off + cp_len * Z.of_nat k)), dn + Z.of_nat num) /\
    pointers (drop k items) = drop num (pointers items) /\ file_has data (off + cp_len * Z.of_nat k) (items_bytes (drop k items)).
Proof.
  intros Hn Hf Hh Hok Hcnt Hdn Hmax Hfuel Hne num. unfold read_next_n_chunk_pointers.
  assert (Hpos : 0 < zlen (pointers items)) by (unfold zlen; destruct (pointers items); [done|cbn; lia]).
  rewrite (proj2 (Z.eqb_neq _ _)) by lia. rewrite Hcnt. replace (dn + zlen (pointers items) - dn) with (zlen (pointers items)) by lia.
  set (m := s32 (if n <? zlen (pointers items) then n else zlen (pointers items))).
  assert (Hm : m = n `min` zlen (pointers items)).
  { unfold m. rewrite swrap_id; [|lia|]; destruct (Z.ltb_spec n (zlen (pointers items))); unfold in_s; lia. }
  rewrite Hm, Hf. fold num.
  destruct (read_pointers_spec items data off num fuel) as (k & -> & Hk & Hd); [done..| |lia|]; [unfold num, zlen in *; lia|].
  step. rewrite swrap_id by (unfold in_s; lia). rewrite (proj2 (Z.leb_le _ _)) by lia. cbn [c_assert]. step.
  exists k. split_and!; [do 3 f_equal; unfold num; lia|done|].
  rewrite <- (take_drop k items) in Hh. unfold items_bytes in Hh. rewrite map_app, concat_app in Hh.
  apply file_has_app in Hh as [_ Hh]. rewrite zlen_cps in Hh by by apply Forall_take.
  unfold zlen in Hh. rewrite length_take in Hh. by replace (k `min` length items)%nat with k in Hh by lia.
Qed.

Lemma read_batches_spec n fuel : 0 < n -> forall rounds items b data off done,
  recipe_fp b = mk_file data off -> file_has data off (items_bytes items) -> Forall cp_ok items ->
  number_of_chunks b = done + zlen (pointers items) -> 0 <= done -> number_of_chunks b < 2 ^ 31 ->
  (length items <= fuel)%nat -> (length (pointers items) <= rounds)%nat ->
  read_batches rounds fuel b n done = Ok (pointers items).
Proof.
  intros Hn. induction rounds as [|rounds IH]; intros items b data off dn Hf Hh Hok Hcnt Hdn Hmax Hfuel Hr; cbn [read_batches].
  - assert (Hp : pointers items = []) by (destruct (pointers items); [done|cbn in Hr; lia]).
    rewrite Hp in Hcnt |- *. unfold read_next_n_chunk_pointers. rewrite (proj2 (Z.eqb_eq _ _)) by (rewrite zlen_nil in Hcnt; lia). by step.
  - destruct (decide (pointers items = [])) as [Hp|Hp].
    { rewrite Hp in Hcnt |- *. unfold read_next_n_chunk_pointers. rewrite (proj2 (Z.eqb_eq _ _)) by (rewrite zlen_nil in Hcnt; lia). by step. }
    destruct (read_batch_spec n fuel items b data off dn) as (k & -> & Hd & Hh'); [done..|]. step.
    assert (Hpos : 0 < zlen (pointers items)) by (unfold zlen; destruct (pointers items); [done|cbn; lia]).
    set (num := Z.to_nat (n `min` zlen (pointers items))) in *.
    rewrite (IH (drop k items) _ data (off + cp_len * Z.of_nat k)); [|done|done|by apply Forall_drop| |lia|done|rewrite length_drop; lia|].
    + step. f_equal. rewrite Hd. apply take_drop.
    + cbn [number_of_chunks bv_set_recipe]. rewrite Hd. unfold zlen in *. rewrite length_drop. lia.
    + rewrite Hd, length_drop. unfold zlen in *. lia.
Qed.

(** ** Segment ids *)

Lemma make_segment_id_value bid off size :
  0 <= bid < 2 ^ 15 -> 0 <= off < 2 ^ 32 -> 0 <= size < 2 ^ 16 ->
  make_segment_id bid off size = bid * 2 ^ 48 + off * 2 ^ 16 + size.
Proof.
  intros. unfold make_segment_id. rewrite !Z.shiftl_mul_pow2 by lia.
  rewrite (swrap_id 64 (bid * 2 ^ 48)), (swrap_id 64 (off * 2 ^ 16)), (swrap_id 64 (bid * 2 ^ 48 + off * 2 ^ 16)),
    swrap_id by (unfold in_s; lia). done.
Qed.

Lemma segment_id_fields bid off size :
  0 <= bid < 2 ^ 15 -> 0 <= off < 2 ^ 32 -> 0 <= size < 2 ^ 16 ->
  let id := make_segment_id bid off size in
  id_to_bnum id = bid /\ id_to_off id = off /\ id_to_size id = size.
Proof.
  intros Hb Ho Hs. cbv zeta. rewrite make_segment_id_value by done.
  unfold id_to_bnum, id_to_off, id_to_size.
  change 65535 with (Z.ones 16). change 4294967295 with (Z.ones 32).
  rewrite !Z.land_ones, !Z.shiftr_div_pow2 by lia. split_and!.
  - symmetry. apply Z.div_unique with (off * 2 ^ 16 + size); lia.
  - assert ((bid * 2 ^ 48 + off * 2 ^ 16 + size) / 2 ^ 16 = bid * 2 ^ 32 + off) as ->.
    { symmetry. apply Z.div_unique with size; lia. }
    symmetry. apply Z.mod_unique with bid; lia.
  - symmetry. apply Z.mod_unique with (bid * 2 ^ 32 + off); lia.
Qed.

(** ** Reading segments *)

Definition kv_of (cps : list chunkPointer) (kv : gmap fingerprint chunkPointer) : gmap fingerprint chunkPointer :=
  fold_left (fun kv cp => <[cp_fp cp := cp]> kv) cps kv.

(** The recipe of a segment that is stored at offset [off]. *)
Definition seg_recipe (num off : Z) (cps : list chunkPointer) : segmentRecipe :=
  mk_sr (make_segment_id num off (zlen cps)) (kv_of cps ∅).

Fixpoint seg_recipes (num off : Z) (segs : list (list chunkPointer)) : list segmentRecipe :=
  match segs with
  | [] => []
  | cps :: segs => seg_recipe num off cps :: seg_recipes num (off + zlen (seg_bytes cps)) segs
  end.

Lemma read_kvpairs_spec cps : forall data off kv,
  file_has data off (items_bytes cps) -> Forall ptr_ok cps ->
  read_kvpairs (length cps) (mk_file data off) kv = Ok (kv_of cps kv, mk_file data (off + cp_len * zlen cps)).
Proof.
  induction cps as [|cp cps IH]; intros data off kv Hf Hok.
  - cbn [length read_kvpairs kv_of fold_left]. by rewrite (zlen_nil (A := chunkPointer)), Z.mul_0_r, Z.add_0_r.
  - apply Forall_cons in Hok as [[Hcp Hid] Hok]. rewrite items_bytes_cons in Hf.
    apply file_has_app in Hf as [Hh Hf]. rewrite zlen_cp_bytes in Hf by done. cbn [length read_kvpairs].
    rewrite (read_cp_has _ _ cp) by (done || apply fresh_cp_wf). rewrite cp_of_cpbuf by done.
    rewrite (proj2 (Z.ltb_lt TEMPORARY_ID (cp_id cp))) by (unfold TEMPORARY_ID; lia). cbn [c_assert]. step.
    rewrite IH by done. rewrite zlen_cons. do 3 f_equal. unfold cp_len. lia.
Qed.

Lemma seg_bytes_split cps :
  seg_bytes cps = cp_bytes (flag_cp CHUNK_SEGMENT_START (zlen cps)) ++ items_bytes cps ++
                  cp_bytes (flag_cp CHUNK_SEGMENT_END 0).
Proof.
  unfold seg_bytes, seg_items, items_bytes. cbn [map concat]. rewrite map_app, concat_app. cbn [map concat].
  by rewrite app_nil_r.
Qed.

Lemma seg_flags_ok cps : seg_ok cps ->
  cp_ok (flag_cp CHUNK_SEGMENT_START (zlen cps)) /\ cp_ok (flag_cp CHUNK_SEGMENT_END 0) /\ Forall cp_ok cps.
Proof.
  intros [Hok Hl]. pose proof (zlen_nonneg cps).
  split_and!; [apply flag_cp_ok; [by left|unfold in_s; lia]|apply flag_cp_ok; [by right|unfold in_s; lia]|].
  eapply Forall_impl; [exact Hok|by intros ? []].
Qed.

Lemma read_segment_body_spec num data off cps :
  file_has data off (seg_bytes cps) -> seg_ok cps ->
  read_segment_body num off (mk_file data (off + cp_len)) (cpbuf_of (flag_cp CHUNK_SEGMENT_START (zlen cps))) =
  Ok (seg_recipe num off cps, cpbuf_of (flag_cp CHUNK_SEGMENT_END 0),
      mk_file data (off + zlen (seg_bytes cps))).
Proof.
  intros Hf Hseg. pose proof (seg_flags_ok _ Hseg) as (Hs0 & He0 & Hcps).
  pose proof (zlen_seg_bytes _ Hseg) as Hlen. rewrite seg_bytes_split in Hf.
  apply file_has_app in Hf as [_ Hf]. rewrite zlen_cp_bytes in Hf by done. apply file_has_app in Hf as [Hm He].
  unfold items_bytes in He. rewrite zlen_cps in He by done.
  unfold read_segment_body. rewrite cp_of_cpbuf by done. cbn [cp_size flag_cp].
  replace (Z.to_nat (zlen cps)) with (length cps) by (unfold zlen; lia).
  rewrite read_kvpairs_spec; [|done|apply Hseg]. step.
  rewrite (read_cp_has _ _ (flag_cp CHUNK_SEGMENT_END 0)) by (done || by apply cpbuf_of_wf).
  rewrite cp_of_cpbuf by done. cbn [cp_id flag_cp]. rewrite Z.eqb_refl. cbn [c_assert]. step.
  rewrite Hlen. do 3 f_equal. unfold cp_len. lia.
Qed.

Definition segs_bytes (segs : list (list chunkPointer)) : list Z := concat (map seg_bytes segs).

Lemma prefetch_loop_spec num count : forall segs pre flag first,
  Forall seg_ok segs -> cpbuf_wf flag ->
  (segs = [] -> first = false /\ cp_id (cp_of flag) <> - CHUNK_SEGMENT_START) ->
  exists pos, prefetch_loop count num (mk_file (pre ++ segs_bytes segs) (zlen pre)) flag first =
    Ok (take count (seg_recipes num (zlen pre) segs), mk_file (pre ++ segs_bytes segs) pos).
Proof.
  induction count as [|count IH]; intros segs pre flag first Hok Hwf Hend; [by eexists|].
  cbn [prefetch_loop fpos]. destruct segs as [|cps segs].
  - destruct (Hend eq_refl) as [-> Hid]. unfold segs_bytes. cbn [map concat]. rewrite app_nil_r.
    destruct Hwf as (H1 & H2 & H3). unfold read_cp.
    rewrite !fread_obj_eof by lia. destruct flag as [fp id size]. cbn [b_fp b_id b_size] in *.
    rewrite (proj2 (Z.eqb_neq _ _) Hid). cbn [negb c_assert]. step. by eexists.
  - apply Forall_cons in Hok as [Hseg Hok]. pose proof (seg_flags_ok _ Hseg) as (Hs0 & He0 & Hcps).
    assert (Hf : file_has (pre ++ segs_bytes (cps :: segs)) (zlen pre) (seg_bytes cps)) by apply file_has_mid.
    pose proof Hf as Hf1. rewrite seg_bytes_split in Hf1. apply file_has_app in Hf1 as [Hf1 _].
    rewrite (read_cp_has _ _ (flag_cp CHUNK_SEGMENT_START (zlen cps))) by done. rewrite cp_of_cpbuf by done.
    cbn [cp_id flag_cp]. rewrite Z.eqb_refl. cbn [negb].
    rewrite (read_segment_body_spec num _ (zlen pre) cps Hf Hseg). step.
    assert (Hpre : pre ++ segs_bytes (cps :: segs) = (pre ++ seg_bytes cps) ++ segs_bytes segs)
      by by rewrite <- app_assoc.
    rewrite Hpre, <- zlen_app.
    destruct (IH segs (pre ++ seg_bytes cps) (cpbuf_of (flag_cp CHUNK_SEGMENT_END 0)) false) as (pos & Hr);
      [done|by apply cpbuf_of_wf|by rewrite cp_of_cpbuf|].
    rewrite Hr. step. exists pos. cbn [seg_recipes take]. by rewrite zlen_app.
Qed.

Lemma read_next_segment_spec b pre segs :
  Forall seg_ok segs -> recipe_fp b = mk_file (pre ++ segs_bytes segs) (zlen pre) ->
  match segs with
  | [] => exists b', read_next_segment (Some b) = Ok (None, Some b')
  | cps :: segs => exists b', read_next_segment (Some b) = Ok (Some (seg_recipe (bv_num b) (zlen pre) cps), Some b') /\
      bv_num b' = bv_num b /\ recipe_fp b' = mk_file ((pre ++ seg_bytes cps) ++ segs_bytes segs) (zlen (pre ++ seg_bytes cps))
  end.
Proof.
  intros Hok Hf. unfold read_next_segment. rewrite Hf. cbn [fpos].
  destruct segs as [|cps segs].
  - unfold segs_bytes. cbn [map concat]. rewrite app_nil_r. unfold read_cp.
    rewrite !fread_obj_eof by (by rewrite ?(proj1 fresh_cp_wf), ?(proj1 (proj2 fresh_cp_wf)), ?(proj2 (proj2 fresh_cp_wf))).
    by eexists.
  - apply Forall_cons in Hok as [Hseg Hok]. pose proof (seg_flags_ok _ Hseg) as (Hs0 & He0 & Hcps).
    assert (Hfh : file_has (pre ++ segs_bytes (cps :: segs)) (zlen pre) (seg_bytes cps)) by apply file_has_mid.
    pose proof Hfh as Hf1. rewrite seg_bytes_split in Hf1. apply file_has_app in Hf1 as [Hf1 _].
    rewrite (read_cp_has _ _ (flag_cp CHUNK_SEGMENT_START (zlen cps))) by (done || apply fresh_cp_wf).
    rewrite cp_of_cpbuf by done. cbn [cp_id flag_cp]. rewrite !Z.eqb_refl. cbn [negb orb].
    rewrite (read_segment_body_spec _ _ (zlen pre) cps Hfh Hseg). step.
    eexists. split; [reflexivity|]. split; [done|]. cbn [bv_set_recipe recipe_fp].
    by rewrite zlen_app, <- app_assoc.
Qed.

(** ** A whole version, written and read *)

Inductive rop := WSeg (cps : list chunkPointer) | WFile (r : fileRecipeMeta).

Definition rop_ok (op : rop) : Prop := match op with WSeg cps => seg_ok cps | WFile r => fm_ok r end.

Definition run_rop (s : backupVersion * Z) (op : rop) : res (backupVersion * Z) :=
  let '(b, ar) := s in
  match op with
  | WSeg cps => '(b, ar, _) ← write_segment b ar cps; Ok (b, ar)
  | WFile r => b ← append_file_recipe_meta b r; Ok (b, ar)
  end.

(** A backup's use of the recipe store, from [create_backup_version] on. *)
Definition backup_recipe (dir : gmap Z version_files) (count : Z) (path : list Z) (ops : list rop) :
    res (gmap Z version_files * Z) :=
  '(b, count) ← create_backup_version count path;
  '(b, ar) ← foldM run_rop (b, TEMPORARY_ID) ops;
  '(b, _) ← update_backup_version b ar;
  Ok (free_backup_version dir b, count).

Definition segs_of (ops : list rop) : list (list chunkPointer) :=
  omap (fun op => match op with WSeg cps => Some cps | WFile _ => None end) ops.
Definition files_of (ops : list rop) : list fileRecipeMeta :=
  omap (fun op => match op with WFile r => Some r | WSeg _ => None end) ops.
Definition ids_of (ops : list rop) : list Z := map cp_id (concat (segs_of ops)).

Lemma run_rops_spec ops : forall b ar num files chunks path meta recipe records,
  wstate b num files chunks path meta recipe records -> Forall rop_ok ops ->
  exists b', foldM run_rop (b, ar) ops = Ok (b', last_id ar (ids_of ops)) /\
    wstate b' num (files + zlen (files_of ops)) (chunks + zlen (concat (segs_of ops))) path
      (meta ++ concat (map fm_bytes (files_of ops))) (recipe ++ segs_bytes (segs_of ops))
      (records ++ records_of ar (ids_of ops)).
Proof.
  induction ops as [|op ops IH]; intros b ar num files chunks path meta recipe records Hw Hok.
  - exists b. cbn. rewrite !app_nil_r, !Z.add_0_r. done.
  - apply Forall_cons in Hok as [Hop Hok]. cbn [foldM run_rop]. destruct op as [cps|r].
    + destruct (write_segment_spec b ar _ _ _ _ _ _ _ cps Hw Hop) as (b1 & -> & Hw1). step. step.
      destruct (IH b1 (last_id ar (map cp_id cps)) _ _ _ _ _ _ _ Hw1 Hok) as (b' & Hr & Hw').
      exists b'. unfold ids_of, segs_of, files_of, segs_bytes in *. cbn [omap list_omap concat map] in *.
      rewrite map_app, last_id_app, records_of_app. split; [exact Hr|].
      rewrite zlen_app, !app_assoc.
      by replace (chunks + (zlen cps + zlen _)) with (chunks + zlen cps + zlen (concat (segs_of ops))) by (unfold segs_of; lia).
    + destruct (append_file_spec b _ _ _ _ _ _ _ r Hw Hop) as (b1 & -> & Hw1). step. step.
      destruct (IH b1 ar _ _ _ _ _ _ _ Hw1 Hok) as (b' & Hr & Hw').
      exists b'. unfold ids_of, segs_of, files_of in *. cbn [omap list_omap concat map] in *.
      split; [exact Hr|]. rewrite app_assoc, zlen_cons.
      by replace (files + (1 + zlen _)) with (files + 1 + zlen (files_of ops)) by (unfold files_of; lia).
Qed.

Lemma fread_obj_at pre bs post buf :
  zlen buf = zlen bs ->
  fread_obj (mk_file (pre ++ bs ++ post) (zlen pre)) buf = (1, bs, mk_file (pre ++ bs ++ post) (zlen pre + zlen bs)).
Proof. intros. apply fread_obj_has; [apply file_has_mid|done]. Qed.

Lemma cstr_id l : Forall (fun ch => ch <> 0) l -> cstr l = l.
Proof.
  induction 1 as [|ch l Hch _ IH]; [done|]. cbn. rewrite (proj2 (Z.eqb_neq _ _) Hch). by rewrite IH.
Qed.

Lemma open_spec dir num files chunks path entries recipe records :
  dir !! num = Some (mk_vf (final_header num files chunks path ++ entries) recipe records) ->
  in_s 32 num -> in_s 64 files -> in_s 64 chunks -> zlen path < 2 ^ 31 -> Forall (fun ch => ch <> 0) path ->
  exists b, open_backup_version dir num = Ok b /\ bv_num b = num /\ number_of_files b = files /\
    number_of_chunks b = chunks /\ bv_path b = path /\ bv_deleted b = 0 /\
    metadata_fp b = mk_file (final_header num files chunks path ++ entries) (28 + zlen path) /\
    recipe_fp b = mk_file recipe 0 /\ record_fp b = mk_file records 0.
Proof.
  intros Hdir Hnum Hfi Hch Hpl Hpath. unfold open_backup_version. rewrite Hdir. cbn [vf_meta vf_recipe vf_records].
  pose proof (zlen_nonneg path).
  set (data := final_header num files chunks path ++ entries).
  assert (Hd : file_has data 0 (final_header num files chunks path)) by by exists [], entries.
  unfold final_header in Hd. repeat (apply file_has_app in Hd as [? Hd]). rewrite !zlen_le_bytes in *.
  rewrite (fread_obj_has data 0 _ (le_bytes 4 num)) by (done || by rewrite zlen_fresh, zlen_le_bytes).
  change 32 with (8 * Z.of_nat 4). change 64 with (8 * Z.of_nat 8). rewrite !zlen_le_bytes.
  rewrite (le_load_signed 4 num) by first [lia|done]. rewrite Z.eqb_refl. cbn [c_assert]. step.
  rewrite (fread_obj_has data _ _ (le_bytes 4 0)) by (done || by rewrite zlen_fresh, zlen_le_bytes). rewrite zlen_le_bytes.
  rewrite (fread_obj_has data _ _ (le_bytes 8 files)) by (done || by rewrite zlen_fresh, zlen_le_bytes). rewrite zlen_le_bytes.
  rewrite (fread_obj_has data _ _ (le_bytes 8 chunks)) by (done || by rewrite zlen_fresh, zlen_le_bytes). rewrite zlen_le_bytes.
  rewrite (fread_obj_has data _ _ (le_bytes 4 (zlen path))) by (done || by rewrite zlen_fresh, zlen_le_bytes). rewrite zlen_le_bytes.
  rewrite (le_load_signed 4 (zlen path)) by first [lia|unfold in_s; lia].
  rewrite (proj2 (Z.ltb_ge _ _)) by lia.
  rewrite (fread_obj_has data _ _ path) by (done || by rewrite zlen_fresh).
  rewrite (le_load_signed 4 0), (le_load_signed 8 files), (le_load_signed 8 chunks) by first [lia|done].
  rewrite cstr_id by done. eexists. split; [reflexivity|]. cbn. by split_and!.
Qed.

(** Reading [k] file entries in a row. *)
Fixpoint read_files (k : nat) (b : backupVersion) (read_file_num : Z) : res (list fileRecipeMeta) :=
  match k with
  | O => Ok []
  | S k => '(r, b, read_file_num) ← read_next_file_recipe_meta b read_file_num;
           rs ← read_files k b read_file_num; Ok (r :: rs)
  end.

Lemma read_file_spec r b data off dn :
  metadata_fp b = mk_file data off -> file_has data off (fm_bytes r) -> fm_ok r -> 0 <= dn < 2 ^ 31 - 1 -> dn <= number_of_files b ->
  read_next_file_recipe_meta b dn =
    Ok (r, bv_set_meta b (mk_file data (off + zlen (fm_bytes r))) (metabuf b) (metabufoff b) (number_of_files b), dn + 1).
Proof.
  intros Hf Hh (Hlen & Hnz & Hc & Hs) Hdn Hnum. pose proof (zlen_nonneg (fm_filename r)).
  unfold read_next_file_recipe_meta. rewrite (proj2 (Z.leb_le _ _)) by lia. cbn [c_assert]. step. rewrite Hf.
  unfold fm_bytes in *. apply file_has_app in Hh as [H1 Hh]. apply file_has_app in Hh as [H2 Hh]. apply file_has_app in Hh as [H3 H4].
  rewrite !zlen_app, !zlen_le_bytes in *. unfold metabufsize in Hlen.
  rewrite (fread_obj_has data _ _ (le_bytes 4 (zlen (fm_filename r)))) by (done || by rewrite zlen_fresh, zlen_le_bytes).
  rewrite zlen_le_bytes. change 32 with (8 * Z.of_nat 4). change 64 with (8 * Z.of_nat 8).
  rewrite (le_load_signed 4 (zlen _)) by first [lia|unfold in_s; lia].
  rewrite (proj2 (Z.ltb_ge _ _)) by lia.
  rewrite (fread_obj_has data _ _ (fm_filename r)) by (done || by rewrite zlen_fresh).
  rewrite cstr_id by done. cbn [new_file_recipe_meta fm_chunknum fm_filesize fm_filename].
  rewrite (fread_obj_has data _ _ (le_bytes 8 (fm_chunknum r))) by (done || by rewrite !zlen_le_bytes). rewrite zlen_le_bytes.
  rewrite (fread_obj_has data _ _ (le_bytes 8 (fm_filesize r))) by (done || by rewrite !zlen_le_bytes). rewrite zlen_le_bytes.
  rewrite !(le_load_signed 8) by first [lia|done].
  rewrite (swrap_id (8 * Z.of_nat 4) (dn + 1)) by (unfold in_s; lia). destruct r. do 3 f_equal. do 2 f_equal. cbn. lia.
Qed.

Lemma read_files_spec rs : forall b data off dn,
  metadata_fp b = mk_file data off -> file_has data off (concat (map fm_bytes rs)) -> Forall fm_ok rs ->
  0 <= dn -> dn + zlen rs <= number_of_files b < 2 ^ 31 ->
  read_files (length rs) b dn = Ok rs.
Proof.
  induction rs as [|r rs IH]; intros b data off dn Hf Hh Hok Hdn Hnum; [done|].
  apply Forall_cons in Hok as [Hr Hok]. cbn [map concat length read_files] in *.
  rewrite zlen_cons in Hnum. pose proof (zlen_nonneg rs). apply file_has_app in Hh as [Hh Hrest].
  rewrite (read_file_spec r b data off dn) by (done || lia). step.
  rewrite (IH _ data (off + zlen (fm_bytes r))); [by step|done|done|done|lia|cbn [number_of_files bv_set_meta]; lia].
Qed.

(** ** Access records *)

(** The container ids a version refers to, runs of equal ids collapsed. *)
Fixpoint runs (ids : list Z) : list Z :=
  match ids with
  | [] => []
  | id :: ids => match runs ids with
                 | id' :: r => if id =? id' then id' :: r else id :: id' :: r
                 | [] => [id]
                 end
  end.

Definition ids_bytes (ids : list Z) : list Z := concat (map (le_bytes 8) ids).

Lemma runs_head id ids : exists r, runs (id :: ids) = id :: r.
Proof.
  cbn. destruct (runs ids) as [|id' r]; [by eexists|]. destruct (Z.eqb_spec id id') as [->|]; by eexists.
Qed.

Lemma records_of_runs prev ids :
  prev <> TEMPORARY_ID -> Forall (fun id => id <> TEMPORARY_ID) ids ->
  records_of prev ids ++ le_bytes 8 (last_id prev ids) = ids_bytes (runs (prev :: ids)).
Proof.
  intros Hp Hids. revert prev Hp. induction Hids as [|id ids Hid _ IH]; intros prev Hp.
  - cbn. unfold ids_bytes. cbn. by rewrite app_nil_r.
  - cbn [records_of]. rewrite last_id_cons, <- app_assoc, IH by done.
    destruct (runs_head id ids) as [r Hr]. unfold record_of.
    rewrite (proj2 (Z.eqb_neq _ _) Hp). cbn [negb andb].
    change (runs (prev :: id :: ids)) with
      (match runs (id :: ids) with id' :: r => if prev =? id' then id' :: r else prev :: id' :: r | [] => [prev] end).
    rewrite Hr. destruct (Z.eqb_spec prev id); [done|]. reflexivity.
Qed.

Lemma final_records ids :
  Forall (fun id => id <> TEMPORARY_ID) ids ->
  records_of TEMPORARY_ID ids ++ (if last_id TEMPORARY_ID ids =? TEMPORARY_ID then [] else le_bytes 8 (last_id TEMPORARY_ID ids)) ++
    le_bytes 8 TEMPORARY_ID = ids_bytes (runs ids ++ [TEMPORARY_ID]).
Proof.
  intros Hids. unfold ids_bytes. rewrite map_app, concat_app. cbn [map concat]. rewrite app_nil_r, app_assoc. f_equal.
  destruct ids as [|id ids]; [done|]. apply Forall_cons in Hids as [Hid Hids].
  rewrite last_id_cons. cbn [records_of]. unfold record_of at 1. cbn [negb andb app].
  change (TEMPORARY_ID =? TEMPORARY_ID) with true. cbn [negb andb app].
  assert (Hl : last_id id ids <> TEMPORARY_ID).
  { unfold last_id. destruct (last ids) as [x|] eqn:E; cbn; [|done].
    rewrite Forall_forall in Hids. apply Hids. by apply last_Some_elem_of in E. }
  rewrite (proj2 (Z.eqb_neq _ _) Hl). by apply records_of_runs.
Qed.

Lemma zlen_ids_bytes ids : zlen (ids_bytes ids) = 8 * zlen ids.
Proof.
  unfold ids_bytes. induction ids as [|id ids IH]; cbn [map concat]; [done|].
  rewrite zlen_app, zlen_cons, IH, zlen_le_bytes. lia.
Qed.

Lemma ids_bytes_app l1 l2 : ids_bytes (l1 ++ l2) = ids_bytes l1 ++ ids_bytes l2.
Proof. unfold ids_bytes. by rewrite map_app, concat_app. Qed.

Lemma decode_ids ids :
  Forall (in_s 64) ids ->
  map (fun i => s64 (le_val (ztake 8 (zdrop (8 * i) (ids_bytes ids))))) (seqZ 0 (zlen ids)) = ids.
Proof.
  induction 1 as [|id ids Hid _ IH]; [done|].
  rewrite zlen_cons. pose proof (zlen_nonneg ids). rewrite seqZ_cons by lia.
  replace (Z.pred (1 + zlen ids)) with (zlen ids) by lia. cbn [map].
  change (ids_bytes (id :: ids)) with (le_bytes 8 id ++ ids_bytes ids). f_equal.
  - rewrite Z.mul_0_r, zdrop_0, ztake_app_exact by by rewrite zlen_le_bytes.
    change 64 with (8 * Z.of_nat 8). apply le_load_signed; [lia|done].
  - rewrite <- IH at 2. rewrite <- Z.add_1_r, Z.add_comm, <- fmap_add_seqZ.
    change (Z.add 1 <$> seqZ 0 (zlen ids)) with (map (Z.add 1) (seqZ 0 (zlen ids))).
    rewrite map_map. apply map_ext_in. intros i Hi.
    apply list_elem_of_In, elem_of_seqZ in Hi.
    rewrite <- (zdrop_app_exact 8 (le_bytes 8 id) (ids_bytes ids)) at 2 by by rewrite zlen_le_bytes.
    rewrite zdrop_zdrop by lia. do 4 f_equal. lia.
Qed.

(** A client reading the records in batches of [n]. *)
Fixpoint read_record_batches (rounds : nat) (b : backupVersion) (n : Z) (at_end : bool) : res (list Z) :=
  match read_next_n_records b n at_end, rounds with
  | (Some (_ :: ids), b, at_end), S rounds => rest ← read_record_batches rounds b n at_end; Ok (ids ++ rest)
  | (None, _, _), _ => Ok []
  | _, _ => Err EFuel
  end.

(** One batch: up to [n] ids, and whether the end mark was among them. *)
Lemma read_records_spec n l b pre :
  0 < n -> record_fp b = mk_file (pre ++ ids_bytes (l ++ [TEMPORARY_ID])) (zlen pre) ->
  Forall (in_s 64) l -> Forall (fun id => id <> TEMPORARY_ID) l ->
  let t := take (Z.to_nat n) (l ++ [TEMPORARY_ID]) in
  read_next_n_records b n false =
    (Some (zlen t :: t),
     bv_set_record b (mk_file (pre ++ ids_bytes (l ++ [TEMPORARY_ID])) (zlen pre + 8 * zlen t)) (recordbuf b) (recordbufoff b),
     zlen l <? n).
Proof.
  intros Hn Hf Hin Hne t. set (ids := l ++ [TEMPORARY_ID]) in *. pose proof (zlen_nonneg l) as Hl0.
  assert (Hids : Forall (in_s 64) ids) by (apply Forall_app; split; [done|by repeat constructor]).
  assert (Hlen : zlen ids = zlen l + 1) by (unfold ids; rewrite zlen_app; done).
  pose proof (take_drop (Z.to_nat n) ids) as Hsplit. fold t in Hsplit.
  assert (Hbs : ztake (8 * n) (zdrop (zlen pre) (pre ++ ids_bytes ids)) = ids_bytes t).
  { rewrite zdrop_app_exact by done. rewrite <- Hsplit, ids_bytes_app.
    destruct (Z.le_gt_cases n (zlen ids)).
    - apply ztake_app_exact. rewrite zlen_ids_bytes. unfold t, zlen in *. rewrite length_take. lia.
    - assert (drop (Z.to_nat n) ids = []) as -> by (apply drop_ge; unfold zlen in *; lia).
      unfold ids_bytes at 2. cbn. rewrite app_nil_r. apply ztake_ge. rewrite zlen_ids_bytes.
      unfold t, zlen in *. rewrite length_take. lia. }
  assert (Htin : Forall (in_s 64) t) by by apply Forall_take.
  unfold read_next_n_records, fread. rewrite Hf. cbn [fpos fdata]. rewrite Hbs.
  rewrite zlen_ids_bytes, (Z.mul_comm 8 (zlen t)), Z.div_mul, decode_ids by (done || lia). f_equal.
  destruct (Z.ltb_spec (zlen l) n) as [Hgt|Hle].
  - assert (t = ids) as -> by (apply take_ge; unfold zlen in *; lia). unfold ids. by rewrite last_snoc.
  - assert (Ht : t = take (Z.to_nat n) l) by (apply take_app_le; unfold zlen in *; lia).
    destruct (last t) as [x|] eqn:E.
    + apply last_Some_elem_of in E. rewrite Ht in E. apply elem_of_take in E as (i & E & _).
      apply list_elem_of_lookup_2 in E. rewrite Forall_forall in Hne. specialize (Hne x E). lia.
    + apply last_None in E. rewrite Ht in E. apply (f_equal length) in E. rewrite length_take in E.
      cbn in E. unfold zlen in *. lia.
Qed.

Lemma read_record_batches_spec n : 0 < n -> forall rounds l b pre,
  record_fp b = mk_file (pre ++ ids_bytes (l ++ [TEMPORARY_ID])) (zlen pre) ->
  Forall (in_s 64) l -> Forall (fun id => id <> TEMPORARY_ID) l -> (length l < rounds)%nat ->
  read_record_batches rounds b n false = Ok (l ++ [TEMPORARY_ID]).
Proof.
  intros Hn. induction rounds as [|rounds IH]; intros l b pre Hf Hin Hne Hr; [lia|].
  cbn [read_record_batches]. rewrite (read_records_spec n l b pre) by done. pose proof (zlen_nonneg l) as Hl0.
  pose proof (take_drop (Z.to_nat n) (l ++ [TEMPORARY_ID])) as Hsplit. destruct (Z.ltb_spec (zlen l) n) as [Hgt|Hle].
  - rewrite take_ge by (rewrite length_app; cbn; unfold zlen in *; lia).
    destruct rounds; cbn [read_record_batches read_next_n_records]; step; by rewrite app_nil_r.
  - set (t := take (Z.to_nat n) (l ++ [TEMPORARY_ID])) in *.
    assert (Hd : drop (Z.to_nat n) (l ++ [TEMPORARY_ID]) = drop (Z.to_nat n) l ++ [TEMPORARY_ID]) by (apply drop_app_le; unfold zlen in *; lia).
    rewrite (IH (drop (Z.to_nat n) l) _ (pre ++ ids_bytes t)); [step| |by apply Forall_drop|by apply Forall_drop|].
    + rewrite <- Hd. by rewrite Hsplit.
    + cbn [record_fp bv_set_record]. rewrite <- Hd, <- app_assoc, <- ids_bytes_app, Hsplit, zlen_app, zlen_ids_bytes.
      f_equal.
    + rewrite length_drop. unfold zlen in *. lia.
Qed.

(** ** What the recipe store promises *)

Lemma backup_recipe_spec dir count pre name ops :
  0 <= count < 2 ^ 31 -> Forall (fun ch => ch <> slash) name -> Forall rop_ok ops ->
  let path := pre ++ [slash] in
  exists dir' records, backup_recipe dir count (pre ++ slash :: name) ops = Ok (dir', s32 (count + 1)) /\
    (forall k, k <> count -> dir' !! k = dir !! k) /\
    dir' !! count = Some (mk_vf
      (final_header count (zlen (files_of ops)) (zlen (concat (segs_of ops))) path ++ concat (map fm_bytes (files_of ops)))
      (segs_bytes (segs_of ops)) records) /\
    (Forall (fun id => id <> TEMPORARY_ID) (ids_of ops) -> records = ids_bytes (runs (ids_of ops) ++ [TEMPORARY_ID])).
Proof.
  intros Hc Hn Hok path. unfold backup_recipe.
  destruct (create_spec count pre name Hc Hn) as (b & -> & Hw & _). step.
  destruct (run_rops_spec ops b TEMPORARY_ID _ _ _ _ _ _ _ Hw Hok) as (b1 & -> & Hw1). step.
  destruct (update_spec b1 (last_id TEMPORARY_ID (ids_of ops)) _ _ _ _ _ _ _ Hw1) as (b2 & -> & Hnum & Hm & Hr & Hrec). step.
  do 2 eexists. split; [reflexivity|]. unfold free_backup_version. rewrite Hnum. split_and!.
  - intros k Hk. by apply lookup_insert_ne.
  - rewrite lookup_insert_eq, Hm, Hr. cbn [app]. do 2 f_equal. f_equal. rewrite zdrop_app_exact; [done|].
    by rewrite zlen_meta_header, (ws_path _ _ _ _ _ _ _ _ Hw).
  - intros Hids. rewrite Hrec. cbn [app]. by apply final_records.
Qed.

Lemma Forall_runs P ids : Forall P ids -> Forall P (runs ids).
Proof.
  induction 1 as [|id ids Hid _ IH]; [done|]. cbn. destruct (runs ids) as [|id' r]; [by constructor|].
  destruct (id =? id'); [done|]. by constructor.
Qed.

Lemma length_runs ids : (length (runs ids) <= length ids)%nat.
Proof.
  induction ids as [|id ids IH]; [done|]. cbn. destruct (runs ids) as [|id' r]; cbn in *; [lia|].
  destruct (id =? id'); cbn; lia.
Qed.

Lemma rops_segs ops : Forall rop_ok ops -> Forall seg_ok (segs_of ops).
Proof.
  induction 1 as [|[cps|r] ops Hop _ IH]; unfold segs_of in *; cbn; [done|by constructor|done].
Qed.

Lemma rops_files ops : Forall rop_ok ops -> Forall fm_ok (files_of ops).
Proof.
  induction 1 as [|[cps|r] ops Hop _ IH]; unfold files_of in *; cbn; [done|done|by constructor].
Qed.

Lemma segs_ptrs segs : Forall seg_ok segs -> Forall ptr_ok (concat segs).
Proof. induction 1 as [|cps segs [Hok _] _ IH]; cbn; [done|]. by apply Forall_app. Qed.

Lemma segs_bytes_items segs : segs_bytes segs = items_bytes (concat (map seg_items segs)).
Proof.
  unfold segs_bytes. induction segs as [|cps segs IH]; [done|]. cbn [map concat]. rewrite IH.
  unfold seg_bytes, items_bytes. by rewrite map_app, concat_app.
Qed.

Lemma pointers_ptrs cps : Forall ptr_ok cps -> pointers cps = cps.
Proof.
  unfold pointers. induction 1 as [|cp cps [_ Hid] _ IH]; [done|].
  rewrite filter_cons_True, IH; [done|]. unfold is_flag, CHUNK_SEGMENT_START, CHUNK_SEGMENT_END.
  rewrite !(proj2 (Z.eqb_neq _ _)) by lia. done.
Qed.

Lemma pointers_segs segs : Forall seg_ok segs -> pointers (concat (map seg_items segs)) = concat segs.
Proof.
  induction 1 as [|cps segs [Hok _] _ IH]; [done|]. cbn [map concat]. unfold pointers in *.
  rewrite filter_app, IH. f_equal. unfold seg_items. rewrite filter_cons_False by done.
  rewrite filter_app, (filter_cons_False _ _ []) by done. cbn. rewrite app_nil_r. by apply pointers_ptrs.
Qed.

Lemma items_ok segs : Forall seg_ok segs -> Forall cp_ok (concat (map seg_items segs)).
Proof.
  induction 1 as [|cps segs Hs _ IH]; [done|]. cbn [map concat]. apply Forall_app. split; [|done].
  destruct (seg_flags_ok _ Hs) as (? & ? & ?). constructor; [done|]. apply Forall_app. split; [done|by constructor].
Qed.

(** C16: a backup version survives the disk. What a backup writes, segments and
    file entries in any order, is read back by a restore: the header counts, the
    file entries in order, the chunk pointers in order across the segment
    boundaries for every batch size, and the container ids in access order with
    repetitions collapsed. Other versions are not touched. *)
Theorem recipe_roundtrip dir count pre name ops n fuel :
  0 <= count < 2 ^ 31 - 1 -> zlen pre < 2 ^ 30 ->
  Forall (fun ch => ch <> 0) pre -> Forall (fun ch => ch <> slash) name ->
  Forall rop_ok ops -> zlen (concat (segs_of ops)) < 2 ^ 31 -> zlen (files_of ops) < 2 ^ 31 ->
  0 < n -> (length (concat (map seg_items (segs_of ops))) <= fuel)%nat ->
  exists dir' b, backup_recipe dir count (pre ++ slash :: name) ops = Ok (dir', count + 1) /\
    (forall k, k <> count -> dir' !! k = dir !! k) /\
    open_backup_version dir' count = Ok b /\ bv_path b = pre ++ [slash] /\
    read_files (length (files_of ops)) b 0 = Ok (files_of ops) /\
    read_batches fuel fuel b n 0 = Ok (concat (segs_of ops)) /\
    read_record_batches (S (length (ids_of ops))) b n false = Ok (runs (ids_of ops) ++ [TEMPORARY_ID]).
Proof.
  intros Hc Hpl Hpre Hname Hok Hptrs Hfiles Hn Hfuel.
  pose proof (rops_segs _ Hok) as Hsegs. pose proof (segs_ptrs _ Hsegs) as Hp. pose proof (zlen_nonneg pre).
  assert (Hids : Forall (fun id => id <> TEMPORARY_ID) (ids_of ops)).
  { apply Forall_map. eapply Forall_impl; [exact Hp|]. intros cp [_ ?]. unfold TEMPORARY_ID. cbn. lia. }
  assert (Hids64 : Forall (in_s 64) (ids_of ops)).
  { apply Forall_map. eapply Forall_impl; [exact Hp|]. by intros cp [(_ & ? & _) _]. }
  destruct (backup_recipe_spec dir count pre name ops) as (dir' & records & Hb & Hother & Hdir & Hrec); [lia|done..|].
  specialize (Hrec Hids). rewrite swrap_id in Hb by (unfold in_s; lia).
  destruct (open_spec dir' _ _ _ _ _ _ _ Hdir) as (b & Ho & Hnum & Hnf & Hnc & Hpath & _ & Hm & Hr & Hrc);
    [unfold in_s; lia|unfold in_s; pose proof (zlen_nonneg (files_of ops)); lia
    |unfold in_s; pose proof (zlen_nonneg (concat (segs_of ops))); lia|change (zlen [slash]) with 1; rewrite zlen_app; change (zlen [slash]) with 1; lia
    |apply Forall_app; split; [done|by repeat constructor]|].
  exists dir', b. split_and!; [done|done|done|done|..].
  - eapply read_files_spec; [exact Hm| |by apply rops_files|lia|lia].
    eexists _, []. rewrite app_nil_r. split; [reflexivity|].
    unfold final_header. rewrite !zlen_app, !zlen_le_bytes. lia.
  - rewrite <- (pointers_segs (segs_of ops)) by done.
    eapply read_batches_spec; [done|exact Hr| |by apply items_ok|rewrite Hnc, pointers_segs by done; lia|lia|lia|lia|].
    + exists [], []. by rewrite app_nil_r, segs_bytes_items.
    + etransitivity; [|exact Hfuel]. unfold pointers. apply length_filter.
  - apply (read_record_batches_spec n Hn _ (runs (ids_of ops)) b []); [|by apply Forall_runs|by apply Forall_runs|].
    + by rewrite Hrc, Hrec.
    + pose proof (length_runs (ids_of ops)). lia.
Qed.

Lemma kv_of_lookup cps : forall kv fp,
  is_Some (kv_of cps kv !! fp) <-> fp ∈ map cp_fp cps \/ is_Some (kv !! fp).
Proof.
  induction cps as [|cp cps IH]; intros kv fp; cbn [kv_of fold_left map].
  - set_solver.
  - unfold kv_of in IH. rewrite IH, elem_of_cons. destruct (decide (fp = cp_fp cp)) as [->|Hne].
    + rewrite lookup_insert_eq. split; intros _; [auto|]. right. by eexists.
    + rewrite lookup_insert_ne by congruence. naive_solver.
Qed.

Lemma seg_recipe_fps num off cps fp :
  lookup_fingerprint_in_segment_recipe (seg_recipe num off cps) fp = if bool_decide (fp ∈ map cp_fp cps) then 1 else 0.
Proof.
  unfold lookup_fingerprint_in_segment_recipe. cbn [kvpairs seg_recipe].
  pose proof (kv_of_lookup cps ∅ fp) as H. rewrite lookup_empty in H.
  destruct (kv_of cps ∅ !! fp) as [cp|] eqn:E.
  - rewrite (bool_decide_false (Some cp = None)) by done. rewrite bool_decide_true; [done|].
    destruct (proj1 H ltac:(by eexists)) as [?|[? ?]]; done.
  - rewrite (bool_decide_true (None = None)) by done. rewrite bool_decide_false; [done|].
    intros Hin. destruct (proj2 H (or_introl Hin)) as [? ?]. done.
Qed.

(** A version that is opened for reading is not the one being written. *)
Definition opened_wf (jcr_bv : backupVersion) (o : opened) : Prop := forall b, o = OtherVersion b -> bv_num b <> bv_num jcr_bv.

(** Where the recipe of version [num] is: in the version being written, in the
    one already opened or in the directory. *)
Definition recipe_of (dir : gmap Z version_files) (jcr_bv : backupVersion) (o : opened) (num : Z) (recipe : list Z) : Prop :=
  (forall b, opened_of jcr_bv o = Some b -> bv_num b = num -> fdata (recipe_fp b) = recipe) /\
  (bv_num jcr_bv = num -> fdata (recipe_fp jcr_bv) = recipe) /\
  (bv_num jcr_bv <> num -> exists b, open_backup_version dir num = Ok b /\ bv_num b = num /\ fdata (recipe_fp b) = recipe).

Lemma select_version_spec dir jcr_bv o num recipe :
  recipe_of dir jcr_bv o num recipe ->
  exists o' b, select_version dir jcr_bv o num = Ok o' /\ opened_of jcr_bv o' = Some b /\ bv_num b = num /\
    fdata (recipe_fp b) = recipe.
Proof.
  intros (H1 & H2 & H3). unfold select_version.
  destruct (opened_of jcr_bv o) as [b|] eqn:Eo.
  - destruct (Z.eqb_spec (bv_num b) num) as [E|E]; [exists o, b; auto|].
    destruct (Z.eqb_spec num (bv_num jcr_bv)) as [E'|E'].
    + exists JcrVersion, jcr_bv. split_and!; auto.
    + destruct H3 as (b' & -> & ? & ?); [congruence|]. by exists (OtherVersion b'), b'.
  - destruct (Z.eqb_spec num (bv_num jcr_bv)) as [E'|E'].
    + exists JcrVersion, jcr_bv. split_and!; auto.
    + destruct H3 as (b' & -> & ? & ?); [congruence|]. by exists (OtherVersion b'), b'.
Qed.

Lemma bv_set_recipe_same b : bv_set_recipe b (recipe_fp b) = b.
Proof. by destruct b. Qed.

(** Prefetching moves file positions only, and may open another version. *)
Lemma prefetch_segments_at dir jcr_bv o num segs1 cps segs2 k :
  Forall seg_ok (segs1 ++ cps :: segs2) -> 0 <= num < 2 ^ 15 -> zlen (segs_bytes segs1) < 2 ^ 32 ->
  recipe_of dir jcr_bv o num (segs_bytes (segs1 ++ cps :: segs2)) ->
  let off := zlen (segs_bytes segs1) in
  exists f o', prefetch_segments dir jcr_bv o (make_segment_id num off (zlen cps)) k =
      Ok (take (Z.to_nat k) (seg_recipes num off (cps :: segs2)), bv_set_recipe jcr_bv f, o') /\
    fdata f = fdata (recipe_fp jcr_bv) /\
    (opened_wf jcr_bv o -> opened_wf jcr_bv o') /\
    forall n r, recipe_of dir jcr_bv o n r -> recipe_of dir (bv_set_recipe jcr_bv f) o' n r.
Proof.
  intros Hok Hnum Hoff Hrec off. apply Forall_app in Hok as [Hok1 Hok2].
  assert (Hcps : 0 <= zlen cps < 2 ^ 16).
  { apply Forall_cons in Hok2 as [[_ ?] _]. pose proof (zlen_nonneg cps). lia. }
  pose proof (zlen_nonneg (segs_bytes segs1)). assert (Ho : 0 <= off < 2 ^ 32) by (unfold off; lia).
  destruct (segment_id_fields num off (zlen cps)) as (Hb & Hof & _); [done..|].
  unfold prefetch_segments. rewrite Hb, Hof.
  assert (make_segment_id num off (zlen cps) =? TEMPORARY_ID = false) as ->.
  { apply Z.eqb_neq. rewrite make_segment_id_value by done. unfold TEMPORARY_ID. lia. }
  cbn [negb c_assert]. step.
  destruct (select_version_spec _ _ _ _ _ Hrec) as (o' & b & Hsel & Hop & Hbn & Hf). rewrite Hsel. step.
  rewrite Hop. cbn [deref]. step. unfold fseek. rewrite (proj2 (Z.ltb_ge _ _)) by lia. step.
  assert (Hdata : segs_bytes (segs1 ++ cps :: segs2) = segs_bytes segs1 ++ segs_bytes (cps :: segs2)).
  { unfold segs_bytes. by rewrite map_app, concat_app. }
  rewrite Hbn, Hf, Hdata. subst off.
  destruct (prefetch_loop_spec num (Z.to_nat k) (cps :: segs2) (segs_bytes segs1) fresh_cp true Hok2 fresh_cp_wf)
    as (pos & ->); [done|]. step. rewrite <- Hdata, <- Hf. set (f := mk_file (fdata (recipe_fp b)) pos).
  destruct o' as [| |b']; cbn in Hop; [done| |]; injection Hop as ->.
  - exists f, JcrVersion. split; [done|]. split; [done|]. split; [by intros _ ?|]. intros n r (H1 & H2 & H3). split_and!; [|exact H2|exact H3].
    cbn. intros b' [= <-]. exact H2.
  - exists (recipe_fp jcr_bv), (OtherVersion (bv_set_recipe b f)). rewrite bv_set_recipe_same. split; [done|]. split; [done|]. split.
    { intros Hwf b' [= <-]. cbn. unfold select_version in Hsel. destruct (opened_of jcr_bv o) as [b0|] eqn:Eo; [|rewrite Hbn; by destruct (Z.eqb_spec num (bv_num jcr_bv))].
      destruct (bv_num b0 =? num); [|rewrite Hbn; by destruct (Z.eqb_spec num (bv_num jcr_bv))]. injection Hsel as ->. by apply Hwf. }
    intros n r (H1 & H2 & H3). split_and!; [|exact H2|exact H3]. cbn. intros b' [= <-] Hn. cbn in Hn |- *.
    unfold select_version in Hsel. destruct (opened_of jcr_bv o) as [b0|] eqn:Eo.
    + destruct (bv_num b0 =? num); [injection Hsel as ->; injection Eo as ->; by apply H1|].
      destruct (Z.eqb_spec num (bv_num jcr_bv)) as [E|E]; [done|]. destruct H3 as (b' & Eb & _ & Hr); [congruence|].
      rewrite <- Hn, Hbn in Eb. rewrite Eb in Hsel. cbn in Hsel. by injection Hsel as ->.
    + destruct (Z.eqb_spec num (bv_num jcr_bv)) as [E|E]; [done|]. destruct H3 as (b' & Eb & _ & Hr); [congruence|].
      rewrite <- Hn, Hbn in Eb. rewrite Eb in Hsel. cbn in Hsel. by injection Hsel as ->.
Qed.

(** The table of a segment recipe holds pointers of the segment. *)
Lemma kv_of_elem cps : forall kv fp cp, kv_of cps kv !! fp = Some cp -> cp ∈ cps /\ cp_fp cp = fp \/ kv !! fp = Some cp.
Proof.
  induction cps as [|c cps IH]; intros kv fp cp; [by right|]. cbn [kv_of fold_left]. intros H.
  destruct (IH _ _ _ H) as [[? ?]|Hl]; [left; set_solver|]. apply lookup_insert_Some in Hl as [[<- <-]|[_ ?]]; [left; set_solver|by right].
Qed.

Lemma seg_recipes_elem num segs : forall off sr, sr ∈ seg_recipes num off segs -> exists off' cps, cps ∈ segs /\ sr = seg_recipe num off' cps.
Proof.
  induction segs as [|cps segs IH]; intros off sr; cbn [seg_recipes]; [by intros ?%elem_of_nil|].
  intros [->|Hin]%elem_of_cons; [exists off, cps; split; [left|done]|]. destruct (IH _ _ Hin) as (off' & c & Hc & ->). exists off', c. split; [by right|done].
Qed.

(** A file entry does not touch the segment being built. *)
Lemma append_file_segment b r b' : append_file_recipe_meta b r = Ok b' ->
  segmentbuf b' = segmentbuf b /\ segmentlen b' = segmentlen b /\ segmentbufoff b' = segmentbufoff b.
Proof.
  unfold append_file_recipe_meta. intros H. repeat (apply bind_Ok in H as ([] & _ & H)). by injection H as <-.
Qed.

(** A segment id leads back to its segment. With the offset below 4 GB and
    fewer than 65536 chunks in a segment, prefetching from the id that
    [append_segment_flag] returned for a segment yields that segment and the
    ones after it, up to the number asked for or the end of the recipe, and the
    segment's table holds exactly the fingerprints that were written. *)
Theorem prefetch_segments_correct dir jcr_bv o num segs1 cps segs2 k :
  Forall seg_ok (segs1 ++ cps :: segs2) -> 0 <= num < 2 ^ 15 -> zlen (segs_bytes segs1) < 2 ^ 32 ->
  recipe_of dir jcr_bv o num (segs_bytes (segs1 ++ cps :: segs2)) ->
  let off := zlen (segs_bytes segs1) in
  exists jcr_bv' o', prefetch_segments dir jcr_bv o (make_segment_id num off (zlen cps)) k =
      Ok (take (Z.to_nat k) (seg_recipes num off (cps :: segs2)), jcr_bv', o') /\
    fdata (recipe_fp jcr_bv') = fdata (recipe_fp jcr_bv) /\
    (forall fp, lookup_fingerprint_in_segment_recipe (seg_recipe num off cps) fp =
                if bool_decide (fp ∈ map cp_fp cps) then 1 else 0).
Proof.
  intros Hok Hnum Hoff Hrec off. destruct (prefetch_segments_at dir jcr_bv o num segs1 cps segs2 k Hok Hnum Hoff Hrec) as (f & o' & E & Hf & _).
  do 2 eexists. split; [exact E|]. split; [exact Hf|apply seg_recipe_fps].
Qed.

(** The packed fields of a segment id are independent up to their widths,
    and only up to them: a segment of 65536 chunks has the id of an empty
    segment 65536 bytes further on. *)
Theorem segment_id_roundtrip bid off :
  0 <= bid < 2 ^ 15 -> 0 <= off < 2 ^ 32 - 1 ->
  (forall size, 0 <= size < 65536 ->
     id_to_bnum (make_segment_id bid off size) = bid /\ id_to_off (make_segment_id bid off size) = off /\
     id_to_size (make_segment_id bid off size) = size) /\
  make_segment_id bid off 65536 = make_segment_id bid (off + 1) 0 /\
  id_to_size (make_segment_id bid off 65536) = 0.
Proof.
  intros Hb Ho. split; [intros size Hs; apply segment_id_fields; lia|].
  assert (E : make_segment_id bid off 65536 = make_segment_id bid (off + 1) 0).
  { rewrite (make_segment_id_value bid (off + 1) 0) by lia. unfold make_segment_id.
    rewrite !Z.shiftl_mul_pow2 by lia.
    rewrite (swrap_id 64 (bid * 2 ^ 48)), (swrap_id 64 (off * 2 ^ 16)), (swrap_id 64 (bid * 2 ^ 48 + off * 2 ^ 16)),
      swrap_id by (unfold in_s; lia). lia. }
  split; [exact E|]. rewrite E. apply segment_id_fields; lia.
Qed.

(** ** Witnesses *)

Definition recipe_demo_cp (x id : Z) : chunkPointer := mk_cp (replicate 20 x) id 4096.
Definition recipe_demo_seg : list chunkPointer := [recipe_demo_cp 1 3; recipe_demo_cp 2 3; recipe_demo_cp 3 4].
Definition recipe_demo_file : fileRecipeMeta := mk_fmeta 3 12288 [97; 98].

Lemma recipe_demo_cp_ok x id : 0 <= id < 2 ^ 31 -> ptr_ok (recipe_demo_cp x id).
Proof. intros. unfold ptr_ok, cp_ok, in_s. cbn. split_and!; try done; lia. Qed.

Lemma recipe_demo_one_ok x id : 0 <= id < 2 ^ 31 -> seg_ok [recipe_demo_cp x id].
Proof. intros. split; [|done]. constructor; [by apply recipe_demo_cp_ok|done]. Qed.

Lemma recipe_demo_seg_ok : seg_ok recipe_demo_seg.
Proof. split; [|done]. repeat (constructor; [by apply recipe_demo_cp_ok|]). done. Qed.

Lemma recipe_demo_file_ok : fm_ok recipe_demo_file.
Proof. split_and!; [done| |done..]. repeat (constructor; [done|]). done. Qed.

Lemma recipe_roundtrip_witness :
  exists dir b, open_backup_version dir 5 = Ok b /\
    read_batches 9 9 b 2 0 = Ok (recipe_demo_seg ++ [recipe_demo_cp 9 4]) /\
    read_record_batches 5 b 2 false = Ok [3; 4; -1].
Proof.
  destruct (recipe_roundtrip ∅ 5 [100] [101] [WSeg recipe_demo_seg; WFile recipe_demo_file; WSeg [recipe_demo_cp 9 4]] 2 9)
    as (dir & b & _ & _ & Ho & _ & _ & Hp & Hr).
  1-2: done.
  - constructor; done.
  - constructor; done.
  - constructor; [exact recipe_demo_seg_ok|]. constructor; [exact recipe_demo_file_ok|].
    constructor; [|done]. by apply recipe_demo_one_ok.
  - done.
  - done.
  - done.
  - cbn. lia.
  - exists dir, b. split_and!; [exact Ho|exact Hp|exact Hr].
Defined.

Definition recipe_demo_bv (recipe : list Z) : backupVersion :=
  mk_bv [47] 7 0 0 0 empty_file (mk_file recipe 0) empty_file None 0 None 0 None 0 0.

Lemma prefetch_segments_correct_witness :
  exists jcr_bv' o', prefetch_segments ∅ (recipe_demo_bv (segs_bytes [recipe_demo_seg; [recipe_demo_cp 9 4]])) NoVersion
    (make_segment_id 7 160 1) 4 = Ok ([seg_recipe 7 160 [recipe_demo_cp 9 4]], jcr_bv', o').
Proof.
  destruct (prefetch_segments_correct ∅ (recipe_demo_bv (segs_bytes [recipe_demo_seg; [recipe_demo_cp 9 4]])) NoVersion 7
    [recipe_demo_seg] [recipe_demo_cp 9 4] [] 4) as (j & o & H & _).
  - constructor; [exact recipe_demo_seg_ok|]. constructor; [|done]. by apply recipe_demo_one_ok.
  - done.
  - done.
  - split_and!; [done|done|]. intros []. done.
  - exists j, o. exact H.
Defined.

Lemma segment_id_roundtrip_witness :
  id_to_off (make_segment_id 3 4096 70) = 4096 /\ id_to_size (make_segment_id 3 4096 65536) = 0.
Proof.
  destruct (segment_id_roundtrip 3 4096) as (H & _ & Hs); [done..|].
  split; [apply (H 70); done|exact Hs].
Defined.
