(* ===== verification/Segmenting.v ===== *)
(** Dividing the chunk stream into segments:
    [destor/src/index/segmenting_method.c].

    Each method is a function of the static [tmp] (the segment being built, or
    [None] before the first call and after a boundary) and of the chunk, [None]
    for the end of the stream. It returns the segment that is complete, if any,
    and the new [tmp]. *)

From S2P Require Import Prelude Destor.

Definition INDEX_SEGMENT_FIXED := 0.
Definition INDEX_SEGMENT_CONTENT_DEFINED := 1.
Definition INDEX_SEGMENT_FILE_DEFINED := 2.

(** [destor.index_segment_algorithm] and the bounds for content-defined
    segments. *)
Record seg_config := mk_seg_config {
  segment_method : Z;
  segment_size : Z;
  index_segment_min : Z;
  index_segment_max : Z;
}.

Definition seg_append (s : segment) (c : chunk) : segment :=
  mk_segment (seg_id s) (seg_chunk_num s) (seg_chunks s ++ [c]) (seg_features s).
(** [chunk_num] is an [int32_t]. *)
Definition seg_count (s : segment) : segment :=
  mk_segment (seg_id s) (s32 (seg_chunk_num s + 1)) (seg_chunks s) (seg_features s).

Definition is_file_flag (c : chunk) : bool := CHECK_CHUNK c CHUNK_FILE_START || CHECK_CHUNK c CHUNK_FILE_END.

Definition seg_result : Type := res (option segment * option segment).

Section Methods.
Context (cfg : seg_config).

Definition segment_fixed (tmp : option segment) (c : option chunk) : seg_result :=
  let t := default new_segment tmp in
  match c with
  | None => Ok (Some t, Some t)
  | Some c =>
      let t := seg_append t c in
      if is_file_flag c then Ok (None, Some t) else
      let t := seg_count t in
      if seg_chunk_num t =? segment_size cfg then Ok (Some t, None) else Ok (None, Some t)
  end.

Definition segment_file_defined (tmp : option segment) (c : option chunk) : seg_result :=
  let t := default new_segment tmp in
  match c with
  | None => Ok (Some t, Some t)
  | Some c =>
      let t := seg_append t c in
      if CHECK_CHUNK c CHUNK_FILE_END then Ok (Some t, None)
      else if CHECK_CHUNK c CHUNK_FILE_START then Ok (None, Some t)
      else Ok (None, Some (seg_count t))
  end.

(** [*(int* )&c->fp[16] % n] *)
Definition head_rem (c : chunk) (n : Z) : res Z :=
  bs ← read_bytes (ck_fp c) 16 4;
  if n =? 0 then Err EArith else Ok (Z.rem (s32 (le_val bs)) n).

Definition segment_content_defined (tmp : option segment) (c : option chunk) : seg_result :=
  let t := default new_segment tmp in
  match c with
  | None => Ok (Some t, Some t)
  | Some c =>
      if is_file_flag c then Ok (None, Some (seg_append t c))
      else if seg_chunk_num t <? index_segment_min cfg then Ok (None, Some (seg_count (seg_append t c)))
      else
        r ← head_rem c (segment_size cfg);
        if r =? 0 then Ok (Some t, Some (seg_count (seg_append new_segment c)))
        else
          let t := seg_count (seg_append t c) in
          if index_segment_max cfg <=? seg_chunk_num t then Ok (Some t, Some new_segment)
          else Ok (None, Some t)
  end.

(** The function [segmenting] is set to. *)
Definition init_segmenting_method : res (option segment -> option chunk -> seg_result) :=
  if segment_method cfg =? INDEX_SEGMENT_FIXED then Ok segment_fixed
  else if segment_method cfg =? INDEX_SEGMENT_CONTENT_DEFINED then Ok segment_content_defined
  else if segment_method cfg =? INDEX_SEGMENT_FILE_DEFINED then Ok segment_file_defined
  else Err (EExit 1).

(** ** A whole stream *)

(** The caller (the dedup phase) passes each chunk in turn and NULL at the end:
    the complete segments in order, the last one being what NULL returns. *)
Fixpoint feed (f : option segment -> option chunk -> seg_result) (tmp : option segment) (cs : list chunk) :
    res (list segment) :=
  match cs with
  | [] => '(s, _) ← f tmp None; s ← deref s; Ok [s]
  | c :: cs => '(s, tmp) ← f tmp (Some c); ss ← feed f tmp cs; Ok (option_list s ++ ss)
  end.

Definition normal_count (cs : list chunk) : Z := zlen (filter (fun c => is_file_flag c = false) cs).

Lemma normal_count_snoc cs c :
  normal_count (cs ++ [c]) = normal_count cs + (if is_file_flag c then 0 else 1).
Proof.
  unfold normal_count. rewrite filter_app, zlen_app. f_equal. rewrite filter_cons.
  destruct (is_file_flag c); [by rewrite decide_False|by rewrite decide_True].
Qed.

(** A segment under construction counts its normal chunks. *)
Definition tmp_ok (tmp : option segment) : Prop :=
  match tmp with Some t => seg_chunk_num t = normal_count (seg_chunks t) | None => True end.
Definition tmp_chunks (tmp : option segment) : list chunk :=
  match tmp with Some t => seg_chunks t | None => [] end.

(** What one call does to the stream: nothing is lost, repeated or reordered,
    and [P] holds of a segment that is returned at a boundary, [Q] of the one
    that is kept. A method that does not bound its segments ([free]) counts right
    as long as the count fits its field. *)
Definition step_ok (free : bool) (P Q : segment -> Prop) (f : option segment -> option chunk -> seg_result) : Prop :=
  (forall tmp, tmp_ok tmp -> (forall t, tmp = Some t -> Q t) ->
     exists t, f tmp None = Ok (Some t, Some t) /\ tmp_ok (Some t) /\ seg_chunks t = tmp_chunks tmp /\ Q t) /\
  (forall tmp c, tmp_ok tmp -> (forall t, tmp = Some t -> Q t) -> fp_wf (ck_fp c) ->
     (free = true -> normal_count (tmp_chunks tmp ++ [c]) < 2 ^ 31) ->
     exists s tmp', f tmp (Some c) = Ok (s, tmp') /\ tmp_ok s /\ tmp_ok tmp' /\
       tmp_chunks s ++ tmp_chunks tmp' = tmp_chunks tmp ++ [c] /\
       (forall t, s = Some t -> P t) /\ (forall t, tmp' = Some t -> Q t)).

Definition partition_of (P Q : segment -> Prop) (cs : list chunk) (ss : list segment) (t : segment) : Prop :=
  concat (map seg_chunks (ss ++ [t])) = cs /\
  Forall (fun s => seg_chunk_num s = normal_count (seg_chunks s)) (ss ++ [t]) /\ Forall P ss /\ Q t.

Lemma normal_count_app cs1 cs2 : normal_count (cs1 ++ cs2) = normal_count cs1 + normal_count cs2.
Proof. unfold normal_count. by rewrite filter_app, zlen_app. Qed.

Lemma normal_count_nonneg cs : 0 <= normal_count cs.
Proof. apply zlen_nonneg. Qed.

Lemma feed_partition free P Q f :
  step_ok free P Q f -> forall cs tmp, tmp_ok tmp -> (forall t, tmp = Some t -> Q t) ->
  Forall (fun c => fp_wf (ck_fp c)) cs -> (free = true -> normal_count (tmp_chunks tmp ++ cs) < 2 ^ 31) ->
  exists ss t, feed f tmp cs = Ok (ss ++ [t]) /\ partition_of P Q (tmp_chunks tmp ++ cs) ss t.
Proof.
  intros [Hend Hstep]. induction cs as [|c cs IH]; intros tmp Ht HQ Hfp Hmax; cbn [feed].
  - destruct (Hend tmp Ht HQ) as (t & -> & Htn & Htc & Hqt). step. cbn [deref]. step.
    exists [], t. split; [done|]. unfold partition_of. cbn. rewrite Htc. split_and!; [done|by constructor|done|done].
  - apply Forall_cons in Hfp as [Hc Hfp].
    rewrite (app_assoc _ [c] cs : tmp_chunks tmp ++ c :: cs = _), normal_count_app in Hmax. pose proof (normal_count_nonneg cs).
    destruct (Hstep tmp c Ht HQ Hc) as (s & tmp' & -> & Hs & Ht' & Hcat & HP & HQ'); [intros Hfr; specialize (Hmax Hfr); lia|]. step.
    rewrite <- Hcat, normal_count_app in Hmax. pose proof (normal_count_nonneg (tmp_chunks s)).
    destruct (IH tmp' Ht' HQ' Hfp) as (ss & t & -> & Hcs & Hn & HPs & Hqt); [intros Hfr; specialize (Hmax Hfr); rewrite normal_count_app; lia|]. step.
    exists (option_list s ++ ss), t. rewrite <- app_assoc. split; [done|]. unfold partition_of.
    rewrite <- app_assoc, map_app, concat_app, Hcs. split_and!.
    + rewrite app_assoc. assert (concat (map seg_chunks (option_list s)) = tmp_chunks s) as ->.
      { destruct s; cbn; [apply app_nil_r|done]. }
      by rewrite Hcat, <- app_assoc.
    + apply Forall_app. split; [|done]. destruct s; cbn; [|done]. by constructor.
    + apply Forall_app. split; [|done]. destruct s; cbn; [|done]. constructor; [by apply HP|done].
    + done.
Qed.

Lemma tmp_default tmp :
  tmp_ok tmp -> tmp_ok (Some (default new_segment tmp)) /\ seg_chunks (default new_segment tmp) = tmp_chunks tmp.
Proof. by destruct tmp. Qed.

Lemma count_append t c :
  seg_chunk_num t = normal_count (seg_chunks t) -> normal_count (seg_chunks t ++ [c]) < 2 ^ 31 ->
  tmp_ok (Some (if is_file_flag c then seg_append t c else seg_count (seg_append t c))).
Proof.
  intros H Hmax. pose proof (normal_count_nonneg (seg_chunks t)). cbn. rewrite normal_count_snoc in Hmax.
  destruct (is_file_flag c) eqn:E; cbn; rewrite normal_count_snoc, E; [lia|]. rewrite s32_id; lia.
Qed.

(** The count of a segment with room for a chunk more. *)
Lemma count_room t c m : seg_chunk_num t = normal_count (seg_chunks t) -> seg_chunk_num t < m -> m < 2 ^ 31 ->
  normal_count (seg_chunks t ++ [c]) < 2 ^ 31 /\ s32 (seg_chunk_num t + 1) = seg_chunk_num t + 1.
Proof.
  intros Hn Ht Hm. pose proof (normal_count_nonneg (seg_chunks t)). rewrite normal_count_snoc. split; [destruct (is_file_flag c); lia|apply s32_id; lia].
Qed.

Lemma segment_fixed_step :
  0 < segment_size cfg < 2 ^ 31 ->
  step_ok false (fun s => seg_chunk_num s = segment_size cfg) (fun s => 0 <= seg_chunk_num s < segment_size cfg) segment_fixed.
Proof.
  intros Hpos. split; intros tmp.
  - intros Ht HQ. destruct (tmp_default tmp Ht) as [Hd Hc]. eexists. split; [reflexivity|]. split_and!; [done|done|..];
    destruct tmp as [t|]; cbn; try (apply HQ; done); lia.
  - intros c Ht HQ _ _. destruct (tmp_default tmp Ht) as [Hd Hc]. unfold segment_fixed.
    assert (Hq : 0 <= seg_chunk_num (default new_segment tmp) < segment_size cfg).
    { destruct tmp as [t|]; cbn; [by apply HQ|lia]. }
    set (t := default new_segment tmp) in *. destruct (count_room t c (segment_size cfg) Hd) as [Hroom Hs]; [lia|lia|].
    pose proof (count_append t c Hd Hroom) as Hn.
    destruct (is_file_flag c) eqn:E.
    + do 2 eexists. split; [reflexivity|]. split_and!; try done; cbn; [by rewrite Hc|]. by intros ? [= <-].
    + destruct (Z.eqb_spec (seg_chunk_num (seg_count (seg_append t c))) (segment_size cfg)) as [Eq|Ne].
      * do 2 eexists. split; [reflexivity|]. split_and!; try done; cbn; [by rewrite app_nil_r, Hc|].
        by intros ? [= <-].
      * do 2 eexists. split; [reflexivity|]. split_and!; try done; cbn; [by rewrite Hc|].
        intros ? [= <-]. cbn in *. rewrite Hs in *. lia.
Qed.

Lemma segment_file_step :
  step_ok true (fun s => exists pre c, seg_chunks s = pre ++ [c] /\ CHECK_CHUNK c CHUNK_FILE_END = true /\
             Forall (fun c => CHECK_CHUNK c CHUNK_FILE_END = false) pre)
          (fun s => Forall (fun c => CHECK_CHUNK c CHUNK_FILE_END = false) (seg_chunks s)) segment_file_defined.
Proof.
  split; intros tmp.
  - intros Ht HQ. destruct (tmp_default tmp Ht) as [Hd Hc]. eexists. split; [reflexivity|]. split_and!; [done|done|].
    destruct tmp as [t|]; cbn; [by apply HQ|done].
  - intros c Ht HQ _ Hmax. destruct (tmp_default tmp Ht) as [Hd Hc]. unfold segment_file_defined.
    assert (Hq : Forall (fun c => CHECK_CHUNK c CHUNK_FILE_END = false) (seg_chunks (default new_segment tmp))).
    { destruct tmp as [t|]; cbn; [by apply HQ|done]. }
    set (t := default new_segment tmp) in *. pose proof (count_append t c Hd) as Hn. rewrite Hc in Hn. specialize (Hn (Hmax eq_refl)).
    unfold is_file_flag in Hn. destruct (CHECK_CHUNK c CHUNK_FILE_END) eqn:E.
    + rewrite orb_true_r in Hn. do 2 eexists. split; [reflexivity|]. split_and!; try done; cbn.
      * by rewrite app_nil_r, Hc.
      * intros ? [= <-]. by exists (seg_chunks t), c.
    + rewrite orb_false_r in Hn.
      destruct (CHECK_CHUNK c CHUNK_FILE_START); (do 2 eexists; split; [reflexivity|]; split_and!; try done; cbn;
        [by rewrite Hc|intros ? [= <-]; cbn; apply Forall_app; split; [done|by constructor]]).
Qed.

Lemma head_rem_total c n : fp_wf (ck_fp c) -> n <> 0 -> exists r, head_rem c n = Ok r.
Proof.
  intros [Hl _] Hn. unfold head_rem, read_bytes. rewrite Hl, bool_decide_true by done. step.
  rewrite (proj2 (Z.eqb_neq _ _) Hn). by eexists.
Qed.

Lemma segment_content_step :
  segment_size cfg <> 0 -> 0 < index_segment_min cfg < index_segment_max cfg -> index_segment_max cfg < 2 ^ 31 ->
  step_ok false (fun s => index_segment_min cfg <= seg_chunk_num s <= index_segment_max cfg)
          (fun s => 0 <= seg_chunk_num s < index_segment_max cfg) segment_content_defined.
Proof.
  intros Hsz Hmm Hlt. split; intros tmp.
  - intros Ht HQ. destruct (tmp_default tmp Ht) as [Hd Hc]. eexists. split; [reflexivity|]. split_and!; [done|done|..];
    destruct tmp as [t|]; cbn; try (apply HQ; done); lia.
  - intros c Ht HQ Hfp _. destruct (tmp_default tmp Ht) as [Hd Hc]. unfold segment_content_defined.
    assert (Hq : 0 <= seg_chunk_num (default new_segment tmp) < index_segment_max cfg).
    { destruct tmp as [t|]; cbn; [by apply HQ|lia]. }
    set (t := default new_segment tmp) in *. destruct (count_room t c (index_segment_max cfg) Hd) as [Hroom Hs]; [lia|lia|].
    pose proof (count_append t c Hd Hroom) as Hn.
    destruct (is_file_flag c) eqn:E.
    { do 2 eexists. split; [reflexivity|]. split_and!; try done; cbn; [by rewrite Hc|]. by intros ? [= <-]. }
    destruct (Z.ltb_spec (seg_chunk_num t) (index_segment_min cfg)) as [Hsm|Hge].
    { do 2 eexists. split; [reflexivity|]. split_and!; try done; cbn; [by rewrite Hc|]. intros ? [= <-]. cbn. rewrite Hs. lia. }
    destruct (head_rem_total c _ Hfp Hsz) as [r ->]. step. destruct (r =? 0).
    + do 2 eexists. split; [reflexivity|]. split_and!; try done; cbn.
      * unfold normal_count. rewrite filter_cons_True by done. done.
      * by rewrite Hc.
      * intros ? [= <-]. lia.
      * intros ? [= <-]. cbn. change (s32 (0 + 1)) with 1. lia.
    + destruct (Z.leb_spec (index_segment_max cfg) (seg_chunk_num (seg_count (seg_append t c)))) as [Hle|Hgt].
      * do 2 eexists. split; [reflexivity|]. split_and!; try done; cbn; [by rewrite app_nil_r, Hc|..].
        -- intros ? [= <-]. cbn in *. rewrite Hs in *. lia.
        -- intros ? [= <-]. cbn. lia.
      * do 2 eexists. split; [reflexivity|]. split_and!; try done; cbn; [by rewrite Hc|].
        intros ? [= <-]. cbn in *. rewrite Hs in *. lia.
Qed.

(** C29: the segments are a partition of the chunk stream, in order, and each
    counts its normal chunks. Fixed segments have exactly the configured number
    of chunks, content-defined ones between the minimum and the maximum, and a
    file-defined one ends at the end of its file; only the last segment may be
    smaller. The sizes are those of an [int]; file-defined segments have no limit,
    and their count is right for a stream whose chunks an [int32_t] can count. *)
Theorem segmenting_partition cs :
  Forall (fun c => fp_wf (ck_fp c)) cs ->
  (0 < segment_size cfg < 2 ^ 31 ->
     exists ss t, feed segment_fixed None cs = Ok (ss ++ [t]) /\
       partition_of (fun s => seg_chunk_num s = segment_size cfg) (fun s => 0 <= seg_chunk_num s < segment_size cfg) cs ss t) /\
  (segment_size cfg <> 0 -> 0 < index_segment_min cfg < index_segment_max cfg -> index_segment_max cfg < 2 ^ 31 ->
     exists ss t, feed segment_content_defined None cs = Ok (ss ++ [t]) /\
       partition_of (fun s => index_segment_min cfg <= seg_chunk_num s <= index_segment_max cfg)
         (fun s => 0 <= seg_chunk_num s < index_segment_max cfg) cs ss t) /\
  (normal_count cs < 2 ^ 31 -> exists ss t, feed segment_file_defined None cs = Ok (ss ++ [t]) /\
    partition_of (fun s => exists pre c, seg_chunks s = pre ++ [c] /\ CHECK_CHUNK c CHUNK_FILE_END = true /\
                    Forall (fun c => CHECK_CHUNK c CHUNK_FILE_END = false) pre)
      (fun s => Forall (fun c => CHECK_CHUNK c CHUNK_FILE_END = false) (seg_chunks s)) cs ss t).
Proof.
  intros Hfp. split_and!.
  - intros Hsz. by apply (feed_partition _ _ _ _ (segment_fixed_step Hsz) cs None).
  - intros Hsz Hmm Hlt. by apply (feed_partition _ _ _ _ (segment_content_step Hsz Hmm Hlt) cs None).
  - intros Hn. by apply (feed_partition _ _ _ _ segment_file_step cs None).
Qed.
End Methods.

Definition seg_demo_cfg : seg_config := mk_seg_config 0 2 1 3.
Definition seg_demo_chunk (flag x : Z) : chunk := mk_chunk 10 flag (-1) (replicate 20 x) None.

Lemma segmenting_partition_witness :
  exists ss t, feed (segment_fixed seg_demo_cfg) None
      [seg_demo_chunk 1 0; seg_demo_chunk 0 1; seg_demo_chunk 0 2; seg_demo_chunk 0 3; seg_demo_chunk 2 0] = Ok (ss ++ [t]) /\
    Forall (fun s => seg_chunk_num s = 2) ss /\ seg_chunk_num t < 2.
Proof.
  destruct (segmenting_partition seg_demo_cfg
    [seg_demo_chunk 1 0; seg_demo_chunk 0 1; seg_demo_chunk 0 2; seg_demo_chunk 0 3; seg_demo_chunk 2 0]) as (H & _ & _).
  - decide_it.
  - destruct H as (ss & t & H & _ & _ & HP & HQ); [done|]. exists ss, t. split; [exact H|]. split; [exact HP|apply HQ].
Defined.
