(* ===== verification/Sampling.v ===== *)
(** Sampling features from the chunks of a segment or container:
    [destor/src/index/sampling_method.c].

    A feature is the first [index_key_size] bytes of a fingerprint; the table of
    features is used as a set. The methods work on a [GSequence] kept sorted by
    [g_sequence_insert_sorted]. *)

From S2P Require Import Prelude Glib Destor Segmenting.

Definition INDEX_SAMPLING_RANDOM := 1.
Definition INDEX_SAMPLING_MIN := 2.
Definition INDEX_SAMPLING_UNIFORM := 3.
Definition INDEX_SAMPLING_OPTIMIZED_MIN := 4.

(** [destor.index_sampling_method] and [destor.index_key_size]. *)
Record sample_config := mk_sample_config { sampling_kind : Z; sampling_ratio : Z; index_key_size : Z }.

Section Sampling.
Context `{SF : !SeqSort fingerprint} `{SA : !SeqSort (fingerprint * fingerprint)} (cfg : sample_config).

(** [memcpy(feature, fp, destor.index_key_size)] *)
Definition feature_of (fp : fingerprint) : res (list Z) := read_bytes fp 0 (index_key_size cfg).

(** The number of features for [chunk_num] chunks. *)
Definition feature_num (chunk_num : Z) : Z :=
  if negb (sampling_ratio cfg =? 0) && (sampling_ratio cfg <? chunk_num) then
    let remain := Z.rem chunk_num (sampling_ratio cfg) in
    let n := Z.quot chunk_num (sampling_ratio cfg) in
    if sampling_ratio cfg <? remain * 2 then n + 1 else n
  else 1.

Definition add_feature (features : gset (list Z)) (fp : fingerprint) : res (gset (list Z)) :=
  f ← feature_of fp; Ok ({[f]} ∪ features).

Definition min_candidate (num : Z) (candidates : list fingerprint) (c : chunk) : res (list fingerprint) :=
  if is_file_flag c then Ok candidates else
  take_it ← (if zlen candidates <? num then Ok true
             else l ← deref (last candidates); Ok (memcmp (ck_fp c) l <? 0));
  if take_it : bool then
    let cs := insert_sorted g_fingerprint_cmp (ck_fp c) candidates in
    Ok (if num <? zlen cs then removelast cs else cs)
  else Ok candidates.

Definition index_sampling_min (chunks : list chunk) (chunk_num : Z) : res (gset (list Z)) :=
  let chunk_num := if chunk_num =? 0 then zlen chunks else chunk_num in
  candidates ← foldM (min_candidate (feature_num chunk_num)) [] chunks;
  features ← foldM add_feature ∅ candidates;
  if bool_decide (features = ∅) then Ok {[replicate (Z.to_nat (index_key_size cfg)) 255]} else Ok features.

(** An anchor is a fingerprint and the one up to eight chunks before it. *)
Definition g_anchor_cmp (a b : fingerprint * fingerprint) : Z := memcmp a.1 b.1.

Definition off : nat := 8.

(** The state of the loop: anchors, the window [prefix] (newest first) and
    [count]. *)
Definition anchor_candidate (num : Z) (s : list (fingerprint * fingerprint) * list fingerprint * nat) (c : chunk) :
    res (list (fingerprint * fingerprint) * list fingerprint * nat) :=
  let '(anchors, prefix, count) := s in
  if is_file_flag c then Ok (anchors, prefix, count) else
  let prefix := ck_fp c :: take off prefix in
  take_it ← (if zlen anchors <? num then Ok true
             else l ← deref (last anchors); Ok (memcmp (ck_fp c) l.1 <? 0));
  anchors ← (if take_it : bool then
    candidate ← (match prefix !! (if Nat.leb off count then off else count) with
                 | Some fp => Ok fp | None => Err EBounds end);
    let anchors := insert_sorted g_anchor_cmp (ck_fp c, candidate) anchors in
    Ok (if num <? zlen anchors then removelast anchors else anchors)
  else Ok anchors);
  Ok (anchors, prefix, S count).

Definition index_sampling_optimized_min (chunks : list chunk) (chunk_num : Z) : res (gset (list Z)) :=
  let chunk_num := if chunk_num =? 0 then zlen chunks else chunk_num in
  let prefix := replicate (off + 1) (replicate 20 255) in
  '(anchors, _, _) ← foldM (anchor_candidate (feature_num chunk_num)) ([], prefix, O) chunks;
  features ← foldM add_feature ∅ (map snd anchors);
  if bool_decide (features = ∅) then Ok {[replicate (Z.to_nat (index_key_size cfg)) 255]} else Ok features.

Definition random_feature (features : gset (list Z)) (c : chunk) : res (gset (list Z)) :=
  if is_file_flag c then Ok features else
  r ← head_rem c (sampling_ratio cfg);
  if r =? 0 then f ← feature_of (ck_fp c); Ok (if bool_decide (f ∈ features) then features else {[f]} ∪ features)
  else Ok features.

Definition index_sampling_random (chunks : list chunk) (chunk_num : Z) : res (gset (list Z)) :=
  _ ← c_assert (negb (sampling_ratio cfg =? 0));
  features ← foldM random_feature ∅ chunks;
  if bool_decide (features = ∅) then Ok {[replicate (Z.to_nat (index_key_size cfg)) 0]} else Ok features.

Definition uniform_feature (s : gset (list Z) * Z) (c : chunk) : res (gset (list Z) * Z) :=
  let '(features, count) := s in
  features ← (if Z.rem count (sampling_ratio cfg) =? 0 then
                f ← feature_of (ck_fp c); Ok (if bool_decide (f ∈ features) then features else {[f]} ∪ features)
              else Ok features);
  Ok (features, count + 1).

Definition index_sampling_uniform (chunks : list chunk) (chunk_num : Z) : res (gset (list Z)) :=
  _ ← c_assert (negb (sampling_ratio cfg =? 0));
  '(features, _) ← foldM uniform_feature (∅, 0) chunks;
  if bool_decide (features = ∅) then
    _ ← c_assert (chunk_num =? 0); Ok {[replicate (Z.to_nat (index_key_size cfg)) 0]}
  else Ok features.

Definition init_sampling_method : res (list chunk -> Z -> res (gset (list Z))) :=
  if sampling_kind cfg =? INDEX_SAMPLING_RANDOM then Ok index_sampling_random
  else if sampling_kind cfg =? INDEX_SAMPLING_OPTIMIZED_MIN then Ok index_sampling_optimized_min
  else if sampling_kind cfg =? INDEX_SAMPLING_MIN then Ok index_sampling_min
  else if sampling_kind cfg =? INDEX_SAMPLING_UNIFORM then Ok index_sampling_uniform
  else Err (EExit 1).

(** ** The smallest fingerprints *)

Context `{SFO : !SeqSortOk fingerprint}.
Hypothesis key_fits : 0 <= index_key_size cfg <= fp_size.

Definition normal_fps (chunks : list chunk) : list fingerprint :=
  map ck_fp (filter (fun c => is_file_flag c = false) chunks).

Lemma fp_cmp_ok : cmp_ok fp_wf g_fingerprint_cmp.
Proof.
  split; unfold g_fingerprint_cmp.
  - intros x y _ _. rewrite (memcmp_antisym x y). lia.
  - intros x y z [Hx _] [Hy _] [Hz _]. unfold zlen in *. apply memcmp_trans; lia.
Qed.

(** [cand] are [num] smallest elements of [all] (all of them if fewer). *)
Definition smallest (num : Z) (all cand : list fingerprint) : Prop :=
  StronglySorted (cmp_le g_fingerprint_cmp) cand /\ Forall fp_wf all /\
  exists rest, cand ++ rest ≡ₚ all /\
    zlen cand <= num /\ (rest <> [] -> zlen cand = num) /\
    forall a b, a ∈ cand -> b ∈ rest -> memcmp a b <= 0.

Lemma sorted_last cand x l :
  StronglySorted (cmp_le g_fingerprint_cmp) (cand ++ [l]) -> x ∈ cand ++ [l] -> memcmp x l <= 0.
Proof.
  induction cand as [|y cand IH]; cbn; intros Hs Hx.
  - apply list_elem_of_singleton in Hx as ->. by rewrite memcmp_refl.
  - apply StronglySorted_inv in Hs as [Hs Hy]. apply elem_of_cons in Hx as [->|Hx]; [|by apply IH].
    rewrite Forall_forall in Hy. apply Hy. set_solver.
Qed.

Lemma sorted_app_l (l1 l2 : list fingerprint) R : StronglySorted R (l1 ++ l2) -> StronglySorted R l1.
Proof.
  induction l1 as [|x l1 IH]; cbn; [constructor|]. intros Hs. apply StronglySorted_inv in Hs as [Hs Hx].
  constructor; [auto|]. rewrite Forall_forall in *. intros y Hy. apply Hx. set_solver.
Qed.

Lemma smallest_step num all cand c :
  1 <= num -> fp_wf (ck_fp c) -> smallest num all cand ->
  exists cand', min_candidate num cand c = Ok cand' /\
    smallest num (all ++ if is_file_flag c then [] else [ck_fp c]) cand'.
Proof.
  intros Hnum Hc (Hs & Hwf & rest & Hperm & Hlen & Hfull & Hle). unfold min_candidate.
  destruct (is_file_flag c).
  { exists cand. rewrite app_nil_r. split; [done|]. split_and!; [done|done|]. by exists rest. }
  assert (Hcand : Forall fp_wf cand).
  { rewrite <- Hperm in Hwf. by apply Forall_app in Hwf as [? _]. }
  assert (Hwf' : Forall fp_wf (all ++ [ck_fp c])) by (apply Forall_app; split; [done|by constructor]).
  set (cs := insert_sorted g_fingerprint_cmp (ck_fp c) cand).
  assert (Hcs : cs ≡ₚ ck_fp c :: cand) by apply insert_sorted_perm.
  assert (Hss : StronglySorted (cmp_le g_fingerprint_cmp) cs) by (by eapply insert_sorted_sorted; [apply fp_cmp_ok|..]).
  assert (Hlcs : zlen cs = 1 + zlen cand) by (unfold zlen; rewrite Hcs; cbn; lia).
  assert (Hsp : cs ++ rest ≡ₚ all ++ [ck_fp c]).
  { rewrite Hcs, <- Hperm. cbn. apply Permutation_cons_append. }
  destruct (Z.ltb_spec (zlen cand) num) as [Hroom|Hno].
  - step. rewrite (proj2 (Z.ltb_ge _ _)) by lia. exists cs. split; [done|]. split_and!; [done|done|].
    exists rest. assert (rest = []) as -> by (destruct rest; [done|]; specialize (Hfull ltac:(done)); lia).
    split_and!; [done|lia|done|]. intros ? ? _ ?%elem_of_nil. done.
  - destruct (exists_last (l := cand)) as (cand0 & l & Hcl).
    { intros ->. rewrite zlen_nil in Hno. lia. }
    rewrite Hcl, last_snoc. cbn [deref]. step. rewrite <- Hcl.
    assert (Hlast : forall x, x ∈ cand -> memcmp x l <= 0) by (intros x Hx; rewrite Hcl in *; by eapply sorted_last).
    destruct (Z.ltb_spec (memcmp (ck_fp c) l) 0) as [Hlt|Hge].
    + step. fold cs. rewrite (proj2 (Z.ltb_lt _ _)) by lia.
      destruct (exists_last (l := cs)) as (cs0 & m & Hcm).
      { intros E. rewrite E, zlen_nil in Hlcs. pose proof (zlen_nonneg cand). lia. }
      rewrite Hcm, removelast_app, app_nil_r by done. exists cs0. split; [done|].
      rewrite Hcm in Hss, Hsp, Hlcs. split_and!; [by eapply sorted_app_l|done|].
      exists (m :: rest). rewrite zlen_app in Hlcs. change (zlen [m]) with 1 in Hlcs. split_and!; [by rewrite <- Hsp, <- app_assoc|lia|lia|].
      assert (Hmax : forall a, a ∈ cs0 -> memcmp a m <= 0) by (intros a Ha; eapply sorted_last; [exact Hss|set_solver]).
      intros a b Ha [->|Hb]%elem_of_cons; [by apply Hmax|].
      assert (Hacs : a ∈ cs) by (rewrite Hcm; set_solver). rewrite Hcs in Hacs.
      apply elem_of_cons in Hacs as [->|Hac]; [|by apply Hle].
      assert (Hlb : memcmp l b <= 0) by (apply Hle; [rewrite Hcl; set_solver|done]).
      assert (Hl : fp_wf l) by (rewrite Forall_forall in Hcand; apply Hcand; rewrite Hcl; set_solver).
      assert (Hbw : fp_wf b) by (rewrite Forall_forall in Hwf; apply Hwf; rewrite <- Hperm; set_solver).
      destruct Hc as [Hc _], Hl as [Hl _], Hbw as [Hbw _]. unfold zlen in *.
      apply (memcmp_trans _ l b); lia.
    + step. exists cand. split; [done|]. split_and!; [done|done|]. exists (rest ++ [ck_fp c]).
      split_and!; [by rewrite app_assoc, Hperm|lia|lia|].
      intros a b Ha [Hb|Hb%list_elem_of_singleton]%elem_of_app; [by apply Hle|]. subst b.
      assert (Hl : fp_wf l) by (rewrite Forall_forall in Hcand; apply Hcand; rewrite Hcl; set_solver).
      assert (Ha' : fp_wf a) by (rewrite Forall_forall in Hcand; by apply Hcand).
      pose proof (Hlast a Ha). destruct Hc as [Hc _], Hl as [Hl _], Ha' as [Ha' _]. unfold zlen in *.
      apply (memcmp_trans a l); try lia. rewrite memcmp_antisym. lia.
Qed.

Lemma smallest_loop num chunks : forall all cand,
  1 <= num -> Forall (fun c => fp_wf (ck_fp c)) chunks -> smallest num all cand ->
  exists cand', foldM (min_candidate num) cand chunks = Ok cand' /\ smallest num (all ++ normal_fps chunks) cand'.
Proof.
  induction chunks as [|c chunks IH]; intros all cand Hn Hfp Hs; cbn [foldM].
  - exists cand. unfold normal_fps. cbn. by rewrite app_nil_r.
  - apply Forall_cons in Hfp as [Hc Hfp]. destruct (smallest_step num all cand c Hn Hc Hs) as (cand1 & -> & H1). step.
    destruct (IH _ _ Hn Hfp H1) as (cand' & Hr & H'). exists cand'. split; [done|].
    rewrite <- app_assoc in H'. unfold normal_fps in *. rewrite filter_cons.
    destruct (is_file_flag c); [by rewrite decide_False|by rewrite decide_True].
Qed.

Lemma feature_of_wf fp : fp_wf fp -> feature_of fp = Ok (ztake (index_key_size cfg) fp).
Proof.
  intros [Hl _]. unfold feature_of. apply read_bytes_Ok. rewrite zdrop_0. split_and!; try done; lia.
Qed.

Lemma add_feature_ok F fp : fp_wf fp -> add_feature F fp = Ok ({[ztake (index_key_size cfg) fp]} ∪ F).
Proof. intros. unfold add_feature. rewrite feature_of_wf by done. by step. Qed.

Lemma add_features fps : forall F, Forall fp_wf fps ->
  foldM add_feature F fps = Ok (list_to_set (map (ztake (index_key_size cfg)) fps) ∪ F).
Proof.
  induction fps as [|fp fps IH]; intros F Hwf; cbn [foldM map list_to_set].
  - f_equal. set_solver.
  - apply Forall_cons in Hwf as [Hfp Hwf]. rewrite add_feature_ok by done. step.
    rewrite IH by done. f_equal. set_solver.
Qed.

Lemma feature_num_pos n : 0 <= sampling_ratio cfg -> 1 <= feature_num n.
Proof.
  intros Hr. unfold feature_num. destruct (Z.eqb_spec (sampling_ratio cfg) 0); cbn; [done|].
  destruct (Z.ltb_spec (sampling_ratio cfg) n); [|done].
  assert (1 <= Z.quot n (sampling_ratio cfg)) by (apply Z.quot_le_lower_bound; lia).
  destruct (_ <? _); lia.
Qed.

(** The number of features is the number of chunks divided by the ratio,
    rounded to the nearest integer. *)
Lemma feature_num_rounds n :
  0 < sampling_ratio cfg < n -> 2 * Z.abs (n - feature_num n * sampling_ratio cfg) <= sampling_ratio cfg.
Proof.
  intros Hr. unfold feature_num. rewrite (proj2 (Z.eqb_neq _ _)) by lia.
  rewrite (proj2 (Z.ltb_lt (sampling_ratio cfg) n)) by lia. cbn [negb andb].
  pose proof (Z.quot_rem n (sampling_ratio cfg) ltac:(lia)) as H.
  pose proof (Z.rem_bound_pos n (sampling_ratio cfg) ltac:(lia) ltac:(lia)) as Hb.
  destruct (Z.ltb_spec (sampling_ratio cfg) (Z.rem n (sampling_ratio cfg) * 2)); nia.
Qed.

Lemma union_not_empty (f : list Z) (F : gset (list Z)) : {[f]} ∪ F <> ∅.
Proof. set_solver. Qed.

Lemma index_sampling_min_spec chunks chunk_num :
  0 <= sampling_ratio cfg -> Forall (fun c => fp_wf (ck_fp c)) chunks ->
  let n := if chunk_num =? 0 then zlen chunks else chunk_num in
  exists cand F, smallest (feature_num n) (normal_fps chunks) cand /\
    index_sampling_min chunks chunk_num = Ok F /\ F <> ∅ /\
    F = (if decide (cand = []) then {[replicate (Z.to_nat (index_key_size cfg)) 255]}
         else list_to_set (map (ztake (index_key_size cfg)) cand)).
Proof.
  intros Hr Hfp n.
  assert (H0 : smallest (feature_num n) [] []).
  { split_and!; [constructor|done|]. exists []. pose proof (feature_num_pos n Hr).
    split_and!; [done|rewrite zlen_nil; lia|done|]. intros ? ? ?%elem_of_nil. done. }
  destruct (smallest_loop (feature_num n) chunks [] [] (feature_num_pos n Hr) Hfp H0) as (cand & Hl & Hs).
  cbn [app] in Hs. pose proof Hs as (_ & Hwf & rest & Hperm & _).
  assert (Hcand : Forall fp_wf cand) by (rewrite <- Hperm in Hwf; by apply Forall_app in Hwf as [? _]).
  unfold index_sampling_min. fold n. rewrite Hl. step. rewrite add_features by done. step. rewrite union_empty_r_L.
  exists cand. destruct cand as [|fp cand].
  - eexists. split; [done|]. rewrite bool_decide_true by done. split_and!; [done|set_solver|]. by rewrite decide_True.
  - eexists. split; [done|]. cbn [map list_to_set]. rewrite bool_decide_false by apply union_not_empty.
    split_and!; [done|apply union_not_empty|]. by rewrite decide_False.
Qed.

(** min-sampling selects the smallest fingerprints. Whatever order the
    chunks come in, the features are the prefixes of the [feature_num] smallest
    ones of the segment, and [feature_num] is the rounded quotient by the ratio;
    the set is never empty. *)
Theorem sampling_min_smallest chunks chunk_num :
  0 <= sampling_ratio cfg -> Forall (fun c => fp_wf (ck_fp c)) chunks ->
  let n := if chunk_num =? 0 then zlen chunks else chunk_num in
  (0 < sampling_ratio cfg < n -> 2 * Z.abs (n - feature_num n * sampling_ratio cfg) <= sampling_ratio cfg) /\
  exists cand F, smallest (feature_num n) (normal_fps chunks) cand /\
    index_sampling_min chunks chunk_num = Ok F /\ F <> ∅ /\
    F = (if decide (cand = []) then {[replicate (Z.to_nat (index_key_size cfg)) 255]}
         else list_to_set (map (ztake (index_key_size cfg)) cand)).
Proof. intros Hr Hfp n. split; [apply feature_num_rounds|by apply index_sampling_min_spec]. Qed.

(** ** Random and uniform sampling *)

Definition sampled (c : chunk) : bool :=
  negb (is_file_flag c) && (match head_rem c (sampling_ratio cfg) with Ok r => r =? 0 | Err _ => false end).

Lemma random_step F c :
  sampling_ratio cfg <> 0 -> fp_wf (ck_fp c) ->
  random_feature F c = Ok (if sampled c then {[ztake (index_key_size cfg) (ck_fp c)]} ∪ F else F).
Proof.
  intros Hr Hc. unfold random_feature, sampled. destruct (is_file_flag c); [done|].
  destruct (head_rem_total c _ Hc Hr) as [r ->]. step. destruct (r =? 0); [|done].
  rewrite feature_of_wf by done. step. cbn. case_bool_decide; [|done]. f_equal. set_solver.
Qed.

Lemma random_loop chunks : forall F,
  sampling_ratio cfg <> 0 -> Forall (fun c => fp_wf (ck_fp c)) chunks ->
  foldM random_feature F chunks =
  Ok (list_to_set (map (ztake (index_key_size cfg)) (map ck_fp (filter (fun c => sampled c = true) chunks))) ∪ F).
Proof.
  induction chunks as [|c chunks IH]; intros F Hr Hfp; cbn [foldM].
  - f_equal. cbn. set_solver.
  - apply Forall_cons in Hfp as [Hc Hfp]. rewrite filter_cons, random_step by done. step. rewrite IH by done.
    destruct (sampled c); [rewrite decide_True by done|by rewrite decide_False].
    cbn [map list_to_set]. f_equal. set_solver.
Qed.

(** The chunks at the positions divisible by the ratio. *)
Definition every (cs : list chunk) (start : Z) : list chunk :=
  (filter (fun p => Z.rem p.1 (sampling_ratio cfg) = 0) (zip (seqZ start (zlen cs)) cs)).*2.

Lemma uniform_step F count c :
  fp_wf (ck_fp c) ->
  uniform_feature (F, count) c =
  Ok (if decide (Z.rem count (sampling_ratio cfg) = 0) then {[ztake (index_key_size cfg) (ck_fp c)]} ∪ F else F, count + 1).
Proof.
  intros Hc. unfold uniform_feature. destruct (Z.eqb_spec (Z.rem count (sampling_ratio cfg)) 0).
  - rewrite decide_True, feature_of_wf by done. step. step. do 2 f_equal. case_bool_decide; [|done]. set_solver.
  - rewrite decide_False by done. by step.
Qed.

Lemma uniform_loop chunks : forall F start,
  Forall (fun c => fp_wf (ck_fp c)) chunks ->
  foldM uniform_feature (F, start) chunks =
  Ok (list_to_set (map (ztake (index_key_size cfg)) (map ck_fp (every chunks start))) ∪ F, start + zlen chunks).
Proof.
  induction chunks as [|c chunks IH]; intros F start Hfp; cbn [foldM].
  - f_equal. unfold every. cbn. rewrite (zlen_nil (A := chunk)), Z.add_0_r. f_equal. set_solver.
  - apply Forall_cons in Hfp as [Hc Hfp]. rewrite uniform_step by done. step.
    assert (He : every (c :: chunks) start =
      (if decide (Z.rem start (sampling_ratio cfg) = 0) then [c] else []) ++ every chunks (start + 1)).
    { unfold every. rewrite zlen_cons, seqZ_cons by (pose proof (zlen_nonneg chunks); lia).
      replace (Z.pred (1 + zlen chunks)) with (zlen chunks) by lia. rewrite <- Z.add_1_r. cbn [zip_with].
      rewrite filter_cons. cbn [fst]. by destruct (decide _). }
    rewrite He, zlen_cons. replace (start + (1 + zlen chunks)) with (start + 1 + zlen chunks) by lia.
    rewrite IH by done. destruct (decide _); cbn [app map list_to_set]; [|done]. do 2 f_equal. set_solver.
Qed.

Lemma index_sampling_random_spec chunks chunk_num :
  sampling_ratio cfg <> 0 -> Forall (fun c => fp_wf (ck_fp c)) chunks ->
  exists F, index_sampling_random chunks chunk_num = Ok F /\ F <> ∅ /\
     let picked := map ck_fp (filter (fun c => sampled c = true) chunks) in
     F = (if decide (picked = []) then {[replicate (Z.to_nat (index_key_size cfg)) 0]}
          else list_to_set (map (ztake (index_key_size cfg)) picked)).
Proof.
  intros Hr Hfp. unfold index_sampling_random. rewrite (proj2 (Z.eqb_neq _ _) Hr). cbn [negb c_assert].
  step. rewrite random_loop by done. step. rewrite union_empty_r_L.
  destruct (map ck_fp _) as [|fp fps]; cbn [map list_to_set].
  - rewrite bool_decide_true by done. eexists. split_and!; [done|set_solver|]. by rewrite decide_True.
  - rewrite bool_decide_false by apply union_not_empty. eexists. split_and!; [done|apply union_not_empty|]. by rewrite decide_False.
Qed.

Lemma index_sampling_uniform_spec chunks chunk_num :
  sampling_ratio cfg <> 0 -> Forall (fun c => fp_wf (ck_fp c)) chunks -> (chunks = [] -> chunk_num = 0) ->
  exists F, index_sampling_uniform chunks chunk_num = Ok F /\ F <> ∅ /\
     F = (if decide (chunks = []) then {[replicate (Z.to_nat (index_key_size cfg)) 0]}
          else list_to_set (map (ztake (index_key_size cfg)) (map ck_fp (every chunks 0)))).
Proof.
  intros Hr Hfp Hnum. unfold index_sampling_uniform. rewrite (proj2 (Z.eqb_neq _ _) Hr). cbn [negb c_assert].
  step. rewrite uniform_loop by done. step. rewrite union_empty_r_L. destruct chunks as [|c chunks].
  - rewrite (Hnum eq_refl). cbn. rewrite bool_decide_true by done. eexists. split_and!; [done|set_solver|done].
  - rewrite decide_False by done. assert (Hne : (list_to_set (map (ztake (index_key_size cfg)) (map ck_fp (every (c :: chunks) 0))) : gset (list Z)) <> ∅).
    { unfold every. rewrite zlen_cons, seqZ_cons by (pose proof (zlen_nonneg chunks); lia).
      cbn [zip_with]. rewrite filter_cons_True by apply Z.rem_0_l, Hr. cbn. apply union_not_empty. }
    eexists. split; [|split; [|reflexivity]]; [by rewrite bool_decide_false|done].
Qed.

(** Random and uniform sampling select exactly the chunks they mean to:
    those whose fingerprint tail is divisible by the ratio, and every ratio-th
    one. The set of features is never empty, so that a segment can always be
    looked up: uniform sampling takes the first chunk. *)
Theorem sampling_random_uniform chunks chunk_num :
  sampling_ratio cfg <> 0 -> Forall (fun c => fp_wf (ck_fp c)) chunks ->
  (chunks = [] -> chunk_num = 0) ->
  (exists F, index_sampling_random chunks chunk_num = Ok F /\ F <> ∅ /\
     let picked := map ck_fp (filter (fun c => sampled c = true) chunks) in
     F = (if decide (picked = []) then {[replicate (Z.to_nat (index_key_size cfg)) 0]}
          else list_to_set (map (ztake (index_key_size cfg)) picked))) /\
  (exists F, index_sampling_uniform chunks chunk_num = Ok F /\ F <> ∅ /\
     F = (if decide (chunks = []) then {[replicate (Z.to_nat (index_key_size cfg)) 0]}
          else list_to_set (map (ztake (index_key_size cfg)) (map ck_fp (every chunks 0))))).
Proof. intros Hr Hfp Hnum. split; [by apply index_sampling_random_spec|by apply index_sampling_uniform_spec]. Qed.

(** ** Every method succeeds *)

Context `{SAO : !SeqSortOk (fingerprint * fingerprint)}.

(** The window of the optimised method always has an entry to take. *)
Definition anchors_ok (s : list (fingerprint * fingerprint) * list fingerprint * nat) : Prop :=
  let '(anchors, prefix, _) := s in
  length prefix = S off /\ Forall (fun fp => zlen fp = fp_size) prefix /\ Forall (fun a => zlen a.2 = fp_size) anchors.

Lemma Forall_removelast {A} (P : A -> Prop) l : Forall P l -> Forall P (removelast l).
Proof.
  intros H. destruct (decide (l = [])) as [->|Hne]; [done|]. destruct (exists_last Hne) as (l0 & x & ->).
  rewrite removelast_last. by apply Forall_app in H as [? _].
Qed.

Lemma anchor_candidate_ok num s c : 1 <= num -> fp_wf (ck_fp c) -> anchors_ok s ->
  exists s', anchor_candidate num s c = Ok s' /\ anchors_ok s'.
Proof.
  intros Hn [Hl _]. destruct s as [[anchors prefix] count]. intros (Hp & Hf & Ha). unfold anchor_candidate.
  destruct (is_file_flag c); [by eexists|]. set (prefix' := ck_fp c :: take off prefix).
  assert (Hp' : length prefix' = S off /\ Forall (fun fp => zlen fp = fp_size) prefix').
  { unfold prefix'. cbn [length]. rewrite length_take, Hp. split; [unfold off; lia|]. constructor; [done|]. by apply Forall_take. }
  assert (Ht : exists b, (if zlen anchors <? num then Ok true else l ← deref (last anchors); Ok (memcmp (ck_fp c) l.1 <? 0)) = Ok b).
  { destruct (Z.ltb_spec (zlen anchors) num); [by eexists|]. destruct (last anchors) as [l|] eqn:E; [eexists; cbn; reflexivity|].
    apply last_None in E as ->. rewrite zlen_nil in *. lia. }
  destruct Ht as [b ->]. step. destruct b; [|step; eexists; split; [reflexivity|by destruct Hp'; split_and!]].
  assert (Hc : exists fp : fingerprint, prefix' !! (if Nat.leb off count then off else count) = Some fp /\ zlen fp = fp_size).
  { destruct Hp' as [Hp' Hf']. destruct (lookup_lt_is_Some_2 prefix' (if Nat.leb off count then off else count)) as [fp E].
    - destruct (Nat.leb_spec off count); lia.
    - exists fp. split; [done|]. by apply (Forall_lookup_1 _ _ _ _ Hf' E). }
  destruct Hc as (fp & -> & Hfp). step. step. eexists. split; [reflexivity|]. destruct Hp'. split_and!; [done|done|].
  assert (F : Forall (fun a : fingerprint * fingerprint => zlen a.2 = fp_size) (insert_sorted g_anchor_cmp (ck_fp c, fp) anchors)).
  { rewrite insert_sorted_perm. by constructor. }
  destruct (num <? _); [by apply Forall_removelast|done].
Qed.

Lemma add_features_len fps : forall F, Forall (fun fp => zlen fp = fp_size) fps ->
  foldM add_feature F fps = Ok (list_to_set (map (ztake (index_key_size cfg)) fps) ∪ F).
Proof.
  induction fps as [|fp fps IH]; intros F Hwf; cbn [foldM map list_to_set]; [f_equal; set_solver|].
  apply Forall_cons in Hwf as [Hl Hwf].
  assert (feature_of fp = Ok (ztake (index_key_size cfg) fp)) as Hfeat
    by (unfold feature_of; apply read_bytes_Ok; rewrite zdrop_0; split_and!; try done; lia).
  assert (add_feature F fp = Ok ({[ztake (index_key_size cfg) fp]} ∪ F)) as -> by (unfold add_feature; rewrite Hfeat; by step).
  step. rewrite IH by done. f_equal. set_solver.
Qed.

Definition features_wf (F : gset (list Z)) : Prop := forall k, k ∈ F -> zlen k = index_key_size cfg.

Lemma prefixes_wf fps : Forall (fun fp => zlen fp = fp_size) fps -> features_wf (list_to_set (map (ztake (index_key_size cfg)) fps)).
Proof.
  intros H k Hk. apply elem_of_list_to_set, list_elem_of_fmap in Hk as (fp & -> & Hfp). rewrite Forall_forall in H.
  apply zlen_ztake. rewrite (H fp Hfp). lia.
Qed.

Lemma default_wf b : features_wf {[replicate (Z.to_nat (index_key_size cfg)) b]}.
Proof. intros k ->%elem_of_singleton. unfold zlen. rewrite length_replicate. lia. Qed.

Lemma index_sampling_optimized_min_ok chunks chunk_num : 0 <= sampling_ratio cfg -> Forall (fun c => fp_wf (ck_fp c)) chunks ->
  exists F, index_sampling_optimized_min chunks chunk_num = Ok F /\ features_wf F.
Proof.
  intros Hr Hfp. unfold index_sampling_optimized_min. set (n := if _ : bool then _ else _).
  destruct (foldM_run (anchor_candidate (feature_num n)) (fun s _ => anchors_ok s) (fun c => fp_wf (ck_fp c)) chunks
    ([], replicate (off + 1) (replicate 20 255), O)) as ([[anchors prefix] count] & -> & _ & _ & Ha).
  - intros s _ c Hs Hc. by apply anchor_candidate_ok; [apply feature_num_pos|..].
  - split_and!; [done| |done]. by repeat constructor.
  - done.
  - step. assert (Forall (fun fp => zlen fp = fp_size) (map snd anchors)) as Hs by (by apply Forall_map).
    rewrite add_features_len by done. step. rewrite union_empty_r_L. case_bool_decide; eexists; (split; [reflexivity|]);
      [apply default_wf|by apply prefixes_wf].
Qed.

Lemma picked_wf (P : chunk -> Prop) `{!forall c, Decision (P c)} chunks : Forall (fun c => fp_wf (ck_fp c)) chunks ->
  Forall (fun fp => zlen fp = fp_size) (map ck_fp (filter P chunks)).
Proof.
  intros Hwf. apply Forall_forall. intros fp (c & -> & Hc)%list_elem_of_fmap. apply list_elem_of_filter in Hc as [_ Hc].
  rewrite Forall_forall in Hwf. by destruct (Hwf c Hc).
Qed.

(** The methods that divide by the ratio need one. *)
Definition ratio_ok : Prop := 0 <= sampling_ratio cfg /\
  (sampling_ratio cfg = 0 -> sampling_kind cfg <> INDEX_SAMPLING_RANDOM /\ sampling_kind cfg <> INDEX_SAMPLING_UNIFORM).

(** Whatever the method, sampling gives keys for the key-value store. *)
Lemma sampling_total sampling chunks chunk_num : init_sampling_method = Ok sampling -> ratio_ok ->
  Forall (fun c => fp_wf (ck_fp c)) chunks -> (chunks = [] -> chunk_num = 0) ->
  exists F, sampling chunks chunk_num = Ok F /\ features_wf F.
Proof.
  unfold init_sampling_method. intros Hi [Hr Hr0] Hfp Hnum.
  destruct (Z.eqb_spec (sampling_kind cfg) INDEX_SAMPLING_RANDOM); [injection Hi as <-|].
  { destruct (index_sampling_random_spec chunks chunk_num) as (F & E & _ & HF); [tauto|done|]. exists F. split; [done|]. rewrite HF.
    destruct (decide _); [apply default_wf|by apply prefixes_wf, picked_wf]. }
  destruct (sampling_kind cfg =? INDEX_SAMPLING_OPTIMIZED_MIN); [injection Hi as <-; apply index_sampling_optimized_min_ok; [lia|done]|].
  destruct (sampling_kind cfg =? INDEX_SAMPLING_MIN); [injection Hi as <-|].
  { destruct (index_sampling_min_spec chunks chunk_num) as (cand & F & Hs & E & _ & HF); [lia|done|]. exists F. split; [done|]. rewrite HF.
    destruct (decide _); [apply default_wf|]. apply prefixes_wf. destruct Hs as (_ & Hwf & rest & Hp & _). rewrite <- Hp in Hwf.
    apply Forall_app in Hwf as [Hwf _]. eapply Forall_impl; [exact Hwf|by intros ? []]. }
  destruct (Z.eqb_spec (sampling_kind cfg) INDEX_SAMPLING_UNIFORM); [injection Hi as <-|done].
  destruct (index_sampling_uniform_spec chunks chunk_num) as (F & E & _ & HF); [tauto|done..|]. exists F. split; [done|]. rewrite HF.
  destruct (decide _); [apply default_wf|]. apply prefixes_wf. apply Forall_forall. intros fp (c & -> & Hc)%list_elem_of_fmap.
  unfold every in Hc. apply list_elem_of_fmap in Hc as ([i c'] & -> & Hc). apply list_elem_of_filter in Hc as [_ Hc].
  apply elem_of_zip_r in Hc. rewrite Forall_forall in Hfp. by destruct (Hfp c' Hc).
Qed.

(** Exact deduplication samples every chunk. *)
Lemma sampling_every chunks chunk_num : sampling_kind cfg = INDEX_SAMPLING_UNIFORM -> sampling_ratio cfg = 1 ->
  index_key_size cfg = fp_size -> Forall (fun c => fp_wf (ck_fp c)) chunks -> chunks <> [] ->
  exists sampling, init_sampling_method = Ok sampling /\ sampling chunks chunk_num = Ok (list_to_set (map ck_fp chunks)).
Proof.
  intros Hk Hr Hs Hfp Hne. exists index_sampling_uniform. split; [by unfold init_sampling_method; rewrite Hk|].
  destruct (index_sampling_uniform_spec chunks chunk_num) as (F & -> & _ & HF); [lia|done..|].
  rewrite decide_False in HF by done. f_equal. rewrite HF. f_equal.
  assert (He : every chunks 0 = chunks).
  { unfold every. rewrite Hr.
    enough (G : forall cs i, (filter (fun p : Z * chunk => Z.rem p.1 1 = 0) (zip (seqZ i (zlen cs)) cs)).*2 = cs) by apply G.
    induction cs as [|c cs IH]; intros i; [done|].
    rewrite zlen_cons, seqZ_cons by (pose proof (zlen_nonneg cs); lia). replace (Z.pred (1 + zlen cs)) with (zlen cs) by lia.
    cbn [zip_with]. rewrite filter_cons_True by apply Z.rem_1_r. cbn. f_equal. rewrite <- Z.add_1_r. apply IH. }
  rewrite He. rewrite <- (map_id (map ck_fp chunks)) at 2. apply map_ext_in. intros fp Hin. apply ztake_ge.
  apply list_elem_of_In, list_elem_of_fmap in Hin as (c & -> & Hc). rewrite Forall_forall in Hfp. destruct (Hfp c Hc) as [-> _]. lia.
Qed.
End Sampling.

Section Demo.
#[local] Existing Instance std_seq_sort.
#[local] Existing Instance std_seq_sort_ok.

Lemma sampling_min_smallest_witness :
  exists F, index_sampling_min (mk_sample_config 2 2 4)
      [seg_demo_chunk 1 0; seg_demo_chunk 0 9; seg_demo_chunk 0 4; seg_demo_chunk 0 7; seg_demo_chunk 0 5] 4 = Ok F /\ F <> ∅.
Proof.
  destruct (sampling_min_smallest (mk_sample_config 2 2 4) ltac:(done)
    [seg_demo_chunk 1 0; seg_demo_chunk 0 9; seg_demo_chunk 0 4; seg_demo_chunk 0 7; seg_demo_chunk 0 5] 4) as (_ & cand & F & _ & H & Hne & _).
  - done.
  - decide_it.
  - exists F. split; [exact H|exact Hne].
Defined.

Lemma sampling_random_uniform_witness :
  exists F, index_sampling_uniform (mk_sample_config 3 2 4) [seg_demo_chunk 0 9; seg_demo_chunk 0 4; seg_demo_chunk 0 7] 3 = Ok F /\
    F = list_to_set [[9; 9; 9; 9]; [7; 7; 7; 7]].
Proof.
  destruct (sampling_random_uniform (mk_sample_config 3 2 4) ltac:(done)
    [seg_demo_chunk 0 9; seg_demo_chunk 0 4; seg_demo_chunk 0 7] 3) as (_ & F & H & _ & HF).
  - done.
  - decide_it.
  - done.
  - exists F. split; [exact H|]. rewrite HF. reflexivity.
Defined.
End Demo.
