(* ===== verification/KvStore.v ===== *)
(** The key-value store of the fingerprint index: [destor/src/index/kvstore.c]
    and [kvstore_htable.c].

    A key is [index_key_size] bytes; its value is an array of
    [index_value_length] ids of segments or containers, the latest first. The
    dump is a file. [kv_config] are the two fields of [destor]. *)

From S2P Require Import Prelude Serial CFile Glib Destor.

Record kv_config := mk_kv_config { kv_key_size : Z; index_value_length : Z }.

Abbreviation key := (list Z).
Abbreviation kvstore := (gmap key (list Z)).

Section KvStore.
Context `{HI : !HashIter key (list Z)} (cfg : kv_config).
Implicit Types (ht : kvstore).

(** The [index_key_size] bytes a [char*] key points to. *)
Definition get_key (k : list Z) : res key := read_bytes k 0 (kv_key_size cfg).

Definition new_kvpair : list Z := replicate (Z.to_nat (index_value_length cfg)) TEMPORARY_ID.

Definition new_kvpair_full (k : list Z) : res (key * list Z) :=
  k ← get_key k; Ok (k, new_kvpair).

(** [memmove(&value[1], value, (n - 1) * 8); value[0] = id] *)
Definition kv_update (value : list Z) (id : Z) : res (list Z) :=
  if index_value_length cfg <=? 0 then Err EBounds
  else Ok (id :: ztake (index_value_length cfg - 1) value).

Definition kvstore_htable_lookup ht (k : list Z) : res (option (list Z)) :=
  k ← get_key k; Ok (ht !! k).

(** The pair of a key, a new one if it has none. *)
Definition find_or_new ht (k : key) : res (list Z) :=
  match ht !! k with Some v => Ok v | None => '(_, v) ← new_kvpair_full k; Ok v end.

Definition kvstore_htable_update ht (k : list Z) (id : Z) : res kvstore :=
  k ← get_key k;
  value ← find_or_new ht k;
  value ← kv_update value id;
  Ok (<[k := value]> ht).

(** The loop from index [i] on; [n] is [index_value_length]. *)
Fixpoint delete_id (fuel : nat) (i n id : Z) (value : list Z) : res (list Z) :=
  match fuel with
  | O => Ok value
  | S fuel =>
      v ← (match value !! Z.to_nat i with Some v => Ok v | None => Err EBounds end);
      if v =? id then
        let value := <[Z.to_nat i := TEMPORARY_ID]> value in
        if i =? n - 1 then Ok value else
        next ← (match value !! Z.to_nat (i + 1) with Some v => Ok v | None => Err EBounds end);
        _ ← c_assert (next =? TEMPORARY_ID);
        if (i <? n - 1) && negb (next =? TEMPORARY_ID)
        then Ok (ztake i value ++ ztake (n - i - 1) (zdrop (i + 1) value) ++ zdrop (n - 1) value)
        else Ok value
      else delete_id fuel (i + 1) n id value
  end.

Definition kvstore_htable_delete ht (k : list Z) (id : Z) : res kvstore :=
  k ← get_key k;
  match ht !! k with
  | None => Ok ht
  | Some value =>
      value ← delete_id (Z.to_nat (index_value_length cfg)) 0 (index_value_length cfg) id value;
      first ← (match head value with Some v => Ok v | None => Err EBounds end);
      Ok (if first =? TEMPORARY_ID then delete k ht else <[k := value]> ht)
  end.

(** ** The dump *)

(** One [fwrite] per item: the key, the length, the ids. *)
Definition write_kv (f : file) (kv : key * list Z) : file :=
  let f := fwrite f kv.1 in
  let f := fwrite f (le_bytes 4 (index_value_length cfg)) in
  fold_left (fun f id => fwrite f (le_bytes 8 id)) kv.2 f.

Definition close_kvstore_htable ht : file :=
  let f := fwrite empty_file (le_bytes 4 (Z.of_nat (size ht))) in
  fold_left write_kv (hash_iter ht) f.

(** [index_memory_footprint] after closing. *)
Definition kv_footprint ht : Z :=
  s32 (Z.of_nat (size ht) * (kv_key_size cfg + 8 * index_value_length cfg + 4)).

Fixpoint read_ids (n : nat) (f : file) (value : list Z) (i : nat) : list Z * file :=
  match n with
  | O => (value, f)
  | S n =>
      let '(_, b, f) := fread_obj f (le_bytes 8 (default 0 (value !! i))) in
      read_ids n f (<[i := s64 (le_val b)]> value) (S i)
  end.

Definition read_kv (f : file) : res (key * list Z * file) :=
  let '(_, k, f) := fread_obj f (fresh_bytes (kv_key_size cfg)) in
  let '(_, n, f) := fread_obj f (fresh_bytes 4) in
  let id_num := s32 (le_val n) in
  _ ← c_assert (id_num <=? index_value_length cfg);
  let '(value, f) := read_ids (Z.to_nat id_num) f new_kvpair 0 in
  Ok (k, value, f).

Fixpoint read_kvs (key_num : nat) (f : file) ht : res kvstore :=
  match key_num with
  | O => Ok ht
  | S key_num => '(k, value, f) ← read_kv f; read_kvs key_num f (<[k := value]> ht)
  end.

(** [dump] are the contents of [index/htable] if it exists. *)
Definition init_kvstore_htable (dump : option (list Z)) : res kvstore :=
  match dump with
  | None => Ok ∅
  | Some data =>
      let '(_, n, f) := fread_obj (mk_file data 0) (fresh_bytes 4) in
      read_kvs (Z.to_nat (s32 (le_val n))) f ∅
  end.

Definition INDEX_KEY_VALUE_HTABLE : Z := 0.

(** [kvstore.c]: the store is chosen once. *)
Definition init_kvstore (index_key_value_store : Z) (dump : option (list Z)) : res kvstore :=
  if index_key_value_store =? INDEX_KEY_VALUE_HTABLE then init_kvstore_htable dump else Err (EExit 1).

(** ** What the store means: a bounded queue of ids per key *)

Context (length_pos : 0 < index_value_length cfg) (key_pos : 0 <= kv_key_size cfg).

Definition pad (l : list Z) : list Z := l ++ replicate (Z.to_nat (index_value_length cfg) - length l) TEMPORARY_ID.

(** The ids of a key, latest first. *)
Definition queue_ok (l : list Z) : Prop :=
  l <> [] /\ NoDup l /\ TEMPORARY_ID ∉ l /\ (length l <= Z.to_nat (index_value_length cfg))%nat.

Definition represents ht (am : gmap key (list Z)) : Prop :=
  (forall k, ht !! k = pad <$> am !! k) /\ (forall k l, am !! k = Some l -> queue_ok l).

Inductive kv_op := KvUpdate (k : key) (id : Z) | KvDelete (k : key) (id : Z).

(** An update pushes the id and drops what does not fit. A deletion takes the
    oldest id away; of an id that is not there it does nothing. *)
Definition kv_spec (am : gmap key (list Z)) (op : kv_op) : gmap key (list Z) :=
  match op with
  | KvUpdate k id => <[k := take (Z.to_nat (index_value_length cfg)) (id :: default [] (am !! k))]> am
  | KvDelete k id =>
      match am !! k with
      | None => am
      | Some l => if decide (id ∈ l) then
                    if decide (removelast l = []) then delete k am else <[k := removelast l]> am
                  else am
      end
  end.

(** The users' protocol: ids are fresh when added, and deleted oldest first. *)
Definition kv_allowed (am : gmap key (list Z)) (op : kv_op) : Prop :=
  match op with
  | KvUpdate k id => zlen k = kv_key_size cfg /\ id <> TEMPORARY_ID /\ id ∉ default [] (am !! k)
  | KvDelete k id => zlen k = kv_key_size cfg /\ id <> TEMPORARY_ID /\
      forall l, am !! k = Some l -> id ∈ l -> last l = Some id
  end.

#[export] Instance kv_allowed_dec am op : Decision (kv_allowed am op).
Proof.
  destruct op as [k id|k id]; cbn; [apply _|].
  destruct (am !! k) as [l|] eqn:E.
  - destruct (decide (zlen k = kv_key_size cfg /\ id <> TEMPORARY_ID /\ (id ∈ l -> last l = Some id))) as [H|H].
    + left. naive_solver.
    + right. intros (H1 & H2 & H3). apply H. split_and!; [done|done|]. by apply H3.
  - destruct (decide (zlen k = kv_key_size cfg /\ id <> TEMPORARY_ID)) as [H|H]; [left|right]; naive_solver.
Defined.

Definition kv_run ht (op : kv_op) : res kvstore :=
  match op with
  | KvUpdate k id => kvstore_htable_update ht k id
  | KvDelete k id => kvstore_htable_delete ht k id
  end.

Lemma get_key_ok (k : key) : zlen k = kv_key_size cfg -> get_key k = Ok k.
Proof.
  intros Hk. unfold get_key. apply read_bytes_Ok. rewrite zdrop_0, ztake_ge by lia. split_and!; [lia..|done].
Qed.

Lemma length_pad l : (length l <= Z.to_nat (index_value_length cfg))%nat -> length (pad l) = Z.to_nat (index_value_length cfg).
Proof. intros. unfold pad. rewrite length_app, length_replicate. lia. Qed.

Lemma pad_update id l :
  ztake (index_value_length cfg - 1) (pad l) =
    ztake (index_value_length cfg - 1) l ++ replicate (Z.to_nat (index_value_length cfg) - S (length l)) TEMPORARY_ID ->
  id :: ztake (index_value_length cfg - 1) (pad l) = pad (take (Z.to_nat (index_value_length cfg)) (id :: l)).
Proof.
  intros ->. replace (Z.to_nat (index_value_length cfg)) with (S (Z.to_nat (index_value_length cfg - 1))) by lia.
  unfold pad. cbn [take app]. f_equal. unfold ztake. f_equal. f_equal. cbn [length]. rewrite length_take. lia.
Qed.

Lemma ztake_pad l :
  ztake (index_value_length cfg - 1) (pad l) =
  ztake (index_value_length cfg - 1) l ++ replicate (Z.to_nat (index_value_length cfg) - S (length l)) TEMPORARY_ID.
Proof.
  unfold pad, ztake. rewrite take_app, take_replicate. f_equal. f_equal. lia.
Qed.

Lemma new_kvpair_pad : new_kvpair = pad [].
Proof. unfold new_kvpair, pad. cbn. f_equal. lia. Qed.

Lemma update_represents ht am k id :
  represents ht am -> kv_allowed am (KvUpdate k id) ->
  exists ht', kvstore_htable_update ht k id = Ok ht' /\ represents ht' (kv_spec am (KvUpdate k id)).
Proof.
  intros [Hr Hq] (Hk & Hid & Hfresh). unfold kvstore_htable_update. rewrite get_key_ok by done. step.
  assert (Hv : find_or_new ht k = Ok (pad (default [] (am !! k)))).
  { unfold find_or_new. rewrite Hr. destruct (am !! k); cbn; [done|]. unfold new_kvpair_full. rewrite get_key_ok by done. step. step.
    by rewrite new_kvpair_pad. }
  rewrite Hv. step. unfold kv_update. rewrite (proj2 (Z.leb_gt _ _)) by lia. step.
  eexists. split; [reflexivity|]. set (l := default [] (am !! k)) in *.
  rewrite pad_update by apply ztake_pad. split.
  - intros k'. cbn [kv_spec]. destruct (decide (k' = k)) as [->|Hne].
    + by rewrite !lookup_insert_eq.
    + by rewrite !lookup_insert_ne by done.
  - intros k' l'. cbn [kv_spec]. rewrite lookup_insert_Some. intros [[<- <-]|[_ ?]]; [|by apply (Hq k')].
    assert (Hl : NoDup l /\ TEMPORARY_ID ∉ l).
    { unfold l. destruct (am !! k) as [l0|] eqn:E; cbn; [by destruct (Hq _ _ E) as (_ & ? & ? & _)|].
      split; [constructor|set_solver]. }
    destruct Hl as [Hnd Ht]. assert (Hsub : forall x n, x ∈ take n (id :: l) -> x ∈ id :: l).
    { intros x n (i & Hi & _)%elem_of_take. by eapply list_elem_of_lookup_2. }
    split_and!.
    + replace (Z.to_nat (index_value_length cfg)) with (S (Z.to_nat (index_value_length cfg - 1))) by lia. done.
    + eapply sublist_NoDup; [|apply sublist_take]. by constructor.
    + intros Hin%Hsub. apply elem_of_cons in Hin as [?|?]; [by subst|done].
    + rewrite length_take. lia.
Qed.

Lemma lookup_mid (pre : list Z) x post : (pre ++ x :: post) !! length pre = Some x.
Proof. by rewrite lookup_app_r, Nat.sub_diag. Qed.

Lemma delete_id_found pre : forall done_ id post fuel n,
  id ∉ pre -> (length pre < fuel)%nat -> n = Z.of_nat (length (done_ ++ pre ++ id :: post)) ->
  delete_id fuel (Z.of_nat (length done_)) n id (done_ ++ pre ++ id :: post) =
  match post with
  | x :: _ => if x =? TEMPORARY_ID then Ok (done_ ++ pre ++ TEMPORARY_ID :: post) else Err EAssert
  | [] => Ok (done_ ++ pre ++ [TEMPORARY_ID])
  end.
Proof.
  induction pre as [|y pre IH]; intros done_ id post [|fuel] n Hid Hf Hn; cbn [length] in Hf; try lia.
  - cbn [delete_id app] in *. rewrite Nat2Z.id, lookup_mid. step. rewrite Z.eqb_refl.
    assert (Hins : <[length done_ := TEMPORARY_ID]> (done_ ++ id :: post) = done_ ++ TEMPORARY_ID :: post).
    { rewrite insert_app_r_alt by lia. by rewrite Nat.sub_diag. }
    rewrite Hins, Hn, length_app. cbn [length]. destruct post as [|x post].
    + rewrite (proj2 (Z.eqb_eq _ _)) by (cbn; lia). done.
    + rewrite (proj2 (Z.eqb_neq _ _)) by (cbn; lia).
      replace (Z.to_nat (Z.of_nat (length done_) + 1)) with (S (length done_)) by lia.
      assert ((done_ ++ TEMPORARY_ID :: x :: post) !! S (length done_) = Some x) as ->.
      { rewrite lookup_app_r by lia. by replace (S (length done_) - length done_)%nat with 1%nat by lia. }
      step. destruct (Z.eqb_spec x TEMPORARY_ID) as [->|Hx]; cbn [c_assert]; [|done]. step.
      by rewrite andb_false_r.
  - apply not_elem_of_cons in Hid as [Hy Hid]. cbn [delete_id app].
    rewrite Nat2Z.id, lookup_mid. step. rewrite (proj2 (Z.eqb_neq y id)) by congruence.
    specialize (IH (done_ ++ [y]) id post fuel n Hid ltac:(lia)).
    rewrite <- !app_assoc in IH. cbn [app] in IH.
    replace (Z.of_nat (length done_) + 1) with (Z.of_nat (length (done_ ++ [y]))) by (rewrite length_app; cbn; lia).
    apply IH. exact Hn.
Qed.

Lemma delete_id_absent rest : forall done_ id fuel n,
  id ∉ rest -> (fuel <= length rest)%nat ->
  delete_id fuel (Z.of_nat (length done_)) n id (done_ ++ rest) = Ok (done_ ++ rest).
Proof.
  induction rest as [|y rest IH]; intros done_ id [|fuel] n Hid Hf; cbn [length] in Hf; try done; try lia.
  apply not_elem_of_cons in Hid as [Hy Hid]. cbn [delete_id].
  rewrite Nat2Z.id, lookup_mid. step. rewrite (proj2 (Z.eqb_neq y id)) by congruence.
  specialize (IH (done_ ++ [y]) id fuel n Hid ltac:(lia)). rewrite <- app_assoc in IH. cbn [app] in IH.
  by replace (Z.of_nat (length done_) + 1) with (Z.of_nat (length (done_ ++ [y]))) by (rewrite length_app; cbn; lia).
Qed.

Lemma delete_id_found0 pre id post fuel n :
  id ∉ pre -> (length pre < fuel)%nat -> n = Z.of_nat (length (pre ++ id :: post)) ->
  delete_id fuel 0 n id (pre ++ id :: post) =
  match post with
  | x :: _ => if x =? TEMPORARY_ID then Ok (pre ++ TEMPORARY_ID :: post) else Err EAssert
  | [] => Ok (pre ++ [TEMPORARY_ID])
  end.
Proof. exact (delete_id_found pre [] id post fuel n). Qed.

Lemma delete_id_absent0 rest id fuel n :
  id ∉ rest -> (fuel <= length rest)%nat -> delete_id fuel 0 n id rest = Ok rest.
Proof. exact (delete_id_absent rest [] id fuel n). Qed.

Lemma pad_snoc l id :
  (length (l ++ [id]) <= Z.to_nat (index_value_length cfg))%nat ->
  pad (l ++ [id]) = l ++ id :: replicate (Z.to_nat (index_value_length cfg) - S (length l)) TEMPORARY_ID /\
  pad l = l ++ TEMPORARY_ID :: replicate (Z.to_nat (index_value_length cfg) - S (length l)) TEMPORARY_ID.
Proof.
  rewrite length_app. cbn [length]. intros Hl. unfold pad. rewrite length_app, <- app_assoc. cbn [length app].
  replace (Z.to_nat (index_value_length cfg) - (length l + 1))%nat with (Z.to_nat (index_value_length cfg) - S (length l))%nat by lia.
  split; [done|]. f_equal. change (TEMPORARY_ID :: replicate ?n TEMPORARY_ID) with (replicate (S n) TEMPORARY_ID).
  f_equal. lia.
Qed.

Lemma delete_represents ht am k id :
  represents ht am -> kv_allowed am (KvDelete k id) ->
  exists ht', kvstore_htable_delete ht k id = Ok ht' /\ represents ht' (kv_spec am (KvDelete k id)).
Proof.
  intros [Hr Hq] (Hk & Hid & Hlast). unfold kvstore_htable_delete. rewrite get_key_ok by done. step.
  rewrite Hr. cbn [kv_spec]. destruct (am !! k) as [l|] eqn:E; cbn [fmap option_fmap option_map]; [|by exists ht].
  destruct (Hq k l E) as (Hne & Hnd & Ht & Hlen). specialize (Hlast l eq_refl).
  destruct (decide (id ∈ l)) as [Hin|Hout].
  - destruct (exists_last Hne) as (l0 & x & ->). specialize (Hlast Hin). rewrite last_snoc in Hlast.
    injection Hlast as ->. destruct (pad_snoc l0 id Hlen) as [Hp Hp0]. rewrite Hp.
    rewrite removelast_app, app_nil_r by done. apply NoDup_app in Hnd as (Hnd & Hd & _).
    rewrite length_app in Hlen. cbn [length] in Hlen.
    assert (Hdel : delete_id (Z.to_nat (index_value_length cfg)) 0 (index_value_length cfg) id
        (l0 ++ id :: replicate (Z.to_nat (index_value_length cfg) - S (length l0)) TEMPORARY_ID) = Ok (pad l0)).
    { rewrite Hp0. rewrite delete_id_found0.
      - destruct (Z.to_nat (index_value_length cfg) - S (length l0))%nat; cbn [replicate]; [done|]. by rewrite Z.eqb_refl.
      - intros Hin0. apply (Hd id Hin0). set_solver.
      - lia.
      - rewrite length_app. cbn [length]. rewrite length_replicate. lia. }
    rewrite Hdel. step. rewrite Hp0. destruct l0 as [|y l0]; cbn [head app].
    + step. rewrite Z.eqb_refl, decide_True by done. eexists. split; [reflexivity|]. split.
      * intros k'. destruct (decide (k' = k)) as [->|]; [by rewrite !lookup_delete_eq|by rewrite !lookup_delete_ne by done].
      * intros k' l'. rewrite lookup_delete_Some. intros [_ ?]. by eapply Hq.
    + step. rewrite (proj2 (Z.eqb_neq y TEMPORARY_ID)) by (intros ->; apply Ht; set_solver).
      rewrite decide_False by done. eexists. split; [reflexivity|].
      change (y :: l0 ++ ?r) with ((y :: l0) ++ r). rewrite <- Hp0. split.
      * intros k'. destruct (decide (k' = k)) as [->|]; [by rewrite !lookup_insert_eq|by rewrite !lookup_insert_ne by done].
      * intros k' l'. rewrite lookup_insert_Some. intros [[<- <-]|[_ ?]]; [|by eapply Hq].
        split_and!; [done|done|set_solver|cbn in *; lia].
  - assert (Hpo : id ∉ pad l).
    { unfold pad. rewrite elem_of_app. intros [?|Hin]; [done|]. apply elem_of_replicate in Hin as [? _]. congruence. }
    rewrite delete_id_absent0 by (done || rewrite length_pad by done; lia). step.
    destruct l as [|y l]; [done|]. cbn [head pad app]. unfold pad. cbn [app head]. step.
    rewrite (proj2 (Z.eqb_neq y TEMPORARY_ID)) by (intros ->; apply Ht; set_solver).
    eexists. split; [reflexivity|]. split; [|done].
    intros k'. destruct (decide (k' = k)) as [->|]; [|by rewrite lookup_insert_ne by done].
    rewrite lookup_insert_eq, E. done.
Qed.

Lemma represents_empty : represents ∅ ∅.
Proof. split; [intros k; by rewrite !lookup_empty|]. intros k l. by rewrite lookup_empty. Qed.

Fixpoint allowed_all (am : gmap key (list Z)) (ops : list kv_op) : Prop :=
  match ops with
  | [] => True
  | op :: ops => kv_allowed am op /\ allowed_all (kv_spec am op) ops
  end.

#[export] Instance allowed_all_dec ops : forall am, Decision (allowed_all am ops).
Proof. induction ops as [|op ops IH]; intros am; cbn; apply _. Defined.

(** C23: the store is a bounded queue of ids per key. Along every history in
    which ids are added fresh and deleted oldest first, no call fails and the
    array of a key holds the ids added last and not yet deleted, the latest
    first, the rest filled with [TEMPORARY_ID]; keys without ids are gone. *)
Theorem kvstore_refines_queues ops :
  allowed_all ∅ ops ->
  exists ht, foldM kv_run ∅ ops = Ok ht /\
    forall k, zlen k = kv_key_size cfg ->
      kvstore_htable_lookup ht k = Ok (pad <$> fold_left kv_spec ops ∅ !! k).
Proof.
  intros Hall. assert (H : forall ht am, represents ht am -> allowed_all am ops ->
    exists ht', foldM kv_run ht ops = Ok ht' /\ represents ht' (fold_left kv_spec ops am)).
  { clear Hall. induction ops as [|op ops IH]; intros ht am Hr Hall; cbn [foldM fold_left]; [by exists ht|].
    destruct Hall as [Hop Hall].
    assert (Hs : exists ht1, kv_run ht op = Ok ht1 /\ represents ht1 (kv_spec am op)).
    { destruct op as [k id|k id]; [by apply update_represents|by apply delete_represents]. }
    destruct Hs as (ht1 & -> & H1). step. by apply IH. }
  destruct (H ∅ ∅ represents_empty Hall) as (ht & Hrun & Hr & _). exists ht. split; [done|].
  intros k Hk. unfold kvstore_htable_lookup. rewrite get_key_ok by done. step. by rewrite Hr.
Qed.

(** A deletion that is not oldest first fails. If a key's array holds the
    id with a later id behind it in the array, the assertion stops the program. *)
Theorem kvstore_delete_order ht k pre id next post :
  zlen k = kv_key_size cfg -> ht !! k = Some (pre ++ id :: next :: post) ->
  zlen (pre ++ id :: next :: post) = index_value_length cfg -> id ∉ pre -> next <> TEMPORARY_ID ->
  kvstore_htable_delete ht k id = Err EAssert.
Proof.
  intros Hk Hv Hl Hid Hn. unfold kvstore_htable_delete. rewrite get_key_ok by done. step. rewrite Hv.
  rewrite delete_id_found0.
  - by rewrite (proj2 (Z.eqb_neq _ _) Hn).
  - done.
  - unfold zlen in Hl. rewrite <- Hl, Nat2Z.id, length_app. cbn. lia.
  - unfold zlen in Hl. lia.
Qed.

(** ** The dump is a faithful image *)

Definition kv_bytes (kv : key * list Z) : list Z :=
  kv.1 ++ le_bytes 4 (index_value_length cfg) ++ concat (map (le_bytes 8) kv.2).

Definition kv_wf (kv : key * list Z) : Prop :=
  zlen kv.1 = kv_key_size cfg /\ zlen kv.2 = index_value_length cfg /\ Forall (in_s 64) kv.2.

Lemma write_ids ids : forall data,
  fold_left (fun f id => fwrite f (le_bytes 8 id)) ids (mk_file data (zlen data)) =
  mk_file (data ++ concat (map (le_bytes 8) ids)) (zlen (data ++ concat (map (le_bytes 8) ids))).
Proof.
  induction ids as [|id ids IH]; intros data; cbn [fold_left map concat]; [by rewrite app_nil_r|].
  rewrite fwrite_end, <- zlen_app, IH. by rewrite <- app_assoc.
Qed.

Lemma write_kv_ok data kv :
  write_kv (mk_file data (zlen data)) kv = mk_file (data ++ kv_bytes kv) (zlen (data ++ kv_bytes kv)).
Proof.
  unfold write_kv. rewrite fwrite_end, <- zlen_app, fwrite_end, <- zlen_app, write_ids.
  unfold kv_bytes. by rewrite <- !app_assoc.
Qed.

Lemma write_kvs kvs : forall data,
  fold_left write_kv kvs (mk_file data (zlen data)) =
  mk_file (data ++ concat (map kv_bytes kvs)) (zlen (data ++ concat (map kv_bytes kvs))).
Proof.
  induction kvs as [|kv kvs IH]; intros data; cbn [fold_left map concat]; [by rewrite app_nil_r|].
  rewrite write_kv_ok, IH. by rewrite <- !app_assoc.
Qed.

Lemma read_ids_spec ids : forall data off done_ old,
  file_has data off (concat (map (le_bytes 8) ids)) -> Forall (in_s 64) ids -> length old = length ids ->
  read_ids (length ids) (mk_file data off) (done_ ++ old) (length done_) =
  (done_ ++ ids, mk_file data (off + 8 * zlen ids)).
Proof.
  induction ids as [|id ids IH]; intros data off done_ [|x old] Hf Hok Hlen; try done.
  - cbn. rewrite (zlen_nil (A := Z)). by rewrite Z.mul_0_r, Z.add_0_r.
  - apply Forall_cons in Hok as [Hid Hok]. cbn [map concat] in Hf. destruct Hf as (pre & post & -> & <-).
    cbn [length read_ids]. rewrite <- app_assoc.
    rewrite (fread_obj_has _ _ _ (le_bytes 8 id)) by (apply file_has_mid || by rewrite !zlen_le_bytes).
    rewrite zlen_le_bytes. change 64 with (8 * Z.of_nat 8). rewrite le_load_signed by first [lia|done].
    rewrite insert_app_r_alt, Nat.sub_diag by lia. cbn [insert list_insert].
    specialize (IH (pre ++ le_bytes 8 id ++ concat (map (le_bytes 8) ids) ++ post) (zlen pre + Z.of_nat 8) (done_ ++ [id]) old).
    rewrite length_app, <- !app_assoc in IH. cbn [length app] in IH. rewrite Nat.add_1_r in IH. rewrite IH.
    + rewrite zlen_cons. do 2 f_equal. lia.
    + exists (pre ++ le_bytes 8 id), post. by rewrite <- !app_assoc, zlen_app, zlen_le_bytes.
    + done.
    + by injection Hlen.
Qed.

Lemma read_kv_spec data off kv :
  file_has data off (kv_bytes kv) -> kv_wf kv -> in_s 32 (index_value_length cfg) ->
  read_kv (mk_file data off) = Ok (kv.1, kv.2, mk_file data (off + zlen (kv_bytes kv))).
Proof.
  intros Hf (Hk & Hv & Hids) Hn. unfold kv_bytes in *. destruct Hf as (pre & post & -> & <-).
  unfold read_kv. rewrite <- !app_assoc.
  rewrite (fread_obj_has _ _ _ kv.1) by (apply file_has_mid || (rewrite zlen_fresh; lia)).
  rewrite (fread_obj_has _ _ _ (le_bytes 4 (index_value_length cfg))).
  2: { exists (pre ++ kv.1). eexists. rewrite <- !app_assoc, zlen_app. split; reflexivity. }
  2: { by rewrite zlen_fresh, zlen_le_bytes. }
  change 32 with (8 * Z.of_nat 4). rewrite le_load_signed by first [lia|done].
  rewrite Z.leb_refl. cbn [c_assert]. step.
  assert (Hl : Z.to_nat (index_value_length cfg) = length kv.2) by (unfold zlen in Hv; lia). rewrite Hl.
  assert (Hnew : length new_kvpair = length kv.2) by (unfold new_kvpair; rewrite length_replicate; lia).
  pose proof (read_ids_spec kv.2 (pre ++ kv.1 ++ le_bytes 4 (index_value_length cfg) ++ concat (map (le_bytes 8) kv.2) ++ post)
    (zlen pre + zlen kv.1 + zlen (le_bytes 4 (index_value_length cfg))) [] new_kvpair) as Hr.
  cbn [app length] in Hr. rewrite Hr; [|  |done|done].
  - do 3 f_equal. rewrite !zlen_app.
    assert (zlen (concat (map (le_bytes 8) kv.2)) = 8 * zlen kv.2) as ->; [|lia].
    generalize kv.2 as l. induction l as [|x l IH]; [done|]. cbn [map concat]. rewrite zlen_app, zlen_le_bytes, IH, zlen_cons. lia.
  - exists (pre ++ kv.1 ++ le_bytes 4 (index_value_length cfg)), post.
    rewrite <- !app_assoc, !zlen_app. split; [done|lia].
Qed.

Lemma read_kvs_spec kvs : forall data off ht,
  file_has data off (concat (map kv_bytes kvs)) -> Forall kv_wf kvs -> in_s 32 (index_value_length cfg) ->
  read_kvs (length kvs) (mk_file data off) ht = Ok (fold_left (fun m kv => <[kv.1 := kv.2]> m) kvs ht).
Proof.
  induction kvs as [|kv kvs IH]; intros data off ht Hf Hok Hn; [done|].
  apply Forall_cons in Hok as [Hkv Hok]. cbn [map concat length read_kvs fold_left] in *.
  assert (Hf1 : file_has data off (kv_bytes kv)).
  { destruct Hf as (pre & post & -> & <-). exists pre. eexists. by rewrite <- app_assoc. }
  rewrite (read_kv_spec _ _ _ Hf1 Hkv Hn). step. apply IH; [|done|done].
  apply (file_has_sub data off _ _ []). by rewrite app_nil_r.
Qed.

Context `{HO : !HashIterOk key (list Z)}.

Lemma dump_roundtrip ht :
  (forall k v, ht !! k = Some v -> kv_wf (k, v)) -> in_s 32 (index_value_length cfg) -> Z.of_nat (size ht) < 2 ^ 31 ->
  init_kvstore INDEX_KEY_VALUE_HTABLE (Some (fdata (close_kvstore_htable ht))) = Ok ht.
Proof.
  intros Hwf Hn Hsize. unfold init_kvstore. change (INDEX_KEY_VALUE_HTABLE =? _) with true. cbv beta iota.
  unfold close_kvstore_htable, init_kvstore_htable.
  change empty_file with (mk_file [] (zlen (@nil Z))). rewrite fwrite_end, <- zlen_app, write_kvs. cbn [app fdata].
  set (data := le_bytes 4 _ ++ _).
  assert (Hd : file_has data 0 (le_bytes 4 (Z.of_nat (size ht)))) by by exists [], (concat (map kv_bytes (hash_iter ht))).
  rewrite (fread_obj_has data 0 _ _ Hd) by by rewrite zlen_fresh, zlen_le_bytes.
  change 32 with (8 * Z.of_nat 4). rewrite le_load_signed by first [lia|unfold in_s; lia].
  rewrite Nat2Z.id, <- hash_iter_length, read_kvs_spec; [by rewrite hash_iter_rebuild| |..].
  - exists (le_bytes 4 (Z.of_nat (size ht))), []. by rewrite app_nil_r.
  - apply Forall_forall. intros [k v] Hkv. apply Hwf. by apply hash_iter_elem.
  - done.
Qed.

(** the index survives a restart: reading the dump that closing the store
    wrote gives the same table, whatever order the entries were written in. *)
Theorem kvstore_dump_roundtrip ht :
  (forall k v, ht !! k = Some v -> kv_wf (k, v)) -> in_s 32 (index_value_length cfg) -> Z.of_nat (size ht) < 2 ^ 31 ->
  init_kvstore INDEX_KEY_VALUE_HTABLE (Some (fdata (close_kvstore_htable ht))) = Ok ht.
Proof. apply dump_roundtrip. Qed.
End KvStore.

Definition kv_demo_cfg : kv_config := mk_kv_config 2 3.

Lemma kvstore_refines_queues_witness :
  exists ht, foldM (kv_run kv_demo_cfg) ∅
      [KvUpdate [1; 1] 10; KvUpdate [1; 1] 11; KvUpdate [2; 2] 11; KvDelete [1; 1] 10; KvUpdate [1; 1] 12] = Ok ht /\
    kvstore_htable_lookup kv_demo_cfg ht [1; 1] = Ok (Some [12; 11; -1]).
Proof.
  destruct (kvstore_refines_queues kv_demo_cfg ltac:(done) ltac:(done)
    [KvUpdate [1; 1] 10; KvUpdate [1; 1] 11; KvUpdate [2; 2] 11; KvDelete [1; 1] 10; KvUpdate [1; 1] 12]) as (ht & Hr & Hl).
  - decide_it.
  - exists ht. split; [exact Hr|]. rewrite (Hl [1; 1] eq_refl). reflexivity.
Defined.

Lemma kvstore_delete_order_witness :
  kvstore_htable_delete kv_demo_cfg {[ [1; 1] := [12; 11; 10] ]} [1; 1] 11 = Err EAssert.
Proof.
  apply (kvstore_delete_order kv_demo_cfg) with (pre := [12]) (next := 10) (post := []);
    first [done|reflexivity|set_solver].
Defined.

Lemma kvstore_dump_roundtrip_witness :
  init_kvstore kv_demo_cfg 0 (Some (fdata (@close_kvstore_htable std_hash_iter kv_demo_cfg {[ [1; 1] := [12; 11; -1] ]}))) =
  Ok {[ [1; 1] := [12; 11; -1] ]}.
Proof.
  refine (@kvstore_dump_roundtrip std_hash_iter kv_demo_cfg ltac:(done) ltac:(done) std_hash_iter_ok _ _ _ _).
  - intros k v [<- <-]%lookup_singleton_Some. split_and!; [done|done|]. decide_it.
  - done.
  - done.
Defined.
