(* ===== verification/Chunking.v ===== *)
(** Content-defined chunking: [destor/src/chunking/rabin_chunking.c],
    [ae_chunking.c] and [fixed_chunk_data] of [chunk_phase.c].

    A chunking function gets the bytes at a pointer and the number [n] of valid
    ones, and returns the size of the first chunk. 64-bit words are integers in
    [0 .. 2^64). [Chunker] is what the chunk phase relies on. *)

From S2P Require Import Prelude Destor.
From Stdlib Require Import SpecFloat.

(** The configuration fields used here, after [start_chunk_phase]. *)
Record chunk_config := mk_chunk_config {
  chunk_avg_size : Z;
  chunk_min_size : Z;
  chunk_max_size : Z;
}.

(** ** Polynomials over GF(2) *)

Definition MSB64 : Z := 2 ^ 63.
Definition FINGERPRINT_PT : Z := 13827942727904890243.
Definition BREAKMARK_VALUE : Z := 120.
Definition size : Z := 48.

(** The table [bytemsb]: the number of significant bits of a byte. *)
Definition bytemsb_table : list Z :=
  [0; 1] ++ replicate 2 2 ++ replicate 4 3 ++ replicate 8 4 ++ replicate 16 5 ++ replicate 32 6 ++
  replicate 64 7 ++ replicate 128 8.
Definition bytemsb (v : Z) : Z := nth (Z.to_nat v) bytemsb_table 0.

Definition fls32 (v : Z) : Z :=
  if negb (Z.land v 4294901760 =? 0) then
    if negb (Z.land v 4278190080 =? 0) then 24 + bytemsb (Z.shiftr v 24)
    else 16 + bytemsb (Z.shiftr v 16)
  else if negb (Z.land v 65280 =? 0) then 8 + bytemsb (Z.shiftr v 8)
  else bytemsb v.

Definition fls64 (v : Z) : Z :=
  let h := u32 (Z.shiftr v 32) in
  if negb (h =? 0) then 32 + fls32 h else fls32 (u32 v).

(** [for (i = hi; i >= lo; i--)], [n] iterations. *)
Fixpoint down {A} (n : nat) (i : Z) (f : Z -> A -> A) (a : A) : A :=
  match n with O => a | S n => down n (i - 1) f (f i a) end.
Fixpoint up {A} (n : nat) (i : Z) (f : Z -> A -> A) (a : A) : A :=
  match n with O => a | S n => up n (i + 1) f (f i a) end.

Definition polymod (nh nl d : Z) : Z :=
  let k := fls64 d - 1 in
  let d := u64 (Z.shiftl d (63 - k)) in
  let '(nh, nl) :=
    if negb (nh =? 0) then
      let nh := if negb (Z.land nh MSB64 =? 0) then Z.lxor nh d else nh in
      down 63 62 (fun i '(nh, nl) =>
        if Z.testbit nh i
        then (Z.lxor nh (Z.shiftr d (63 - i)), Z.lxor nl (u64 (Z.shiftl d (i + 1))))
        else (nh, nl)) (nh, nl)
    else (nh, nl) in
  down (Z.to_nat (64 - k)) 63 (fun i nl => if Z.testbit nl i then Z.lxor nl (Z.shiftr d (63 - i)) else nl) nl.

(** Returns the high and the low word of the product. *)
Definition polymult (x y : Z) : Z * Z :=
  up 63 1 (fun i '(ph, pl) =>
    if Z.testbit x i then (Z.lxor ph (Z.shiftr y (64 - i)), Z.lxor pl (u64 (Z.shiftl y i))) else (ph, pl))
    (0, if Z.testbit x 0 then y else 0).

Definition polymmult (x y d : Z) : Z := let '(h, l) := polymult x y in polymod h l d.

(** ** The tables *)

Definition xshift (poly : Z) : Z := fls64 poly - 1.
Definition shift_of (poly : Z) : Z := xshift poly - 8.

(** The table [T] as [calcT] leaves it. *)
Definition calcT (poly : Z) : list Z :=
  let T1 := polymod 0 (u64 (Z.shiftl 1 (xshift poly))) poly in
  map (fun j => Z.lor (polymmult j T1 poly) (u64 (Z.shiftl j (xshift poly)))) (seqZ 0 256).

(** A subscript into a table: outside it the access is undefined. *)
Definition tab (t : list Z) (i : Z) : res Z :=
  if i <? 0 then Err EBounds else match t !! Z.to_nat i with Some v => Ok v | None => Err EBounds end.

Definition append8 (T : list Z) (shift : Z) (p m : Z) : res Z :=
  t ← tab T (Z.shiftr p shift); Ok (Z.lxor (Z.lor (u64 (Z.shiftl p 8)) m) t).

(** [sizeshift] after its loop, and the table [U]. *)
Fixpoint sizeshift_loop (n : nat) (T : list Z) (shift p : Z) : res Z :=
  match n with O => Ok p | S n => p ← append8 T shift p 0; sizeshift_loop n T shift p end.
Definition window_init (poly : Z) : res (list Z * list Z) :=
  let T := calcT poly in
  sizeshift ← sizeshift_loop (Z.to_nat (size - 1)) T (shift_of poly) 1;
  Ok (T, map (fun i => polymmult i sizeshift poly) (seqZ 0 256)).

(** The window of a chunking call: fingerprint, position and ring buffer. *)
Record window := mk_window { w_fp : Z; w_pos : Z; w_buf : list Z }.
Definition new_window : window := mk_window 0 (-1) (zeros 128).

Section Rabin.
Context (T U : list Z) (shift : Z).

(** The macro [SLIDE(m, fp, bufPos, buf)]. *)
Definition SLIDE (m : Z) (w : window) : res window :=
  let bufPos := w_pos w + 1 in
  let bufPos := if size <=? bufPos then 0 else bufPos in
  om ← tab (w_buf w) bufPos;
  let buf := <[Z.to_nat bufPos := m]> (w_buf w) in
  u ← tab U om;
  let fp := Z.lxor (w_fp w) u in
  let x := Z.shiftr fp shift in
  let fp := u64 (Z.shiftl fp 8) in
  let fp := Z.lor fp m in
  t ← tab T x;
  Ok (mk_window (Z.lxor fp t) bufPos buf).

(** [(fp & mask) == BREAKMARK_VALUE] with a signed [mask] converted to 64 bits. *)
Definition breakmark (fp mask : Z) : bool := Z.land fp (u64 (s32 mask)) =? BREAKMARK_VALUE.

Context (cfg : chunk_config).

Definition rabin_mask : Z := chunk_avg_size cfg - 1.

(** The loop [while (i < end)], [end - i] iterations: [mask i] is the mask that
    decides at position [i]. *)
Fixpoint rabin_loop (fuel : nat) (mask : Z -> Z) (p : list Z) (i : Z) (w : window) : res Z :=
  match fuel with
  | O => Ok i
  | S fuel =>
      m ← tab p (i - 1);
      w ← SLIDE m w;
      if breakmark (w_fp w) (mask i) then Ok i else rabin_loop fuel mask p (i + 1) w
  end.

Definition chunk_end (n : Z) : Z := if chunk_max_size cfg <? n then chunk_max_size cfg else n.

Definition rabin_chunk_data (p : list Z) (n : Z) : res Z :=
  if n <=? chunk_min_size cfg then Ok n else
  let i := chunk_min_size cfg in
  rabin_loop (Z.to_nat (chunk_end n - i)) (fun _ => rabin_mask) p i new_window.

Definition normalized_rabin_chunk_data (p : list Z) (n : Z) : res Z :=
  if n <=? chunk_min_size cfg then Ok n else
  let i := chunk_min_size cfg in
  let small_mask := chunk_avg_size cfg * 2 - 1 in
  let large_mask := Z.quot (chunk_avg_size cfg) 2 - 1 in
  rabin_loop (Z.to_nat (chunk_end n - i))
    (fun i => if i <? chunk_avg_size cfg then small_mask else large_mask) p i new_window.

(** [m] is the last position that matched the backup mask. *)
Fixpoint tttd_loop (fuel : nat) (back_mask : Z) (p : list Z) (i m : Z) (w : window) : res Z :=
  match fuel with
  | O => Ok (if negb (m =? 0) then m else i)
  | S fuel =>
      c ← tab p (i - 1);
      w ← SLIDE c w;
      if breakmark (w_fp w) back_mask then
        if breakmark (w_fp w) rabin_mask then Ok i else tttd_loop fuel back_mask p (i + 1) i w
      else tttd_loop fuel back_mask p (i + 1) m w
  end.

Definition tttd_chunk_data (p : list Z) (n : Z) : res Z :=
  if n <=? chunk_min_size cfg then Ok n else
  let i := chunk_min_size cfg in
  let back_mask := Z.quot (chunk_avg_size cfg) 2 - 1 in
  tttd_loop (Z.to_nat (chunk_end n - i)) back_mask p i 0 new_window.
End Rabin.

Definition fixed_chunk_data (cfg : chunk_config) (buf : list Z) (n : Z) : res Z :=
  Ok (if n <? chunk_avg_size cfg then n else chunk_avg_size cfg).

(** ** Asymmetric extremum *)

(** [double] arithmetic: binary64. *)
Definition dbl_of_Z (z : Z) : spec_float := binary_normalize 53 1024 z 0 false.
Definition dbl_sub := SFsub 53 1024.
Definition dbl_div := SFdiv 53 1024.

(** Conversion to an integer type truncates. *)
Definition dbl_trunc (x : spec_float) : Z :=
  match x with
  | S754_finite s m e =>
      let z := if 0 <=? e then Z.pos m * 2 ^ e else Z.pos m / 2 ^ (- e) in if s then - z else z
  | _ => 0
  end.

(** [2.718281828] *)
Definition dbl_e : spec_float := S754_finite false 6121026513834395 (-51).

Definition ae_init (cfg : chunk_config) : Z :=
  dbl_trunc (dbl_div (dbl_of_Z (chunk_avg_size cfg)) (dbl_sub dbl_e (dbl_of_Z 1))).

(** The big-endian value of the eight bytes at a position. *)
Definition load_be64 (p : list Z) (i : Z) : res Z := bs ← read_bytes p i 8; Ok (le_val (rev bs)).

Definition my_memcmp (p : list Z) (x y : Z) : res Z :=
  a ← load_be64 p x; b ← load_be64 p y; Ok (if b <? a then 1 else -1).

(** [for (; curr <= end; curr++)], [end - curr + 1] iterations. *)
Fixpoint ae_loop (fuel : nat) (window_size max_size : Z) (p : list Z) (n curr max : Z) : res Z :=
  match fuel with
  | O => Ok n
  | S fuel =>
      comp_res ← my_memcmp p curr max;
      if comp_res <? 0 then ae_loop fuel window_size max_size p n (curr + 1) curr
      else if (curr =? max + window_size) || (curr =? max_size) then Ok curr
      else ae_loop fuel window_size max_size p n (curr + 1) max
  end.

Definition ae_chunk_data (cfg : chunk_config) (window_size : Z) (p : list Z) (n : Z) : res Z :=
  if n <=? window_size + 8 then Ok n
  else ae_loop (Z.to_nat (n - 8)) window_size (chunk_max_size cfg) p n 1 0.

(** ** What the chunk phase relies on *)

(** The size of a chunk is positive, within the data and within the maximum; it
    depends on the valid data only; and once at least the maximum is available
    it does not depend on what follows: chunk boundaries are a function of the
    content, not of how much of it has been read ahead. *)
Class Chunker (f : list Z -> Z -> res Z) (max : Z) : Prop := {
  chunker_ok p n : 0 < n <= zlen p -> Forall is_byte (ztake n p) ->
    exists k, f p n = Ok k /\ 0 < k <= n /\ k <= max;
  chunker_local p n p' n' : 0 < n <= zlen p -> 0 < n' <= zlen p' ->
    Forall is_byte (ztake n p) -> Forall is_byte (ztake n' p') ->
    ztake (n `min` max) p = ztake (n' `min` max) p' -> f p n = f p' n';
}.

(** ** The fingerprint stays reduced *)

Lemma bits_bound a n : 0 <= a -> 0 <= n -> (forall i, n <= i -> Z.testbit a i = false) -> a < 2 ^ n.
Proof.
  intros Ha Hn Hb. destruct (Z.lt_ge_cases a (2 ^ n)) as [|Hge]; [done|]. exfalso.
  assert (0 < a) by (pose proof (Z.pow_pos_nonneg 2 n); lia).
  assert (n <= Z.log2 a) by (rewrite <- (Z.log2_pow2 n) by done; by apply Z.log2_le_mono).
  pose proof (Z.bit_log2 a ltac:(done)) as Hl. rewrite Hb in Hl by done. discriminate.
Qed.

Lemma bound_bits a n i : 0 <= a < 2 ^ n -> 0 <= n <= i -> Z.testbit a i = false.
Proof.
  intros Ha Hn. rewrite <- (Z.mod_small a (2 ^ n)) by done. apply Z.mod_pow2_bits_high. lia.
Qed.

Lemma lxor_bound a b n : 0 <= n -> 0 <= a < 2 ^ n -> 0 <= b < 2 ^ n -> 0 <= Z.lxor a b < 2 ^ n.
Proof.
  intros Hn Ha Hb. assert (0 <= Z.lxor a b) by (apply Z.lxor_nonneg; lia). split; [done|].
  apply bits_bound; [done|done|]. intros i Hi.
  rewrite Z.lxor_spec, (bound_bits a n), (bound_bits b n) by done. done.
Qed.

Lemma lor_bound a b n : 0 <= n -> 0 <= a < 2 ^ n -> 0 <= b < 2 ^ n -> 0 <= Z.lor a b < 2 ^ n.
Proof.
  intros Hn Ha Hb. assert (0 <= Z.lor a b) by (apply Z.lor_nonneg; lia). split; [done|].
  apply bits_bound; [done|done|]. intros i Hi.
  rewrite Z.lor_spec, (bound_bits a n), (bound_bits b n) by done. done.
Qed.

(** The properties of the tables that the macro relies on: entries of [U] are
    reduced, and entry [j] of [T] cancels the lowest bit of [j] at bit 63. *)
Definition T_ok (T : list Z) : bool :=
  (zlen T =? 256) &&
  forallb (fun j => match T !! Z.to_nat j with
                    | Some t => (0 <=? t) && (t <? 2 ^ 64) && eqb (Z.testbit t 63) (Z.testbit j 0)
                    | None => false end) (seqZ 0 256).
Definition U_ok (U : list Z) : bool := (zlen U =? 256) && forallb (fun u => (0 <=? u) && (u <? 2 ^ 63)) U.

Record window_wf (w : window) : Prop := {
  ww_fp : 0 <= w_fp w < 2 ^ 63;
  ww_pos : -1 <= w_pos w < size;
  ww_len : zlen (w_buf w) = 128;
  ww_bytes : Forall is_byte (w_buf w);
}.

Lemma new_window_wf : window_wf new_window.
Proof. split; cbn; [done|done|done|]. apply Forall_forall. intros x [-> _]%elem_of_replicate. done. Qed.

Lemma tab_lookup t i : 0 <= i < zlen t -> exists v, tab t i = Ok v /\ t !! Z.to_nat i = Some v.
Proof.
  intros Hi. unfold tab. rewrite (proj2 (Z.ltb_ge _ _)) by lia.
  destruct (t !! Z.to_nat i) as [v|] eqn:E; [by eexists|]. apply lookup_ge_None in E. unfold zlen in Hi. lia.
Qed.

Section Slide.
Context (T U : list Z) (HT : T_ok T = true) (HU : U_ok U = true).

Lemma T_entry x : 0 <= x < 256 -> exists t, tab T x = Ok t /\ 0 <= t < 2 ^ 64 /\ Z.testbit t 63 = Z.testbit x 0.
Proof.
  intros Hx. unfold T_ok in HT. apply andb_prop in HT as [Hl Hall]. apply Z.eqb_eq in Hl.
  destruct (tab_lookup T x) as (t & Ht & Hlk); [lia|]. exists t. split; [done|].
  rewrite forallb_forall in Hall. specialize (Hall x). rewrite Hlk in Hall.
  assert (Hin : In x (seqZ 0 256)) by (apply list_elem_of_In, elem_of_seqZ; lia).
  apply Hall in Hin. apply andb_prop in Hin as [Hin Hb]. apply andb_prop in Hin as [? ?].
  apply eqb_prop in Hb. split; [lia|done].
Qed.

Lemma U_entry x : 0 <= x < 256 -> exists u, tab U x = Ok u /\ 0 <= u < 2 ^ 63.
Proof.
  intros Hx. unfold U_ok in HU. apply andb_prop in HU as [Hl Hall]. apply Z.eqb_eq in Hl.
  destruct (tab_lookup U x) as (u & Hu & Hlk); [lia|]. exists u. split; [done|].
  rewrite forallb_forall in Hall. specialize (Hall u (proj1 (list_elem_of_In _ _) (list_elem_of_lookup_2 _ _ _ Hlk))).
  apply andb_prop in Hall as [? ?]. lia.
Qed.

(** Every subscript of the macro is in range. *)
Lemma SLIDE_ok m w : window_wf w -> is_byte m -> exists w', SLIDE T U 55 m w = Ok w' /\ window_wf w'.
Proof.
  intros [Hfp Hpos Hlen Hbytes] Hm. unfold SLIDE. unfold is_byte, size in *.
  set (pos := if 48 <=? w_pos w + 1 then 0 else w_pos w + 1).
  assert (Hp : 0 <= pos < 48) by (unfold pos; destruct (Z.leb_spec 48 (w_pos w + 1)); lia).
  destruct (tab_lookup (w_buf w) pos) as (om & -> & Hom); [lia|]. step.
  assert (Hbm : is_byte om) by (rewrite Forall_forall in Hbytes; eapply Hbytes, list_elem_of_lookup_2, Hom).
  destruct (U_entry om) as (u & -> & Hu); [done|]. step.
  set (fp1 := Z.lxor (w_fp w) u).
  assert (H1 : 0 <= fp1 < 2 ^ 63) by (by apply lxor_bound).
  assert (Hx : 0 <= Z.shiftr fp1 55 < 256).
  { rewrite Z.shiftr_div_pow2 by done. split; [apply Z.div_pos; lia|apply Z.div_lt_upper_bound; lia]. }
  destruct (T_entry _ Hx) as (t & -> & Ht & Hbit). step.
  eexists. split; [reflexivity|]. split; cbn [w_fp w_pos w_buf].
  - set (fp2 := u64 (Z.shiftl fp1 8)). assert (H2 : 0 <= fp2 < 2 ^ 64) by (by apply uwrap_range).
    assert (H3 : 0 <= Z.lor fp2 m < 2 ^ 64) by (apply lor_bound; [done|done|lia]).
    assert (H4 : 0 <= Z.lxor (Z.lor fp2 m) t < 2 ^ 64) by (by apply lxor_bound).
    split; [lia|]. apply bits_bound; [lia|done|]. intros i Hi.
    destruct (Z.eq_dec i 63) as [->|Hne]; [|by apply (bound_bits _ 64); [|lia]].
    rewrite Z.lxor_spec, Z.lor_spec, Hbit, (bound_bits m 8 63), orb_false_r by (done || lia).
    unfold fp2, uwrap. rewrite Z.mod_pow2_bits_low, Z.shiftl_spec, Z.shiftr_spec by lia. apply xorb_nilpotent.
  - unfold size. lia.
  - unfold zlen in *. by rewrite length_insert.
  - by apply Forall_insert.
Qed.
End Slide.

(** ** The rolling chunkers *)

Section RabinChunker.
Context (T U : list Z) (HT : T_ok T = true) (HU : U_ok U = true) (cfg : chunk_config).
Context (min_pos : 1 <= chunk_min_size cfg) (min_max : chunk_min_size cfg <= chunk_max_size cfg).

(** The bytes before [e] are there and the same in both strings. *)
Definition agree (e : Z) (p p' : list Z) : Prop :=
  e <= zlen p /\ e <= zlen p' /\ Forall is_byte (ztake e p) /\ ztake e p = ztake e p'.

Lemma tab_agree e p p' i : agree e p p' -> 0 <= i < e -> exists b, tab p i = Ok b /\ tab p' i = Ok b /\ is_byte b.
Proof.
  intros (Hp & Hp' & Hb & He) Hi. destruct (tab_lookup p i) as (b & -> & Hl); [lia|].
  destruct (tab_lookup p' i) as (b' & -> & Hl'); [lia|].
  assert (Ht : ztake e p !! Z.to_nat i = Some b) by (unfold ztake; rewrite lookup_take_lt by lia; done).
  assert (Ht' : ztake e p' !! Z.to_nat i = Some b') by (unfold ztake; rewrite lookup_take_lt by lia; done).
  rewrite He in Ht. assert (b' = b) as -> by congruence. exists b. split_and!; [done|done|].
  rewrite <- He in Ht'. rewrite Forall_forall in Hb. eapply Hb, list_elem_of_lookup_2, Ht'.
Qed.

Lemma rabin_loop_spec mask fuel : forall p p' i w e,
  agree e p p' -> 1 <= i -> e = i + Z.of_nat fuel -> window_wf w ->
  exists k, rabin_loop T U 55 fuel mask p i w = Ok k /\ rabin_loop T U 55 fuel mask p' i w = Ok k /\ i <= k <= e.
Proof.
  induction fuel as [|fuel IH]; intros p p' i w e Ha Hi He Hw; cbn [rabin_loop]; [exists i; split_and!; [done|done|lia..]|].
  destruct (tab_agree e p p' (i - 1) Ha) as (b & -> & -> & Hb); [lia|]. step. rewrite bind_ret.
  destruct (SLIDE_ok T U HT HU b w Hw Hb) as (w' & -> & Hw'). step. rewrite bind_ret.
  destruct (breakmark _ _); [exists i; split_and!; [done|done|lia..]|].
  destruct (IH p p' (i + 1) w' e Ha) as (k & -> & -> & Hk); [lia|lia|done|]. exists k. split_and!; [done|done|lia..].
Qed.

Lemma tttd_loop_spec back fuel : forall p p' i m w e,
  agree e p p' -> 1 <= i -> e = i + Z.of_nat fuel -> window_wf w -> m = 0 \/ 1 <= m <= e ->
  exists k, tttd_loop T U 55 cfg fuel back p i m w = Ok k /\ tttd_loop T U 55 cfg fuel back p' i m w = Ok k /\ 1 <= k <= e.
Proof.
  induction fuel as [|fuel IH]; intros p p' i m w e Ha Hi He Hw Hm; cbn [tttd_loop].
  { destruct (Z.eqb_spec m 0); cbn [negb]; eexists; split_and!; [done|done|lia..|done|done|lia|lia]. }
  destruct (tab_agree e p p' (i - 1) Ha) as (b & -> & -> & Hb); [lia|]. step. rewrite bind_ret.
  destruct (SLIDE_ok T U HT HU b w Hw Hb) as (w' & -> & Hw'). step. rewrite bind_ret.
  destruct (breakmark _ back); [destruct (breakmark _ _)|].
  - exists i. split_and!; [done|done|lia..].
  - apply (IH p p' (i + 1) i w' e Ha); [lia|lia|done|right; lia].
  - apply (IH p p' (i + 1) m w' e Ha); [lia|lia|done|done].
Qed.

(** A chunker that skips the minimum and then runs a loop bounded by the
    maximum. *)
Lemma skip_min_chunker (loop : nat -> list Z -> res Z) f :
  (forall p n, f p n = if n <=? chunk_min_size cfg then Ok n
                       else loop (Z.to_nat (chunk_end cfg n - chunk_min_size cfg)) p) ->
  (forall p p' e fuel, agree e p p' -> e = chunk_min_size cfg + Z.of_nat fuel ->
     exists k, loop fuel p = Ok k /\ loop fuel p' = Ok k /\ 1 <= k <= e /\ (fuel = O -> k = chunk_min_size cfg)) ->
  Chunker f (chunk_max_size cfg).
Proof.
  intros Hf Hloop.
  assert (Hend : forall n, chunk_end cfg n = n `min` chunk_max_size cfg).
  { intros n. unfold chunk_end. destruct (Z.ltb_spec (chunk_max_size cfg) n); lia. }
  assert (Hgen : forall p n, 0 < n <= zlen p -> Forall is_byte (ztake n p) -> forall p', 
    n `min` chunk_max_size cfg <= zlen p' -> ztake (n `min` chunk_max_size cfg) p = ztake (n `min` chunk_max_size cfg) p' ->
    exists k, f p n = Ok k /\ 1 <= k <= n `min` chunk_max_size cfg /\
      (if n `min` chunk_max_size cfg <=? chunk_min_size cfg then k = n `min` chunk_max_size cfg
       else loop (Z.to_nat (n `min` chunk_max_size cfg - chunk_min_size cfg)) p' = Ok k)).
  { intros p n Hn Hb p' Hl He. rewrite Hf, Hend. set (e := n `min` chunk_max_size cfg) in *.
    assert (Ha : agree e p p').
    { split_and!; [lia|done| |done]. assert (ztake e p = ztake e (ztake n p)) as ->.
      { unfold ztake. rewrite take_take. f_equal. lia. } by apply Forall_take. }
    destruct (Z.leb_spec n (chunk_min_size cfg)) as [Hle|Hgt].
    - exists n. rewrite (proj2 (Z.leb_le e _)) by lia. split_and!; [done|lia..].
    - destruct (Hloop p p' e (Z.to_nat (e - chunk_min_size cfg)) Ha) as (k & -> & Hk' & Hk & H0); [lia|].
      exists k. split_and!; [done|lia|lia|]. destruct (Z.leb_spec e (chunk_min_size cfg)); [|done].
      rewrite H0; lia. }
  split.
  - intros p n Hn Hb. destruct (Hgen p n Hn Hb p) as (k & -> & Hk & _); [lia|done|]. exists k. split; [done|lia].
  - intros p n p' n' Hn Hn' Hb Hb' He.
    assert (Hm : n `min` chunk_max_size cfg = n' `min` chunk_max_size cfg).
    { apply (f_equal zlen) in He. rewrite !zlen_ztake in He by lia. done. }
    destruct (Hgen p n Hn Hb p') as (k & -> & _ & Hk); [lia|by rewrite He, Hm|].
    destruct (Hgen p' n' Hn' Hb' p') as (k' & -> & _ & Hk'); [lia|done|].
    rewrite Hm in Hk. destruct (_ <=? _); congruence.
Qed.

#[export] Instance rabin_chunker : Chunker (rabin_chunk_data T U 55 cfg) (chunk_max_size cfg).
Proof.
  eapply (skip_min_chunker (fun fuel p => rabin_loop T U 55 fuel _ p (chunk_min_size cfg) new_window)); [done|].
  intros p p' e fuel Ha He.
  destruct (rabin_loop_spec (fun _ => rabin_mask cfg) fuel p p' (chunk_min_size cfg) new_window e Ha)
    as (k & ? & ? & ?); [lia|done|apply new_window_wf|].
  exists k. split_and!; [done|done|lia..|]. intros ->. cbn in *. congruence.
Qed.

#[export] Instance normalized_rabin_chunker : Chunker (normalized_rabin_chunk_data T U 55 cfg) (chunk_max_size cfg).
Proof.
  eapply (skip_min_chunker (fun fuel p => rabin_loop T U 55 fuel _ p (chunk_min_size cfg) new_window)); [done|].
  intros p p' e fuel Ha He. cbv beta.
  edestruct (rabin_loop_spec) as (k & Hk1 & Hk2 & Hk); [exact Ha|exact min_pos|exact He|apply new_window_wf|].
  exists k. split_and!; [exact Hk1|exact Hk2|lia..|]. intros ->. cbn in *. congruence.
Qed.

#[export] Instance tttd_chunker : Chunker (tttd_chunk_data T U 55 cfg) (chunk_max_size cfg).
Proof.
  eapply (skip_min_chunker (fun fuel p => tttd_loop T U 55 cfg fuel _ p (chunk_min_size cfg) 0 new_window)); [done|].
  intros p p' e fuel Ha He. cbv beta.
  edestruct (tttd_loop_spec) as (k & Hk1 & Hk2 & Hk); [exact Ha|exact min_pos|exact He|apply new_window_wf|by left|].
  exists k. split_and!; [exact Hk1|exact Hk2|lia..|]. intros ->. cbn in *. congruence.
Qed.
End RabinChunker.

(** [start_chunk_phase] makes the maximum the fixed size. *)
#[export] Instance fixed_chunker cfg :
  0 < chunk_avg_size cfg -> chunk_max_size cfg = chunk_avg_size cfg ->
  Chunker (fixed_chunk_data cfg) (chunk_max_size cfg).
Proof.
  intros Hpos Hmax. split; unfold fixed_chunk_data.
  - intros p n Hn _. eexists. split; [done|]. destruct (Z.ltb_spec n (chunk_avg_size cfg)); lia.
  - intros p n p' n' Hn Hn' _ _ He. apply (f_equal zlen) in He. rewrite !zlen_ztake in He by lia.
    f_equal. destruct (Z.ltb_spec n (chunk_avg_size cfg)), (Z.ltb_spec n' (chunk_avg_size cfg)); lia.
Qed.

(** The tables that [chunkAlg_init] builds. *)
Definition rabin_tables : list Z * list Z :=
  match window_init FINGERPRINT_PT with Ok t => t | Err _ => ([], []) end.

Lemma rabin_tables_ok :
  window_init FINGERPRINT_PT = Ok rabin_tables /\ T_ok rabin_tables.1 = true /\ U_ok rabin_tables.2 = true /\
  shift_of FINGERPRINT_PT = 55.
Proof. split_and!; vm_compute; reflexivity. Qed.

(** The rolling chunkers are safe and their boundaries depend on content
    only. With the tables that [chunkAlg_init] builds and a positive minimum not
    above the maximum, the standard, normalized and TTTD chunkers never index a
    table or the data out of range, return a positive size within the data and
    the maximum, and, once the maximum is available, the same size whatever
    follows. *)
Theorem rolling_chunkers_sound cfg :
  1 <= chunk_min_size cfg <= chunk_max_size cfg ->
  exists T U, window_init FINGERPRINT_PT = Ok (T, U) /\
    Chunker (rabin_chunk_data T U (shift_of FINGERPRINT_PT) cfg) (chunk_max_size cfg) /\
    Chunker (normalized_rabin_chunk_data T U (shift_of FINGERPRINT_PT) cfg) (chunk_max_size cfg) /\
    Chunker (tttd_chunk_data T U (shift_of FINGERPRINT_PT) cfg) (chunk_max_size cfg).
Proof.
  intros [Hmin Hmax]. destruct rabin_tables_ok as (Hw & HT & HU & Hs). destruct rabin_tables as [T U].
  exists T, U. rewrite Hs. split; [exact Hw|]. split_and!.
  - by apply rabin_chunker.
  - by apply normalized_rabin_chunker.
  - by apply tttd_chunker.
Qed.

Lemma rolling_chunkers_sound_witness :
  exists T U, window_init FINGERPRINT_PT = Ok (T, U) /\
    exists k, rabin_chunk_data T U (shift_of FINGERPRINT_PT) (mk_chunk_config 8 2 16) (replicate 40 5) 40 = Ok k /\ k <= 16.
Proof.
  destruct (rolling_chunkers_sound (mk_chunk_config 8 2 16)) as (T & U & Hw & [Hok _] & _); [done|].
  exists T, U. split; [exact Hw|].
  destruct (Hok (replicate 40 5) 40) as (k & Hk & _ & Hmax); [decide_it|decide_it|].
  exists k. split; [exact Hk|exact Hmax].
Defined.

(** ** Asymmetric extremum *)

Lemma load_be64_ok p i : 0 <= i -> i + 8 <= zlen p -> exists v, load_be64 p i = Ok v.
Proof.
  intros. unfold load_be64, read_bytes. rewrite bool_decide_true by lia. step. by eexists.
Qed.

Lemma ae_loop_total fuel : forall ws mx p n curr max,
  0 < n <= zlen p -> 0 <= max < curr -> 1 <= curr -> curr + Z.of_nat fuel = n - 7 ->
  exists k, ae_loop fuel ws mx p n curr max = Ok k /\ 0 < k <= n.
Proof.
  induction fuel as [|fuel IH]; intros ws mx p n curr max Hn Hm Hc Hf; cbn [ae_loop]; [exists n; split; [done|lia]|].
  unfold my_memcmp. destruct (load_be64_ok p curr) as (a & ->); [lia|lia|]. step.
  destruct (load_be64_ok p max) as (b & ->); [lia|lia|]. step. step.
  destruct (_ <? 0); [apply IH; lia|]. destruct (_ || _); [exists curr; split; [done|lia]|]. apply IH; lia.
Qed.

(** C31: AE chunking always returns a positive size within the data, but not
    within the maximum: the comparison with the maximum is skipped at a new
    extremum, so that falling data gives one chunk of any length. *)
Theorem ae_chunk_bounds :
  (forall cfg ws p n, 0 <= ws -> 0 < n <= zlen p ->
     exists k, ae_chunk_data cfg ws p n = Ok k /\ 0 < k <= n) /\
  let cfg := mk_chunk_config 16 4 32 in
  ae_chunk_data cfg (ae_init cfg) (rev (seqZ 0 200)) 200 = Ok 200.
Proof.
  split; [|vm_compute; reflexivity]. intros cfg ws p n Hws Hn. unfold ae_chunk_data.
  destruct (Z.leb_spec n (ws + 8)); [exists n; split; [done|lia]|]. apply ae_loop_total; lia.
Qed.
