(* ===== verification/ChunkPhase.v ===== *)
(** The chunk phase: [destor/src/chunk_phase.c].

    The thread takes blocks of a file from the read queue and puts chunks into
    the chunk queue. [ct_in] is what the read queue will deliver before the end
    ([sync_queue_pop] then returns NULL), [ct_out] what was pushed so far;
    [SyncQueue] shows that the blocking queues deliver in this order. The work
    buffer is a list of bytes with every copy checked against its size. *)

From S2P Require Import Prelude Destor Container Chunking.

(** ** The thread *)

(** The buffer with its two indices, and the statistics of [jcr] and of the
    file's own [chunk_num]. *)
Record left_data := mk_left { leftbuf : list Z; leftlen : Z; leftoff : Z }.

Record chunk_thread_state := mk_ct {
  ct_in : list chunk;
  ct_out : list chunk;
  ct_left : left_data;
  ct_chunk_num : Z;
  ct_zero_chunk_num : Z;
  ct_zero_chunk_size : Z;
}.

Section Thread.
Context (chunking : list Z -> Z -> res Z) (max_size : Z).

(** [memcpy(leftbuf + at, c->data, c->size); leftlen += c->size] *)
Definition append_block (lb : left_data) (at_ : Z) (c : chunk) : res left_data :=
  data ← deref (ck_data c);
  src ← read_bytes data 0 (ck_size c);
  b ← write_bytes (leftbuf lb) at_ src;
  Ok (mk_left b (s32 (leftlen lb + ck_size c)) (leftoff lb)).

(** [memmove(leftbuf, leftbuf + leftoff, leftlen); leftoff = 0] *)
Definition shift_left (lb : left_data) : res left_data :=
  src ← read_bytes (leftbuf lb) (leftoff lb) (leftlen lb);
  b ← write_bytes (leftbuf lb) 0 src;
  Ok (mk_left b (leftlen lb) 0).

(** [while ((leftlen < destor.chunk_max_size) && c == NULL)], from [c == NULL]:
    the [CHUNK_FILE_END] if it is met. *)
Fixpoint fill_loop (cin : list chunk) (lb : left_data) : res (option chunk * list chunk * left_data) :=
  if leftlen lb <? max_size then
    match cin with
    | [] => Err ENull
    | c :: cin =>
        if CHECK_CHUNK c CHUNK_FILE_END then Ok (Some c, cin, lb) else
        lb ← shift_left lb;
        lb ← append_block lb (leftlen lb) c;
        fill_loop cin lb
    end
  else Ok (None, cin, lb).

Definition fill (c : option chunk) (cin : list chunk) (lb : left_data) : res (option chunk * list chunk * left_data) :=
  match c with Some _ => Ok (c, cin, lb) | None => fill_loop cin lb end.

(** One chunk is cut off the buffer. *)
Definition cut_chunk (s : chunk_thread_state) : res chunk_thread_state :=
  let lb := ct_left s in
  chunk_size ← chunking (zdrop (leftoff lb) (leftbuf lb)) (leftlen lb);
  let nc := new_chunk chunk_size in
  d ← deref (ck_data nc);
  src ← read_bytes (leftbuf lb) (leftoff lb) chunk_size;
  d ← write_bytes d 0 src;
  let nc := mk_chunk (ck_size nc) (ck_flag nc) (ck_id nc) (ck_fp nc) (Some d) in
  let lb := mk_left (leftbuf lb) (s32 (leftlen lb - chunk_size)) (s32 (leftoff lb + chunk_size)) in
  z ← read_bytes (zeros max_size) 0 chunk_size;
  d ← read_bytes d 0 chunk_size;
  let zero := memcmp z d =? 0 in
  Ok (mk_ct (ct_in s) (ct_out s ++ [nc]) lb (s64 (ct_chunk_num s + 1))
    (if zero then s32 (ct_zero_chunk_num s + 1) else ct_zero_chunk_num s)
    (if zero then s64 (ct_zero_chunk_size s + chunk_size) else ct_zero_chunk_size s)).

(** The inner [while (1)]: [c] is the end of the file once it was read. *)
Fixpoint chunk_loop (fuel : nat) (c : option chunk) (s : chunk_thread_state) : res (chunk * chunk_thread_state) :=
  match fuel with
  | O => Err EFuel
  | S fuel =>
      '(c, cin, lb) ← fill c (ct_in s) (ct_left s);
      let s := mk_ct cin (ct_out s) lb (ct_chunk_num s) (ct_zero_chunk_num s) (ct_zero_chunk_size s) in
      if leftlen lb =? 0 then
        match c with Some c => Ok (c, s) | None => Err EAssert end
      else s ← cut_chunk s; chunk_loop fuel c s
  end.

(** The outer [while (1)], one file per round. *)
Definition chunk_file (fuel : nat) (c : chunk) (cin : list chunk) (s : chunk_thread_state) : res chunk_thread_state :=
  _ ← c_assert (CHECK_CHUNK c CHUNK_FILE_START);
  let out := ct_out s ++ [c] in
  match cin with
  | [] => Err ENull
  | c :: cin =>
      '(c, lb) ← (if CHECK_CHUNK c CHUNK_FILE_END then Ok (Some c, ct_left s)
                  else lb ← append_block (ct_left s) 0 c; Ok (None, lb));
      '(c, s) ← chunk_loop fuel c (mk_ct cin out lb (ct_chunk_num s) (ct_zero_chunk_num s) (ct_zero_chunk_size s));
      Ok (mk_ct (ct_in s) (ct_out s ++ [c]) (mk_left (leftbuf (ct_left s)) (leftlen (ct_left s)) 0)
            (ct_chunk_num s) (ct_zero_chunk_num s) (ct_zero_chunk_size s))
  end.

Fixpoint chunk_thread_loop (files fuel : nat) (s : chunk_thread_state) : res chunk_thread_state :=
  match ct_in s with
  | [] => Ok s
  | c :: cin =>
      match files with
      | O => Err EFuel
      | S files => s ← chunk_file fuel c cin s; chunk_thread_loop files fuel s
      end
  end.

(** [chunk_thread] with the content of the read queue; [chunk_num] is static. *)
Definition chunk_thread (files fuel : nat) (chunk_num zero_num zero_size : Z) (cin : list chunk) : res chunk_thread_state :=
  chunk_thread_loop files fuel
    (mk_ct cin [] (mk_left (fresh_bytes (DEFAULT_BLOCK_SIZE + max_size)) 0 0) chunk_num zero_num zero_size).
End Thread.

(** ** Starting the phase *)

Definition CHUNK_FIXED := 0.
Definition CHUNK_RABIN := 1.
Definition CHUNK_NORMALIZED_RABIN := 2.
Definition CHUNK_FILE := 3.
Definition CHUNK_AE := 4.
Definition CHUNK_TTTD := 5.

(** [for (pwr = 0; avg; pwr++) avg >>= 1] *)
Fixpoint pwr_loop (fuel : nat) (avg pwr : Z) : res Z :=
  if avg =? 0 then Ok pwr else
  match fuel with O => Err EFuel | S fuel => pwr_loop fuel (Z.shiftr avg 1) (pwr + 1) end.

(** [1 << n]: outside [0..30] the shift is undefined. *)
Definition shl1 (n : Z) : res Z := if (0 <=? n) && (n <=? 30) then Ok (Z.shiftl 1 n) else Err EArith.

(** The average rounded down to a power of two, and the assertions: the same for
    the three rolling chunkers. *)
Definition round_avg (cfg : chunk_config) : res chunk_config :=
  pwr ← pwr_loop 32 (chunk_avg_size cfg) 0;
  avg ← shl1 (pwr - 1);
  let cfg := mk_chunk_config avg (chunk_min_size cfg) (chunk_max_size cfg) in
  _ ← c_assert (chunk_min_size cfg <=? chunk_avg_size cfg);
  _ ← c_assert (chunk_avg_size cfg <=? chunk_max_size cfg);
  _ ← c_assert (chunk_max_size cfg <=? CONTAINER_SIZE - CONTAINER_META_SIZE);
  Ok cfg.

(** [chunkAlg_init]: the tables. *)
Definition chunkAlg_init : res (list Z * list Z * Z) :=
  '(T, U) ← window_init FINGERPRINT_PT; Ok (T, U, shift_of FINGERPRINT_PT).

(** The new configuration and the function [chunking] points to. *)
Definition start_chunk_phase (chunk_algorithm : Z) (cfg : chunk_config) : res (chunk_config * (list Z -> Z -> res Z)) :=
  if chunk_algorithm =? CHUNK_RABIN then
    cfg ← round_avg cfg; '(T, U, shift) ← chunkAlg_init; Ok (cfg, rabin_chunk_data T U shift cfg)
  else if chunk_algorithm =? CHUNK_NORMALIZED_RABIN then
    cfg ← round_avg cfg; '(T, U, shift) ← chunkAlg_init; Ok (cfg, normalized_rabin_chunk_data T U shift cfg)
  else if chunk_algorithm =? CHUNK_TTTD then
    cfg ← round_avg cfg; '(T, U, shift) ← chunkAlg_init; Ok (cfg, tttd_chunk_data T U shift cfg)
  else if chunk_algorithm =? CHUNK_FIXED then
    _ ← c_assert (chunk_avg_size cfg <=? CONTAINER_SIZE - CONTAINER_META_SIZE);
    let cfg := mk_chunk_config (chunk_avg_size cfg) (chunk_min_size cfg) (chunk_avg_size cfg) in
    Ok (cfg, fixed_chunk_data cfg)
  else if chunk_algorithm =? CHUNK_FILE then
    let size := CONTAINER_SIZE - CONTAINER_META_SIZE in
    let cfg := mk_chunk_config size (chunk_min_size cfg) size in
    Ok (cfg, fixed_chunk_data cfg)
  else if chunk_algorithm =? CHUNK_AE then
    _ ← c_assert (chunk_avg_size cfg <=? chunk_max_size cfg);
    _ ← c_assert (chunk_max_size cfg <=? CONTAINER_SIZE - CONTAINER_META_SIZE);
    Ok (cfg, ae_chunk_data cfg (ae_init cfg))
  else Err (EExit 1).

(** ** Specification *)

(** A file as the read phase delivers it: its blocks between two signal
    chunks. *)
Record in_file := mk_in_file { if_start : chunk; if_blocks : list (list Z); if_end : chunk }.

Definition in_file_chunks (f : in_file) : list chunk :=
  if_start f :: map block_chunk (if_blocks f) ++ [if_end f].
Definition if_data (f : in_file) : list Z := concat (if_blocks f).

Record in_file_wf (f : in_file) : Prop := {
  if_start_ok : CHECK_CHUNK (if_start f) CHUNK_FILE_START = true;
  if_end_ok : CHECK_CHUNK (if_end f) CHUNK_FILE_END = true;
  if_blocks_ok : Forall (fun b => 0 < zlen b <= DEFAULT_BLOCK_SIZE /\ Forall is_byte b) (if_blocks f);
}.

#[export] Instance in_file_wf_dec f : Decision (in_file_wf f).
Proof.
  refine (cast_if_and3 (decide (CHECK_CHUNK (if_start f) CHUNK_FILE_START = true))
    (decide (CHECK_CHUNK (if_end f) CHUNK_FILE_END = true))
    (decide (Forall (fun b => 0 < zlen b <= DEFAULT_BLOCK_SIZE /\ Forall is_byte b) (if_blocks f)))); first [by split|by intros []].
Defined.

(** Cutting a whole file at once. *)
Fixpoint cut_all (chunking : list Z -> Z -> res Z) (fuel : nat) (data : list Z) : list (list Z) :=
  match fuel, data with
  | O, _ | _, [] => []
  | S fuel, data =>
      match chunking data (zlen data) with
      | Ok k => ztake k data :: cut_all chunking fuel (zdrop k data)
      | Err _ => []
      end
  end.
Definition chunks_of (chunking : list Z -> Z -> res Z) (data : list Z) : list (list Z) :=
  cut_all chunking (length data) data.

Definition out_file (chunking : list Z -> Z -> res Z) (f : in_file) : list chunk :=
  if_start f :: map block_chunk (chunks_of chunking (if_data f)) ++ [if_end f].

Definition is_zero (b : list Z) : bool := forallb (Z.eqb 0) b.

(** ** The buffer *)

Section Spec.
Context (chunking : list Z -> Z -> res Z) (max_size : Z).
Context (max_pos : 0 < max_size <= CONTAINER_SIZE - CONTAINER_META_SIZE).
Context `{HC : !Chunker chunking max_size}.

Definition capacity : Z := DEFAULT_BLOCK_SIZE + max_size.

Lemma capacity_int n : 0 <= n <= capacity -> s32 n = n.
Proof.
  intros Hn. apply swrap_id; [done|]. unfold in_s, capacity, DEFAULT_BLOCK_SIZE, CONTAINER_SIZE, CONTAINER_META_SIZE in *. lia.
Qed.

(** The buffer holds the bytes [d]. *)
Record left_ok (lb : left_data) (d : list Z) : Prop := {
  lo_cap : zlen (leftbuf lb) = capacity;
  lo_len : leftlen lb = zlen d;
  lo_off : 0 <= leftoff lb /\ leftoff lb + zlen d <= capacity;
  lo_data : ztake (zlen d) (zdrop (leftoff lb) (leftbuf lb)) = d;
  lo_bytes : Forall is_byte d;
}.

Lemma append_block_ok lb d b :
  left_ok lb d -> leftoff lb = 0 -> zlen d + zlen b <= capacity -> Forall is_byte b ->
  exists lb', append_block lb (zlen d) (block_chunk b) = Ok lb' /\ left_ok lb' (d ++ b) /\ leftoff lb' = 0.
Proof.
  intros [Hc Hl Ho Hd Hb] H0 Hs Hbb. unfold append_block. cbn [ck_data block_chunk deref ck_size]. step.
  assert (read_bytes b 0 (zlen b) = Ok b) as ->.
  { apply read_bytes_Ok. rewrite zdrop_0, ztake_ge by lia. pose proof (zlen_nonneg b). split_and!; [lia..|done]. }
  step. rewrite H0, zdrop_0 in Hd. pose proof (zlen_nonneg d) as Hd0. pose proof (zlen_nonneg b) as Hb0.
  assert (write_bytes (leftbuf lb) (zlen d) b = Ok ((d ++ b) ++ zdrop (zlen b) (zdrop (zlen d) (leftbuf lb)))) as ->.
  { rewrite <- (ztake_zdrop (zlen d) (leftbuf lb)) at 1. rewrite Hd. apply write_bytes_app; [done|].
    rewrite zlen_zdrop; lia. }
  step. eexists. split; [reflexivity|]. split; [|done]. split; cbn [leftbuf leftlen leftoff].
  - rewrite !zlen_app, !zlen_zdrop; try lia. rewrite zlen_zdrop; lia.
  - rewrite Hl, zlen_app. apply capacity_int. lia.
  - rewrite H0, zlen_app. lia.
  - rewrite H0, zdrop_0. by apply ztake_app_exact.
  - by apply Forall_app.
Qed.

Lemma shift_left_ok lb d :
  left_ok lb d -> exists lb', shift_left lb = Ok lb' /\ left_ok lb' d /\ leftoff lb' = 0.
Proof.
  intros [Hc Hl Ho Hd Hb]. unfold shift_left. pose proof (zlen_nonneg d) as Hd0.
  assert (read_bytes (leftbuf lb) (leftoff lb) (leftlen lb) = Ok d) as ->.
  { apply read_bytes_Ok. rewrite Hl. split_and!; [lia..|done]. }
  step. destruct (write_bytes_total (leftbuf lb) 0 d) as (b & Hw & Hbl); [lia|lia|]. rewrite Hw. step.
  eexists. split; [reflexivity|]. split; [|done]. split; cbn [leftbuf leftlen leftoff]; [lia|done|lia| |done].
  rewrite zdrop_0. apply write_bytes_Ok in Hw as (_ & _ & ->). rewrite ztake_0, app_nil_l. by apply ztake_app_exact.
Qed.

Abbreviation block_ok := (fun b => 0 < zlen b <= DEFAULT_BLOCK_SIZE /\ Forall is_byte b).

Lemma block_not_end b : CHECK_CHUNK (block_chunk b) CHUNK_FILE_END = false.
Proof. done. Qed.

(** What the inner loop knows: the bytes [d] in the buffer and the blocks [bs] not
    yet read; once the end was read there are none. *)
Record pending (c : option chunk) (cin : list chunk) (lb : left_data) (d : list Z) (bs : list (list Z))
    (e : chunk) (rest : list chunk) : Prop := {
  pe_left : left_ok lb d;
  pe_blocks : Forall block_ok bs;
  pe_end : CHECK_CHUNK e CHUNK_FILE_END = true;
  pe_c : (c = None /\ cin = map block_chunk bs ++ e :: rest) \/ (c = Some e /\ bs = [] /\ cin = rest);
}.

Lemma fill_ok c cin lb d bs e rest :
  pending c cin lb d bs e rest ->
  exists c' cin' lb' d' bs', fill max_size c cin lb = Ok (c', cin', lb') /\
    pending c' cin' lb' d' bs' e rest /\ d' ++ concat bs' = d ++ concat bs /\
    (max_size <= zlen d' \/ (c' = Some e /\ bs' = [])).
Proof.
  intros [Hl Hb He Hc]. destruct Hc as [[-> ->]|(-> & -> & ->)].
  2:{ exists (Some e), rest, lb, d, []. cbn [fill]. split_and!; [done| |done|by right]. split; auto. }
  cbn [fill]. revert lb d Hl. induction Hb as [|b bs [Hbl Hbb] Hb IH]; intros lb d Hl; cbn [map app fill_loop];
    rewrite (lo_len _ _ Hl); destruct (Z.ltb_spec (zlen d) max_size) as [Hlt|Hge].
  - rewrite He. exists (Some e), rest, lb, d, []. split_and!; [done| |done|by right]. split; auto.
  - exists None, (e :: rest), lb, d, []. split_and!; [done| |done|by left]. split; auto.
  - rewrite block_not_end. destruct (shift_left_ok lb d Hl) as (lb1 & -> & Hl1 & H0). step. rewrite (lo_len _ _ Hl1).
    destruct (append_block_ok lb1 d b Hl1 H0) as (lb2 & -> & Hl2 & _); [unfold capacity; lia|done|]. step.
    destruct (IH lb2 _ Hl2) as (c' & cin' & lb' & d' & bs' & Hf & Hp & Heq & Hor).
    exists c', cin', lb', d', bs'. split; [exact Hf|]. split_and!; [done| |done]. rewrite Heq. cbn. by rewrite app_assoc.
  - exists None, (block_chunk b :: map block_chunk bs ++ e :: rest), lb, d, (b :: bs).
    split_and!; [done| |done|by left]. split; [done|by constructor|done|by left].
Qed.

(** ** One chunk *)

Lemma memcmp_zeros b n : n = zlen b -> (memcmp (zeros n) b =? 0) = is_zero b.
Proof.
  intros ->. apply eq_true_iff_eq. rewrite Z.eqb_eq, memcmp_eq.
  2:{ pose proof (zlen_zeros (zlen b) (zlen_nonneg b)) as H. unfold zlen in H at 1 3. unfold zlen in *. lia. }
  unfold zeros, zlen, is_zero. rewrite Nat2Z.id. induction b as [|x b IH]; cbn [replicate length forallb]; [done|].
  rewrite andb_true_iff, <- IH, Z.eqb_eq. split; [intros [= ? ?]; by split|intros [<- E]; by rewrite E].
Qed.

Lemma read_zeros n : 0 <= n <= max_size -> read_bytes (zeros max_size) 0 n = Ok (zeros n).
Proof.
  intros Hn. apply read_bytes_Ok. rewrite zlen_zeros by lia. split_and!; [lia..|].
  rewrite zdrop_0. unfold ztake, zeros. rewrite take_replicate. f_equal. lia.
Qed.

Definition count_zero (bs : list (list Z)) : Z := zlen (filter (fun b => is_zero b = true) bs).
Definition zero_bytes (bs : list (list Z)) : Z := foldr (fun b n => (if is_zero b then zlen b else 0) + n) 0 bs.

#[local] Opaque zeros fresh_bytes.

(** What pushing the chunks [bs] does to the state, the input and the buffer
    apart. *)
Definition pushed (s s' : chunk_thread_state) (bs : list (list Z)) : Prop :=
  ct_out s' = ct_out s ++ map block_chunk bs /\
  ct_chunk_num s' = s64 (ct_chunk_num s + zlen bs) /\
  ct_zero_chunk_num s' = s32 (ct_zero_chunk_num s + count_zero bs) /\
  ct_zero_chunk_size s' = s64 (ct_zero_chunk_size s + zero_bytes bs).

Definition stats_wf (s : chunk_thread_state) : Prop :=
  in_s 64 (ct_chunk_num s) /\ in_s 32 (ct_zero_chunk_num s) /\ in_s 64 (ct_zero_chunk_size s).

Lemma pushed_nil s : stats_wf s -> pushed s s [].
Proof.
  intros (H1 & H2 & H3). unfold pushed, zlen, count_zero. cbn. rewrite app_nil_r, !Z.add_0_r.
  split_and!; [done|symmetry; by apply swrap_id..].
Qed.

Lemma pushed_wf s s' bs : pushed s s' bs -> stats_wf s'.
Proof. intros (_ & H1 & H2 & H3). unfold stats_wf. rewrite H1, H2, H3. split_and!; by apply swrap_range. Qed.

Lemma pushed_trans s1 s2 s3 b1 b2 : pushed s1 s2 b1 -> pushed s2 s3 b2 -> pushed s1 s3 (b1 ++ b2).
Proof.
  intros (A1 & A2 & A3 & A4) (B1 & B2 & B3 & B4). unfold pushed, count_zero in *.
  rewrite B1, B2, B3, B4, A1, A2, A3, A4, !swrap_add, map_app, filter_app, !zlen_app, <- !app_assoc by done.
  split_and!; [done|f_equal; lia..|]. f_equal.
  assert (zero_bytes (b1 ++ b2) = zero_bytes b1 + zero_bytes b2) as ->; [|lia].
  unfold zero_bytes. clear. induction b1 as [|x b1 IH]; cbn; [done|]. rewrite IH. lia.
Qed.

Lemma cut_chunk_ok s d k :
  left_ok (ct_left s) d -> stats_wf s -> chunking (zdrop (leftoff (ct_left s)) (leftbuf (ct_left s))) (zlen d) = Ok k ->
  0 < k <= zlen d -> k <= max_size ->
  exists s', cut_chunk chunking max_size s = Ok s' /\ ct_in s' = ct_in s /\ left_ok (ct_left s') (zdrop k d) /\
    pushed s s' [ztake k d].
Proof.
  intros [Hc Hl Ho Hd Hb] Hst Hk Hkd Hkm. unfold cut_chunk. rewrite Hl, Hk. step.
  rewrite new_chunk_pos by lia. cbn [ck_data deref]. step.
  assert (Hzt : zlen (ztake k d) = k) by (by rewrite zlen_ztake by lia).
  assert (read_bytes (leftbuf (ct_left s)) (leftoff (ct_left s)) k = Ok (ztake k d)) as ->.
  { apply read_bytes_Ok. split_and!; [lia..|]. rewrite <- Hd at 1. rewrite ztake_ztake by lia. f_equal. lia. }
  step. rewrite write_all by (rewrite zlen_fresh; lia). step. rewrite read_zeros by lia. step.
  rewrite read_all by done. step. cbn [ck_size ck_flag ck_id ck_fp].
  rewrite memcmp_zeros by done.
  eexists. split; [reflexivity|]. cbn [ct_in ct_left]. split; [done|]. split.
  - split; cbn [leftbuf leftlen leftoff]; [done| | | |].
    + rewrite zlen_zdrop by lia. apply capacity_int. lia.
    + rewrite zlen_zdrop, capacity_int by lia. lia.
    + rewrite capacity_int, zlen_zdrop, <- zdrop_zdrop by lia. rewrite ztake_zdrop_comm by lia. by rewrite Hd.
    + by apply Forall_drop.
  - unfold pushed. cbn [ct_out ct_chunk_num ct_zero_chunk_num ct_zero_chunk_size]. destruct Hst as (S1 & S2 & S3).
    unfold block_chunk, count_zero, zero_bytes. cbn [map foldr]. rewrite Hzt, filter_cons, filter_nil. split_and!; [done|done|..].
    + destruct (is_zero (ztake k d)); [by rewrite decide_True|rewrite decide_False by done].
      rewrite Z.add_0_r. symmetry. by apply swrap_id.
    + destruct (is_zero (ztake k d)); [by rewrite Z.add_0_r|]. rewrite Z.add_0_r. symmetry. by apply swrap_id.
Qed.

(** ** A whole file *)

Lemma chunking_all d : d <> [] -> Forall is_byte d ->
  exists k, chunking d (zlen d) = Ok k /\ 0 < k <= zlen d /\ k <= max_size.
Proof.
  intros Hd Hb. apply chunker_ok; [|by rewrite ztake_ge]. destruct d; [done|]. rewrite zlen_cons. pose proof (zlen_nonneg d). lia.
Qed.

Lemma zdrop_shorter k (d : list Z) n : 0 < k <= zlen d -> (length d <= S n)%nat -> (length (zdrop k d) <= n)%nat.
Proof. unfold zdrop, zlen. rewrite length_drop. lia. Qed.

Lemma cut_all_fuel n : forall m d, Forall is_byte d -> (length d <= n)%nat -> (length d <= m)%nat ->
  cut_all chunking n d = cut_all chunking m d.
Proof.
  induction n as [|n IH]; intros m d Hb Hn Hm.
  - destruct d; [by destruct m|cbn in Hn; lia].
  - destruct d as [|x d']; [by destruct m|]. destruct m as [|m]; [cbn in Hm; lia|]. cbn [cut_all].
    set (d := x :: d') in *. destruct (chunking_all d) as (k & -> & Hk & _); [done|done|].
    f_equal. apply IH; [by apply Forall_drop|by eapply zdrop_shorter..].
Qed.

Lemma chunks_of_cons d k : Forall is_byte d -> chunking d (zlen d) = Ok k -> 0 < k <= zlen d ->
  chunks_of chunking d = ztake k d :: chunks_of chunking (zdrop k d).
Proof.
  intros Hb Hc Hk. unfold chunks_of. destruct d as [|x d']; [exfalso; unfold zlen in Hk; cbn in Hk; lia|].
  set (d := x :: d') in *. change (length d) with (S (length d')). cbn [cut_all]. rewrite Hc. fold d. f_equal.
  apply cut_all_fuel; [by apply Forall_drop| |done]. by eapply zdrop_shorter.
Qed.

(** Cutting a file at once loses nothing and respects the bounds. *)
Lemma chunks_of_spec d : Forall is_byte d ->
  concat (chunks_of chunking d) = d /\ Forall (fun b => 0 < zlen b <= max_size) (chunks_of chunking d).
Proof.
  remember (length d) as n eqn:Hn. revert d Hn. induction n as [n IH] using lt_wf_ind. intros d -> Hb.
  destruct (decide (d = [])) as [->|Hd]; [by split|].
  destruct (chunking_all d Hd Hb) as (k & Hc & Hk & Hm). rewrite (chunks_of_cons d k) by done. cbn [concat].
  destruct (IH (length (zdrop k d))) with (d := zdrop k d) as [IH1 IH2]; [|done|by apply Forall_drop|].
  { unfold zdrop, zlen in *. rewrite length_drop. lia. }
  rewrite IH1, ztake_zdrop. split; [done|]. constructor; [|done]. rewrite zlen_ztake; lia.
Qed.

(** What is in the buffer decides the next chunk as the rest of the file would. *)
Lemma chunking_buffer c cin lb d bs e rest :
  pending c cin lb d bs e rest -> max_size <= zlen d \/ bs = [] -> d <> [] ->
  exists k, chunking (zdrop (leftoff lb) (leftbuf lb)) (zlen d) = Ok k /\
    chunking (d ++ concat bs) (zlen (d ++ concat bs)) = Ok k /\ 0 < k <= zlen d /\ k <= max_size.
Proof.
  intros [[Hc Hl Ho Hd Hb] Hbs _ _] Hor Hne.
  assert (Hpos : 0 < zlen d) by (destruct d; [done|]; rewrite zlen_cons; pose proof (zlen_nonneg d); lia).
  assert (Hn : 0 < zlen d <= zlen (zdrop (leftoff lb) (leftbuf lb))) by (rewrite zlen_zdrop; lia).
  destruct (chunker_ok (f := chunking) _ _ Hn) as (k & Hk & Hkn & Hkm); [by rewrite Hd|].
  exists k. split; [done|]. split; [|lia]. rewrite <- Hk. symmetry.
  assert (Hcb : Forall is_byte (d ++ concat bs)).
  { apply Forall_app. split; [done|]. apply Forall_concat. eapply Forall_impl; [exact Hbs|]. by intros ? []. }
  apply chunker_local; [done|rewrite zlen_app; pose proof (zlen_nonneg (concat bs)); lia|by rewrite Hd|by rewrite ztake_ge|].
  set (X := zdrop (leftoff lb) (leftbuf lb)) in *.
  assert (E : forall m, 0 <= m <= zlen d -> ztake m d = ztake m X).
  { intros m Hm. rewrite <- Hd. rewrite ztake_ztake by lia. f_equal. lia. }
  rewrite zlen_app. pose proof (zlen_nonneg (concat bs)). destruct Hor as [Hge| ->].
  - rewrite !Z.min_r by lia. rewrite ztake_prefix by lia. symmetry. apply E. lia.
  - cbn [concat]. rewrite app_nil_r, zlen_nil, Z.add_0_r. symmetry. apply E. lia.
Qed.

Lemma chunk_loop_ok fuel : forall c s d bs e rest,
  pending c (ct_in s) (ct_left s) d bs e rest -> stats_wf s -> (length (d ++ concat bs) < fuel)%nat ->
  exists s', chunk_loop chunking max_size fuel c s = Ok (e, s') /\ ct_in s' = rest /\ left_ok (ct_left s') [] /\
    pushed s s' (chunks_of chunking (d ++ concat bs)).
Proof.
  induction fuel as [|fuel IH]; intros c s d bs e rest Hp Hst Hfuel; [lia|]. cbn [chunk_loop].
  destruct (fill_ok _ _ _ _ _ _ _ Hp) as (c' & cin' & lb' & d' & bs' & -> & Hp' & Heq & Hor). step.
  rewrite <- Heq in *. clear Heq d bs Hp. set (s1 := mk_ct _ _ _ _ _ _). rewrite (lo_len _ _ (pe_left _ _ _ _ _ _ _ Hp')).
  destruct (Z.eqb_spec (zlen d') 0) as [Hz|Hnz].
  - destruct Hor as [?|[-> ->]]; [lia|]. destruct d'; [|rewrite zlen_cons in Hz; pose proof (zlen_nonneg d'); lia].
    exists s1. destruct (pe_c _ _ _ _ _ _ _ Hp') as [[? _]|(_ & _ & ->)]; [done|].
    split_and!; [done|done|apply Hp'|apply (pushed_nil s1); exact Hst].
  - assert (Hne : d' <> []) by (by intros ->).
    destruct (chunking_buffer c' cin' lb' d' bs' e rest Hp') as (k & Hk & Hall & Hkd & Hkm); [naive_solver|done|].
    destruct (cut_chunk_ok s1 d' k (pe_left _ _ _ _ _ _ _ Hp') Hst Hk) as (s2 & -> & Hin & Hl2 & Hpu); [done|done|]. step.
    assert (Hcb : Forall is_byte (d' ++ concat bs')).
    { apply Forall_app. split; [apply Hp'|]. apply Forall_concat. eapply Forall_impl; [apply Hp'|]. by intros ? []. }
    assert (Hz : zdrop k (d' ++ concat bs') = zdrop k d' ++ concat bs').
    { unfold zdrop, zlen in *. rewrite drop_app_le by lia. done. }
    destruct (IH c' s2 (zdrop k d') bs' e rest) as (s' & Hs' & Hin' & Hl' & Hpu').
    + destruct Hp' as [? Hbs He Hc']. split; [done|done|done|]. rewrite Hin. exact Hc'.
    + by eapply pushed_wf.
    + rewrite <- Hz. unfold zdrop. rewrite length_drop. unfold zlen in Hkd. rewrite length_app in *. lia.
    + exists s'. split_and!; [done|done|done|]. rewrite (chunks_of_cons _ k Hcb Hall), Hz, ztake_prefix by (rewrite ?zlen_app; pose proof (zlen_nonneg (concat bs')); lia).
      change (ztake k d' :: ?l) with ([ztake k d'] ++ l). by eapply (pushed_trans s1).
Qed.

Lemma left_ok_reset lb : left_ok lb [] -> left_ok (mk_left (leftbuf lb) (leftlen lb) 0) [].
Proof.
  intros [Hc Hl Ho Hd Hb]. split; cbn [leftbuf leftlen leftoff]; [done|done| |done|done]. assert (zlen (@nil Z) = 0) by done. lia.
Qed.

Definition file_pushed (s s' : chunk_thread_state) (f : in_file) : Prop :=
  ct_out s' = ct_out s ++ out_file chunking f /\
  ct_zero_chunk_num s' = s32 (ct_zero_chunk_num s + count_zero (chunks_of chunking (if_data f))) /\
  ct_zero_chunk_size s' = s64 (ct_zero_chunk_size s + zero_bytes (chunks_of chunking (if_data f))).

Lemma chunk_file_ok fuel s f rest :
  in_file_wf f -> left_ok (ct_left s) [] -> leftoff (ct_left s) = 0 -> stats_wf s -> (length (if_data f) < fuel)%nat ->
  exists s', chunk_file chunking max_size fuel (if_start f) (map block_chunk (if_blocks f) ++ [if_end f] ++ rest) s = Ok s' /\
    ct_in s' = rest /\ left_ok (ct_left s') [] /\ leftoff (ct_left s') = 0 /\ stats_wf s' /\ file_pushed s s' f.
Proof.
  intros [Hs He Hb] Hl H0 Hst Hfuel. unfold chunk_file. rewrite Hs. cbn [c_assert]. step.
  unfold file_pushed, out_file, if_data in *. destruct (if_blocks f) as [|b bs]; cbn [map app].
  - rewrite He. step.
    destruct (chunk_loop_ok fuel (Some (if_end f))
      (mk_ct rest (ct_out s ++ [if_start f]) (ct_left s) (ct_chunk_num s) (ct_zero_chunk_num s) (ct_zero_chunk_size s))
      [] [] (if_end f) rest) as (s' & -> & Hin & Hl' & Hp); [split; auto|done|done|]. step.
    pose proof (pushed_wf _ _ _ Hp) as Hw. destruct Hp as (Ho & _ & Hzn & Hzs). eexists. split; [reflexivity|].
    cbn in Hzn, Hzs. cbn [ct_in ct_left leftoff ct_out ct_zero_chunk_num ct_zero_chunk_size]. rewrite Ho. cbn [ct_out].
    split_and!; [done|by apply left_ok_reset|done|exact Hw| |done|done].
    rewrite <- !app_assoc. done.
  - apply Forall_cons in Hb as [[Hbl Hbb] Hb]. rewrite block_not_end.
    destruct (append_block_ok (ct_left s) [] b Hl H0) as (lb & Hlb & Hl1 & _);
      [rewrite zlen_nil; unfold capacity; lia|done|]. rewrite zlen_nil in Hlb. rewrite Hlb. step. step.
    destruct (chunk_loop_ok fuel None
      (mk_ct (map block_chunk bs ++ if_end f :: rest) (ct_out s ++ [if_start f]) lb (ct_chunk_num s) (ct_zero_chunk_num s) (ct_zero_chunk_size s))
      b bs (if_end f) rest) as (s' & -> & Hin & Hl' & Hp); [split; auto|done|exact Hfuel|]. step.
    pose proof (pushed_wf _ _ _ Hp) as Hw. destruct Hp as (Ho & _ & Hzn & Hzs). eexists. split; [reflexivity|].
    cbn in Hzn, Hzs. cbn [ct_in ct_left leftoff ct_out ct_zero_chunk_num ct_zero_chunk_size]. rewrite Ho. cbn [ct_out].
    split_and!; [done|by apply left_ok_reset|done|exact Hw| |done|done].
    rewrite <- !app_assoc. done.
Qed.

(** ** The stream *)

Lemma chunk_thread_loop_ok fuel files : forall n s,
  Forall in_file_wf files -> Forall (fun f => (length (if_data f) < fuel)%nat) files -> (length files <= n)%nat ->
  ct_in s = concat (map in_file_chunks files) -> left_ok (ct_left s) [] -> leftoff (ct_left s) = 0 -> stats_wf s ->
  exists s', chunk_thread_loop chunking max_size n fuel s = Ok s' /\ ct_in s' = [] /\
    ct_out s' = ct_out s ++ concat (map (out_file chunking) files) /\
    ct_zero_chunk_num s' = s32 (ct_zero_chunk_num s + count_zero (concat (map (fun f => chunks_of chunking (if_data f)) files))) /\
    ct_zero_chunk_size s' = s64 (ct_zero_chunk_size s + zero_bytes (concat (map (fun f => chunks_of chunking (if_data f)) files))).
Proof.
  induction files as [|f files IH]; intros n s Hwf Hfu Hn Hin Hl H0 Hst.
  - exists s. cbn in Hin. destruct (pushed_nil s Hst) as (_ & _ & Hzn & Hzs).
    destruct n; cbn [chunk_thread_loop]; rewrite Hin; cbn [map concat]; rewrite app_nil_r; split_and!; done.
  - apply Forall_cons in Hwf as [Hf Hwf]. apply Forall_cons in Hfu as [Hff Hfu]. destruct n as [|n]; [cbn in Hn; lia|].
    cbn [chunk_thread_loop]. rewrite Hin. cbn [map concat]. unfold in_file_chunks at 1. cbn [app]. rewrite <- app_assoc.
    destruct (chunk_file_ok fuel s f (concat (map in_file_chunks files)) Hf Hl H0 Hst Hff)
      as (s1 & -> & Hin1 & Hl1 & H01 & Hst1 & Ho & Hzn & Hzs). step.
    destruct (IH n s1) as (s' & -> & Hin' & Ho' & Hzn' & Hzs'); [done|done|cbn in Hn; lia|done..|].
    exists s'. rewrite Ho', Ho, Hzn', Hzn, Hzs', Hzs, !swrap_add, app_assoc by done.
    split_and!; [done|done|done|..]; f_equal.
    + unfold count_zero. rewrite filter_app, zlen_app. lia.
    + generalize (chunks_of chunking (if_data f)). intros l. unfold zero_bytes. rewrite foldr_app.
      induction l as [|x l IHl]; cbn [foldr]; lia.
Qed.
End Spec.

(** ** What starting the phase does *)

Lemma pwr_loop_spec fuel : forall a p, 0 <= a < 2 ^ Z.of_nat fuel ->
  pwr_loop fuel a p = Ok (if a =? 0 then p else p + Z.log2 a + 1).
Proof.
  induction fuel as [|fuel IH]; intros a p Ha.
  - change (2 ^ Z.of_nat 0) with 1 in Ha. assert (a = 0) as -> by lia. done.
  - cbn [pwr_loop]. destruct (Z.eqb_spec a 0) as [|Hnz]; [done|].
    rewrite Nat2Z.inj_succ, Z.pow_succ_r in Ha by lia.
    rewrite IH by (rewrite Z.shiftr_div_pow2, Z.pow_1_r by lia; split; [apply Z.div_pos; lia|apply Z.div_lt_upper_bound; lia]).
    rewrite Z.log2_shiftr by lia.
    destruct (Z.eqb_spec (Z.shiftr a 1) 0) as [E|E].
    + rewrite Z.shiftr_div_pow2, Z.pow_1_r in E by lia. assert (a = 1) as -> by (apply Z.div_small_iff in E; lia). f_equal. change (Z.log2 1) with 0. lia.
    + f_equal. assert (1 <= Z.log2 a); [|lia]. apply (Z.log2_le_mono 2).
      destruct (Z.le_gt_cases 2 a) as [|Hlt]; [done|]. assert (a = 1) as -> by lia. done.
Qed.

(** The average becomes the greatest power of two not above it. *)
Lemma round_avg_spec cfg :
  0 < chunk_avg_size cfg < 2 ^ 31 ->
  round_avg cfg =
    (let avg := 2 ^ Z.log2 (chunk_avg_size cfg) in
     if (chunk_min_size cfg <=? avg) && (avg <=? chunk_max_size cfg) && (chunk_max_size cfg <=? CONTAINER_SIZE - CONTAINER_META_SIZE)
     then Ok (mk_chunk_config avg (chunk_min_size cfg) (chunk_max_size cfg)) else Err EAssert).
Proof.
  intros Ha. unfold round_avg. rewrite pwr_loop_spec by (change (2 ^ Z.of_nat 32) with (2 * 2 ^ 31); lia).
  rewrite (proj2 (Z.eqb_neq _ _)) by lia. step. replace (0 + Z.log2 (chunk_avg_size cfg) + 1 - 1) with (Z.log2 (chunk_avg_size cfg)) by lia.
  assert (0 <= Z.log2 (chunk_avg_size cfg) <= 30).
  { split; [apply Z.log2_nonneg|]. assert (Z.log2 (chunk_avg_size cfg) < 31); [|lia]. apply Z.log2_lt_pow2; lia. }
  unfold shl1. rewrite (proj2 (Z.leb_le 0 _)), (proj2 (Z.leb_le _ 30)) by lia. cbn [andb]. step.
  rewrite Z.shiftl_mul_pow2, Z.mul_1_l by lia. cbn [chunk_min_size chunk_avg_size chunk_max_size].
  destruct (chunk_min_size cfg <=? _), (_ <=? chunk_max_size cfg), (chunk_max_size cfg <=? _); done.
Qed.

Definition is_rolling (alg : Z) : bool :=
  (alg =? CHUNK_RABIN) || (alg =? CHUNK_NORMALIZED_RABIN) || (alg =? CHUNK_TTTD).

Lemma chunkAlg_init_ok :
  exists T U, chunkAlg_init = Ok (T, U, 55) /\ T_ok T = true /\ U_ok U = true.
Proof.
  destruct rabin_tables_ok as (Hw & HT & HU & Hs). destruct rabin_tables as [T U].
  exists T, U. unfold chunkAlg_init. rewrite Hw, Hs. step.
  split; [exact eq_refl|]. split; [exact HT|exact HU].
Qed.

#[local] Opaque chunkAlg_init.

Lemma start_rolling alg cfg : is_rolling alg = true ->
  exists f : list Z -> list Z -> chunk_config -> list Z -> Z -> res Z,
    start_chunk_phase alg cfg = (cfg ← round_avg cfg; '(T, U, shift) ← chunkAlg_init; Ok (cfg, f T U cfg)) /\
    forall T U cfg, T_ok T = true -> U_ok U = true -> 1 <= chunk_min_size cfg -> chunk_min_size cfg <= chunk_max_size cfg ->
      Chunker (f T U cfg) (chunk_max_size cfg).
Proof.
  intros Halg. destruct chunkAlg_init_ok as (T & U & Hi & _). unfold start_chunk_phase, is_rolling in *. rewrite Hi. clear Hi.
  destruct (alg =? CHUNK_RABIN).
  { exists (fun T U => rabin_chunk_data T U 55). split; [by destruct (round_avg cfg)|]. intros. by apply rabin_chunker. }
  destruct (alg =? CHUNK_NORMALIZED_RABIN).
  { exists (fun T U => normalized_rabin_chunk_data T U 55). split; [by destruct (round_avg cfg)|]. intros. by apply normalized_rabin_chunker. }
  destruct (alg =? CHUNK_TTTD); [|done].
  exists (fun T U => tttd_chunk_data T U 55). split; [by destruct (round_avg cfg)|]. intros. by apply tttd_chunker.
Qed.

(** Starting the phase with a rolling chunker rounds the average down to a
    power of two, and succeeds exactly when the average then lies between the
    minimum and the maximum and a chunk of the maximum fits in a container;
    otherwise an assertion fails. *)
Theorem start_chunk_phase_configures alg cfg :
  is_rolling alg = true -> 0 < chunk_avg_size cfg < 2 ^ 31 ->
  let avg := 2 ^ Z.log2 (chunk_avg_size cfg) in
  avg <= chunk_avg_size cfg < 2 * avg /\
  if decide (chunk_min_size cfg <= avg <= chunk_max_size cfg /\ chunk_max_size cfg <= CONTAINER_SIZE - CONTAINER_META_SIZE)
  then exists f, start_chunk_phase alg cfg = Ok (mk_chunk_config avg (chunk_min_size cfg) (chunk_max_size cfg), f)
  else start_chunk_phase alg cfg = Err EAssert.
Proof.
  intros Halg Ha avg. split.
  { pose proof (Z.log2_spec (chunk_avg_size cfg)) as H. rewrite Z.pow_succ_r in H by apply Z.log2_nonneg. unfold avg. lia. }
  destruct (start_rolling alg cfg Halg) as (f & -> & _). destruct chunkAlg_init_ok as (T & U & Hi & _).
  rewrite (round_avg_spec cfg Ha). fold avg. cbv zeta. destruct (decide _) as [[H1 H2]|Hn].
  - rewrite (proj2 (Z.leb_le _ avg)), (proj2 (Z.leb_le avg _)), (proj2 (Z.leb_le (chunk_max_size cfg) _)) by lia.
    cbn [andb]. step. rewrite Hi. step. eexists. reflexivity.
  - destruct (Z.leb_spec (chunk_min_size cfg) avg), (Z.leb_spec avg (chunk_max_size cfg)),
      (Z.leb_spec (chunk_max_size cfg) (CONTAINER_SIZE - CONTAINER_META_SIZE)); try reflexivity.
    exfalso. apply Hn. lia.
Qed.

Lemma start_chunk_phase_configures_witness :
  exists f, start_chunk_phase CHUNK_RABIN (mk_chunk_config 10000 1024 65536) = Ok (mk_chunk_config 8192 1024 65536, f).
Proof. destruct (start_chunk_phase_configures CHUNK_RABIN (mk_chunk_config 10000 1024 65536)) as [_ H]; [reflexivity|done|exact H]. Defined.

(** Every algorithm but AE gives a function the thread can rely on. *)
Lemma start_chunk_phase_chunker alg cfg cfg' f :
  start_chunk_phase alg cfg = Ok (cfg', f) -> alg <> CHUNK_AE -> 1 <= chunk_min_size cfg -> 0 < chunk_avg_size cfg < 2 ^ 31 ->
  Chunker f (chunk_max_size cfg') /\ 0 < chunk_max_size cfg' <= CONTAINER_SIZE - CONTAINER_META_SIZE.
Proof.
  intros Hs Hae Hmin Ha. destruct (is_rolling alg) eqn:Er.
  { destruct (start_rolling alg cfg Er) as (g & Hg & Hc). rewrite Hs, (round_avg_spec cfg Ha) in Hg. cbv zeta in Hg.
    destruct (Z.leb_spec (chunk_min_size cfg) (2 ^ Z.log2 (chunk_avg_size cfg))); [|done].
    destruct (Z.leb_spec (2 ^ Z.log2 (chunk_avg_size cfg)) (chunk_max_size cfg)); [|done].
    destruct (Z.leb_spec (chunk_max_size cfg) (CONTAINER_SIZE - CONTAINER_META_SIZE)); [|done]. cbn [andb] in Hg.
    rewrite bind_ret in Hg. destruct chunkAlg_init_ok as (T & U & Hi & HT & HU). rewrite Hi, bind_ret in Hg. clear Hi.
    injection Hg as -> ->. clear Hs. split; [|cbn [chunk_max_size]; lia].
    apply (Hc T U (mk_chunk_config _ _ _) HT HU Hmin). cbn [chunk_max_size chunk_min_size]. lia. }
  unfold is_rolling in Er. apply orb_false_elim in Er as [Er E3]. apply orb_false_elim in Er as [E1 E2].
  unfold start_chunk_phase in Hs. rewrite E1, E2, E3 in Hs.
  destruct (alg =? CHUNK_FIXED).
  { res_inv. cbn [chunk_max_size]. split; [apply fixed_chunker; cbn [chunk_avg_size chunk_max_size]; (done || lia)|]. apply Z.leb_le in H. lia. }
  destruct (alg =? CHUNK_FILE).
  { res_inv. cbn [chunk_max_size]. split; [apply fixed_chunker; reflexivity|done]. }
  rewrite (proj2 (Z.eqb_neq _ _) Hae) in Hs. done.
Qed.

(** The thread from its start. *)
Lemma chunk_thread_ok f max_size files n fuel :
  Chunker f max_size -> 0 < max_size <= CONTAINER_SIZE - CONTAINER_META_SIZE ->
  Forall in_file_wf files -> (length files <= n)%nat -> Forall (fun file => (length (if_data file) < fuel)%nat) files ->
  exists s, chunk_thread f max_size n fuel 0 0 0 (concat (map in_file_chunks files)) = Ok s /\
    ct_out s = concat (map (out_file f) files) /\
    let chunks := concat (map (fun file => chunks_of f (if_data file)) files) in
    ct_zero_chunk_num s = s32 (count_zero chunks) /\ ct_zero_chunk_size s = s64 (zero_bytes chunks).
Proof.
  intros HC Hmax Hwf Hn Hfu. unfold chunk_thread.
  destruct (chunk_thread_loop_ok f max_size Hmax fuel files n
    (mk_ct (concat (map in_file_chunks files)) [] (mk_left (fresh_bytes (DEFAULT_BLOCK_SIZE + max_size)) 0 0) 0 0 0))
    as (s & Hr & _ & Ho & Hzn & Hzs); [done|done|done|done| |done|by split_and!|].
  - split; cbn [ct_left leftbuf leftlen leftoff]; [|done| |done|done].
    + rewrite zlen_fresh; [done|]. unfold DEFAULT_BLOCK_SIZE. lia.
    + unfold capacity, DEFAULT_BLOCK_SIZE. assert (zlen (@nil Z) = 0) by done. lia.
  - exists s. cbn [ct_out ct_zero_chunk_num ct_zero_chunk_size] in *. split_and!; [exact Hr|exact Ho|exact Hzn|exact Hzs].
Qed.

Lemma in_file_bytes f : in_file_wf f -> Forall is_byte (if_data f).
Proof. intros [_ _ Hb]. apply Forall_concat. eapply Forall_impl; [exact Hb|]. by intros ? []. Qed.

(** C21: the chunk phase loses nothing. With any algorithm but AE that
    [start_chunk_phase] accepts, the thread turns a stream of files, read in
    blocks of any sizes up to 1 MB, into the same files cut into chunks: it never
    leaves its buffers, the chunks of a file concatenate to its content, each has
    a size between 1 and the maximum and fits in a container, and where the
    boundaries are depends on the content only, not on the blocks. The
    statistics count the chunks of zero bytes. *)
Theorem chunk_phase_correct alg cfg cfg' f files n fuel :
  start_chunk_phase alg cfg = Ok (cfg', f) -> alg <> CHUNK_AE -> 1 <= chunk_min_size cfg -> 0 < chunk_avg_size cfg < 2 ^ 31 ->
  Forall in_file_wf files -> (length files <= n)%nat -> Forall (fun file => (length (if_data file) < fuel)%nat) files ->
  exists s, chunk_thread f (chunk_max_size cfg') n fuel 0 0 0 (concat (map in_file_chunks files)) = Ok s /\
    ct_out s = concat (map (out_file f) files) /\
    Forall (fun file => concat (chunks_of f (if_data file)) = if_data file /\
      Forall (fun b => 0 < zlen b <= chunk_max_size cfg' /\ zlen b <= CONTAINER_SIZE - CONTAINER_META_SIZE)
        (chunks_of f (if_data file))) files /\
    let chunks := concat (map (fun file => chunks_of f (if_data file)) files) in
    ct_zero_chunk_num s = s32 (count_zero chunks) /\ ct_zero_chunk_size s = s64 (zero_bytes chunks).
Proof.
  intros Hs Hae Hmin Ha Hwf Hn Hfu.
  destruct (start_chunk_phase_chunker alg cfg cfg' f Hs Hae Hmin Ha) as [HC Hmax].
  destruct (chunk_thread_ok f _ files n fuel HC Hmax Hwf Hn Hfu) as (s & Hr & Ho & Hz).
  exists s. split_and!; [exact Hr|exact Ho| |exact Hz].
  eapply Forall_impl; [exact Hwf|]. intros file Hb. cbv beta.
  destruct (chunks_of_spec f (chunk_max_size cfg') (if_data file) (in_file_bytes _ Hb)) as [Hc Hall].
  split; [done|]. eapply Forall_impl; [exact Hall|]. cbv beta. intros b ?. lia.
Qed.

Definition demo_file (x : Z) (blocks : list (list Z)) : in_file :=
  mk_in_file (SET_CHUNK (block_chunk [x; 0]) CHUNK_FILE_START) blocks (SET_CHUNK (new_chunk 0) CHUNK_FILE_END).

Lemma chunk_phase_correct_witness :
  exists cfg' f, start_chunk_phase CHUNK_FIXED (mk_chunk_config 4 1 8) = Ok (cfg', f) /\
  exists s, chunk_thread f (chunk_max_size cfg') 2 20 0 0 0
      (concat (map in_file_chunks [demo_file 65 [[1; 2; 3]; [4; 5; 6; 7]]; demo_file 66 []])) = Ok s /\
    ct_out s = concat (map (out_file f) [demo_file 65 [[1; 2; 3; 4; 5; 6; 7]]; demo_file 66 []]).
Proof.
  do 2 eexists. split; [reflexivity|].
  destruct (chunk_phase_correct CHUNK_FIXED (mk_chunk_config 4 1 8) _ _
    [demo_file 65 [[1; 2; 3]; [4; 5; 6; 7]]; demo_file 66 []] 2 20 eq_refl) as (s & Hr & Ho & _).
  - discriminate.
  - done.
  - done.
  - decide_it.
  - cbn. lia.
  - decide_it.
  - exists s. split; [exact Hr|exact Ho].
Defined.
