(* ===== verification/ReadPhase.v ===== *)
(** The read phase: [destor/src/read_phase.c], with [sdsrange] of
    [utils/sds.c].

    Paths are lists of the bytes of the sds string, without the final NUL. The
    file system below the backup path is a tree; [readdir] delivers the entries of
    a directory in the order of its list. [Missing] is an entry whose [stat]
    fails, as a dangling symbolic link. The result of a function is what it
    pushes into the read queue. *)

From S2P Require Import Prelude CFile Destor Container Chunking ChunkPhase.

Definition slash : Z := 47.
Definition dot : list Z := [46].
Definition dotdot : list Z := [46; 46].

Inductive node :=
| FileNode (data : list Z)
| DirNode (entries : list (list Z * node))
| Missing.

(** [sdsrange(s, start, end)] *)
Definition sdsrange (s : list Z) (start end_ : Z) : list Z :=
  let len := zlen s in
  if len =? 0 then s else
  let start := if start <? 0 then (if len + start <? 0 then 0 else len + start) else start in
  let end_ := if end_ <? 0 then (if len + end_ <? 0 then 0 else len + end_) else end_ in
  let newlen := if end_ <? start then 0 else end_ - start + 1 in
  let '(start, newlen) :=
    if negb (newlen =? 0) then
      if len <=? start then (start, 0)
      else if len <=? end_ then let end_ := len - 1 in (start, if end_ <? start then 0 else end_ - start + 1)
      else (start, newlen)
    else (0, newlen) in
  ztake newlen (zdrop start s).

(** The character at an index of an sds string; before the string the read is out
    of bounds, at its length it is the NUL. *)
Definition sds_at (s : list Z) (i : Z) : res Z :=
  if i <? 0 then Err EBounds else
  if i =? zlen s then Ok 0 else match s !! Z.to_nat i with Some c => Ok c | None => Err EBounds end.

Section Read.
Context (jcr_path : list Z).

(** [while (filename[cur] != '/') cur--] *)
Fixpoint find_slash (fuel : nat) (filename : list Z) (cur : Z) : res Z :=
  match fuel with
  | O => Err EFuel
  | S fuel =>
      ch ← sds_at filename cur;
      if ch =? slash then Ok cur else find_slash fuel filename (cur - 1)
  end.

(** The loop over [fread]. *)
Fixpoint read_blocks (fuel : nat) (fp : file) : res (list chunk) :=
  match fuel with
  | O => Err EFuel
  | S fuel =>
      let '(buf, fp) := fread fp DEFAULT_BLOCK_SIZE in
      if zlen buf =? 0 then Ok [] else
      c ← filled_chunk buf; cs ← read_blocks fuel fp; Ok (c :: cs)
  end.

(** Opening a directory for reading succeeds, and reading it gives nothing. *)
Definition fopen_node (nd : node) : res file :=
  match nd with
  | FileNode data => Ok (mk_file data 0)
  | DirNode _ => Ok (mk_file [] 0)
  | Missing => Err (EExit 1)
  end.

Definition file_name (path : list Z) : res (list Z) :=
  ch ← sds_at jcr_path (zlen jcr_path - 1);
  if ch =? slash then Ok (sdsrange path (zlen jcr_path) (-1))
  else cur ← find_slash (S (length path)) path (zlen path - 1); Ok (sdsrange path cur (-1)).

Definition read_file (path : list Z) (nd : node) : res (list chunk) :=
  filename ← file_name path;
  fp ← fopen_node nd;
  c ← filled_chunk (filename ++ [0]);
  blocks ← read_blocks (S (length (fdata fp))) fp;
  Ok (SET_CHUNK c CHUNK_FILE_START :: blocks ++ [SET_CHUNK (new_chunk 0) CHUNK_FILE_END]).

(** [strcmp(path + sdslen(path) - 1, "/") == 0] *)
Definition ends_slash (path : list Z) : res bool := ch ← sds_at path (zlen path - 1); Ok (ch =? slash).

(** The loop over [readdir]: [find] is [find_one_file]. *)
Definition read_entries (find : list Z -> node -> res (list chunk)) (path : list Z) : list (list Z * node) -> res (list chunk) :=
  fix go entries :=
    match entries with
    | [] => Ok []
    | (name, nd) :: entries =>
        if bool_decide (name = dot) || bool_decide (name = dotdot) then go entries else
        let newpath := path ++ name in
        let visit newpath := cs ← find newpath nd; cs' ← go entries; Ok (cs ++ cs') in
        match nd with
        | Missing => Ok []
        | FileNode _ => visit newpath
        | DirNode _ => b ← ends_slash newpath; _ ← c_assert (negb b); visit (newpath ++ [slash])
        end
    end.

Fixpoint find_one_file (path : list Z) (nd : node) : res (list chunk) :=
  ends_slash path ≫= fun b : bool =>
  if b then
    match nd with
    | DirNode entries => read_entries find_one_file path entries
    | _ => Err ENull
    end
  else read_file path nd.

(** Everything the thread pushes before it terminates the queue. *)
Definition read_thread (nd : node) : res (list chunk) := find_one_file jcr_path nd.
End Read.

(** ** Specification *)

(** Names as a file system has them. *)
Definition name_ok (name : list Z) : Prop := name <> [] /\ Forall (fun c => is_byte c /\ c <> slash /\ c <> 0) name.

(** A tree of readable files. *)
Fixpoint node_ok (nd : node) : Prop :=
  match nd with
  | FileNode data => Forall is_byte data
  | DirNode entries =>
      (fix entries_ok (es : list (list Z * node)) : Prop :=
        match es with [] => True | (name, nd) :: es => name_ok name /\ node_ok nd /\ entries_ok es end) entries
  | Missing => False
  end.

(** The files of a tree in the order of the directories, with their paths
    relative to the root. *)
Definition walk_entries (walk : list Z -> node -> list (list Z * list Z)) (rel : list Z) :
    list (list Z * node) -> list (list Z * list Z) :=
  fix go es :=
    match es with
    | [] => []
    | (name, nd) :: es =>
        (if bool_decide (name = dot) || bool_decide (name = dotdot) then []
         else walk (rel ++ name ++ match nd with DirNode _ => [slash] | _ => [] end) nd) ++ go es
    end.
Fixpoint walk (rel : list Z) (nd : node) : list (list Z * list Z) :=
  match nd with
  | FileNode data => [(rel, data)]
  | DirNode entries => walk_entries walk rel entries
  | Missing => []
  end.

(** A file in the read queue: its name, then its content in blocks. *)
Definition read_as (name data : list Z) (f : in_file) : Prop :=
  in_file_wf f /\ if_start f = SET_CHUNK (block_chunk (name ++ [0])) CHUNK_FILE_START /\ if_data f = data /\
  if_end f = SET_CHUNK (new_chunk 0) CHUNK_FILE_END.

#[local] Opaque zeros fresh_bytes.

Lemma fread_at data pos n :
  fread (mk_file data pos) n = (ztake n (zdrop pos data), mk_file data (pos + zlen (ztake n (zdrop pos data)))).
Proof. done. Qed.

Lemma block_size_pos : 0 < DEFAULT_BLOCK_SIZE.
Proof. done. Qed.

Lemma read_blocks_ok fuel : forall data pos,
  0 <= pos <= zlen data -> zlen data - pos < Z.of_nat fuel -> Forall is_byte data ->
  exists bs, read_blocks fuel (mk_file data pos) = Ok (map block_chunk bs) /\ concat bs = zdrop pos data /\
    Forall (fun b => 0 < zlen b <= DEFAULT_BLOCK_SIZE /\ Forall is_byte b) bs.
Proof.
  induction fuel as [|fuel IH]; intros data pos Hp Hf Hb; [lia|]. cbn [read_blocks]. rewrite fread_at.
  remember (ztake DEFAULT_BLOCK_SIZE (zdrop pos data)) as buf eqn:Hbuf.
  assert (Hd : zlen (zdrop pos data) = zlen data - pos) by (by rewrite zlen_zdrop).
  assert (Hl : zlen buf = DEFAULT_BLOCK_SIZE `min` (zlen data - pos)).
  { rewrite Hbuf. destruct (Z.le_gt_cases DEFAULT_BLOCK_SIZE (zlen data - pos)).
    - rewrite zlen_ztake by (pose proof block_size_pos; lia). lia.
    - rewrite ztake_ge by lia. lia. }
  destruct (Z.eqb_spec (zlen buf) 0) as [E|E].
  - exists []. split_and!; [done| |done]. symmetry. apply zlen_nil_inv. pose proof block_size_pos. lia.
  - rewrite filled_chunk_ok by (intros Hn; by rewrite Hn in E). step.
    assert (0 < zlen buf) by (pose proof (zlen_nonneg buf); lia).
    destruct (IH data (pos + zlen buf)) as (bs & -> & Hc & Hbs); [lia|lia|done|]. step.
    exists (buf :: bs). split; [done|]. cbn [concat]. rewrite Hc. split.
    + assert (Hz : zdrop (pos + zlen buf) data = zdrop (zlen buf) (zdrop pos data)) by (by rewrite zdrop_zdrop by lia).
      rewrite Hz. rewrite <- (ztake_zdrop (zlen buf) (zdrop pos data)) at 2. f_equal.
      destruct (Z.le_gt_cases DEFAULT_BLOCK_SIZE (zlen data - pos)) as [Hle|Hgt].
      * rewrite Hbuf at 1. f_equal. lia.
      * rewrite Hbuf at 1. rewrite !ztake_ge by lia. done.
    + constructor; [split; [lia|]|done]. rewrite Hbuf. apply Forall_take. by apply Forall_drop.
Qed.

Lemma sds_at_last s c : sds_at (s ++ [c]) (zlen (s ++ [c]) - 1) = Ok c.
Proof.
  unfold sds_at. rewrite zlen_app, zlen_cons, zlen_nil. pose proof (zlen_nonneg s).
  rewrite (proj2 (Z.ltb_ge _ 0)), (proj2 (Z.eqb_neq _ _)) by lia.
  unfold zlen. replace (Z.to_nat _) with (length s) by lia. by rewrite list_lookup_middle.
Qed.

Lemma sdsrange_drop pre rel : rel <> [] -> sdsrange (pre ++ rel) (zlen pre) (-1) = rel.
Proof.
  intros Hne. assert (0 < zlen rel) by (destruct rel; [done|rewrite zlen_cons; pose proof (zlen_nonneg rel); lia]).
  pose proof (zlen_nonneg pre). unfold sdsrange. rewrite zlen_app.
  rewrite (proj2 (Z.eqb_neq _ 0)), (proj2 (Z.ltb_ge (zlen pre) 0)), (proj2 (Z.ltb_ge (zlen pre + zlen rel + -1) 0)) by lia.
  cbn [Z.ltb Z.compare]. rewrite (proj2 (Z.ltb_ge (zlen pre + zlen rel + -1) (zlen pre))) by lia.
  rewrite (proj2 (Z.eqb_neq _ 0)) by lia. cbn [negb].
  rewrite (proj2 (Z.leb_gt _ (zlen pre))), (proj2 (Z.leb_gt _ (zlen pre + zlen rel + -1))) by lia.
  rewrite zdrop_app_exact by done. apply ztake_ge. lia.
Qed.

Lemma read_file_ok jcr_path path name data :
  file_name jcr_path path = Ok name -> Forall is_byte data ->
  exists f, read_file jcr_path path (FileNode data) = Ok (in_file_chunks f) /\ read_as name data f.
Proof.
  intros Hn Hb. unfold read_file. rewrite Hn. step. cbn [fopen_node]. step.
  rewrite filled_chunk_ok by (intros ?%app_eq_nil; naive_solver). step. cbn [fdata].
  destruct (read_blocks_ok (S (length data)) data 0) as (bs & -> & Hc & Hbs);
    [pose proof (zlen_nonneg data); lia|unfold zlen; lia|done|]. step.
  exists (mk_in_file (SET_CHUNK (block_chunk (name ++ [0])) CHUNK_FILE_START) bs (SET_CHUNK (new_chunk 0) CHUNK_FILE_END)).
  split; [done|]. split_and!; [split; done|done|done|done].
Qed.

(** ** The tree *)

Fixpoint node_rect_nested (P : node -> Prop) (HF : forall data, P (FileNode data))
    (HD : forall es, Forall (fun e => P e.2) es -> P (DirNode es)) (HM : P Missing) (nd : node) : P nd :=
  match nd with
  | FileNode data => HF data
  | DirNode es =>
      HD es ((fix go es : Forall (fun e => P e.2) es :=
        match es with
        | [] => List.Forall_nil _
        | e :: es => List.Forall_cons _ e es (node_rect_nested P HF HD HM e.2) (go es)
        end) es)
  | Missing => HM
  end.

Lemma ends_slash_last s c : ends_slash (s ++ [c]) = Ok (c =? slash).
Proof. unfold ends_slash. by rewrite sds_at_last. Qed.

(** A relative path fits its node: only a directory's ends with a slash. *)
Definition rel_ok (rel : list Z) (nd : node) : Prop :=
  match nd with
  | DirNode _ => rel = [] \/ exists r, rel = r ++ [slash]
  | _ => exists r c, rel = r ++ [c] /\ c <> slash
  end.

Lemma name_last name : name_ok name -> exists r c, name = r ++ [c] /\ c <> slash.
Proof.
  intros [Hne Hall]. destruct (exists_last Hne) as (r & c & ->). exists r, c. split; [done|].
  apply Forall_app in Hall as [_ Hc]. inversion Hc as [|? ? Hcc ?]; subst. apply Hcc.
Qed.

Section Walk.
Context (base : list Z).
Abbreviation root := (base ++ [slash]).

Lemma file_name_root rel : rel <> [] -> file_name root (root ++ rel) = Ok rel.
Proof. intros Hne. unfold file_name. rewrite sds_at_last. step. rewrite Z.eqb_refl. by rewrite sdsrange_drop. Qed.

(** The chunks of a node, file by file. *)
Definition reads_as_files (r : res (list chunk)) (l : list (list Z * list Z)) : Prop :=
  exists files, r = Ok (concat (map in_file_chunks files)) /\ Forall2 (fun nd f => read_as nd.1 nd.2 f) l files.

Lemma reads_as_files_app r1 r2 l1 l2 : reads_as_files r1 l1 -> reads_as_files r2 l2 ->
  reads_as_files (cs ← r1; cs' ← r2; Ok (cs ++ cs')) (l1 ++ l2).
Proof.
  intros (f1 & -> & H1) (f2 & -> & H2). step. step. exists (f1 ++ f2). rewrite map_app, concat_app. split; [done|].
  by apply Forall2_app.
Qed.

Lemma find_one_file_ok nd : forall rel, node_ok nd -> rel_ok rel nd ->
  reads_as_files (find_one_file root (root ++ rel) nd) (walk rel nd).
Proof.
  induction nd as [data|es IH|] using node_rect_nested; intros rel Hok Hrel; [| |done].
  - destruct Hrel as (r & c & -> & Hc). cbn [find_one_file]. rewrite app_assoc, ends_slash_last, <- app_assoc. step.
    rewrite (proj2 (Z.eqb_neq c slash)) by done.
    destruct (read_file_ok root (root ++ r ++ [c]) (r ++ [c]) data) as (f & -> & Hf);
      [apply file_name_root; by destruct r|done|].
    exists [f]. cbn [map concat]. rewrite app_nil_r. split; [done|]. constructor; [exact Hf|constructor].
  - cbn [find_one_file walk].
    assert (ends_slash (root ++ rel) = Ok true) as ->.
    { destruct Hrel as [->|(r & ->)]; [rewrite app_nil_r|rewrite app_assoc]; apply ends_slash_last. }
    step. clear Hrel. cbn [node_ok] in Hok. induction IH as [|[name nd] es IHnd _ IHes]; cbn [read_entries walk_entries].
    { by exists []. }
    destruct Hok as (Hname & Hnd & Hes). specialize (IHes Hes). cbn [snd] in IHnd.
    destruct (bool_decide (name = dot) || bool_decide (name = dotdot)); [exact IHes|].
    destruct (name_last name Hname) as (r & c & -> & Hc).
    destruct nd as [data|es'|]; [| |done].
    + apply reads_as_files_app; [|exact IHes]. rewrite <- app_assoc, app_nil_r. apply IHnd; [done|].
      exists (rel ++ r), c. by rewrite app_assoc.
    + rewrite <- (app_assoc root rel), (app_assoc rel), (app_assoc root), ends_slash_last. step.
      rewrite (proj2 (Z.eqb_neq c slash)) by done. cbn [negb c_assert]. step.
      apply reads_as_files_app; [|exact IHes]. rewrite <- !app_assoc. 
      specialize (IHnd (rel ++ (r ++ [c]) ++ [slash]) Hnd). rewrite <- !app_assoc in IHnd. apply IHnd.
      right. exists (rel ++ r ++ [c]). by rewrite <- !app_assoc.
Qed.
End Walk.

(** Reading a directory delivers every file of its tree, once and in
    order, with its path relative to the backup path, and its whole content in
    blocks the chunk phase accepts. *)
Theorem read_phase_stream base entries :
  node_ok (DirNode entries) ->
  exists files, read_thread (base ++ [slash]) (DirNode entries) = Ok (concat (map in_file_chunks files)) /\
    Forall in_file_wf files /\
    map (fun f => (ck_data (if_start f), if_data f)) files = map (fun '(name, data) => (Some (name ++ [0]), data)) (walk [] (DirNode entries)).
Proof.
  intros Hok. destruct (find_one_file_ok base (DirNode entries) [] Hok) as (files & Hr & Hf); [by left|].
  rewrite app_nil_r in Hr. exists files. split; [exact Hr|]. clear Hr. induction Hf as [|[name data] f l fs (Hw & Hs & Hd & _) _ [IH1 IH2]]; [done|].
  split; [by constructor|]. cbn [map]. rewrite Hs, Hd, IH2. done.
Qed.

Lemma read_phase_stream_witness :
  exists files, read_thread [47; 115; 47] (DirNode [([97], FileNode [1; 2]); ([100], DirNode [([46], FileNode []); ([98], FileNode [])])])
    = Ok (concat (map in_file_chunks files)) /\
    map (fun f => (ck_data (if_start f), if_data f)) files = [(Some [97; 0], [1; 2]); (Some [100; 47; 98; 0], [])].
Proof.
  destruct (read_phase_stream [47; 115] [([97], FileNode [1; 2]); ([100], DirNode [([46], FileNode []); ([98], FileNode [])])])
    as (files & Hr & _ & Hm).
  - cbn. unfold name_ok. repeat split; try discriminate; decide_it.
  - exists files. split; [exact Hr|exact Hm].
Defined.
