(* ===== verification/HashPhase.v ===== *)
(** The hash phase [destor/src/hash_phase.c], and the hexadecimal form of
    fingerprints, [hash2code] and [code2hash] of [trace_phase.c].

    SHA-1 is OpenSSL's: a parameter [sha1] that maps the bytes of a chunk to
    20 bytes. *)

From S2P Require Import Prelude Destor Container Chunking ChunkPhase ReadPhase.

(** ** Hexadecimal fingerprints *)

Definition hex_char (b : Z) : Z :=
  match b with
  | 10 => 65 | 11 => 66 | 12 => 67 | 13 => 68 | 14 => 69 | 15 => 70
  | _ => u8 (b + 48)
  end.

(** [for (j = 0; j < 2; j++)]: the upper four bits of [a], then [a << 4]. *)
Fixpoint hex_byte (n : nat) (a : Z) : list Z :=
  match n with O => [] | S n => hex_char (a / 16) :: hex_byte n (u8 (Z.shiftl a 4)) end.

Definition hash2code (hash : list Z) : res (list Z) :=
  h ← read_bytes hash 0 20; Ok (concat (map (hex_byte 2) h)).

Definition hex_val (a : Z) : Z :=
  match a with
  | 65 | 97 => 10 | 66 | 98 => 11 | 67 | 99 => 12 | 68 | 100 => 13 | 69 | 101 => 14 | 70 | 102 => 15
  | _ => u8 (a - 48)
  end.

(** [hash[i] = hash[i] * 16 + b], twice per byte. *)
Fixpoint unhex (n : nat) (code : list Z) : list Z :=
  match n, code with
  | S n, a :: b :: code => u8 (u8 (0 * 16 + hex_val a) * 16 + hex_val b) :: unhex n code
  | _, _ => []
  end.
Definition code2hash (code : list Z) : res (list Z) := c ← read_bytes code 0 40; Ok (unhex 20 c).

(** All [n] integers from 0, to check a statement on bytes by evaluation. *)
Definition all_bytes (P : Z -> bool) : bool := forallb P (seqZ 0 256).

Lemma all_bytes_spec P b : all_bytes P = true -> is_byte b -> P b = true.
Proof.
  intros H Hb. unfold all_bytes in H. rewrite forallb_forall in H. apply H.
  apply list_elem_of_In, elem_of_seqZ. unfold is_byte in Hb. lia.
Qed.

Lemma read_prefix src rest n : n = zlen src -> read_bytes (src ++ rest) 0 n = Ok src.
Proof. apply (read_bytes_app [] src rest). done. Qed.

Lemma length_hex_byte n a : length (hex_byte n a) = n.
Proof. revert a. induction n; cbn; auto. Qed.

Lemma unhex_hex n h : (length h = n)%nat -> Forall is_byte h -> unhex n (concat (map (hex_byte 2) h)) = h.
Proof.
  intros <- Hb. induction Hb as [|b h Hb _ IH]; [done|].
  cbn [map concat length hex_byte app unhex]. f_equal; [|exact IH].
  apply Z.eqb_eq.
  refine (all_bytes_spec (fun b => u8 (u8 (0 * 16 + hex_val (hex_char (b / 16))) * 16 + hex_val (hex_char (u8 (Z.shiftl b 4) / 16))) =? b) b _ Hb).
  vm_compute. reflexivity.
Qed.

Lemma zlen_hex h : zlen (concat (map (hex_byte 2) h)) = 2 * zlen h.
Proof. induction h as [|b h IH]; [done|]. cbn [map concat]. rewrite zlen_app, IH, zlen_cons. unfold zlen at 1. rewrite length_hex_byte. lia. Qed.

(** Characters of a code: digits and upper-case letters. *)
Definition is_hex (c : Z) : bool := ((48 <=? c) && (c <=? 57)) || ((65 <=? c) && (c <=? 70)).

Lemma hex_byte_hex b : is_byte b -> Forall (fun c => is_hex c = true) (hex_byte 2 b).
Proof.
  intros Hb. apply Forall_forall. intros c Hc.
  assert (H : forallb is_hex (hex_byte 2 b) = true).
  { apply (all_bytes_spec (fun b => forallb is_hex (hex_byte 2 b))); [vm_compute; reflexivity|done]. }
  rewrite forallb_forall in H. apply H, list_elem_of_In, Hc.
Qed.

Lemma hash2code_ok h : fp_wf h -> exists code, hash2code h = Ok code /\ zlen code = 40 /\
  Forall (fun c => is_hex c = true) code /\ forall rest, code2hash (code ++ rest) = Ok h.
Proof.
  intros [Hl Hb]. unfold hash2code. rewrite read_all by done. step. eexists. split; [reflexivity|].
  rewrite zlen_hex, Hl. split_and!; [done| |].
  - apply Forall_concat, Forall_map. eapply Forall_impl; [exact Hb|]. apply hex_byte_hex.
  - intros rest. unfold code2hash. rewrite read_prefix by (rewrite zlen_hex, Hl; done). step.
    rewrite unhex_hex; [done| |done]. unfold zlen, fp_size in Hl. lia.
Qed.

(** A fingerprint printed by [hash2code] is 40 hexadecimal digits, from
    which [code2hash] gets it back; [code2hash] accepts lower-case letters as
    well. *)
Theorem hash_code_roundtrip h :
  fp_wf h ->
  exists code, hash2code h = Ok code /\ zlen code = 40 /\ Forall (fun c => is_hex c = true) code /\
    code2hash code = Ok h /\
    code2hash (map (fun c => if 65 <=? c then c + 32 else c) code) = Ok h.
Proof.
  intros Hwf. destruct (hash2code_ok h Hwf) as (code & Hc & Hl & Hh & Hr). exists code.
  specialize (Hr []). rewrite app_nil_r in Hr. split_and!; [done..|].
  unfold code2hash in *. rewrite read_all in Hr by done.
  rewrite read_all by (unfold zlen in *; rewrite length_map; done). step. rewrite <- Hr. step. f_equal.
  assert (Hv : forall c, is_hex c = true -> hex_val (if 65 <=? c then c + 32 else c) = hex_val c).
  { intros c Hc'. apply Z.eqb_eq.
    assert (Hb : is_byte c).
    { unfold is_hex in Hc'. apply orb_prop in Hc' as [H|H]; apply andb_prop in H as [H1 H2]; unfold is_byte; lia. }
    assert (negb (is_hex c) || (hex_val (if 65 <=? c then c + 32 else c) =? hex_val c) = true) as H.
    { apply (all_bytes_spec (fun c => negb (is_hex c) || (hex_val (if 65 <=? c then c + 32 else c) =? hex_val c)));
        [vm_compute; reflexivity|done]. }
    by rewrite Hc' in H. }
  clear Hl Hr Hc. generalize 20%nat as n. intros n. revert code Hh. induction n as [|n IH]; intros code Hh; [done|].
  destruct code as [|a [|b code]]; [done|done|]. apply Forall_cons in Hh as [Ha Hh]. apply Forall_cons in Hh as [Hb Hh].
  cbn [map unhex]. rewrite !Hv, IH by done. done.
Qed.

Lemma hash_code_roundtrip_witness :
  exists code, hash2code (map (fun i => (171 * i) mod 256) (seqZ 0 20)) = Ok code /\ code2hash code = Ok (map (fun i => (171 * i) mod 256) (seqZ 0 20)).
Proof.
  destruct (hash_code_roundtrip (map (fun i => (171 * i) mod 256) (seqZ 0 20))) as (code & H & _ & _ & Hr & _); [decide_it|].
  exists code. split; [exact H|exact Hr].
Defined.

(** ** The phase *)

Section Hash.
Context (sha1 : list Z -> list Z).

(** One round of the thread: the chunk pushed into the hash queue. *)
Definition hash_chunk (c : chunk) : res chunk :=
  if CHECK_CHUNK c CHUNK_FILE_START || CHECK_CHUNK c CHUNK_FILE_END then Ok c else
  data ← deref (ck_data c);
  bs ← read_bytes data 0 (ck_size c);
  Ok (mk_chunk (ck_size c) (ck_flag c) (ck_id c) (sha1 bs) (ck_data c)).

Fixpoint sha1_thread (chunk_queue : list chunk) : res (list chunk) :=
  match chunk_queue with
  | [] => Ok []
  | c :: cs => c ← hash_chunk c; cs ← sha1_thread cs; Ok (c :: cs)
  end.

(** A normal chunk with its fingerprint. *)
Definition hashed_chunk (b : list Z) : chunk :=
  mk_chunk (zlen b) CHUNK_UNIQUE TEMPORARY_ID (sha1 b) (Some b).
Definition hashed_file (chunking : list Z -> Z -> res Z) (f : in_file) : list chunk :=
  if_start f :: map hashed_chunk (chunks_of chunking (if_data f)) ++ [if_end f].

Lemma sha1_thread_app cs1 cs2 :
  sha1_thread (cs1 ++ cs2) = (r1 ← sha1_thread cs1; r2 ← sha1_thread cs2; Ok (r1 ++ r2)).
Proof.
  induction cs1 as [|c cs1 IH]; cbn [app sha1_thread].
  - step. by destruct (sha1_thread cs2).
  - destruct (hash_chunk c); [step|done]. rewrite IH. destruct (sha1_thread cs1); [|done]. step. step.
    by destruct (sha1_thread cs2).
Qed.

Lemma sha1_thread_blocks bs : sha1_thread (map block_chunk bs) = Ok (map hashed_chunk bs).
Proof.
  induction bs as [|b bs IH]; [done|]. cbn [map sha1_thread]. rewrite IH.
  unfold hash_chunk. cbn [CHECK_CHUNK ck_flag block_chunk]. change (CHECK_CHUNK (block_chunk b) _ || _) with false.
  cbv iota. cbn [ck_data deref ck_size block_chunk]. step. rewrite read_all by done. step. by step.
Qed.

Lemma sha1_thread_files chunking files :
  Forall in_file_wf files ->
  sha1_thread (concat (map (out_file chunking) files)) = Ok (concat (map (hashed_file chunking) files)).
Proof.
  induction 1 as [|f files [Hs He _] _ IH]; [done|]. cbn [map concat]. rewrite sha1_thread_app, IH. unfold out_file, hashed_file.
  cbn [sha1_thread]. unfold hash_chunk at 1. rewrite Hs. cbn [orb]. step.
  rewrite sha1_thread_app, sha1_thread_blocks. step. cbn [sha1_thread]. unfold hash_chunk at 1. rewrite He, orb_true_r. step.
  step. step. step. by step.
Qed.

(** ** From the file system to hashed chunks *)

(** The three phases of a backup before deduplication, one after the other:
    the queues between them deliver what was pushed, in order. *)
Definition ingest (chunk_algorithm : Z) (cfg : chunk_config) (n fuel : nat) (jcr_path : list Z) (nd : node) : res (list chunk) :=
  read_queue ← read_thread jcr_path nd;
  '(cfg, chunking) ← start_chunk_phase chunk_algorithm cfg;
  s ← chunk_thread chunking (chunk_max_size cfg) n fuel 0 0 0 read_queue;
  sha1_thread (ct_out s).

(** What the deduplication gets for a file. *)
Definition backup_file (chunking : list Z -> Z -> res Z) (name data : list Z) : list chunk :=
  SET_CHUNK (block_chunk (name ++ [0])) CHUNK_FILE_START ::
  map hashed_chunk (chunks_of chunking data) ++ [SET_CHUNK (new_chunk 0) CHUNK_FILE_END].

Lemma hashed_files_read chunking l files :
  Forall2 (fun nd f => read_as nd.1 nd.2 f) l files ->
  Forall in_file_wf files /\ map if_data files = map snd l /\
  concat (map (hashed_file chunking) files) = concat (map (fun nd => backup_file chunking nd.1 nd.2) l).
Proof.
  induction 1 as [|[name data] f l files (Hw & Hs & Hd & He) _ (IH1 & IH2 & IH3)]; [done|].
  cbn [map concat fst snd] in *. rewrite IH2, IH3, Hd. split_and!; [by constructor|done|].
  f_equal. unfold hashed_file, backup_file. by rewrite Hs, He, Hd.
Qed.
End Hash.

(** C11: from the file system to the deduplication nothing is lost. With any
    chunking algorithm but AE, reading, chunking and hashing a directory tree
    hand over, for each file in order, its name, its content cut into chunks
    that concatenate to it and fit in a container, each with the SHA-1 of its
    bytes, and its end. *)
Theorem ingest_correct sha1 alg cfg cfg' f base entries n fuel :
  start_chunk_phase alg cfg = Ok (cfg', f) -> alg <> CHUNK_AE -> 1 <= chunk_min_size cfg -> 0 < chunk_avg_size cfg < 2 ^ 31 ->
  node_ok (DirNode entries) ->
  let files := walk [] (DirNode entries) in
  (length files <= n)%nat -> Forall (fun nd => (length nd.2 < fuel)%nat) files ->
  ingest sha1 alg cfg n fuel (base ++ [slash]) (DirNode entries) =
    Ok (concat (map (fun nd => backup_file sha1 f nd.1 nd.2) files)) /\
  Forall (fun nd => concat (chunks_of f nd.2) = nd.2 /\
    Forall (fun b => 0 < zlen b <= CONTAINER_SIZE - CONTAINER_META_SIZE) (chunks_of f nd.2)) files.
Proof.
  intros Hs Hae Hmin Ha Hok files Hn Hfu.
  destruct (start_chunk_phase_chunker alg cfg cfg' f Hs Hae Hmin Ha) as [HC Hmax].
  destruct (find_one_file_ok base (DirNode entries) [] Hok) as (inf & Hr & Hf); [by left|]. rewrite app_nil_r in Hr.
  fold files in Hf. destruct (hashed_files_read sha1 f files inf Hf) as (Hwf & Hdata & Hout).
  assert (Hd : Forall2 (fun nd g => if_data g = nd.2) files inf).
  { eapply Forall2_impl; [exact Hf|]. by intros nd g (_ & _ & ? & _). }
  unfold ingest, read_thread. rewrite Hr. step. rewrite Hs. step.
  destruct (chunk_thread_ok f _ inf n fuel HC Hmax Hwf) as (s & -> & Ho & _).
  - by rewrite <- (Forall2_length _ _ _ Hf).
  - apply Forall_forall. intros g Hg. apply list_elem_of_lookup in Hg as [i Hg].
    destruct (Forall2_lookup_r _ _ _ _ _ Hd Hg) as (nd & Hnd & ->). rewrite Forall_lookup in Hfu. by eapply (Hfu i).
  - step. rewrite Ho, sha1_thread_files, Hout by done. split; [done|].
    apply Forall_forall. intros nd Hin. apply list_elem_of_lookup in Hin as [i Hnd].
    destruct (Forall2_lookup_l _ _ _ _ _ Hd Hnd) as (g & Hg & <-). rewrite Forall_lookup in Hwf.
    destruct (chunks_of_spec f (chunk_max_size cfg') (if_data g) (in_file_bytes _ (Hwf i g Hg))) as [Hc Hall].
    split; [done|]. eapply Forall_impl; [exact Hall|]. cbv beta. intros b ?. lia.
Qed.

Lemma ingest_correct_witness :
  ingest (fun d => replicate 20 (zlen d)) CHUNK_FIXED (mk_chunk_config 4 1 8) 1 10 [115; 47] (DirNode [([97], FileNode [1; 2; 3; 4; 5])]) =
  Ok (concat (map (fun nd => backup_file (fun d => replicate 20 (zlen d)) (fixed_chunk_data (mk_chunk_config 4 1 4)) nd.1 nd.2)
    [([97], [1; 2; 3; 4; 5])])).
Proof.
  destruct (ingest_correct (fun d => replicate 20 (zlen d)) CHUNK_FIXED (mk_chunk_config 4 1 8) _ _ [115]
    [([97], FileNode [1; 2; 3; 4; 5])] 1 10 eq_refl) as [H _].
  - discriminate.
  - done.
  - done.
  - cbn. unfold name_ok. repeat split; try discriminate; decide_it.
  - decide_it.
  - decide_it.
  - exact H.
Defined.
