(* ===== verification/Trace.v ===== *)
(** Traces of a backup stream: [make_trace] and [read_trace_thread] of
    [destor/src/trace_phase.c].

    A trace is the text of a hashed stream: file names, and fingerprint and size
    of every chunk. Replaying it drives the deduplication in simulation
    ([SIMULATION_ALL]). A [char] array is modelled with what it held before a call,
    since [fgets] leaves it unchanged at the end of the file. *)

From S2P Require Import Prelude CFile CText Destor Container Chunking ChunkPhase ReadPhase HashPhase.

(** ** Writing a trace *)

(** What the loop of [make_trace] prints for a chunk. *)
Definition trace_chunk_text (c : chunk) : res (list Z) :=
  if CHECK_CHUNK c CHUNK_FILE_START then
    data ← deref (ck_data c);
    name ← cstr data 0;
    Ok (lit "file start " ++ print_int (zlen name) ++ [10] ++ name ++ [10])
  else if CHECK_CHUNK c CHUNK_FILE_END then Ok (lit "file end" ++ [10])
  else
    code ← hash2code (ck_fp c);
    Ok (code ++ [32] ++ print_int (ck_size c) ++ [10]).

Fixpoint trace_text (hash_queue : list chunk) : res (list Z) :=
  match hash_queue with
  | [] => Ok (lit "stream end")
  | c :: cs => t ← trace_chunk_text c; ts ← trace_text cs; Ok (t ++ ts)
  end.

(** The loop that takes the slashes off the end: the length that is left. *)
Fixpoint trim_slashes (fuel : nat) (path : list Z) (p : Z) : res Z :=
  match fuel with
  | O => Err EFuel
  | S fuel => ch ← sds_at path p; if ch =? slash then trim_slashes fuel path (p - 1) else Ok (p + 1)
  end.

(** The name of the trace and its text. *)
Definition make_trace (path : list Z) (hash_queue : list chunk) : res (list Z * list Z) :=
  len ← trim_slashes (S (List.length path)) path (zlen path - 1);
  text ← trace_text hash_queue;
  Ok (ztake len path ++ lit ".trace", text).

(** ** Reading a trace *)

(** The inner loop: [line] is the array of 128 bytes. *)
Fixpoint read_trace_chunks (fuel : nat) (line : list Z) (fp : file) : res (list chunk * list Z * file) :=
  match fuel with
  | O => Err EFuel
  | S fuel =>
      s ← cstr line 0;
      if has_prefix (lit "file end") s then Ok ([], line, fp) else
      let c := new_chunk 0 in
      hash ← code2hash (strncpy 40 s);
      rest ← cstr line 41;
      let c := mk_chunk (atoi rest) (ck_flag c) (ck_id c) hash (ck_data c) in
      '(line, fp) ← fgets line 128 fp;
      '(cs, line, fp) ← read_trace_chunks fuel line fp;
      Ok (c :: cs, line, fp)
  end.

(** The outer loop: what is pushed into [trace_queue]. *)
Fixpoint read_trace_files (files fuel : nat) (line : list Z) (fp : file) : res (list chunk) :=
  match files with
  | O => Err EFuel
  | S files =>
      '(line, fp) ← fgets line 128 fp;
      s ← cstr line 0;
      if bool_decide (s = lit "stream end") then Ok [] else
      _ ← c_assert (has_prefix (lit "file start ") s);
      filenamelen ← match scan_int (zdrop 11 s) with Some n => Ok n | None => Err EBounds end;
      let c := new_chunk (s32 (filenamelen + 2)) in
      data ← deref (ck_data c);
      '(data, fp) ← fgets data (s32 (filenamelen + 2)) fp;
      data ← write_bytes data filenamelen [0];
      let c := mk_chunk (ck_size c) (ck_flag c) (ck_id c) (ck_fp c) (Some data) in
      '(line, fp) ← fgets line 128 fp;
      '(cs, line, fp) ← read_trace_chunks fuel line fp;
      rest ← read_trace_files files fuel line fp;
      Ok (SET_CHUNK c CHUNK_FILE_START :: cs ++ SET_CHUNK (new_chunk 0) CHUNK_FILE_END :: rest)
  end.

Definition read_trace_thread (files fuel : nat) (text : list Z) : res (list chunk) :=
  read_trace_files files fuel (fresh_bytes 128) (mk_file text 0).

(** ** Specification *)

(** A file of a hashed stream. *)
Record stream_file := mk_sf {
  sf_name : list Z;
  sf_start : chunk;
  sf_chunks : list chunk;
  sf_end : chunk;
}.

Definition sf_stream (f : stream_file) : list chunk := sf_start f :: sf_chunks f ++ [sf_end f].

Definition normal_chunk (c : chunk) : Prop :=
  CHECK_CHUNK c CHUNK_FILE_START = false /\ CHECK_CHUNK c CHUNK_FILE_END = false /\
  fp_wf (ck_fp c) /\ 0 <= ck_size c < 2 ^ 31.

Record sf_wf (f : stream_file) : Prop := {
  sf_start_ok : CHECK_CHUNK (sf_start f) CHUNK_FILE_START = true;
  sf_data_ok : exists junk, ck_data (sf_start f) = Some (sf_name f ++ 0 :: junk);
  sf_name_ok : Forall (fun c => c <> 0 /\ c <> 10) (sf_name f) /\ zlen (sf_name f) + 2 < 2 ^ 31;
  sf_chunks_ok : Forall normal_chunk (sf_chunks f);
  sf_end_ok : CHECK_CHUNK (sf_end f) CHUNK_FILE_START = false /\ CHECK_CHUNK (sf_end f) CHUNK_FILE_END = true;
}.

(** What a replay delivers for a chunk and a file. *)
Definition replayed_chunk (c : chunk) : chunk :=
  mk_chunk (ck_size c) CHUNK_UNIQUE TEMPORARY_ID (ck_fp c) None.
Definition replayed (f : stream_file) : list chunk :=
  SET_CHUNK (mk_chunk (zlen (sf_name f) + 2) CHUNK_UNIQUE TEMPORARY_ID (zeros fp_size) (Some (sf_name f ++ [0; 0]))) CHUNK_FILE_START ::
  map replayed_chunk (sf_chunks f) ++ [SET_CHUNK (new_chunk 0) CHUNK_FILE_END].

(** ** A chunk line *)

Definition chunk_body (c : chunk) : list Z :=
  concat (map (hex_byte 2) (ck_fp c)) ++ 32 :: print_int (ck_size c).

(** [buf] holds the line [body]. *)
Definition line_is (buf body : list Z) : Prop := zlen buf = 128 /\ exists junk, buf = body ++ [10] ++ 0 :: junk.

Abbreviation no_break := (Forall (fun c => c <> 0 /\ c <> 10)).

Lemma no_break_0 s : no_break s -> Forall (fun c => c <> 0) s.
Proof. intros H. eapply Forall_impl; [exact H|]. by intros ? []. Qed.
Lemma no_break_10 s : no_break s -> Forall (fun c => c <> 10) s.
Proof. intros H. eapply Forall_impl; [exact H|]. by intros ? []. Qed.

Lemma print_int_no_break n : 0 <= n < 2 ^ 31 -> no_break (print_int n) /\ zlen (print_int n) <= 20.
Proof.
  intros Hn. destruct (print_int_nonneg n ltac:(lia)) as (c & s & -> & Hd & Hl & _). split; [|done].
  eapply Forall_impl; [exact Hd|]. intros x Hx. unfold is_digit in Hx. apply andb_prop in Hx. lia.
Qed.

Lemma chunk_body_ok c : normal_chunk c ->
  trace_chunk_text c = Ok (chunk_body c ++ [10]) /\ no_break (chunk_body c) /\ zlen (chunk_body c) <= 61.
Proof.
  intros (Hs & He & Hfp & Hsz). destruct (hash2code_ok _ Hfp) as (code & Hc & Hl & Hx & _).
  unfold trace_chunk_text. rewrite Hs, He, Hc. step. unfold chunk_body.
  assert (concat (map (hex_byte 2) (ck_fp c)) = code) as ->.
  { unfold hash2code in Hc. rewrite read_all in Hc by (symmetry; apply Hfp). rewrite bind_ret in Hc. by injection Hc. }
  destruct (print_int_no_break _ Hsz) as [Hp Hpl]. split_and!.
  - by rewrite <- app_assoc.
  - apply Forall_app. split; [|constructor; [done|exact Hp]]. eapply Forall_impl; [exact Hx|].
    intros x. unfold is_hex. intros H. apply orb_prop in H as [H|H]; apply andb_prop in H; lia.
  - rewrite zlen_app, zlen_cons. lia.
Qed.

Lemma strncpy_app s rest n : n = zlen s -> strncpy n (s ++ rest) = s.
Proof.
  intros ->. unfold strncpy. rewrite ztake_app_exact, Z.sub_diag by done. unfold zeros. apply app_nil_r.
Qed.

(** What the reader sees in a chunk line. *)
Lemma parse_chunk_line c buf : normal_chunk c -> line_is buf (chunk_body c) ->
  exists s rest, cstr buf 0 = Ok s /\ has_prefix (lit "file end") s = false /\ code2hash (strncpy 40 s) = Ok (ck_fp c) /\
    cstr buf 41 = Ok rest /\ atoi rest = ck_size c.
Proof.
  intros Hn [_ [junk ->]]. destruct (chunk_body_ok c Hn) as (_ & Hnb & _). pose proof (no_break_0 _ Hnb) as H0.
  destruct Hn as (_ & _ & Hfp & Hsz). destruct (hash2code_ok _ Hfp) as (code & Hc & Hl & Hx & Hr).
  exists (chunk_body c ++ [10]), (print_int (ck_size c) ++ [10]).
  assert (Hcb : chunk_body c = code ++ 32 :: print_int (ck_size c)).
  { unfold chunk_body. f_equal. unfold hash2code in Hc. rewrite read_all in Hc by (symmetry; apply Hfp).
    rewrite bind_ret in Hc. by injection Hc. }
  split_and!.
  - apply cstr_line; [done|by left].
  - rewrite Hcb. destruct code as [|x code]; [done|]. apply Forall_cons in Hx as [Hx _]. unfold has_prefix.
    apply bool_decide_false. cbn. intros [= E _]. subst x. done.
  - rewrite Hcb, <- app_assoc, strncpy_app by done. specialize (Hr []). by rewrite app_nil_r in Hr.
  - rewrite Hcb. replace (code ++ 32 :: print_int (ck_size c)) with ((code ++ [32]) ++ print_int (ck_size c)) by (by rewrite <- app_assoc).
    rewrite Hcb in H0. apply Forall_app in H0 as [_ H0]. apply Forall_cons in H0 as [_ H0].
    unfold cstr. rewrite <- app_assoc, zdrop_app_exact by (rewrite zlen_app, Hl; done).
    rewrite app_assoc, upto_nul_app; [done|]. apply Forall_app. split; [done|by repeat constructor].
  - by apply scan_print.
Qed.

Lemma parse_end_line buf : line_is buf (lit "file end") -> exists s, cstr buf 0 = Ok s /\ has_prefix (lit "file end") s = true.
Proof.
  intros [_ [junk ->]]. eexists. split; [apply cstr_line; [|by left]|done]. cbn. by repeat constructor.
Qed.

Definition bodies (cs : list chunk) : list (list Z) := map chunk_body cs ++ [lit "file end"].
Definition lines (ls : list (list Z)) : list Z := concat (map (fun b => b ++ [10]) ls).

(** Getting a line into an array of 128 bytes. *)
Lemma next_line buf fp body rest :
  zlen buf = 128 -> at_text fp ((body ++ [10]) ++ rest) -> no_break body -> zlen body <= 61 ->
  exists buf' fp', fgets buf 128 fp = Ok (buf', fp') /\ line_is buf' body /\ at_text fp' rest.
Proof.
  intros Hbuf Hat Hnb Hl. rewrite <- app_assoc in Hat.
  destruct (fgets_ok buf 128 fp body [10] rest Hat) as (fp' & Hf & Hat'); [by left|by apply no_break_10|lia|lia|].
  do 2 eexists. split; [exact Hf|]. split; [|done]. split; [|by eexists].
  rewrite app_assoc, zlen_app, zlen_cons, zlen_zdrop; rewrite zlen_app in *; change (zlen [10]) with 1; pose proof (zlen_nonneg body); lia.
Qed.

Lemma read_chunks_ok cs : forall fuel buf fp rest first others,
  Forall normal_chunk cs -> bodies cs = first :: others -> line_is buf first -> at_text fp (lines others ++ rest) ->
  (List.length cs < fuel)%nat ->
  exists buf' fp', read_trace_chunks fuel buf fp = Ok (map replayed_chunk cs, buf', fp') /\
    zlen buf' = 128 /\ at_text fp' rest.
Proof.
  induction cs as [|c cs IH]; intros fuel buf fp rest first others Hn Hb Hline Hat Hfu;
    (destruct fuel as [|fuel]; [cbn in Hfu; lia|]); cbn [read_trace_chunks].
  - injection Hb as <- <-. destruct (parse_end_line buf Hline) as (s & -> & Hp). step. rewrite Hp.
    exists buf, fp. split_and!; [done|apply Hline|exact Hat].
  - apply Forall_cons in Hn as [Hc Hn]. injection Hb as <- <-.
    destruct (parse_chunk_line c buf Hc Hline) as (s & r & -> & Hp & Hcode & Hr & Ha). step. rewrite Hp, Hcode. step. rewrite Hr. step.
    fold (bodies cs) in Hat. destruct (bodies cs) as [|first others] eqn:Eb; [by destruct cs|].
    change (lines (first :: others)) with ((first ++ [10]) ++ lines others) in Hat. rewrite <- app_assoc in Hat.
    assert (Hfirst : no_break first /\ zlen first <= 61).
    { destruct cs as [|c' cs]; injection Eb as <- _; [split; [by repeat constructor|done]|].
      apply Forall_cons in Hn as [Hc' _]. by apply chunk_body_ok. }
    destruct (next_line buf fp first (lines others ++ rest)) as (buf1 & fp1 & -> & Hl1 & Hat1); [apply Hline|done|apply Hfirst..|].
    step. destruct (IH fuel buf1 fp1 rest first others Hn eq_refl Hl1 Hat1) as (buf' & fp' & -> & Hb' & Hat'); [cbn in Hfu; lia|].
    step. exists buf', fp'. split; [|done]. cbn [map]. unfold replayed_chunk at 1. by rewrite Ha.
Qed.

(** ** A file and the stream *)

Definition file_text (f : stream_file) : list Z :=
  (lit "file start " ++ print_int (zlen (sf_name f)) ++ [10]) ++ (sf_name f ++ [10]) ++ lines (bodies (sf_chunks f)).

Lemma trace_chunks_text cs e rest :
  Forall normal_chunk cs -> CHECK_CHUNK e CHUNK_FILE_START = false -> CHECK_CHUNK e CHUNK_FILE_END = true ->
  trace_text (cs ++ e :: rest) = (t ← trace_text rest; Ok (lines (bodies cs) ++ t)).
Proof.
  intros Hn Hs He. induction Hn as [|c cs Hc _ IH]; cbn [app trace_text].
  - assert (trace_chunk_text e = Ok (lit "file end" ++ [10])) as ->.
    { unfold trace_chunk_text. by rewrite Hs, He. }
    step. by destruct (trace_text rest).
  - destruct (chunk_body_ok c Hc) as (-> & _). step. rewrite IH. destruct (trace_text rest); [|done]. rewrite !bind_ret.
    change (lines (bodies (c :: cs))) with ((chunk_body c ++ [10]) ++ lines (bodies cs)). by rewrite <- !app_assoc.
Qed.

Lemma trace_text_files files :
  Forall sf_wf files ->
  trace_text (concat (map sf_stream files)) = Ok (concat (map file_text files) ++ lit "stream end").
Proof.
  induction 1 as [|f files [Hs [junk Hd] [Hnm _] Hc [He1 He2]] _ IH]; [done|]. cbn [map concat]. unfold sf_stream at 1.
  cbn [app trace_text]. rewrite <- app_assoc. cbn [app]. rewrite trace_chunks_text, IH by done. step.
  assert (trace_chunk_text (sf_start f) = Ok (lit "file start " ++ print_int (zlen (sf_name f)) ++ [10] ++ sf_name f ++ [10])) as ->.
  { unfold trace_chunk_text. rewrite Hs, Hd. cbn [deref]. step. unfold cstr. rewrite zdrop_0, upto_nul_app by (by apply no_break_0).
    by step. }
  do 2 step. f_equal. unfold file_text. by rewrite <- !app_assoc.
Qed.

(** The line that starts a file. *)
Lemma parse_start_line buf n : 0 <= n < 2 ^ 31 -> line_is buf (lit "file start " ++ print_int n) ->
  exists s, cstr buf 0 = Ok s /\ s <> lit "stream end" /\ has_prefix (lit "file start ") s = true /\ scan_int (zdrop 11 s) = Some n.
Proof.
  intros Hn [_ [junk ->]]. destruct (print_int_no_break n Hn) as [Hp _].
  exists ((lit "file start " ++ print_int n) ++ [10]). split_and!.
  - apply cstr_line; [|by left]. apply Forall_app. split; [decide_it|by apply no_break_0].
  - discriminate.
  - rewrite <- app_assoc. unfold has_prefix. rewrite ztake_app_exact by done. done.
  - rewrite <- app_assoc, zdrop_app_exact by done. by apply scan_print.
Qed.

Lemma parse_stream_end buf fp : zlen buf = 128 -> at_text fp (lit "stream end") ->
  exists buf' fp', fgets buf 128 fp = Ok (buf', fp') /\ cstr buf' 0 = Ok (lit "stream end").
Proof.
  intros Hb Hat. destruct (fgets_ok buf 128 fp (lit "stream end") [] []) as (fp' & Hf & _).
  - by rewrite !app_nil_r.
  - by right.
  - decide_it.
  - done.
  - lia.
  - do 2 eexists. split; [exact Hf|]. apply cstr_line; [decide_it|by right].
Qed.

(** The name, read into the data of the chunk. *)
Lemma read_name fp name rest :
  at_text fp ((name ++ [10]) ++ rest) -> no_break name ->
  exists fp' data, fgets (fresh_bytes (zlen name + 2)) (zlen name + 2) fp = Ok (data, fp') /\ at_text fp' rest /\
    write_bytes data (zlen name) [0] = Ok (name ++ [0; 0]).
Proof.
  intros Hat Hn. pose proof (zlen_nonneg name). rewrite <- app_assoc in Hat.
  destruct (fgets_ok (fresh_bytes (zlen name + 2)) (zlen name + 2) fp name [10] rest Hat) as (fp' & Hf & Hat');
    [by left|by apply no_break_10|lia|rewrite zlen_fresh; lia|].
  do 2 eexists. split; [exact Hf|]. split; [done|].
  assert (zdrop (zlen (name ++ [10]) + 1) (fresh_bytes (zlen name + 2)) = []) as ->.
  { apply zlen_nil_inv. rewrite zlen_zdrop; rewrite zlen_app, zlen_fresh by lia; change (zlen [10]) with 1; lia. }
  apply write_bytes_Ok. rewrite !zlen_app. change (zlen [0]) with 1. change (zlen [10]) with 1.
  split_and!; [lia|lia|]. rewrite ztake_app_exact by done. f_equal. cbn [app].
  replace (name ++ [10; 0]) with ((name ++ [10]) ++ [0]) by (by rewrite <- app_assoc).
  rewrite zdrop_app_exact; [done|]. rewrite zlen_app. done.
Qed.

Lemma read_trace_files_ok fuel files : forall n buf fp,
  Forall sf_wf files -> Forall (fun f => (List.length (sf_chunks f) < fuel)%nat) files -> (List.length files < n)%nat ->
  zlen buf = 128 -> at_text fp (concat (map file_text files) ++ lit "stream end") ->
  read_trace_files n fuel buf fp = Ok (concat (map replayed files)).
Proof.
  induction files as [|f files IH]; intros n buf fp Hwf Hfu Hn Hb Hat; (destruct n as [|n]; [cbn in Hn; lia|]); cbn [read_trace_files].
  - destruct (parse_stream_end buf fp Hb Hat) as (buf' & fp' & -> & Hs). step. rewrite Hs. step.
    by rewrite bool_decide_true by done.
  - apply Forall_cons in Hwf as [[Hs [junk Hd] [Hnm Hnl] Hc He] Hwf]. apply Forall_cons in Hfu as [Hff Hfu].
    cbn [map concat] in Hat. unfold file_text at 1 in Hat. rewrite <- !(app_assoc _ _ (lit "stream end")), <- !(app_assoc _ _ (concat _ ++ _)) in Hat.
    pose proof (zlen_nonneg (sf_name f)). assert (Hnb : 0 <= zlen (sf_name f) < 2 ^ 31) by lia.
    destruct (print_int_no_break _ Hnb) as [Hp Hpl]. rewrite (app_assoc (lit _)) in Hat.
    destruct (next_line buf fp _ _ Hb Hat) as (buf1 & fp1 & -> & Hl1 & Hat1).
    { apply Forall_app. split; [decide_it|done]. }
    { rewrite zlen_app. change (zlen (lit "file start ")) with 11. lia. }
    step. destruct (parse_start_line _ _ Hnb Hl1) as (s & -> & Hse & Hpre & Hsc). step.
    rewrite bool_decide_false by done. rewrite Hpre, Hsc. cbn [c_assert]. step. step.
    rewrite swrap_id by (unfold in_s; change (2 ^ (32 - 1)) with (2 ^ 31); (done || lia)).
    rewrite new_chunk_pos by lia. cbn [ck_data deref]. step.
    destruct (read_name _ _ _ Hat1 Hnm) as (fp2 & data & -> & Hat2 & Hw). step. rewrite Hw. step.
    destruct (bodies (sf_chunks f)) as [|first others] eqn:Eb; [by destruct (sf_chunks f)|].
    change (lines (first :: others)) with ((first ++ [10]) ++ lines others) in Hat2. rewrite <- app_assoc in Hat2.
    destruct (next_line buf1 fp2 _ _ (proj1 Hl1) Hat2) as (buf3 & fp3 & -> & Hl3 & Hat3).
    { destruct (sf_chunks f) as [|c cs]; injection Eb as <- _; [decide_it|].
      apply Forall_cons in Hc as [Hc _]. by apply chunk_body_ok. }
    { destruct (sf_chunks f) as [|c cs]; injection Eb as <- _; [done|].
      apply Forall_cons in Hc as [Hc _]. by apply chunk_body_ok. }
    step. destruct (read_chunks_ok (sf_chunks f) fuel buf3 fp3 _ first others Hc Eb Hl3 Hat3 Hff) as (buf4 & fp4 & -> & Hb4 & Hat4).
    step. rewrite (IH n buf4 fp4) by (done || (cbn in Hn; lia)). step. cbn [map concat]. unfold replayed at 2.
    cbn [ck_size ck_flag ck_id ck_fp app]. by rewrite <- app_assoc.
Qed.

(** Replaying a trace gives the stream it was made from. For a stream of
    files whose names have no newline, the reader accepts the text that
    [make_trace] prints, never leaves its buffers, and delivers the same files:
    the same names, and chunks with the same fingerprints and sizes, in order. *)
Theorem trace_roundtrip files n fuel :
  Forall sf_wf files -> (List.length files < n)%nat -> Forall (fun f => (List.length (sf_chunks f) < fuel)%nat) files ->
  exists text, trace_text (concat (map sf_stream files)) = Ok text /\
    read_trace_thread n fuel text = Ok (concat (map replayed files)).
Proof.
  intros Hwf Hn Hfu. eexists. split; [by apply trace_text_files|]. unfold read_trace_thread.
  apply read_trace_files_ok; [done|done|done|done|apply at_text_start].
Qed.

Definition trace_demo : stream_file :=
  mk_sf [97; 98] (mk_chunk 3 CHUNK_FILE_START (-1) (zeros 20) (Some [97; 98; 0]))
    [mk_chunk 4096 0 (-1) (seqZ 200 20) None; mk_chunk 17 0 (-1) (seqZ 0 20) None] (mk_chunk 0 CHUNK_FILE_END (-1) (zeros 20) None).

Lemma trace_roundtrip_witness :
  exists text, trace_text (sf_stream trace_demo) = Ok text /\ read_trace_thread 2 3 text = Ok (replayed trace_demo).
Proof.
  destruct (trace_roundtrip [trace_demo] 2 3) as (text & Ht & Hr).
  - constructor; [|constructor]. split; [reflexivity|by exists []|split; decide_it| |done].
    unfold trace_demo, normal_chunk. cbn [sf_chunks]. repeat constructor; decide_it.
  - decide_it.
  - decide_it.
  - exists text. split; [exact Ht|exact Hr].
Defined.
