(* ===== verification/RestoreCache.v ===== *)
(** Fetching the chunks of a restore: [lru_restore_thread] of
    [destor/src/do_restore.c] and [assembly_restore.c].

    A thread is a function of what [restore_recipe_queue] delivers; its result is
    what it pushes into [restore_chunk_queue]. [stack k] are the bytes of the
    stack that a call of [get_chunk_in_container] leaves as the fingerprint of
    the chunk (see [Container]), for the [k]-th chunk or container of the restore;
    the theorems hold for any. *)

From S2P Require Import Prelude Serial CFile Glib Destor LruCache Container Segmenting.

(** The statistics of [jcr] a restore updates. *)
Record restore_stat := mk_rstat { rs_data_size : Z; rs_chunk_num : Z; rs_container_num : Z }.

Definition count_chunk (s : restore_stat) (size : Z) : restore_stat :=
  mk_rstat (s64 (rs_data_size s + size)) (s32 (rs_chunk_num s + 1)) (rs_container_num s).
Definition count_container (s : restore_stat) : restore_stat :=
  mk_rstat (rs_data_size s) (rs_chunk_num s) (s32 (rs_container_num s + 1)).

Section Restore.
Context `{HI : !HashIter fingerprint metaEntry} (simulation_level : Z) (stack : Z -> fingerprint).

(** ** LRU cache *)

Record lru_state (A : Type) := mk_lrs {
  ls_cache : lruCache A fingerprint;
  ls_store : cstore;
  ls_stat : restore_stat;
  ls_out : list chunk;       (** pushed into [restore_chunk_queue] *)
}.
Arguments mk_lrs {A} _ _ _ _.
Arguments ls_cache {A} _. Arguments ls_store {A} _. Arguments ls_stat {A} _. Arguments ls_out {A} _.

Definition push_out {A} (s : lru_state A) (c : chunk) : lru_state A :=
  mk_lrs (ls_cache s) (ls_store s) (ls_stat s) (ls_out s ++ [c]).

(** One round when only metadata is read. *)
Definition lru_meta_step (s : lru_state containerMeta) (c : chunk) : res (lru_state containerMeta) :=
  if is_file_flag c then Ok (push_out s c) else
  let '(cm, cache) := lru_cache_lookup (ls_cache s) (ck_fp c) in
  '(cache, st, stat) ← match cm with
    | Some _ => Ok (cache, ls_store s, ls_stat s)
    | None =>
        '(cm, st) ← retrieve_container_meta_by_id simulation_level (ls_store s) (ck_id c);
        _ ← c_assert (negb (lookup_fingerprint_in_container_meta cm (ck_fp c) =? 0));
        '(_, cache) ← lru_cache_insert cache cm;
        Ok (cache, st, count_container (ls_stat s))
    end;
  Ok (mk_lrs cache st (count_chunk stat (ck_size c)) (ls_out s)).

(** One round when chunks are restored. *)
Definition lru_data_step (s : lru_state container) (c : chunk) : res (lru_state container) :=
  if is_file_flag c then Ok (push_out s c) else
  let '(con, cache) := lru_cache_lookup (ls_cache s) (ck_fp c) in
  '(con, cache, st, stat) ← match con with
    | Some con => Ok (con, cache, ls_store s, ls_stat s)
    | None =>
        '(con, st) ← retrieve_container_by_id simulation_level (ls_store s) (ck_id c);
        '(_, cache) ← lru_cache_insert cache con;
        Ok (con, cache, st, count_container (ls_stat s))
    end;
  rc ← get_chunk_in_container simulation_level (stack (rs_chunk_num stat)) con (ck_fp c);
  Ok (mk_lrs cache st (count_chunk stat (ck_size c)) (ls_out s ++ [rc])).

Definition lru_restore_thread (cache_size : Z) (st : cstore) (stat : restore_stat) (restore_recipe_queue : list chunk) :
    res (list chunk * restore_stat * cstore) :=
  if SIMULATION_RESTORE <=? simulation_level then
    let cache := new_lru_cache cache_size (fun cm fp => negb (lookup_fingerprint_in_container_meta cm fp =? 0)) in
    s ← foldM lru_meta_step (mk_lrs cache st stat []) restore_recipe_queue;
    Ok (ls_out s, ls_stat s, ls_store s)
  else
    let cache := new_lru_cache cache_size (fun con fp => negb (lookup_fingerprint_in_container con fp =? 0)) in
    s ← foldM lru_data_step (mk_lrs cache st stat []) restore_recipe_queue;
    Ok (ls_out s, ls_stat s, ls_store s).

(** ** Forward assembly *)

Record assembly := mk_asm {
  area : list chunk;
  area_limit : Z;            (** [area_size] *)
  area_used : Z;             (** [size] *)
  as_store : cstore;
  as_stat : restore_stat;
}.

Definition init_assembly_area (cache_size : Z) (st : cstore) (stat : restore_stat) : assembly :=
  mk_asm [] ((cache_size - 1) * CONTAINER_SIZE) 0 st stat.

(** The signal chunks at the head of the area. *)
Fixpoint span_signals (l : list chunk) : list chunk * list chunk :=
  match l with
  | c :: l' => if is_file_flag c then let '(q, rest) := span_signals l' in (c :: q, rest) else ([], l)
  | [] => ([], [])
  end.

(** A chunk of the container that was read becomes ready. *)
Definition assemble_chunk (con : option container) (id k : Z) (c : chunk) : res chunk :=
  if negb (is_file_flag c) && (id =? ck_id c) then
    data ← (if simulation_level =? SIMULATION_NO then
              con ← deref con;
              buf ← get_chunk_in_container simulation_level (stack k) con (ck_fp c);
              _ ← c_assert (ck_size c =? ck_size buf);
              bs ← chunk_bytes buf (ck_size c);
              Ok (Some bs)
            else Ok (ck_data c));
    Ok (SET_CHUNK (mk_chunk (ck_size c) (ck_flag c) (ck_id c) (ck_fp c) data) CHUNK_READY)
  else Ok c.

Fixpoint assemble_chunks (con : option container) (id k : Z) (l : list chunk) : res (list chunk) :=
  match l with
  | [] => Ok []
  | c :: l => c ← assemble_chunk con id k c; l ← assemble_chunks con id k l; Ok (c :: l)
  end.

(** What is ready at the head of the area is issued. *)
Fixpoint issue (l : list chunk) (used : Z) : list chunk * list chunk * Z :=
  match l with
  | c :: l' =>
      if is_file_flag c then let '(q, rest, used) := issue l' used in (c :: q, rest, used)
      else if CHECK_CHUNK c CHUNK_READY then let '(q, rest, used) := issue l' (used - ck_size c) in (c :: q, rest, used)
      else ([], l, used)
  | [] => ([], [], used)
  end.

(** [None] is the null pointer of an empty area. *)
Definition assemble_area (s : assembly) : res (option (list chunk) * assembly) :=
  match area s with
  | [] => Ok (None, s)
  | _ =>
      let '(q, rest) := span_signals (area s) in
      match rest with
      | [] => Ok (Some q, mk_asm [] (area_limit s) (area_used s) (as_store s) (as_stat s))
      | c :: _ =>
          let id := ck_id c in
          let stat := count_container (as_stat s) in
          '(con, st) ← (if simulation_level =? SIMULATION_NO then
                          '(con, st) ← retrieve_container_by_id simulation_level (as_store s) id; Ok (Some con, st)
                        else Ok (None, as_store s));
          rest ← assemble_chunks con id (rs_container_num stat) rest;
          let '(q', rest, used) := issue rest (area_used s) in
          Ok (Some (q ++ q'), mk_asm rest (area_limit s) used st stat)
      end
  end.

(** The area with a chunk, and whether it is full; NULL stands for the end. *)
Definition assembly_area_push (s : assembly) (c : option chunk) : bool * assembly :=
  match c with
  | None => (true, s)
  | Some c =>
      let l := area s ++ [c] in
      if is_file_flag c then (false, mk_asm l (area_limit s) (area_used s) (as_store s) (as_stat s)) else
      let used := area_used s + ck_size c in
      (area_limit s <=? used, mk_asm l (area_limit s) used (as_store s) (as_stat s))
  end.

(** Popping an assembled queue: what goes on to the writer. *)
Definition issue_chunk (s : restore_stat * list chunk) (rc : chunk) : restore_stat * list chunk :=
  if is_file_flag rc then (s.1, s.2 ++ [rc]) else
  (count_chunk s.1 (ck_size rc), if SIMULATION_RESTORE <=? simulation_level then s.2 else s.2 ++ [rc]).

Definition drain_queue (s : assembly) (q out : list chunk) : assembly * list chunk :=
  let '(stat, out) := fold_left issue_chunk q (as_stat s, out) in
  (mk_asm (area s) (area_limit s) (area_used s) (as_store s) stat, out).

Definition assembly_step (s : assembly * list chunk) (c : chunk) : res (assembly * list chunk) :=
  let '(a, out) := s in
  let '(full, a) := assembly_area_push a (Some c) in
  if full : bool then
    '(q, a) ← assemble_area a; q ← deref q; Ok (drain_queue a q out)
  else Ok (a, out).

(** [while ((q = assemble_area()))] *)
Fixpoint assembly_rest (fuel : nat) (a : assembly) (out : list chunk) : res (assembly * list chunk) :=
  match fuel with
  | O => Err EFuel
  | S fuel =>
      '(q, a) ← assemble_area a;
      match q with
      | None => Ok (a, out)
      | Some q => let '(a, out) := drain_queue a q out in assembly_rest fuel a out
      end
  end.

Definition assembly_restore_thread (fuel : nat) (cache_size : Z) (st : cstore) (stat : restore_stat)
    (restore_recipe_queue : list chunk) : res (list chunk * restore_stat * cstore) :=
  '(a, out) ← foldM assembly_step (init_assembly_area cache_size st stat, []) restore_recipe_queue;
  let '(_, a) := assembly_area_push a None in
  '(a, out) ← assembly_rest fuel a out;
  Ok (out, as_stat a, as_store a).


(** ** What a restore has to deliver *)

Context `{HO : !HashIterOk fingerprint metaEntry}.

(** The bytes of every fingerprint: two stored chunks with the same fingerprint
    have the same bytes. *)
Context (content : fingerprint -> list Z).

(** [c] is on disk under its id, and its chunks hold their content. *)
Record stored (st : cstore) (c : container) : Prop := {
  sd_ok : container_ok simulation_level c;
  sd_id : 0 <= cm_id (c_meta c);
  sd_disk : on_disk simulation_level (fdata (cs_fp st)) c;
  sd_chunks fp : is_Some (cm_map (c_meta c) !! fp) -> chunk_in c fp (content fp);
}.

(** A chunk of the recipe: its container holds it. *)
Definition restorable (st : cstore) (c : chunk) : Prop :=
  is_file_flag c = true \/
  is_file_flag c = false /\ CHECK_CHUNK c CHUNK_READY = false /\ ck_size c = zlen (content (ck_fp c)) /\
  exists con, stored st con /\ cm_id (c_meta con) = ck_id c /\ is_Some (cm_map (c_meta con) !! ck_fp c).

(** [rc] is what the writer gets for the chunk [c] of the recipe. *)
Definition delivers (c rc : chunk) : Prop :=
  if is_file_flag c then rc = c
  else is_file_flag rc = false /\ ck_size rc = ck_size c /\ chunk_bytes rc (ck_size rc) = Ok (content (ck_fp c)).

Definition same_disk (st st' : cstore) : Prop := fdata (cs_fp st') = fdata (cs_fp st).

Lemma stored_same st st' c : same_disk st st' -> stored st c -> stored st' c.
Proof. intros E [H1 H2 H3 H4]. split; [done|done|by rewrite E|done]. Qed.

Lemma restorable_same st st' c : same_disk st st' -> restorable st c -> restorable st' c.
Proof.
  intros E [H|(H1 & H2 & H3 & con & Hs & Hid)]; [by left|right]. split_and!; [done..|].
  exists con. split; [by eapply stored_same|done].
Qed.

Lemma retrieve_same_disk st id c st' : retrieve_container_by_id simulation_level st id = Ok (c, st') -> same_disk st st'.
Proof.
  unfold retrieve_container_by_id, same_disk. destruct (SIMULATION_RESTORE <=? simulation_level); intros H;
    apply bind_Ok in H as (f & Hf & H); apply bind_Ok in H as ([buf f'] & Hr & H);
    apply bind_Ok in H as ([m cur] & _ & H); apply bind_Ok in H as (u & _ & H); injection H as _ <-;
    cbn [set_fp cs_fp]; apply fseek_Ok in Hf as [_ ->]; apply fread_into_data in Hr; exact Hr.
Qed.

Context (sim : simulation_level < SIMULATION_RESTORE).

(** What a cached container promises. *)
Definition cached_ok (con : container) : Prop :=
  forall fp, is_Some (cm_map (c_meta con) !! fp) -> forall arg, exists rc,
    get_chunk_in_container simulation_level arg con fp = Ok rc /\ is_file_flag rc = false /\
    ck_size rc = zlen (content fp) /\ chunk_bytes rc (ck_size rc) = Ok (content fp).

Lemma get_chunk_normal arg con fp rc : get_chunk_in_container simulation_level arg con fp = Ok rc -> is_file_flag rc = false.
Proof.
  unfold get_chunk_in_container. destruct (get_metaentry_in_container_meta _ _); [|done]. intros H.
  apply bind_Ok in H as (d & _ & [= <-]). done.
Qed.

Lemma retrieve_cached st con :
  stored st con -> exists con' st', retrieve_container_by_id simulation_level st (cm_id (c_meta con)) = Ok (con', st') /\
    same_disk st st' /\ c_meta con' = c_meta con /\ cached_ok con'.
Proof.
  intros [Hok Hid Hd Hch]. destruct (on_disk_reads_as simulation_level st con Hok Hid Hd) as (con' & st' & Hr & Hm & Hc).
  exists con', st'. split_and!; [exact Hr|by eapply retrieve_same_disk|done|]. intros fp Hin arg. rewrite Hm in Hin.
  destruct (Hc fp (content fp) arg sim (Hch fp Hin)) as (rc & Hg & Hb & _). exists rc.
  split_and!; [done|by eapply get_chunk_normal| |done]. symmetry. by eapply chunk_bytes_size.
Qed.

(** ** The LRU cache delivers *)

Lemma lookup_container_true con fp :
  negb (lookup_fingerprint_in_container con fp =? 0) = true -> is_Some (cm_map (c_meta con) !! fp).
Proof.
  unfold lookup_fingerprint_in_container, lookup_fingerprint_in_container_meta. case_bool_decide as E; cbn; [done|].
  intros _. by apply not_eq_None_Some.
Qed.

Record lru_inv (st : cstore) (s : lru_state container) (consumed : list chunk) : Prop := {
  li_wf : lru_wf (ls_cache s);
  li_hit : hit_elem (ls_cache s) = fun con fp => negb (lookup_fingerprint_in_container con fp =? 0);
  li_cached : Forall cached_ok (elem_queue (ls_cache s));
  li_disk : same_disk st (ls_store s);
  li_out : Forall2 delivers consumed (ls_out s);
}.

(** A hit gives a container that holds the fingerprint. *)
Lemma lru_lookup_hit st s consumed fp : lru_inv st s consumed ->
  let '(r, cache) := lru_cache_lookup (ls_cache s) fp in
  lru_wf cache /\ hit_elem cache = hit_elem (ls_cache s) /\ Forall cached_ok (elem_queue cache) /\
  match r with Some con => cached_ok con /\ is_Some (cm_map (c_meta con) !! fp) | None => True end.
Proof.
  intros [Hw Hh Hc _ _]. pose proof (lru_cache_lookup_wf _ fp Hw) as Hw'. unfold lru_cache_lookup in *.
  destruct (split_first _ _) as [[[pre e] post]|] eqn:E; cbn in *; [|by split_and!].
  apply split_first_Some in E as (E & He & _). rewrite E in Hc. apply Forall_app in Hc as [H1 [H2 H3]%Forall_cons].
  rewrite Hh in He. split_and!; try done; [by constructor; [|apply Forall_app]|by apply lookup_container_true].
Qed.

Lemma lru_data_step_ok st s consumed c : lru_inv st s consumed -> restorable st c ->
  exists s', lru_data_step s c = Ok s' /\ lru_inv st s' (consumed ++ [c]).
Proof.
  intros Hi Hr. unfold lru_data_step. destruct Hr as [Hf|(Hf & _ & Hsz & con & Hs & Hid & Hin)]; rewrite Hf.
  { destruct Hi as [H1 H2 H3 H4 H5]. eexists; split; [reflexivity|]. split; cbn; try done.
    apply Forall2_app; [done|]. constructor; [|done]. unfold delivers. by rewrite Hf. }
  pose proof (lru_lookup_hit _ _ _ (ck_fp c) Hi) as Hl. destruct (lru_cache_lookup _ _) as [r cache]. destruct Hl as (Hw & Hh & Hc & Hr).
  destruct Hi as [_ Hh' _ Hd Ho]. rewrite Hh' in Hh.
  assert (Hput : forall cache' st' stat con', lru_wf cache' -> hit_elem cache' = hit_elem cache -> Forall cached_ok (elem_queue cache') ->
    same_disk st st' -> cached_ok con' -> is_Some (cm_map (c_meta con') !! ck_fp c) ->
    exists s', (rc ← get_chunk_in_container simulation_level (stack (rs_chunk_num stat)) con' (ck_fp c);
      Ok (mk_lrs cache' st' (count_chunk stat (ck_size c)) (ls_out s ++ [rc]))) = Ok s' /\ lru_inv st s' (consumed ++ [c])).
  { intros cache' st' stat con' W H C D K I. destruct (K _ I (stack (rs_chunk_num stat))) as (rc & -> & E1 & E2 & E3).
    eexists. split; [reflexivity|]. split; cbn; try done; [congruence|]. apply Forall2_app; [done|]. constructor; [|done].
    unfold delivers. rewrite Hf. split_and!; [done|lia|done]. }
  destruct r as [con'|].
  - step. destruct Hr. by apply Hput.
  - destruct (retrieve_cached (ls_store s) con) as (con' & st' & Er & Ed & Em & Hcon); [by eapply stored_same|].
    rewrite Hid in Er. rewrite Er. step. destruct (lru_cache_insert_spec cache con' Hw) as (v & cache' & -> & W & _ & H & Q & _). step.
    apply Hput; [done..| |by etrans|done|by rewrite Em].
    assert (F : Forall cached_ok (elem_queue cache' ++ option_list v)) by (rewrite Q; by constructor). by apply Forall_app in F as [? _].
Qed.

Lemma lru_restore_delivers cache_size st stat queue : Forall (restorable st) queue ->
  exists out stat' st', lru_restore_thread cache_size st stat queue = Ok (out, stat', st') /\ Forall2 delivers queue out.
Proof.
  intros Hq. unfold lru_restore_thread. destruct (Z.leb_spec SIMULATION_RESTORE simulation_level); [lia|].
  edestruct (foldM_run lru_data_step (lru_inv st) (restorable st) queue) as (s & -> & Hs); [apply lru_data_step_ok| |done|].
  { split; cbn; [apply new_lru_cache_wf|done..]. }
  step. destruct Hs. by repeat eexists.
Qed.

(** ** Forward assembly delivers *)

(** What becomes of the chunk [c] of the recipe in the area. *)
Definition in_area (c a : chunk) : Prop :=
  a = c \/
  is_file_flag c = false /\ is_file_flag a = false /\ CHECK_CHUNK a CHUNK_READY = true /\
  ck_id a = ck_id c /\ ck_fp a = ck_fp c /\ ck_size a = ck_size c /\ chunk_bytes a (ck_size a) = Ok (content (ck_fp c)).

Lemma in_area_fields c a : in_area c a ->
  is_file_flag a = is_file_flag c /\ ck_id a = ck_id c /\ ck_fp a = ck_fp c /\ ck_size a = ck_size c.
Proof. intros [->|(-> & -> & _ & -> & -> & -> & _)]; done. Qed.

(** What leaves the area is what the writer has to get. *)
Lemma in_area_issued st c a : restorable st c -> in_area c a ->
  is_file_flag a = true \/ CHECK_CHUNK a CHUNK_READY = true -> delivers c a.
Proof.
  unfold delivers. intros Hr [->|(Hc & Ha & Hrd & _ & _ & Hs & Hb)] Hi; [|by rewrite Hc].
  destruct (is_file_flag c) eqn:E; [done|]. destruct Hi as [Hi|Hi]; [done|].
  destruct Hr as [Hf|(_ & Hn & _)]; congruence.
Qed.

Lemma is_file_flag_ready c : is_file_flag (SET_CHUNK c CHUNK_READY) = is_file_flag c.
Proof. unfold is_file_flag. rewrite !CHECK_SET. cbn. by rewrite !orb_false_r. Qed.

Lemma span_signals_spec l q rest : span_signals l = (q, rest) ->
  l = q ++ rest /\ Forall (fun c => is_file_flag c = true) q /\ match rest with c :: _ => is_file_flag c = false | [] => True end.
Proof.
  revert q rest. induction l as [|c l IH]; intros q rest; cbn; [by intros [= <- <-]|].
  destruct (is_file_flag c) eqn:Hc; [|by intros [= <- <-]].
  destruct (span_signals l) as [q' rest'] eqn:E. intros [= <- <-]. destruct (IH _ _ eq_refl) as (-> & H1 & H2).
  split_and!; [done|by constructor|done].
Qed.

(** A prefix of what is pending can leave: [pend = d ++ p]. *)
Definition leaves (pend d p q rest : list chunk) : Prop := pend = d ++ p /\ Forall2 delivers d q /\ Forall2 in_area p rest.

Lemma signals_leave st pend q rest : Forall (restorable st) pend -> Forall2 in_area pend (q ++ rest) ->
  Forall (fun c => is_file_flag c = true) q -> exists d p, leaves pend d p q rest.
Proof.
  intros Hr H%Forall2_app_inv_r Hq. destruct H as (d & p & Hd & Hp & ->). exists d, p. split_and!; [done| |done].
  apply Forall_app in Hr as [Hr _]. clear Hp p. induction Hd as [|c a d q Hca _ IH]; [done|].
  apply Forall_cons in Hr as [Hc Hr], Hq as [Ha Hq]. constructor; [|by apply IH]. eapply in_area_issued; eauto.
Qed.

Lemma issue_leaves st pend l : Forall (restorable st) pend -> Forall2 in_area pend l -> forall used,
  let '(q, rest, _) := issue l used in exists d p, leaves pend d p q rest /\
    (d = [] -> match l with a :: _ => CHECK_CHUNK a CHUNK_READY = false | [] => True end).
Proof.
  intros Hr H. induction H as [|c a pend l Hca Hl IH]; intros used; cbn; [by exists [], []|].
  apply Forall_cons in Hr as [Hc Hr]. destruct (is_file_flag a) eqn:Hf; [|destruct (CHECK_CHUNK a CHUNK_READY) eqn:Hrd].
  - specialize (IH Hr used). destruct (issue l used) as [[q rest] u]. destruct IH as (d & p & (-> & Hd & Hp) & _).
    exists (c :: d), p. split; [|done]. split_and!; [done| |done]. constructor; [|done]. eapply in_area_issued; eauto.
  - specialize (IH Hr (used - ck_size a)). destruct (issue l _) as [[q rest] u]. destruct IH as (d & p & (-> & Hd & Hp) & _).
    exists (c :: d), p. split; [|done]. split_and!; [done| |done]. constructor; [|done]. eapply in_area_issued; eauto.
  - exists [], (c :: pend). split; [|done]. split_and!; [done..|by constructor].
Qed.

(** Two containers stored under one id have one table of contents. *)
Lemma stored_unique st c1 c2 : stored st c1 -> stored st c2 -> cm_id (c_meta c1) = cm_id (c_meta c2) -> c_meta c1 = c_meta c2.
Proof.
  intros H1 H2 E. destruct (retrieve_cached st c1 H1) as (k1 & s1 & R1 & _ & M1 & _), (retrieve_cached st c2 H2) as (k2 & s2 & R2 & _ & M2 & _).
  rewrite E in R1. congruence.
Qed.

Context (sim_no : simulation_level = SIMULATION_NO).

Lemma assemble_chunk_ok st con con' k c a :
  stored st con -> c_meta con' = c_meta con -> cached_ok con' -> restorable st c -> in_area c a ->
  exists a', assemble_chunk (Some con') (cm_id (c_meta con)) k a = Ok a' /\ in_area c a' /\
    (is_file_flag a = false -> ck_id a = cm_id (c_meta con) -> CHECK_CHUNK a' CHUNK_READY = true).
Proof.
  intros Hs Hm Hk Hr Ha. destruct (in_area_fields _ _ Ha) as (Hf & Hi & Hp & Hz). unfold assemble_chunk. rewrite Hf, Hi.
  destruct Hr as [Hr|(Hr & Hn & Hsz & conc & Hs' & Hid & Hin)]; rewrite Hr; cbn [negb andb]; [by exists a|].
  destruct (Z.eqb_spec (cm_id (c_meta con)) (ck_id c)) as [E|E]; [|exists a; split_and!; [done..|congruence]].
  rewrite sim_no. cbn [Z.eqb]. cbn [deref]. step. rewrite Hp, Hz, <- sim_no.
  rewrite (stored_unique st conc con Hs' Hs) in Hin by congruence.
  destruct (Hk (ck_fp c)) with (arg := stack k) as (rc & Hg & _ & Hrs & Hb); [by rewrite Hm|].
  rewrite Hg. step. rewrite Hrs in *. rewrite Hsz, !Z.eqb_refl. cbn [c_assert]. step. rewrite Hb. step.
  eexists. split; [reflexivity|].
  assert (Hrd : CHECK_CHUNK (SET_CHUNK (mk_chunk (zlen (content (ck_fp c))) (ck_flag a) (ck_id c) (ck_fp c) (Some (content (ck_fp c)))) CHUNK_READY) CHUNK_READY = true)
    by (rewrite CHECK_SET; cbn; apply orb_true_r).
  split; [|done]. right. split_and!; [done| |done..|].
  - rewrite is_file_flag_ready, <- Hr, <- Hf. done.
  - cbn. unfold chunk_bytes. cbn. by apply read_all.
Qed.

Lemma assemble_chunks_ok st con con' k pend l :
  stored st con -> c_meta con' = c_meta con -> cached_ok con' -> Forall (restorable st) pend -> Forall2 in_area pend l ->
  exists l', assemble_chunks (Some con') (cm_id (c_meta con)) k l = Ok l' /\ Forall2 in_area pend l' /\
    match l, l' with
    | a :: _, a' :: _ => is_file_flag a = false -> ck_id a = cm_id (c_meta con) -> CHECK_CHUNK a' CHUNK_READY = true
    | _, _ => True
    end.
Proof.
  intros Hs Hm Hk Hr H. induction H as [|c a pend l Hca Hl IH]; [by exists []|].
  apply Forall_cons in Hr as [Hc Hr]. destruct (assemble_chunk_ok st con con' k c a) as (a' & E & Ha & Hrd); [done..|].
  destruct (IH Hr) as (l' & E' & Hl' & _). cbn. rewrite E. step. rewrite E'. step. eexists. split_and!; [done|by constructor|done].
Qed.

(** A non-empty area issues at least one chunk. *)
Lemma assemble_area_ok st s pend :
  same_disk st (as_store s) -> Forall (restorable st) pend -> Forall2 in_area pend (area s) -> pend <> [] ->
  exists q s' d p, assemble_area s = Ok (Some q, s') /\ same_disk st (as_store s') /\ d <> [] /\ leaves pend d p q (area s').
Proof.
  intros Hd Hr Hp Hne. unfold assemble_area. destruct (area s) as [|a0 l0] eqn:Ea; [by inversion Hp; subst|]. rewrite <- Ea in *. clear a0 l0 Ea.
  destruct (span_signals (area s)) as [q rest] eqn:E. apply span_signals_spec in E as (E & Hq & Hh). rewrite E in Hp.
  destruct (signals_leave st pend q rest Hr Hp Hq) as (d & p & -> & Hdq & Hpr).
  destruct rest as [|a rest]; [|].
  { inversion Hpr; subst. do 4 eexists. split_and!; [reflexivity|done|by rewrite app_nil_r in Hne|split_and!; [done..|constructor]]. }
  inversion Hpr as [|c ? p' ? Hca Hp']; subst. apply Forall_app in Hr as [_ Hr]. pose proof Hr as [Hc _]%Forall_cons.
  destruct (in_area_fields _ _ Hca) as (Hf & Hi & _). destruct Hc as [Hc|(_ & _ & _ & con & Hs & Hid & _)]; [congruence|].
  destruct (retrieve_cached (as_store s) con) as (con' & st' & Er & Ed & Em & Hcon); [by eapply stored_same|].
  rewrite Hi, <- Hid, (proj2 (Z.eqb_eq _ _) sim_no), Er. step.
  destruct (assemble_chunks_ok st con con' (rs_container_num (count_container (as_stat s))) (c :: p') (a :: rest)) as (l' & El & Hl & Hrd);
    [done..|]. step. rewrite El. step.
  pose proof (issue_leaves st (c :: p') l' Hr Hl (area_used s)) as Hiss. destruct (issue l' (area_used s)) as [[q' rest'] used].
  destruct Hiss as (d' & p & (Hdp & Hd' & Hp2) & Hnz). do 2 eexists. exists (d ++ d'), p. split_and!; [reflexivity|cbn; by etrans| |].
  - intros [_ ->]%app_eq_nil. specialize (Hnz eq_refl). destruct l' as [|a' l']; [inversion Hl|]. rewrite Hrd in Hnz; [done|congruence..].
  - split_and!; [by rewrite Hdp, app_assoc|by apply Forall2_app|done].
Qed.

Record asm_inv (st : cstore) (s : assembly * list chunk) (consumed : list chunk) : Prop := {
  ai_disk : same_disk st (as_store s.1);
  ai_rest : Forall (restorable st) consumed;
  ai_chunks : exists d p, leaves consumed d p s.2 (area s.1);
}.

Lemma drain_queue_spec s q out : exists stat, drain_queue s q out = (mk_asm (area s) (area_limit s) (area_used s) (as_store s) stat, out ++ q).
Proof.
  unfold drain_queue. enough (G : forall st out, exists st', fold_left issue_chunk q (st, out) = (st', out ++ q)).
  { destruct (G (as_stat s) out) as [st' ->]. by exists st'. }
  induction q as [|c q IH]; intros st o; cbn; [exists st; by rewrite app_nil_r|]. unfold issue_chunk at 2. cbn [fst snd].
  destruct (is_file_flag c); [|destruct (Z.leb_spec SIMULATION_RESTORE simulation_level); [lia|]];
    match goal with |- context [fold_left _ _ (?s1, _)] => destruct (IH s1 (o ++ [c])) as [st' ->] end;
    exists st'; by rewrite <- app_assoc.
Qed.

(** A round of [assemble_area] and the loop that empties its queue. *)
Lemma assemble_drain_ok st a out consumed : asm_inv st (a, out) consumed -> area a <> [] ->
  exists q a', assemble_area a = Ok (Some q, a') /\ asm_inv st (drain_queue a' q out) consumed /\
    (length (area (drain_queue a' q out).1) < length (area a))%nat.
Proof.
  intros [Hd Hr (d & p & -> & Hdo & Hpa)] Hne. cbn in *. apply Forall_app in Hr as [Hr1 Hr2].
  destruct (assemble_area_ok st a p) as (q & a' & d' & p' & E & Hd' & Hnz & -> & Hq & Hp'); [done..|by intros ->; inversion Hpa; subst|].
  exists q, a'. destruct (drain_queue_spec a' q out) as [stat ->]. split_and!; [done| |].
  - split; cbn; [done|by apply Forall_app|]. exists (d ++ d'), p'. split_and!; [by rewrite <- app_assoc|by apply Forall2_app|done].
  - cbn. apply Forall2_length in Hpa, Hp'. rewrite <- Hpa, <- Hp'. rewrite length_app. destruct d'; [done|cbn; lia].
Qed.

Lemma assembly_step_ok st s consumed c : asm_inv st s consumed -> restorable st c ->
  exists s', assembly_step s c = Ok s' /\ asm_inv st s' (consumed ++ [c]).
Proof.
  destruct s as [a out]. intros [Hd Hr (d & p & -> & Hdo & Hpa)] Hc. cbn in *. unfold assembly_step.
  assert (H : forall a', area a' = area a ++ [c] -> as_store a' = as_store a -> asm_inv st (a', out) ((d ++ p) ++ [c]) /\ area a' <> []).
  { intros a' E1 E2. split; [split; cbn|]; [by rewrite E2|by apply Forall_app; split; [|constructor]| |by rewrite E1; destruct (area a)].
    exists d, (p ++ [c]). split_and!; [by rewrite app_assoc|done|]. rewrite E1. apply Forall2_app; [done|]. constructor; [by left|done]. }
  unfold assembly_area_push. destruct (is_file_flag c); [eexists; split; [reflexivity|by apply H]|].
  destruct (area_limit a <=? area_used a + ck_size c); [|eexists; split; [reflexivity|by apply H]].
  destruct (H (mk_asm (area a ++ [c]) (area_limit a) (area_used a + ck_size c) (as_store a) (as_stat a))) as [Hi Hn]; [done..|]. destruct (assemble_drain_ok _ _ _ _ Hi Hn) as (q & a' & E & Hi' & _).
  rewrite E. step. cbn [deref]. step. by eexists.
Qed.

Lemma assembly_rest_ok st fuel a out consumed : asm_inv st (a, out) consumed -> (length (area a) < fuel)%nat ->
  exists a' out', assembly_rest fuel a out = Ok (a', out') /\ Forall2 delivers consumed out'.
Proof.
  revert a out. induction fuel as [|fuel IH]; intros a out Hi Hl; [lia|]. cbn.
  destruct (decide (area a = [])) as [E|E].
  - unfold assemble_area. rewrite E. step. do 2 eexists. split; [reflexivity|]. destruct Hi as [_ _ (d & p & -> & Ho & Hp)]. cbn in *.
    rewrite E in Hp. inversion Hp; subst. by rewrite app_nil_r.
  - destruct (assemble_drain_ok _ _ _ _ Hi E) as (q & a' & -> & Hi' & Hlt). step. destruct (drain_queue a' q out) as [a2 o2]. apply IH; [done|]. cbn in Hlt. lia.
Qed.

Lemma assembly_restore_delivers fuel cache_size st stat queue : Forall (restorable st) queue -> (length queue < fuel)%nat ->
  exists out stat' st', assembly_restore_thread fuel cache_size st stat queue = Ok (out, stat', st') /\ Forall2 delivers queue out.
Proof.
  intros Hq Hl. unfold assembly_restore_thread.
  edestruct (foldM_run assembly_step (asm_inv st) (restorable st) queue) as ([a out] & -> & Hs); [apply assembly_step_ok| |done|].
  { split; cbn; [done|constructor|]. exists [], []. by split_and!. }
  step. cbn [assembly_area_push]. destruct (assembly_rest_ok st fuel a out queue Hs) as (a' & out' & -> & Hout).
  { destruct Hs as [_ _ (d & p & -> & _ & Hp)]. cbn in Hp. apply Forall2_length in Hp. rewrite length_app in Hl. lia. }
  step. by repeat eexists.
Qed.

(** What the writer uses of a chunk. *)
Definition served (c : chunk) : bool * Z * res (list Z) := (is_file_flag c, ck_size c, chunk_bytes c (ck_size c)).

Lemma delivers_served c r1 r2 : delivers c r1 -> delivers c r2 -> served r1 = served r2.
Proof using.
  unfold delivers, served. destruct (is_file_flag c); [by intros -> ->|].
  intros (-> & E1 & E2) (-> & E3 & E4). by rewrite E2, E4, E1, E3.
Qed.

Lemma delivers_map_served queue o1 o2 : Forall2 delivers queue o1 -> Forall2 delivers queue o2 -> map served o1 = map served o2.
Proof using.
  intros D1. revert o2. induction D1 as [|c r queue o1 D1 _ IH]; intros o2 D2.
  - by apply Forall2_nil_inv_l in D2 as ->.
  - apply Forall2_cons_inv_l in D2 as (r2 & o2' & D2 & Hrest & ->). cbn. f_equal; [by eapply delivers_served|by apply IH].
Qed.

(** C13: the restore caches are interchangeable. Over any store and any sequence of
    chunks whose containers are on disk, the LRU cache and the forward assembly
    area, whatever their sizes, terminate without an error and serve the writer
    the same sequence: every chunk of the recipe once, in order, with its bytes. *)
Theorem restore_caches_agree fuel size1 size2 st stat queue :
  Forall (restorable st) queue -> (length queue < fuel)%nat ->
  exists out1 stat1 st1 out2 stat2 st2,
    lru_restore_thread size1 st stat queue = Ok (out1, stat1, st1) /\
    assembly_restore_thread fuel size2 st stat queue = Ok (out2, stat2, st2) /\
    Forall2 delivers queue out1 /\ map served out1 = map served out2.
Proof.
  intros Hq Hf. destruct (lru_restore_delivers size1 st stat queue Hq) as (o1 & s1 & t1 & E1 & D1).
  destruct (assembly_restore_delivers fuel size2 st stat queue Hq Hf) as (o2 & s2 & t2 & E2 & D2).
  exists o1, s1, t1, o2, s2, t2. split_and!; [done..|]. by eapply delivers_map_served.
Qed.
End Restore.

(** ** Witness *)

Section Demo.
#[local] Existing Instance std_hash_iter.
#[local] Existing Instance std_hash_iter_ok.

Definition demo_pointer : chunk := mk_chunk 3 0 0 (ck_fp demo_chunk) None.
Definition demo_name : chunk := SET_CHUNK (block_chunk [97; 0]) CHUNK_FILE_START.
Definition demo_recipe : list chunk := [demo_name; demo_pointer; demo_pointer; SET_CHUNK (new_chunk 0) CHUNK_FILE_END].

Definition demo_pointer_to (id : Z) : chunk := mk_chunk 3 0 id (ck_fp demo_chunk) None.

(** Demonstration containers on disk can be restored from. *)
Lemma demo_restorable_from (k : nat) : Z.of_nat k <= count_max ->
  exists st, forall id, 0 <= id < Z.of_nat k -> restorable 0 (fun _ => [1; 2; 3]) st (demo_pointer_to id).
Proof.
  intros Hk. destruct (demo_rounds k Hk) as (st & log & Hr & Hb & _ & Hl). exists st. intros id Hid. destruct (Hl id Hid) as (c & Hc & Hin & Hall).
  pose proof (sys_reachable_inv 0 _ _ container_demo_start Hr) as Hi. destruct (si_log _ _ Hi id c Hc) as (Hok & _ & Eid & _).
  assert (Hd : on_disk 0 (fdata (cs_fp st)) c).
  { destruct (si_kept _ _ Hi id c Hc) as [H|H]; [|done]. cbn in H. rewrite Hb in H. set_solver. }
  right. do 3 (split; [reflexivity|]). exists c. split_and!; [|done|destruct Hin as (me & d & Hm & _); exists me; exact Hm].
  split; [done|rewrite Eid; lia|done|]. intros fp Hf. by rewrite (Hall fp Hf).
Qed.

Lemma demo_restorable : exists st, Forall (restorable 0 (fun _ => [1; 2; 3]) st) demo_recipe.
Proof.
  destruct (demo_restorable_from 1) as [st H]; [by vm_compute|]. exists st. pose proof (H 0 ltac:(lia)) as Hp.
  unfold demo_recipe. rewrite !Forall_cons. split_and!; try exact Hp; try (by left).
Qed.

Lemma restore_caches_agree_witness : exists st out1 stat1 st1,
  lru_restore_thread 0 (fun _ => []) 4 st (mk_rstat 0 0 0) demo_recipe = Ok (out1, stat1, st1) /\
  Forall2 (delivers (fun _ => [1; 2; 3])) demo_recipe out1.
Proof.
  destruct demo_restorable as [st Hr].
  destruct (restore_caches_agree 0 (fun _ => []) (fun _ => [1; 2; 3]) eq_refl eq_refl 5 4 4 st (mk_rstat 0 0 0) demo_recipe)
    as (o1 & s1 & t1 & _ & _ & _ & E & _ & D & _); [exact Hr|repeat constructor|].
  exists st, o1, s1, t1. split; [exact E|exact D].
Defined.
End Demo.
