(* ===== verification/Replacement.v ===== *)
(** Cache replacement, independent of a particular cache: what a policy may do,
    and the potential that shows farthest-in-the-future replacement to be the
    cheapest ([OptRestore] applies it to [destor/src/optimal_restore.c]). *)

From S2P Require Import Prelude.

Section Replacement.
Context {K : Type} `{Countable K} (n : nat).
Implicit Types (B C : gset K) (l : list K).

(** A policy with a cache of [n] elements: the accesses so far, what is cached,
    and the number of loads. It loads on demand and may drop what it likes. *)
Inductive cache_run : list K -> gset K -> nat -> Prop :=
| run_start : cache_run [] ∅ 0
| run_hit l C C' k a : cache_run l C k -> a ∈ C -> a ∈ C' -> C' ⊆ C -> cache_run (l ++ [a]) C' k
| run_miss l C C' k a : cache_run l C k -> a ∉ C -> a ∈ C' -> C' ⊆ {[a]} ∪ C -> (size C' <= n)%nat ->
    cache_run (l ++ [a]) C' (S k).

Lemma run_size l C k : cache_run l C k -> (size C <= n)%nat.
Proof.
  induction 1 as [|l C C' k a _ IH _ _ Hs|l C C' k a _ _ _ _ _ Hs]; [rewrite size_empty; apply Nat.le_0_l| |exact Hs].
  etransitivity; [|exact IH]. by apply subseteq_size.
Qed.

Lemma run_snoc l a C' k' : cache_run (l ++ [a]) C' k' ->
  exists C k, cache_run l C k /\ a ∈ C' /\
    ((a ∈ C /\ C' ⊆ C /\ k' = k) \/ (a ∉ C /\ C' ⊆ {[a]} ∪ C /\ (size C' <= n)%nat /\ k' = S k)).
Proof.
  intros Hr. remember (l ++ [a]) as s eqn:E. destruct Hr as [|l0 C C0 k a0 H0 H1 H2 H3|l0 C C0 k a0 H0 H1 H2 H3 H4].
  - by destruct l.
  - apply app_inj_tail in E as [-> ->]. exists C, k. split_and!; [done..|]. by left.
  - apply app_inj_tail in E as [-> ->]. exists C, k. split_and!; [done..|]. by right.
Qed.

(** The elements that the next [t] accesses need. *)
Definition near (t : nat) l : gset K := list_to_set (take t l).

Lemma near_S t a l : near (S t) (a :: l) = {[a]} ∪ near t l.
Proof. done. Qed.

(** [y] is needed no sooner than any other element of [B]. *)
Definition farthest l B (y : K) : Prop := forall t, y ∈ near t l -> B ⊆ near t l.

(** How many more of the elements that are needed soon the other cache holds. *)
Definition ahead (l : list K) B C (p : nat) : Prop := forall t, (size (C ∩ near t l) <= size (B ∩ near t l) + p)%nat.

(** The elements other than [a] that are needed within [t] accesses. *)
Definition others (a : K) (t : nat) l (X : gset K) : nat := size ((X ∖ {[a]}) ∩ near t l).

Lemma size_take_out (a : K) (X : gset K) : a ∈ X -> size X = S (size (X ∖ {[a]})).
Proof.
  intros Ha. rewrite (union_difference_singleton_L a X Ha) at 1. rewrite size_union by set_solver. by rewrite size_singleton.
Qed.

Lemma size_near_S (a : K) t l X : size (X ∩ near (S t) (a :: l)) = ((if decide (a ∈ X) then 1 else 0) + others a t l X)%nat.
Proof.
  rewrite near_S. unfold others. destruct (decide (a ∈ X)).
  - rewrite (size_take_out a) by set_solver. cbn. do 2 f_equal. apply leibniz_equiv. set_solver.
  - cbn. f_equal. apply leibniz_equiv. set_solver.
Qed.

Lemma size_near (a : K) t l X : a ∈ X -> size (X ∩ near t l) = ((if decide (a ∈ near t l) then 1 else 0) + others a t l X)%nat.
Proof.
  intros Ha. unfold others. destruct (decide (a ∈ near t l)).
  - rewrite (size_take_out a) by set_solver. cbn. do 2 f_equal. apply leibniz_equiv. set_solver.
  - cbn. f_equal. apply leibniz_equiv. set_solver.
Qed.

Lemma others_0 a l X : others a 0 l X = 0%nat.
Proof. unfold others, near. apply size_empty_iff. set_solver. Qed.

Lemma others_mono a t l X Y : X ⊆ {[a]} ∪ Y -> (others a t l X <= others a t l Y)%nat.
Proof. intros HX. apply subseteq_size. set_solver. Qed.

Lemma ahead_now a l B C p t : ahead (a :: l) B C p ->
  ((if decide (a ∈ C) then 1 else 0) + others a t l C <= (if decide (a ∈ B) then 1 else 0) + others a t l B + p)%nat.
Proof. intros Hp. specialize (Hp (S t)). by rewrite !size_near_S in Hp. Qed.

Lemma ahead_next a l B' C' p : a ∈ B' -> a ∈ C' -> (forall t, (others a t l C' <= others a t l B' + p)%nat) -> ahead l B' C' p.
Proof. intros HB HC Ho t. rewrite !(size_near a) by done. specialize (Ho t). lia. Qed.

(** What farthest-in-the-future replacement makes of its cache. *)
Definition farthest_step (a : K) l B B' : Prop :=
  a ∈ B /\ B' = B \/
  a ∉ B /\ (size B < n)%nat /\ B' = {[a]} ∪ B \/
  a ∉ B /\ size B = n /\ exists y, y ∈ B /\ farthest l B y /\ B' = {[a]} ∪ (B ∖ {[y]}).

(** A policy that is ahead by [p] elements has paid for them. *)
Lemma farthest_ahead a l B B' C C' p kB kC :
  farthest_step a l B B' -> ahead (a :: l) B C p -> (kB + p <= kC)%nat ->
  a ∈ C' -> C' ⊆ {[a]} ∪ C -> (size C' <= n)%nat ->
  exists p', ahead l B' C' p' /\
    ((if decide (a ∈ B) then kB else S kB) + p' <= (if decide (a ∈ C) then kC else S kC))%nat.
Proof.
  intros HB Hp Hk HaC HC Hn.
  assert (Hnow : forall t, ((if decide (a ∈ C) then 1 else 0) + others a t l C' <= (if decide (a ∈ B) then 1 else 0) + others a t l B + p)%nat).
  { intros t. pose proof (ahead_now a l B C p t Hp). pose proof (others_mono a t l C' C HC). lia. }
  assert (HC' : forall t, (S (others a t l C') <= n)%nat).
  { intros t. rewrite (size_take_out a C' HaC) in Hn. unfold others.
    assert (size ((C' ∖ {[a]}) ∩ near t l) <= size (C' ∖ {[a]}))%nat by (apply subseteq_size; set_solver). lia. }
  destruct HB as [[Ha ->]|HB].
  - rewrite (decide_True (P := a ∈ B)) in * by done. destruct (decide (a ∈ C)).
    + exists p. split; [|lia]. apply (ahead_next a); [set_solver|done|]. intros t. specialize (Hnow t). lia.
    + exists (S p). split; [|lia]. apply (ahead_next a); [set_solver|done|]. intros t. specialize (Hnow t). lia.
  - assert (Hmiss : a ∉ B /\ a ∈ B' /\ forall t, (others a t l B' = others a t l B \/ others a t l C' <= others a t l B')%nat).
    { destruct HB as [(Ha & _ & ->)|(Ha & Hs & y & Hy & Hf & ->)].
      - split_and!; [done|set_solver|]. intros t. left. unfold others. f_equal. apply leibniz_equiv. set_solver.
      - split_and!; [done|set_solver|]. intros t. destruct (decide (y ∈ near t l)) as [Hyt|Hyt].
        + right. specialize (Hf t Hyt). specialize (HC' t).
          assert (others a t l ({[a]} ∪ (B ∖ {[y]})) = size (B ∖ {[y]})) as ->.
          { unfold others. f_equal. apply leibniz_equiv. set_solver. }
          rewrite (size_take_out y B Hy) in Hs. lia.
        + left. unfold others. f_equal. apply leibniz_equiv. set_solver. }
    destruct Hmiss as (Ha & Ha' & Ho). rewrite (decide_False (P := a ∈ B)) in * by done. destruct (decide (a ∈ C)).
    + pose proof (Hnow 0%nat) as H0. rewrite (others_0 a l B) in H0.
      exists (p - 1)%nat. split; [|lia]. apply (ahead_next a); [set_solver|done|]. intros t. specialize (Hnow t). destruct (Ho t); lia.
    + exists p. split; [|lia]. apply (ahead_next a); [set_solver|done|]. intros t. specialize (Hnow t). destruct (Ho t); lia.
Qed.

(** A cache after [kB] loads that no policy can beat by more than it has paid. *)
Definition unbeaten (seen todo : list K) B (kB : nat) : Prop :=
  forall C k, cache_run seen C k -> exists p, ahead todo B C p /\ (kB + p <= k)%nat.

Lemma unbeaten_start l : unbeaten [] l ∅ 0.
Proof.
  intros C k Hr. exists 0%nat. split; [|lia]. remember [] as s eqn:E.
  destruct Hr as [|l0|l0]; [intros t; lia|by destruct l0..].
Qed.

Lemma unbeaten_step seen a l B B' kB : farthest_step a l B B' -> unbeaten seen (a :: l) B kB ->
  unbeaten (seen ++ [a]) l B' (if decide (a ∈ B) then kB else S kB).
Proof.
  intros HB Hu C' k' Hr'. pose proof (run_size _ _ _ Hr') as Hn. destruct (run_snoc _ _ _ _ Hr') as (C & k & Hr & Ha & Hc).
  destruct (Hu C k Hr) as (p & Hp & Hk).
  destruct (farthest_ahead a l B B' C C' p kB k HB Hp Hk Ha) as (p' & Hp' & Hk'); [|done|].
  { destruct Hc as [(_ & ? & _)|(_ & ? & _)]; set_solver. }
  exists p'. split; [done|]. destruct Hc as [(Hin & _ & ->)|(Hin & _ & _ & ->)]; destruct (decide (a ∈ C)); done.
Qed.

Lemma unbeaten_loads seen B kB C k : unbeaten seen [] B kB -> cache_run seen C k -> (kB <= k)%nat.
Proof. intros Hu Hr. destruct (Hu C k Hr) as (p & _ & ?). lia. Qed.
End Replacement.
