(* ===== verification/OptRestore.v ===== *)
(** The restore cache that knows the future: [destor/src/optimal_restore.c].

    The recipe's access records tell which containers the next chunks need. A
    window of them is kept as a table from container ids to the sequence numbers
    of the accesses to come; when the cache is full, a container whose next access
    is farthest away, or that is not needed in the window, is evicted.

    The records of cached containers are kept in a sequence of pointers into the
    table; a pointer is the id of its record ([load] reads the records it points
    to). The operations that exist for containers and for their metadata are
    written once, over the functions they differ in. *)

From S2P Require Import Prelude Serial CFile Glib Destor LruCache Container Recipe Segmenting RestoreCache Replacement.

Record accessRecords := mk_ar { ar_cid : Z; seqno_queue : list Z }.

(** Ascending order of the first sequence numbers. *)
Definition g_access_records_cmp_by_first_seqno (a b : accessRecords) : Z :=
  match head (seqno_queue a), head (seqno_queue b) with
  | None, _ => 1
  | _, None => -1
  | Some da, Some db => s32 (da - db)
  end.

(** The window, with the statics of the recipe store it reads through. *)
Record ahead_window := mk_win {
  current_sequence_number : Z;
  access_record_table : gmap Z (list Z);
  buffered_access_record_num : Z;
  win_bv : backupVersion;
  win_end : bool;
}.

Definition add_record (w : ahead_window) (id : Z) : ahead_window :=
  let r := default [] (access_record_table w !! id) in
  mk_win (s32 (current_sequence_number w + 1)) (<[id := r ++ [current_sequence_number w]]> (access_record_table w))
    (buffered_access_record_num w) (win_bv w) (win_end w).

Definition set_buffered (w : ahead_window) (n : Z) : ahead_window :=
  mk_win (current_sequence_number w) (access_record_table w) n (win_bv w) (win_end w).
Definition set_table (w : ahead_window) (t : gmap Z (list Z)) : ahead_window :=
  mk_win (current_sequence_number w) t (buffered_access_record_num w) (win_bv w) (win_end w).

Section Optimal.
Context `{SS : !SeqSort accessRecords} (restore_opt_window_size : Z).

Definition optimal_cache_window_fill (w : ahead_window) : ahead_window :=
  let n := s32 (restore_opt_window_size - buffered_access_record_num w) in
  match read_next_n_records (win_bv w) n (win_end w) with
  | (Some (k :: ids), bv, at_end) =>
      fold_left add_record ids
        (mk_win (current_sequence_number w) (access_record_table w) (s32 (buffered_access_record_num w + k)) bv at_end)
  | _ => w
  end.

Definition optimal_cache_window_slides (w : ahead_window) (id : Z) : res ahead_window :=
  let w := if s32 (buffered_access_record_num w * 2) <=? restore_opt_window_size then optimal_cache_window_fill w else w in
  match access_record_table w !! id with
  | None => Err EAssert
  | Some q => Ok (set_buffered (set_table w (<[id := tail q]> (access_record_table w))) (s32 (buffered_access_record_num w - 1)))
  end.

(** What the sequence points to. *)
Fixpoint load (t : gmap Z (list Z)) (seq : list Z) : res (list accessRecords) :=
  match seq with
  | [] => Ok []
  | id :: seq => q ← deref (t !! id); rs ← load t seq; Ok (mk_ar id q :: rs)
  end.

(** Up to ten records before the last one that have no access to come. *)
Fixpoint more_victims (i : nat) (rs : list accessRecords) : list Z :=
  match i, rs with
  | S i, r :: rs => match seqno_queue r with [] => ar_cid r :: more_victims i rs | _ => [] end
  | _, _ => []
  end.

(** The candidates for eviction, from the end of the sorted sequence. *)
Definition candidates (sorted : list accessRecords) : res (list Z) :=
  match rev sorted with
  | [] => Err ENull
  | r :: rs => Ok (ar_cid r :: more_victims 10 rs)
  end.

Section Cache.
Context {A : Type} (id_of : A -> Z) (retrieve : cstore -> Z -> res (A * cstore)).

Record opt_state := mk_opt {
  op_window : ahead_window;
  sorted_records : list Z;
  op_lru : lruCache A fingerprint;
  op_last_id : Z;              (** the static of [optimal_cache_hits] *)
  op_store : cstore;
  op_stat : restore_stat;
  op_out : list chunk;
}.

Definition init_optimal_cache (bv : backupVersion) (cache_size : Z) (hit : A -> fingerprint -> bool) (st : cstore) (stat : restore_stat) : opt_state :=
  mk_opt (optimal_cache_window_fill (mk_win 0 ∅ 0 bv false)) [] (new_lru_cache cache_size hit) TEMPORARY_ID st stat [].

Definition optimal_cache_hits (s : opt_state) (id : Z) : res (bool * opt_state) :=
  w ← (if negb (op_last_id s =? id) then optimal_cache_window_slides (op_window s) id else Ok (op_window s));
  let '(e, c) := lru_cache_hits (op_lru s) id (fun a id => id_of a =? id) in
  Ok (match e with Some _ => true | None => false end,
      mk_opt w (sorted_records s) c id (op_store s) (op_stat s) (op_out s)).

(** The eviction. When no container is among the candidates the source goes on
    with the victim of an earlier call, or with a null pointer. *)
Definition evict (s : opt_state) : res opt_state :=
  records ← load (access_record_table (op_window s)) (sorted_records s);
  let sorted := seq_sort g_access_records_cmp_by_first_seqno records in
  ht ← candidates sorted;
  let '(e, c) := lru_cache_kicks (op_lru s) ht (fun a ht => bool_decide (id_of a ∈ ht)) in
  victim ← deref e;
  match split_first (fun r => ar_cid r =? id_of victim) (rev sorted) with
  | None => Err EFuel
  | Some (after, r, before) =>
      let t := access_record_table (op_window s) in
      let t := match seqno_queue r with [] => delete (ar_cid r) t | _ => t end in
      Ok (mk_opt (set_table (op_window s) t) (map ar_cid (rev before ++ rev after)) c (op_last_id s) (op_store s) (op_stat s) (op_out s))
  end.

Definition optimal_cache_insert (s : opt_state) (id : Z) : res opt_state :=
  s ← (if lru_cache_is_full (op_lru s) then evict s else Ok s);
  let stat := count_container (op_stat s) in
  '(con, st) ← retrieve (op_store s) id;
  '(_, c) ← lru_cache_insert (op_lru s) con;
  match access_record_table (op_window s) !! id with
  | None => Err EAssert
  | Some q =>
      records ← load (access_record_table (op_window s)) (sorted_records s);
      let seq := insert_sorted g_access_records_cmp_by_first_seqno (mk_ar id q) records in
      Ok (mk_opt (op_window s) (map ar_cid seq) c (op_last_id s) st stat (op_out s))
  end.

(** A round of the thread; [serve] is what it pushes for a chunk. *)
Definition optimal_step (serve : opt_state -> fingerprint -> res opt_state) (s : opt_state) (c : chunk) : res opt_state :=
  if is_file_flag c then Ok (mk_opt (op_window s) (sorted_records s) (op_lru s) (op_last_id s) (op_store s) (op_stat s) (op_out s ++ [c])) else
  s ← ('(hit, s) ← optimal_cache_hits s (ck_id c);
       if hit : bool then Ok s else optimal_cache_insert s (ck_id c));
  s ← serve s (ck_fp c);
  Ok (mk_opt (op_window s) (sorted_records s) (op_lru s) (op_last_id s) (op_store s) (count_chunk (op_stat s) (ck_size c)) (op_out s)).
End Cache.

Context `{HI : !HashIter fingerprint metaEntry} (simulation_level : Z) (stack : Z -> fingerprint).

(** [optimal_cache_lookup] and the push of the chunk. *)
Definition optimal_cache_lookup (s : @opt_state container) (fp : fingerprint) : res (@opt_state container) :=
  let '(con, c) := lru_cache_lookup (op_lru s) fp in
  con ← deref con;
  rc ← get_chunk_in_container simulation_level (stack (rs_chunk_num (op_stat s))) con fp;
  Ok (mk_opt (op_window s) (sorted_records s) c (op_last_id s) (op_store s) (op_stat s) (op_out s ++ [rc])).

Definition container_id (con : container) : Z := cm_id (c_meta con).

Definition optimal_restore_thread (cache_size : Z) (bv : backupVersion) (st : cstore) (stat : restore_stat)
    (restore_recipe_queue : list chunk) : res (list chunk * restore_stat * cstore) :=
  if simulation_level =? SIMULATION_NO then
    s ← foldM (optimal_step container_id (retrieve_container_by_id simulation_level) optimal_cache_lookup)
          (init_optimal_cache bv cache_size (fun con fp => negb (lookup_fingerprint_in_container con fp =? 0)) st stat) restore_recipe_queue;
    Ok (op_out s, op_stat s, op_store s)
  else
    s ← foldM (optimal_step cm_id (retrieve_container_meta_by_id simulation_level) (fun s _ => Ok s))
          (init_optimal_cache bv cache_size (fun cm fp => negb (lookup_fingerprint_in_container_meta cm fp =? 0)) st stat) restore_recipe_queue;
    Ok (op_out s, op_stat s, op_store s).
End Optimal.

(** ** The window *)

(** The accesses to [id] among the records [p], [p + 1], ... before [cur]. *)
Definition positions (R : list Z) (p cur : nat) (id : Z) : list Z :=
  map Z.of_nat (filter (fun i => R !! i = Some id) (seq p (cur - p))).

Lemma positions_snoc R p cur x id : (p <= cur)%nat -> R !! cur = Some x ->
  positions R p (S cur) id = positions R p cur id ++ (if decide (x = id) then [Z.of_nat cur] else []).
Proof.
  intros Hp Hx. unfold positions. rewrite Nat.sub_succ_l, seq_S, filter_app, map_app by done. f_equal.
  replace (p + (cur - p))%nat with cur by lia. rewrite filter_cons. destruct (decide (x = id)) as [->|].
  - by rewrite decide_True.
  - rewrite decide_False by congruence. done.
Qed.

Lemma positions_pop R p cur x id : (p < cur)%nat -> R !! p = Some x ->
  positions R p cur id = (if decide (x = id) then [Z.of_nat p] else []) ++ positions R (S p) cur id.
Proof.
  intros Hp Hx. unfold positions. replace (cur - p)%nat with (S (cur - S p)) by lia. cbn [seq]. rewrite filter_cons.
  destruct (decide (x = id)) as [->|]; [by rewrite decide_True|by rewrite decide_False by congruence].
Qed.

Lemma positions_none R p id : positions R p p id = [].
Proof. unfold positions. by rewrite Nat.sub_diag. Qed.

Lemma elem_positions R p cur id z : z ∈ positions R p cur id <-> exists i, z = Z.of_nat i /\ (p <= i < cur)%nat /\ R !! i = Some id.
Proof.
  unfold positions. rewrite list_elem_of_fmap. setoid_rewrite list_elem_of_filter. setoid_rewrite elem_of_seq.
  split; intros (i & ? & ?); exists i; naive_solver lia.
Qed.

Lemma positions_head R p cur id s z : head (positions R p cur id) = Some s -> z ∈ positions R p cur id -> s <= z.
Proof.
  intros Hs Hz. assert (Hsort : StronglySorted Z.le (positions R p cur id)).
  { clear s z Hs Hz. unfold positions. generalize (cur - p)%nat as k. intros k. revert p. induction k as [|k IH]; intros p; cbn [seq]; [constructor|].
    rewrite filter_cons. destruct (decide _); [|by apply IH]. cbn [map]. constructor; [by apply IH|].
    apply Forall_forall. intros y (i & -> & Hi)%list_elem_of_fmap. apply list_elem_of_filter in Hi as [_ Hi%elem_of_seq]. lia. }
  destruct (positions R p cur id) as [|y l]; [done|]. injection Hs as ->.
  apply StronglySorted_inv in Hsort as [_ Hall]. apply elem_of_cons in Hz as [->|Hz]; [lia|]. rewrite Forall_forall in Hall. by apply Hall.
Qed.

(** The window as a list. *)
Definition ahead_of (R : list Z) (p cur : nat) : list Z := take (cur - p) (drop p R).

(** The first position tells within how many accesses a container is needed. *)
Lemma near_head R p cur id t : (cur <= length R)%nat ->
  id ∈ near t (ahead_of R p cur) <-> exists s, head (positions R p cur id) = Some s /\ s < Z.of_nat (p + t).
Proof.
  intros Hc. unfold near, ahead_of. rewrite elem_of_list_to_set, elem_of_take. setoid_rewrite lookup_take_Some. setoid_rewrite lookup_drop. split.
  - intros (i & (Hi & Hl) & Ht). destruct (head (positions R p cur id)) as [s|] eqn:E.
    + exists s. split; [done|]. assert (Hz : Z.of_nat (p + i) ∈ positions R p cur id) by (apply elem_positions; exists (p + i)%nat; split_and!; [done|lia|lia|done]).
      pose proof (positions_head _ _ _ _ _ _ E Hz). lia.
    + assert (Hz : Z.of_nat (p + i) ∈ positions R p cur id) by (apply elem_positions; exists (p + i)%nat; split_and!; [done|lia|lia|done]).
      destruct (positions R p cur id); [by apply elem_of_nil in Hz|done].
  - intros (s & E & Hs). assert (Hz : s ∈ positions R p cur id) by (destruct (positions R p cur id); [done|]; injection E as ->; by left).
    apply elem_positions in Hz as (i & -> & Hi & Hl). exists (i - p)%nat. replace (p + (i - p))%nat with i by lia. split_and!; [done|lia|lia].
Qed.

(** The table over the records [p] to [cur]: an entry for every container that is
    accessed there, and for those that must be kept. *)
Definition table_ok (R : list Z) (p cur : nat) (live : gset Z) (w : ahead_window) : Prop :=
  current_sequence_number w = Z.of_nat cur /\
  forall id, access_record_table w !! id =
    if decide (positions R p cur id = [] /\ id ∉ live) then None else Some (positions R p cur id).

Lemma table_queue R p cur live w id : table_ok R p cur live w -> default [] (access_record_table w !! id) = positions R p cur id.
Proof. intros [_ Ht]. rewrite Ht. by destruct (decide _) as [[-> _]|]. Qed.

Section WindowOk.
Context `{SS : !SeqSort accessRecords} (W : Z) (acc : list Z).
Context (HW : 0 < W < 2 ^ 30) (Hacc : Forall (in_s 64) acc) (Hnt : Forall (fun id => id <> TEMPORARY_ID) acc) (Hlen : zlen acc < 2 ^ 29).

(** The records of the version. *)
Definition records : list Z := acc ++ [TEMPORARY_ID].

Lemma length_records : length records = S (length acc).
Proof using. unfold records. rewrite length_app. cbn. lia. Qed.

Lemma records_small : (Z.of_nat (length records) <= 2 ^ 29).
Proof using Hlen. rewrite length_records. unfold zlen in Hlen. lia. Qed.

Record win_ok (p cur : nat) (live : gset Z) (w : ahead_window) : Prop := {
  wo_cur : (p <= cur <= length records)%nat;
  wo_table : table_ok records p cur live w;
  wo_num : buffered_access_record_num w = Z.of_nat (cur - p);
  wo_file : record_fp (win_bv w) = mk_file (ids_bytes records) (8 * Z.of_nat cur);
  wo_end : win_end w = bool_decide (cur = length records);
}.

Lemma add_record_ok p cur live w x : (p <= cur)%nat -> (cur < length records)%nat -> records !! cur = Some x ->
  table_ok records p cur live w -> table_ok records p (S cur) live (add_record w x).
Proof using Hlen.
  intros Hp Hc Hx Ht. pose proof records_small. pose proof (table_queue _ _ _ _ _ x Ht) as Hq. destruct Ht as [Hn Ht].
  unfold add_record. split; cbn [current_sequence_number access_record_table]; [rewrite Hn, s32_id; lia|].
  intros id. rewrite Hq, Hn, (positions_snoc _ _ _ x) by done. destruct (decide (x = id)) as [->|Hne].
  - rewrite lookup_insert_eq, decide_False; [done|]. intros [E _]. by destruct (positions _ _ _ _).
  - rewrite lookup_insert_ne, app_nil_r by done. apply Ht.
Qed.

Lemma add_records_ok p live k : forall cur w, (p <= cur)%nat -> (cur + k <= length records)%nat -> table_ok records p cur live w ->
  let w' := fold_left add_record (take k (drop cur records)) w in
  table_ok records p (cur + k) live w' /\ buffered_access_record_num w' = buffered_access_record_num w /\ win_bv w' = win_bv w /\ win_end w' = win_end w.
Proof using Hlen.
  induction k as [|k IH]; intros cur w Hp Hc Ht.
  - cbn. rewrite Nat.add_0_r. by split_and!.
  - destruct (lookup_lt_is_Some_2 records cur ltac:(lia)) as [x Hx]. rewrite (drop_S _ x) by done. cbn [take fold_left].
    destruct (IH (S cur) (add_record w x)) as (H1 & H2 & H3 & H4); [lia|lia|apply add_record_ok; [done|lia|done..]|].
    replace (cur + S k)%nat with (S cur + k)%nat by lia. by split_and!.
Qed.

(** Filling the window. *)
Lemma window_fill_ok p cur live w : win_ok p cur live w -> buffered_access_record_num w < W ->
  win_ok p (Nat.min (length records) (p + Z.to_nat W)) live (optimal_cache_window_fill W w).
Proof using Hacc Hnt Hlen HW.
  intros [Hc Ht Hn Hf He] Hlt. pose proof records_small as Hsm. unfold optimal_cache_window_fill. rewrite Hn in *.
  rewrite s32_id by lia. rewrite He. case_bool_decide as Hend.
  { cbn [read_next_n_records]. subst cur. rewrite Nat.min_l by lia. split; try done. by rewrite bool_decide_true. }
  assert (Hsplit : records = take cur records ++ drop cur acc ++ [TEMPORARY_ID]).
  { rewrite length_records in *. rewrite <- (take_drop cur records) at 1. f_equal. unfold records. apply drop_app_le. lia. }
  assert (Hz : 8 * Z.of_nat cur = zlen (ids_bytes (take cur records))).
  { rewrite zlen_ids_bytes. unfold zlen. rewrite length_take. lia. }
  assert (Hd : drop cur acc ++ [TEMPORARY_ID] = drop cur records) by (rewrite length_records in *; unfold records; symmetry; apply drop_app_le; lia).
  rewrite (read_records_spec _ (drop cur acc) _ (ids_bytes (take cur records)));
    [|lia|by rewrite Hf, Hz, <- ids_bytes_app, <- Hsplit|by apply Forall_drop|by apply Forall_drop].
  rewrite Hd, <- ids_bytes_app, <- Hz.
  set (k := Nat.min (Z.to_nat (W - Z.of_nat (cur - p))) (length records - cur)).
  assert (Ek : take (Z.to_nat (W - Z.of_nat (cur - p))) (drop cur records) = take k (drop cur records)).
  { unfold k. destruct (Nat.le_gt_cases (Z.to_nat (W - Z.of_nat (cur - p))) (length records - cur)); [by rewrite Nat.min_l|].
    rewrite Nat.min_r by lia. rewrite !take_ge; [done|..]; rewrite length_drop; lia. }
  rewrite Ek. assert (Hzk : zlen (take k (drop cur records)) = Z.of_nat k).
  { unfold zlen. rewrite length_take, length_drop. unfold k. lia. }
  rewrite Hzk. set (w1 := mk_win _ _ _ _ _).
  destruct (add_records_ok p live k cur w1) as (Ht' & Hb & Hbv & He'); [lia|unfold k; lia|exact Ht|].
  assert (Hk : (cur + k)%nat = Nat.min (length records) (p + Z.to_nat W)) by (unfold k; lia). rewrite <- Hk.
  split; [unfold k; lia|exact Ht'|rewrite Hb; unfold w1; cbn [buffered_access_record_num]; rewrite s32_id by (unfold k; lia); unfold k; lia| |].
  - rewrite Hbv. unfold w1. cbn [win_bv bv_set_record record_fp]. rewrite take_drop. f_equal. lia.
  - rewrite He'. unfold w1. cbn [win_end]. unfold zlen. rewrite length_drop. rewrite length_records in *.
    apply eq_bool_prop_intro. rewrite bool_decide_spec. destruct (Z.ltb_spec (Z.of_nat (length acc - cur)) (W - Z.of_nat (cur - p))); unfold k; cbn; split; try done; lia.
Qed.

Lemma table_pop p cur live w id : (p < cur)%nat -> records !! p = Some id -> table_ok records p cur live w ->
  access_record_table w !! id = Some (positions records p cur id) /\
  forall n, table_ok records (S p) cur ({[id]} ∪ live) (set_buffered (set_table w (<[id := tail (positions records p cur id)]> (access_record_table w))) n).
Proof using HW Hacc Hlen Hnt.
  intros Hp Hx [Hn Ht]. split.
  - rewrite Ht, decide_False; [done|]. intros [E _]. rewrite (positions_pop _ _ _ id), decide_True in E by done. done.
  - intros n. split; [done|]. intros id'. cbn [access_record_table set_buffered set_table]. destruct (decide (id = id')) as [<-|Hne].
    + rewrite lookup_insert_eq, (positions_pop _ p _ id), decide_True by done. cbn [app tail]. symmetry. apply decide_False. set_solver.
    + rewrite lookup_insert_ne, Ht by done. rewrite (positions_pop records p cur id id') by done.
      rewrite (decide_False (P := id = id')) by done. cbn [app]. destruct (decide _), (decide _); set_solver.
Qed.

(** An access leaves the window. *)
Lemma window_slides_ok p cur live w id : win_ok p cur live w -> acc !! p = Some id ->
  exists cur' w', optimal_cache_window_slides W w id = Ok w' /\ win_ok (S p) cur' ({[id]} ∪ live) w' /\
    ((length records <= Z.to_nat W)%nat -> cur = length records -> cur' = length records).
Proof using Hacc Hnt Hlen HW.
  intros Hw Hid. pose proof records_small as Hsm. pose proof length_records as Hl. pose proof (lookup_lt_Some _ _ _ Hid) as Hp.
  assert (Hx : records !! p = Some id) by (unfold records; by apply lookup_app_l_Some).
  assert (Hnext : exists cur' w', (if s32 (buffered_access_record_num w * 2) <=? W then optimal_cache_window_fill W w else w) = w' /\
    win_ok p cur' live w' /\ (p < cur')%nat /\ ((length records <= Z.to_nat W)%nat -> cur = length records -> cur' = length records)).
  { pose proof Hw as [Hc _ Hn _ _]. rewrite Hn. rewrite s32_id by lia. destruct (Z.leb_spec (Z.of_nat (cur - p) * 2) W).
    - eexists _, _. split_and!; [reflexivity|eapply window_fill_ok; [exact Hw|lia]|lia|lia].
    - eexists _, _. split_and!; [reflexivity|exact Hw|lia|done]. }
  destruct Hnext as (cur' & w' & E & [Hc Ht Hn Hf He] & Hlt & Hall). unfold optimal_cache_window_slides. rewrite E. cbv zeta.
  destruct (table_pop _ _ _ _ _ Hlt Hx Ht) as [-> Ht']. exists cur'. eexists. split; [reflexivity|]. split; [|done].
  split; [lia|apply Ht'| |done|done]. cbn [buffered_access_record_num set_buffered]. rewrite Hn, s32_id by lia. lia.
Qed.

Lemma table_drop p cur live w y : win_ok p cur live w ->
  win_ok p cur (live ∖ {[y]}) (set_table w (match positions records p cur y with [] => delete y (access_record_table w) | _ => access_record_table w end)).
Proof using HW Hacc Hlen Hnt.
  intros [Hc [Hn Ht] Hb Hf He]. split; try done. split; [done|]. intros id. cbn [access_record_table set_table].
  destruct (decide (id = y)) as [->|Hne].
  - destruct (positions records p cur y) eqn:E.
    + rewrite lookup_delete_eq, decide_True; [done|]. split; [done|set_solver].
    + rewrite Ht, E, !decide_False by naive_solver. done.
  - assert (E : access_record_table w !! id = if decide (positions records p cur id = [] /\ id ∉ live ∖ {[y]}) then None else Some (positions records p cur id)).
    { rewrite Ht. destruct (decide _), (decide _); set_solver. }
    destruct (positions records p cur y); [by rewrite lookup_delete_ne|done].
Qed.

(** ** The order of the cached containers *)

Definition record_at (p cur : nat) (id : Z) : accessRecords := mk_ar id (positions records p cur id).

Lemma load_ok p cur live w seq : table_ok records p cur live w -> Forall (fun id => id ∈ live) seq ->
  load (access_record_table w) seq = Ok (map (record_at p cur) seq).
Proof using HW.
  intros [_ Ht]. induction 1 as [|id seq Hid _ IH]; [done|]. cbn [load map]. rewrite Ht, decide_False by naive_solver.
  cbn [deref]. step. by rewrite IH.
Qed.

Lemma record_head p cur id s : (cur <= length records)%nat -> head (positions records p cur id) = Some s -> 0 <= s < 2 ^ 30.
Proof using HW Hlen.
  intros Hc Hs. pose proof records_small. assert (Hz : s ∈ positions records p cur id) by (destruct (positions records p cur id); [done|]; injection Hs as ->; by left).
  apply elem_positions in Hz as (i & -> & Hi & _). lia.
Qed.

(** Containers that have an access to come in the window. *)
Definition needed (p cur : nat) (ids : list Z) : Prop := forall id, id ∈ ids -> positions records p cur id <> [].

(** On their records the comparison is an order. *)
Definition needed_record (r : accessRecords) : Prop := exists s, head (seqno_queue r) = Some s /\ 0 <= s < 2 ^ 30.

Lemma cmp_first x y s t : head (seqno_queue x) = Some s -> head (seqno_queue y) = Some t -> 0 <= s < 2 ^ 30 -> 0 <= t < 2 ^ 30 ->
  g_access_records_cmp_by_first_seqno x y = s - t.
Proof using. intros Es Et Hs Ht. unfold g_access_records_cmp_by_first_seqno. rewrite Es, Et, s32_id; [done|lia]. Qed.

Lemma needed_order : cmp_ok needed_record g_access_records_cmp_by_first_seqno.
Proof using.
  split.
  - intros x y (s & Es & Hs) (t & Et & Ht). rewrite (cmp_first x y s t), (cmp_first y x t s) by done. lia.
  - intros x y z (s & Es & Hs) (t & Et & Ht) (u & Eu & Hu). rewrite (cmp_first x y s t), (cmp_first y z t u), (cmp_first x z s u) by done. lia.
Qed.

Lemma needed_records p cur ids : (cur <= length records)%nat -> needed p cur ids -> Forall needed_record (map (record_at p cur) ids).
Proof using HW Hlen.
  intros Hc Hn. apply Forall_map, Forall_forall. intros id Hid. specialize (Hn id Hid). destruct (positions records p cur id) as [|s l] eqn:E; [done|].
  exists s. cbn [record_at seqno_queue]. rewrite E. split; [done|]. apply (record_head p cur id); [done|by rewrite E].
Qed.

Context `{LO : !SeqSortOk accessRecords}.

Lemma more_victims_spec i rs y : y ∈ more_victims i rs -> exists r, r ∈ rs /\ ar_cid r = y /\ seqno_queue r = [].
Proof.
  revert rs. induction i as [|i IH]; intros [|r rs]; cbn [more_victims]; [by intros ?%elem_of_nil..|].
  destruct (seqno_queue r) eqn:E; [|by intros ?%elem_of_nil]. intros [->|Hy]%elem_of_cons; [exists r; split; [by left|done]|].
  destruct (IH rs Hy) as (r' & ? & ?). exists r'. split; [by right|done].
Qed.

(** While all of the cached containers are needed, whatever is evicted is needed
    no sooner than anything else in the cache. *)
Lemma candidates_ok p cur seq : (cur <= length records)%nat -> seq <> [] ->
  let sorted := seq_sort g_access_records_cmp_by_first_seqno (map (record_at p cur) seq) in
  exists ht, candidates sorted = Ok ht /\ (exists y, y ∈ ht /\ y ∈ seq) /\
    (needed p cur seq -> forall y, y ∈ ht -> farthest (ahead_of records p cur) (list_to_set seq) y).
Proof using HW Hacc Hnt Hlen LO.
  intros Hc Hne sorted. assert (Hperm : sorted ≡ₚ map (record_at p cur) seq) by apply seq_sort_perm.
  assert (Hin : forall r, r ∈ sorted -> exists id, r = record_at p cur id /\ id ∈ seq).
  { intros r. rewrite Hperm. by intros (id & -> & Hid)%list_elem_of_fmap; exists id. }
  unfold candidates. destruct (rev sorted) as [|r rs] eqn:E.
  { apply (f_equal (@rev _)) in E. rewrite rev_involutive in E. cbn in E. rewrite E in Hperm.
    apply Permutation_nil_l in Hperm. by destruct seq. }
  assert (Esort : sorted = rev rs ++ [r]) by (rewrite <- (rev_involutive sorted), E; done).
  destruct (Hin r) as (v & -> & Hv); [rewrite Esort; set_solver|]. eexists. split; [reflexivity|]. split; [exists v; split; [by left|done]|].
  intros Hneed. pose proof (needed_records p cur seq Hc Hneed) as Hdom. rewrite Forall_forall in Hdom.
  assert (Hs : StronglySorted (cmp_le g_access_records_cmp_by_first_seqno) sorted) by (apply (seq_sort_sorted needed_record); [apply needed_order|by apply Forall_forall]).
  intros y [->|Hy]%elem_of_cons.
  - intros t Ht x. cbn [ar_cid record_at] in Ht. rewrite elem_of_list_to_set. intros Hx.
    apply near_head in Ht as (s & Hs' & Hlt); [|done]. apply near_head; [done|].
    destruct (Hdom (record_at p cur x)) as (sx & Ex & Hsx); [by apply list_elem_of_fmap_2|]. cbn [seqno_queue record_at] in Ex. exists sx. split; [exact Ex|].
    pose proof (record_head _ _ _ _ Hc Hs'). enough (sx <= s) by lia.
    assert (Hxs : record_at p cur x ∈ sorted) by (rewrite Hperm; by apply list_elem_of_fmap_2).
    rewrite Esort in Hxs, Hs. apply elem_of_app in Hxs as [Hxs|Hxs%list_elem_of_singleton].
    + apply StronglySorted_app in Hs as (Hs & _ & _). specialize (Hs _ (record_at p cur v) Hxs ltac:(by left)). unfold cmp_le in Hs.
      rewrite (cmp_first _ _ sx s) in Hs by done. lia.
    + injection Hxs as -> _. rewrite Ex in Hs'. injection Hs' as ->. lia.
  - apply more_victims_spec in Hy as (r' & Hr' & <- & Hnone). destruct (Hin r') as (id & -> & Hid).
    { rewrite Esort. apply elem_of_app. left. by rewrite list_elem_of_In, <- in_rev, <- list_elem_of_In. }
    by destruct (Hneed id Hid).
Qed.

(** ** The cache *)

Context {A : Type} (id_of : A -> Z) (retrieve : cstore -> Z -> res (A * cstore)) (good : A -> Prop).

Definition cached_ids (s : opt_state) : list Z := map id_of (elem_queue (op_lru s)).

(** [live]: the cached containers, and the one that is being fetched. *)
Record cache_ok (p cur : nat) (fetching : gset Z) (size : Z) (hit : A -> fingerprint -> bool) (s : opt_state) : Prop := {
  co_wf : lru_wf (op_lru s);
  co_hit : hit_elem (op_lru s) = hit;
  co_max : lru_max_size (op_lru s) = size;
  co_nodup : NoDup (cached_ids s);
  co_sorted : sorted_records s ≡ₚ cached_ids s;
  co_good : Forall good (elem_queue (op_lru s));
  co_win : win_ok p cur (fetching ∪ list_to_set (cached_ids s)) (op_window s);
}.

(** What an operation that loads nothing leaves alone. *)
Definition same_jcr (s s' : @opt_state A) : Prop :=
  op_last_id s' = op_last_id s /\ op_store s' = op_store s /\ op_stat s' = op_stat s /\ op_out s' = op_out s.

Lemma victim_in_sorted p cur seq v : v ∈ seq ->
  let sorted := seq_sort g_access_records_cmp_by_first_seqno (map (record_at p cur) seq) in
  exists after before, split_first (fun r => ar_cid r =? v) (rev sorted) = Some (after, record_at p cur v, before) /\
    v :: map ar_cid (rev before ++ rev after) ≡ₚ seq.
Proof using HW Hacc Hnt Hlen LO.
  intros Hv sorted. assert (Hperm : sorted ≡ₚ map (record_at p cur) seq) by apply seq_sort_perm.
  assert (Hin : forall r, r ∈ rev sorted -> r = record_at p cur (ar_cid r)).
  { intros r. rewrite list_elem_of_In, <- in_rev, <- list_elem_of_In, Hperm. by intros (id & -> & _)%list_elem_of_fmap. }
  destruct (split_first _ _) as [[[after r] before]|] eqn:E.
  - apply split_first_Some in E as (E & Er & _). apply Z.eqb_eq in Er. exists after, before.
    rewrite (Hin r) in * by (rewrite E; set_solver). cbn in Er. rewrite Er in *. split; [done|].
    apply (f_equal (@rev _)) in E. rewrite rev_involutive, rev_app_distr in E. cbn in E.
    transitivity (map ar_cid sorted).
    + rewrite E, <- app_assoc. cbn [app]. rewrite !map_app. cbn [map ar_cid record_at]. apply Permutation_middle.
    + rewrite Hperm, map_map. cbn. by rewrite map_id.
  - apply split_first_None in E. rewrite Forall_forall in E. specialize (E (record_at p cur v)).
    cbn in E. rewrite Z.eqb_refl in E. discriminate E.
    rewrite list_elem_of_In, <- in_rev, <- list_elem_of_In, Hperm. by apply list_elem_of_fmap_2.
Qed.

Lemma evict_ok p cur fetching size hit s : cache_ok p cur fetching size hit s -> elem_queue (op_lru s) <> [] ->
  fetching ## list_to_set (cached_ids s) ->
  exists s' y, evict id_of s = Ok s' /\ cache_ok p cur fetching size hit s' /\ same_jcr s s' /\ y :: cached_ids s' ≡ₚ cached_ids s /\
    (needed p cur (cached_ids s) -> farthest (ahead_of records p cur) (list_to_set (cached_ids s)) y).
Proof using HW Hacc Hnt Hlen LO.
  intros [Hwf Hh Hm Hnd Hsort Hg Hw] Hne Hdis. pose proof Hw as [[_ Hc] Ht _ _ _]. unfold evict.
  assert (Hlive : Forall (fun id => id ∈ fetching ∪ list_to_set (cached_ids s)) (sorted_records s)).
  { apply Forall_forall. intros id Hid. rewrite Hsort in Hid. set_solver. }
  rewrite (load_ok p cur _ _ _ Ht Hlive). step.
  assert (Hne' : sorted_records s <> []).
  { intros E. rewrite E in Hsort. apply Permutation_nil_l in Hsort. unfold cached_ids in Hsort. by destruct (elem_queue (op_lru s)). }
  destruct (candidates_ok p cur (sorted_records s) Hc Hne') as (ht & -> & (y & Hy & Hys) & Hfar). step.
  destruct (lru_cache_kicks_found (op_lru s) ht (fun a ht => bool_decide (id_of a ∈ ht))) as (e & c & Ek & Hein & Hperm & Hh' & Hm').
  { rewrite Hsort in Hys. apply list_elem_of_fmap in Hys as (a & -> & Ha). apply Exists_exists. exists a. split; [done|by apply bool_decide_eq_true]. }
  pose proof (lru_cache_kicks_wf (op_lru s) ht (fun a ht => bool_decide (id_of a ∈ ht)) Hwf) as Hwf'. rewrite Ek in *. cbn [snd] in Hwf'. cbn [deref]. step.
  apply bool_decide_eq_true in Hein.
  assert (Hids : id_of e :: map id_of (elem_queue c) ≡ₚ cached_ids s) by (unfold cached_ids; by rewrite <- Hperm).
  assert (Hv : id_of e ∈ sorted_records s) by (rewrite Hsort, <- Hids; by left).
  destruct (victim_in_sorted p cur _ _ Hv) as (after & before & -> & Hrest).
  eexists _, (id_of e). split; [reflexivity|].
  assert (Hnd' : NoDup (id_of e :: map id_of (elem_queue c))) by by rewrite Hids.
  split; [|split_and!; [by split_and!|exact Hids|]].
  - split; cbn [op_lru sorted_records op_window]; [done|congruence|congruence|by apply NoDup_cons in Hnd' as [_ ?]| | |].
    + unfold cached_ids. cbn [op_lru]. apply (Permutation_cons_inv (a := id_of e)). by rewrite Hrest, Hsort, Hids.
    + rewrite <- Hperm in Hg. by apply Forall_cons in Hg as [_ ?].
    + cbn [seqno_queue ar_cid record_at].
      assert (El : fetching ∪ list_to_set (map id_of (elem_queue c)) = (fetching ∪ list_to_set (cached_ids s)) ∖ {[id_of e]}).
      { apply leibniz_equiv. apply NoDup_cons in Hnd' as [Hnin _]. assert (Hdis' : id_of e ∉ fetching) by (rewrite <- Hids in Hdis; set_solver).
        rewrite <- Hids. set_solver. }
      unfold cached_ids. cbn [op_lru]. rewrite El. by apply table_drop.
  - assert (Es : (list_to_set (cached_ids s) : gset Z) = list_to_set (sorted_records s)) by (apply leibniz_equiv; by rewrite Hsort). rewrite Es.
    intros Hneed. apply Hfar; [|done]. intros id Hin. apply Hneed. by rewrite <- Hsort.
Qed.

Lemma cached_size p cur fetching size hit s : cache_ok p cur fetching size hit s ->
  stdpp.base.size (list_to_set (cached_ids s) : gset Z) = length (elem_queue (op_lru s)).
Proof using.
  intros Hc. rewrite size_list_to_set by apply Hc. unfold cached_ids. by rewrite length_map.
Qed.

Context (st0 : cstore) (available : Z -> Prop).
Context (retrieve_ok : forall st id, same_disk st0 st -> available id ->
  exists a st', retrieve st id = Ok (a, st') /\ same_disk st0 st' /\ id_of a = id /\ good a).

(** The container is fetched, after an eviction if the cache is full. *)
Lemma insert_ok p cur size hit s id : cache_ok p cur {[id]} size hit s -> id ∉ cached_ids s -> size <> 0 ->
  same_disk st0 (op_store s) -> available id ->
  exists s', optimal_cache_insert id_of retrieve s id = Ok s' /\ cache_ok p cur {[id]} size hit s' /\ id ∈ cached_ids s' /\
    same_disk st0 (op_store s') /\ op_last_id s' = op_last_id s /\ op_out s' = op_out s /\ op_stat s' = count_container (op_stat s) /\
    (forall x, x ∈ cached_ids s' -> x = id \/ x ∈ cached_ids s) /\
    (0 < size -> needed p cur (cached_ids s) -> farthest_step (Z.to_nat size) id (ahead_of records p cur) (list_to_set (cached_ids s)) (list_to_set (cached_ids s'))).
Proof using HW Hacc Hnt Hlen LO retrieve_ok.
  intros Hc Hid Hsize Hd Ha. pose proof (cached_size _ _ _ _ _ _ Hc) as Hlq. set (B := list_to_set (cached_ids s) : gset Z) in *.
  assert (Hroom : exists s1, (if lru_cache_is_full (op_lru s) then evict id_of s else Ok s) = Ok s1 /\ cache_ok p cur {[id]} size hit s1 /\
    same_jcr s s1 /\ id ∉ cached_ids s1 /\ ~ (0 < size /\ lru_size (op_lru s1) = size) /\ (forall x, x ∈ cached_ids s1 -> x ∈ cached_ids s) /\
    (0 < size -> needed p cur (cached_ids s) -> farthest_step (Z.to_nat size) id (ahead_of records p cur) B ({[id]} ∪ list_to_set (cached_ids s1)))).
  { pose proof Hc as [[Hsz Hle] Hh Hm _ _ _ _]. unfold lru_cache_is_full. rewrite Hm in *.
    destruct (Z.ltb_spec size 0); [|destruct (Z.leb_spec size (lru_size (op_lru s)))].
    - exists s. split_and!; try done; lia.
    - destruct (evict_ok p cur {[id]} size hit s Hc) as (s1 & y & E & Hc1 & Hj & Hy & Hf).
      { intros E. rewrite E, zlen_nil in Hsz. lia. } { set_solver. }
      exists s1. pose proof (cached_size _ _ _ _ _ _ Hc1) as Hl1. pose proof Hc1 as [[Hsz1 _] _ _ _ _ _ _].
      assert (Hl : length (elem_queue (op_lru s)) = S (length (elem_queue (op_lru s1)))).
      { apply Permutation_length in Hy. unfold cached_ids in Hy. cbn in Hy. rewrite !length_map in Hy. done. }
      assert (HB : B = {[y]} ∪ list_to_set (cached_ids s1)) by (unfold B; apply leibniz_equiv; rewrite <- Hy; done).
      assert (Hnd : NoDup (y :: cached_ids s1)) by (rewrite Hy; apply Hc). apply NoDup_cons in Hnd as [Hyn _].
      split_and!; try done; [rewrite <- Hy in Hid; set_solver|unfold zlen in *; lia|intros x Hx; rewrite <- Hy; by right|]. intros _ Hneed. right. right.
      split_and!; [unfold B; set_solver|unfold zlen in *; lia|]. exists y. split_and!; [rewrite HB; set_solver|by apply Hf|].
      apply leibniz_equiv. rewrite HB. set_solver.
    - exists s. split_and!; try done; [lia|]. intros _ _. right. left. split_and!; [unfold B; set_solver|unfold zlen in *; lia|done]. }
  destruct Hroom as (s1 & E1 & Hc1 & (Hj1 & Hj2 & Hj3 & Hj4) & Hid1 & Hnf & Hsub & Hstep). unfold optimal_cache_insert. rewrite E1. step.
  rewrite Hj2. destruct (retrieve_ok (op_store s) id Hd Ha) as (a & st' & -> & Hd' & Hida & Hga). step.
  pose proof Hc1 as [Hwf Hh Hm Hnd Hsort Hg Hw]. destruct (lru_cache_insert_spec (op_lru s1) a Hwf) as (v & c & -> & Hwf' & Hm' & Hh' & Hq & Hv). step.
  assert (v = None) as -> by (destruct v; [exfalso; apply Hnf; rewrite <- Hm; by apply Hv|done]). cbn [option_list] in Hq. rewrite app_nil_r in Hq.
  pose proof Hw as [_ Ht _ _ _]. pose proof Ht as [_ Hlook]. rewrite Hlook, decide_False by set_solver.
  rewrite (load_ok p cur _ _ _ Ht) by (apply Forall_forall; intros x Hx; rewrite Hsort in Hx; set_solver). step.
  assert (Hids : map id_of (elem_queue c) = id :: cached_ids s1) by (rewrite Hq; cbn; by rewrite Hida).
  eexists. split; [reflexivity|]. split_and!; cbn [op_store op_last_id op_out op_stat]; try done; [|unfold cached_ids; cbn [op_lru]; rewrite Hids; by left|congruence| |].
  - split; cbn [op_lru sorted_records op_window]; try done; [congruence|congruence| | | |].
    + unfold cached_ids. cbn [op_lru]. rewrite Hids. by constructor.
    + unfold cached_ids. cbn [op_lru]. rewrite Hids, insert_sorted_perm. cbn [map ar_cid]. constructor.
      rewrite map_map. cbn [ar_cid record_at]. by rewrite map_id, Hsort.
    + rewrite Hq. by constructor.
    + unfold cached_ids. cbn [op_lru]. rewrite Hids. cbn [list_to_set].
      replace ({[id]} ∪ ({[id]} ∪ list_to_set (cached_ids s1))) with ({[id]} ∪ list_to_set (cached_ids s1) : gset Z); [done|apply leibniz_equiv; set_solver].
  - intros x. unfold cached_ids at 1. cbn [op_lru]. rewrite Hids, elem_of_cons. intros [->|Hx]; [by left|right; by apply Hsub].
  - intros Hpos Hneed. rewrite (eq_trans (f_equal list_to_set Hids) eq_refl : list_to_set (cached_ids (mk_opt _ _ c _ _ _ _)) = _). by apply Hstep.
Qed.

(** The order of the elements in the list does not matter. *)
Lemma cache_ok_perm p cur fetching size hit s w c last st stat out : cache_ok p cur fetching size hit s ->
  lru_wf c -> hit_elem c = hit_elem (op_lru s) -> lru_max_size c = lru_max_size (op_lru s) -> elem_queue c ≡ₚ elem_queue (op_lru s) ->
  forall p' cur' f', win_ok p' cur' (f' ∪ list_to_set (cached_ids s)) w ->
  let s' := mk_opt w (sorted_records s) c last st stat out in
  cache_ok p' cur' f' size hit s' /\ (list_to_set (cached_ids s') : gset Z) = list_to_set (cached_ids s).
Proof using.
  intros [_ Hh Hm Hnd Hsort Hg _] Hwf Hh' Hm' Hp p' cur' f' Hw s'.
  assert (Hids : cached_ids s' ≡ₚ cached_ids s) by (unfold cached_ids; cbn [s' op_lru]; by rewrite Hp).
  assert (Hset : (list_to_set (cached_ids s') : gset Z) = list_to_set (cached_ids s)) by (apply leibniz_equiv; by rewrite Hids).
  split; [|done]. split; cbn [s' op_lru sorted_records op_window]; try congruence; [by rewrite Hids|by rewrite Hids|by rewrite Hp].
Qed.

(** [optimal_cache_hits] tells whether the container is cached; a change of the
    container moves the window. *)
Lemma hits_ok p cur size hit s id : cache_ok p cur ∅ size hit s ->
  (op_last_id s <> id -> acc !! p = Some id) ->
  let p' := if decide (op_last_id s = id) then p else S p in
  exists b cur' s', optimal_cache_hits W id_of s id = Ok (b, s') /\ b = bool_decide (id ∈ cached_ids s) /\
    cache_ok p' cur' (if decide (op_last_id s = id) then ∅ else {[id]}) size hit s' /\
    (list_to_set (cached_ids s') : gset Z) = list_to_set (cached_ids s) /\
    op_last_id s' = id /\ op_store s' = op_store s /\ op_stat s' = op_stat s /\ op_out s' = op_out s /\
    ((length records <= Z.to_nat W)%nat -> cur = length records -> cur' = length records).
Proof using HW Hacc Hnt Hlen LO retrieve_ok.
  intros Hc Hnext p'. unfold optimal_cache_hits.
  assert (Hwin : exists cur' w, (if negb (op_last_id s =? id) then optimal_cache_window_slides W (op_window s) id else Ok (op_window s)) = Ok w /\
    win_ok p' cur' ((if decide (op_last_id s = id) then ∅ else {[id]}) ∪ list_to_set (cached_ids s)) w /\
    ((length records <= Z.to_nat W)%nat -> cur = length records -> cur' = length records)).
  { pose proof (co_win _ _ _ _ _ _ Hc) as Hw. unfold p'. destruct (decide (op_last_id s = id)) as [->|Hne].
    - rewrite Z.eqb_refl. by exists cur, (op_window s).
    - rewrite (proj2 (Z.eqb_neq _ _) Hne). destruct (window_slides_ok _ _ _ _ _ Hw (Hnext Hne)) as (cur' & w & E & Hw' & Hall).
      exists cur', w. split_and!; [done| |done].
      replace ({[id]} ∪ list_to_set (cached_ids s)) with ({[id]} ∪ (∅ ∪ list_to_set (cached_ids s)) : gset Z); [done|apply leibniz_equiv; set_solver]. }
  destruct Hwin as (cur' & w & -> & Hw & Hall). step.
  pose proof (lru_hits_perm (op_lru s) id (fun a id => id_of a =? id) (co_wf _ _ _ _ _ _ Hc)) as Hl.
  destruct (lru_cache_hits _ _ _) as [e c]. destruct Hl as (Hwf & Hh & Hm & Hp & He).
  eexists _, cur', _. split; [reflexivity|].
  destruct (cache_ok_perm p cur ∅ size hit s w c id (op_store s) (op_stat s) (op_out s) Hc Hwf Hh Hm Hp _ _ _ Hw) as [Hc' Hset].
  split; [|by split_and!]. destruct e as [e|].
  - rewrite bool_decide_true; [done|]. destruct He as [Hin E%Z.eqb_eq]. rewrite <- E. unfold cached_ids. by apply list_elem_of_fmap_2.
  - rewrite bool_decide_false; [done|]. intros (a & -> & Ha)%list_elem_of_fmap. rewrite Forall_forall in He. specialize (He a Ha). lia.
Qed.

(** Up to the point where the chunk is served. *)
Lemma fetch_ok p cur size hit s id : cache_ok p cur ∅ size hit s -> size <> 0 -> same_disk st0 (op_store s) -> available id ->
  (op_last_id s = id -> id ∈ cached_ids s) -> (op_last_id s <> id -> acc !! p = Some id) ->
  let p' := if decide (op_last_id s = id) then p else S p in
  exists cur' s' (b : bool), ('(hit, s) ← optimal_cache_hits W id_of s id; if hit : bool then Ok s else optimal_cache_insert id_of retrieve s id) = Ok s' /\
    cache_ok p' cur' ∅ size hit s' /\ id ∈ cached_ids s' /\ same_disk st0 (op_store s') /\ op_last_id s' = id /\ op_out s' = op_out s /\
    b = bool_decide (id ∈ cached_ids s) /\ op_stat s' = (if b then op_stat s else count_container (op_stat s)) /\
    ((length records <= Z.to_nat W)%nat -> cur = length records -> cur' = length records) /\
    (forall x, x ∈ cached_ids s' -> x = id \/ x ∈ cached_ids s) /\
    (0 < size -> needed p' cur' (cached_ids s) -> farthest_step (Z.to_nat size) id (ahead_of records p' cur') (list_to_set (cached_ids s)) (list_to_set (cached_ids s'))).
Proof using HW Hacc Hnt Hlen LO retrieve_ok.
  intros Hc Hsize Hd Ha Hlast Hnext p'. destruct (hits_ok p cur size hit s id Hc Hnext) as (b & cur' & s1 & -> & -> & Hc1 & Hset & H1 & H2 & H3 & H4 & Hall).
  fold p' in Hc1. step.
  assert (Hsame : forall x, x ∈ cached_ids s1 <-> x ∈ cached_ids s) by (intros x; by rewrite <- !(elem_of_list_to_set (C := gset Z)), Hset). case_bool_decide as Hin.
  - exists cur', s1, true. split_and!; try done; [|by apply Hsame|congruence|intros x Hx; right; by apply Hsame|].
    + destruct Hc1 as [C1 C2 C3 C4 C5 C6 C7]. split; try done.
      replace (∅ ∪ list_to_set (cached_ids s1)) with ((if decide (op_last_id s = id) then ∅ else {[id]}) ∪ list_to_set (cached_ids s1) : gset Z); [done|].
      rewrite Hset. apply leibniz_equiv. destruct (decide _); set_solver.
    + intros _ _. left. split; [set_solver|done].
  - destruct (decide (op_last_id s = id)) as [E|Hne]; [by destruct Hin; apply Hlast|].
    assert (Hin1 : id ∉ cached_ids s1) by by rewrite Hsame.
    destruct (insert_ok _ _ _ _ _ _ Hc1 Hin1 Hsize ltac:(congruence) Ha) as (s2 & -> & Hc2 & Hin2 & Hd2 & L2 & O2 & S2 & Hsub & Hstep).
    assert (Hneed : needed p' cur' (cached_ids s) -> needed p' cur' (cached_ids s1)).
    { intros Hn x Hx. apply Hn. by apply Hsame. }
    exists cur', s2, false. split_and!; try done; [|congruence|congruence|congruence|intros x Hx; rewrite <- Hsame; by apply Hsub|rewrite Hset in Hstep; auto].
    destruct Hc2 as [C1 C2 C3 C4 C5 C6 C7]. split; try done.
    replace (∅ ∪ list_to_set (cached_ids s2)) with ({[id]} ∪ list_to_set (cached_ids s2) : gset Z); [done|apply leibniz_equiv; set_solver].
Qed.
End WindowOk.

(** ** The thread *)

(** The ids of the chunks of a recipe. *)
Definition chunk_ids (queue : list chunk) : list Z := map ck_id (filter (fun c => is_file_flag c = false) queue).

(** The changes of container, the last one being [prev]. *)
Fixpoint switches (prev : Z) (ids : list Z) : list Z :=
  match ids with
  | [] => []
  | id :: ids => (if decide (prev = id) then [] else [id]) ++ switches id ids
  end.

Lemma switches_app prev l1 l2 : switches prev (l1 ++ l2) = switches prev l1 ++ switches (last_id prev l1) l2.
Proof.
  revert prev. induction l1 as [|id l1 IH]; intros prev; [done|]. cbn [app switches]. by rewrite IH, last_id_cons, app_assoc.
Qed.

(** They are the access records that a backup writes. *)
Lemma runs_switches prev ids : runs (prev :: ids) = prev :: switches prev ids.
Proof.
  revert prev. induction ids as [|id ids IH]; intros prev; [done|].
  change (runs (prev :: id :: ids)) with (match runs (id :: ids) with id' :: r => if prev =? id' then id' :: r else prev :: id' :: r | [] => [prev] end).
  rewrite IH. cbn [switches]. destruct (decide (prev = id)) as [->|Hne]; [by rewrite Z.eqb_refl|by rewrite (proj2 (Z.eqb_neq _ _) Hne)].
Qed.

Lemma runs_from_none ids : Forall (fun id => id <> TEMPORARY_ID) ids -> runs ids = switches TEMPORARY_ID ids.
Proof.
  intros Hids. destruct ids as [|id ids]; [done|]. rewrite runs_switches. cbn [switches].
  apply Forall_cons in Hids as [Hid _]. by rewrite decide_False.
Qed.

Lemma switches_elem prev ids x : x ∈ switches prev ids -> x ∈ ids.
Proof.
  revert prev. induction ids as [|id ids IH]; intros prev; cbn [switches]; [done|].
  intros [Hx|Hx]%elem_of_app; [|right; by eapply IH]. destruct (decide _); [by apply elem_of_nil in Hx|]. apply list_elem_of_singleton in Hx as ->. by left.
Qed.

Lemma length_switches prev ids : (length (switches prev ids) <= length ids)%nat.
Proof.
  revert prev. induction ids as [|id ids IH]; intros prev; cbn [switches length]; [lia|]. specialize (IH id).
  rewrite length_app. destruct (decide _); cbn; lia.
Qed.

Lemma chunk_ids_snoc q c : chunk_ids (q ++ [c]) = chunk_ids q ++ (if is_file_flag c then [] else [ck_id c]).
Proof.
  unfold chunk_ids. rewrite filter_app, map_app. f_equal. rewrite filter_cons. destruct (is_file_flag c); [by rewrite decide_False|by rewrite decide_True].
Qed.

Lemma length_chunk_ids q : (length (chunk_ids q) <= length q)%nat.
Proof. unfold chunk_ids. rewrite length_map. apply length_filter. Qed.

Section Thread.
Context `{HI : !HashIter fingerprint metaEntry} `{HO : !HashIterOk fingerprint metaEntry}.
Context `{SS : !SeqSort accessRecords} `{LO : !SeqSortOk accessRecords}.
Context (W : Z) (stack : Z -> fingerprint) (content : fingerprint -> list Z).
Context (st0 : cstore) (queue : list chunk) (stat0 : restore_stat) (size : Z).
Context (HW : 0 < W < 2 ^ 30) (Hsize : size <> 0) (Hq : Forall (restorable SIMULATION_NO content st0) queue).
Context (Hq64 : Forall (fun c => ck_id c < 2 ^ 63) queue) (Hlen : zlen queue < 2 ^ 29) (Hstat : 0 <= rs_container_num stat0 < 2 ^ 30).

Definition accessed : list Z := switches TEMPORARY_ID (chunk_ids queue).

(** Containers on disk that hold a chunk of the recipe. *)
Definition available (id : Z) : Prop := exists con, stored SIMULATION_NO content st0 con /\ cm_id (c_meta con) = id.

Definition good (con : container) : Prop :=
  cached_ok SIMULATION_NO content con /\ exists con0, stored SIMULATION_NO content st0 con0 /\ c_meta con = c_meta con0.

Lemma retrieve_good st id : same_disk st0 st -> available id -> exists con st',
  retrieve_container_by_id SIMULATION_NO st id = Ok (con, st') /\ same_disk st0 st' /\ container_id con = id /\ good con.
Proof using HO.
  intros Hd (con & Hs & <-). destruct (retrieve_cached SIMULATION_NO content ltac:(done) st con) as (con' & st' & E & Hd' & Em & Hc); [by eapply stored_same|].
  exists con', st'. split_and!; [done|by etrans|unfold container_id; by rewrite Em|]. split; [done|]. by exists con.
Qed.

Lemma queue_ids : Forall (fun id => 0 <= id < 2 ^ 63) (chunk_ids queue).
Proof using Hq Hq64.
  apply Forall_map, Forall_forall. intros c [Hf Hc]%list_elem_of_filter. rewrite Forall_forall in Hq, Hq64. specialize (Hq64 c Hc).
  destruct (Hq c Hc) as [E|(_ & _ & _ & con & Hs & E & _)]; [congruence|]. pose proof (sd_id _ _ _ _ Hs). lia.
Qed.

Lemma accessed_ok : Forall (in_s 64) accessed /\ Forall (fun id => id <> TEMPORARY_ID) accessed /\ zlen accessed < 2 ^ 29.
Proof using Hq Hq64 Hlen.
  pose proof queue_ids as Hids. rewrite Forall_forall in Hids. split_and!.
  - apply Forall_forall. intros x Hx%switches_elem. specialize (Hids x Hx). unfold in_s. cbn. lia.
  - apply Forall_forall. intros x Hx%switches_elem. specialize (Hids x Hx). unfold TEMPORARY_ID. lia.
  - unfold accessed, zlen. pose proof (length_switches TEMPORARY_ID (chunk_ids queue)). pose proof (length_chunk_ids queue). unfold zlen in Hlen. lia.
Qed.

(** The accesses of the first chunks [done] of the recipe. *)
Definition position (done : list chunk) : nat := length (switches TEMPORARY_ID (chunk_ids done)).

(** Every container that they need is needed again later. *)
Definition needed_again (done : list chunk) : Prop := forall id, id ∈ take (position done) accessed -> id ∈ drop (position done) accessed.

(** After the chunks [done] of the recipe. *)
Record opt_inv (s : @opt_state container) (done : list chunk) : Prop := {
  oi_last : op_last_id s = last_id TEMPORARY_ID (chunk_ids done);
  oi_cached : chunk_ids done <> [] -> op_last_id s ∈ cached_ids container_id s;
  oi_disk : same_disk st0 (op_store s);
  oi_out : Forall2 (delivers content) done (op_out s);
  oi_cache : exists cur, cache_ok accessed container_id good (position done) cur ∅ size
      (fun con fp => negb (lookup_fingerprint_in_container con fp =? 0)) s /\
    ((length (records accessed) <= Z.to_nat W)%nat -> cur = length (records accessed));
  oi_seen : forall id, id ∈ cached_ids container_id s -> id ∈ take (position done) accessed;
  oi_loads : exists k, rs_container_num (op_stat s) = rs_container_num stat0 + Z.of_nat k /\ (k <= length done)%nat /\
    ((length (records accessed) <= Z.to_nat W)%nat -> 0 < size -> needed_again done ->
      unbeaten (Z.to_nat size) (take (position done) accessed) (drop (position done) accessed) (list_to_set (cached_ids container_id s)) k);
}.

Lemma good_id con : good con -> 0 <= container_id con.
Proof using. intros (_ & con0 & Hs & E). unfold container_id. rewrite E. apply Hs. Qed.

(** A cached container with the id of a restorable chunk holds its fingerprint. *)
Lemma good_holds con c : good con -> restorable SIMULATION_NO content st0 c -> is_file_flag c = false -> container_id con = ck_id c ->
  negb (lookup_fingerprint_in_container con (ck_fp c) =? 0) = true.
Proof using HO.
  intros (_ & con0 & Hs0 & E0) [Hf|(_ & _ & _ & con1 & Hs1 & Hid1 & Hin)] Hf' Hid; [congruence|]. unfold container_id in Hid.
  rewrite E0, <- Hid1 in Hid. pose proof (stored_unique SIMULATION_NO content ltac:(done) st0 con0 con1 Hs0 Hs1 Hid) as Em.
  unfold lookup_fingerprint_in_container, lookup_fingerprint_in_container_meta. rewrite E0, Em.
  destruct Hin as [x ->]. by rewrite bool_decide_false.
Qed.

(** The end mark of the records is no container. *)
Lemma farthest_accessed p B y : (p <= length accessed)%nat -> TEMPORARY_ID ∉ B ->
  farthest (ahead_of (records accessed) p (length (records accessed))) B y -> farthest (drop p accessed) B y.
Proof using.
  clear HW Hsize Hq Hq64 Hlen Hstat. intros Hp HT Hf t Ht x Hx.
  assert (E : ahead_of (records accessed) p (length (records accessed)) = drop p accessed ++ [TEMPORARY_ID]).
  { unfold ahead_of, records. rewrite drop_app_le by done. apply take_ge. rewrite !length_app, length_drop. cbn. lia. }
  rewrite E in Hf. unfold near in *. rewrite elem_of_list_to_set in *.
  assert (Hy : y ∈ (list_to_set (take t (drop p accessed ++ [TEMPORARY_ID])) : gset Z)).
  { rewrite elem_of_list_to_set. rewrite take_app. apply elem_of_app. by left. }
  specialize (Hf t Hy x Hx). unfold near in Hf. rewrite elem_of_list_to_set, take_app in Hf. apply elem_of_app in Hf as [?|Hf]; [done|].
  apply elem_of_take in Hf as (i & Hf & _). apply list_elem_of_lookup_2, list_elem_of_singleton in Hf as ->. done.
Qed.

Lemma farthest_step_accessed n p a B B' : (p <= length accessed)%nat -> TEMPORARY_ID ∉ B ->
  farthest_step n a (ahead_of (records accessed) p (length (records accessed))) B B' -> farthest_step n a (drop p accessed) B B'.
Proof using.
  clear HW Hsize Hq Hq64 Hlen Hstat. intros Hp HT [?|[?|(? & ? & y & ? & Hf & ?)]]; [by left|by right; left|right; right].
  split_and!; [done|done|]. exists y. split_and!; [done|by apply farthest_accessed|done].
Qed.

Lemma serve_ok p cur s c : cache_ok accessed container_id good p cur ∅ size (fun con fp => negb (lookup_fingerprint_in_container con fp =? 0)) s ->
  restorable SIMULATION_NO content st0 c -> is_file_flag c = false -> ck_id c ∈ cached_ids container_id s ->
  exists s' rc, optimal_cache_lookup SIMULATION_NO stack s (ck_fp c) = Ok s' /\
    cache_ok accessed container_id good p cur ∅ size (fun con fp => negb (lookup_fingerprint_in_container con fp =? 0)) s' /\
    (list_to_set (cached_ids container_id s') : gset Z) = list_to_set (cached_ids container_id s) /\
    op_last_id s' = op_last_id s /\ op_store s' = op_store s /\ op_stat s' = op_stat s /\ op_out s' = op_out s ++ [rc] /\ delivers content c rc.
Proof using HO.
  intros Hc Hr Hf Hin. unfold optimal_cache_lookup. pose proof (lru_lookup_perm (op_lru s) (ck_fp c) (co_wf _ _ _ _ _ _ _ _ _ Hc)) as Hl.
  destruct (lru_cache_lookup _ _) as [r q]. destruct Hl as (Hwf & Hh & Hm & Hp & He). rewrite (co_hit _ _ _ _ _ _ _ _ _ Hc) in He.
  pose proof (co_good _ _ _ _ _ _ _ _ _ Hc) as Hg. rewrite Forall_forall in Hg. destruct r as [con|].
  - destruct He as [Hcon Hhit]. cbn [deref]. step. destruct (Hg con Hcon) as [Hcached _].
    destruct (Hcached (ck_fp c) (lookup_container_true con (ck_fp c) Hhit) (stack (rs_chunk_num (op_stat s)))) as (rc & -> & E1 & E2 & E3). step.
    pose proof (co_win _ _ _ _ _ _ _ _ _ Hc) as Hw.
    destruct (cache_ok_perm accessed container_id good p cur ∅ size _ s (op_window s) q (op_last_id s) (op_store s) (op_stat s) (op_out s ++ [rc])
      Hc Hwf Hh Hm Hp _ _ _ Hw) as [Hc' Hset].
    eexists _, rc. split; [reflexivity|]. split_and!; try done. unfold delivers. rewrite Hf. split_and!; [done| |done].
    destruct Hr as [?|(_ & _ & -> & _)]; [congruence|done].
  - apply list_elem_of_fmap in Hin as (con & Hid & Hcon). rewrite Forall_forall in He. specialize (He con Hcon).
    by rewrite (good_holds con c (Hg con Hcon) Hr Hf) in He.
Qed.

Lemma chunk_ids_app q1 q2 : chunk_ids (q1 ++ q2) = chunk_ids q1 ++ chunk_ids q2.
Proof. unfold chunk_ids. by rewrite filter_app, map_app. Qed.

Lemma chunk_ids_cons c q : is_file_flag c = false -> chunk_ids (c :: q) = ck_id c :: chunk_ids q.
Proof. intros Hf. unfold chunk_ids. by rewrite filter_cons_True. Qed.

(** How the next chunk of the recipe continues the accesses. *)
Lemma accessed_split pre c post : queue = pre ++ c :: post -> is_file_flag c = false ->
  let p := length (switches TEMPORARY_ID (chunk_ids pre)) in
  let last := last_id TEMPORARY_ID (chunk_ids pre) in
  length (switches TEMPORARY_ID (chunk_ids (pre ++ [c]))) = (if decide (last = ck_id c) then p else S p) /\
  (p <= length accessed)%nat /\
  (last <> ck_id c -> drop p accessed = ck_id c :: drop (S p) accessed /\ take (S p) accessed = take p accessed ++ [ck_id c]).
Proof using.
  clear HW Hsize Hq Hq64 Hlen Hstat. intros Eq Hf p last. unfold accessed. rewrite Eq, chunk_ids_snoc, Hf, chunk_ids_app, chunk_ids_cons, !switches_app by done.
  fold last. cbn [switches]. rewrite app_nil_r, length_app. fold p. split_and!.
  - destruct (decide _); cbn; lia.
  - rewrite length_app. fold p. lia.
  - intros Hne. rewrite decide_False by done. cbn [app]. set (l := switches TEMPORARY_ID (chunk_ids pre)) in *. split.
    + unfold p. rewrite drop_app_length. replace (S (length l)) with (length (l ++ [ck_id c])) by (rewrite length_app; cbn; lia).
      f_equal. by rewrite (cons_middle (ck_id c) l (switches (ck_id c) (chunk_ids post))), app_assoc, drop_app_length.
    + unfold p. rewrite take_app_length. replace (S (length l)) with (length (l ++ [ck_id c])) by (rewrite length_app; cbn; lia).
      by rewrite (cons_middle (ck_id c) l (switches (ck_id c) (chunk_ids post))), app_assoc, take_app_length.
Qed.

(** The loads of a step, against any policy. *)
Lemma step_unbeaten p s (s1 s2 : @opt_state container) c k cur' :
  cache_ok accessed container_id good p cur' ∅ size (fun con fp => negb (lookup_fingerprint_in_container con fp =? 0)) s ->
  (p <= length accessed)%nat -> (op_last_id s = ck_id c -> ck_id c ∈ cached_ids container_id s) ->
  (op_last_id s <> ck_id c -> drop p accessed = ck_id c :: drop (S p) accessed /\ take (S p) accessed = take p accessed ++ [ck_id c]) ->
  let p' := if decide (op_last_id s = ck_id c) then p else S p in
  farthest_step (Z.to_nat size) (ck_id c) (ahead_of (records accessed) p' (length (records accessed)))
    (list_to_set (cached_ids container_id s)) (list_to_set (cached_ids container_id s1)) ->
  (list_to_set (cached_ids container_id s2) : gset Z) = list_to_set (cached_ids container_id s1) ->
  unbeaten (Z.to_nat size) (take p accessed) (drop p accessed) (list_to_set (cached_ids container_id s)) k ->
  unbeaten (Z.to_nat size) (take p' accessed) (drop p' accessed) (list_to_set (cached_ids container_id s2))
    (if bool_decide (ck_id c ∈ cached_ids container_id s) then k else S k).
Proof using.
  clear HW Hsize Hq Hq64 Hlen Hstat. intros Hc Hple Hin Hdrop p' Hstep -> Hub.
  assert (HT : TEMPORARY_ID ∉ (list_to_set (cached_ids container_id s) : gset Z)).
  { rewrite elem_of_list_to_set. intros (con & E & Hcon)%list_elem_of_fmap. pose proof (co_good _ _ _ _ _ _ _ _ _ Hc) as Hg.
    rewrite Forall_forall in Hg. pose proof (good_id con (Hg con Hcon)) as Hid. rewrite <- E in Hid. done. }
  unfold p' in *. destruct (decide (op_last_id s = ck_id c)) as [El|Hne].
  - specialize (Hin El). rewrite bool_decide_true by done. apply farthest_step_accessed in Hstep; [|done|done].
    destruct Hstep as [[_ ->]|[(Hn & _)|(Hn & _)]]; [done|by rewrite elem_of_list_to_set in Hn..].
  - destruct (Hdrop Hne) as [Ed Et]. rewrite Et. rewrite Ed in Hub.
    assert (Hp : (S p <= length accessed)%nat).
    { apply (f_equal length) in Ed. rewrite length_drop in Ed. cbn in Ed. lia. }
    apply farthest_step_accessed in Hstep; [|done|done]. pose proof (unbeaten_step _ _ _ _ _ _ _ Hstep Hub) as Hub'.
    destruct (decide (ck_id c ∈ _)) as [Hd|Hd]; rewrite elem_of_list_to_set in Hd; [by rewrite bool_decide_true|by rewrite bool_decide_false].
Qed.

(** A container that is accessed again is in the window when it covers the records. *)
Lemma accessed_needed p ids : (forall id, id ∈ ids -> id ∈ drop p accessed) -> needed accessed p (length (records accessed)) ids.
Proof using.
  clear HW Hsize Hq Hq64 Hlen Hstat. intros H id Hid E. apply H, list_elem_of_lookup in Hid as [i Hi]. rewrite lookup_drop in Hi.
  pose proof (lookup_lt_Some _ _ _ Hi) as Hlt. pose proof (length_records accessed).
  assert (Hz : Z.of_nat (p + i) ∈ positions (records accessed) p (length (records accessed)) id).
  { apply elem_positions. exists (p + i)%nat. split_and!; [done|lia|lia|]. unfold records. by apply lookup_app_l_Some. }
  rewrite E in Hz. by apply elem_of_nil in Hz.
Qed.

Lemma optimal_step_ok pre c post s : queue = pre ++ c :: post -> opt_inv s pre ->
  exists s', optimal_step W container_id (retrieve_container_by_id SIMULATION_NO) (optimal_cache_lookup SIMULATION_NO stack) s c = Ok s' /\ opt_inv s' (pre ++ [c]).
Proof using HW Hsize Hq Hq64 Hlen Hstat LO HO.
  intros Eq Hi. pose proof Hi as [Hlast Hcached Hdisk Hout (cur & Hc & Hall) Hseen (k & Hk & Hkn & Hub)].
  assert (Hcq : c ∈ queue) by (rewrite Eq; set_solver). assert (Hr : restorable SIMULATION_NO content st0 c) by (rewrite Forall_forall in Hq; by apply Hq).
  unfold optimal_step. destruct (is_file_flag c) eqn:Hf.
  { assert (Ep : position (pre ++ [c]) = position pre) by (unfold position; by rewrite chunk_ids_snoc, Hf, app_nil_r).
    eexists. split; [reflexivity|]. unfold needed_again in *. split; unfold needed_again; rewrite ?Ep, ?chunk_ids_snoc, ?Hf, ?app_nil_r; cbn [op_last_id op_store op_out op_stat]; try done.
    - apply Forall2_app; [done|]. constructor; [|done]. unfold delivers. by rewrite Hf.
    - exists cur. split; [by destruct Hc|done].
    - exists k. rewrite length_app. cbn. split_and!; [done|lia|done]. }
  destruct (accessed_split _ _ _ Eq Hf) as (Hp & Hple & Hdrop). rewrite <- Hlast in Hp, Hdrop. fold (position pre) in Hp, Hple, Hdrop.
  fold (position (pre ++ [c])) in Hp. set (p := position pre) in *.
  destruct accessed_ok as (Ha1 & Ha2 & Ha3).
  assert (Hav : available (ck_id c)) by (destruct Hr as [?|(_ & _ & _ & con & ? & ? & _)]; [congruence|by exists con]).
  assert (Hin : op_last_id s = ck_id c -> ck_id c ∈ cached_ids container_id s).
  { intros Ec. rewrite <- Ec. apply Hcached. intros E. rewrite E in Hlast. destruct Hav as (con & Hs & E'). pose proof (sd_id _ _ _ _ Hs) as Hid.
    rewrite E', <- Ec, Hlast in Hid. done. }
  destruct (fetch_ok W accessed HW Ha1 Ha2 Ha3 container_id (retrieve_container_by_id SIMULATION_NO) good st0 available retrieve_good
    p cur size _ s (ck_id c) Hc Hsize Hdisk Hav Hin) as (cur' & s1 & b & -> & Hc1 & Hin1 & Hd1 & Hl1 & Ho1 & Hb & Hs1 & Hall1 & Hsub & Hstep).
  { intros Hne. destruct (Hdrop Hne) as [E _]. rewrite <- (Nat.add_0_r p), <- lookup_drop, E. done. }
  step. destruct (serve_ok _ _ s1 c Hc1 Hr Hf Hin1) as (s2 & rc & -> & Hc2 & Hset & Hl2 & Hd2 & Hs2 & Ho2 & Hdel). step.
  assert (Elast : last_id TEMPORARY_ID (chunk_ids (pre ++ [c])) = ck_id c) by (rewrite chunk_ids_snoc, Hf, last_id_app; done).
  assert (Hseen' : forall x, x ∈ cached_ids container_id s1 -> x ∈ take (if decide (op_last_id s = ck_id c) then p else S p) accessed).
  { intros x [->|Hx]%Hsub; destruct (decide (op_last_id s = ck_id c)) as [E|Hne]; [by apply Hseen, Hin| |by apply Hseen|]; destruct (Hdrop Hne) as [_ ->]; apply elem_of_app; [right; by left|left; by apply Hseen]. }
  eexists. split; [reflexivity|]. split; unfold needed_again; rewrite ?Elast, ?Hp; cbn [op_last_id op_store op_out op_stat].
  - congruence.
  - intros _. unfold cached_ids at 1. cbn [op_lru]. change (op_last_id s2 ∈ cached_ids container_id s2). rewrite Hl2, Hl1.
    rewrite <- (elem_of_list_to_set (C := gset Z)), Hset. by rewrite elem_of_list_to_set.
  - congruence.
  - rewrite Ho2, Ho1. by apply Forall2_app; [|constructor].
  - exists cur'. split; [by destruct Hc2|]. auto.
  - intros x Hx. apply Hseen'. apply (elem_of_list_to_set (C := gset Z)). rewrite <- Hset. by apply elem_of_list_to_set.
  - exists (if bool_decide (ck_id c ∈ cached_ids container_id s) then k else S k). rewrite length_app. cbn [length count_chunk rs_container_num].
    rewrite Hs2, Hs1, Hb. split_and!.
    + pose proof (zlen_nonneg post). assert (Z.of_nat (length pre) < 2 ^ 29) by (unfold zlen in *; rewrite Eq, length_app in Hlen; lia).
      case_bool_decide; cbn [count_container rs_container_num]; [lia|]. rewrite Hk, s32_id by lia. lia.
    + case_bool_decide; lia.
    + intros Hwin Hpos Hag. specialize (Hstep Hpos). specialize (Hub Hwin Hpos). rewrite (Hall1 Hwin (Hall Hwin)) in Hstep.
      assert (Hcov : forall x, x ∈ take p accessed -> x ∈ drop (if decide (op_last_id s = ck_id c) then p else S p) accessed).
      { intros x Hx. apply Hag. destruct (decide _) as [E|Hne]; [done|]. destruct (Hdrop Hne) as [_ ->]. apply elem_of_app. by left. }
      apply (step_unbeaten p s s1 s2 c k cur); try done.
      * apply Hstep, accessed_needed. intros x Hx. by apply Hcov, Hseen.
      * apply Hub. intros x Hx. apply Hcov in Hx. change (x ∈ drop p accessed). destruct (decide _) as [E|Hne]; [done|]. destruct (Hdrop Hne) as [-> _]. by right.
Qed.

Lemma optimal_start_ok st bv : same_disk st0 st -> record_fp bv = mk_file (ids_bytes (accessed ++ [TEMPORARY_ID])) 0 ->
  opt_inv (init_optimal_cache W bv size (fun con fp => negb (lookup_fingerprint_in_container con fp =? 0)) st stat0) [].
Proof using All.
  intros Hd Hbv. destruct accessed_ok as (Ha1 & Ha2 & Ha3).
  assert (Hw : win_ok accessed 0 (Nat.min (length (records accessed)) (0 + Z.to_nat W)) (∅ ∪ list_to_set []) (optimal_cache_window_fill W (mk_win 0 ∅ 0 bv false))).
  { apply (window_fill_ok W accessed HW Ha1 Ha2 Ha3 0 0); [|cbn; lia]. pose proof (length_records accessed). split; cbn [win_bv win_end buffered_access_record_num]; [lia| |done|exact Hbv|by rewrite bool_decide_false by lia].
    split; [done|]. intros id. cbn [access_record_table]. rewrite lookup_empty, positions_none. symmetry. apply decide_True. set_solver. }
  split; cbn; try done.
  - eexists. split; [split; [apply new_lru_cache_wf|done|done|apply NoDup_nil_2|done|apply Forall_nil_2|exact Hw]|]. intros ?. lia.
  - exists 0%nat. split_and!; [lia|lia|]. intros _ _ _. apply unbeaten_start.
Qed.

(** The rounds of the thread on the first chunks. *)
Definition optimal_rounds (bv : backupVersion) (st : cstore) (pre : list chunk) : res (@opt_state container) :=
  foldM (optimal_step W container_id (retrieve_container_by_id SIMULATION_NO) (optimal_cache_lookup SIMULATION_NO stack))
    (init_optimal_cache W bv size (fun con fp => negb (lookup_fingerprint_in_container con fp =? 0)) st stat0) pre.

Lemma optimal_loop st bv pre post : same_disk st0 st -> record_fp bv = mk_file (ids_bytes (accessed ++ [TEMPORARY_ID])) 0 -> queue = pre ++ post ->
  exists s, optimal_rounds bv st pre = Ok s /\ opt_inv s pre.
Proof using HW Hsize Hq Hq64 Hlen Hstat LO HO.
  intros Hd Hbv Eq. apply foldM_steps; [|by apply optimal_start_ok]. intros s pre' c post' E Hi.
  apply (optimal_step_ok pre' c (post' ++ post)); [|done]. by rewrite Eq, E, <- app_assoc.
Qed.

Lemma optimal_restore_spec st bv : same_disk st0 st -> record_fp bv = mk_file (ids_bytes (accessed ++ [TEMPORARY_ID])) 0 ->
  exists out stat' st', optimal_restore_thread W SIMULATION_NO stack size bv st stat0 queue = Ok (out, stat', st') /\
    Forall2 (delivers content) queue out.
Proof using HW Hsize Hq Hq64 Hlen Hstat LO HO.
  intros Hd Hbv. unfold optimal_restore_thread. rewrite (Z.eqb_refl SIMULATION_NO).
  destruct (optimal_loop st bv queue [] Hd Hbv) as (s & E & Hi); [by rewrite app_nil_r|]. unfold optimal_rounds in E. rewrite E. step.
  eexists _, _, _. split; [reflexivity|]. apply Hi.
Qed.

(** The loads of the first rounds, against those of any policy. *)
Lemma optimal_loads st bv pre post : same_disk st0 st -> record_fp bv = mk_file (ids_bytes (accessed ++ [TEMPORARY_ID])) 0 -> queue = pre ++ post ->
  zlen accessed < W -> 0 < size -> needed_again pre ->
  exists s, optimal_rounds bv st pre = Ok s /\
    forall C n, cache_run (Z.to_nat size) (switches TEMPORARY_ID (chunk_ids pre)) C n -> rs_container_num (op_stat s) - rs_container_num stat0 <= Z.of_nat n.
Proof using All.
  intros Hd Hbv Eq Hwin Hpos Hag. destruct (optimal_loop st bv pre post Hd Hbv Eq) as (s & E & [_ _ _ _ _ _ (k & Hk & _ & Hub)]). exists s. split; [exact E|].
  intros C n Hr. specialize (Hub ltac:(rewrite length_records; unfold zlen in Hwin; lia) Hpos Hag).
  assert (Et : take (position pre) accessed = switches TEMPORARY_ID (chunk_ids pre)).
  { unfold accessed, position. by rewrite Eq, chunk_ids_app, switches_app, take_app_length. }
  rewrite Et in Hub. destruct (Hub C n Hr) as (p & _ & ?). lia.
Qed.
End Thread.

Section Theorems.
Context `{HI : !HashIter fingerprint metaEntry} `{HO : !HashIterOk fingerprint metaEntry}.
Context `{SS : !SeqSort accessRecords} `{LO : !SeqSortOk accessRecords}.
Context (W : Z) (stack : Z -> fingerprint) (content : fingerprint -> list Z) (st : cstore) (queue : list chunk) (bv : backupVersion).
Context (HW : 0 < W < 2 ^ 30) (Hq : Forall (restorable SIMULATION_NO content st) queue).
Context (Hq64 : Forall (fun c => ck_id c < 2 ^ 63) queue) (Hlen : zlen queue < 2 ^ 29).
Context (Hbv : record_fp bv = mk_file (ids_bytes (runs (chunk_ids queue) ++ [TEMPORARY_ID])) 0).

Lemma queue_runs : runs (chunk_ids queue) = accessed queue.
Proof using Hq Hq64.
  apply runs_from_none. eapply Forall_impl; [exact (queue_ids content st queue Hq Hq64)|]. intros id. unfold TEMPORARY_ID. cbn. lia.
Qed.

(** The optimal cache serves what the other caches serve. With the access
    records of the version in [bv], any window and any cache size but 0, the thread
    ends without an error and gives the writer every chunk of the recipe, in
    order, with its bytes, as the LRU cache does. *)
Theorem optimal_restore_serves size lru_size stat : size <> 0 -> 0 <= rs_container_num stat < 2 ^ 30 ->
  exists out1 stat1 st1 out2 stat2 st2,
    optimal_restore_thread W SIMULATION_NO stack size bv st stat queue = Ok (out1, stat1, st1) /\
    lru_restore_thread SIMULATION_NO stack lru_size st stat queue = Ok (out2, stat2, st2) /\
    Forall2 (delivers content) queue out1 /\ map served out1 = map served out2.
Proof using HW Hq Hq64 Hlen Hbv LO HO.
  intros Hsize Hstat. rewrite queue_runs in Hbv.
  destruct (optimal_restore_spec W stack content st queue stat size HW Hsize Hq Hq64 Hlen Hstat st bv eq_refl Hbv) as (o1 & s1 & t1 & E1 & D1).
  destruct (lru_restore_delivers SIMULATION_NO stack content ltac:(done) lru_size st stat queue Hq) as (o2 & s2 & t2 & E2 & D2).
  exists o1, s1, t1, o2, s2, t2. split_and!; [exact E1|exact E2|exact D1|exact (delivers_map_served content queue _ _ D1 D2)].
Qed.

(** C9: the optimal cache is optimal. When the window covers the access records, and
    as long as every container that was read is needed again, no policy that keeps
    [size] containers and loads on demand, however it chooses what to drop, has
    read fewer containers for the chunks so far; the thread goes on to its end. (On
    the records of containers that are not needed again the comparison is no order,
    and what [g_sequence_sort] makes of them is not documented.) *)
Theorem optimal_restore_fewest_reads size stat pre post C n : 0 < size -> 0 <= rs_container_num stat < 2 ^ 30 ->
  zlen (runs (chunk_ids queue)) < W -> queue = pre ++ post -> needed_again queue pre -> cache_run (Z.to_nat size) (runs (chunk_ids pre)) C n ->
  exists s out stat' st', optimal_rounds W stack stat size bv st pre = Ok s /\
    rs_container_num (op_stat s) - rs_container_num stat <= Z.of_nat n /\
    optimal_restore_thread W SIMULATION_NO stack size bv st stat queue = Ok (out, stat', st').
Proof using HW Hq Hq64 Hlen Hbv LO HO.
  intros Hsize Hstat Hwin Eq Hag Hr. rewrite queue_runs in *.
  assert (Epre : runs (chunk_ids pre) = switches TEMPORARY_ID (chunk_ids pre)).
  { apply runs_from_none. eapply Forall_impl; [apply (queue_ids content st pre)|]; [rewrite Eq in Hq; by apply Forall_app in Hq as [? _]|rewrite Eq in Hq64; by apply Forall_app in Hq64 as [? _]|].
    intros id. unfold TEMPORARY_ID. cbn. lia. }
  rewrite Epre in Hr.
  destruct (optimal_restore_spec W stack content st queue stat size HW ltac:(lia) Hq Hq64 Hlen Hstat st bv eq_refl Hbv) as (o & s' & t & E & _).
  destruct (optimal_loads W stack content st queue stat size HW ltac:(lia) Hq Hq64 Hlen Hstat st bv pre post eq_refl Hbv Eq Hwin Hsize Hag) as (s & Es & Hbest).
  exists s, o, s', t. split; [exact Es|]. split; [by apply (Hbest C)|exact E].
Qed.
End Theorems.

(** ** Witnesses *)

Section Demo.
#[local] Existing Instance std_hash_iter.
#[local] Existing Instance std_hash_iter_ok.
#[local] Existing Instance std_seq_sort.
#[local] Existing Instance std_seq_sort_ok.

(** A version opened for reading, with the access records [ids]. *)
Definition records_bv (ids : list Z) : backupVersion :=
  bv_set_record (recipe_demo_bv []) (mk_file (ids_bytes ids) 0) None 0.

(** Cycling through three containers with room for two: six loads, where the
    least recently used policy loads at each of the nine accesses. *)
Definition demo_cycle : list Z := [1; 2; 3; 1; 2; 3; 1; 2; 3].

Example optimal_demo :
  (st ← init_container_store None;
   s ← foldM (optimal_step 100 id (fun st id => Ok (id, st)) (fun s _ => Ok s))
         (init_optimal_cache 100 (records_bv (demo_cycle ++ [TEMPORARY_ID])) 2 (fun _ _ => false) st (mk_rstat 0 0 0))
         (map (fun id => mk_chunk 1 0 id [] None) demo_cycle);
   Ok (rs_container_num (op_stat s), elem_queue (op_lru s))) = Ok (6, [3; 2]).
Proof. vm_compute. reflexivity. Qed.

Lemma demo_recipe_ids : Forall (fun c => ck_id c < 2 ^ 63) demo_recipe.
Proof. decide_it. Qed.

Lemma optimal_restore_serves_witness : exists st out1 stat1 st1,
  optimal_restore_thread 100 SIMULATION_NO (fun _ => []) 4 (records_bv [0; TEMPORARY_ID]) st (mk_rstat 0 0 0) demo_recipe = Ok (out1, stat1, st1) /\
  Forall2 (delivers (fun _ => [1; 2; 3])) demo_recipe out1.
Proof.
  destruct demo_restorable as [st Hr].
  destruct (optimal_restore_serves 100 (fun _ => []) (fun _ => [1; 2; 3]) st demo_recipe (records_bv [0; TEMPORARY_ID])
    ltac:(lia) Hr demo_recipe_ids eq_refl eq_refl 4 4 (mk_rstat 0 0 0)) as (o1 & s1 & t1 & _ & _ & _ & E & _ & D & _); [done|cbn; lia|].
  exists st, o1, s1, t1. exact (conj E D).
Defined.

(** Two rounds over three containers, the first two cached by a policy that keeps
    them: four loads. *)
Definition demo_pass : list chunk := map demo_pointer_to [0; 1; 2].
Definition demo_passes : list chunk := demo_pass ++ demo_pass.

Lemma demo_run : cache_run 2 (runs (chunk_ids demo_passes)) {[1; 2]} 4.
Proof.
  change (runs (chunk_ids demo_passes)) with ([] ++ [0; 1; 2; 0; 1; 2]).
  assert (Hm : forall l (C C' : gset Z) k a, cache_run 2 l C k -> a ∉ C -> a ∈ C' -> C' ⊆ {[a]} ∪ C -> (size C' <= 2)%nat -> cache_run 2 (l ++ [a]) C' (S k)) by (intros; by eapply run_miss).
  assert (H1 : cache_run 2 [0] {[0]} 1) by (apply (Hm [] ∅); [apply run_start|set_solver..|vm_compute; lia]).
  assert (H2 : cache_run 2 [0; 1] {[0; 1]} 2) by (apply (Hm [0] {[0]}); [exact H1|set_solver..|vm_compute; lia]).
  assert (H3 : cache_run 2 [0; 1; 2] {[0; 2]} 3) by (apply (Hm [0; 1] {[0; 1]}); [exact H2|set_solver..|vm_compute; lia]).
  assert (H4 : cache_run 2 [0; 1; 2; 0] {[0; 2]} 3) by (apply (run_hit 2 [0; 1; 2] {[0; 2]}); [exact H3|set_solver..]).
  assert (H5 : cache_run 2 [0; 1; 2; 0; 1] {[1; 2]} 4) by (apply (Hm [0; 1; 2; 0] {[0; 2]}); [exact H4|set_solver..|vm_compute; lia]).
  apply (run_hit 2 [0; 1; 2; 0; 1] {[1; 2]}); [exact H5|set_solver..].
Qed.

(** With room for two containers, the cache has evicted at each of the last loads,
    and a third round needs all of the containers again. *)
Lemma optimal_restore_fewest_reads_witness : exists st s out stat' st',
  optimal_rounds 100 (fun _ => []) (mk_rstat 0 0 0) 2 (records_bv [0; 1; 2; 0; 1; 2; 0; 1; 2; TEMPORARY_ID]) st demo_passes = Ok s /\
  rs_container_num (op_stat s) - 0 <= 4 /\
  optimal_restore_thread 100 SIMULATION_NO (fun _ => []) 2 (records_bv [0; 1; 2; 0; 1; 2; 0; 1; 2; TEMPORARY_ID]) st (mk_rstat 0 0 0) (demo_passes ++ demo_pass) = Ok (out, stat', st').
Proof.
  destruct (demo_restorable_from 3) as [st Hr]; [by vm_compute|]. exists st.
  apply (optimal_restore_fewest_reads 100 (fun _ => []) (fun _ => [1; 2; 3]) st (demo_passes ++ demo_pass) (records_bv [0; 1; 2; 0; 1; 2; 0; 1; 2; TEMPORARY_ID])
    ltac:(lia)) with (post := demo_pass) (stat := mk_rstat 0 0 0) (C := {[1; 2]}) (n := 4%nat); [|decide_it|reflexivity|reflexivity|lia|cbn; lia|reflexivity|reflexivity| |exact demo_run].
  - apply Forall_app. split; [apply Forall_app; split|]; (repeat apply Forall_cons_2; [apply Hr; lia..|by constructor]).
  - unfold needed_again. apply Forall_forall. decide_it.
Defined.
End Demo.
