(* ===== verification/DoRestore.v ===== *)
(** A restore job: the thread that reads the recipe, the choice of the cache, and
    the thread that sends the chunks to the client ([destor/src/do_restore.c],
    [init_restore_jcr] of [jcr.c]).

    The queues between the threads are lists: a thread is a function from what it
    takes to what it pushes. A command to the Redis server of the client is the
    pair of the key and the value of an RPUSH. *)

From S2P Require Import Prelude Serial CFile CText Glib Destor LruCache Container Recipe Segmenting RestoreCache OptRestore.

(** ** Reading the recipe *)

Section ReadRecipe.
Context (fuel : nat).

(** The inner loop: [n] chunk pointers; the statics of the recipe store are the
    two counters. *)
Fixpoint read_recipe_chunks (n : nat) (bv : backupVersion) (read_chunk_num : Z) : res (list chunk * backupVersion * Z) :=
  match n with
  | O => Ok ([], bv, read_chunk_num)
  | S n =>
      '(cps, bv, read_chunk_num) ← read_next_n_chunk_pointers fuel bv 1 read_chunk_num;
      cps ← deref cps;
      match cps with
      | [] => Err EBounds
      | cp :: _ =>
          let c := new_chunk 0 in
          let c := mk_chunk (cp_size cp) (ck_flag c) (cp_id cp) (cp_fp cp) (ck_data c) in
          '(cs, bv, read_chunk_num) ← read_recipe_chunks n bv read_chunk_num;
          Ok (c :: cs, bv, read_chunk_num)
      end
  end.

(** The outer loop: [n] files. *)
Fixpoint read_recipe_files (n : nat) (bv : backupVersion) (read_file_num read_chunk_num : Z) : res (list chunk) :=
  match n with
  | O => Ok []
  | S n =>
      '(r, bv, read_file_num) ← read_next_file_recipe_meta bv read_file_num;
      c ← filled_chunk (fm_filename r ++ [0]);
      '(cs, bv, read_chunk_num) ← read_recipe_chunks (Z.to_nat (fm_chunknum r)) bv read_chunk_num;
      rest ← read_recipe_files n bv read_file_num read_chunk_num;
      Ok (SET_CHUNK c CHUNK_FILE_START :: cs ++ SET_CHUNK (new_chunk 0) CHUNK_FILE_END :: rest)
  end.

(** What the thread pushes into [restore_recipe_queue]. *)
Definition read_recipe_thread (bv : backupVersion) : res (list chunk) :=
  read_recipe_files (Z.to_nat (number_of_files bv)) bv 0 0.
End ReadRecipe.

(** ** Sending to the client *)

Definition MAX_OEC_FILENAME_LEN : Z := 80.

(** [sprintf(pkt_name, "%s:%d", path, k)] into 80 bytes. *)
Definition pkt_name (path : list Z) (k : Z) : res (list Z) :=
  let s := path ++ 58 :: print_int k in
  if MAX_OEC_FILENAME_LEN <? zlen s + 1 then Err EBounds else Ok s.

(** The counters of the thread, and the commands so far. *)
Record writer := mk_writer { wr_file_num : Z; wr_chunk_num : Z; wr_cmds : list (list Z * list Z) }.

Section Write.
Context (simulation_level : Z) (path : list Z).

Definition write_chunk (w : writer) (c : chunk) : res writer :=
  if CHECK_CHUNK c CHUNK_FILE_START then Ok w
  else if CHECK_CHUNK c CHUNK_FILE_END then
    let file_num := s32 (wr_file_num w + 1) in
    _ ← c_assert (file_num =? 1);
    name ← pkt_name path (wr_chunk_num w);
    let tmplen := s32 (htonl 0) in
    Ok (mk_writer file_num (s32 (wr_chunk_num w + 1)) (wr_cmds w ++ [(name, le_bytes 4 tmplen)]))
  else
    _ ← c_assert (simulation_level =? SIMULATION_NO);
    name ← pkt_name path (wr_chunk_num w);
    let tmplen := s32 (htonl (u32 (ck_size c))) in
    bs ← chunk_bytes c (ck_size c);
    Ok (mk_writer (wr_file_num w) (s32 (wr_chunk_num w + 1)) (wr_cmds w ++ [(name, le_bytes 4 tmplen ++ bs)])).

(** The commands, in order. [jcr.file_num] starts at zero. *)
Definition write_restore_data (restore_chunk_queue : list chunk) : res (list (list Z * list Z)) :=
  w ← foldM write_chunk (mk_writer 0 0 []) restore_chunk_queue; Ok (wr_cmds w).
End Write.

(** ** The job *)

Definition RESTORE_CACHE_LRU := 0.
Definition RESTORE_CACHE_OPT := 1.
Definition RESTORE_CACHE_ASM := 2.

Definition init_restore_jcr (dir : gmap Z version_files) (revision : Z) : res backupVersion :=
  bv ← open_backup_version dir revision;
  if bv_deleted bv =? 1 then Err (EExit 1) else Ok bv.

Section Job.
Context `{HI : !HashIter fingerprint metaEntry} `{SS : !SeqSort accessRecords}.
Context (fuel : nat) (simulation_level restore_cache_0 restore_cache_1 restore_opt_window_size : Z) (stack : Z -> fingerprint).

(** The restore thread that the configuration names. *)
Definition restore_thread (bv : backupVersion) (st : cstore) (queue : list chunk) : res (list chunk * restore_stat * cstore) :=
  let stat := mk_rstat 0 0 0 in
  if restore_cache_0 =? RESTORE_CACHE_LRU then lru_restore_thread simulation_level stack restore_cache_1 st stat queue
  else if restore_cache_0 =? RESTORE_CACHE_OPT then optimal_restore_thread restore_opt_window_size simulation_level stack restore_cache_1 bv st stat queue
  else if restore_cache_0 =? RESTORE_CACHE_ASM then assembly_restore_thread simulation_level stack fuel restore_cache_1 st stat queue
  else Err (EExit 1).

(** [do_restore] over an opened container store: what it sends, and its statistics. *)
Definition do_restore (dir : gmap Z version_files) (st : cstore) (revision : Z) (path : list Z) :
    res (list (list Z * list Z) * restore_stat) :=
  bv ← init_restore_jcr dir revision;
  recipe ← read_recipe_thread fuel bv;
  '(chunks, stat, _) ← restore_thread bv st recipe;
  cmds ← write_restore_data simulation_level path chunks;
  Ok (cmds, stat).
End Job.

(** ** The stream of a recipe *)

(** A chunk pointer as the restore reads it from the recipe. *)
Definition ptr_chunk (cp : chunkPointer) : chunk := mk_chunk (cp_size cp) CHUNK_UNIQUE (cp_id cp) (cp_fp cp) None.

Definition start_chunk (name : list Z) : chunk := SET_CHUNK (block_chunk (name ++ [0])) CHUNK_FILE_START.
Definition end_chunk : chunk := SET_CHUNK (new_chunk 0) CHUNK_FILE_END.

(** The entries share the chunk pointers out among the files. *)
Fixpoint recipe_stream (rs : list fileRecipeMeta) (cps : list chunkPointer) : list chunk :=
  match rs with
  | [] => []
  | r :: rs =>
      let n := Z.to_nat (fm_chunknum r) in
      start_chunk (fm_filename r) :: map ptr_chunk (take n cps) ++ end_chunk :: recipe_stream rs (drop n cps)
  end.

Definition sum_chunks (rs : list fileRecipeMeta) : nat := list_sum (map (fun r => Z.to_nat (fm_chunknum r)) rs).

Lemma sum_chunks_cons r rs : sum_chunks (r :: rs) = (Z.to_nat (fm_chunknum r) + sum_chunks rs)%nat.
Proof. done. Qed.

(** The items of a recipe file that are left to read. *)
Record recipe_left (b : backupVersion) (data : list Z) (off dn : Z) (items : list chunkPointer) : Prop := {
  rl_file : recipe_fp b = mk_file data off;
  rl_has : file_has data off (items_bytes items);
  rl_ok : Forall cp_ok items;
  rl_num : number_of_chunks b = dn + zlen (pointers items);
  rl_done : 0 <= dn;
  rl_max : number_of_chunks b < 2 ^ 31;
}.

Lemma read_recipe_chunks_spec fuel data n : forall items b off dn, recipe_left b data off dn items ->
  (length items <= fuel)%nat -> (n <= length (pointers items))%nat ->
  exists k, read_recipe_chunks fuel n b dn =
      Ok (map ptr_chunk (take n (pointers items)), bv_set_recipe b (mk_file data (off + cp_len * Z.of_nat k)), dn + Z.of_nat n) /\
    pointers (drop k items) = drop n (pointers items) /\
    recipe_left (bv_set_recipe b (mk_file data (off + cp_len * Z.of_nat k))) data (off + cp_len * Z.of_nat k) (dn + Z.of_nat n) (drop k items).
Proof.
  induction n as [|n IH]; intros items b off dn Hl Hfuel Hn.
  - exists O. cbn [read_recipe_chunks Z.of_nat]. rewrite Z.mul_0_r, !Z.add_0_r, !drop_0. destruct Hl as [Hf Hh Hok Hnum Hd Hm].
    assert (Eb : bv_set_recipe b (mk_file data off) = b) by (rewrite <- Hf; by destruct b). rewrite Eb. by split_and!.
  - destruct Hl as [Hf Hh Hok Hnum Hd Hm]. assert (Hne : pointers items <> []) by (intros E; rewrite E in Hn; cbn in Hn; lia).
    destruct (read_batch_spec 1 fuel items b data off dn) as (k & E & Hp & Hh'); [lia|done..|].
    assert (E1 : Z.to_nat (1 `min` zlen (pointers items)) = 1%nat) by (unfold zlen; lia). rewrite E1 in E, Hp. cbn [read_recipe_chunks]. rewrite E. step.
    destruct (pointers items) as [|cp cps] eqn:Ep; [done|]. cbn [take deref]. step.
    rewrite zlen_cons in Hnum. pose proof (zlen_nonneg cps).
    assert (Hl1 : recipe_left (bv_set_recipe b (mk_file data (off + cp_len * Z.of_nat k))) data (off + cp_len * Z.of_nat k) (dn + Z.of_nat 1) (drop k items)).
    { split; cbn [bv_set_recipe recipe_fp number_of_chunks]; [done|done|by apply Forall_drop| |lia|done]. rewrite Hp. cbn [drop]. rewrite drop_0. lia. }
    destruct (IH (drop k items) _ _ _ Hl1) as (k' & -> & Hp' & Hl'); [rewrite length_drop; lia|rewrite Hp; cbn [drop]; rewrite drop_0; cbn [length] in Hn; lia|].
    step. exists (k + k')%nat. rewrite Hp. cbn [drop take map]. rewrite Nat2Z.inj_add, Z.mul_add_distr_l, Z.add_assoc.
    replace (dn + Z.of_nat (S n)) with (dn + Z.of_nat 1 + Z.of_nat n) by lia. split; [done|].
    rewrite <- drop_drop. rewrite Hp' at 1. rewrite Hp. by split.
Qed.

Lemma read_recipe_files_spec fuel mdata data rs : forall items b moff off fn dn, recipe_left b data off dn items ->
  metadata_fp b = mk_file mdata moff -> file_has mdata moff (concat (map fm_bytes rs)) -> Forall fm_ok rs ->
  0 <= fn -> number_of_files b = fn + zlen rs -> number_of_files b < 2 ^ 31 ->
  (length items <= fuel)%nat -> (sum_chunks rs <= length (pointers items))%nat ->
  read_recipe_files fuel (length rs) b fn dn = Ok (recipe_stream rs (pointers items)).
Proof.
  induction rs as [|r rs IH]; intros items b moff off fn dn Hl Hm Hh Hok Hfn Hnum Hmax Hfuel Hsum; [done|].
  apply Forall_cons in Hok as [Hr Hok]. cbn [map concat] in Hh. apply file_has_app in Hh as [Hh Hrest].
  rewrite zlen_cons in Hnum. pose proof (zlen_nonneg rs). cbn [length read_recipe_files recipe_stream].
  rewrite sum_chunks_cons in Hsum.
  rewrite (read_file_spec r b mdata moff fn) by (done || lia). step. rewrite filled_chunk_ok by by destruct (fm_filename r). step.
  set (b1 := bv_set_meta b _ _ _ _).
  assert (Hl1 : recipe_left b1 data off dn items) by (destruct Hl; by split).
  destruct (read_recipe_chunks_spec fuel data (Z.to_nat (fm_chunknum r)) items b1 off dn Hl1) as (k & -> & Hp & Hl2); [done|lia|]. step.
  rewrite (IH (drop k items) _ (moff + zlen (fm_bytes r)) _ (fn + 1) _ Hl2); [step|done|done|done|lia|cbn; lia|done|rewrite length_drop; lia|rewrite Hp, length_drop; lia].
  by rewrite Hp.
Qed.

(** ** A version on disk *)

(** The three files of a version whose recipe has the segments [segs]. *)
Record version_on_disk (dir : gmap Z version_files) (num : Z) (path : list Z) (files : list fileRecipeMeta) (segs : list (list chunkPointer)) : Prop := {
  vd_files : dir !! num = Some (mk_vf (final_header num (zlen files) (zlen (concat segs)) path ++ concat (map fm_bytes files)) (segs_bytes segs)
               (ids_bytes (runs (map cp_id (concat segs)) ++ [TEMPORARY_ID])));
  vd_num : 0 <= num < 2 ^ 31;
  vd_path : zlen path < 2 ^ 31 /\ Forall (fun ch => ch <> 0) path;
  vd_ok : Forall fm_ok files /\ Forall seg_ok segs;
  vd_small : zlen files < 2 ^ 31 /\ zlen (concat segs) < 2 ^ 28;
  vd_sum : sum_chunks files = length (concat segs);
}.

Definition recipe_items (segs : list (list chunkPointer)) : list chunkPointer := concat (map seg_items segs).

Lemma version_opens dir num path files segs fuel : version_on_disk dir num path files segs -> (length (recipe_items segs) <= fuel)%nat ->
  exists bv, init_restore_jcr dir num = Ok bv /\ read_recipe_thread fuel bv = Ok (recipe_stream files (concat segs)) /\
    record_fp bv = mk_file (ids_bytes (runs (map cp_id (concat segs)) ++ [TEMPORARY_ID])) 0.
Proof.
  intros [Hd Hn [Hp Hpn] [Hfo Hso] [Hf Hc] Hsum] Hfuel. pose proof (zlen_nonneg files). pose proof (zlen_nonneg (concat segs)).
  destruct (open_spec dir _ _ _ _ _ _ _ Hd) as (bv & E & E1 & E2 & E3 & E4 & E5 & E6 & E7 & E8); [unfold in_s; lia..|done|].
  exists bv. unfold init_restore_jcr. rewrite E. step. rewrite E5. split; [done|]. split; [|done].
  unfold read_recipe_thread. rewrite E2. unfold zlen at 1. rewrite Nat2Z.id, <- (pointers_segs segs) by done.
  eapply (read_recipe_files_spec fuel _ (segs_bytes segs)); [split| | | | | | |exact Hfuel| ]; rewrite ?pointers_segs by done; try done.
  - rewrite segs_bytes_items. exists [], []. by rewrite app_nil_r.
  - by apply items_ok.
  - rewrite E3. lia.
  - eexists _, []. rewrite app_nil_r. split; [reflexivity|]. unfold final_header. rewrite !zlen_app, !zlen_le_bytes. lia.
  - lia.
  - lia.
Qed.

(** Enough rounds for the loops of a restore: twice the size of the recipe. *)
Definition restore_fuel (dir : gmap Z version_files) (num : Z) : nat :=
  match dir !! num with Some vf => 4 + 2 * length (vf_recipe vf) | None => 0 end.

Lemma restore_fuel_enough dir num path files segs : version_on_disk dir num path files segs -> zlen files <= 1 ->
  (length (recipe_items segs) + length (recipe_stream files (concat segs)) < restore_fuel dir num)%nat.
Proof.
  intros [Hd _ _ [_ Hso] _ Hsum] Hone. unfold restore_fuel. rewrite Hd. cbn [vf_recipe].
  assert (Hitems : (length (recipe_items segs) <= length (segs_bytes segs))%nat).
  { rewrite segs_bytes_items. unfold items_bytes. fold (recipe_items segs). pose proof (items_ok segs Hso) as Hi. fold (recipe_items segs) in Hi.
    pose proof (zlen_cps _ Hi) as Hz. unfold zlen, cp_len in Hz. lia. }
  assert (Hp : (length (concat segs) <= length (recipe_items segs))%nat).
  { rewrite <- (pointers_segs segs Hso). unfold pointers. fold (recipe_items segs). apply length_filter. }
  assert (Hs : (length (recipe_stream files (concat segs)) <= 2 + length (concat segs))%nat); [|lia].
  destruct files as [|r [|]]; [cbn; lia| |unfold zlen in Hone; cbn in Hone; lia].
  cbn [recipe_stream length]. rewrite length_app, length_map, length_take. cbn. lia.
Qed.

(** ** The threads together *)

Lemma normal_flags c : is_file_flag c = false -> CHECK_CHUNK c CHUNK_FILE_START = false /\ CHECK_CHUNK c CHUNK_FILE_END = false.
Proof. unfold is_file_flag. by destruct (CHECK_CHUNK c CHUNK_FILE_START), (CHECK_CHUNK c CHUNK_FILE_END). Qed.

Lemma recipe_stream_all (P : chunk -> Prop) rs : forall cps, (forall name, P (start_chunk name)) -> P end_chunk -> Forall P (map ptr_chunk cps) ->
  Forall P (recipe_stream rs cps).
Proof.
  induction rs as [|r rs IH]; intros cps Hs He Hp; [constructor|]. cbn [recipe_stream]. rewrite <- (take_drop (Z.to_nat (fm_chunknum r)) cps), map_app in Hp.
  apply Forall_app in Hp as [H1 H2]. constructor; [apply Hs|]. apply Forall_app. split; [done|]. constructor; [done|]. by apply IH.
Qed.

Lemma start_flag name : is_file_flag (start_chunk name) = true.
Proof. reflexivity. Qed.

Lemma recipe_stream_ids rs : forall cps, sum_chunks rs = length cps -> chunk_ids (recipe_stream rs cps) = map cp_id cps.
Proof.
  induction rs as [|r rs IH]; intros cps Hs; [by destruct cps|]. rewrite sum_chunks_cons in Hs. cbn [recipe_stream].
  set (n := Z.to_nat (fm_chunknum r)) in *.
  assert (Hp : forall l, chunk_ids (map ptr_chunk l) = map cp_id l).
  { induction l as [|cp l IHl]; [done|]. unfold chunk_ids in *. cbn [map]. rewrite filter_cons_True by done. cbn [map]. by rewrite IHl. }
  specialize (Hp (take n cps)). specialize (IH (drop n cps) ltac:(rewrite length_drop; lia)). unfold chunk_ids in *.
  rewrite filter_cons_False by done. rewrite filter_app, map_app, filter_cons_False by done. rewrite Hp, IH. by rewrite <- map_app, take_drop.
Qed.

(** ** What the client receives *)

(** Packet [k]: its key, and its value, the length in network order and the bytes. *)
Definition packet (path : list Z) (k : Z) (bs : list Z) : list Z * list Z :=
  (path ++ 58 :: print_int k, le_bytes 4 (s32 (htonl (zlen bs))) ++ bs).

Fixpoint packets (path : list Z) (k : Z) (blocks : list (list Z)) : list (list Z * list Z) :=
  match blocks with [] => [] | bs :: blocks => packet path k bs :: packets path (k + 1) blocks end.

Lemma packets_app path k l1 l2 : packets path k (l1 ++ l2) = packets path k l1 ++ packets path (k + zlen l1) l2.
Proof.
  revert k. induction l1 as [|b l1 IH]; intros k; cbn [app packets]; [by rewrite Z.add_0_r|].
  rewrite IH, zlen_cons. do 3 f_equal. lia.
Qed.

Lemma pkt_name_ok path k : zlen path <= 58 -> 0 <= k < 2 ^ 63 -> pkt_name path k = Ok (path ++ 58 :: print_int k).
Proof.
  intros Hp Hk. unfold pkt_name. destruct (print_int_nonneg k Hk) as (c & s & -> & _ & Hl & _).
  rewrite zlen_app, zlen_cons. destruct (Z.ltb_spec MAX_OEC_FILENAME_LEN (zlen path + (1 + zlen (c :: s)) + 1)); [|done].
  unfold MAX_OEC_FILENAME_LEN in *. lia.
Qed.

Definition blocks_of (content : fingerprint -> list Z) (cps : list chunkPointer) : list (list Z) := map (fun cp => content (cp_fp cp)) cps.

(** The chunks of a file become packets. *)
Lemma write_blocks content path f cps : forall outs k cmds, zlen path <= 58 -> 0 <= k -> k + zlen cps < 2 ^ 31 -> Forall ptr_ok cps ->
  Forall2 (delivers content) (map ptr_chunk cps) outs ->
  foldM (write_chunk SIMULATION_NO path) (mk_writer f k cmds) outs = Ok (mk_writer f (k + zlen cps) (cmds ++ packets path k (blocks_of content cps))).
Proof.
  induction cps as [|cp cps IH]; intros outs k cmds Hp Hk Hn Hok Hd.
  - apply Forall2_nil_inv_l in Hd as ->. cbn. by rewrite Z.add_0_r, app_nil_r.
  - cbn [map] in Hd. apply Forall2_cons_inv_l in Hd as (c & outs' & Hc & Hd & ->). apply Forall_cons in Hok as [[(_ & _ & Hsz) _] Hok].
    rewrite zlen_cons in *. pose proof (zlen_nonneg cps). unfold delivers in Hc. change (is_file_flag (ptr_chunk cp)) with false in Hc.
    destruct Hc as (Hfl & Esz & Hbs). destruct (normal_flags c Hfl) as [F1 F2]. cbn [ptr_chunk ck_size ck_fp] in *.
    pose proof (chunk_bytes_size _ _ _ Hbs) as Hz. pose proof (zlen_nonneg (content (cp_fp cp))).
    assert (Hw : write_chunk SIMULATION_NO path (mk_writer f k cmds) c = Ok (mk_writer f (k + 1) (cmds ++ [packet path k (content (cp_fp cp))]))).
    { unfold write_chunk. rewrite F1, F2. cbn [Z.eqb SIMULATION_NO c_assert wr_chunk_num wr_file_num wr_cmds]. step.
      rewrite pkt_name_ok by lia. step. rewrite Hbs. step. rewrite s32_id by lia. rewrite uwrap_id by (unfold in_u, in_s in *; lia). by rewrite <- Hz. }
    cbn [foldM]. rewrite Hw. step.
    rewrite IH by (done || lia). cbn [blocks_of map packets]. rewrite <- app_assoc. do 2 f_equal. lia.
Qed.

Lemma write_file content path r rest cps outs : zlen path <= 58 -> zlen cps < 2 ^ 31 - 1 -> Forall ptr_ok cps ->
  Forall2 (delivers content) (start_chunk (fm_filename r) :: map ptr_chunk cps ++ end_chunk :: rest) outs ->
  exists outs', Forall2 (delivers content) rest outs' /\
    foldM (write_chunk SIMULATION_NO path) (mk_writer 0 0 []) outs =
      foldM (write_chunk SIMULATION_NO path) (mk_writer 1 (zlen cps + 1) (packets path 0 (blocks_of content cps ++ [[]]))) outs'.
Proof.
  intros Hp Hn Hok Hd. pose proof (zlen_nonneg cps). apply Forall2_cons_inv_l in Hd as (c & o1 & Hc & Hd & ->). change (c = start_chunk (fm_filename r)) in Hc. subst c.
  apply Forall2_app_inv_l in Hd as (o2 & o3 & H2 & Hd & ->). apply Forall2_cons_inv_l in Hd as (e & o4 & He & Hd & ->). change (e = end_chunk) in He. subst e.
  exists o4. split; [exact Hd|]. cbn [foldM]. change (write_chunk SIMULATION_NO path (mk_writer 0 0 []) (start_chunk (fm_filename r))) with (Ok (mk_writer 0 0 [])). step.
  rewrite foldM_app, (write_blocks content path 0 cps o2 0 []) by (done || lia). step. cbn [foldM app].
  assert (Hw : write_chunk SIMULATION_NO path (mk_writer 0 (0 + zlen cps) (packets path 0 (blocks_of content cps))) end_chunk =
    Ok (mk_writer 1 (zlen cps + 1) (packets path 0 (blocks_of content cps ++ [[]])))).
  { unfold write_chunk. change (CHECK_CHUNK end_chunk CHUNK_FILE_START) with false. change (CHECK_CHUNK end_chunk CHUNK_FILE_END) with true.
    cbn [wr_file_num wr_chunk_num wr_cmds]. change (s32 (0 + 1) =? 1) with true. cbn [c_assert]. step. rewrite pkt_name_ok by lia. step.
    rewrite (s32_id (0 + zlen cps + 1)) by lia. rewrite packets_app. cbn [packets packet].
    assert (zlen (blocks_of content cps) = zlen cps) as -> by (unfold zlen, blocks_of; by rewrite length_map). by rewrite !Z.add_0_l. }
  rewrite Hw. by step.
Qed.

(** Everything the job needs of the version and of the stores. *)
Section Restore.
Context `{HI : !HashIter fingerprint metaEntry} `{HO : !HashIterOk fingerprint metaEntry}.
Context `{SS : !SeqSort accessRecords} `{LO : !SeqSortOk accessRecords}.
Context (fuel : nat) (kind size W : Z) (stack : Z -> fingerprint) (content : fingerprint -> list Z).
Context (dir : gmap Z version_files) (st : cstore) (num : Z) (path : list Z) (files : list fileRecipeMeta) (segs : list (list chunkPointer)).
Context (Hkind : kind ∈ [RESTORE_CACHE_LRU; RESTORE_CACHE_OPT; RESTORE_CACHE_ASM]) (Hsize : size <> 0) (HW : 0 < W < 2 ^ 30).
Context (Hdisk : version_on_disk dir num path files segs).
Context (Hres : Forall (restorable SIMULATION_NO content st) (map ptr_chunk (concat segs))).
Context (Hfuel : (length (recipe_items segs) + length (recipe_stream files (concat segs)) < fuel)%nat).

Lemma segs_pointers : Forall ptr_ok (concat segs).
Proof using Hdisk. apply segs_ptrs, Hdisk. Qed.

(** The cache, whichever is configured, serves the stream of the recipe. *)
Lemma restore_thread_serves : zlen (recipe_stream files (concat segs)) < 2 ^ 29 ->
  exists bv out stat st', init_restore_jcr dir num = Ok bv /\ read_recipe_thread fuel bv = Ok (recipe_stream files (concat segs)) /\
    restore_thread fuel SIMULATION_NO kind size W stack bv st (recipe_stream files (concat segs)) = Ok (out, stat, st') /\
    Forall2 (delivers content) (recipe_stream files (concat segs)) out.
Proof using All.
  intros Hlen. destruct (version_opens dir num path files segs fuel Hdisk ltac:(lia)) as (bv & E1 & E2 & E3). exists bv.
  set (queue := recipe_stream files (concat segs)) in *.
  assert (Hq : Forall (restorable SIMULATION_NO content st) queue) by (apply recipe_stream_all; [by left|by left|exact Hres]).
  assert (Hid : chunk_ids queue = map cp_id (concat segs)) by (apply recipe_stream_ids, Hdisk).
  rewrite <- Hid in E3. unfold restore_thread. rewrite !elem_of_cons, elem_of_nil in Hkind.
  destruct Hkind as [->|[->|[->|[]]]]; cbn [Z.eqb Pos.eqb RESTORE_CACHE_LRU RESTORE_CACHE_OPT RESTORE_CACHE_ASM].
  - destruct (lru_restore_delivers SIMULATION_NO stack content ltac:(done) size st (mk_rstat 0 0 0) queue Hq) as (out & stat & st' & E & Hd).
    by exists out, stat, st'.
  - assert (Hq64 : Forall (fun c => ck_id c < 2 ^ 63) queue).
    { apply recipe_stream_all; [done|done|]. apply Forall_map. eapply Forall_impl; [exact segs_pointers|].
      intros cp [(_ & Hc & _) _]. cbn. unfold in_s in Hc. lia. }
    rewrite (queue_runs content st queue Hq Hq64) in E3.
    destruct (optimal_restore_spec W stack content st queue (mk_rstat 0 0 0) size HW Hsize Hq Hq64 Hlen ltac:(done) st bv eq_refl E3) as (out & stat & st' & E & Hd).
    by exists out, stat, st'.
  - destruct (assembly_restore_delivers SIMULATION_NO stack content ltac:(done) ltac:(done) fuel size st (mk_rstat 0 0 0) queue Hq ltac:(lia)) as (out & stat & st' & E & Hd).
    by exists out, stat, st'.
Qed.

Lemma do_restore_ok name r : zlen name <= 58 -> files = [r] ->
  exists stat, do_restore fuel SIMULATION_NO kind size W stack dir st num name =
    Ok (packets name 0 (blocks_of content (concat segs) ++ [[]]), stat).
Proof using All.
  intros Hn Ef. destruct (vd_small _ _ _ _ _ Hdisk) as [_ Hsmall]. pose proof (vd_sum _ _ _ _ _ Hdisk) as Hsum.
  assert (Es : recipe_stream files (concat segs) = start_chunk (fm_filename r) :: map ptr_chunk (concat segs) ++ [end_chunk]).
  { rewrite Ef in Hsum |- *. cbn [recipe_stream]. rewrite sum_chunks_cons in Hsum. unfold sum_chunks in Hsum. cbn [map] in Hsum. cbn in Hsum. by rewrite take_ge by lia. }
  destruct restore_thread_serves as (bv & out & stat & st' & E1 & E2 & E3 & Hd).
  { rewrite Es, zlen_cons, zlen_app. change (zlen [end_chunk]) with 1. unfold zlen at 1. rewrite length_map. fold (zlen (concat segs)). lia. }
  rewrite Es in Hd. destruct (write_file content name r [] (concat segs) out Hn ltac:(lia) segs_pointers Hd) as (outs' & Hnil & Ew).
  apply Forall2_nil_inv_l in Hnil as ->. exists stat. unfold do_restore. rewrite E1. step. rewrite E2. step. rewrite E3. step.
  unfold write_restore_data. rewrite Ew. cbn [foldM]. step. by step.
Qed.

(** C8: What a restore sends. For a version of one file, whichever cache is
    configured, [do_restore] runs without an error and sends the client the
    chunks of the recipe, in order and with their bytes, each as a packet with its
    length under the next key, and then the empty packet that ends the file. *)
Theorem do_restore_sends name r : zlen name <= 58 -> files = [r] ->
  exists stat, do_restore fuel SIMULATION_NO kind size W stack dir st num name =
    Ok (packets name 0 (blocks_of content (concat segs) ++ [[]]), stat).
Proof using All. apply do_restore_ok. Qed.

(** C32: A restore is of one file. When the version has more, as a backup of a
    directory does, the thread that sends the chunks stops the program at the end
    of the second file. *)
Theorem do_restore_many_files name r1 r2 rs : zlen name <= 58 -> files = r1 :: r2 :: rs -> zlen (recipe_stream files (concat segs)) < 2 ^ 29 ->
  do_restore fuel SIMULATION_NO kind size W stack dir st num name = Err EAssert.
Proof using All.
  intros Hn Ef Hlen. destruct (vd_small _ _ _ _ _ Hdisk) as [_ Hsmall]. pose proof segs_pointers as Hptr.
  destruct (restore_thread_serves Hlen) as (bv & out & stat & st' & E1 & E2 & E3 & Hd).
  unfold do_restore. rewrite E1. step. rewrite E2. step. rewrite E3. step. clear E1 E2 E3. unfold write_restore_data.
  rewrite Ef in Hd. cbn [recipe_stream] in Hd. set (n1 := Z.to_nat (fm_chunknum r1)) in *. set (n2 := Z.to_nat (fm_chunknum r2)) in *.
  set (cps := concat segs) in *.
  assert (Hz : zlen (take n1 cps) + zlen (take n2 (drop n1 cps)) <= zlen cps) by (unfold zlen; rewrite !length_take, length_drop; lia).
  pose proof (zlen_nonneg (take n1 cps)). pose proof (zlen_nonneg (take n2 (drop n1 cps))).
  destruct (write_file content name r1 _ (take n1 cps) out Hn ltac:(lia) ltac:(by apply Forall_take) Hd) as (o1 & Hd1 & ->).
  apply Forall2_cons_inv_l in Hd1 as (c & o2 & Hc & Hd1 & ->). change (c = start_chunk (fm_filename r2)) in Hc. subst c.
  apply Forall2_app_inv_l in Hd1 as (o3 & o4 & H3 & Hd1 & ->). apply Forall2_cons_inv_l in Hd1 as (e & o5 & He & _ & ->). change (e = end_chunk) in He. subst e.
  cbn [foldM]. change (write_chunk SIMULATION_NO name ?w (start_chunk (fm_filename r2))) with (Ok w). step.
  rewrite foldM_app, (write_blocks content name 1 (take n2 (drop n1 cps)) o3) by (done || lia || by apply Forall_take, Forall_drop). by step.
Qed.
End Restore.

(** ** Witnesses *)

Section Demo.
#[local] Existing Instance std_hash_iter.
#[local] Existing Instance std_hash_iter_ok.
#[local] Existing Instance std_seq_sort.
#[local] Existing Instance std_seq_sort_ok.

(** A version of two copies of one chunk, as one file or as two. *)
Definition demo_segs : list (list chunkPointer) := [[mk_cp (ck_fp demo_chunk) 0 3; mk_cp (ck_fp demo_chunk) 0 3]].
Definition demo_dir (files : list fileRecipeMeta) : gmap Z version_files :=
  {[0 := mk_vf (final_header 0 (zlen files) (zlen (concat demo_segs)) [97; slash] ++ concat (map fm_bytes files)) (segs_bytes demo_segs)
           (ids_bytes (runs (map cp_id (concat demo_segs)) ++ [TEMPORARY_ID]))]}.

Lemma demo_seg_ok : Forall seg_ok demo_segs.
Proof.
  constructor; [|constructor]. split; [|done]. assert (Hp : ptr_ok (mk_cp (ck_fp demo_chunk) 0 3)) by (split; [split_and!; [done|unfold in_s; cbn; lia..|done]|done]).
  by repeat constructor.
Qed.

Lemma demo_version files : Forall fm_ok files -> zlen files < 2 ^ 31 -> sum_chunks files = 2%nat -> version_on_disk (demo_dir files) 0 [97; slash] files demo_segs.
Proof.
  intros Hok Hl Hs. split; [apply lookup_singleton_eq|lia|split; [done|by repeat constructor]|split; [done|apply demo_seg_ok]|split; [done|by vm_compute]|exact Hs].
Qed.

Lemma demo_fm_ok n ch : 0 <= n < 2 ^ 31 -> ch <> 0 -> fm_ok (mk_fmeta n (3 * n) [ch]).
Proof. intros Hn Hch. split_and!; [done|by repeat constructor|unfold in_s; cbn; lia..]. Qed.

Lemma demo_pointers : exists st, Forall (restorable SIMULATION_NO (fun _ => [1; 2; 3]) st) (map ptr_chunk (concat demo_segs)).
Proof.
  destruct demo_restorable as (st & Hq). exists st. rewrite Forall_forall in Hq. apply Forall_forall. intros c Hc.
  apply Hq. change (map ptr_chunk (concat demo_segs)) with [demo_pointer; demo_pointer] in Hc. set_solver.
Qed.

Lemma do_restore_sends_witness : exists st stat,
  do_restore 100 SIMULATION_NO RESTORE_CACHE_OPT 4 100 (fun _ => []) (demo_dir [mk_fmeta 2 6 [97]]) st 0 [97] =
    Ok ([packet [97] 0 [1; 2; 3]; packet [97] 1 [1; 2; 3]; packet [97] 2 []], stat).
Proof.
  destruct demo_pointers as (st & Hres). exists st.
  refine (do_restore_sends 100 RESTORE_CACHE_OPT 4 100 (fun _ => []) (fun _ => [1; 2; 3]) (demo_dir [mk_fmeta 2 6 [97]]) st 0 [97; slash] [mk_fmeta 2 6 [97]] demo_segs
    _ _ _ _ Hres _ [97] (mk_fmeta 2 6 [97]) _ eq_refl); [decide_it|done|done| |decide_it|done].
  apply demo_version; [apply Forall_singleton, (demo_fm_ok 2); lia|done|done].
Defined.

Lemma do_restore_many_files_witness : exists st,
  do_restore 100 SIMULATION_NO RESTORE_CACHE_LRU 4 100 (fun _ => []) (demo_dir [mk_fmeta 1 3 [97]; mk_fmeta 1 3 [98]]) st 0 [97] = Err EAssert.
Proof.
  destruct demo_pointers as (st & Hres). exists st.
  refine (do_restore_many_files 100 RESTORE_CACHE_LRU 4 100 (fun _ => []) (fun _ => [1; 2; 3]) (demo_dir [mk_fmeta 1 3 [97]; mk_fmeta 1 3 [98]]) st 0 [97; slash]
    [mk_fmeta 1 3 [97]; mk_fmeta 1 3 [98]] demo_segs _ _ _ _ Hres _ [97] (mk_fmeta 1 3 [97]) (mk_fmeta 1 3 [98]) [] _ eq_refl _); [decide_it|done|done| |decide_it|done|done].
  apply demo_version; [|done|done]. rewrite !Forall_cons. split_and!; [apply (demo_fm_ok 1); lia|apply (demo_fm_ok 1); lia|done].
Defined.
End Demo.
