(* ===== verification/Double.v ===== *)
(** The [double] of the source: IEEE 754 binary64, as the executable
    specification of the Standard Library computes it (round to nearest even,
    which is the default the source runs under). *)

From Stdlib Require Import SpecFloat.
From S2P Require Import Prelude.

Abbreviation double := spec_float.

(** The conversion of an integer, and a decimal constant [m * 10^-k]. *)
Definition d_of_Z (z : Z) : double := binary_normalize 53 1024 z 0 false.
Definition d_div (x y : double) : double := SFdiv 53 1024 x y.
Definition d_mul (x y : double) : double := SFmul 53 1024 x y.
Definition d_lt (x y : double) : bool := SFltb x y.
Definition d_gt (x y : double) : bool := SFltb y x.

Example d_half : d_lt (d_div (d_of_Z 1) (d_of_Z 3)) (d_div (d_of_Z 1) (d_of_Z 2)) = true.
Proof. reflexivity. Qed.

(** A comparison with a NaN is false. *)
Lemma d_lt_nan x : d_lt S754_nan x = false /\ d_lt x S754_nan = false.
Proof. by destruct x as [[]|[]| |[]]. Qed.

Lemma d_div_zero : d_div (d_of_Z 0) (d_of_Z 0) = S754_nan.
Proof. reflexivity. Qed.

Definition d_sub (x y : double) : double := SFsub 53 1024 x y.
Definition d_ge (x y : double) : bool := SFleb y x.
Definition d_eq (x y : double) : bool := SFeqb x y.

(** The conversion to [int], towards zero; it is undefined outside the type. *)
Definition d_trunc (x : double) : option Z :=
  match x with
  | S754_zero _ => Some 0
  | S754_finite s m e => Some (cond_Zopp s (if 0 <=? e then Zpos m * 2 ^ e else Zpos m / 2 ^ (- e)))
  | _ => None
  end.
Definition d_to_int (x : double) : res Z :=
  match d_trunc x with
  | Some n => if bool_decide (in_s 32 n) then Ok n else Err EArith
  | None => Err EArith
  end.

(** ** Bounds of rounded results *)

Lemma digits2_spec p : 2 ^ (Zpos (digits2_pos p) - 1) <= Zpos p < 2 ^ Zpos (digits2_pos p).
Proof.
  assert (G : forall q, 2 ^ Zpos (Pos.succ q) = 2 * 2 ^ Zpos q) by (intros q; by rewrite Pos2Z.inj_succ, Z.pow_succ_r).
  assert (G' : forall q, 2 ^ (Zpos (Pos.succ q) - 1) = 2 * 2 ^ (Zpos q - 1)).
  { intros q. rewrite Pos2Z.inj_succ. replace (Z.succ (Zpos q) - 1) with (Z.succ (Zpos q - 1)) by lia. by rewrite Z.pow_succ_r by lia. }
  induction p as [p IH|p IH|]; cbn [digits2_pos]; [rewrite G, G', Pos2Z.inj_xI|rewrite G, G', (Pos2Z.inj_xO p)|done]; lia.
Qed.

Lemma Zdigits2_lt m : 0 <= m -> m < 2 ^ Zdigits2 m.
Proof. destruct m as [|p|p]; intros; [done| |lia]. apply digits2_spec. Qed.

Lemma Zdigits2_le m k : 0 <= m -> 0 <= k -> m < 2 ^ k -> Zdigits2 m <= k.
Proof.
  destruct m as [|p|p]; intros Hm Hk Hlt; [done| |lia]. cbn [Zdigits2]. destruct (digits2_spec p) as [Hp _].
  destruct (Z.leb_spec (Zpos (digits2_pos p)) k) as [|Hc]; [done|].
  assert (2 ^ k <= 2 ^ (Zpos (digits2_pos p) - 1)) by (apply Z.pow_le_mono_r; lia). lia.
Qed.

Lemma iter_pos_inv {A} (f : A -> A) (P : Z -> A -> Prop) : (forall n x, 0 <= n -> P n x -> P (n + 1) (f x)) ->
  forall p n x, 0 <= n -> P n x -> P (n + Zpos p) (SpecFloat.iter_pos f p x).
Proof.
  intros Hf. induction p as [p IH|p IH|]; intros n x Hn Hx; cbn [iter_pos].
  - rewrite Pos2Z.inj_xI. replace (n + (2 * Zpos p + 1)) with (n + 1 + Zpos p + Zpos p) by lia. apply IH; [lia|]. apply IH; [lia|]. by apply Hf.
  - rewrite Pos2Z.inj_xO. replace (n + 2 * Zpos p) with (n + Zpos p + Zpos p) by lia. apply IH; [lia|]. by apply IH.
  - by apply Hf.
Qed.

(** A mantissa shifted by [n] bits, with the bit that decides the rounding. *)
Definition shifted (m n : Z) (mrs : shr_record) : Prop :=
  shr_m mrs = m / 2 ^ n /\ shr_r mrs = (2 ^ n <=? 2 * (m mod 2 ^ n)).

Lemma shr_1_spec mrs : 0 <= shr_m mrs -> shr_m (shr_1 mrs) = shr_m mrs / 2 /\ shr_r (shr_1 mrs) = Z.odd (shr_m mrs).
Proof.
  destruct mrs as [[|[p|p|]|p] r s]; cbn [shr_m shr_1 shr_r]; intros; try done; try lia.
  - split; [|done]. rewrite Pos2Z.inj_xI, Z.add_comm, Z.mul_comm, Z.div_add by lia. done.
  - split; [|done]. rewrite Pos2Z.inj_xO, Z.mul_comm, Z.div_mul by lia. done.
Qed.

Lemma shifted_step m n mrs : 0 <= m -> 0 <= n -> shifted m n mrs -> shifted m (n + 1) (shr_1 mrs).
Proof.
  intros Hm Hn [Em Er]. assert (Hp : 0 < 2 ^ n) by (apply Z.pow_pos_nonneg; lia).
  assert (E2 : 2 ^ (n + 1) = 2 * 2 ^ n) by (rewrite Z.add_1_r; by apply Z.pow_succ_r).
  destruct (shr_1_spec mrs) as [H1 H2]; [rewrite Em; apply Z.div_pos; lia|]. split.
  - rewrite H1, Em, Z.div_div, E2, (Z.mul_comm 2) by lia. done.
  - rewrite H2, Em. pose proof (Z.div_mod m (2 ^ n)) as D1. pose proof (Z.div_mod m (2 ^ (n + 1))) as D2.
    pose proof (Z.mod_pos_bound m (2 ^ n)) as B1. pose proof (Z.mod_pos_bound m (2 ^ (n + 1))) as B2. rewrite E2 in *.
    assert (Hmod : m mod (2 * 2 ^ n) = m mod 2 ^ n + 2 ^ n * ((m / 2 ^ n) mod 2)) by (rewrite (Z.mul_comm 2); apply Z.rem_mul_r; lia).
    rewrite Hmod, Zodd_mod. pose proof (Z.mod_pos_bound (m / 2 ^ n) 2). unfold Zeq_bool.
    destruct (Z.eqb_spec ((m / 2 ^ n) mod 2) 1) as [E|E].
    + rewrite E. symmetry. apply Z.leb_le. lia.
    + replace ((m / 2 ^ n) mod 2) with 0 by lia. symmetry. apply Z.leb_gt. lia.
Qed.

(** What [shr_fexp] shifts by, for binary64. *)
Definition shift_by (m e : Z) : Z := 0 `max` (Z.max (Zdigits2 m - 53) (-1074 - e)).

Lemma shr_fexp_spec m e : 0 <= m -> exists mrs, shr_fexp 53 1024 m e loc_Exact = (mrs, e + shift_by m e) /\ shifted m (shift_by m e) mrs.
Proof.
  intros Hm. unfold shr_fexp, shr, fexp, emin, shift_by. cbn [shr_record_of_loc].
  assert (H0 : shifted m 0 {| shr_m := m; shr_r := false; shr_s := false |}).
  { split; cbn [shr_m shr_r]; [by rewrite Z.pow_0_r, Z.div_1_r|]. by rewrite Z.pow_0_r, Z.mod_1_r. }
  destruct (Z.max (Zdigits2 m + e - 53) (3 - 1024 - 53) - e) as [|p|p] eqn:E.
  - eexists. split; [f_equal; lia|]. replace (0 `max` _) with 0 by lia. done.
  - eexists. split; [f_equal; lia|]. replace (0 `max` _) with (0 + Zpos p) by lia.
    apply (iter_pos_inv shr_1 (shifted m)); [|done|done]. intros. by apply shifted_step.
  - eexists. split; [f_equal; lia|]. replace (0 `max` _) with 0 by lia. done.
Qed.

(** Rounding to nearest errs by half a unit at most. *)
Lemma round_nearest_bound m n mrs : 0 <= m -> 0 <= n -> shifted m n mrs ->
  0 <= round_nearest_even (shr_m mrs) (loc_of_shr_record mrs) /\
  2 * (2 ^ n * round_nearest_even (shr_m mrs) (loc_of_shr_record mrs)) <= 2 * m + 2 ^ n.
Proof.
  intros Hm Hn [Em Er]. assert (Hp : 0 < 2 ^ n) by (apply Z.pow_pos_nonneg; lia).
  pose proof (Z.div_mod m (2 ^ n)) as D. pose proof (Z.mod_pos_bound m (2 ^ n) Hp) as B. pose proof (Z.div_pos m (2 ^ n) Hm Hp) as Hd.
  rewrite Em. destruct mrs as [m' r s]. cbn [shr_m shr_r loc_of_shr_record] in *.
  assert (Hup : r = true -> 2 ^ n <= 2 * (m mod 2 ^ n)) by (intros ->; by apply Z.leb_le).
  assert (Hlow : 2 * (2 ^ n * (m / 2 ^ n)) <= 2 * m + 2 ^ n) by lia.
  destruct r, s; cbn [round_nearest_even]; try (destruct (Z.even _)); try (split; [lia|exact Hlow]); specialize (Hup eq_refl); split; lia.
Qed.

(** The shift leaves 53 bits. *)
Lemma shifted_small m e : 0 <= m -> m / 2 ^ shift_by m e < 2 ^ 53.
Proof.
  intros Hm. set (n := shift_by m e). assert (Hn : 0 <= n) by (unfold n, shift_by; lia). apply Z.div_lt_upper_bound; [apply Z.pow_pos_nonneg; lia|].
  rewrite <- Z.pow_add_r by lia. eapply Z.lt_le_trans; [by apply Zdigits2_lt|]. apply Z.pow_le_mono_r; [lia|]. unfold n, shift_by. lia.
Qed.

(** A float that is not negative, with a mantissa of 53 bits. *)
Definition nonneg_d (x : double) : Prop :=
  match x with
  | S754_zero _ => True
  | S754_infinity s => s = false
  | S754_finite s m e => s = false /\ Zpos m < 2 ^ 53 /\ -1074 <= e
  | S754_nan => False
  end.

Definition packed (sx : bool) (m e : Z) : double :=
  match m with
  | Z0 => S754_zero sx
  | Zpos m => if e <=? 971 then S754_finite sx m e else S754_infinity sx
  | _ => S754_nan
  end.

Lemma round_second m1 e1 mrs : 0 <= m1 <= 2 ^ 53 -> -1074 <= e1 -> shifted m1 (shift_by m1 e1) mrs ->
  0 <= shift_by m1 e1 <= 1 /\ 0 <= shr_m mrs < 2 ^ 53 /\ 2 ^ shift_by m1 e1 * shr_m mrs <= m1.
Proof.
  intros Hm He [Em _]. assert (Hd : Zdigits2 m1 <= 54) by (apply Zdigits2_le; [lia|lia|change (2 ^ 54) with (2 * 2 ^ 53); lia]).
  assert (Hs : 0 <= shift_by m1 e1 <= 1) by (unfold shift_by; lia). split; [done|]. rewrite Em.
  assert (Hp : 0 < 2 ^ shift_by m1 e1) by (apply Z.pow_pos_nonneg; lia).
  split; [split; [apply Z.div_pos; lia|apply shifted_small; lia]|]. apply Z.mul_div_le. lia.
Qed.

(** The result of rounding an exact [m * 2^e]. *)
Lemma round_aux_spec sx m e : 0 <= m -> exists m2 n, binary_round_aux 53 1024 sx m e loc_Exact = packed sx m2 (e + n) /\
  0 <= m2 < 2 ^ 53 /\ shift_by m e <= n <= shift_by m e + 1 /\ -1074 <= e + n /\ 2 * (2 ^ n * m2) <= 2 * m + 2 ^ shift_by m e.
Proof.
  intros Hm. unfold binary_round_aux. destruct (shr_fexp_spec m e Hm) as (mrs & -> & Hs).
  assert (Hn : 0 <= shift_by m e) by (unfold shift_by; lia).
  destruct (round_nearest_bound m (shift_by m e) mrs Hm Hn Hs) as [H0 Hb]. set (m1 := round_nearest_even _ _) in *.
  assert (Hm1 : m1 <= 2 ^ 53).
  { pose proof (shifted_small m e Hm) as Hsm. destruct Hs as [Em _]. rewrite <- Em in Hsm. unfold m1, round_nearest_even.
    destruct (loc_of_shr_record mrs) as [|[]]; try destruct (Z.even _); lia. }
  assert (He1 : -1074 <= e + shift_by m e) by (unfold shift_by; lia).
  destruct (shr_fexp_spec m1 (e + shift_by m e) H0) as (mrs2 & E2 & Hs2). rewrite E2.
  destruct (round_second m1 (e + shift_by m e) mrs2 ltac:(lia) He1 Hs2) as (Hn2 & Hm2 & Hle).
  exists (shr_m mrs2), (shift_by m e + shift_by m1 (e + shift_by m e)). rewrite Z.add_assoc. split; [done|]. split; [done|]. split; [lia|]. split; [lia|].
  rewrite Z.pow_add_r by lia. assert (0 < 2 ^ shift_by m e) by (apply Z.pow_pos_nonneg; lia). nia.
Qed.

Lemma packed_nonneg m e : 0 <= m < 2 ^ 53 -> -1074 <= e -> nonneg_d (packed false m e).
Proof. destruct m as [|p|p]; cbn [packed]; [done| |lia]. intros. destruct (e <=? 971); cbn [nonneg_d]; [split; [done|lia]|done]. Qed.

Lemma round_aux_nonneg m e : 0 <= m -> nonneg_d (binary_round_aux 53 1024 false m e loc_Exact).
Proof. intros Hm. destruct (round_aux_spec false m e Hm) as (m2 & n & -> & ? & ? & ? & _). by apply packed_nonneg. Qed.

Lemma round_nonneg p e : nonneg_d (binary_round 53 1024 false p e).
Proof. unfold binary_round. destruct (shl_align _ _ _) as [mz ez]. by apply round_aux_nonneg. Qed.

Lemma d_of_Z_nonneg n : 0 <= n -> nonneg_d (d_of_Z n).
Proof. destruct n as [|p|p]; intros; [done| |lia]. apply round_nonneg. Qed.

(** A quotient of numbers that are not negative. *)
Lemma shr_fexp_any m e l : 0 <= m -> exists mrs, shr_fexp 53 1024 m e l = (mrs, e + shift_by m e) /\ shr_m mrs = m / 2 ^ shift_by m e.
Proof.
  intros Hm. unfold shr_fexp, shr, fexp, emin, shift_by.
  assert (H0 : shr_m (shr_record_of_loc m l) = m) by (by destruct l as [|[]]).
  destruct (Z.max (Zdigits2 m + e - 53) (3 - 1024 - 53) - e) as [|p|p] eqn:E.
  - eexists. split; [f_equal; lia|]. replace (0 `max` _) with 0 by lia. by rewrite H0, Z.div_1_r.
  - eexists. split; [f_equal; lia|]. replace (0 `max` _) with (0 + Zpos p) by lia.
    apply (iter_pos_inv shr_1 (fun n mrs => shr_m mrs = m / 2 ^ n)); [|done|by rewrite H0, Z.div_1_r].
    intros n mrs Hn Em. assert (0 < 2 ^ n) by (apply Z.pow_pos_nonneg; lia). destruct (shr_1_spec mrs) as [-> _]; [rewrite Em; apply Z.div_pos; lia|].
    rewrite Em, Z.div_div, Z.pow_add_r by lia. done.
  - eexists. split; [f_equal; lia|]. replace (0 `max` _) with 0 by lia. by rewrite H0, Z.div_1_r.
Qed.

Lemma round_any_nonneg m e l : 0 <= m -> nonneg_d (binary_round_aux 53 1024 false m e l).
Proof.
  intros Hm. unfold binary_round_aux. destruct (shr_fexp_any m e l Hm) as (mrs & -> & Em).
  pose proof (shifted_small m e Hm) as Hsm. assert (Hp : 0 < 2 ^ shift_by m e) by (apply Z.pow_pos_nonneg; [lia|unfold shift_by; lia]).
  pose proof (Z.div_pos m _ Hm Hp) as Hd. rewrite <- Em in Hsm, Hd. set (m1 := round_nearest_even _ _).
  assert (Hm1 : 0 <= m1 <= 2 ^ 53) by (unfold m1, round_nearest_even; destruct (loc_of_shr_record mrs) as [|[]]; try destruct (Z.even _); lia).
  assert (He1 : -1074 <= e + shift_by m e) by (unfold shift_by; lia).
  destruct (shr_fexp_spec m1 (e + shift_by m e)) as (mrs2 & E2 & Hs2); [lia|]. rewrite E2.
  destruct (round_second m1 (e + shift_by m e) mrs2 Hm1 He1 Hs2) as (Hn2 & Hm2 & _). apply (packed_nonneg (shr_m mrs2)); lia.
Qed.

Lemma d_div_nonneg x m e : nonneg_d x -> nonneg_d (d_div x (S754_finite false m e)).
Proof.
  destruct x as [s|s| |s mx ex]; cbn; intros Hx; try done; [by subst|]. destruct Hx as [-> _]. unfold d_div, SFdiv. cbn [xorb].
  destruct (SFdiv_core_binary _ _ _ _ _ _) as [[q e'] l] eqn:E. apply round_any_nonneg. revert E. unfold SFdiv_core_binary.
  match goal with |- context [Z.div_eucl ?x _] => set (m' := x) end. assert (Hm' : 0 <= m').
  { unfold m'. match goal with |- context [match ?d with _ => _ end] => destruct d end; [done| |done]. by apply Z.shiftl_nonneg. }
  pose proof (Z.div_pos m' (Zpos m) Hm' eq_refl) as Hq. unfold Z.div in Hq. destruct (Z.div_eucl m' (Zpos m)) as [q0 r0]. by intros [= <- _ _].
Qed.

(** ** Values below one *)

Lemma d_one : d_of_Z 1 = S754_finite false 4503599627370496 (-52).
Proof. reflexivity. Qed.

Lemma compare_finite m1 e1 m2 e2 : SFcompare (S754_finite false m1 e1) (S754_finite false m2 e2) =
  Some (match e1 ?= e2 with Eq => (m1 ?= m2)%positive | c => c end).
Proof. unfold SFcompare. by destruct (e1 ?= e2). Qed.

(** A number that is not at least one has a value below one. *)
Lemma below_one s m e : nonneg_d (S754_finite s m e) -> d_ge (S754_finite s m e) (d_of_Z 1) = false ->
  s = false /\ -1074 <= e <= -52 /\ Zpos m < 2 ^ (- e).
Proof.
  intros (-> & Hm & He) Hl. split; [done|]. unfold d_ge, SFleb in Hl. rewrite d_one, compare_finite in Hl.
  destruct (Z.compare_spec (-52) e) as [<-|Hc|Hc]; [|discriminate Hl|].
  - split; [lia|]. destruct (Pos.compare_spec 4503599627370496 m) as [| |Hp]; [discriminate Hl|discriminate Hl|]. exact Hp.
  - split; [lia|]. eapply Z.lt_le_trans; [exact Hm|]. apply Z.pow_le_mono_r; lia.
Qed.

Lemma d_to_int_Ok n x : d_trunc x = Some n -> - 2 ^ 31 <= n < 2 ^ 31 -> d_to_int x = Ok n.
Proof. intros Ht Hn. unfold d_to_int. rewrite Ht. by rewrite bool_decide_true. Qed.

(** The truncated value of [m2 * 2^(e + n)], from a bound on [2^n * m2]. *)
Lemma trunc_packed m2 e n K : 0 <= m2 -> 0 <= n -> e <= 0 -> e + n <= 971 -> 2 ^ n * m2 < K * 2 ^ (- e) ->
  exists i, d_trunc (packed false m2 (e + n)) = Some i /\ 0 <= i < K.
Proof.
  intros Hm Hn He Hmax Hb. destruct m2 as [|p|p]; [exists 0; split; [done|] | |lia].
  { split; [lia|]. rewrite Z.mul_0_r in Hb. assert (0 < 2 ^ (- e)) by (apply Z.pow_pos_nonneg; lia). nia. }
  cbn [packed]. rewrite (proj2 (Z.leb_le (e + n) 971)) by lia. cbn [d_trunc cond_Zopp]. eexists. split; [reflexivity|].
  destruct (Z.leb_spec 0 (e + n)).
  - assert (Hp : 2 ^ n = 2 ^ (e + n) * 2 ^ (- e)) by (rewrite <- Z.pow_add_r by lia; f_equal; lia). rewrite Hp in Hb.
    assert (0 < 2 ^ (- e)) by (apply Z.pow_pos_nonneg; lia). assert (0 < 2 ^ (e + n)) by (apply Z.pow_pos_nonneg; lia). nia.
  - assert (Hp : 2 ^ (- e) = 2 ^ n * 2 ^ (- (e + n))) by (rewrite <- Z.pow_add_r by lia; f_equal; lia). rewrite Hp in Hb.
    assert (0 < 2 ^ n) by (apply Z.pow_pos_nonneg; lia). assert (0 < 2 ^ (- (e + n))) by (apply Z.pow_pos_nonneg; lia).
    split; [by apply Z.div_pos|]. apply Z.div_lt_upper_bound; nia.
Qed.

(** A number in [0, 1) times ten thousand, as an index. *)
Lemma scaled_index u : nonneg_d u -> d_ge u (d_of_Z 1) = false ->
  exists i, d_to_int (d_mul u (d_of_Z 10000)) = Ok i /\ 0 <= i < 10000.
Proof.
  intros Hu Hl. destruct u as [s|s| |s m e]; [by exists 0|by cbn in Hu; subst|done|].
  pose proof Hu as (_ & Hm & _). destruct (below_one s m e Hu Hl) as (-> & He & Hlt).
  change (d_of_Z 10000) with (S754_finite false 5497558138880000 (-39)). unfold d_mul, SFmul. cbn [xorb].
  destruct (round_aux_spec false (Zpos (m * 5497558138880000)) (e + -39)) as (m2 & n & -> & Hm2 & Hn & He2 & Hb); [done|].
  set (s := shift_by _ _) in *. rewrite Pos2Z.inj_mul in Hb. set (P := Zpos 5497558138880000) in *.
  assert (HP : P = 10000 * 2 ^ 39) by reflexivity.
  assert (Hs : 0 <= s <= 53).
  { unfold s, shift_by. enough (Zdigits2 (Zpos (m * 5497558138880000)) <= 106) by lia. apply Zdigits2_le; [lia|lia|].
    rewrite Pos2Z.inj_mul. change (2 ^ 106) with (2 ^ 53 * 2 ^ 53). apply Z.mul_lt_mono_nonneg; lia. }
  assert (H2s : 2 ^ s <= 2 ^ 53) by (apply Z.pow_le_mono_r; lia).
  assert (Hgoal : 2 ^ n * m2 < 10000 * 2 ^ (- (e + -39))).
  { replace (- (e + -39)) with (39 + - e) by lia. rewrite Z.pow_add_r by lia. rewrite Z.mul_assoc, <- HP.
    assert (Zpos m + 1 <= 2 ^ (- e)) by lia. assert (P * (Zpos m + 1) <= P * 2 ^ (- e)) by (apply Z.mul_le_mono_nonneg_l; lia). lia. }
  destruct (trunc_packed m2 (e + -39) n 10000) as (i & Hi & Hr); [lia|lia|lia|lia|done|].
  exists i. split; [|done]. apply d_to_int_Ok; [done|lia].
Qed.

Lemma iter_xO p d : Zpos (Pos.iter xO p d) = Zpos p * 2 ^ Zpos d.
Proof.
  induction d as [|d IH] using Pos.peano_ind; [cbn; lia|].
  rewrite Pos.iter_succ, Pos2Z.inj_succ, Z.pow_succ_r, (Pos2Z.inj_xO (Pos.iter xO p d)), IH by lia. lia.
Qed.

(** One minus a number below one. *)
Lemma one_minus_nonneg c : nonneg_d c -> d_ge c (d_of_Z 1) = false -> nonneg_d (d_sub (d_of_Z 1) c).
Proof.
  intros Hc Hl. destruct c as [s|s| |s m e]; [cbn; done|by cbn in Hc; subst|done|].
  destruct (below_one s m e Hc Hl) as (-> & He & Hlt). rewrite d_one. unfold d_sub, SFsub. cbn [cond_Zopp].
  rewrite Z.min_r by lia. unfold shl_align. rewrite Z.sub_diag. cbn [fst].
  assert (Ha : Zpos (fst (match e - -52 with Zneg d => (Pos.iter xO 4503599627370496%positive d, e) | _ => (4503599627370496%positive, -52) end)) = 2 ^ (- e)).
  { destruct (e - -52) as [|d|d] eqn:E; cbn [fst]; [replace e with (-52) by lia; done|lia|].
    rewrite iter_xO. replace (- e) with (52 + Zpos d) by lia. rewrite Z.pow_add_r by lia. done. }
  rewrite Ha. destruct (2 ^ (- e) - Zpos m) as [|p|p] eqn:E; [lia|apply round_nonneg|lia].
Qed.

(** ** A part of a count *)

(** A configured ratio: a number of [0, 1]. *)
Definition unit_ratio (x : double) : bool := d_ge x (d_of_Z 0) && d_ge (d_of_Z 1) x && valid_binary 53 1024 x.

Lemma ratio_nonneg x : unit_ratio x = true -> nonneg_d x /\ d_ge x (d_of_Z 1) = d_eq x (d_of_Z 1).
Proof.
  unfold unit_ratio. intros ((H0 & H1)%andb_prop & Hv)%andb_prop. destruct x as [s|[]| |[] m e]; try discriminate; [by split|].
  split.
  - split; [done|]. cbn [valid_binary] in Hv. apply andb_prop in Hv as [Hv _]. unfold canonical_mantissa, fexp, emin in Hv. apply Z.eqb_eq in Hv.
    split; [|lia]. destruct (digits2_spec m) as [_ Hm]. eapply Z.lt_le_trans; [exact Hm|]. apply Z.pow_le_mono_r; lia.
  - clear Hv H0. unfold d_ge, SFleb, d_eq, SFeqb in *. rewrite d_one, !compare_finite in *. rewrite (Z.compare_antisym e (-52)).
    destruct (e ?= -52); cbn [CompOpp]; [|done|discriminate H1].
    rewrite (Pos.compare_antisym m 4503599627370496). by destruct (Pos.compare m _).
Qed.

(** The value of a ratio. *)
Lemma ratio_value x : unit_ratio x = true -> (exists s, x = S754_zero s) \/
  exists m e, x = S754_finite false m e /\ Zpos m < 2 ^ 53 /\ -1074 <= e <= -52 /\ Zpos m <= 2 ^ (- e).
Proof.
  intros Hx. destruct (ratio_nonneg x Hx) as [Hn Hg]. destruct x as [s|[]| |s m e]; try discriminate; [by left; exists s|].
  right. pose proof Hn as (-> & Hm & He). exists m, e. do 2 (split; [done|]). destruct (d_ge (S754_finite false m e) (d_of_Z 1)) eqn:E.
  - symmetry in Hg. unfold d_eq, SFeqb in Hg. rewrite d_one, compare_finite in Hg. destruct (Z.compare_spec e (-52)) as [->|Hc|Hc]; [|discriminate Hg..].
    split; [lia|]. destruct (Pos.compare_spec m 4503599627370496) as [->|Hp|Hp]; [|discriminate Hg..]. by apply Z.leb_le.
  - destruct (below_one _ _ _ Hn E) as (_ & ? & ?). lia.
Qed.

Lemma d_of_Z_value n : 0 < n <= 2 ^ 30 -> (d_of_Z n = S754_zero false) \/
  exists m e, d_of_Z n = S754_finite false m e /\ Zpos m < 2 ^ 53 /\ -1074 <= e <= 0 /\ Zpos m <= n * 2 ^ (- e).
Proof.
  destruct n as [|p|p]; intros Hp; [lia| |lia]. unfold d_of_Z, binary_normalize, binary_round, fexp, emin, shl_align.
  destruct (digits2_spec p) as [_ Hlt]. assert (Hd : Zpos (digits2_pos p) <= 31) by (apply (Zdigits2_le (Zpos p) 31); lia).
  destruct (Z.max (Zpos (digits2_pos p) + 0 - 53) (3 - 1024 - 53) - 0) as [|d|d] eqn:E; [lia|lia|].
  replace (Z.max (Zpos (digits2_pos p) + 0 - 53) (3 - 1024 - 53)) with (Zneg d) by lia.
  destruct (round_aux_spec false (Zpos (Pos.iter xO p d)) (Zneg d)) as (m2 & n & -> & Hm2 & Hn & He & Hb); [done|].
  rewrite iter_xO in Hb, Hn. assert (Hs : shift_by (Zpos p * 2 ^ Zpos d) (Zneg d) = 0).
  { unfold shift_by. enough (Zdigits2 (Zpos p * 2 ^ Zpos d) <= 53) by lia. apply Zdigits2_le; [lia|lia|].
    replace 53 with (Zpos (digits2_pos p) + Zpos d) by lia. rewrite Z.pow_add_r by lia. apply Z.mul_lt_mono_pos_r; [by apply Z.pow_pos_nonneg|done]. }
  rewrite Hs in Hb, Hn. destruct m2 as [|q|q]; [by left| |lia]. right. cbn [packed].
  assert (Hen : Zneg d + n <= -21) by lia. rewrite (proj2 (Z.leb_le _ 971)) by lia. eexists q, _. split; [reflexivity|]. split; [lia|]. split; [lia|].
  assert (Hp2 : 2 ^ Zpos d = 2 ^ n * 2 ^ (- (Zneg d + n))) by (rewrite <- Z.pow_add_r by lia; f_equal; lia). rewrite Hp2 in Hb.
  assert (Hpos : 0 < 2 ^ n) by (apply Z.pow_pos_nonneg; lia). change (2 ^ 0) with 1 in Hb. apply (Z.mul_le_mono_pos_l _ _ (2 ^ n) Hpos). lia.
Qed.

Lemma ratio_of_count n x : 0 <= n <= 2 ^ 30 -> unit_ratio x = true -> exists k, d_to_int (d_mul (d_of_Z n) x) = Ok k /\ 0 <= k < 2 ^ 31.
Proof.
  intros Hn Hx. destruct (ratio_value x Hx) as [[s ->]|(mx & ex & -> & Hmx & Hex & Hvx)].
  { exists 0. split; [|lia]. pose proof (d_of_Z_nonneg n ltac:(lia)) as Hd. destruct (decide (n = 0)) as [->|Hne]; [done|].
    by destruct (d_of_Z_value n ltac:(lia)) as [->|(m & e & -> & _)]. }
  destruct (decide (n = 0)) as [->|Hne]; [by exists 0|].
  destruct (d_of_Z_value n ltac:(lia)) as [->|(m & e & -> & Hm & He & Hv)]; [by exists 0|]. unfold d_mul, SFmul. cbn [xorb].
  destruct (round_aux_spec false (Zpos (m * mx)) (e + ex)) as (m2 & k & -> & Hm2 & Hk & He2 & Hb); [done|].
  rewrite Pos2Z.inj_mul in *. set (s := shift_by _ _) in *.
  assert (Hs : 0 <= s <= 53 `max` (-1074 - (e + ex))).
  { unfold s, shift_by. enough (Zdigits2 (Zpos m * Zpos mx) <= 106) by lia. apply Zdigits2_le; [lia|lia|].
    change (2 ^ 106) with (2 ^ 53 * 2 ^ 53). apply Z.mul_lt_mono_nonneg; lia. }
  assert (Hprod : Zpos m * Zpos mx <= 2 ^ 30 * 2 ^ (- (e + ex))).
  { replace (- (e + ex)) with (- e + - ex) by lia. rewrite Z.pow_add_r, Z.mul_assoc by lia. apply Z.mul_le_mono_nonneg; [lia| |lia|done].
    transitivity (n * 2 ^ (- e)); [done|]. apply Z.mul_le_mono_nonneg_r; [apply Z.pow_nonneg; lia|lia]. }
  assert (Hsb : 2 ^ s < 2 ^ 31 * 2 ^ (- (e + ex))).
  { rewrite <- Z.pow_add_r by lia. apply Z.pow_lt_mono_r; lia. }
  destruct (trunc_packed m2 (e + ex) k (2 ^ 31)) as (i & Hi & Hr); [lia|lia|lia|lia| |].
  - change (2 ^ 31) with (2 * 2 ^ 30). lia.
  - exists i. split; [|done]. apply d_to_int_Ok; [done|lia].
Qed.
