(* ===== verification/RestoreAware.v ===== *)
(** The simulated restore cache of a backup: [destor/src/restore_aware.c].

    [restore_cache] are the fields [destor.restore_cache]; the cached
    [containerRecord]s are used for their [cid] only. *)

From S2P Require Import Prelude Destor Double LruCache Container.

Record monitor := mk_monitor {
  total_size : Z;
  ocf : Z;
  ccf : Z;
  cfl : double;
  mon_cache : lruCache Z Z;
}.

Definition container_record_check_id (cid id : Z) : bool := cid =? id.

Definition init_restore_aware (restore_cache_size : Z) : monitor :=
  mk_monitor 0 0 0 (d_of_Z 0) (new_lru_cache restore_cache_size container_record_check_id).

Definition restore_aware_update (m : monitor) (id chunklen : Z) : res monitor :=
  let total := s64 (total_size m + s32 (chunklen + CONTAINER_META_ENTRY)) in
  let '(record, cache) := lru_cache_lookup (mon_cache m) id in
  '(cache, n) ← match record with
    | Some _ => Ok (cache, ccf m)
    | None => '(_, cache) ← lru_cache_insert cache id; Ok (cache, s32 (ccf m + 1))
    end;
  let o := s32 (Z.quot (s64 (total + CONTAINER_SIZE - 1)) CONTAINER_SIZE) in
  Ok (mk_monitor total o n (d_div (d_of_Z o) (d_of_Z n)) cache).

Definition restore_aware_contains (m : monitor) (id : Z) : bool :=
  match lru_cache_lookup_without_update (mon_cache m) id with Some _ => true | None => false end.

Definition restore_aware_get_cfl (m : monitor) : double :=
  if d_gt (cfl m) (d_of_Z 1) then d_of_Z 1 else cfl m.

(** ** Lemmas *)

(** The ids of the cache are ids of containers. *)
Definition monitor_ok (m : monitor) : Prop :=
  lru_wf (mon_cache m) /\ hit_elem (mon_cache m) = container_record_check_id /\
  Forall (fun id => id <> TEMPORARY_ID) (elem_queue (mon_cache m)).

Lemma init_restore_aware_ok n : monitor_ok (init_restore_aware n).
Proof. split; [apply new_lru_cache_wf|by split]. Qed.

(** The update never fails. *)
Lemma restore_aware_update_ok m id n : monitor_ok m -> id <> TEMPORARY_ID ->
  exists m', restore_aware_update m id n = Ok m' /\ monitor_ok m'.
Proof.
  intros (Hw & Hh & HP) Hid. unfold restore_aware_update. pose proof (lru_lookup_forall (mon_cache m) id _ Hw HP) as H.
  destruct (lru_cache_lookup _ _) as [[r|] c]; destruct H as (W & Hh' & F & _); [step; eexists; split; [reflexivity|]; split_and!; cbn; [done|congruence|done]|].
  destruct (lru_insert_forall c id _ W F Hid) as (v & c' & -> & W' & Hh2 & F'). step. step. eexists. split; [reflexivity|].
  split_and!; cbn; [done|congruence|done].
Qed.

Lemma restore_aware_contains_id m id : monitor_ok m -> restore_aware_contains m id = true -> id <> TEMPORARY_ID.
Proof.
  intros (_ & Hh & HP). unfold restore_aware_contains, lru_cache_lookup_without_update.
  destruct (split_first _ _) as [[[pre e] post]|] eqn:E; [|done]. intros _. apply split_first_Some in E as (E & He & _). rewrite Hh in He.
  apply Z.eqb_eq in He as <-. rewrite E in HP. by apply Forall_app in HP as [_ [? _]%Forall_cons].
Qed.
