(* ===== verification/Index.v ===== *)
(** The fingerprint index: [destor/src/index/index.c], [fingerprint_cache.c] and
    [similarity_detection.c].

    The index buffer holds the fingerprints that were looked up and whose chunks
    are still on their way to the filter phase; the fingerprint cache holds
    prefetched units (the metadata of containers, or segment recipes) and the
    key-value store says which unit to prefetch. An [indexElem] is its id: its
    [fp] is the key of the queue it is in. *)

From S2P Require Import Prelude Glib Destor LruCache Container Recipe Segmenting Sampling KvStore.

Definition INDEX_CATEGORY_EXACT := 0.
Definition INDEX_CATEGORY_NEAR_EXACT := 1.
Definition INDEX_CATEGORY_PHYSICAL_LOCALITY := 2.
Definition INDEX_CATEGORY_LOGICAL_LOCALITY := 3.
Definition INDEX_SEGMENT_SELECT_BASE := 0.
Definition INDEX_SEGMENT_SELECT_TOP := 1.
Definition INDEX_SEGMENT_SELECT_MIX := 2.
Definition INDEX_SPECIFIC_NO := 0.
Definition INDEX_SPECIFIC_DDFS := 1.
Definition INDEX_SPECIFIC_EXTREME_BINNING := 2.
Definition INDEX_SPECIFIC_SILO := 3.
Definition INDEX_SPECIFIC_SPARSE := 4.
Definition INDEX_SPECIFIC_SAMPLED := 5.
Definition INDEX_SPECIFIC_BLOCK_LOCALITY_CACHING := 6.

(** ** Configuration *)

(** The fields of [destor] the index uses. *)
Record index_config := mk_index_config {
  index_specific : Z;
  category_0 : Z; category_1 : Z;           (** [index_category] *)
  segment_algorithm_0 : Z;
  selection_0 : Z; selection_1 : Z;         (** [index_segment_selection_method] *)
  sampling_0 : Z; sampling_1 : Z;           (** [index_sampling_method] *)
  key_size : Z;
  value_length : Z;
  segment_prefech : Z;
  index_cache_size : Z;
}.

Definition set_category (c : index_config) (c0 c1 : Z) : index_config :=
  mk_index_config (index_specific c) c0 c1 (segment_algorithm_0 c) (selection_0 c) (selection_1 c)
    (sampling_0 c) (sampling_1 c) (key_size c) (value_length c) (segment_prefech c) (index_cache_size c).
Definition set_algorithm (c : index_config) (a : Z) : index_config :=
  mk_index_config (index_specific c) (category_0 c) (category_1 c) a (selection_0 c) (selection_1 c)
    (sampling_0 c) (sampling_1 c) (key_size c) (value_length c) (segment_prefech c) (index_cache_size c).
Definition set_selection (c : index_config) (s0 s1 : Z) : index_config :=
  mk_index_config (index_specific c) (category_0 c) (category_1 c) (segment_algorithm_0 c) s0 s1
    (sampling_0 c) (sampling_1 c) (key_size c) (value_length c) (segment_prefech c) (index_cache_size c).
Definition set_sampling (c : index_config) (s0 s1 : Z) : index_config :=
  mk_index_config (index_specific c) (category_0 c) (category_1 c) (segment_algorithm_0 c) (selection_0 c) (selection_1 c)
    s0 s1 (key_size c) (value_length c) (segment_prefech c) (index_cache_size c).
Definition set_key_size (c : index_config) (k : Z) : index_config :=
  mk_index_config (index_specific c) (category_0 c) (category_1 c) (segment_algorithm_0 c) (selection_0 c) (selection_1 c)
    (sampling_0 c) (sampling_1 c) k (value_length c) (segment_prefech c) (index_cache_size c).
Definition set_prefech (c : index_config) (p : Z) : index_config :=
  mk_index_config (index_specific c) (category_0 c) (category_1 c) (segment_algorithm_0 c) (selection_0 c) (selection_1 c)
    (sampling_0 c) (sampling_1 c) (key_size c) (value_length c) p (index_cache_size c).

Definition more_than_one (v default : Z) : Z := if 1 <? v then v else default.

(** The [switch] of [init_index]. *)
Definition apply_specific (c : index_config) : res index_config :=
  let s := index_specific c in
  if s =? INDEX_SPECIFIC_NO then Ok c else
  let c := set_key_size c fp_size in
  if s =? INDEX_SPECIFIC_DDFS then Ok (set_category c INDEX_CATEGORY_EXACT INDEX_CATEGORY_PHYSICAL_LOCALITY)
  else if s =? INDEX_SPECIFIC_BLOCK_LOCALITY_CACHING then
    let c := set_category c INDEX_CATEGORY_EXACT INDEX_CATEGORY_LOGICAL_LOCALITY in
    let c := set_sampling c INDEX_SAMPLING_UNIFORM 1 in
    Ok (set_prefech c (more_than_one (segment_prefech c) 16))
  else if s =? INDEX_SPECIFIC_SAMPLED then
    let c := set_category c INDEX_CATEGORY_NEAR_EXACT INDEX_CATEGORY_PHYSICAL_LOCALITY in
    Ok (set_sampling c INDEX_SAMPLING_UNIFORM (more_than_one (sampling_1 c) 128))
  else if s =? INDEX_SPECIFIC_SPARSE then
    let c := set_category c INDEX_CATEGORY_NEAR_EXACT INDEX_CATEGORY_LOGICAL_LOCALITY in
    let c := set_algorithm c INDEX_SEGMENT_CONTENT_DEFINED in
    let c := set_selection c INDEX_SEGMENT_SELECT_TOP (selection_1 c) in
    let c := set_sampling c INDEX_SAMPLING_RANDOM (more_than_one (sampling_1 c) 128) in
    Ok (set_prefech c 1)
  else if s =? INDEX_SPECIFIC_SILO then
    let c := set_category c INDEX_CATEGORY_NEAR_EXACT INDEX_CATEGORY_LOGICAL_LOCALITY in
    let c := set_algorithm c INDEX_SEGMENT_FIXED in
    let c := set_selection c INDEX_SEGMENT_SELECT_TOP 1 in
    let c := set_sampling c INDEX_SAMPLING_MIN 0 in
    Ok (set_prefech c (more_than_one (segment_prefech c) 16))
  else Err (EExit 1).

(** The configuration the index runs with. *)
Definition init_index_config (c : index_config) : res index_config :=
  c ← apply_specific c;
  let c := if category_0 c =? INDEX_CATEGORY_EXACT then set_key_size c fp_size else c in
  let c := if category_1 c =? INDEX_CATEGORY_PHYSICAL_LOCALITY then
             let c := set_algorithm c INDEX_SEGMENT_FIXED in
             if category_0 c =? INDEX_CATEGORY_EXACT then set_sampling c INDEX_SAMPLING_UNIFORM 1 else c
           else c in
  _ ← c_assert ((0 <? key_size c) && (key_size c <=? fp_size));
  Ok c.

Definition sampling_of (c : index_config) : sample_config := mk_sample_config (sampling_0 c) (sampling_1 c) (key_size c).
Definition kv_of_config (c : index_config) : kv_config := mk_kv_config (key_size c) (value_length c).

(** ** State *)

Record index_overhead := mk_overhead {
  lookup_requests : Z;
  update_requests : Z;
  lookup_requests_for_unique : Z;
  read_prefetching_units : Z;
}.

(** The [lru_queue] of [fingerprint_cache.c]; which of the two is decided by
    [init_fingerprint_cache]. *)
Inductive fcache := CMeta (c : lruCache containerMeta fingerprint) | CSeg (c : lruCache segmentRecipe fingerprint).

(** What the prefetching reads: the container store, the version being written
    and the version [prefetch_segments] keeps open. *)
Record world := mk_world { w_cs : cstore; w_bv : backupVersion; w_opened : opened }.

Record index := mk_index {
  buffered_fingerprints : gmap fingerprint (list Z);
  buffer_chunk_num : Z;
  ix_kv : kvstore;
  ix_cache : fcache;
  ix_overhead : index_overhead;
}.

Definition set_buffer (ix : index) (b : gmap fingerprint (list Z)) (n : Z) : index := mk_index b n (ix_kv ix) (ix_cache ix) (ix_overhead ix).
Definition set_cache (ix : index) (c : fcache) : index :=
  mk_index (buffered_fingerprints ix) (buffer_chunk_num ix) (ix_kv ix) c (ix_overhead ix).
Definition set_kv (ix : index) (kv : kvstore) : index :=
  mk_index (buffered_fingerprints ix) (buffer_chunk_num ix) kv (ix_cache ix) (ix_overhead ix).
Definition set_overhead (ix : index) (o : index_overhead) : index :=
  mk_index (buffered_fingerprints ix) (buffer_chunk_num ix) (ix_kv ix) (ix_cache ix) o.

Definition count_lookup (ix : index) : index := let o := ix_overhead ix in
  set_overhead ix (mk_overhead (s32 (lookup_requests o + 1)) (update_requests o) (lookup_requests_for_unique o) (read_prefetching_units o)).
Definition count_update (ix : index) : index := let o := ix_overhead ix in
  set_overhead ix (mk_overhead (lookup_requests o) (s32 (update_requests o + 1)) (lookup_requests_for_unique o) (read_prefetching_units o)).
Definition count_unique (ix : index) : index := let o := ix_overhead ix in
  set_overhead ix (mk_overhead (lookup_requests o) (update_requests o) (s32 (lookup_requests_for_unique o + 1)) (read_prefetching_units o)).
Definition count_prefetch (ix : index) : index := let o := ix_overhead ix in
  set_overhead ix (mk_overhead (lookup_requests o) (update_requests o) (lookup_requests_for_unique o) (s32 (read_prefetching_units o + 1))).

Section Index.
Context `{HC : !HashIter fingerprint metaEntry} `{HF : !HashIter (list Z) ()} `{HS : !HashIter Z (gset (list Z))}.
Context `{SF : !SeqSort fingerprint} `{SA : !SeqSort (fingerprint * fingerprint)} `{SS : !SeqSort (Z * gset (list Z))}.
Context (cfg : index_config) (simulation_level : Z) (dir : gmap Z version_files).
Implicit Types (ix : index) (w : world).

(** ** The fingerprint cache *)

Definition init_fingerprint_cache : res fcache :=
  if category_1 cfg =? INDEX_CATEGORY_PHYSICAL_LOCALITY then
    Ok (CMeta (new_lru_cache (index_cache_size cfg) (fun cm fp => negb (lookup_fingerprint_in_container_meta cm fp =? 0))))
  else if category_1 cfg =? INDEX_CATEGORY_LOGICAL_LOCALITY then
    Ok (CSeg (new_lru_cache (index_cache_size cfg) (fun sr fp => negb (lookup_fingerprint_in_segment_recipe sr fp =? 0))))
  else Err (EExit 1).

Definition init_index (dump : option (list Z)) : res index :=
  kv ← init_kvstore (kv_of_config cfg) INDEX_KEY_VALUE_HTABLE dump;
  c ← init_fingerprint_cache;
  Ok (mk_index ∅ 0 kv c (mk_overhead 0 0 0 0)).

Definition fingerprint_cache_lookup ix (fp : fingerprint) : res (Z * index) :=
  match ix_cache ix with
  | CMeta c =>
      let '(cm, c) := lru_cache_lookup c fp in
      Ok (match cm with Some cm => cm_id cm | None => TEMPORARY_ID end, set_cache ix (CMeta c))
  | CSeg c =>
      let '(sr, c) := lru_cache_lookup c fp in
      id ← match sr with
           | Some sr => cp ← deref (kvpairs sr !! fp); _ ← c_assert (TEMPORARY_ID <? cp_id cp); Ok (cp_id cp)
           | None => Ok TEMPORARY_ID
           end;
      Ok (id, set_cache ix (CSeg c))
  end.

(** One prefetched segment, unless it is cached. *)
Definition cache_segment (c : lruCache segmentRecipe fingerprint) (sr : segmentRecipe) : res (lruCache segmentRecipe fingerprint) :=
  let '(hit, c) := lru_cache_hits c (sr_id sr) segment_recipe_check_id in
  match hit with
  | Some _ => Ok c
  | None => '(_, c) ← lru_cache_insert c sr; Ok c
  end.

Definition fingerprint_cache_prefetch ix w (id : Z) : res (index * world) :=
  match ix_cache ix with
  | CMeta c =>
      '(cm, st) ← retrieve_container_meta_by_id simulation_level (w_cs w) id;
      '(_, c) ← lru_cache_insert c cm;
      Ok (set_cache (count_prefetch ix) (CMeta c), mk_world st (w_bv w) (w_opened w))
  | CSeg c =>
      let '(hit, c) := lru_cache_hits c id segment_recipe_check_id in
      match hit with
      | Some _ => Ok (set_cache ix (CSeg c), w)
      | None =>
          '(segments, bv, o) ← prefetch_segments dir (w_bv w) (w_opened w) id (segment_prefech cfg);
          c ← foldM cache_segment c (rev segments);
          Ok (set_cache (count_prefetch ix) (CSeg c), mk_world (w_cs w) bv o)
      end
  end.

(** ** Looking chunks up *)

(** The storage buffer: the container the filter phase fills. *)
Definition check_storage_buffer (container_buffer : option container) (c : chunk) : chunk :=
  match container_buffer with
  | Some con =>
      if negb (lookup_fingerprint_in_container con (ck_fp c) =? 0)
      then SET_CHUNK (SET_CHUNK (set_ck_id c (get_container_id con)) CHUNK_DUPLICATE) CHUNK_REWRITE_DENIED
      else c
  | None => c
  end.

(** The index buffer; the queue of a new fingerprint is empty. *)
Definition check_index_buffer ix (c : chunk) : res (list Z * chunk) :=
  match buffered_fingerprints ix !! ck_fp c with
  | None => Ok ([], c)
  | Some tq =>
      if CHECK_CHUNK c CHUNK_DUPLICATE then Ok (tq, c)
      else be ← deref (head tq); Ok (tq, SET_CHUNK (set_ck_id c be) CHUNK_DUPLICATE)
  end.

Definition check_cache ix (c : chunk) : res (index * chunk) :=
  if CHECK_CHUNK c CHUNK_DUPLICATE then Ok (ix, c) else
  '(id, ix) ← fingerprint_cache_lookup ix (ck_fp c);
  Ok (ix, if id =? TEMPORARY_ID then c else SET_CHUNK (set_ck_id c id) CHUNK_DUPLICATE).

Definition check_kvstore ix w (c : chunk) : res (index * world * chunk) :=
  if CHECK_CHUNK c CHUNK_DUPLICATE then Ok (ix, w, c) else
  ids ← kvstore_htable_lookup (kv_of_config cfg) (ix_kv ix) (ck_fp c);
  match ids with
  | None => Ok (count_unique ix, w, c)
  | Some ids =>
      id ← deref (head ids);
      '(ix, w) ← fingerprint_cache_prefetch (count_lookup ix) w id;
      '(ix, c) ← check_cache ix c;
      Ok (ix, w, c)
  end.

(** [tq] with the new element replaces the queue of the fingerprint. *)
Definition buffer_chunk ix (tq : list Z) (c : chunk) : index :=
  set_buffer ix (<[ck_fp c := tq ++ [ck_id c]]> (buffered_fingerprints ix)) (s32 (buffer_chunk_num ix + 1)).

(** A round of the loop; [search] is the condition of the last search. *)
Definition lookup_chunk (search : bool) (container_buffer : option container)
    (s : index * world * list chunk) (c : chunk) : res (index * world * list chunk) :=
  let '(ix, w, done) := s in
  if is_file_flag c then Ok (ix, w, done ++ [c]) else
  let c := check_storage_buffer container_buffer c in
  '(tq, c) ← check_index_buffer ix c;
  '(ix, c) ← check_cache ix c;
  '(ix, w, c) ← (if search : bool then check_kvstore ix w c else Ok (ix, w, c));
  Ok (buffer_chunk ix tq c, w, done ++ [c]).

Definition index_lookup_base (container_buffer : option container) ix w (chunks : list chunk) : res (index * world * list chunk) :=
  foldM (lookup_chunk true container_buffer) (ix, w, []) chunks.

(** ** Similarity detection *)

Definition g_segment_cmp_feature_num (a b : Z * gset (list Z)) : Z :=
  let ret := s32 (Z.of_nat (size b.2) - Z.of_nat (size a.2)) in
  if ret =? 0 then if a.1 <? b.1 then 1 else -1 else ret.

Definition features_trim (top : Z * gset (list Z)) (target : Z * gset (list Z)) : Z * gset (list Z) := (target.1, target.2 ∖ top.2).

(** The features of a table, in the order it is iterated. *)
Definition features_iter (features : gset (list Z)) : list (list Z) := (hash_iter (gset_to_gmap tt features)).*1.

(** The segments a feature is mapped to. *)
Fixpoint add_similar (similar : gmap Z (gset (list Z))) (feature : list Z) (ids : list Z) (n : nat) :
    res (gmap Z (gset (list Z))) :=
  match n with
  | O => Ok similar
  | S n =>
      match ids with
      | [] => Err EBounds
      | id :: ids =>
          if id =? TEMPORARY_ID then Ok similar else
          let features := default ∅ (similar !! id) in
          _ ← c_assert (negb (bool_decide (feature ∈ features)));
          add_similar (<[id := {[feature]} ∪ features]> similar) feature ids n
      end
  end.

Definition similar_step (s : index * gmap Z (gset (list Z))) (feature : list Z) : res (index * gmap Z (gset (list Z))) :=
  let '(ix, similar) := s in
  ids ← kvstore_htable_lookup (kv_of_config cfg) (ix_kv ix) feature;
  match ids with
  | Some ids =>
      similar ← add_similar similar feature ids (Z.to_nat (value_length cfg));
      Ok (count_lookup ix, similar)
  | None => Ok (count_unique ix, similar)
  end.

Fixpoint prefetch_top (num : nat) ix w (seq : list (Z * gset (list Z))) : res (index * world) :=
  match num with
  | O => Ok (ix, w)
  | S num =>
      top ← deref (head seq);
      '(ix, w) ← fingerprint_cache_prefetch ix w top.1;
      prefetch_top num ix w (seq_sort g_segment_cmp_feature_num (map (features_trim top) (tail seq)))
  end.

Definition top_segment_select ix w (features : gset (list Z)) : res (index * world) :=
  '(ix, similar) ← foldM similar_step (ix, ∅) (features_iter features);
  let seq := fold_left (fun seq s => insert_sorted g_segment_cmp_feature_num s seq) (hash_iter similar) [] in
  let num := if selection_1 cfg <? zlen seq then selection_1 cfg else zlen seq in
  prefetch_top (Z.to_nat num) ix w seq.

Definition index_lookup_similarity_detection (container_buffer : option container) ix w (s : segment) :
    res (index * world * list chunk) :=
  features ← (match seg_features s with Some f => Ok f | None => Err EAssert end);
  '(ix, w) ← top_segment_select ix w features;
  foldM (lookup_chunk ((category_0 cfg =? INDEX_CATEGORY_EXACT) || (selection_0 cfg =? INDEX_SEGMENT_SELECT_MIX)) container_buffer)
    (ix, w, []) (seg_chunks s).

Definition set_seg_chunks (s : segment) (cs : list chunk) : segment := mk_segment (seg_id s) (seg_chunk_num s) cs (seg_features s).
Definition set_features (s : segment) (f : gset (list Z)) : segment := mk_segment (seg_id s) (seg_chunk_num s) (seg_chunks s) (Some f).

(** [None]: the index buffer is full. [wait_threshold] is the field of
    [index_lock]. *)
Definition index_lookup (wait_threshold : Z) (container_buffer : option container) ix w (s : segment) :
    res (option (index * world * segment)) :=
  if (0 <? wait_threshold) && (wait_threshold <=? buffer_chunk_num ix) then Ok None else
  '(ix, w, s) ← (if (category_1 cfg =? INDEX_CATEGORY_LOGICAL_LOCALITY) && negb (selection_0 cfg =? INDEX_SEGMENT_SELECT_BASE) then
      sampling ← init_sampling_method (sampling_of cfg);
      f ← sampling (seg_chunks s) (seg_chunk_num s);
      let s := set_features s f in
      '(ix, w, cs) ← index_lookup_similarity_detection container_buffer ix w s;
      Ok (ix, w, set_seg_chunks s cs)
    else
      '(ix, w, cs) ← index_lookup_base container_buffer ix w (seg_chunks s);
      Ok (ix, w, set_seg_chunks s cs));
  Ok (Some (ix, w, s)).

(** ** Updating *)

Definition index_update_one (id : Z) ix (feature : list Z) : res index :=
  kv ← kvstore_htable_update (kv_of_config cfg) (ix_kv (count_update ix)) feature id;
  Ok (set_kv (count_update ix) kv).

Definition index_update ix (features : gset (list Z)) (id : Z) : res index :=
  foldM (index_update_one id) ix (features_iter features).

Definition index_delete ix (fp : fingerprint) (id : Z) : res index :=
  kv ← kvstore_htable_delete (kv_of_config cfg) (ix_kv ix) fp id; Ok (set_kv ix kv).

(** A chunk that may be rewritten, or is a copy of a recent unique chunk. *)
Definition wants_check (c : chunk) : bool :=
  (CHECK_CHUNK c CHUNK_DUPLICATE && (ck_id c =? TEMPORARY_ID)) || CHECK_CHUNK c CHUNK_OUT_OF_ORDER || CHECK_CHUNK c CHUNK_SPARSE.

Definition check_buffered ix (c : chunk) : res chunk :=
  if is_file_flag c then Ok c else
  if wants_check c then
    match buffered_fingerprints ix !! ck_fp c with
    | None => Err EAssert
    | Some bq =>
        be ← deref (head bq);
        if ck_id c <? be then
          Ok (set_ck_id (if ck_id c =? TEMPORARY_ID then c else SET_CHUNK c CHUNK_REWRITE_DENIED) be)
        else Ok c
    end
  else Ok c.

Fixpoint index_check_buffer ix (chunks : list chunk) : res (list chunk) :=
  match chunks with
  | [] => Ok []
  | c :: chunks => c ← check_buffered ix c; chunks ← index_check_buffer ix chunks; Ok (c :: chunks)
  end.

(** The oldest element leaves its queue; the others get the id. *)
Definition update_buffered ix (c : chunk) : res index :=
  if is_file_flag c then Ok ix else
  _ ← c_assert (negb (ck_id c =? TEMPORARY_ID));
  bq ← deref (buffered_fingerprints ix !! ck_fp c);
  let bq := tail bq in
  let b := if bool_decide (bq = []) then delete (ck_fp c) (buffered_fingerprints ix)
           else <[ck_fp c := map (fun _ => ck_id c) bq]> (buffered_fingerprints ix) in
  Ok (set_buffer ix b (s32 (buffer_chunk_num ix - 1))).

(** The flag tells that the buffer is full. *)
Definition index_update_buffer (wait_threshold : Z) ix (chunks : list chunk) : res (bool * index) :=
  ix ← foldM update_buffered ix chunks;
  Ok (negb ((wait_threshold <=? 0) || (buffer_chunk_num ix <? wait_threshold)), ix).
End Index.
