(* ===== verification/IndexInv.v ===== *)
(** The invariants of the fingerprint index ([Index]) and what its operations
    keep of them.

    [holds id fp]: the container [id] stores the fingerprint [fp];
    [unit_has id fp]: the unit [id] is a container that stores it. The class
    [PrefetchUnits] is what the index needs of the container and recipe stores;
    the backup discharges it. *)

From S2P Require Import Prelude Glib Destor LruCache Container Recipe Segmenting Sampling KvStore Index.

(** What a prefetched unit claims. *)
Definition meta_unit (holds : Z -> fingerprint -> Prop) (cm : containerMeta) : Prop :=
  forall fp, is_Some (cm_map cm !! fp) -> holds (cm_id cm) fp.
Definition seg_unit (holds : Z -> fingerprint -> Prop) (sr : segmentRecipe) : Prop :=
  forall fp cp, kvpairs sr !! fp = Some cp -> holds (cp_id cp) fp.

Class PrefetchUnits `{HC : !HashIter fingerprint metaEntry} (cfg : index_config) (simulation_level : Z) (dir : gmap Z version_files)
    (holds : Z -> fingerprint -> Prop) (wok : world -> Prop) (prefetchable : Z -> Prop) (unit_has : Z -> fingerprint -> Prop) : Prop := {
  holds_id id fp : holds id fp -> 0 <= id;
  prefetchable_id id : prefetchable id -> id <> TEMPORARY_ID;
  units_of_container w id : category_1 cfg = INDEX_CATEGORY_PHYSICAL_LOCALITY -> wok w -> prefetchable id ->
    exists cm st, retrieve_container_meta_by_id simulation_level (w_cs w) id = Ok (cm, st) /\
      wok (mk_world st (w_bv w) (w_opened w)) /\ meta_unit holds cm /\ (forall fp, unit_has id fp -> is_Some (cm_map cm !! fp));
  units_of_segment w id : category_1 cfg = INDEX_CATEGORY_LOGICAL_LOCALITY -> wok w -> prefetchable id ->
    exists srs bv o, prefetch_segments dir (w_bv w) (w_opened w) id (segment_prefech cfg) = Ok (srs, bv, o) /\
      wok (mk_world (w_cs w) bv o) /\ Forall (seg_unit holds) srs;
}.

(** The normal chunks in flight with a fingerprint, oldest first. *)
Definition with_fp (fp : fingerprint) (flight : list chunk) : list chunk := filter (fun c => ck_fp c = fp) flight.
Definition is_dup (c : chunk) : bool := CHECK_CHUNK c CHUNK_DUPLICATE.

(** Exact deduplication over containers: a key is a whole fingerprint. *)
Definition exact (cfg : index_config) : Prop :=
  category_0 cfg = INDEX_CATEGORY_EXACT /\ category_1 cfg = INDEX_CATEGORY_PHYSICAL_LOCALITY.

(** Every unit the store maps a key to can be prefetched. *)
Definition kv_ok (cfg : index_config) (prefetchable : Z -> Prop) (unit_has : Z -> fingerprint -> Prop) (kv : kvstore) : Prop :=
  exists am, represents (kv_of_config cfg) kv am /\ (forall k l, am !! k = Some l -> zlen k = key_size cfg) /\
    (forall k l, am !! k = Some l -> Forall prefetchable l) /\
    (exact cfg -> forall (k : list Z) l, am !! k = Some l -> Forall (fun id => unit_has id k) l).

Section IndexInv.
Context `{HC : !HashIter fingerprint metaEntry} `{HF : !HashIter (list Z) ()} `{HS : !HashIter Z (gset (list Z))}.
Context `{SF : !SeqSort fingerprint} `{SA : !SeqSort (fingerprint * fingerprint)} `{SS : !SeqSort (Z * gset (list Z))}.
Context `{HFO : !HashIterOk (list Z) ()} `{HSO : !HashIterOk Z (gset (list Z))} `{SSO : !SeqSortOk (Z * gset (list Z))}.
Context (cfg : index_config) (simulation_level : Z) (dir : gmap Z version_files).
Context (holds : Z -> fingerprint -> Prop) (wok : world -> Prop) (prefetchable : Z -> Prop) (unit_has : Z -> fingerprint -> Prop).
Context `{PU : !PrefetchUnits cfg simulation_level dir holds wok prefetchable unit_has}.
Context (key_fits : 0 < key_size cfg <= fp_size).
Implicit Types (ix : index) (w : world) (fp : fingerprint).

Definition id_ok (id : Z) fp : Prop := id = TEMPORARY_ID \/ holds id fp.

Definition cache_ok (c : fcache) : Prop :=
  match c with
  | CMeta c => category_1 cfg = INDEX_CATEGORY_PHYSICAL_LOCALITY /\ lru_wf c /\
      hit_elem c = (fun cm fp => negb (lookup_fingerprint_in_container_meta cm fp =? 0)) /\ Forall (meta_unit holds) (elem_queue c)
  | CSeg c => category_1 cfg = INDEX_CATEGORY_LOGICAL_LOCALITY /\ lru_wf c /\
      hit_elem c = (fun sr fp => negb (lookup_fingerprint_in_segment_recipe sr fp =? 0)) /\ Forall (seg_unit holds) (elem_queue c)
  end.

Context (exact_key : exact cfg -> key_size cfg = fp_size).

Definition cache_has (c : fcache) fp : Prop :=
  match c with CMeta c => Exists (fun cm => is_Some (cm_map cm !! fp)) (elem_queue c) | CSeg _ => False end.

(** [ix'] is [ix] but for the cache and the counters. *)
Definition same_tables ix ix' : Prop :=
  buffered_fingerprints ix' = buffered_fingerprints ix /\ buffer_chunk_num ix' = buffer_chunk_num ix /\ ix_kv ix' = ix_kv ix.

#[local] Instance same_tables_preorder : PreOrder same_tables.
Proof. split; [by intros ?|intros ? ? ? (?&?&?) (?&?&?); split_and!; congruence]. Qed.

(** ** The fingerprint cache *)

Lemma init_fingerprint_cache_ok c : init_fingerprint_cache cfg = Ok c -> cache_ok c.
Proof.
  unfold init_fingerprint_cache. destruct (Z.eqb_spec (category_1 cfg) INDEX_CATEGORY_PHYSICAL_LOCALITY);
    [|destruct (Z.eqb_spec (category_1 cfg) INDEX_CATEGORY_LOGICAL_LOCALITY); [|done]];
    intros [= <-]; split_and!; try done; apply new_lru_cache_wf.
Qed.

Lemma lookup_meta_true cm fp :
  negb (lookup_fingerprint_in_container_meta cm fp =? 0) = true <-> is_Some (cm_map cm !! fp).
Proof. unfold lookup_fingerprint_in_container_meta. rewrite <- not_eq_None_Some. by case_bool_decide. Qed.

Lemma fingerprint_cache_lookup_ok ix fp : cache_ok (ix_cache ix) ->
  exists id c, fingerprint_cache_lookup ix fp = Ok (id, set_cache ix c) /\ cache_ok c /\ id_ok id fp /\
    (cache_has (ix_cache ix) fp -> id <> TEMPORARY_ID).
Proof.
  unfold fingerprint_cache_lookup, cache_ok, cache_has. destruct (ix_cache ix) as [c|c]; intros (Hc & Hw & Hh & HP).
  - pose proof (lru_lookup_forall c fp _ Hw HP) as H. destruct (lru_cache_lookup c fp) as [[cm|] c'] eqn:E; destruct H as (W & H & F & R).
    + destruct R as [R Hit]. rewrite Hh in Hit. apply lookup_meta_true in Hit. pose proof (R _ Hit) as Hm.
      do 2 eexists. split; [reflexivity|]. split_and!; try done; [congruence|by right|].
      intros _. pose proof (holds_id _ _ Hm). unfold TEMPORARY_ID. lia.
    + do 2 eexists. split; [reflexivity|]. split_and!; try done; [congruence|by left|].
      intros (cm & Hin & Hs)%Exists_exists. unfold lru_cache_lookup in E. destruct (split_first _ _) as [[[? ?] ?]|] eqn:E2; [done|].
      apply split_first_None in E2. rewrite Forall_forall in E2. specialize (E2 cm Hin). rewrite Hh in E2.
      apply lookup_meta_true in Hs. congruence.
  - pose proof (lru_lookup_forall c fp _ Hw HP) as H. destruct (lru_cache_lookup c fp) as [[sr|] c']; destruct H as (W & H & F & R).
    + destruct R as [R Hit]. rewrite Hh in Hit. unfold lookup_fingerprint_in_segment_recipe in Hit. case_bool_decide as E; [done|].
      destruct (kvpairs sr !! fp) as [cp|] eqn:Ecp; [|done]. pose proof (R _ _ Ecp) as Hcp. pose proof (holds_id _ _ Hcp).
      cbn [deref]. step. rewrite (proj2 (Z.ltb_lt _ _)) by (unfold TEMPORARY_ID; lia). cbn [c_assert]. step. step.
      do 2 eexists. split; [reflexivity|]. split_and!; try done; [congruence|by right].
    + step. do 2 eexists. split; [reflexivity|]. split_and!; try done; [congruence|by left].
Qed.

Lemma cache_segments_ok srs c : lru_wf c -> Forall (seg_unit holds) (elem_queue c) -> Forall (seg_unit holds) srs ->
  exists c', foldM cache_segment c srs = Ok c' /\ lru_wf c' /\ hit_elem c' = hit_elem c /\ Forall (seg_unit holds) (elem_queue c').
Proof.
  intros Hw HP Hs. apply (foldM_run cache_segment (fun c' _ => lru_wf c' /\ hit_elem c' = hit_elem c /\ Forall (seg_unit holds) (elem_queue c')) (seg_unit holds));
    [|done|done]. clear Hw HP. intros c1 _ sr (Hw & Hh & HP) Hsr. unfold cache_segment.
  pose proof (lru_hits_forall c1 (sr_id sr) segment_recipe_check_id _ Hw HP) as H. destruct (lru_cache_hits c1 _ _) as [[e|] c2]; destruct H as (W & H & F).
  - eexists. split; [reflexivity|]. split_and!; [done|congruence|done].
  - destruct (lru_insert_forall c2 sr _ W F Hsr) as (v & c3 & -> & W3 & H3 & F3). step. eexists. split; [reflexivity|]. split_and!; [done|congruence|done].
Qed.

Lemma fingerprint_cache_prefetch_ok ix w id : cache_ok (ix_cache ix) -> wok w -> prefetchable id ->
  exists ix' w', fingerprint_cache_prefetch cfg simulation_level dir ix w id = Ok (ix', w') /\
    same_tables ix ix' /\ cache_ok (ix_cache ix') /\ wok w' /\
    (exact cfg -> forall fp, unit_has id fp -> cache_has (ix_cache ix') fp).
Proof.
  unfold fingerprint_cache_prefetch, cache_ok. destruct (ix_cache ix) as [c|c]; intros (Hc & Hw & Hh & HP) Hwok Hid.
  - destruct (units_of_container w id Hc Hwok Hid) as (cm & st & -> & Hwok' & Hm & Hu). step.
    destruct (lru_insert_forall c cm _ Hw HP Hm) as (v & c' & E & W & H & F). rewrite E. step.
    do 2 eexists. split; [reflexivity|]. split_and!; cbn; try done; [by rewrite H|]. intros _ fp Hfp.
    destruct (lru_insert_head _ _ _ _ E) as [l ->]. constructor. by apply Hu.
  - pose proof (lru_hits_forall c id segment_recipe_check_id _ Hw HP) as H. destruct (lru_cache_hits c _ _) as [[e|] c1]; destruct H as (W & H & F).
    + do 2 eexists. split; [reflexivity|]. split_and!; cbn; try done; [by rewrite H|]. intros [_ E]. by rewrite Hc in E.
    + destruct (units_of_segment w id Hc Hwok Hid) as (srs & bv & o & -> & Hwok' & Hs). step.
      destruct (cache_segments_ok (rev srs) c1 W F) as (c' & -> & W' & H' & F'); [by apply Forall_rev|]. step.
      do 2 eexists. split; [reflexivity|]. split_and!; cbn; try done; [by rewrite H', H|]. intros [_ E]. by rewrite Hc in E.
Qed.

(** ** The index buffer *)

(** Nothing but the storage buffer can hold a fingerprint that is fresh (and with
    exact deduplication no container holds it, see [Backup]). *)
Definition absent (container_buffer : option container) fp : Prop :=
  match container_buffer with Some con => cm_map (c_meta con) !! fp = None | None => True end.
Definition fresh (container_buffer : option container) (kv : kvstore) fp : Prop :=
  absent container_buffer fp /\ (exact cfg -> kv !! fp = None).

(** The queue of a fingerprint has an element for each chunk in flight, in order.
    Only the oldest chunk can be unique; while it is, its id is unknown. *)
Definition queue_inv (container_buffer : option container) (kv : kvstore) fp (q : option (list Z)) (cs : list chunk) : Prop :=
  match cs with
  | [] => q = None
  | c :: cs => exists id ids, q = Some (id :: ids) /\ length ids = length cs /\
      Forall (fun id => id_ok id fp) (id :: ids) /\ Forall (fun c => is_dup c = true) cs /\
      if is_dup c then id <> TEMPORARY_ID else id = TEMPORARY_ID /\ fresh container_buffer kv fp
  end.

(** A chunk after the lookup: a duplicate knows a container that holds it, or
    copies a unique chunk in flight; a unique chunk has no id yet. *)
Definition looked_up (c : chunk) : Prop :=
  is_file_flag c = false /\ if is_dup c then id_ok (ck_id c) (ck_fp c) else ck_id c = TEMPORARY_ID.

Record buffer_inv (container_buffer : option container) ix (flight : list chunk) : Prop := {
  bi_queue fp : queue_inv container_buffer (ix_kv ix) fp (buffered_fingerprints ix !! fp) (with_fp fp flight);
  bi_chunks : Forall looked_up flight;
  bi_num : buffer_chunk_num ix = s32 (zlen flight);
}.

Lemma with_fp_app fp l1 l2 : with_fp fp (l1 ++ l2) = with_fp fp l1 ++ with_fp fp l2.
Proof. apply filter_app. Qed.

Lemma with_fp_one c : with_fp (ck_fp c) [c] = [c].
Proof. unfold with_fp. by rewrite filter_cons_True. Qed.

Lemma with_fp_other fp c : ck_fp c <> fp -> with_fp fp [c] = [].
Proof. intros. unfold with_fp. by rewrite filter_cons_False. Qed.

(** A chunk marked for rewriting. *)
Definition fragmented (c : chunk) : bool := CHECK_CHUNK c CHUNK_SPARSE || CHECK_CHUNK c CHUNK_OUT_OF_ORDER.

(** What the lookup leaves of a chunk. *)
Definition same_chunk (c c' : chunk) : Prop :=
  ck_size c' = ck_size c /\ ck_fp c' = ck_fp c /\ ck_data c' = ck_data c /\
  CHECK_CHUNK c' CHUNK_FILE_START = CHECK_CHUNK c CHUNK_FILE_START /\ CHECK_CHUNK c' CHUNK_FILE_END = CHECK_CHUNK c CHUNK_FILE_END /\
  fragmented c' = fragmented c.

#[export] Instance same_chunk_preorder : PreOrder same_chunk.
Proof. split; [by intros ?|intros ? ? ? (?&?&?&?&?&?) (?&?&?&?&?&?); split_and!; congruence]. Qed.

Lemma same_chunk_flag c c' : same_chunk c c' -> is_file_flag c' = is_file_flag c.
Proof. intros (_&_&_&E1&E2&_). unfold is_file_flag. by rewrite E1, E2. Qed.

(** The flags that the lookup and the filter leave alone. *)
Definition kept_flags : Z := Z.lor (Z.lor CHUNK_FILE_START CHUNK_FILE_END) (Z.lor CHUNK_SPARSE CHUNK_OUT_OF_ORDER).

Lemma same_chunk_set c f : Z.land f kept_flags = 0 -> same_chunk c (SET_CHUNK c f).
Proof.
  intros Hf. assert (E : forall g, Z.land kept_flags g = g -> CHECK_CHUNK (SET_CHUNK c f) g = CHECK_CHUNK c g).
  { intros g Hg. rewrite CHECK_SET. rewrite <- Hg at 2. rewrite Z.land_assoc, Hf. cbn. apply orb_false_r. }
  split_and!; try done; try by apply E. unfold fragmented. by rewrite !E.
Qed.

Lemma same_chunk_id c id : same_chunk c (set_ck_id c id).
Proof. done. Qed.

(** ** Looking a chunk up *)

(** A chunk as the hash phase hands it over. *)
Definition new_normal (c : chunk) : Prop :=
  is_file_flag c = false /\ is_dup c = false /\ ck_id c = TEMPORARY_ID /\ zlen (ck_fp c) = fp_size.

(** A chunk marked as a duplicate of the container [id]. *)
Lemma mark_dup c id : is_dup (SET_CHUNK (set_ck_id c id) CHUNK_DUPLICATE) = true.
Proof. unfold is_dup. rewrite CHECK_SET. apply orb_true_r. Qed.

Lemma check_storage_buffer_ok cb c : (forall con, cb = Some con -> meta_unit holds (c_meta con)) -> new_normal c ->
  let c' := check_storage_buffer cb c in
  same_chunk c c' /\
  if is_dup c' then holds (ck_id c') (ck_fp c) else c' = c /\ absent cb (ck_fp c).
Proof.
  intros Hcb (Hf & Hd & Hid & Hl). unfold check_storage_buffer, absent. destruct cb as [con|]; cbn zeta; [|by rewrite Hd].
  unfold lookup_fingerprint_in_container, lookup_fingerprint_in_container_meta. case_bool_decide as E; cbn [Z.eqb negb]; [by rewrite Hd|].
  assert (Hdup : is_dup (SET_CHUNK (SET_CHUNK (set_ck_id c (get_container_id con)) CHUNK_DUPLICATE) CHUNK_REWRITE_DENIED) = true).
  { unfold is_dup. rewrite CHECK_SET. fold (is_dup (SET_CHUNK (set_ck_id c (get_container_id con)) CHUNK_DUPLICATE)). by rewrite mark_dup. }
  rewrite Hdup. split; [|apply (Hcb con eq_refl); by apply not_eq_None_Some].
  etrans; [|by apply same_chunk_set]. etrans; [|by apply same_chunk_set]. apply same_chunk_id.
Qed.

Lemma check_index_buffer_ok cb ix flight c : buffer_inv cb ix flight ->
  exists tq c', check_index_buffer ix c = Ok (tq, c') /\ same_chunk c c' /\
    queue_inv cb (ix_kv ix) (ck_fp c) (if bool_decide (tq = []) then None else Some tq) (with_fp (ck_fp c) flight) /\
    (c' = c /\ (is_dup c = false -> tq = []) \/ tq <> [] /\ is_dup c' = true /\ id_ok (ck_id c') (ck_fp c)).
Proof.
  intros [Hq _ _]. specialize (Hq (ck_fp c)). unfold check_index_buffer. destruct (buffered_fingerprints ix !! ck_fp c) as [tq|] eqn:E.
  - destruct (with_fp (ck_fp c) flight) as [|c0 cs] eqn:Ec; [done|]. pose proof Hq as (id & ids & [= ->] & _ & Hids & _).
    fold (is_dup c). destruct (is_dup c) eqn:Hd; [|cbn [head deref]; step]; do 2 eexists; (split; [reflexivity|]).
    + split; [done|]. split; [exact Hq|]. by left.
    + split; [etrans; [apply same_chunk_id|by apply same_chunk_set]|]. split; [exact Hq|]. right. split; [done|]. rewrite mark_dup.
      split; [done|]. by apply Forall_cons in Hids as [? _].
  - exists [], c. split_and!; [done..|]. by left.
Qed.

Lemma set_cache_same ix c : same_tables ix (set_cache ix c).
Proof. done. Qed.

Lemma check_cache_ok ix c : cache_ok (ix_cache ix) ->
  exists ix' c', check_cache ix c = Ok (ix', c') /\ same_tables ix ix' /\ cache_ok (ix_cache ix') /\ same_chunk c c' /\
    (c' = c \/ is_dup c' = true /\ holds (ck_id c') (ck_fp c)) /\
    (is_dup c = false -> cache_has (ix_cache ix) (ck_fp c) -> is_dup c' = true).
Proof.
  intros Hc. unfold check_cache. fold (is_dup c). destruct (is_dup c) eqn:Hd; [exists ix, c; split_and!; try done; by left|].
  destruct (fingerprint_cache_lookup_ok ix (ck_fp c) Hc) as (id & f & -> & Hf & Hid & Hhas). step.
  do 2 eexists. split; [reflexivity|]. split; [done|]. split; [done|].
  destruct (Z.eqb_spec id TEMPORARY_ID) as [->|Hne].
  - split; [done|]. split; [by left|]. intros _ H. by apply Hhas in H.
  - split; [etrans; [apply same_chunk_id|by apply same_chunk_set]|]. rewrite mark_dup. split; [|done]. right. split; [done|]. by destruct Hid.
Qed.

Lemma kv_lookup_ok kv fp : zlen fp = fp_size ->
  kvstore_htable_lookup (kv_of_config cfg) kv fp = Ok (kv !! ztake (key_size cfg) fp).
Proof.
  intros Hl. unfold kvstore_htable_lookup, get_key. cbn [kv_key_size kv_of_config].
  assert (read_bytes fp 0 (key_size cfg) = Ok (ztake (key_size cfg) fp)) as ->; [|done].
  apply read_bytes_Ok. rewrite zdrop_0. split_and!; [lia..|done].
Qed.

(** The ids of a key: the first is the latest. *)
Lemma kv_ok_value kv k v : kv_ok cfg prefetchable unit_has kv -> kv !! k = Some v -> exists id rest, v = id :: rest /\ prefetchable id /\ (exact cfg -> unit_has id k).
Proof.
  intros (am & [Hr Hq] & _ & Hp & He) Hv. rewrite Hr in Hv. apply fmap_Some in Hv as (l & E & ->).
  destruct (Hq k l E) as (Hne & _). destruct l as [|id l]; [done|]. exists id. eexists. split; [reflexivity|].
  split.
  - specialize (Hp k _ E). by apply Forall_cons in Hp as [? _].
  - intros Hx. specialize (He Hx k _ E). by apply Forall_cons in He as [? _].
Qed.

Lemma check_kvstore_ok ix w c : cache_ok (ix_cache ix) -> kv_ok cfg prefetchable unit_has (ix_kv ix) -> wok w -> zlen (ck_fp c) = fp_size ->
  exists ix' w' c', check_kvstore cfg simulation_level dir ix w c = Ok (ix', w', c') /\ same_tables ix ix' /\ cache_ok (ix_cache ix') /\
    wok w' /\ same_chunk c c' /\ (c' = c \/ is_dup c' = true /\ holds (ck_id c') (ck_fp c)) /\
    (is_dup c' = false -> exact cfg -> ix_kv ix !! ck_fp c = None).
Proof.
  intros Hc Hk Hw Hl. unfold check_kvstore. fold (is_dup c). destruct (is_dup c) eqn:Hd.
  { exists ix, w, c. split_and!; try done; [by left|congruence]. }
  rewrite kv_lookup_ok by done. step. destruct (ix_kv ix !! _) as [v|] eqn:Ev.
  - destruct (kv_ok_value _ _ _ Hk Ev) as (id & rest & -> & Hp & Hu). cbn [head deref]. step.
    destruct (fingerprint_cache_prefetch_ok (count_lookup ix) w id Hc Hw Hp) as (ix1 & w1 & -> & Hs & Hc1 & Hw1 & Hh). step.
    destruct (check_cache_ok ix1 c Hc1) as (ix2 & c2 & -> & Hs2 & Hc2 & Hsc & Hd2 & Hh2). step.
    do 3 eexists. split; [reflexivity|]. split_and!; try done; [by etrans|by etrans; [apply Hs|apply Hs2]..|].
    intros Hnd Hx. exfalso. enough (is_dup c2 = true) by congruence. apply Hh2; [done|]. apply Hh; [done|].
    specialize (Hu Hx). rewrite (exact_key Hx), ztake_ge in Hu by lia. done.
  - do 3 eexists. split; [reflexivity|]. split_and!; try done; [by left|]. intros _ Hx. rewrite (exact_key Hx), ztake_ge in Ev by lia. done.
Qed.

(** The element of a new chunk joins the queue. *)
Lemma queue_push cb kv fp tq cs c :
  queue_inv cb kv fp (if bool_decide (tq = []) then None else Some tq) cs -> id_ok (ck_id c) fp ->
  (tq = [] -> is_dup c = true -> ck_id c <> TEMPORARY_ID) ->
  (is_dup c = false -> ck_id c = TEMPORARY_ID /\ tq = [] /\ fresh cb kv fp) ->
  queue_inv cb kv fp (Some (tq ++ [ck_id c])) (cs ++ [c]).
Proof.
  intros Hq Hid Hd Hu. destruct tq as [|id tq].
  - destruct cs as [|c0 cs]; [|by destruct Hq as (?&?&?&_)]. exists (ck_id c), []. split_and!; try done; [by apply Forall_singleton|].
    destruct (is_dup c); [by apply Hd|]. destruct Hu as (-> & _ & Hf); done.
  - destruct cs as [|c0 cs]; [done|]. destruct Hq as (id0 & ids & E & Hlen & Hids & Hdup & Hhead). injection E as <- <-.
    exists id, (tq ++ [ck_id c]). split_and!; [done|by rewrite !length_app, Hlen| | |done].
    + change (id :: tq ++ [ck_id c]) with ((id :: tq) ++ [ck_id c]). apply Forall_app. by split; [|constructor].
    + apply Forall_app. split; [done|]. constructor; [|done]. destruct (is_dup c); [done|]. by destruct Hu as (_ & ? & _).
Qed.

Lemma queue_inv_same cb kv fp q cs cs' : Forall2 (fun c c' => is_dup c' = is_dup c) cs cs' -> queue_inv cb kv fp q cs -> queue_inv cb kv fp q cs'.
Proof.
  intros H Hq. destruct H as [|c c' cs cs' Hc Hcs]; [done|]. destruct Hq as (id & ids & -> & Hlen & Hids & Hdup & Hh).
  exists id, ids. rewrite Hc. split_and!; try done; [by rewrite Hlen; apply Forall2_length in Hcs|].
  clear Hh Hlen. induction Hcs as [|x y l k Hxy _ IH]; [done|]. apply Forall_cons in Hdup as [H1 H2]. constructor; [congruence|by apply IH].
Qed.

Lemma buffer_push cb ix flight tq c : buffer_inv cb ix flight ->
  queue_inv cb (ix_kv ix) (ck_fp c) (if bool_decide (tq = []) then None else Some tq) (with_fp (ck_fp c) flight) ->
  looked_up c -> (tq = [] -> is_dup c = true -> ck_id c <> TEMPORARY_ID) ->
  (is_dup c = false -> tq = [] /\ fresh cb (ix_kv ix) (ck_fp c)) ->
  buffer_inv cb (buffer_chunk ix tq c) (flight ++ [c]).
Proof.
  intros [Hq Hc Hn] Htq [Hf Hl] Hd Hu. split; cbn [buffer_chunk set_buffer buffered_fingerprints ix_kv buffer_chunk_num].
  - intros fp. rewrite with_fp_app. destruct (decide (ck_fp c = fp)) as [<-|Hne].
    + rewrite lookup_insert_eq, with_fp_one. apply queue_push; [done| |done|].
      * destruct (is_dup c); [done|by left].
      * intros D. rewrite D in Hl. destruct (Hu D). by split_and!.
    + rewrite lookup_insert_ne, with_fp_other, app_nil_r by done. apply Hq.
  - apply Forall_app. split; [done|]. by apply Forall_singleton.
  - rewrite Hn, swrap_add by lia. f_equal. rewrite zlen_app. done.
Qed.

Lemma lookup_chunk_ok search cb ix w done c flight :
  (exact cfg -> search = true) -> (forall con, cb = Some con -> meta_unit holds (c_meta con)) ->
  buffer_inv cb ix flight -> cache_ok (ix_cache ix) -> kv_ok cfg prefetchable unit_has (ix_kv ix) -> wok w -> new_normal c ->
  exists ix' w' c', lookup_chunk cfg simulation_level dir search cb (ix, w, done) c = Ok (ix', w', done ++ [c']) /\
    buffer_inv cb ix' (flight ++ [c']) /\ cache_ok (ix_cache ix') /\ ix_kv ix' = ix_kv ix /\ wok w' /\ same_chunk c c'.
Proof.
  intros Hx Hcb Hb Hca Hkv Hw Hn. pose proof Hn as (Hf & Hd & Hid & Hl). unfold lookup_chunk. rewrite Hf.
  destruct (check_storage_buffer_ok cb c Hcb Hn) as [Hs1 Hd1]. set (c1 := check_storage_buffer cb c) in *.
  destruct (check_index_buffer_ok cb ix flight c1 Hb) as (tq & c2 & -> & Hs2 & Hq & Hd2). step.
  destruct (check_cache_ok ix c2 Hca) as (ix3 & c3 & -> & Ht3 & Hca3 & Hs3 & Hd3 & _). step.
  assert (Hl3 : zlen (ck_fp c3) = fp_size) by (destruct Hs1 as (_&E1&_), Hs2 as (_&E2&_), Hs3 as (_&E3&_); congruence).
  assert (Hk : exists ix' w' c', (if search : bool then check_kvstore cfg simulation_level dir ix3 w c3 else Ok (ix3, w, c3)) = Ok (ix', w', c') /\
    same_tables ix3 ix' /\ cache_ok (ix_cache ix') /\ wok w' /\ same_chunk c3 c' /\ (c' = c3 \/ is_dup c' = true /\ holds (ck_id c') (ck_fp c3)) /\
    (is_dup c' = false -> exact cfg -> ix_kv ix !! ck_fp c3 = None)).
  { destruct search; [|exists ix3, w, c3; split_and!; try done; [by left|intros _ Hx'; by specialize (Hx Hx')]].
    assert (Ek : ix_kv ix3 = ix_kv ix) by apply Ht3. rewrite <- Ek. apply check_kvstore_ok; try done. by rewrite Ek. }
  destruct Hk as (ix4 & w4 & c4 & -> & Ht4 & Hca4 & Hw4 & Hs4 & Hd4 & Hk4). step.
  assert (E1 : ck_fp c1 = ck_fp c) by apply Hs1. assert (E2 : ck_fp c2 = ck_fp c) by (rewrite <- E1; apply Hs2).
  assert (E3 : ck_fp c3 = ck_fp c) by (rewrite <- E2; apply Hs3). assert (E4 : ck_fp c4 = ck_fp c) by (rewrite <- E3; apply Hs4).
  assert (Hsame : same_chunk c c4) by (by etrans; [|etrans; [|etrans]]).
  assert (Ht : same_tables ix ix4) by (by etrans). destruct Ht as (Tb & Tn & Tk).
  exists (buffer_chunk ix4 tq c4), w4, c4. split_and!; try done.
  rewrite E1 in *. rewrite E2 in *. rewrite E3 in *.
  assert (Hb4 : buffer_inv cb ix4 flight) by (destruct Hb as [Bq Bc Bn]; split; [by rewrite Tb, Tk|done|by rewrite Tn]).
  assert (Hgood : is_dup c4 = true /\ id_ok (ck_id c4) (ck_fp c) /\ (tq = [] -> ck_id c4 <> TEMPORARY_ID) \/
    c4 = c /\ tq = [] /\ absent cb (ck_fp c)).
  { assert (Hh : forall id, holds id (ck_fp c) -> id <> TEMPORARY_ID) by (intros id H%holds_id; unfold TEMPORARY_ID; lia).
    destruct Hd4 as [->|[D4 H4]]; [|left; split_and!; [done|by right|by intros _; apply Hh]].
    destruct Hd3 as [->|[D3 H3]]; [|left; split_and!; [done|by right|by intros _; apply Hh]].
    destruct Hd2 as [[-> Htq]|(Htq & D2 & H2)]; [|left; split_and!; done].
    destruct (is_dup c1) eqn:D1; [left; split_and!; [done|by right|by intros _; apply Hh]|]. destruct Hd1 as [-> ?]. right. split_and!; try done. by apply Htq. }
  apply buffer_push; [done|by rewrite Tk, E4| | |].
  - split; [by rewrite (same_chunk_flag _ _ Hsame)|]. rewrite E4. destruct Hgood as [(-> & ? & _)|(-> & _)]; [done|]. by rewrite Hd.
  - intros Htq D. destruct Hgood as [(_ & _ & H)|(-> & _)]; [by apply H|congruence].
  - intros D. destruct Hgood as [(D' & _)|(_ & -> & Ha)]; [congruence|]. split; [done|]. rewrite E4, Tk. split; [done|]. intros Hx'. by apply Hk4.
Qed.

(** The normal chunks of a segment. *)
Definition normals (cs : list chunk) : list chunk := filter (fun c => is_file_flag c = false) cs.

(** The chunks of a segment as the hash phase hands them over. *)
Definition new_chunks (cs : list chunk) : Prop := Forall (fun c => is_file_flag c = false -> new_normal c) cs.

Lemma lookup_chunks_ok search cb ix w cs flight :
  (exact cfg -> search = true) -> (forall con, cb = Some con -> meta_unit holds (c_meta con)) ->
  buffer_inv cb ix flight -> cache_ok (ix_cache ix) -> kv_ok cfg prefetchable unit_has (ix_kv ix) -> wok w -> new_chunks cs ->
  exists ix' w' cs', foldM (lookup_chunk cfg simulation_level dir search cb) (ix, w, []) cs = Ok (ix', w', cs') /\
    buffer_inv cb ix' (flight ++ normals cs') /\ cache_ok (ix_cache ix') /\ ix_kv ix' = ix_kv ix /\ wok w' /\ Forall2 same_chunk cs cs'.
Proof.
  intros Hx Hcb Hb Hca Hkv Hw Hn.
  destruct (foldM_run (lookup_chunk cfg simulation_level dir search cb)
    (fun s done => let '(ix', w', cs') := s in buffer_inv cb ix' (flight ++ normals cs') /\ cache_ok (ix_cache ix') /\
       ix_kv ix' = ix_kv ix /\ wok w' /\ Forall2 same_chunk done cs')
    (fun c => is_file_flag c = false -> new_normal c) cs (ix, w, [])) as ([[ix' w'] cs'] & E & H); [|by rewrite app_nil_r|done|by exists ix', w', cs'].
  clear Hb Hca Hw Hn. intros [[ix1 w1] cs1] done c (Hb & Hca & Hk & Hw & Hs) Hc.
  destruct (is_file_flag c) eqn:Hf.
  - eexists. split; [unfold lookup_chunk; rewrite Hf; reflexivity|]. unfold normals in *. rewrite filter_app, filter_cons_False, app_nil_r by (by rewrite Hf).
    split_and!; try done. apply Forall2_app; [done|]. by constructor.
  - destruct (lookup_chunk_ok search cb ix1 w1 cs1 c _ Hx Hcb Hb Hca) as (ix2 & w2 & c2 & -> & Hb2 & Hca2 & Hk2 & Hw2 & Hs2); [by rewrite Hk|done|by apply Hc|].
    eexists. split; [reflexivity|]. unfold normals in *. rewrite filter_app, filter_cons_True by (by rewrite (same_chunk_flag _ _ Hs2)).
    rewrite app_assoc. split_and!; try done; [congruence|]. apply Forall2_app; [done|]. by constructor.
Qed.

(** ** Before a segment is filtered *)

(** What the filter may rely on for the chunks [cs] of a segment, in order: a
    duplicate without an id has its unique original before it in the segment; a
    unique chunk is the first with its fingerprint and is fresh. *)
Definition seg_ready (cb : option container) (kv : kvstore) (cs : list chunk) : Prop :=
  forall pre c post, cs = pre ++ c :: post -> is_file_flag c = false ->
    if is_dup c then id_ok (ck_id c) (ck_fp c) /\
      (ck_id c = TEMPORARY_ID -> exists u, u ∈ pre /\ is_file_flag u = false /\ is_dup u = false /\ ck_fp u = ck_fp c)
    else ck_id c = TEMPORARY_ID /\ fresh cb kv (ck_fp c) /\
      forall u, u ∈ pre -> is_file_flag u = false -> ck_fp u <> ck_fp c.

(** The check changes ids and flags only. *)
Definition checked (c c' : chunk) : Prop := same_chunk c c' /\ is_dup c' = is_dup c.

Lemma elem_with_fp c fp cs : c ∈ with_fp fp (normals cs) <-> c ∈ cs /\ is_file_flag c = false /\ ck_fp c = fp.
Proof using. unfold with_fp, normals. rewrite !list_elem_of_filter. clear. tauto. Qed.

Lemma normals_app l1 l2 : normals (l1 ++ l2) = normals l1 ++ normals l2.
Proof. apply filter_app. Qed.

Lemma with_fp_split pre c post rest : is_file_flag c = false ->
  with_fp (ck_fp c) (normals (pre ++ c :: post) ++ rest) =
  with_fp (ck_fp c) (normals pre) ++ c :: with_fp (ck_fp c) (normals post ++ rest).
Proof.
  intros Hf. rewrite normals_app. unfold normals at 2. rewrite filter_cons_True by done. fold (normals post).
  rewrite <- app_assoc, with_fp_app. f_equal. unfold with_fp. cbn [app]. by rewrite filter_cons_True.
Qed.

(** The state of the buffer for one chunk of the first segment in flight. *)
Lemma queue_at cb ix pre c post rest : buffer_inv cb ix (normals (pre ++ c :: post) ++ rest) -> is_file_flag c = false ->
  exists id ids, buffered_fingerprints ix !! ck_fp c = Some (id :: ids) /\ id_ok id (ck_fp c) /\
    match with_fp (ck_fp c) (normals pre) with
    | [] => if is_dup c then id <> TEMPORARY_ID else id = TEMPORARY_ID /\ fresh cb (ix_kv ix) (ck_fp c)
    | u :: _ => is_dup c = true /\ if is_dup u then id <> TEMPORARY_ID else True
    end.
Proof.
  intros [Hq _ _] Hf. specialize (Hq (ck_fp c)). rewrite with_fp_split in Hq by done.
  destruct (with_fp (ck_fp c) (normals pre)) as [|u us]; cbn [app queue_inv] in Hq; destruct Hq as (id & ids & -> & _ & Hids & Hdup & Hh);
    exists id, ids; apply Forall_cons in Hids as [Hid _]; split_and!; try done.
  - rewrite Forall_app, Forall_cons in Hdup. tauto.
  - by destruct (is_dup u).
Qed.

Lemma check_buffered_ok cb ix pre c post rest : buffer_inv cb ix (normals (pre ++ c :: post) ++ rest) ->
  exists c', check_buffered ix c = Ok c' /\ checked c c' /\
    (is_file_flag c = false ->
     if is_dup c' then id_ok (ck_id c') (ck_fp c) /\
       (ck_id c' = TEMPORARY_ID -> exists u, u ∈ pre /\ is_file_flag u = false /\ is_dup u = false /\ ck_fp u = ck_fp c)
     else ck_id c' = TEMPORARY_ID /\ fresh cb (ix_kv ix) (ck_fp c) /\
       forall u, u ∈ pre -> is_file_flag u = false -> ck_fp u <> ck_fp c).
Proof.
  intros Hb. unfold check_buffered. destruct (is_file_flag c) eqn:Hf; [by exists c|].
  destruct (queue_at _ _ _ _ _ _ Hb Hf) as (id & ids & Hq & Hid & Hpre).
  assert (Hl : looked_up c).
  { destruct Hb as [_ Hc _]. rewrite normals_app in Hc. unfold normals at 2 in Hc. rewrite filter_cons_True in Hc by done.
    rewrite <- app_assoc in Hc. apply Forall_app in Hc as [_ [Hc _]%Forall_cons]. exact Hc. }
  destruct Hl as [_ Hl]. assert (Hge : id = TEMPORARY_ID \/ TEMPORARY_ID < id).
  { destruct Hid as [->|H%holds_id]; [by left|right; unfold TEMPORARY_ID; lia]. }
  assert (Hnone : with_fp (ck_fp c) (normals pre) = [] -> forall u, u ∈ pre -> is_file_flag u = false -> ck_fp u <> ck_fp c).
  { intros E u Hu Hfu Hfp. assert (Hin : u ∈ with_fp (ck_fp c) (normals pre)) by (by apply elem_with_fp). rewrite E in Hin. by apply elem_of_nil in Hin. }
  destruct (is_dup c) eqn:Hd.
  - assert (Hkeep : forall c', same_chunk c c' -> is_dup c' = true -> id_ok (ck_id c') (ck_fp c) -> ck_id c' <> TEMPORARY_ID \/ id = TEMPORARY_ID ->
      checked c c' /\ (false = false -> if is_dup c' then id_ok (ck_id c') (ck_fp c) /\
         (ck_id c' = TEMPORARY_ID -> exists u, u ∈ pre /\ is_file_flag u = false /\ is_dup u = false /\ ck_fp u = ck_fp c)
       else ck_id c' = TEMPORARY_ID /\ fresh cb (ix_kv ix) (ck_fp c) /\ forall u, u ∈ pre -> is_file_flag u = false -> ck_fp u <> ck_fp c)).
    { intros c' Hs Hd' Hi Hne. split; [split; [done|congruence]|]. intros _. rewrite Hd'. split; [done|]. intros Ht.
      destruct Hne as [Hne|Hid0]; [done|]. destruct (with_fp (ck_fp c) (normals pre)) as [|u us] eqn:Eu; [done|].
      destruct Hpre as [_ Hu]. assert (Hin : u ∈ with_fp (ck_fp c) (normals pre)) by (rewrite Eu; left).
      apply elem_with_fp in Hin as (? & ? & ?). exists u. destruct (is_dup u); [done|]. by split_and!. }
    unfold wants_check. fold (is_dup c). rewrite Hd. cbn [andb].
    destruct (_ || _ || _) eqn:Hw; rewrite Hq || idtac; cbn [head deref]; try step.
    + destruct (Z.ltb_spec (ck_id c) id) as [Hlt|Hlt]; eexists; (split; [reflexivity|]); apply Hkeep.
      * etrans; [|apply same_chunk_id]. destruct (_ =? _); [done|by apply same_chunk_set].
      * destruct (ck_id c =? TEMPORARY_ID); [done|]. transitivity (is_dup (SET_CHUNK c CHUNK_REWRITE_DENIED)); [done|].
        unfold is_dup in *. by rewrite CHECK_SET, Hd.
      * done.
      * left. cbn. destruct Hl as [El|H%holds_id]; unfold TEMPORARY_ID in *; lia.
      * done.
      * done.
      * done.
      * destruct Hge; [by right|left; lia].
    + exists c. split; [done|]. apply Hkeep; try done. left. intros E. by rewrite E in Hw.
  - assert (Hid0 : id = TEMPORARY_ID /\ fresh cb (ix_kv ix) (ck_fp c) /\ with_fp (ck_fp c) (normals pre) = []).
    { destruct (with_fp (ck_fp c) (normals pre)) as [|u us]; [|by destruct Hpre]. by destruct Hpre. }
    destruct Hid0 as (-> & Hfr & Hno). exists c. split.
    + rewrite Hq. cbn [head deref]. rewrite Hl. destruct (wants_check c); [|done]. step. done.
    + split; [done|]. intros _. rewrite Hd. split_and!; [done|done|by apply Hnone].
Qed.

Lemma index_check_buffer_ok cb ix cs rest : buffer_inv cb ix (normals cs ++ rest) ->
  exists cs', index_check_buffer ix cs = Ok cs' /\ Forall2 checked cs cs' /\ seg_ready cb (ix_kv ix) cs'.
Proof.
  intros Hb. enough (G : forall todo hd hd', cs = hd ++ todo -> Forall2 checked hd hd' -> seg_ready cb (ix_kv ix) hd' ->
    exists todo', index_check_buffer ix todo = Ok todo' /\ Forall2 checked todo todo' /\ seg_ready cb (ix_kv ix) (hd' ++ todo')).
  { apply (G cs [] []); [done|constructor|]. intros pre c post E. by destruct pre. }
  induction todo as [|c todo IH]; intros hd hd' E Hd Hr; [exists []; rewrite app_nil_r; split_and!; [done|constructor|done]|].
  rewrite E in Hb. destruct (check_buffered_ok cb ix hd c todo rest Hb) as (c' & Ec & Hc & Hp).
  destruct (IH (hd ++ [c]) (hd' ++ [c'])) as (todo' & Et & Ht & Hr').
  - by rewrite <- app_assoc.
  - apply Forall2_app; [done|by constructor].
  - pose proof Hc as ((_ & Hfp & _) & _). intros pre x post Ex Hx. destruct (decide (post = [])) as [->|Hne].
    + apply app_inj_tail in Ex as [<- <-]. rewrite (same_chunk_flag _ _ (proj1 Hc)) in Hx. specialize (Hp Hx). rewrite Hfp.
      destruct (is_dup c').
      * destruct Hp as [Hi Hu]. split; [done|]. intros Ht. destruct (Hu Ht) as (u & Hu1 & Hu2 & Hu3 & Hu4).
        apply list_elem_of_lookup_1 in Hu1 as [i Hi1]. destruct (Forall2_lookup_l _ _ _ _ _ Hd Hi1) as (u' & Hu' & Hcu).
        exists u'. split; [by eapply list_elem_of_lookup_2|]. destruct Hcu as (Hcs & Hcd). rewrite (same_chunk_flag _ _ Hcs).
        destruct Hcs as (_ & -> & _). split_and!; congruence.
      * destruct Hp as (Hi & Hfr & Hu). split_and!; try done. intros u' Hu1 Hu2.
        apply list_elem_of_lookup_1 in Hu1 as [i Hi1]. destruct (Forall2_lookup_r _ _ _ _ _ Hd Hi1) as (u & Hu' & Hcs & _).
        rewrite (same_chunk_flag _ _ Hcs) in Hu2. destruct Hcs as (_ & -> & _). apply Hu; [by eapply list_elem_of_lookup_2|done].
    + destruct (exists_last Hne) as (post' & y & ->). rewrite app_comm_cons, app_assoc in Ex. apply app_inj_tail in Ex as [Ex _].
      by apply (Hr pre x post').
  - exists (c' :: todo'). cbn. rewrite Ec. step. rewrite Et. step. rewrite <- app_assoc in Hr'. split_and!; [done|by constructor|done].
Qed.

(** ** After a segment is filtered *)

(** The queue of a fingerprint after its chunks [d] have left. *)
Definition popped (q : option (list Z)) (d : list chunk) : option (list Z) :=
  match last d with
  | None => q
  | Some c => match drop (length d) (default [] q) with [] => None | ids => Some (map (fun _ => ck_id c) ids) end
  end.

Lemma popped_snoc q d c ids : popped q d = Some ids ->
  (if bool_decide (tail ids = []) then None else Some (map (fun _ => ck_id c) (tail ids))) = popped q (d ++ [c]).
Proof.
  unfold popped. rewrite last_snoc, length_app, <- drop_drop. cbn [length]. destruct (last d) as [c0|] eqn:Ed.
  - destruct (drop (length d) (default [] q)) as [|i [|j l]]; intros H; [done|by injection H as <-|]. injection H as <-.
    cbn [map tail]. rewrite bool_decide_false by done. cbn. f_equal. f_equal. rewrite map_map. done.
  - apply last_None in Ed as ->. intros ->. cbn. rewrite drop_0. destruct ids as [|i [|j l]]; done.
Qed.

Lemma popped_length q d ids : popped q d = Some ids -> length ids = (length (default [] q) - length d)%nat.
Proof.
  unfold popped. destruct (last d) as [c|] eqn:Ed.
  - destruct (drop _ _) as [|i l] eqn:E; [done|]. intros [= <-]. rewrite <- length_drop, E. cbn. by rewrite length_map.
  - apply last_None in Ed as ->. intros ->. cbn. lia.
Qed.

Lemma with_fp_same fp cs cs' : Forall2 same_chunk cs cs' -> Forall2 same_chunk (with_fp fp (normals cs)) (with_fp fp (normals cs')).
Proof.
  intros H. induction H as [|c c' cs cs' Hc _ IH]; [constructor|]. unfold with_fp, normals in *. rewrite !filter_cons.
  rewrite (same_chunk_flag _ _ Hc). destruct (decide (is_file_flag c = false)); [|done]. rewrite !filter_cons.
  pose proof Hc as (_ & -> & _). destruct (decide (ck_fp c = fp)); [by constructor|done].
Qed.

Lemma normals_same cs cs' : Forall2 same_chunk cs cs' -> Forall2 same_chunk (normals cs) (normals cs').
Proof.
  intros H. induction H as [|c c' cs cs' Hc _ IH]; [constructor|]. unfold normals in *. rewrite !filter_cons.
  rewrite (same_chunk_flag _ _ Hc). destruct (decide (is_file_flag c = false)); [by constructor|done].
Qed.

(** The queue has an element for every chunk in flight. *)
Lemma queue_length cb kv fp q cs : queue_inv cb kv fp q cs -> length (default [] q) = length cs.
Proof. destruct cs as [|c cs]; cbn; [by intros ->|]. intros (id & ids & -> & Hl & _). cbn. by rewrite Hl. Qed.

Lemma update_buffered_loop cb ix cs0 cs rest : buffer_inv cb ix (normals cs0 ++ rest) -> Forall2 same_chunk cs0 cs ->
  Forall (fun c => is_file_flag c = false -> ck_id c <> TEMPORARY_ID) cs ->
  exists ix', foldM update_buffered ix cs = Ok ix' /\ ix_kv ix' = ix_kv ix /\ ix_cache ix' = ix_cache ix /\
    buffer_chunk_num ix' = s32 (zlen rest) /\
    forall fp, buffered_fingerprints ix' !! fp = popped (buffered_fingerprints ix !! fp) (with_fp fp (normals cs)).
Proof.
  intros Hb Hs Hid.
  destruct (foldM_steps update_buffered (fun ix' pre => ix_kv ix' = ix_kv ix /\ ix_cache ix' = ix_cache ix /\
      buffer_chunk_num ix' = s32 (zlen (normals cs0) - zlen (normals pre) + zlen rest) /\
      forall fp, buffered_fingerprints ix' !! fp = popped (buffered_fingerprints ix !! fp) (with_fp fp (normals pre))) cs ix)
    as (ix' & E & Hk & Hc & Hn & Hq).
  - intros ix1 pre c post Ecs (Hk & Hc & Hn & Hq). unfold update_buffered. destruct (is_file_flag c) eqn:Hf.
    { eexists. split; [reflexivity|]. unfold normals in *. rewrite filter_app, filter_cons_False, app_nil_r by (by rewrite Hf). done. }
    rewrite Ecs in Hid. apply Forall_app in Hid as [_ [Hi _]%Forall_cons]. rewrite (proj2 (Z.eqb_neq _ _) (Hi Hf)). cbn [negb c_assert]. step.
    assert (Hlen : (length (with_fp (ck_fp c) (normals pre)) < length (default [] (buffered_fingerprints ix !! ck_fp c)))%nat).
    { rewrite (queue_length _ _ _ _ _ (bi_queue _ _ _ Hb (ck_fp c))), with_fp_app, length_app.
      rewrite (Forall2_length _ _ _ (with_fp_same (ck_fp c) _ _ Hs)), Ecs. pose proof (with_fp_split pre c post [] Hf) as Hw.
      rewrite !app_nil_r in Hw. rewrite Hw, length_app. cbn. lia. }
    assert (Hsome : exists ids, buffered_fingerprints ix1 !! ck_fp c = Some ids).
    { rewrite Hq. unfold popped. destruct (last _) as [c0|] eqn:El.
      - destruct (drop _ _) eqn:Ed; [|by eexists]. apply (f_equal length) in Ed. rewrite length_drop in Ed. cbn in Ed. lia.
      - destruct (buffered_fingerprints ix !! ck_fp c); [by eexists|cbn in Hlen; lia]. }
    destruct Hsome as [ids Eids]. rewrite Eids. cbn [deref]. step. eexists. split; [reflexivity|].
    assert (Hnc : normals (pre ++ [c]) = normals pre ++ [c]) by (rewrite normals_app; unfold normals at 2; by rewrite filter_cons_True).
    rewrite Hnc. cbn [set_buffer ix_kv ix_cache buffer_chunk_num buffered_fingerprints]. split_and!; [done|done| |].
    + rewrite Hn, <- Z.add_opp_r, swrap_add by lia. f_equal. rewrite zlen_app. change (zlen [c]) with 1. lia.
    + intros fp. rewrite with_fp_app. destruct (decide (ck_fp c = fp)) as [<-|Hne].
      * rewrite with_fp_one. rewrite Hq in Eids. rewrite <- (popped_snoc _ _ c _ Eids). case_bool_decide; [by rewrite lookup_delete_eq|by rewrite lookup_insert_eq].
      * rewrite with_fp_other, app_nil_r by done. rewrite <- Hq. case_bool_decide; [by rewrite lookup_delete_ne|by rewrite lookup_insert_ne].
  - split_and!; [done|done| |done]. rewrite (bi_num _ _ _ Hb), zlen_app. f_equal. change (zlen (normals [])) with 0. lia.
  - exists ix'. split_and!; try done. rewrite Hn. f_equal. pose proof (Forall2_length _ _ _ (normals_same _ _ Hs)) as Hl.
    unfold zlen. rewrite Hl. lia.
Qed.

(** The buffer is right for the chunks still in flight, if what was fresh and is
    not in the segment still is. *)
Lemma index_update_buffer_ok wait_threshold cb cb' ix kv' cs0 cs rest :
  buffer_inv cb ix (normals cs0 ++ rest) -> Forall2 same_chunk cs0 cs ->
  Forall (fun c => is_file_flag c = false -> holds (ck_id c) (ck_fp c)) cs ->
  (forall fp, with_fp fp (normals cs) = [] -> fresh cb (ix_kv ix) fp -> fresh cb' kv' fp) ->
  exists full ix', index_update_buffer wait_threshold ix cs = Ok (full, ix') /\ ix_kv ix' = ix_kv ix /\ ix_cache ix' = ix_cache ix /\
    buffer_inv cb' (set_kv ix' kv') rest.
Proof.
  intros Hb Hs Hh Hfr. unfold index_update_buffer.
  destruct (update_buffered_loop cb ix cs0 cs rest Hb Hs) as (ix' & -> & Hk & Hc & Hn & Hq).
  { eapply Forall_impl; [exact Hh|]. intros c H Hf. specialize (H Hf). apply holds_id in H. unfold TEMPORARY_ID. lia. }
  step. do 2 eexists. split; [reflexivity|]. split_and!; [done|done|]. split; cbn [set_kv buffered_fingerprints ix_kv buffer_chunk_num]; [|by destruct Hb as [_ [_ ?]%Forall_app _]|done].
  intros fp. rewrite Hq. pose proof (bi_queue _ _ _ Hb fp) as Hqi. rewrite with_fp_app in Hqi. pose proof (with_fp_same fp _ _ Hs) as Hw.
  destruct (with_fp fp (normals cs)) as [|c d] eqn:Ed using rev_ind.
  - apply Forall2_nil_inv_r in Hw. rewrite Hw in Hqi. cbn [app] in Hqi. cbn. specialize (Hfr fp Ed).
    destruct (with_fp fp rest) as [|r rs]; [done|]. destruct Hqi as (id & ids & -> & Hl & Hi & Hd & Hhd). exists id, ids. split_and!; try done.
    destruct (is_dup r); [done|]. destruct Hhd. by split; [|apply Hfr].
  - apply Forall2_length in Hw. unfold popped. rewrite last_snoc. pose proof (queue_length _ _ _ _ _ Hqi) as Hl.
    rewrite length_app in Hl. assert (Hck : holds (ck_id c) fp).
    { assert (Hin : c ∈ with_fp fp (normals cs)) by (rewrite Ed; set_solver). apply elem_with_fp in Hin as (Hin & Hf & <-).
      rewrite Forall_forall in Hh. by apply Hh. }
    destruct (drop _ _) as [|i ids] eqn:Edr; apply (f_equal length) in Edr; rewrite length_drop in Edr; cbn [length] in Edr.
    + destruct (with_fp fp rest) as [|r rs]; [done|]. cbn in Hl. lia.
    + destruct (with_fp fp rest) as [|r rs] eqn:Er; [cbn in Hl; lia|]. cbn [length] in Hl.
      assert (Hdup : Forall (fun c => is_dup c = true) (r :: rs)).
      { destruct (with_fp fp (normals cs0)) as [|c0 d0]; [rewrite length_app in Hw; cbn in Hw; lia|]. destruct Hqi as (_ & _ & _ & _ & _ & Hd & _).
        by apply Forall_app in Hd as [_ ?]. }
      exists (ck_id c), (map (fun _ => ck_id c) ids). cbn [map]. apply Forall_cons in Hdup as [Hr Hrs]. rewrite Hr. split_and!; try done.
      * rewrite length_map. lia.
      * constructor; [by right|]. apply Forall_map, Forall_forall. intros. by right.
      * pose proof (holds_id _ _ Hck). unfold TEMPORARY_ID. lia.
Qed.

(** The store has no part in it. *)
Lemma update_buffered_kv kv cs : forall ix, foldM update_buffered (set_kv ix kv) cs = (fun ix' => set_kv ix' kv) <$> foldM update_buffered ix cs.
Proof using.
  induction cs as [|c cs IH]; intros ix; [done|]. cbn [foldM].
  assert (update_buffered (set_kv ix kv) c = (fun ix' => set_kv ix' kv) <$> update_buffered ix c) as ->.
  { unfold update_buffered. destruct (is_file_flag c); [done|]. destruct (c_assert _); [|done]. cbn [mbind res_bind set_kv buffered_fingerprints].
    by destruct (buffered_fingerprints ix !! ck_fp c). }
  destruct (update_buffered ix c); [cbn; apply IH|done].
Qed.

Lemma index_update_buffer_kv wait_threshold ix kv cs full ix' : index_update_buffer wait_threshold (set_kv ix kv) cs = Ok (full, ix') ->
  exists ix1, index_update_buffer wait_threshold ix cs = Ok (full, ix1) /\ ix' = set_kv ix1 kv /\ ix_kv ix1 = ix_kv ix.
Proof using.
  unfold index_update_buffer. rewrite update_buffered_kv. pose proof (update_buffered_kv (ix_kv ix) cs ix) as E.
  replace (set_kv ix (ix_kv ix)) with ix in E by by destruct ix. destruct (foldM update_buffered ix cs) as [ix1|]; [|done].
  cbn. intros [= <- <-]. exists ix1. cbn in E. injection E as E. split_and!; [done|done|]. by rewrite E.
Qed.

(** ** The key-value store *)

Context (length_pos : 0 < value_length cfg).

Lemma key_pos : 0 <= kv_key_size (kv_of_config cfg).
Proof using key_fits. cbn. lia. Qed.

Lemma features_iter_spec (F : gset (list Z)) : NoDup (features_iter F) /\ forall k, k ∈ features_iter F <-> k ∈ F.
Proof using HFO.
  clear PU exact_key SSO HSO holds wok.
  unfold features_iter. split; [apply hash_iter_NoDup|]. intros k. rewrite list_elem_of_fmap. split.
  - intros ([k' []] & -> & Hin). apply hash_iter_elem in Hin. by apply lookup_gset_to_gmap_Some in Hin as [? _].
  - intros Hk. exists (k, tt). split; [done|]. apply hash_iter_elem, lookup_gset_to_gmap_Some. done.
Qed.

(** A unit the store does not know is added to the keys of its features. *)
Lemma index_update_ok ix F id : kv_ok cfg prefetchable unit_has (ix_kv ix) -> id <> TEMPORARY_ID -> ~ prefetchable id ->
  (forall k, k ∈ F -> zlen k = key_size cfg) -> (exact cfg -> forall k, k ∈ F -> unit_has id k) ->
  exists ix', index_update cfg ix F id = Ok ix' /\ kv_ok cfg (fun i => prefetchable i \/ i = id) unit_has (ix_kv ix') /\
    buffered_fingerprints ix' = buffered_fingerprints ix /\ buffer_chunk_num ix' = buffer_chunk_num ix /\ ix_cache ix' = ix_cache ix /\
    (forall k, k ∉ F -> ix_kv ix' !! k = ix_kv ix !! k) /\ (forall k, k ∈ F -> is_Some (ix_kv ix' !! k)).
Proof using HFO key_fits length_pos.
  clear PU exact_key SSO HSO holds wok.
  intros (am & Hr & Hks & Hp & Hx) Hid Hnew Hwf Hux. destruct (features_iter_spec F) as [Hnd Hel]. unfold index_update.
  destruct (foldM_steps (index_update_one cfg id) (fun ix' pre =>
      (exists am', represents (kv_of_config cfg) (ix_kv ix') am' /\ (forall k, k ∉ pre -> am' !! k = am !! k) /\
        forall k : list Z, k ∈ pre -> exists l, am' !! k = Some l /\ (forall i, i ∈ l -> i = id \/ prefetchable i /\ (exact cfg -> unit_has i k))) /\
      buffered_fingerprints ix' = buffered_fingerprints ix /\ buffer_chunk_num ix' = buffer_chunk_num ix /\ ix_cache ix' = ix_cache ix)
    (features_iter F) ix) as (ix' & E & (am' & Hr' & Hout & Hin) & H1 & H2 & H3).
  - intros ix1 pre k post Epre ((am1 & Hr1 & Hout & Hin) & H1 & H2 & H3). rewrite Epre in Hnd.
    apply NoDup_app in Hnd as (_ & Hdis & Hnd). assert (Hk : k ∉ pre) by (intros Hk; apply (Hdis k Hk); set_solver).
    assert (HkF : k ∈ F) by (apply Hel; rewrite Epre; set_solver).
    destruct (update_represents (kv_of_config cfg) length_pos key_pos (ix_kv ix1) am1 k id Hr1) as (kv' & Ekv & Hr2).
    { split_and!; [by apply Hwf|done|]. rewrite (Hout k Hk). destruct (am !! k) as [l|] eqn:El; cbn; [|set_solver].
      intros Hin'. specialize (Hp k l El). rewrite Forall_forall in Hp. by apply Hnew, Hp. }
    unfold index_update_one. change (ix_kv (count_update ix1)) with (ix_kv ix1). rewrite Ekv. step. eexists. split; [reflexivity|].
    cbn [set_kv count_update set_overhead ix_kv buffered_fingerprints buffer_chunk_num ix_cache]. split_and!; [|done..].
    eexists. split; [exact Hr2|]. cbn [kv_spec]. split.
    + intros k' Hk'. rewrite lookup_insert_ne by set_solver. apply Hout. set_solver.
    + intros k' [Hk'|Hk'%list_elem_of_singleton]%elem_of_app.
      * rewrite lookup_insert_ne by (by intros ->). by apply Hin.
      * subst k'. rewrite lookup_insert_eq. eexists. split; [reflexivity|]. intros i (j & Hi & _)%elem_of_take.
        apply list_elem_of_lookup_2, elem_of_cons in Hi as [->|Hi]; [by left|right]. rewrite (Hout k Hk) in Hi.
        destruct (am !! k) as [l|] eqn:El; cbn in Hi; [|by apply elem_of_nil in Hi].
        specialize (Hp k l El). rewrite Forall_forall in Hp. split; [by apply Hp|]. intros HE. specialize (Hx HE k l El). rewrite Forall_forall in Hx. by apply Hx.
  - split_and!; [|done..]. exists am. split_and!; [done|done|]. intros k []%elem_of_nil.
  - exists ix'. split_and!; try done.
    + exists am'. split_and!; [done|intros k l El|intros k l El|intros HE k l El].
      * destruct (decide (k ∈ features_iter F)) as [Hk|Hk]; [apply Hwf; by apply Hel|]. rewrite (Hout k Hk) in El. by eapply Hks.
      * apply Forall_forall. intros i Hi. destruct (decide (k ∈ features_iter F)) as [Hk|Hk].
        -- destruct (Hin k Hk) as (l' & El' & Hl'). assert (l' = l) as -> by congruence. destruct (Hl' i Hi) as [->|[? _]]; [by right|by left].
        -- rewrite (Hout k Hk) in El. specialize (Hp k l El). rewrite Forall_forall in Hp. left. by apply Hp.
      * apply Forall_forall. intros i Hi. destruct (decide (k ∈ features_iter F)) as [Hk|Hk].
        -- destruct (Hin k Hk) as (l' & El' & Hl'). assert (l' = l) as -> by congruence.
           destruct (Hl' i Hi) as [->|[_ Hu]]; [apply Hux; [done|by apply Hel]|by apply Hu].
        -- rewrite (Hout k Hk) in El. specialize (Hx HE k l El). rewrite Forall_forall in Hx. by apply Hx.
    + intros k Hk. destruct Hr as [Hr _], Hr' as [Hr' _]. rewrite Hr, Hr'. f_equal. apply Hout. by rewrite Hel.
    + intros k Hk. apply Hel in Hk. destruct (Hin k Hk) as (l & El & _). destruct Hr' as [Hr' _]. rewrite Hr', El. by eexists.
Qed.

(** ** Similarity detection *)

(** The candidates: every key is a unit that can be prefetched. *)
Lemma add_similar_ok feature ids : forall n similar (seen : gset (list Z)) used,
  (n <= length (ids ++ replicate n TEMPORARY_ID))%nat ->
  NoDup (used ++ ids) -> Forall prefetchable ids ->
  (forall id F, similar !! id = Some F -> prefetchable id /\ F ⊆ {[feature]} ∪ seen /\ (id ∉ used -> F ⊆ seen)) -> feature ∉ seen ->
  exists similar', add_similar similar feature (ids ++ replicate (n - length ids) TEMPORARY_ID) n = Ok similar' /\
    forall id F, similar' !! id = Some F -> prefetchable id /\ F ⊆ {[feature]} ∪ seen.
Proof.
  induction ids as [|id ids IH]; intros n similar seen used Hn Hnd Hp Hsim Hf.
  - exists similar. rewrite Nat.sub_0_r. cbn [app]. split; [|intros i F H; by destruct (Hsim i F H) as (?&?&_)].
    by destruct n.
  - destruct n as [|n]; [exists similar; split; [done|intros i F H; by destruct (Hsim i F H) as (?&?&_)]|].
    apply Forall_cons in Hp as [Hid Hp]. cbn [app add_similar length Nat.sub].
    rewrite (proj2 (Z.eqb_neq _ _) (prefetchable_id _ Hid)).
    assert (Hu : id ∉ used) by (intros Hu; apply NoDup_app in Hnd as (_ & H & _); apply (H id Hu); set_solver).
    rewrite bool_decide_false; cycle 1.
    { destruct (similar !! id) as [F|] eqn:E; cbn; [|set_solver]. destruct (Hsim id F E) as (_ & _ & Hs). specialize (Hs Hu). set_solver. }
    cbn [negb c_assert]. step. apply (IH n _ seen (used ++ [id])); [rewrite length_app, length_replicate; lia|by rewrite <- app_assoc|done| |done].
    intros i F. rewrite lookup_insert_Some. intros [[<- <-]|[Hne Hi]].
    + split; [done|]. split; [|intros Hni; set_solver]. destruct (similar !! id) as [F|] eqn:E; cbn; [|set_solver].
      destruct (Hsim id F E) as (_ & Hs & _). set_solver.
    + destruct (Hsim i F Hi) as (? & ? & Hs). split_and!; try done. intros Hni. apply Hs. set_solver.
Qed.

Lemma similar_loop ix F : kv_ok cfg prefetchable unit_has (ix_kv ix) -> (forall k, k ∈ F -> zlen k = key_size cfg) ->
  exists ix' similar, foldM (similar_step cfg) (ix, ∅) (features_iter F) = Ok (ix', similar) /\
    same_tables ix ix' /\ ix_cache ix' = ix_cache ix /\ forall id G, similar !! id = Some G -> prefetchable id.
Proof.
  intros Hkv Hwf. destruct (features_iter_spec F) as [Hnd Hel].
  destruct (foldM_steps (similar_step cfg) (fun s pre => same_tables ix s.1 /\ ix_cache s.1 = ix_cache ix /\
      forall id G, s.2 !! id = Some G -> prefetchable id /\ G ⊆ list_to_set pre) (features_iter F) (ix, ∅)) as ([ix' similar] & E & Ht & Hc & H).
  - intros [ix1 sim] pre k post Epre (Ht & Hc & Hs). cbn [fst snd] in *. unfold similar_step. rewrite Epre in Hnd.
    assert (HkF : k ∈ F) by (apply Hel; rewrite Epre; set_solver). apply NoDup_app in Hnd as (_ & Hdis & _).
    assert (Hk : k ∉ pre) by (intros Hk; apply (Hdis k Hk); set_solver).
    assert (Elk : kvstore_htable_lookup (kv_of_config cfg) (ix_kv ix1) k = Ok (ix_kv ix !! k)).
    { unfold kvstore_htable_lookup. rewrite get_key_ok by (first [exact key_pos|by apply Hwf]). step. destruct Ht as (_ & _ & ->). done. }
    rewrite Elk. step. destruct (ix_kv ix !! k) as [v|] eqn:Ev.
    + destruct Hkv as (am & [Hr Hq] & _ & Hp & _). rewrite Hr in Ev. apply fmap_Some in Ev as (l & El & ->).
      destruct (Hq k l El) as (_ & Hnl & _ & Hlen). unfold pad.
      destruct (add_similar_ok k l (Z.to_nat (value_length cfg)) sim (list_to_set pre) []) as (sim' & Es & Hs').
      * rewrite length_app, length_replicate. lia.
      * done.
      * by apply (Hp k).
      * intros i G HG. destruct (Hs i G HG). split_and!; [done|set_solver|done].
      * by rewrite elem_of_list_to_set.
      * cbn [index_value_length kv_of_config] in *. rewrite Es. step. eexists. split; [reflexivity|]. cbn [fst snd]. split_and!; [by etrans|done|].
        intros i G HG. destruct (Hs' i G HG). split; [done|]. rewrite list_to_set_app_L. set_solver.
    + eexists. split; [reflexivity|]. cbn [fst snd]. split_and!; [by etrans|done|]. intros i G HG. destruct (Hs i G HG). split; [done|].
      rewrite list_to_set_app_L. set_solver.
  - split_and!; [done|done|]. cbn [snd]. intros i G. by rewrite lookup_empty.
  - exists ix', similar. split_and!; try done. intros i G HG. by destruct (H i G HG).
Qed.

Lemma prefetch_top_ok num : forall ix w seq, (num <= length seq)%nat -> Forall (fun s => prefetchable s.1) seq ->
  cache_ok (ix_cache ix) -> wok w ->
  exists ix' w', prefetch_top cfg simulation_level dir num ix w seq = Ok (ix', w') /\ same_tables ix ix' /\ cache_ok (ix_cache ix') /\ wok w'.
Proof.
  induction num as [|num IH]; intros ix w seq Hl Hp Hc Hw; [by exists ix, w|].
  destruct seq as [|top seq]; [cbn in Hl; lia|]. apply Forall_cons in Hp as [Ht Hp]. cbn [prefetch_top head deref tail]. step.
  destruct (fingerprint_cache_prefetch_ok ix w top.1 Hc Hw Ht) as (ix1 & w1 & -> & Hs1 & Hc1 & Hw1 & _). step.
  destruct (IH ix1 w1 (seq_sort g_segment_cmp_feature_num (map (features_trim top) seq))) as (ix2 & w2 & -> & Hs2 & Hc2 & Hw2); [| |done|done|].
  - rewrite seq_sort_perm, length_map. cbn in Hl. lia.
  - rewrite seq_sort_perm. apply Forall_map. eapply Forall_impl; [exact Hp|done].
  - exists ix2, w2. split_and!; try done. by etrans.
Qed.

Lemma top_segment_select_ok ix w F : kv_ok cfg prefetchable unit_has (ix_kv ix) -> (forall k, k ∈ F -> zlen k = key_size cfg) ->
  cache_ok (ix_cache ix) -> wok w ->
  exists ix' w', top_segment_select cfg simulation_level dir ix w F = Ok (ix', w') /\ same_tables ix ix' /\ cache_ok (ix_cache ix') /\ wok w'.
Proof.
  intros Hkv Hwf Hc Hw. unfold top_segment_select. destruct (similar_loop ix F Hkv Hwf) as (ix1 & sim & -> & Ht & Hc1 & Hs). step.
  set (seq := fold_left _ (hash_iter sim) []).
  assert (Hseq : seq ≡ₚ hash_iter sim).
  { unfold seq. enough (G : forall l acc, fold_left (fun seq s => insert_sorted g_segment_cmp_feature_num s seq) l acc ≡ₚ l ++ acc) by (by rewrite G, app_nil_r).
    induction l as [|x l IH]; intros acc; cbn; [done|]. rewrite IH, insert_sorted_perm. by rewrite Permutation_middle. }
  destruct (prefetch_top_ok (Z.to_nat (if selection_1 cfg <? zlen seq then selection_1 cfg else zlen seq)) ix1 w seq) as (ix2 & w2 & -> & Ht2 & Hc2 & Hw2).
  - destruct (Z.ltb_spec (selection_1 cfg) (zlen seq)); unfold zlen in *; lia.
  - rewrite Hseq. apply Forall_forall. intros [i G] Hin. apply hash_iter_elem in Hin. by eapply Hs.
  - by rewrite Hc1.
  - done.
  - exists ix2, w2. split_and!; try done. by etrans.
Qed.

(** ** A segment is looked up *)

Context `{SFO : !SeqSortOk fingerprint} `{SAO : !SeqSortOk (fingerprint * fingerprint)}.

(** A segment as the segmenting method hands it over. *)
Record new_segment_ok (s : segment) : Prop := {
  ns_chunks : new_chunks (seg_chunks s);
  ns_fps : Forall (fun c => fp_wf (ck_fp c)) (seg_chunks s);
  ns_num : seg_chunks s = [] -> seg_chunk_num s = 0;
}.

(** The sampling method exists and has the ratio it needs. *)
Definition sampling_ok : Prop := (exists f, init_sampling_method (sampling_of cfg) = Ok f) /\ ratio_ok (sampling_of cfg).

Lemma sampling_features cs n : sampling_ok -> Forall (fun c => fp_wf (ck_fp c)) cs -> (cs = [] -> n = 0) ->
  exists f F, init_sampling_method (sampling_of cfg) = Ok f /\ f cs n = Ok F /\ forall k, k ∈ F -> zlen k = key_size cfg.
Proof using key_fits SFO SAO.
  clear PU exact_key SSO HSO holds wok.
  intros [[f Hf] Hr] Hfp Hn. destruct (sampling_total (sampling_of cfg) ltac:(cbn; lia) f cs n Hf Hr Hfp Hn) as (F & E & Hwf).
  by exists f, F.
Qed.

(** What a lookup leaves. *)
Definition looked (cb : option container) ix (flight : list chunk) (cs : list chunk) (r : index * world * list chunk) : Prop :=
  let '(ix', w', cs') := r in
  buffer_inv cb ix' (flight ++ normals cs') /\ cache_ok (ix_cache ix') /\ ix_kv ix' = ix_kv ix /\ wok w' /\ Forall2 same_chunk cs cs'.

Lemma lookup_similarity_ok cb ix w s F flight : category_1 cfg = INDEX_CATEGORY_LOGICAL_LOCALITY ->
  (forall con, cb = Some con -> meta_unit holds (c_meta con)) ->
  buffer_inv cb ix flight -> cache_ok (ix_cache ix) -> kv_ok cfg prefetchable unit_has (ix_kv ix) -> wok w ->
  new_chunks (seg_chunks s) -> (forall k, k ∈ F -> zlen k = key_size cfg) ->
  exists r, index_lookup_similarity_detection cfg simulation_level dir cb ix w (set_features s F) = Ok r /\ looked cb ix flight (seg_chunks s) r.
Proof.
  intros El Hcb Hb Hc Hk Hw Hn Hwf. unfold index_lookup_similarity_detection. cbn [set_features seg_features seg_chunks]. step.
  destruct (top_segment_select_ok ix w F Hk Hwf Hc Hw) as (ix1 & w1 & -> & (Tb & Tn & Tk) & Hc1 & Hw1). step.
  assert (Hb1 : buffer_inv cb ix1 flight) by (destruct Hb as [Bq Bc Bn]; split; [by rewrite Tb, Tk|done|by rewrite Tn]).
  destruct (lookup_chunks_ok ((category_0 cfg =? INDEX_CATEGORY_EXACT) || (selection_0 cfg =? INDEX_SEGMENT_SELECT_MIX)) cb ix1 w1 (seg_chunks s) flight)
    as (ix2 & w2 & cs & -> & Hb2 & Hc2 & Hk2 & Hw2 & Hs2); [intros [_ Ep]; by rewrite El in Ep|done|done|done|by rewrite Tk|done|done|].
  eexists. split; [reflexivity|]. split_and!; try done. congruence.
Qed.

Lemma index_lookup_ok wait_threshold cb ix w s flight :
  sampling_ok -> (forall con, cb = Some con -> meta_unit holds (c_meta con)) ->
  buffer_inv cb ix flight -> cache_ok (ix_cache ix) -> kv_ok cfg prefetchable unit_has (ix_kv ix) -> wok w -> new_segment_ok s ->
  exists r, index_lookup cfg simulation_level dir wait_threshold cb ix w s = Ok r /\
    match r with
    | None => 0 < wait_threshold <= buffer_chunk_num ix
    | Some (ix', w', s') => looked cb ix flight (seg_chunks s) (ix', w', seg_chunks s') /\ seg_chunk_num s' = seg_chunk_num s
    end.
Proof.
  intros Hsa Hcb Hb Hc Hk Hw [Hn Hfp Hnum]. unfold index_lookup.
  destruct ((0 <? wait_threshold) && _) eqn:Hfull; [exists None; split; [done|lia]|]. clear Hfull.
  destruct (Z.eqb_spec (category_1 cfg) INDEX_CATEGORY_LOGICAL_LOCALITY) as [El|El]; cbn [andb];
    [destruct (negb (selection_0 cfg =? INDEX_SEGMENT_SELECT_BASE))|].
  - destruct (sampling_features (seg_chunks s) (seg_chunk_num s) Hsa Hfp Hnum) as (f & F & -> & Ef & Hwf). step. rewrite Ef. step.
    destruct (lookup_similarity_ok cb ix w s F flight El) as ([[ix2 w2] cs] & -> & H2); [done..|]. step. step. by eexists.
  - destruct (lookup_chunks_ok true cb ix w (seg_chunks s) flight) as (ix2 & w2 & cs & E & H2); [done..|].
    unfold index_lookup_base. rewrite E. step. step. by eexists.
  - destruct (lookup_chunks_ok true cb ix w (seg_chunks s) flight) as (ix2 & w2 & cs & E & H2); [done..|].
    unfold index_lookup_base. rewrite E. step. step. by eexists.
Qed.
End IndexInv.
