(* ===== verification/Filter.v ===== *)
(** The filter phase: [destor/src/filter_phase.c].

    The unique and the fragmented chunks of a segment are written to the container
    of the storage buffer, the recipe of the segment is written and the index
    updated. The functions are those of the thread under [index_lock]. *)

From S2P Require Import Prelude Glib Destor Double LruCache Container Recipe Segmenting Sampling KvStore RestoreAware Index.

Definition REWRITE_NO := 0.

(** The fields of [destor] the phase reads. *)
Record filter_config := mk_filter_config {
  enable_cache_aware : bool;     (** [rewrite_enable_cache_aware] *)
  enable_cfl_switch : bool;      (** [rewrite_enable_cfl_switch] *)
  cfl_require : double;          (** [rewrite_cfl_require] *)
  rewrite_algorithm_0 : Z;
}.

(** The counters of [jcr]. *)
Record backup_stat := mk_bstat {
  bs_file_num : Z;
  bs_data_size : Z;
  bs_unique_data_size : Z;
  bs_chunk_num : Z;
  bs_unique_chunk_num : Z;
  bs_rewritten_chunk_num : Z;
  bs_rewritten_chunk_size : Z;
}.

Definition count_unique_chunk (s : backup_stat) (size : Z) : backup_stat :=
  mk_bstat (bs_file_num s) (bs_data_size s) (s64 (bs_unique_data_size s + size)) (bs_chunk_num s)
    (s32 (bs_unique_chunk_num s + 1)) (bs_rewritten_chunk_num s) (bs_rewritten_chunk_size s).
Definition count_rewritten_chunk (s : backup_stat) (size : Z) : backup_stat :=
  mk_bstat (bs_file_num s) (bs_data_size s) (bs_unique_data_size s) (bs_chunk_num s)
    (bs_unique_chunk_num s) (s32 (bs_rewritten_chunk_num s + 1)) (s64 (bs_rewritten_chunk_size s + size)).
Definition count_backup_chunk (s : backup_stat) (size : Z) : backup_stat :=
  mk_bstat (bs_file_num s) (s64 (bs_data_size s + size)) (bs_unique_data_size s) (s32 (bs_chunk_num s + 1))
    (bs_unique_chunk_num s) (bs_rewritten_chunk_num s) (bs_rewritten_chunk_size s).
Definition count_backup_file (s : backup_stat) : backup_stat :=
  mk_bstat (s32 (bs_file_num s + 1)) (bs_data_size s) (bs_unique_data_size s) (bs_chunk_num s)
    (bs_unique_chunk_num s) (bs_rewritten_chunk_num s) (bs_rewritten_chunk_size s).

(** The table of [har_monitor_update]: the bytes used of each container. *)
Definition har_monitor_update (m : gmap Z Z) (id size : Z) : gmap Z Z := <[id := s32 (default 0 (m !! id) + size)]> m.

Record filter_state := mk_fstate {
  f_index : index;
  f_world : world;
  f_access : Z;                          (** the static of [append_n_chunk_pointers] *)
  container_buffer : option container;   (** [storage_buffer] *)
  sb_chunks : list chunk;
  f_monitor : monitor;
  f_har : gmap Z Z;
  enable_rewrite : bool;
  f_file : option fileRecipeMeta;        (** [r] *)
  f_stat : backup_stat;
}.

(** The two tables of a segment. *)
Record recent := mk_recent { recently_unique : gmap fingerprint chunk; recently_rewritten : gmap fingerprint chunk }.

Definition set_index (s : filter_state) (ix : index) : filter_state :=
  mk_fstate ix (f_world s) (f_access s) (container_buffer s) (sb_chunks s) (f_monitor s) (f_har s) (enable_rewrite s) (f_file s) (f_stat s).
Definition set_storage (s : filter_state) (st : cstore) (cb : option container) (cs : list chunk) : filter_state :=
  mk_fstate (f_index s) (mk_world st (w_bv (f_world s)) (w_opened (f_world s))) (f_access s) cb cs (f_monitor s) (f_har s)
    (enable_rewrite s) (f_file s) (f_stat s).
Definition set_monitor (s : filter_state) (m : monitor) (h : gmap Z Z) : filter_state :=
  mk_fstate (f_index s) (f_world s) (f_access s) (container_buffer s) (sb_chunks s) m h (enable_rewrite s) (f_file s) (f_stat s).
Definition set_enable (s : filter_state) (e : bool) : filter_state :=
  mk_fstate (f_index s) (f_world s) (f_access s) (container_buffer s) (sb_chunks s) (f_monitor s) (f_har s) e (f_file s) (f_stat s).
Definition set_recipe (s : filter_state) (bv : backupVersion) (access : Z) (r : option fileRecipeMeta) (st : backup_stat) : filter_state :=
  mk_fstate (f_index s) (mk_world (w_cs (f_world s)) bv (w_opened (f_world s))) access (container_buffer s) (sb_chunks s)
    (f_monitor s) (f_har s) (enable_rewrite s) r st.
Definition set_stat (s : filter_state) (st : backup_stat) : filter_state :=
  mk_fstate (f_index s) (f_world s) (f_access s) (container_buffer s) (sb_chunks s) (f_monitor s) (f_har s) (enable_rewrite s) (f_file s) st.

Section Filter.
Context `{HC : !HashIter fingerprint metaEntry} `{HF : !HashIter (list Z) ()}.
Context `{SF : !SeqSort fingerprint} `{SA : !SeqSort (fingerprint * fingerprint)}.
Context (cfg : index_config) (fcfg : filter_config) (simulation_level wait_threshold : Z).
Implicit Types (s : filter_state).

Definition physical : bool := category_1 cfg =? INDEX_CATEGORY_PHYSICAL_LOCALITY.

(** ** Reconstructing a segment *)

(** What follows a segment's start in [rewrite_queue], up to its end. *)
Fixpoint collect_segment (q : list chunk) (seg : segment) : res (segment * list chunk) :=
  match q with
  | [] => Err ENull
  | c :: q =>
      if CHECK_CHUNK c CHUNK_SEGMENT_END then Ok (seg, q)
      else
        let seg := mk_segment (seg_id seg) (seg_chunk_num seg) (seg_chunks seg ++ [c]) (seg_features seg) in
        collect_segment q (if is_file_flag c then seg
                           else mk_segment (seg_id seg) (s32 (seg_chunk_num seg + 1)) (seg_chunks seg) (seg_features seg))
  end.

(** ** Writing a chunk *)

(** [cfl_switch]: the switch for out-of-order chunks. *)
Definition cfl_switch s : filter_state :=
  if enable_cfl_switch fcfg then
    let c := restore_aware_get_cfl (f_monitor s) in
    if enable_rewrite s && d_gt c (cfl_require fcfg) then set_enable s false
    else if negb (enable_rewrite s) && d_lt c (cfl_require fcfg) then set_enable s true
    else s
  else s.

Definition check_cached s (c : chunk) : res chunk :=
  if enable_cache_aware fcfg && restore_aware_contains (f_monitor s) (ck_id c) then
    _ ← c_assert (negb (ck_id c =? TEMPORARY_ID)); Ok (SET_CHUNK c CHUNK_IN_CACHE)
  else Ok c.

(** A copy of a chunk of this segment gets the id of that chunk. *)
Definition check_recent (r : recent) (c : chunk) : res chunk :=
  c ← (if CHECK_CHUNK c CHUNK_DUPLICATE && (ck_id c =? TEMPORARY_ID) then
         match recently_unique r !! ck_fp c with
         | None => Err EAssert
         | Some ruc => Ok (set_ck_id c (ck_id ruc))
         end
       else Ok c);
  match recently_rewritten r !! ck_fp c with
  | Some rwc => Ok (SET_CHUNK (set_ck_id c (ck_id rwc)) CHUNK_REWRITE_DENIED)
  | None => Ok c
  end.

(** Whether the chunk is to be written: unique, or fragmented and not denied. *)
Definition to_write (enable : bool) (c : chunk) : bool :=
  negb (CHECK_CHUNK c CHUNK_DUPLICATE) ||
  (negb (CHECK_CHUNK c CHUNK_REWRITE_DENIED) &&
   (CHECK_CHUNK c CHUNK_SPARSE || (enable && CHECK_CHUNK c CHUNK_OUT_OF_ORDER && negb (CHECK_CHUNK c CHUNK_IN_CACHE)))).

(** The features of the container of the storage buffer go to the index. *)
Definition update_container_features s (con : container) : res filter_state :=
  sampling ← init_sampling_method (sampling_of cfg);
  features ← sampling (sb_chunks s) (zlen (sb_chunks s));
  ix ← index_update cfg (f_index s) features (get_container_id con);
  Ok (set_index s ix).

(** A container with room for the chunk. *)
Definition make_room s (c : chunk) : res (filter_state * container) :=
  let s := match container_buffer s with
    | Some _ => s
    | None =>
        let '(con, st) := create_container simulation_level (w_cs (f_world s)) in
        set_storage s st (Some con) (if physical then [] else sb_chunks s)
    end in
  con ← deref (container_buffer s);
  if container_overflow con (ck_size c) then
    s ← (if physical then
           s ← update_container_features s con;
           Ok (set_storage s (w_cs (f_world s)) (container_buffer s) [])
         else Ok s);
    st ← write_container_async (w_cs (f_world s)) con;
    let '(con, st) := create_container simulation_level st in
    Ok (set_storage s st (Some con) (sb_chunks s), con)
  else Ok (s, con).

(** [wc] and [ck]: a chunk that carries only a fingerprint, and an id. *)
Definition fp_chunk (fp : fingerprint) (id : Z) : chunk := mk_chunk 0 CHUNK_UNIQUE id fp None.

Definition write_chunk s (r : recent) (c : chunk) : res (filter_state * recent * chunk) :=
  '(s, con) ← make_room s c;
  '(added, con, c) ← add_chunk_to_container simulation_level con c;
  let s := set_storage s (w_cs (f_world s)) (Some con) (sb_chunks s) in
  if negb (added =? 0) then
    let wc := fp_chunk (ck_fp c) (ck_id c) in
    let '(s, r) :=
      if negb (CHECK_CHUNK c CHUNK_DUPLICATE)
      then (set_stat s (count_unique_chunk (f_stat s) (ck_size c)), mk_recent (<[ck_fp c := wc]> (recently_unique r)) (recently_rewritten r))
      else (set_stat s (count_rewritten_chunk (f_stat s) (ck_size c)), mk_recent (recently_unique r) (<[ck_fp c := wc]> (recently_rewritten r))) in
    Ok (if physical then set_storage s (w_cs (f_world s)) (container_buffer s) (sb_chunks s ++ [fp_chunk (ck_fp c) TEMPORARY_ID]) else s, r, c)
  else
    _ ← c_assert (negb (category_0 cfg =? INDEX_CATEGORY_EXACT) || negb (rewrite_algorithm_0 fcfg =? REWRITE_NO));
    Ok (s, r, c).

(** A round of the loop over the chunks of a segment. *)
Definition filter_chunk (t : filter_state * recent * list chunk) (c : chunk) : res (filter_state * recent * list chunk) :=
  let '(s, r, done) := t in
  if is_file_flag c then Ok (s, r, done ++ [c]) else
  c ← check_cached s c;
  let s := cfl_switch s in
  c ← check_recent r c;
  '(s, r, c) ← (if to_write (enable_rewrite s) c then write_chunk s r c else Ok (s, r, c));
  _ ← c_assert (negb (ck_id c =? TEMPORARY_ID));
  m ← restore_aware_update (f_monitor s) (ck_id c) (ck_size c);
  Ok (set_monitor s m (har_monitor_update (f_har s) (ck_id c) (ck_size c)), r, done ++ [c]).

(** ** Writing the recipe *)

(** The name of a file is the string in the data of its first chunk. *)
Definition chunk_name (c : chunk) : res (list Z) := d ← deref (ck_data c); Ok (cstr d).

Definition recipe_chunk s (c : chunk) : res filter_state :=
  match f_file s with
  | None =>
      _ ← c_assert (CHECK_CHUNK c CHUNK_FILE_START);
      name ← chunk_name c;
      Ok (set_recipe s (w_bv (f_world s)) (f_access s) (Some (new_file_recipe_meta name)) (f_stat s))
  | Some r =>
      if negb (CHECK_CHUNK c CHUNK_FILE_END) then
        _ ← c_assert (0 <=? ck_id c);
        '(bv, access) ← append_n_chunk_pointers (w_bv (f_world s)) (f_access s) [mk_cp (ck_fp c) (ck_id c) (ck_size c)] 1;
        let r := mk_fmeta (s64 (fm_chunknum r + 1)) (s64 (fm_filesize r + ck_size c)) (fm_filename r) in
        Ok (set_recipe s bv access (Some r) (count_backup_chunk (f_stat s) (ck_size c)))
      else
        bv ← append_file_recipe_meta (w_bv (f_world s)) r;
        Ok (set_recipe s bv (f_access s) None (count_backup_file (f_stat s)))
  end.

Definition write_recipe s (seg : segment) : res (filter_state * Z) :=
  '(bv, sid) ← append_segment_flag (w_bv (f_world s)) CHUNK_SEGMENT_START (seg_chunk_num seg);
  s ← foldM recipe_chunk (set_recipe s bv (f_access s) (f_file s) (f_stat s)) (seg_chunks seg);
  '(bv, _) ← append_segment_flag (w_bv (f_world s)) CHUNK_SEGMENT_END 0;
  Ok (set_recipe s bv (f_access s) (f_file s) (f_stat s), sid).

(** The features of the segment go to the index; for exact deduplication the
    new and the rewritten fingerprints go too. *)
Definition update_segment_features s (r : recent) (seg : segment) (sid : Z) : res filter_state :=
  sampling ← init_sampling_method (sampling_of cfg);
  features ← sampling (seg_chunks seg) (seg_chunk_num seg);
  let features := if category_0 cfg =? INDEX_CATEGORY_EXACT
                  then features ∪ dom (recently_unique r) ∪ dom (recently_rewritten r) else features in
  ix ← index_update cfg (f_index s) features sid;
  Ok (set_index s ix).

(** ** A segment *)

(** The flag tells that the index buffer is still full. *)
Definition filter_segment s (seg : segment) : res (filter_state * bool) :=
  cs ← index_check_buffer (f_index s) (seg_chunks seg);
  '(s, r, cs) ← foldM filter_chunk (s, mk_recent ∅ ∅, []) cs;
  let seg := set_seg_chunks seg cs in
  '(full, ix) ← index_update_buffer wait_threshold (f_index s) cs;
  '(s, sid) ← write_recipe (set_index s ix) seg;
  s ← (if category_1 cfg =? INDEX_CATEGORY_LOGICAL_LOCALITY then update_segment_features s r seg sid else Ok s);
  Ok (s, full).

(** The thread over what it takes from [rewrite_queue]; it ends at the NULL
    after the last segment. *)
Fixpoint filter_segments (fuel : nat) s (q : list chunk) : res filter_state :=
  match fuel with
  | O => Err EFuel
  | S fuel =>
      match q with
      | [] => Ok s
      | c :: q =>
          _ ← c_assert (CHECK_CHUNK c CHUNK_SEGMENT_START);
          '(seg, q) ← collect_segment q new_segment;
          '(s, _) ← filter_segment s seg;
          filter_segments fuel s q
      end
  end.

(** The last container is handed over. *)
Definition filter_finish s : res filter_state :=
  match container_buffer s with
  | None => Ok s
  | Some con =>
      if container_empty con then Ok s else
      s ← (if physical then update_container_features s con else Ok s);
      st ← write_container_async (w_cs (f_world s)) con;
      Ok (set_storage s st (Some con) (sb_chunks s))
  end.

Definition filter_thread (fuel : nat) s (rewrite_queue : list chunk) : res filter_state :=
  s ← filter_segments fuel s rewrite_queue; filter_finish s.

(** [start_filter_phase], over what the other modules left. *)
Definition start_filter_phase (ix : index) (w : world) (access restore_cache_size : Z) : filter_state :=
  mk_fstate ix w access None [] (init_restore_aware restore_cache_size) ∅ true None (mk_bstat 0 0 0 0 0 0 0).
End Filter.
