(* ===== verification/FilterInv.v ===== *)
(** The invariants of a running backup and what the filter phase ([Filter]) keeps
    of them.

    [log] are the containers handed over for writing so far, by id, those of
    earlier backups included; [versions] are the segments of the recipes by
    version number, the one being written included. *)

From S2P Require Import Prelude CFile Glib Destor Double LruCache Container Recipe Segmenting Sampling KvStore RestoreAware Index IndexInv Filter.

Section FilterInv.
Context `{HC : !HashIter fingerprint metaEntry} `{HF : !HashIter (list Z) ()} `{HS : !HashIter Z (gset (list Z))}.
Context `{SF : !SeqSort fingerprint} `{SA : !SeqSort (fingerprint * fingerprint)} `{SS : !SeqSort (Z * gset (list Z))}.
Context `{HCO : !HashIterOk fingerprint metaEntry} `{HFO : !HashIterOk (list Z) ()} `{HSO : !HashIterOk Z (gset (list Z))}.
Context `{SFO : !SeqSortOk fingerprint} `{SAO : !SeqSortOk (fingerprint * fingerprint)} `{SSO : !SeqSortOk (Z * gset (list Z))}.
Context (cfg : index_config) (fcfg : filter_config) (simulation_level wait_threshold : Z) (dir : gmap Z version_files).

(** The configuration, as [init_index_config] leaves it. *)
Record config_ok : Prop := {
  co_key : 0 < key_size cfg <= fp_size;
  co_category : category_1 cfg = INDEX_CATEGORY_PHYSICAL_LOCALITY \/ category_1 cfg = INDEX_CATEGORY_LOGICAL_LOCALITY;
  co_exact : exact cfg -> sampling_0 cfg = INDEX_SAMPLING_UNIFORM /\ sampling_1 cfg = 1;
  co_exact_key : category_0 cfg = INDEX_CATEGORY_EXACT -> key_size cfg = fp_size;
  co_sampling : sampling_ok cfg;
  co_length : 0 < value_length cfg;
}.
Context (CO : config_ok).

(** The bytes of every fingerprint: chunks with the same fingerprint have the
    same bytes. *)
Context (content : fingerprint -> list Z).

(** ** What is stored where *)

Implicit Types (log : gmap Z container) (cb : option container) (versions : gmap Z (list (list chunkPointer))).

Definition holds log cb (id : Z) (fp : fingerprint) : Prop :=
  0 <= id /\ exists con, cm_id (c_meta con) = id /\ is_Some (cm_map (c_meta con) !! fp) /\ (log !! id = Some con \/ cb = Some con).

Definition unit_has log (id : Z) (fp : fingerprint) : Prop := exists con, log !! id = Some con /\ is_Some (cm_map (c_meta con) !! fp).

(** [id] is the id of a segment of a recipe. *)
Definition seg_at versions (id : Z) : Prop :=
  exists num segs1 cps segs2, versions !! num = Some (segs1 ++ cps :: segs2) /\ 0 <= num < 2 ^ 15 /\
    zlen (segs_bytes segs1) < 2 ^ 32 /\ zlen cps < 65536 /\ id = make_segment_id num (zlen (segs_bytes segs1)) (zlen cps).

Definition prefetchable versions log (id : Z) : Prop :=
  if physical cfg then 0 <= id /\ is_Some (log !! id) else seg_at versions id.

(** A chunk pointer of a recipe: its container holds the fingerprint, and its
    size is that of the bytes. *)
Definition pointer_ok log cb (cp : chunkPointer) : Prop :=
  holds log cb (cp_id cp) (cp_fp cp) /\ (simulation_level < SIMULATION_APPEND -> cp_size cp = zlen (content (cp_fp cp))).

Definition pointers_hold log cb (cps : list chunkPointer) : Prop := Forall (pointer_ok log cb) cps.

Definition versions_ok versions log cb : Prop :=
  forall num segs, versions !! num = Some segs -> 0 <= num < 2 ^ 15 /\ Forall seg_ok segs /\
    zlen (segs_bytes segs) < 2 ^ 32 /\ pointers_hold log cb (concat segs).

(** The version being written. *)
Definition current_ok versions (bv : backupVersion) (o : opened) : Prop :=
  opened_wf bv o /\ exists segs files chunks path meta records, versions !! bv_num bv = Some segs /\
    wstate bv (bv_num bv) files chunks path meta (segs_bytes segs) records.

(** The stores agree with the ghosts. *)
Definition wok versions log cb (written : bool) (w : world) : Prop :=
  sys_inv simulation_level (mk_sys (w_cs w) cb written log) /\
  (forall num segs, versions !! num = Some segs -> recipe_of dir (w_bv w) (w_opened w) num (segs_bytes segs)) /\
  current_ok versions (w_bv w) (w_opened w).

Lemma wstate_pos b f num files chunks path meta recipe records : fdata f = fdata (recipe_fp b) ->
  wstate b num files chunks path meta recipe records -> wstate (bv_set_recipe b f) num files chunks path meta recipe records.
Proof. intros E []. split; try done. cbn. congruence. Qed.

(** The versions differ in the position of the recipe file only. *)
Definition same_version (b b' : backupVersion) : Prop := exists f, b' = bv_set_recipe b f /\ fdata f = fdata (recipe_fp b).

Lemma same_version_refl b : same_version b b.
Proof. exists (recipe_fp b). split; [by destruct b|done]. Qed.

Lemma same_version_wstate b b' num files chunks path meta recipe records : same_version b b' ->
  wstate b num files chunks path meta recipe records -> wstate b' num files chunks path meta recipe records.
Proof. intros (f & -> & E). by apply wstate_pos. Qed.

Lemma segs_bytes_app l1 l2 : segs_bytes (l1 ++ l2) = segs_bytes l1 ++ segs_bytes l2.
Proof. unfold segs_bytes. by rewrite map_app, concat_app. Qed.

Lemma physical_true : physical cfg = true <-> category_1 cfg = INDEX_CATEGORY_PHYSICAL_LOCALITY.
Proof. unfold physical. apply Z.eqb_eq. Qed.

Lemma logical_not_physical : category_1 cfg = INDEX_CATEGORY_LOGICAL_LOCALITY -> physical cfg = false.
Proof. intros E. unfold physical. by rewrite E. Qed.

(** The stores provide what the index needs of them. *)
Lemma prefetch_units versions log cb written b0 k0 : versions_ok versions log cb ->
  PrefetchUnits cfg simulation_level dir (holds log cb) (fun w => wok versions log cb written w /\ same_version b0 (w_bv w) /\ container_count (w_cs w) = k0)
    (prefetchable versions log) (unit_has log).
Proof.
  intros HV. split.
  - intros id fp [? _]. done.
  - intros id. unfold prefetchable. destruct (physical cfg); [intros [? _]; unfold TEMPORARY_ID; lia|].
    intros (num & segs1 & cps & segs2 & _ & Hn & Ho & Hc & ->). pose proof (zlen_nonneg (segs_bytes segs1)). pose proof (zlen_nonneg cps).
    rewrite make_segment_id_value by lia. unfold TEMPORARY_ID. lia.
  - intros w id Hphys ((Hs & Hr & Hcur) & Hbn) Hid. unfold prefetchable in Hid. apply physical_true in Hphys. rewrite Hphys in Hid.
    destruct Hid as (Hge & con & Hcon). destruct (sys_inv_meta _ _ _ _ Hs Hcon) as (st' & E). cbn in E.
    destruct (si_log _ _ Hs _ _ Hcon) as (_ & _ & Hid & _).
    exists (c_meta con), st'. split; [done|]. split; [|split].
    + split; [|cbn; by rewrite (retrieve_meta_count _ _ _ _ _ E)]. split; [|by split]. eapply (sys_step_inv _ _ _ Hs). by eapply sys_retrieve.
    + intros fp Hfp. split; [lia|]. exists con. rewrite Hid. split_and!; [done|done|by left].
    + intros fp (con' & Hcon' & Hfp). assert (con' = con) as -> by congruence. done.
  - intros w id Hlog ((Hs & Hr & Hcur) & Hbn) Hid. unfold prefetchable in Hid. rewrite (logical_not_physical Hlog) in Hid.
    destruct Hid as (num & segs1 & cps & segs2 & HVn & Hn & Ho & Hc & ->). destruct (HV _ _ HVn) as (_ & Hok & _ & Hp).
    destruct (prefetch_segments_at dir (w_bv w) (w_opened w) num segs1 cps segs2 (segment_prefech cfg) Hok Hn Ho (Hr _ _ HVn))
      as (f & o' & E & Hf & Hop & Hrec).
    do 3 eexists. split; [exact E|]. split; [split; [split; [exact Hs|split]|split; [|apply Hbn]]|].
    + intros n segs HVs. apply Hrec. by apply Hr.
    + destruct Hcur as (Hwf & segs & files & chunks & path & meta & records & Hv & Hw). split; [by apply Hop|].
      exists segs, files, chunks, path, meta, records. split; [exact Hv|]. cbn [w_bv]. by apply wstate_pos.
    + destruct Hbn as ((f0 & Eb & E0) & _). exists f. cbn [w_bv]. rewrite Hf, Eb. by split.
    + apply Forall_take, Forall_forall. intros sr Hsr. destruct (seg_recipes_elem _ _ _ _ Hsr) as (off' & cps' & Hin & ->).
      intros fp cp Hcp. cbn in Hcp. destruct (kv_of_elem _ _ _ _ Hcp) as [[Hcin <-]|Hl]; [|by rewrite lookup_empty in Hl].
      unfold pointers_hold in Hp. rewrite Forall_forall in Hp. apply (Hp cp). apply list_elem_of_In, in_concat. exists cps'. split.
      * apply list_elem_of_In. rewrite elem_of_app. by right.
      * by apply list_elem_of_In.
Qed.

(** ** The invariant of the filter phase *)

(** A chunk that fits a container, with its bytes. *)
Definition data_ok (c : chunk) : Prop :=
  zlen (ck_fp c) = fp_size /\ fp_wf (ck_fp c) /\ 0 <= ck_size c <= CONTAINER_SIZE - CONTAINER_META_SIZE /\
  (simulation_level < SIMULATION_APPEND -> chunk_bytes c (ck_size c) = Ok (content (ck_fp c))).

(** A container holds the bytes of its fingerprints. *)
Definition container_data (con : container) : Prop :=
  simulation_level < SIMULATION_APPEND -> forall fp, is_Some (cm_map (c_meta con) !! fp) -> chunk_in con fp (content fp).

(** The chunks of the storage buffer are those of the open container. *)
Definition buffer_matches (con : container) (cs : list chunk) : Prop :=
  Forall (fun c => fp_wf (ck_fp c)) cs /\ forall fp, is_Some (cm_map (c_meta con) !! fp) <-> fp ∈ map ck_fp cs.

Record finv versions log (written : bool) (s : filter_state) : Prop := {
  fi_wok : wok versions log (container_buffer s) written (f_world s);
  fi_versions : versions_ok versions log (container_buffer s);
  fi_monitor : monitor_ok (f_monitor s);
  fi_kv : kv_ok cfg (prefetchable versions log) (unit_has log) (ix_kv (f_index s));
  fi_cache : cache_ok cfg (holds log (container_buffer s)) (ix_cache (f_index s));
  fi_open con : container_buffer s = Some con -> cm_chunk_num (c_meta con) = 0 -> cm_data_size (c_meta con) = 0;
  fi_sb con : physical cfg = true -> container_buffer s = Some con -> buffer_matches con (sb_chunks s);
  fi_data con : (exists id, log !! id = Some con) \/ container_buffer s = Some con -> container_data con;
  fi_complete : exact cfg -> forall id con fp, log !! id = Some con -> is_Some (cm_map (c_meta con) !! fp) -> is_Some (ix_kv (f_index s) !! fp);
  fi_unique : exact cfg -> rewrite_algorithm_0 fcfg = REWRITE_NO -> forall id1 id2 fp,
    holds log (container_buffer s) id1 fp -> holds log (container_buffer s) id2 fp -> id1 = id2;
}.

(** What a step of the phase may change of the stores: nothing stored is lost. *)
Definition holds_mono log cb log' cb' : Prop := forall id fp, holds log cb id fp -> holds log' cb' id fp.

Lemma pointers_hold_mono log cb log' cb' cps : holds_mono log cb log' cb' -> pointers_hold log cb cps -> pointers_hold log' cb' cps.
Proof. intros Hm H. eapply Forall_impl; [exact H|]. intros cp [Hh Hsz]. split; [by apply Hm|done]. Qed.

Lemma versions_ok_mono versions log cb log' cb' : holds_mono log cb log' cb' -> versions_ok versions log cb -> versions_ok versions log' cb'.
Proof. intros Hm HV num segs E. destruct (HV num segs E) as (Hn & Ho & Hl & Hp).
  split; [done|]. split; [done|]. split; [done|]. by eapply pointers_hold_mono.
Qed.

Lemma cache_ok_mono log cb log' cb' c : holds_mono log cb log' cb' -> cache_ok cfg (holds log cb) c -> cache_ok cfg (holds log' cb') c.
Proof.
  intros Hm. destruct c as [c|c]; intros (? & ? & ? & HP); split_and!; try done; (eapply Forall_impl; [exact HP|]).
  - intros cm Hu fp Hfp. apply Hm. by apply Hu.
  - intros sr Hu fp cp Hcp. apply Hm. by eapply Hu.
Qed.

Lemma kv_ok_mono (P P' : Z -> Prop) (U U' : Z -> fingerprint -> Prop) kv : (forall id, P id -> P' id) -> (forall id fp, U id fp -> U' id fp) ->
  kv_ok cfg P U kv -> kv_ok cfg P' U' kv.
Proof.
  intros HP HU (am & Hr & Hks & Hp & Hx). exists am. split_and!; [done|done|intros k l E|intros He k l E].
  - eapply Forall_impl; [by eapply Hp|auto].
  - eapply Forall_impl; [by eapply Hx|]. intros id. apply HU.
Qed.

(** An empty container holds nothing; a container handed over is in the log. *)
Lemma holds_empty log con id fp : cm_map (c_meta con) = ∅ -> holds log (Some con) id fp -> holds log None id fp.
Proof. intros Hm (? & c & ? & Hfp & [?|[= ->]]); [split; [done|]; exists c; auto|]. rewrite Hm, lookup_empty in Hfp. by destruct Hfp. Qed.

Lemma holds_handed log con id fp : holds (<[cm_id (c_meta con) := con]> log) None id fp -> holds log (Some con) id fp.
Proof.
  intros (? & c & ? & Hfp & [Hl|?]); [|done]. split; [done|]. exists c. split_and!; [done|done|].
  apply lookup_insert_Some in Hl as [[_ ->]|[_ Hl]]; auto.
Qed.

(** ** Containers are opened and handed over *)

(** The parts of the state that the storage buffer has nothing to do with. *)
Definition same_rest (s s' : filter_state) : Prop :=
  w_bv (f_world s') = w_bv (f_world s) /\ w_opened (f_world s') = w_opened (f_world s) /\ f_access s' = f_access s /\
  f_file s' = f_file s /\
  buffered_fingerprints (f_index s') = buffered_fingerprints (f_index s) /\ buffer_chunk_num (f_index s') = buffer_chunk_num (f_index s).

#[local] Instance same_rest_preorder : PreOrder same_rest.
Proof. split; [by intros ?|intros ? ? ? (?&?&?&?&?&?) (?&?&?&?&?&?); split_and!; congruence]. Qed.

Lemma open_container_ok versions log written s st con cs : finv versions log written s -> container_buffer s = None ->
  container_count (w_cs (f_world s)) < count_max -> create_container simulation_level (w_cs (f_world s)) = (con, st) ->
  (physical cfg = true -> cs = []) ->
  finv versions log written (set_storage s st (Some con) cs) /\ container_count st = container_count (w_cs (f_world s)) + 1 /\
  holds_mono log None log (Some con) /\ container_overflow con 0 = false /\
  cm_map (c_meta con) = ∅ /\ cm_data_size (c_meta con) = 0 /\ cm_chunk_num (c_meta con) = 0.
Proof.
  intros [[Hs Hr] HV Hm Hk Hc Ho Hsb Hd Hx Hun] Hcb Hcount Hcr Hcs. rewrite Hcb in *.
  assert (Hmono : holds_mono log None log (Some con)).
  { intros id fp [? (c & ? & ? & [?|?])]; [|done]. split; [done|]. exists c. split_and!; auto. }
  assert (Hcon : cm_map (c_meta con) = ∅ /\ cm_data_size (c_meta con) = 0 /\ cm_chunk_num (c_meta con) = 0 /\
    container_count st = container_count (w_cs (f_world s)) + 1).
  { unfold create_container in Hcr. by injection Hcr as <- <-. }
  destruct Hcon as (Hm0 & Hs0 & Hn0 & Hcnt).
  pose proof (sys_step_inv _ _ _ Hs (sys_create _ _ _ _ _ _ Hcount Hcr)) as Hs'.
  split_and!; try done.
  - split; cbn [set_storage container_buffer f_world f_monitor f_index sb_chunks]; try done.
    + by eapply versions_ok_mono.
    + by eapply cache_ok_mono.
    + intros c [= <-] _. done.
    + intros c Hp [= <-]. rewrite (Hcs Hp). split; [done|]. intros fp. rewrite Hm0, lookup_empty. split; [by intros []|by intros []%elem_of_nil].
    + intros c [[id Hl]|[= <-]]; [apply Hd; left; by exists id|]. intros _ fp. rewrite Hm0, lookup_empty. by intros [].
    + intros He Hno id1 id2 fp H1 H2. apply (Hun He Hno id1 id2 fp); eapply holds_empty; done.
  - destruct (si_open _ _ Hs' con eq_refl) as ([Hmeta _] & _). apply container_overflow_spec; [done|done|].
    rewrite Hs0, Hn0. by vm_compute.
Qed.

(** The features of the open container. *)
Lemma container_features_ok versions log written s con : finv versions log written s -> container_buffer s = Some con ->
  container_empty con = false -> physical cfg = true ->
  let log' := <[cm_id (c_meta con) := con]> log in
  exists ix', update_container_features cfg s con = Ok (set_index s ix') /\
    kv_ok cfg (prefetchable versions log') (unit_has log') (ix_kv ix') /\ ix_cache ix' = ix_cache (f_index s) /\
    buffered_fingerprints ix' = buffered_fingerprints (f_index s) /\ buffer_chunk_num ix' = buffer_chunk_num (f_index s) /\
    (exact cfg -> forall fp, is_Some (cm_map (c_meta con) !! fp) -> is_Some (ix_kv ix' !! fp)) /\
    (forall fp, is_Some (ix_kv (f_index s) !! fp) -> is_Some (ix_kv ix' !! fp)) /\
    (exact cfg -> forall fp, cm_map (c_meta con) !! fp = None -> ix_kv ix' !! fp = ix_kv (f_index s) !! fp).
Proof.
  intros [[Hs Hr] HV Hm Hk Hc Ho Hsb Hd Hx Hun] Hcb Hne Hp log'. destruct (Hsb con Hp Hcb) as [Hwf Hfps]. rewrite Hcb in *.
  destruct (si_open _ _ Hs con eq_refl) as ([Hmeta _] & Hid & Hge). cbn in Hid.
  assert (Hnew : log !! cm_id (c_meta con) = None).
  { destruct (log !! _) as [c|] eqn:E; [|done]. destruct (si_log _ _ Hs _ _ E) as (_ & _ & _ & Hlt). cbn in Hlt. lia. }
  assert (Hcs : sb_chunks s <> []).
  { intros E. unfold container_empty in Hne. rewrite (mo_num _ Hmeta) in Hne. apply Z.eqb_neq in Hne. apply Hne.
    assert (cm_map (c_meta con) = ∅) as ->; [|by rewrite map_size_empty]. apply map_empty. intros fp.
    apply eq_None_not_Some. rewrite Hfps, E. by intros []%elem_of_nil. }
  assert (HF0 : exists f F, init_sampling_method (sampling_of cfg) = Ok f /\ f (sb_chunks s) (zlen (sb_chunks s)) = Ok F /\
    (forall k, k ∈ F -> zlen k = key_size cfg) /\ (exact cfg -> F = list_to_set (map ck_fp (sb_chunks s)))).
  { destruct (decide (category_0 cfg = INDEX_CATEGORY_EXACT)) as [E0|E0].
    - destruct (co_exact CO) as [Eu Er]; [split; [done|by apply physical_true]|].
      destruct (sampling_every (sampling_of cfg) ltac:(pose proof (co_key CO); cbn; lia) (sb_chunks s) (zlen (sb_chunks s))) as (f & Hf & HE);
        [done|done|by apply (co_exact_key CO)|done|done|].
      exists f, (list_to_set (map ck_fp (sb_chunks s))). split_and!; try done. intros k Hin%elem_of_list_to_set. rewrite (co_exact_key CO E0).
      apply list_elem_of_fmap in Hin as (c & -> & Hin). rewrite Forall_forall in Hwf. by destruct (Hwf c Hin).
    - destruct (sampling_features cfg (co_key CO) (sb_chunks s) (zlen (sb_chunks s)) (co_sampling CO) Hwf) as (f & F & Hf & HE & HFl); [by intros ->|].
      exists f, F. split_and!; try done. by intros [? _]. }
  destruct HF0 as (f & F & Hf & HE & HFl & HFx). unfold update_container_features. rewrite Hf. step. rewrite HE. step.
  destruct (index_update_ok cfg (prefetchable versions log) (unit_has log') (co_key CO) (co_length CO) (f_index s) F (get_container_id con))
    as (ix' & E & Hk' & Hb1 & Hb2 & Hc' & Hout & Hin).
  - eapply kv_ok_mono; [done| |exact Hk]. intros id fp (c & Hl & Hfp). exists c. split; [|done]. unfold log'.
    rewrite lookup_insert_ne; [done|]. intros <-. congruence.
  - unfold get_container_id, TEMPORARY_ID. lia.
  - unfold prefetchable. rewrite Hp. unfold get_container_id. rewrite Hnew. by intros (_ & []).
  - done.
  - intros He k Hk'. exists con. unfold log', get_container_id. rewrite lookup_insert_eq. split; [done|]. apply Hfps. rewrite (HFx He) in Hk'. by apply elem_of_list_to_set in Hk'.
  - unfold get_container_id in *. rewrite E. step. exists ix'. split_and!; try done.
    + eapply kv_ok_mono; [| |exact Hk']; [|done]. unfold prefetchable. rewrite Hp. unfold log'. intros id [[? [c Hl]]| ->].
      * split; [done|]. destruct (decide (id = cm_id (c_meta con))) as [->|Hni]; [by rewrite lookup_insert_eq|by rewrite lookup_insert_ne, Hl].
      * split; [lia|]. by rewrite lookup_insert_eq.
    + intros He fp Hfp. apply Hin. rewrite (HFx He). apply elem_of_list_to_set. by apply Hfps.
    + intros fp Hfp. destruct (decide (fp ∈ F)); [by apply Hin|by rewrite Hout].
    + intros He fp Hfp. apply Hout. rewrite (HFx He), elem_of_list_to_set, <- Hfps. by rewrite Hfp; intros [].
Qed.

(** The open container is handed over: [s1] is the state after the update of the
    index; the buffer is then empty until the next container. *)
Lemma handover_ok versions log written s con cs : finv versions log written s -> container_buffer s = Some con -> container_empty con = false ->
  let log' := <[cm_id (c_meta con) := con]> log in
  exists ix' st', (if physical cfg then update_container_features cfg s con else Ok s) = Ok (if physical cfg then set_index s ix' else s) /\
    write_container_async (w_cs (f_world s)) con = Ok st' /\ container_count st' = container_count (w_cs (f_world s)) /\
    let s' := set_storage (if physical cfg then set_index s ix' else s) st' None cs in
    finv versions log' written s' /\ holds_mono log (Some con) log' None /\
    buffered_fingerprints (f_index s') = buffered_fingerprints (f_index s) /\ buffer_chunk_num (f_index s') = buffer_chunk_num (f_index s) /\
    (forall fp, fresh cfg (Some con) (ix_kv (f_index s)) fp -> fresh cfg None (ix_kv (f_index s')) fp).
Proof.
  intros Hf Hcb Hne log'. pose proof Hf as [[Hs Hr] HV Hm Hk Hc Ho Hsb Hd Hx Hun]. rewrite Hcb in Hs, HV, Hc.
  destruct (si_open _ _ Hs con eq_refl) as ([Hmeta Hdat] & Hid & Hge). cbn in Hid.
  assert (Hnew : log !! cm_id (c_meta con) = None).
  { destruct (log !! _) as [c|] eqn:E; [|done]. destruct (si_log _ _ Hs _ _ E) as (_ & _ & _ & Hlt). cbn in Hlt. lia. }
  assert (Hmono : holds_mono log (Some con) log' None).
  { intros id fp [? (c & Hci & Hfp & Hor)]. split; [done|]. exists c. split_and!; [done|done|]. left. unfold log'.
    destruct Hor as [Hl|[= ->]]; [|by rewrite <- Hci, lookup_insert_eq]. rewrite lookup_insert_ne; [done|]. intros E. rewrite E in Hnew. congruence. }
  assert (Hsub : exists st', write_container_async (w_cs (f_world s)) con = Ok st' /\ container_count st' = container_count (w_cs (f_world s))).
  { unfold write_container_async. rewrite (mo_num _ Hmeta), Z.eqb_refl. cbn [c_assert]. step. rewrite Hne. by eexists. }
  destruct Hsub as (st' & Hsub & Hcnt).
  pose proof (sys_step_inv _ _ _ Hs (sys_submit _ _ _ _ written log Hsub)) as Hs'. rewrite Hne in Hs'. fold log' in Hs'.
  assert (HP : forall id, prefetchable versions log id -> prefetchable versions log' id).
  { intros id. unfold prefetchable. destruct (physical cfg); [|done]. intros [? [c Hl]]. split; [done|]. unfold log'.
    destruct (decide (id = cm_id (c_meta con))) as [->|]; [by rewrite lookup_insert_eq|by rewrite lookup_insert_ne, Hl]. }
  assert (Hrest : forall ix', kv_ok cfg (prefetchable versions log') (unit_has log') (ix_kv ix') -> ix_cache ix' = ix_cache (f_index s) ->
    (exact cfg -> forall fp, is_Some (cm_map (c_meta con) !! fp) -> is_Some (ix_kv ix' !! fp)) ->
    (forall fp, is_Some (ix_kv (f_index s) !! fp) -> is_Some (ix_kv ix' !! fp)) -> finv versions log' written (set_storage (set_index s ix') st' None cs)).
  { intros ix' Hk' Hc' Hx1 Hx2. split; cbn [set_storage set_index container_buffer f_world f_monitor f_index sb_chunks w_cs w_bv w_opened]; try done.
    - by eapply versions_ok_mono.
    - rewrite Hc'. by eapply cache_ok_mono.
    - intros c [[id Hl]|?]; [|done]. unfold log' in Hl. apply lookup_insert_Some in Hl as [[_ <-]|[_ Hl]]; [apply Hd; by right|apply Hd; left; by exists id].
    - intros He id c fp Hl Hfp. unfold log' in Hl. apply lookup_insert_Some in Hl as [[_ <-]|[_ Hl]]; [by apply Hx1|]. apply Hx2. by eapply Hx.
    - intros He Hno id1 id2 fp H1 H2. rewrite Hcb in Hun. apply (Hun He Hno id1 id2 fp); by apply holds_handed. }
  destruct (physical cfg) eqn:Hp.
  - destruct (container_features_ok versions log written s con Hf Hcb Hne Hp) as (ix' & E & Hk' & Hc' & Hb1 & Hb2 & Hx1 & Hx2 & Hx3).
    exists ix', st'. rewrite E. split; [done|]. split; [done|]. split; [done|]. cbv zeta. split_and!; try done; [by apply Hrest|]. intros fp [Ha Hfr]. split; [done|]. intros He.
    cbn. rewrite Hx3 by done. by apply Hfr.
  - exists (f_index s), st'. split; [done|]. split; [done|]. split; [done|]. cbv zeta. split_and!; try done.
    + replace s with (set_index s (f_index s)) at 1 by by destruct s. apply Hrest; try done.
      * eapply kv_ok_mono; [exact HP| |exact Hk]. intros id fp (c & Hl & Hfp). exists c. split; [|done]. unfold log'.
        rewrite lookup_insert_ne; [done|]. intros <-. congruence.
      * intros [_ He]. apply physical_true in He. congruence.
    + intros fp [_ Hfr]. split; [done|]. exact Hfr.
Qed.

(** What a step of the phase keeps: the invariant, what is stored, and what is
    fresh but for the fingerprints it writes. *)
Record progress versions log written s (fps : fingerprint -> Prop) log' s' : Prop := {
  pg_inv : finv versions log' written s';
  pg_holds : holds_mono log (container_buffer s) log' (container_buffer s');
  pg_fresh fp : ~ fps fp -> fresh cfg (container_buffer s) (ix_kv (f_index s)) fp -> fresh cfg (container_buffer s') (ix_kv (f_index s')) fp;
}.

Lemma make_room_ok versions log written s c : finv versions log written s -> 0 <= ck_size c <= CONTAINER_SIZE - CONTAINER_META_SIZE ->
  container_count (w_cs (f_world s)) < count_max ->
  exists s' con log', make_room cfg simulation_level s c = Ok (s', con) /\ container_buffer s' = Some con /\
    container_overflow con (ck_size c) = false /\ progress versions log written s (fun _ => False) log' s' /\ same_rest s s' /\
    container_count (w_cs (f_world s')) <= container_count (w_cs (f_world s)) + 1.
Proof.
  intros Hf Hsz Hcount. pose proof (fi_wok _ _ _ _ Hf) as [Hs _].
  assert (Hsmall : forall con, meta_ok (c_meta con) -> cm_data_size (c_meta con) = 0 -> cm_chunk_num (c_meta con) = 0 -> container_overflow con (ck_size c) = false).
  { intros con Hmeta H1 H2. apply container_overflow_spec; [done|unfold CONTAINER_META_SIZE in *; lia|]. rewrite H1, H2. split; [lia|by vm_compute]. }
  unfold make_room. destruct (container_buffer s) as [con|] eqn:Hcb.
  - rewrite Hcb. cbn [deref]. step. destruct (container_overflow con (ck_size c)) eqn:Hov.
    + destruct (si_open _ _ Hs con) as ([Hmeta _] & _); [done|].
      assert (Hne : container_empty con = false).
      { unfold container_empty. apply Z.eqb_neq. intros E. rewrite (Hsmall con Hmeta) in Hov; [done|by apply (fi_open _ _ _ _ Hf)|done]. }
      destruct (handover_ok versions log written s con [] Hf Hcb Hne) as (ix' & st' & E & Hsub & Hcnt & Hf1 & Hm1 & Hb1 & Hb2 & Hfr1).
      assert (E' : (if physical cfg then s ← update_container_features cfg s con; Ok (set_storage s (w_cs (f_world s)) (container_buffer s) []) else Ok s) =
        Ok (if physical cfg then set_storage (set_index s ix') (w_cs (f_world s)) (container_buffer s) [] else s)) by (destruct (physical cfg); [by rewrite E|done]).
      rewrite Hcb in E'. rewrite E'. step.
      assert (Hw : w_cs (f_world (if physical cfg then set_storage (set_index s ix') (w_cs (f_world s)) (Some con) [] else s)) = w_cs (f_world s))
        by (by destruct (physical cfg)). rewrite Hw, Hsub. step.
      destruct (create_container simulation_level st') as [con' st2] eqn:Ecr.
      set (cs' := sb_chunks (if physical cfg then set_storage (set_index s ix') (w_cs (f_world s)) (Some con) [] else s)).
      destruct (open_container_ok _ _ _ _ st2 con' cs' Hf1) as (Hf2 & Hcnt2 & Hm2 & _ & Hmap & Hds & Hcn); [done|cbn; lia|done|intros Hp; unfold cs'; by rewrite Hp|].
      exists (set_storage (if physical cfg then set_index s ix' else s) st2 (Some con') cs'), con', (<[cm_id (c_meta con) := con]> log).
      split; [|split_and!].
      * f_equal. f_equal. unfold cs'. by destruct (physical cfg).
      * done.
      * destruct (fi_wok _ _ _ _ Hf2) as [Hs2 _]. destruct (si_open _ _ Hs2 con' eq_refl) as ([Hmeta' _] & _). by apply Hsmall.
      * split.
        -- by destruct (physical cfg).
        -- rewrite Hcb. intros id fp H. apply Hm2. by apply Hm1.
        -- intros fp _ Hfr. rewrite Hcb in Hfr. destruct (Hfr1 fp Hfr) as [_ Hx]. split; [cbn; by rewrite Hmap|]. by destruct (physical cfg).
      * by destruct (physical cfg).
      * cbn in Hcnt2 |- *. destruct (physical cfg); cbn; lia.
    + exists s, con, log. split_and!; try done; [|lia]. split; [done|by intros ? ?|done].
  - destruct (create_container simulation_level (w_cs (f_world s))) as [con st] eqn:Ecr. cbn [set_storage container_buffer deref]. step.
    destruct (open_container_ok _ _ _ _ st con (if physical cfg then [] else sb_chunks s) Hf Hcb Hcount Ecr) as (Hf2 & Hcnt2 & Hm2 & _ & Hmap & Hds & Hcn);
      [by intros ->|].
    destruct (fi_wok _ _ _ _ Hf2) as [Hs2 _]. destruct (si_open _ _ Hs2 con eq_refl) as ([Hmeta' _] & _).
    rewrite (Hsmall con Hmeta' Hds Hcn). do 2 eexists. exists log. split; [reflexivity|]. split_and!; try done; [by apply Hsmall| |cbn; lia].
    split; [done|by rewrite Hcb|]. intros fp _ [_ Hx]. split; [cbn; by rewrite Hmap|done].
Qed.

(** ** A chunk is written *)

(** The chunks of the storage buffer after the chunk. *)
Definition buffer_add (s : filter_state) (r : Z) (fp : fingerprint) : list chunk :=
  if negb (r =? 0) && physical cfg then sb_chunks s ++ [fp_chunk fp TEMPORARY_ID] else sb_chunks s.

Lemma add_chunk_progress versions log written s con c r con' c' : finv versions log written s -> container_buffer s = Some con ->
  data_ok c -> container_overflow con (ck_size c) = false -> add_chunk_to_container simulation_level con c = Ok (r, con', c') ->
  (exact cfg -> rewrite_algorithm_0 fcfg = REWRITE_NO -> ix_kv (f_index s) !! ck_fp c = None) ->
  progress versions log written s (eq (ck_fp c)) log (set_storage s (w_cs (f_world s)) (Some con') (buffer_add s r (ck_fp c))) /\
  is_Some (cm_map (c_meta con') !! ck_fp c).
Proof.
  intros [[Hs Hr] HV Hm Hk Hc Ho Hsb Hd Hx Hun] Hcb (Hl & Hwf & Hsz & Hdat) Hov Hadd Hnew. rewrite Hcb in Hs, HV, Hc, Hun.
  assert (Hck : chunk_ok simulation_level c) by (split_and!; [done|unfold CONTAINER_META_SIZE in *; lia..|]; intros Hlv; eexists; by apply Hdat).
  pose proof (sys_step_inv _ _ _ Hs (sys_add _ _ _ _ _ _ _ written log Hck Hov Hadd)) as Hs'.
  destruct (si_open _ _ Hs con eq_refl) as (Hok & Hid & Hge).
  destruct (add_chunk_spec _ con c Hok Hck Hov) as (r0 & c0 & E & Hok' & _ & Hin & Hhas & Hcase). rewrite Hadd in E. injection E as <- <- _.
  destruct (add_chunk_map _ _ _ _ _ _ Hadd) as (_ & Hid' & Hmap).
  assert (Hsub : forall fp, is_Some (cm_map (c_meta con) !! fp) -> is_Some (cm_map (c_meta con') !! fp)).
  { intros fp Hfp. destruct Hmap as [(_ & -> & _)|(_ & _ & me & ->)]; [done|]. destruct (decide (fp = ck_fp c)) as [->|]; [by rewrite lookup_insert_eq|by rewrite lookup_insert_ne]. }
  assert (Hinv : forall fp, is_Some (cm_map (c_meta con') !! fp) -> fp = ck_fp c \/ is_Some (cm_map (c_meta con) !! fp)).
  { intros fp Hfp. destruct Hmap as [(_ & -> & _)|(_ & _ & me & E)]; [by right|]. rewrite E in Hfp.
    destruct (decide (fp = ck_fp c)) as [->|]; [by left|right; by rewrite lookup_insert_ne in Hfp]. }
  assert (Hmono : holds_mono log (Some con) log (Some con')).
  { intros id fp [? (x & Hxi & Hfp & Hor)]. split; [done|]. destruct Hor as [Hlg|[= <-]]; [exists x; auto|].
    exists con'. rewrite Hid'. split_and!; auto. }
  assert (Hfp' : fingerprint) by exact (ck_fp c). split; [|done]. split; [split|..];
    cbn [set_storage container_buffer f_world f_monitor f_index sb_chunks w_cs w_bv w_opened]; try done.
  - by eapply versions_ok_mono.
  - by eapply cache_ok_mono.
  - intros x [= <-] Hn. destruct Hcase as [(_ & ->)|(_ & _ & En & _)]; [by apply Ho|]. rewrite En in Hn.
    pose proof (mo_num _ (proj1 Hok)). lia.
  - intros x Hp [= <-]. destruct (Hsb con Hp Hcb) as [Hw He]. unfold buffer_add. rewrite Hp, andb_true_r.
    destruct Hmap as [(-> & -> & _)|(-> & _ & me & Em)]; [done|]. cbn [Z.eqb negb]. split; [apply Forall_app; split; [done|by apply Forall_singleton]|].
    intros fp. rewrite map_app, elem_of_app, <- He. cbn. rewrite list_elem_of_singleton, Em. destruct (decide (fp = ck_fp c)) as [->|Hne].
    + rewrite lookup_insert_eq. split; [by right|by eexists].
    + rewrite lookup_insert_ne by done. naive_solver.
  - intros x [[id Hlg]|[= <-]]; [apply Hd; left; by exists id|]. intros Hlv fp Hfp.
    destruct Hcase as [(_ & ->)|(_ & _ & _ & Hbs)]; [by apply Hd; [right|..]|]. destruct (Hinv fp Hfp) as [->|Hold]; [by apply Hbs; auto|].
    apply Hin, Hd; auto.
  - intros He Hno id1 id2 fp H1 H2. assert (Hback : forall id, holds log (Some con') id fp -> holds log (Some con) id fp \/ id = cm_id (c_meta con) /\ fp = ck_fp c /\ cm_map (c_meta con) !! fp = None).
    { intros id (Hge' & x & Hxi & Hfp & [Hlg|[= <-]]); [left; split; [done|]; exists x; auto|]. rewrite Hid' in Hxi.
      destruct (cm_map (c_meta con) !! fp) eqn:E; [|right; destruct (Hinv fp Hfp) as [->|[? ?]]; [done|congruence]].
      left. split; [done|]. exists con. rewrite E. split_and!; auto. }
    assert (Hno' : forall id, holds log (Some con) id fp -> fp = ck_fp c -> cm_map (c_meta con) !! fp = None -> False).
    { intros id (_ & x & _ & Hfp & [Hlg|[= <-]]) Ef En; [|rewrite En in Hfp; by destruct Hfp].
      destruct (Hx He _ _ _ Hlg Hfp) as [v Ev]. rewrite Ef in Ev. rewrite Hnew in Ev; done. }
    destruct (Hback id1 H1) as [Ha|(-> & Ef & En)], (Hback id2 H2) as [Hb|(-> & Ef' & En')]; try done; [by apply (Hun He Hno id1 id2 fp)|..];
      exfalso; by eapply Hno'.
  - by rewrite Hcb.
  - intros fp Hne [Ha Hf]. rewrite Hcb in Ha. split; [|done]. cbn in Ha |- *.
    destruct Hmap as [(_ & -> & _)|(_ & _ & me & ->)]; [done|]. by rewrite lookup_insert_ne.
Qed.

Lemma progress_refl versions log written s : finv versions log written s -> progress versions log written s (fun _ => False) log s.
Proof. intros Hf. split; [done|by intros ? ?|done]. Qed.

Lemma progress_trans versions log log1 log2 written s1 s2 s3 (P1 P2 P3 : fingerprint -> Prop) :
  progress versions log written s1 P1 log1 s2 -> progress versions log1 written s2 P2 log2 s3 ->
  (forall fp, P1 fp \/ P2 fp -> P3 fp) -> progress versions log written s1 P3 log2 s3.
Proof.
  intros [H1 H2 H3] [G1 G2 G3] HP. split; [done|intros ???; by apply G2, H2|]. intros fp Hn Hf.
  apply G3; [|apply H3; [|done]]; intros ?; apply Hn, HP; auto.
Qed.

(** The counters do not matter. *)
Lemma progress_stat versions log written s P log' s' st : progress versions log written s P log' s' -> progress versions log written s P log' (set_stat s' st).
Proof. intros [[] ? ?]. by split; [split|..]. Qed.

(** What the tables of the segment record of a chunk that was written. *)
Definition recorded (c c' : chunk) (r r' : recent) : Prop :=
  if is_dup c
  then r' = r \/ r' = mk_recent (recently_unique r) (<[ck_fp c := fp_chunk (ck_fp c) (ck_id c')]> (recently_rewritten r))
  else r' = mk_recent (<[ck_fp c := fp_chunk (ck_fp c) (ck_id c')]> (recently_unique r)) (recently_rewritten r).

Lemma write_chunk_ok versions log written s r c : finv versions log written s -> data_ok c ->
  container_count (w_cs (f_world s)) < count_max ->
  (if is_dup c then rewrite_algorithm_0 fcfg <> REWRITE_NO else fresh cfg (container_buffer s) (ix_kv (f_index s)) (ck_fp c)) ->
  exists s' r' c' log', write_chunk cfg fcfg simulation_level s r c = Ok (s', r', c') /\
    c' = set_ck_id c (ck_id c') /\ holds log' (container_buffer s') (ck_id c') (ck_fp c) /\ recorded c c' r r' /\
    progress versions log written s (eq (ck_fp c)) log' s' /\ same_rest s s' /\
    container_count (w_cs (f_world s')) <= container_count (w_cs (f_world s)) + 1.
Proof.
  intros Hf Hd Hcount Hc. unfold write_chunk. pose proof Hd as (_ & _ & Hsz & _).
  destruct (make_room_ok versions log written s c Hf Hsz Hcount) as (s1 & con & log1 & -> & Hcb & Hov & Hp1 & Hr1 & Hn1). step.
  pose proof (pg_inv _ _ _ _ _ _ _ Hp1) as Hf1. destruct (fi_wok _ _ _ _ Hf1) as [Hs1 _]. destruct (si_open _ _ Hs1 con Hcb) as (Hok & Hid & Hge).
  destruct (add_chunk_spec simulation_level con c Hok) as (r0 & con' & Hadd & _ & Hid' & _ & _ & Hcase).
  { destruct Hd as (? & _ & ? & Hdat). split_and!; [done|unfold CONTAINER_META_SIZE in *; lia..|]. intros Hlv. eexists. by apply Hdat. }
  { done. }
  destruct (add_chunk_progress versions log1 written s1 con c r0 con' _ Hf1 Hcb Hd Hov Hadd) as [Hp2 Hhas].
  { intros He Hno. destruct (is_dup c); [done|]. by apply (pg_fresh _ _ _ _ _ _ _ Hp1 (ck_fp c) id Hc). }
  assert (Hr0 : r0 = 0 -> is_dup c = true).
  { intros ->. destruct (is_dup c); [done|]. exfalso. destruct (pg_fresh _ _ _ _ _ _ _ Hp1 (ck_fp c) id Hc) as [Ha _]. rewrite Hcb in Ha.
    destruct Hcase as [[_ ->]|[? _]]; [|done]. cbn in Ha. rewrite Ha in Hhas. by destruct Hhas. }
  rewrite Hadd. step. set (c' := set_ck_id c _). set (s2 := set_storage s1 _ (Some con') _).
  assert (Hholds : forall s', container_buffer s' = Some con' -> holds log1 (container_buffer s') (ck_id c') (ck_fp c)).
  { intros s' ->. split; [done|]. exists con'. split_and!; [done|done|by right]. }
  assert (Hp : forall st, progress versions log written s (eq (ck_fp c)) log1
      (set_stat (set_storage s1 (w_cs (f_world s1)) (Some con') (buffer_add s1 r0 (ck_fp c))) st)).
  { intros st. apply progress_stat. eapply progress_trans; [exact Hp1|exact Hp2|]. intros fp [[]|?]; done. }
  assert (Hsame : forall st cs, same_rest s (set_stat (set_storage s1 (w_cs (f_world s1)) (Some con') cs) st)) by done.
  destruct (Z.eqb_spec r0 0) as [E0|E0]; cbn [negb].
  - rewrite (proj2 (orb_true_iff _ _)); [|right; specialize (Hr0 E0); rewrite Hr0 in Hc; apply negb_true_iff; by apply Z.eqb_neq].
    cbn [c_assert]. step. exists s2, r, c', log1. split; [done|]. split; [done|]. split; [by apply Hholds|].
    split; [unfold recorded; rewrite Hr0 by done; by left|]. specialize (Hp (f_stat s1)). unfold buffer_add in Hp. rewrite E0 in Hp.
    split; [|split; [by apply (Hsame (f_stat s1) (sb_chunks s1))|done]]. by destruct s1.
  - change (CHECK_CHUNK c' CHUNK_DUPLICATE) with (is_dup c). change (ck_fp c') with (ck_fp c). change (ck_size c') with (ck_size c).
    unfold buffer_add in Hp. rewrite (proj2 (Z.eqb_neq _ _) E0) in Hp. cbn [negb andb] in Hp. unfold recorded.
    destruct (is_dup c) eqn:Hdup; cbn [negb]; do 4 eexists; (split; [reflexivity|]);
      (split; [done|]); (split; [apply Hholds; by destruct (physical cfg)|]); (split; [by auto|]); (split; [|split; [by destruct (physical cfg)|by destruct (physical cfg)]]).
    + specialize (Hp (count_rewritten_chunk (f_stat s1) (ck_size c))). by destruct (physical cfg).
    + specialize (Hp (count_unique_chunk (f_stat s1) (ck_size c))). by destruct (physical cfg).
Qed.

(** ** A segment is filtered *)

#[local] Instance checked_preorder : PreOrder checked.
Proof. split; [by intros ?|intros ? ? ? (?&?) (?&?); split; [by etrans|congruence]]. Qed.

Lemma checked_set c f : f = CHUNK_IN_CACHE \/ f = CHUNK_REWRITE_DENIED -> checked c (SET_CHUNK c f).
Proof.
  intros Hf. split; [apply same_chunk_set; by destruct Hf as [->| ->]|].
  unfold is_dup. rewrite CHECK_SET. destruct Hf as [->| ->]; apply orb_false_r.
Qed.

Lemma data_ok_same c c' : same_chunk c c' -> data_ok c -> data_ok c'.
Proof. intros (E1 & E2 & E3 & _). unfold data_ok, chunk_bytes. by rewrite E1, E2, E3. Qed.

(** A chunk that may be rewritten only if some algorithm rewrites. *)
Definition frag_ok (c : chunk) : Prop := fragmented c = true -> rewrite_algorithm_0 fcfg <> REWRITE_NO.

(** The tables name containers that hold the fingerprint. *)
Definition recent_ok log cb (r : recent) : Prop := forall fp c,
  recently_unique r !! fp = Some c \/ recently_rewritten r !! fp = Some c -> zlen fp = fp_size /\ holds log cb (ck_id c) fp.

(** The state after the chunks [pre] of a segment: [s0] is the state before it. *)
Record chunks_done versions log0 written s0 (pre : list chunk) log s r (done : list chunk) : Prop := {
  cd_progress : progress versions log0 written s0 (fun fp => with_fp fp (normals pre) <> []) log s;
  cd_rest : same_rest s0 s;
  cd_recent : recent_ok log (container_buffer s) r;
  cd_unique u : u ∈ pre -> is_file_flag u = false -> is_dup u = false -> is_Some (recently_unique r !! ck_fp u);
  cd_chunks : Forall2 checked pre done;
  cd_ids : Forall (fun c => is_file_flag c = false -> holds log (container_buffer s) (ck_id c) (ck_fp c)) done;
  cd_count : container_count (w_cs (f_world s)) <= container_count (w_cs (f_world s0)) + zlen pre;
}.

Lemma recent_ok_mono log cb log' cb' r : holds_mono log cb log' cb' -> recent_ok log cb r -> recent_ok log' cb' r.
Proof. intros Hm Hr fp c Hc. destruct (Hr fp c Hc). split; [done|by apply Hm]. Qed.

Lemma check_cached_ok s c : monitor_ok (f_monitor s) ->
  exists c', check_cached fcfg s c = Ok c' /\ checked c c' /\ ck_id c' = ck_id c.
Proof.
  intros Hm. unfold check_cached. destruct (enable_cache_aware fcfg); cbn [andb]; [|by exists c].
  destruct (restore_aware_contains _ _) eqn:E; [|by exists c]. apply (restore_aware_contains_id _ _ Hm) in E.
  rewrite (proj2 (Z.eqb_neq _ _) E). cbn [negb c_assert]. step. eexists. split; [reflexivity|]. split; [apply checked_set; by left|done].
Qed.

Lemma check_recent_ok log cb r c : recent_ok log cb r ->
  (is_dup c = true -> ck_id c = TEMPORARY_ID -> is_Some (recently_unique r !! ck_fp c)) ->
  (is_dup c = true -> ck_id c <> TEMPORARY_ID -> holds log cb (ck_id c) (ck_fp c)) ->
  exists c', check_recent r c = Ok c' /\ checked c c' /\ (is_dup c = true -> holds log cb (ck_id c') (ck_fp c)).
Proof.
  intros Hr Ht Hh. unfold check_recent. fold (is_dup c).
  assert (H1 : exists c1, (if is_dup c && (ck_id c =? TEMPORARY_ID) then
       match recently_unique r !! ck_fp c with None => Err EAssert | Some ruc => Ok (set_ck_id c (ck_id ruc)) end else Ok c) = Ok c1 /\
    checked c c1 /\ (is_dup c = true -> holds log cb (ck_id c1) (ck_fp c))).
  { destruct (is_dup c) eqn:Hd; cbn [andb]; [|by exists c]. destruct (Z.eqb_spec (ck_id c) TEMPORARY_ID) as [E|E].
    - destruct (Ht eq_refl E) as [ruc Hu]. rewrite Hu. eexists. split; [reflexivity|]. split; [done|]. intros _. apply (Hr _ ruc). by left.
    - exists c. split; [done|]. split; [done|auto]. }
  destruct H1 as (c1 & -> & Hc1 & Hh1). step. pose proof Hc1 as ((_ & Efp & _) & _).
  rewrite Efp. destruct (recently_rewritten r !! ck_fp c) as [rwc|] eqn:Er; [|by exists c1].
  eexists. split; [reflexivity|]. split; [|intros _; apply (Hr _ rwc); by right].
  etrans; [exact Hc1|]. transitivity (set_ck_id c1 (ck_id rwc)); [done|]. apply checked_set. by right.
Qed.

Lemma cfl_switch_enable s : exists e, cfl_switch fcfg s = set_enable s e.
Proof.
  unfold cfl_switch. assert (E : s = set_enable s (enable_rewrite s)) by by destruct s.
  destruct (enable_cfl_switch fcfg); [|by eexists]. cbn zeta. destruct (_ && _); [by eexists|]. destruct (_ && _); by eexists.
Qed.

(** The tables after a chunk was written. *)
Lemma recorded_ok log cb r c c' r' : recent_ok log cb r -> recorded c c' r r' -> zlen (ck_fp c) = fp_size -> holds log cb (ck_id c') (ck_fp c) ->
  recent_ok log cb r' /\ (forall fp, is_Some (recently_unique r !! fp) -> is_Some (recently_unique r' !! fp)) /\
  (is_dup c = false -> is_Some (recently_unique r' !! ck_fp c)).
Proof.
  intros Hr Hrc Hl Hh. assert (Hone : forall fp x (m : gmap fingerprint chunk), <[ck_fp c := fp_chunk (ck_fp c) (ck_id c')]> m !! fp = Some x ->
      (m !! fp = Some x -> zlen fp = fp_size /\ holds log cb (ck_id x) fp) -> zlen fp = fp_size /\ holds log cb (ck_id x) fp).
  { intros fp x m [[<- <-]|[_ H]]%lookup_insert_Some Hm; [by split|by apply Hm]. }
  unfold recorded in Hrc. destruct (is_dup c).
  - split; [|by destruct Hrc as [->| ->]]. destruct Hrc as [->| ->]; [done|].
    intros fp x [Hx|Hx]; [apply Hr; by left|]. apply (Hone fp x _ Hx). intros. apply Hr. by right.
  - subst r'. split; [|split].
    + intros fp x [Hx|Hx]; [|apply Hr; by right]. apply (Hone fp x _ Hx). intros. apply Hr. by left.
    + intros fp Hfp. cbn. destruct (decide (fp = ck_fp c)) as [->|]; [by rewrite lookup_insert_eq|by rewrite lookup_insert_ne].
    + intros _. cbn. by rewrite lookup_insert_eq.
Qed.

(** A duplicate is written only if it is fragmented. *)
Lemma to_write_dup e c : to_write e c = true -> is_dup c = true -> fragmented c = true.
Proof.
  unfold to_write. fold (is_dup c). intros Hw Hd. rewrite Hd in Hw. unfold fragmented. destruct (CHECK_CHUNK c CHUNK_SPARSE); [done|].
  destruct (CHECK_CHUNK c CHUNK_OUT_OF_ORDER); [done|]. cbn in Hw. rewrite andb_false_r in Hw. cbn in Hw. by rewrite andb_false_r in Hw.
Qed.

Lemma maybe_write_ok versions log written s r c e : finv versions log written s -> data_ok c -> frag_ok c ->
  container_count (w_cs (f_world s)) < count_max -> recent_ok log (container_buffer s) r ->
  (if is_dup c then holds log (container_buffer s) (ck_id c) (ck_fp c) else fresh cfg (container_buffer s) (ix_kv (f_index s)) (ck_fp c)) ->
  exists s' r' c' log', (if to_write e c then write_chunk cfg fcfg simulation_level s r c else Ok (s, r, c)) = Ok (s', r', c') /\
    checked c c' /\ holds log' (container_buffer s') (ck_id c') (ck_fp c) /\ progress versions log written s (eq (ck_fp c)) log' s' /\
    same_rest s s' /\ container_count (w_cs (f_world s')) <= container_count (w_cs (f_world s)) + 1 /\
    recent_ok log' (container_buffer s') r' /\ (forall fp, is_Some (recently_unique r !! fp) -> is_Some (recently_unique r' !! fp)) /\
    (is_dup c = false -> is_Some (recently_unique r' !! ck_fp c)).
Proof.
  intros Hf Hd Hfrag Hcount Hr Hc. destruct (to_write e c) eqn:Ew.
  - destruct (write_chunk_ok versions log written s r c Hf Hd Hcount) as (s' & r' & c' & log' & -> & Ec & Hh & Hrc & Hp & Hs & Hn).
    { pose proof (to_write_dup e c Ew) as Hw. destruct (is_dup c); [by apply Hfrag, Hw|done]. }
    exists s', r', c', log'. pose proof (pg_holds _ _ _ _ _ _ _ Hp) as Hm. split; [done|]. split; [by rewrite Ec|]. do 4 (split; [done|]).
    apply (recorded_ok _ _ r c c'); [by eapply recent_ok_mono|done|by destruct Hd|done].
  - assert (Hdup : is_dup c = true) by (unfold to_write in Ew; fold (is_dup c) in Ew; by destruct (is_dup c)). rewrite Hdup in Hc |- *.
    do 4 eexists. split; [reflexivity|]. do 2 (split; [done|]). split; [|split; [done|split; [lia|by split_and!]]].
    eapply progress_trans; [by apply progress_refl|by apply progress_refl|]. by intros fp [[]|[]].
Qed.

Lemma filter_chunk_ok versions log0 written s0 pre c post log s r done : 
  seg_ready cfg (holds log0 (container_buffer s0)) (container_buffer s0) (ix_kv (f_index s0)) (pre ++ c :: post) ->
  chunks_done versions log0 written s0 pre log s r done -> (is_file_flag c = false -> data_ok c) -> frag_ok c ->
  container_count (w_cs (f_world s0)) + zlen pre < count_max ->
  exists s' r' c' log', filter_chunk cfg fcfg simulation_level (s, r, done) c = Ok (s', r', done ++ [c']) /\
    chunks_done versions log0 written s0 (pre ++ [c]) log' s' r' (done ++ [c']).
Proof.
  intros Hready [Hp Hrest Hrec Hun Hcs Hids Hcnt] Hdat Hfrag Hmax. unfold filter_chunk.
  assert (Hlen : zlen (pre ++ [c]) = zlen pre + 1) by (by rewrite zlen_app).
  destruct (is_file_flag c) eqn:Hf.
  { do 4 eexists. split; [reflexivity|]. split; try done.
    - destruct Hp as [? ? Hfr]. split; [done..|]. intros fp Hn. apply Hfr. rewrite normals_app in Hn. unfold normals at 2 in Hn.
      rewrite filter_cons_False, app_nil_r in Hn; [done|by rewrite Hf].
    - intros u [Hu|Hu%list_elem_of_singleton]%elem_of_app; [by apply Hun|]. subst u. congruence.
    - apply Forall2_app; [done|]. by constructor.
    - apply Forall_app. split; [done|]. apply Forall_singleton. congruence.
    - lia. }
  specialize (Hready pre c post eq_refl Hf). pose proof (pg_inv _ _ _ _ _ _ _ Hp) as Hfi.
  destruct (check_cached_ok s c (fi_monitor _ _ _ _ Hfi)) as (c1 & -> & Hc1 & Hid1). step.
  destruct (cfl_switch_enable s) as [e ->].
  pose proof Hc1 as ((Esz1 & Efp1 & _) & Ed1).
  destruct (check_recent_ok log (container_buffer s) r c1 Hrec) as (c2 & -> & Hc2 & Hh2).
  { rewrite Ed1, Hid1, Efp1. intros Hd Ht. rewrite Hd in Hready. destruct Hready as [_ Hu]. destruct (Hu Ht) as (u & Hu1 & Hu2 & Hu3 & <-). by apply Hun. }
  { rewrite Ed1, Hid1, Efp1. intros Hd Ht. rewrite Hd in Hready. destruct Hready as [[?|Hh] _]; [done|]. by apply (pg_holds _ _ _ _ _ _ _ Hp). }
  step. assert (Hc : checked c c2) by (by etrans). pose proof Hc as (Hsame & Ed). pose proof Hsame as (Esz & Efp & _ & _ & _ & Ef).
  destruct (maybe_write_ok versions log written (set_enable s e) r c2 (enable_rewrite (set_enable s e)))
    as (s3 & r3 & c3 & log3 & -> & Hc3 & Hh3 & Hp3 & Hr3 & Hn3 & Hrec3 & Hmu & Hnu).
  { destruct Hfi. by split. }
  { apply (data_ok_same c); auto. }
  { unfold frag_ok. by rewrite Ef. }
  { cbn. lia. }
  { done. }
  { rewrite Ed, Efp. destruct (is_dup c) eqn:Hd; [rewrite <- Efp1; by apply Hh2; rewrite Ed1|].
    destruct Hready as (_ & Hfr & Hno). apply (pg_fresh _ _ _ _ _ _ _ Hp); [|done]. intros Hne. apply Hne.
    destruct (with_fp (ck_fp c) (normals pre)) as [|u l] eqn:Eu; [done|]. exfalso.
    assert (Hin : u ∈ with_fp (ck_fp c) (normals pre)) by (rewrite Eu; left). apply elem_with_fp in Hin as (H1 & H2 & H3). by apply (Hno u). }
  rewrite ?Ed, ?Efp in *. change (container_buffer (set_enable s e)) with (container_buffer s) in *. step.
  assert (Hid3 : ck_id c3 <> TEMPORARY_ID) by (destruct Hh3; unfold TEMPORARY_ID; lia).
  rewrite (proj2 (Z.eqb_neq _ _) Hid3). cbn [negb c_assert]. step.
  destruct (restore_aware_update_ok (f_monitor s3) (ck_id c3) (ck_size c3)) as (m & -> & Hm); [apply Hp3|done|]. step.
  assert (Hcc : checked c c3) by (by etrans). pose proof Hcc as ((_ & Efp3 & _) & _).
  do 4 eexists. split; [reflexivity|]. split.
  - eapply progress_trans; [exact Hp| |].
    + destruct Hp3 as [Hfi3 Hh Hfr3]. split; [|exact Hh|exact Hfr3]. destruct Hfi3. by split.
    + intros fp. rewrite normals_app, with_fp_app. intros [Hn|<-] E; apply app_eq_nil in E as [E1 E2]; [done|].
      unfold normals, with_fp in E2. by rewrite !filter_cons_True in E2.
  - etrans; [exact Hrest|exact Hr3].
  - done.
  - intros u [Hu|Hu%list_elem_of_singleton]%elem_of_app Hfu Hdu; [by apply Hmu, Hun|subst u; by apply Hnu].
  - apply Forall2_app; [done|]. by constructor.
  - apply Forall_app. split; [|apply Forall_singleton; by rewrite Efp3].
    eapply Forall_impl; [exact Hids|]. intros x Hx Hfx. apply (pg_holds _ _ _ _ _ _ _ Hp3). by apply Hx.
  - rewrite Hlen. cbn [set_enable set_monitor f_world] in *. lia.
Qed.

(** The loop over the chunks of a segment. *)
Lemma filter_chunks_ok versions log written s cs : finv versions log written s ->
  seg_ready cfg (holds log (container_buffer s)) (container_buffer s) (ix_kv (f_index s)) cs ->
  Forall (fun c => (is_file_flag c = false -> data_ok c) /\ frag_ok c) cs ->
  container_count (w_cs (f_world s)) + zlen cs < count_max ->
  exists s' r' cs' log', foldM (filter_chunk cfg fcfg simulation_level) (s, mk_recent ∅ ∅, []) cs = Ok (s', r', cs') /\
    chunks_done versions log written s cs log' s' r' cs'.
Proof.
  intros Hf Hready Hcs Hmax.
  destruct (foldM_steps (filter_chunk cfg fcfg simulation_level)
    (fun t pre => exists log', chunks_done versions log written s pre log' t.1.1 t.1.2 t.2) cs (s, mk_recent ∅ ∅, []))
    as ([[s' r'] cs'] & E & log' & Hd); [| |by exists s', r', cs', log'].
  - intros [[s1 r1] done1] pre c post E [log1 Hd]. rewrite E in Hready, Hcs, Hmax.
    apply Forall_app in Hcs as [_ [[Hd1 Hd2] _]%Forall_cons]. rewrite zlen_app in Hmax. pose proof (zlen_nonneg (c :: post)).
    destruct (filter_chunk_ok versions log written s pre c post log1 s1 r1 done1 Hready Hd Hd1 Hd2) as (s2 & r2 & c' & log2 & -> & Hd'); [lia|].
    eexists. split; [reflexivity|]. by exists log2.
  - exists log. split; try done.
    + split; [done|by intros ? ?|done].
    + intros fp c [Hx|Hx]; cbn in Hx; by rewrite lookup_empty in Hx.
    + by intros u ?%elem_of_nil.
    + rewrite zlen_nil. cbn. lia.
Qed.

(** ** The recipe of a segment *)

(** The chunks of a stream, from inside a file or between two files: a start,
    the chunks of the file, an end. *)
Fixpoint file_stream (inside : bool) (cs : list chunk) : option bool :=
  match cs with
  | [] => Some inside
  | c :: cs =>
      if inside then if CHECK_CHUNK c CHUNK_FILE_END then file_stream false cs else if is_file_flag c then None else file_stream true cs
      else if CHECK_CHUNK c CHUNK_FILE_START then file_stream true cs else None
  end.

(** The start of a file carries its name. *)
Definition name_ok (c : chunk) : Prop :=
  CHECK_CHUNK c CHUNK_FILE_START = true -> exists d, ck_data c = Some d /\ zlen (cstr d) <= metabufsize - 20.

Definition chunk_ptr (c : chunk) : chunkPointer := mk_cp (ck_fp c) (ck_id c) (ck_size c).

(** What the chunks make of the open file, and the entries they close. *)
Definition file_step (o : option fileRecipeMeta) (c : chunk) : option fileRecipeMeta :=
  match o with
  | None => Some (new_file_recipe_meta (cstr (default [] (ck_data c))))
  | Some r => if CHECK_CHUNK c CHUNK_FILE_END then None
              else Some (mk_fmeta (s64 (fm_chunknum r + 1)) (s64 (fm_filesize r + ck_size c)) (fm_filename r))
  end.
Definition closed_by (o : option fileRecipeMeta) (c : chunk) : list fileRecipeMeta :=
  match o with Some r => if CHECK_CHUNK c CHUNK_FILE_END then [r] else [] | None => [] end.
Definition file_after (o : option fileRecipeMeta) (cs : list chunk) : option fileRecipeMeta := fold_left file_step cs o.
Fixpoint closed_files (o : option fileRecipeMeta) (cs : list chunk) : list fileRecipeMeta :=
  match cs with [] => [] | c :: cs => closed_by o c ++ closed_files (file_step o c) cs end.

Definition inside (s : filter_state) : bool := match f_file s with Some _ => true | None => false end.
Definition file_ok (s : filter_state) : Prop := match f_file s with Some r => fm_ok r | None => True end.

(** [s'] is [s] but for the recipe and the counters. *)
Definition recipe_only (s s' : filter_state) : Prop :=
  s' = set_recipe s (w_bv (f_world s')) (f_access s') (f_file s') (f_stat s').

#[local] Instance recipe_only_preorder : PreOrder recipe_only.
Proof. split; [intros s; unfold recipe_only; by destruct s as [? []]|]. intros s1 s2 s3 E1 E2. unfold recipe_only in *. rewrite E2, E1. done. Qed.

(** The recipe while a segment is written: [pre] is in the segment buffer. *)
Definition recipe_at (s : filter_state) (num files chunks : Z) (path meta recipe records pre : list Z) (len : Z) : Prop :=
  wstate (w_bv (f_world s)) num files chunks path meta recipe records /\
  buf_pre (segmentbuf (w_bv (f_world s))) (segmentbufoff (w_bv (f_world s))) pre len /\ segmentlen (w_bv (f_world s)) = len.

(** The statics that go with it. *)
Definition draft_step (s s' : filter_state) (cs : list chunk) : Prop :=
  f_access s' = last_id (f_access s) (map cp_id (map chunk_ptr (normals cs))) /\
  f_file s' = file_after (f_file s) cs /\ Forall fm_ok (closed_files (f_file s) cs).

Lemma cstr_nonzero d : Forall (fun ch => ch <> 0) (cstr d).
Proof. induction d as [|x d IH]; cbn; [done|]. destruct (Z.eqb_spec x 0); [done|]. by constructor. Qed.

Lemma recipe_chunk_ok s c cs o' num files chunks path meta recipe records pre len : file_stream (inside s) (c :: cs) = Some o' -> file_ok s -> name_ok c ->
  (is_file_flag c = false -> ptr_ok (chunk_ptr c)) -> recipe_at s num files chunks path meta recipe records pre len ->
  zlen pre + cp_len * zlen (normals [c]) <= len ->
  let cps := map chunk_ptr (normals [c]) in let rs := closed_by (f_file s) c in
  exists s', recipe_chunk s c = Ok s' /\ recipe_only s s' /\ file_ok s' /\ file_stream (inside s') cs = Some o' /\ draft_step s s' [c] /\
    recipe_at s' num (files + zlen rs) (chunks + zlen cps) path (meta ++ concat (map fm_bytes rs)) recipe
      (records ++ records_of (f_access s) (map cp_id cps)) (pre ++ items_bytes cps) len.
Proof.
  intros Hst Hfo Hn Hp (Hw & Hb & Hl) Hlen. unfold recipe_chunk, inside, file_ok, draft_step in *. cbn [closed_files file_after fold_left].
  destruct (f_file s) as [r|] eqn:Efile; cbn [file_stream] in Hst; cbn [closed_by file_step].
  - destruct (CHECK_CHUNK c CHUNK_FILE_END) eqn:Eend; cbn [negb].
    + destruct (append_file_spec _ _ _ _ _ _ _ _ _ Hw Hfo) as (b' & E & Hw'). destruct (append_file_segment _ _ _ E) as (S1 & S2 & S3).
      rewrite E. step. assert (normals [c] = []) as ->.
      { unfold normals. rewrite filter_cons_False; [done|]. unfold is_file_flag. rewrite Eend. by rewrite orb_true_r. }
      eexists. split; [reflexivity|]. do 3 (split; [done|]). cbn [map concat]. rewrite !app_nil_r, Z.add_0_r. split; [split_and!; [done|done|by constructor]|].
      split; [exact Hw'|]. cbn [set_recipe f_world w_bv]. by rewrite S1, S2, S3.
    + destruct (is_file_flag c) eqn:Hf; [done|]. assert (En : normals [c] = [c]) by (unfold normals; by rewrite filter_cons_True).
      rewrite En in *. change (zlen [c]) with 1 in Hlen. destruct (Hp eq_refl) as [Hcp Hid]. cbn in Hid.
      rewrite (proj2 (Z.leb_le _ _) Hid). cbn [c_assert]. step. fold (chunk_ptr c).
      destruct (append_pointers_spec [chunk_ptr c] _ (f_access s) _ _ _ _ _ _ _ pre Hw) as (b' & E & Hw' & Hb' & Hl').
      { by rewrite Hl. } { by apply Forall_singleton. } { rewrite Hl. exact Hlen. }
      assert (append_n_chunk_pointers (w_bv (f_world s)) (f_access s) [chunk_ptr c] 1 = Ok (b', cp_id (chunk_ptr c))) as -> by exact E.
      step. eexists. split; [reflexivity|]. split; [done|]. split; [|split; [exact Hst|split; [by split_and!|]]].
      * destruct Hfo as (H1 & H2 & H3 & H4). split_and!; [done|done|by apply swrap_range|by apply swrap_range].
      * change (zlen []) with 0. cbn [map concat]. rewrite app_nil_r, Z.add_0_r. split; [exact Hw'|]. cbn [set_recipe f_world w_bv].
        rewrite Hl', Hl in Hb'. rewrite Hl', Hl. by split.
  - destruct (CHECK_CHUNK c CHUNK_FILE_START) eqn:Est; [|done]. cbn [c_assert]. step. destruct (Hn Est) as (d & Ed & Hd).
    unfold chunk_name. rewrite Ed. cbn [deref default]. step. step. assert (normals [c] = []) as ->.
    { unfold normals. rewrite filter_cons_False; [done|]. unfold is_file_flag. by rewrite Est. }
    eexists. split; [reflexivity|]. split; [done|]. cbn [map concat]. change (zlen []) with 0. unfold items_bytes. cbn [map concat records_of]. rewrite !app_nil_r, !Z.add_0_r.
    split; [|split; [exact Hst|split; [by split_and!|by split_and!]]]. split_and!; [exact Hd|apply cstr_nonzero|done..].
Qed.

Lemma draft_step_cons s s1 s2 c cs : draft_step s s1 [c] -> draft_step s1 s2 cs -> draft_step s s2 (c :: cs).
Proof.
  intros (A1 & F1 & C1) (A2 & F2 & C2). assert (Enc : normals (c :: cs) = normals [c] ++ normals cs) by apply (normals_app [c] cs).
  unfold draft_step. rewrite Enc, !map_app, last_id_app, <- A1. cbn [closed_files] in *. cbn [file_after fold_left] in F1. rewrite <- F1.
  split; [done|]. split; [rewrite F2, F1; done|]. apply Forall_app. by rewrite app_nil_r in C1.
Qed.

Lemma recipe_chunks_ok cs : forall s o' num files chunks path meta recipe records pre len, file_stream (inside s) cs = Some o' -> file_ok s ->
  Forall (fun c => name_ok c /\ (is_file_flag c = false -> ptr_ok (chunk_ptr c))) cs ->
  recipe_at s num files chunks path meta recipe records pre len -> zlen pre + cp_len * zlen (normals cs) <= len ->
  let cps := map chunk_ptr (normals cs) in let rs := closed_files (f_file s) cs in
  exists s', foldM recipe_chunk s cs = Ok s' /\ recipe_only s s' /\ file_ok s' /\ inside s' = o' /\ draft_step s s' cs /\
    recipe_at s' num (files + zlen rs) (chunks + zlen cps) path (meta ++ concat (map fm_bytes rs)) recipe
      (records ++ records_of (f_access s) (map cp_id cps)) (pre ++ items_bytes cps) len.
Proof.
  induction cs as [|c cs IH]; intros s o' num files chunks path meta recipe records pre len Hst Hfo Hcs Hat Hlen cps rs.
  - exists s. injection Hst as <-. unfold cps, rs. cbn [closed_files normals map concat records_of]. change (zlen []) with 0.
    rewrite !app_nil_r, !Z.add_0_r. by split_and!.
  - apply Forall_cons in Hcs as [[Hn Hp] Hcs]. assert (Enc : normals (c :: cs) = normals [c] ++ normals cs) by apply (normals_app [c] cs).
    rewrite Enc, zlen_app in Hlen. pose proof (zlen_nonneg (normals cs)).
    destruct (recipe_chunk_ok s c cs o' num files chunks path meta recipe records pre len Hst Hfo Hn Hp Hat) as (s1 & E & Hr1 & Hf1 & Hst1 & Hd1 & Hat1); [unfold cp_len in *; lia|].
    cbn [foldM]. rewrite E. step.
    assert (Hok : Forall cp_ok (map chunk_ptr (normals [c]))).
    { unfold normals. rewrite filter_cons. case_decide; [|constructor]. apply Forall_singleton. by destruct (Hp H0). }
    destruct (IH s1 o' num _ _ path _ recipe _ _ len Hst1 Hf1 Hcs Hat1) as (s2 & -> & Hr2 & Hf2 & Ho2 & Hd2 & Hat2).
    { rewrite zlen_app. unfold items_bytes. rewrite zlen_cps by done. unfold zlen in *. rewrite length_map. unfold cp_len in *. lia. }
    exists s2. split; [done|]. split; [by etrans|]. split; [done|]. split; [done|]. split; [by eapply draft_step_cons|].
    destruct Hd1 as (A1 & F1 & _). cbn [file_after fold_left] in F1. unfold cps, rs. cbn [closed_files]. rewrite Enc, !map_app, !concat_app, !zlen_app, records_of_app, <- A1, <- F1.
    unfold items_bytes in *. rewrite map_app, concat_app, !app_assoc, !Z.add_assoc. exact Hat2.
Qed.

(** A segment goes to the recipe, the entries of the files it closes to the metadata. *)
Lemma write_recipe_ok s seg num segs files chunks path meta records o' :
  wstate (w_bv (f_world s)) num files chunks path meta (segs_bytes segs) records ->
  file_stream (inside s) (seg_chunks seg) = Some o' -> file_ok s ->
  Forall (fun c => name_ok c /\ (is_file_flag c = false -> ptr_ok (chunk_ptr c))) (seg_chunks seg) ->
  seg_chunk_num seg = zlen (normals (seg_chunks seg)) -> seg_chunk_num seg < 65536 ->
  let cps := map chunk_ptr (normals (seg_chunks seg)) in let rs := closed_files (f_file s) (seg_chunks seg) in
  exists s', write_recipe s seg = Ok (s', make_segment_id num (zlen (segs_bytes segs)) (zlen cps)) /\
    recipe_only s s' /\ file_ok s' /\ inside s' = o' /\ seg_ok cps /\ draft_step s s' (seg_chunks seg) /\
    wstate (w_bv (f_world s')) num (files + zlen rs) (chunks + zlen cps) path (meta ++ concat (map fm_bytes rs)) (segs_bytes (segs ++ [cps]))
      (records ++ records_of (f_access s) (map cp_id cps)).
Proof.
  intros Hw Hst Hfo Hcs Hnum Hlt cps rs. unfold write_recipe. pose proof (zlen_nonneg (normals (seg_chunks seg))).
  assert (Hzl : zlen cps = seg_chunk_num seg) by (rewrite Hnum; unfold cps, zlen; by rewrite length_map).
  assert (Hok : seg_ok cps).
  { split; [|lia]. unfold cps. apply Forall_map, Forall_forall. intros c Hc. unfold normals in Hc. apply list_elem_of_filter in Hc as [Hf Hin].
    rewrite Forall_forall in Hcs. by apply (Hcs c Hin). }
  destruct (append_start_spec _ _ _ _ _ _ _ _ (seg_chunk_num seg) Hw) as (b1 & -> & Hw1 & Hb1 & Hl1); [lia|]. step.
  set (s1 := set_recipe s b1 (f_access s) (f_file s) (f_stat s)).
  assert (Hflag : cp_ok (flag_cp CHUNK_SEGMENT_START (seg_chunk_num seg))) by (apply flag_cp_ok; [by left|unfold in_s; lia]).
  destruct (recipe_chunks_ok (seg_chunks seg) s1 o' num files chunks path meta (segs_bytes segs) records (cp_bytes (flag_cp CHUNK_SEGMENT_START (seg_chunk_num seg)))
    (segmentlen b1) Hst Hfo Hcs) as (s2 & -> & Hr2 & Hf2 & Ho2 & Hd2 & Hat2).
  { by split_and!. }
  { rewrite Hl1, zlen_cp_bytes, Hnum by done. unfold cp_len. lia. }
  step. destruct Hat2 as (Hw2 & Hb2 & Hl2).
  rewrite <- Hl2 in Hb2. destruct (append_end_spec _ _ _ _ _ _ _ _ _ 0 Hw2 Hb2) as (b3 & -> & Hw3); [|lia|].
  { rewrite Hl2, zlen_app, zlen_cp_bytes, Hl1 by done. unfold items_bytes. rewrite zlen_cps by (eapply Forall_impl; [apply Hok|by intros ? []]).
    rewrite <- Hzl. unfold cps, cp_len. lia. }
  step. eexists. split; [rewrite Hzl; reflexivity|]. split; [|split; [exact Hf2|split; [exact Ho2|split; [exact Hok|split; [exact Hd2|]]]]].
  - transitivity s2; [|done]. etrans; [|exact Hr2]. done.
  - cbn [set_recipe f_world w_bv]. rewrite segs_bytes_app. unfold segs_bytes at 2, seg_bytes, seg_items. cbn [map concat]. rewrite app_nil_r.
    unfold items_bytes in *. cbn [map concat]. rewrite map_app, concat_app, Hzl. cbn [map concat]. rewrite app_nil_r, <- (app_assoc (cp_bytes _)) in *.
    fold cps in Hw3. rewrite Hzl in Hw3. exact Hw3.
Qed.

(** The new segment in the ghosts. *)
Section NewSegment.
Context (versions : gmap Z (list (list chunkPointer))) (num : Z) (segs : list (list chunkPointer)) (cps : list chunkPointer).
Context (Hnum : versions !! num = Some segs) (Hcps : seg_ok cps) (Hbytes : zlen (segs_bytes (segs ++ [cps])) < 2 ^ 32) (Hrange : 0 <= num < 2 ^ 15).
Definition versions' : gmap Z (list (list chunkPointer)) := <[num := segs ++ [cps]]> versions.

Lemma zlen_segs_app l1 l2 : zlen (segs_bytes (l1 ++ l2)) = zlen (segs_bytes l1) + zlen (segs_bytes l2).
Proof using. by rewrite segs_bytes_app, zlen_app. Qed.

Lemma segs_small : zlen (segs_bytes segs) < 2 ^ 32.
Proof using Hbytes. rewrite zlen_segs_app in Hbytes. pose proof (zlen_nonneg (segs_bytes [cps])). lia. Qed.

Lemma seg_at_new id : seg_at versions' id <-> seg_at versions id \/ id = make_segment_id num (zlen (segs_bytes segs)) (zlen cps).
Proof using Hnum Hcps Hbytes Hrange.
  unfold seg_at, versions'. split.
  - intros (n & segs1 & cp & segs2 & E & Hn & Ho & Hc & ->). destruct (decide (n = num)) as [->|Hne].
    + rewrite lookup_insert_eq in E. injection E as E. destruct segs2 as [|x segs2 _] using rev_ind.
      * apply app_inj_tail in E as [-> ->]. by right.
      * rewrite app_comm_cons, app_assoc in E. apply app_inj_tail in E as [-> _]. left. by exists num, segs1, cp, segs2.
    + rewrite lookup_insert_ne in E by done. left. by exists n, segs1, cp, segs2.
  - intros [(n & segs1 & cp & segs2 & E & Hn & Ho & Hc & ->)| ->].
    + destruct (decide (n = num)) as [->|Hne].
      * exists num, segs1, cp, (segs2 ++ [cps]). rewrite lookup_insert_eq. assert (segs = segs1 ++ cp :: segs2) as -> by congruence.
        split_and!; try done; try lia. f_equal. by rewrite <- app_assoc.
      * exists n, segs1, cp, segs2. rewrite lookup_insert_ne by done. split_and!; done || lia.
    + exists num, segs, cps, []. rewrite lookup_insert_eq. pose proof segs_small. destruct Hcps. split_and!; done || lia.
Qed.

Lemma seg_id_fresh : ~ seg_at versions (make_segment_id num (zlen (segs_bytes segs)) (zlen cps)).
Proof using Hnum Hcps Hbytes Hrange.
  intros (n & segs1 & cp & segs2 & E & Hn & Ho & Hc & Heq). pose proof segs_small. destruct Hcps as [_ Hl].
  pose proof (zlen_nonneg cps). pose proof (zlen_nonneg cp). pose proof (zlen_nonneg (segs_bytes segs)). pose proof (zlen_nonneg (segs_bytes segs1)).
  destruct (segment_id_fields num (zlen (segs_bytes segs)) (zlen cps)) as (I1 & I2 & _); [lia..|].
  destruct (segment_id_fields n (zlen (segs_bytes segs1)) (zlen cp)) as (J1 & J2 & _); [lia..|].
  rewrite Heq in I1, I2. assert (n = num) as -> by congruence. assert (segs = segs1 ++ cp :: segs2) as Es by congruence.
  assert (E2 : zlen (segs_bytes segs1) = zlen (segs_bytes segs)) by congruence. rewrite Es, zlen_segs_app in E2.
  assert (0 < zlen (segs_bytes (cp :: segs2))); [|lia]. change (segs_bytes (cp :: segs2)) with (seg_bytes cp ++ segs_bytes segs2). rewrite zlen_app.
  change (seg_bytes cp) with (cp_bytes (flag_cp CHUNK_SEGMENT_START (zlen cp)) ++ items_bytes (cp ++ [flag_cp CHUNK_SEGMENT_END 0])).
  rewrite zlen_app, zlen_cp_bytes by (apply flag_cp_ok; [by left|unfold in_s; lia]). pose proof (zlen_nonneg (segs_bytes segs2)).
  pose proof (zlen_nonneg (items_bytes (cp ++ [flag_cp CHUNK_SEGMENT_END 0]))). unfold cp_len. lia.
Qed.

Lemma versions_ok_new log cb : versions_ok versions log cb -> pointers_hold log cb cps -> versions_ok versions' log cb.
Proof using Hnum Hcps Hbytes Hrange.
  intros HV Hp n l. unfold versions'. rewrite lookup_insert_Some. intros [[<- <-]|[_ E]]; [|by apply HV].
  destruct (HV num segs Hnum) as (_ & Hok & _ & Hps). split_and!; [lia|lia| |lia|].
  - apply Forall_app. split; [done|by apply Forall_singleton].
  - unfold pointers_hold. rewrite concat_app. apply Forall_app. split; [done|]. cbn. by rewrite app_nil_r.
Qed.

(** The recipes of the stores after the segment is written. *)
Lemma recipes_new bv bv' o files chunks path meta records : bv_num bv = num -> current_ok versions bv o ->
  (forall n l, versions !! n = Some l -> recipe_of dir bv o n (segs_bytes l)) ->
  wstate bv' num files chunks path meta (segs_bytes (segs ++ [cps])) records ->
  (forall n l, versions' !! n = Some l -> recipe_of dir bv' o n (segs_bytes l)) /\ current_ok versions' bv' o.
Proof using Hnum.
  intros Hb (Hwf & _) Hr Hw. assert (Hb' : bv_num bv' = num) by apply Hw. split.
  - intros n l. unfold versions'. rewrite lookup_insert_Some. intros [[<- <-]|[Hne E]].
    + split_and!; [|intros _; apply Hw|done]. intros b Hob Hbn. destruct o as [| |b']; [done| |]; injection Hob as <-; [apply Hw|].
      exfalso. apply (Hwf b' eq_refl). congruence.
    + destruct (Hr n l E) as (H1 & H2 & H3). split_and!; [|congruence|intros _; apply H3; congruence].
      intros b Hob Hbn. destruct o as [| |b']; [done| |]; injection Hob as <-; [congruence|]. by apply H1.
  - split; [intros b Hob; rewrite Hb', <- Hb; by apply Hwf|]. exists (segs ++ [cps]). do 5 eexists. rewrite Hb'.
    split; [|exact Hw]. apply lookup_insert_eq.
Qed.
End NewSegment.

(** The features of a segment. *)
Lemma segment_features_ok versions log cb s r seg sid : category_1 cfg = INDEX_CATEGORY_LOGICAL_LOCALITY ->
  kv_ok cfg (prefetchable versions log) (unit_has log) (ix_kv (f_index s)) -> ~ seg_at versions sid -> sid <> TEMPORARY_ID ->
  Forall (fun c => fp_wf (ck_fp c)) (seg_chunks seg) -> (seg_chunks seg = [] -> seg_chunk_num seg = 0) -> recent_ok log cb r ->
  exists ix', update_segment_features cfg s r seg sid = Ok (set_index s ix') /\
    kv_ok cfg (fun i => prefetchable versions log i \/ i = sid) (unit_has log) (ix_kv ix') /\ ix_cache ix' = ix_cache (f_index s) /\
    buffered_fingerprints ix' = buffered_fingerprints (f_index s) /\ buffer_chunk_num ix' = buffer_chunk_num (f_index s).
Proof.
  intros Hlog Hk Hnew Hsid Hwf Hn Hr. unfold update_segment_features.
  destruct (sampling_features cfg (co_key CO) (seg_chunks seg) (seg_chunk_num seg) (co_sampling CO) Hwf Hn) as (f & F & -> & E & HF0).
  step. rewrite E. step. set (F' := if _ =? _ then _ else F). assert (HF' : forall k, k ∈ F' -> zlen k = key_size cfg).
  { unfold F'. destruct (Z.eqb_spec (category_0 cfg) INDEX_CATEGORY_EXACT) as [E0|E0]; [|done]. intros k.
    rewrite !elem_of_union, !elem_of_dom. rewrite (co_exact_key CO E0). intros [[Hk0|[c Hc]]|[c Hc]].
    - rewrite <- (co_exact_key CO E0). by apply HF0.
    - apply (Hr k c). by left.
    - apply (Hr k c). by right. }
  destruct (index_update_ok cfg (prefetchable versions log) (unit_has log) (co_key CO) (co_length CO) (f_index s) F' sid)
    as (ix' & -> & Hk' & Hb1 & Hb2 & Hc' & _); try done.
  - unfold prefetchable. by rewrite (logical_not_physical Hlog).
  - intros [_ Ep]. by rewrite Hlog in Ep.
  - step. by exists ix'.
Qed.

(** A pointer to what is stored fits its fields. *)
Lemma holds_range log cb st written id fp : sys_inv simulation_level (mk_sys st cb written log) -> holds log cb id fp -> 0 <= id < count_max.
Proof.
  intros Hs (Hge & con & <- & _ & Hor). split; [done|]. destruct (si_count _ _ Hs). cbn in *. destruct Hor as [Hl| ->].
  - destruct (si_log _ _ Hs _ _ Hl) as (_ & _ & _ & ? & ?). cbn in *. destruct cb; lia.
  - destruct (si_open _ _ Hs con eq_refl) as (_ & Hid & _). cbn in *. lia.
Qed.

(** What is written of the version, whatever was there. *)
Definition draft_kept s s' (cs : list chunk) (segs : list (list chunkPointer)) : Prop :=
  draft_step s s' cs /\ forall num files chunks path meta records,
    wstate (w_bv (f_world s)) num files chunks path meta (segs_bytes segs) records ->
    let cps := map chunk_ptr (normals cs) in let rs := closed_files (f_file s) cs in
    wstate (w_bv (f_world s')) num (files + zlen rs) (chunks + zlen cps) path (meta ++ concat (map fm_bytes rs)) (segs_bytes (segs ++ [cps]))
      (records ++ records_of (f_access s) (map cp_id cps)).

(** The recipe of a segment is written and the index updated. *)
Lemma segment_written versions log written s r seg num segs o' : finv versions log written s ->
  versions !! num = Some segs -> bv_num (w_bv (f_world s)) = num ->
  zlen (segs_bytes segs) + cp_len * (zlen (normals (seg_chunks seg)) + 2) < 2 ^ 32 ->
  file_stream (inside s) (seg_chunks seg) = Some o' -> file_ok s ->
  Forall (fun c => name_ok c /\ fp_wf (ck_fp c) /\ (is_file_flag c = false -> ptr_ok (chunk_ptr c) /\ pointer_ok log (container_buffer s) (chunk_ptr c)))
    (seg_chunks seg) ->
  seg_chunk_num seg = zlen (normals (seg_chunks seg)) -> seg_chunk_num seg < 65536 -> recent_ok log (container_buffer s) r ->
  let cps := map chunk_ptr (normals (seg_chunks seg)) in
  exists s', ('(s, sid) ← write_recipe s seg;
      (if category_1 cfg =? INDEX_CATEGORY_LOGICAL_LOCALITY then update_segment_features cfg s r seg sid else Ok s)) = Ok s' /\
    finv (versions' versions num segs cps) log written s' /\ file_ok s' /\ inside s' = o' /\
    container_buffer s' = container_buffer s /\ w_cs (f_world s') = w_cs (f_world s) /\
    bv_num (w_bv (f_world s')) = num /\
    buffered_fingerprints (f_index s') = buffered_fingerprints (f_index s) /\ buffer_chunk_num (f_index s') = buffer_chunk_num (f_index s) /\
    (exact cfg -> ix_kv (f_index s') = ix_kv (f_index s)) /\ draft_kept s s' (seg_chunks seg) segs.
Proof.
  intros Hf Hv Hbn Hbytes Hst Hfo Hcs Hn Hlt Hrec cps. pose proof Hf as [(Hs & Hr & Hcur) HV Hm Hk Hc Ho Hsb Hd Hx Hun].
  pose proof Hcur as (_ & segs0 & files & chunks & path & meta & records & Hv0 & Hw). rewrite Hbn in Hv0, Hw.
  assert (segs0 = segs) as -> by congruence. clear Hv0.
  assert (Hcs' : Forall (fun c => name_ok c /\ (is_file_flag c = false -> ptr_ok (chunk_ptr c))) (seg_chunks seg)).
  { eapply Forall_impl; [exact Hcs|]. intros c (? & _ & Hp). split; [done|]. intros Hfl. by apply Hp. }
  destruct (write_recipe_ok s seg num segs _ _ _ _ _ o' Hw Hst Hfo Hcs' Hn Hlt) as (s1 & Ew & Hr1 & Hf1 & Ho1 & Hok & Hd1 & Hw1).
  assert (Hkept : draft_kept s s1 (seg_chunks seg) segs).
  { split; [exact Hd1|]. intros n0 fi ch pa me re Hw0. destruct (write_recipe_ok s seg n0 segs _ _ _ _ _ o' Hw0 Hst Hfo Hcs' Hn Hlt) as (s0 & E0 & _ & _ & _ & _ & _ & Hw0').
    rewrite Ew in E0. injection E0 as <- _. exact Hw0'. }
  rewrite Ew. step. fold cps in Hok, Hw1 |- *.
  assert (Hb1 : zlen (segs_bytes (segs ++ [cps])) < 2 ^ 32).
  { rewrite zlen_segs_app. unfold segs_bytes at 2. cbn [map concat]. rewrite app_nil_r, zlen_seg_bytes by done.
    unfold cps at 1. unfold zlen at 2. rewrite length_map. exact Hbytes. }
  destruct (HV num segs Hv) as (Hrange & _).
  assert (Hps : pointers_hold log (container_buffer s) cps).
  { unfold cps. apply Forall_map, Forall_forall. intros c Hin. unfold normals in Hin. apply list_elem_of_filter in Hin as [Hfl Hin].
    rewrite Forall_forall in Hcs. destruct (Hcs c Hin) as (_ & _ & Hp). by apply Hp. }
  pose proof (versions_ok_new versions num segs cps Hv Hok Hb1 Hrange _ _ HV Hps) as HV'.
  destruct (recipes_new versions num segs cps Hv (w_bv (f_world s)) (w_bv (f_world s1)) (w_opened (f_world s)) _ _ _ _ _ Hbn Hcur Hr Hw1) as [Hr' Hcur'].
  assert (Hwok : wok (versions' versions num segs cps) log (container_buffer s) written (f_world s1)).
  { rewrite Hr1. cbn [set_recipe f_world]. split; [exact Hs|]. by split. }
  assert (Hmono : forall id, prefetchable versions log id -> prefetchable (versions' versions num segs cps) log id).
  { intros id. unfold prefetchable. destruct (physical cfg); [done|]. intros Hid. apply seg_at_new; [done..|]. by left. }
  assert (Hrest : forall ix', kv_ok cfg (prefetchable (versions' versions num segs cps) log) (unit_has log) (ix_kv ix') -> ix_cache ix' = ix_cache (f_index s) ->
    (exact cfg -> ix_kv ix' = ix_kv (f_index s)) -> finv (versions' versions num segs cps) log written (set_index s1 ix')).
  { intros ix' Hk' Hc' Hx'. rewrite Hr1 in Hwok |- *. split; cbn [set_index set_recipe container_buffer f_world f_monitor f_index sb_chunks w_cs] in *; try done.
    - by rewrite Hc'.
    - intros He. rewrite (Hx' He). by apply Hx. }
  destruct (Z.eqb_spec (category_1 cfg) INDEX_CATEGORY_LOGICAL_LOCALITY) as [Hlog|Hlog].
  - pose proof (seg_id_fresh versions num segs cps Hv Hok Hb1 Hrange) as Hfresh. pose proof (segs_small segs cps Hb1) as Hsm.
    assert (Ei : f_index s1 = f_index s) by by rewrite Hr1.
    destruct (segment_features_ok versions log (container_buffer s) s1 r seg _ Hlog ltac:(by rewrite Ei) Hfresh) as (ix' & E & Hk' & Hc' & Hb & Hbn');
      [| | |done|].
    + rewrite make_segment_id_value by (destruct Hok; pose proof (zlen_nonneg cps); pose proof (zlen_nonneg (segs_bytes segs)); lia).
      pose proof (zlen_nonneg cps); pose proof (zlen_nonneg (segs_bytes segs)). unfold TEMPORARY_ID. lia.
    + eapply Forall_impl; [exact Hcs|]. by intros c (_ & ? & _).
    + intros E0. by rewrite Hn, E0.
    + rewrite E. exists (set_index s1 ix'). rewrite Ei in *. split; [done|]. split.
      * apply Hrest; [|done|intros [_ Ep]; by rewrite Hlog in Ep]. eapply kv_ok_mono; [|done|exact Hk'].
        intros id [Hid| ->]; [by apply Hmono|]. unfold prefetchable. rewrite (logical_not_physical Hlog). apply seg_at_new; [done..|]. by right.
      * split; [exact Hf1|]. split; [exact Ho1|]. split; [by rewrite Hr1|]. split; [by rewrite Hr1|]. split; [apply Hw1|].
        split; [done|]. split; [done|]. split; [intros [_ Ep]; by rewrite Hlog in Ep|exact Hkept].
  - exists s1. split; [done|]. split.
    + replace s1 with (set_index s1 (f_index s)) by (rewrite Hr1; by destruct s). apply Hrest; [|done|done]. by eapply kv_ok_mono.
    + split; [exact Hf1|]. split; [exact Ho1|]. split; [by rewrite Hr1|]. split; [by rewrite Hr1|]. split; [apply Hw1|].
      split; [by rewrite Hr1|]. split; [by rewrite Hr1|]. split; [by rewrite Hr1|exact Hkept].
Qed.

(** ** The phase, a segment at a time *)

Lemma buffer_inv_mono log cb log' cb' cb0 ix flight : holds_mono log cb log' cb' ->
  buffer_inv cfg (holds log cb) cb0 ix flight -> buffer_inv cfg (holds log' cb') cb0 ix flight.
Proof.
  intros Hm [Hq Hc Hn]. assert (Hid : forall id fp, id_ok (holds log cb) id fp -> id_ok (holds log' cb') id fp) by (intros id fp [?|?]; [by left|right; by apply Hm]).
  split; [|eapply Forall_impl; [exact Hc|]|done].
  - intros fp. specialize (Hq fp). destruct (with_fp fp flight) as [|c cs]; [done|]. destruct Hq as (id & ids & -> & Hl & Hi & Hd & Hh).
    exists id, ids. split_and!; try done. eapply Forall_impl; [exact Hi|]. intros. by apply Hid.
  - intros c [Hf Hl]. split; [done|]. destruct (is_dup c); [by apply Hid|done].
Qed.

Lemma buffer_inv_tables holds cb ix ix' flight : buffered_fingerprints ix' = buffered_fingerprints ix -> buffer_chunk_num ix' = buffer_chunk_num ix ->
  (exact cfg -> ix_kv ix' = ix_kv ix) -> buffer_inv cfg holds cb ix flight -> buffer_inv cfg holds cb ix' flight.
Proof.
  intros E1 E2 E3 [Hq Hc Hn]. split; [|done|by rewrite E2]. intros fp. specialize (Hq fp). rewrite E1.
  destruct (with_fp fp flight) as [|c cs]; [done|]. destruct Hq as (id & ids & -> & Hl & Hi & Hd & Hh). exists id, ids. split_and!; try done.
  destruct (is_dup c); [done|]. destruct Hh as (Ht & Ha & Hx). split; [done|]. split; [done|]. intros He. rewrite E3 by done. by apply Hx.
Qed.

Lemma finv_index versions log written s ix : finv versions log written s -> ix_kv ix = ix_kv (f_index s) -> ix_cache ix = ix_cache (f_index s) ->
  finv versions log written (set_index s ix).
Proof. intros [] E1 E2. split; cbn [set_index f_index]; rewrite ?E1, ?E2; done. Qed.

(** What the filter needs of the chunks of a segment. *)
Record seg_input (seg : segment) : Prop := {
  sg_chunks : Forall (fun c => (is_file_flag c = false -> data_ok c) /\ frag_ok c /\ name_ok c /\ fp_wf (ck_fp c)) (seg_chunks seg);
  sg_num : seg_chunk_num seg = zlen (normals (seg_chunks seg));
  sg_small : seg_chunk_num seg < 65536;
}.

(** The state of the phase between two segments: the invariant, the index buffer
    for the chunks in flight, and the open file. *)
Record filter_ok versions log written (flight : list chunk) s : Prop := {
  fo_inv : finv versions log written s;
  fo_buffer : buffer_inv cfg (holds log (container_buffer s)) (container_buffer s) (f_index s) flight;
  fo_file : file_ok s;
}.

Lemma Forall2_checked_forall (P Q : chunk -> Prop) cs cs' : Forall2 checked cs cs' -> (forall c c', checked c c' -> P c -> Q c') -> Forall P cs -> Forall Q cs'.
Proof.
  intros H HPQ HP. induction H as [|c c' cs cs' Hc _ IH]; [constructor|]. apply Forall_cons in HP as [? ?]. constructor; [by eapply HPQ|by apply IH].
Qed.

Lemma file_stream_same (R : chunk -> chunk -> Prop) cs cs' :
  (forall c c', R c c' -> CHECK_CHUNK c' CHUNK_FILE_START = CHECK_CHUNK c CHUNK_FILE_START /\ CHECK_CHUNK c' CHUNK_FILE_END = CHECK_CHUNK c CHUNK_FILE_END) ->
  Forall2 R cs cs' -> forall o, file_stream o cs' = file_stream o cs.
Proof using.
  intros HR H. induction H as [|c c' cs cs' Hc _ IH]; intros o; [done|]. cbn [file_stream]. destruct (HR c c' Hc) as [E1 E2].
  unfold is_file_flag. by rewrite E1, E2, !IH.
Qed.

Lemma name_ok_same c c' : same_chunk c c' -> name_ok c -> name_ok c'.
Proof. intros (_ & _ & E1 & E2 & _). unfold name_ok. by rewrite E1, E2. Qed.

(** The pointers of the recipe are those of the chunks, in order. *)
Definition pointers_of (cps : list chunkPointer) (cs : list chunk) : Prop :=
  map (fun cp => (cp_fp cp, cp_size cp)) cps = map (fun c => (ck_fp c, ck_size c)) cs.

Lemma pointers_of_checked cs cs' : Forall2 checked cs cs' -> pointers_of (map chunk_ptr (normals cs')) (normals cs).
Proof.
  unfold pointers_of. intros H. rewrite map_map. induction H as [|c c' cs cs' Hc _ IH]; [done|]. unfold normals in *. rewrite !filter_cons.
  destruct Hc as (Hs & _). rewrite (same_chunk_flag _ _ Hs). destruct (decide (is_file_flag c = false)); [|done].
  cbn [map]. destruct Hs as (E1 & E2 & _). cbn. rewrite E1, E2. f_equal. exact IH.
Qed.

Lemma filter_segment_ok versions log written s seg rest num segs o' : filter_ok versions log written (normals (seg_chunks seg) ++ rest) s ->
  seg_input seg -> file_stream (inside s) (seg_chunks seg) = Some o' ->
  versions !! num = Some segs -> bv_num (w_bv (f_world s)) = num ->
  zlen (segs_bytes segs) + cp_len * (seg_chunk_num seg + 2) < 2 ^ 32 ->
  container_count (w_cs (f_world s)) + zlen (seg_chunks seg) < count_max ->
  exists s' full log' cps, filter_segment cfg fcfg simulation_level wait_threshold s seg = Ok (s', full) /\
    filter_ok (versions' versions num segs cps) log' written rest s' /\ inside s' = o' /\ pointers_of cps (normals (seg_chunks seg)) /\
    holds_mono log (container_buffer s) log' (container_buffer s') /\ bv_num (w_bv (f_world s')) = num /\
    container_count (w_cs (f_world s')) <= container_count (w_cs (f_world s)) + zlen (seg_chunks seg) /\
    exists cs, Forall2 same_chunk (seg_chunks seg) cs /\ cps = map chunk_ptr (normals cs) /\ draft_kept s s' cs segs.
Proof.
  intros [Hf Hb Hfo] [Hcs Hn Hlt] Hst Hv Hbn Hbytes Hmax. unfold filter_segment.
  pose proof (prefetch_units versions log (container_buffer s) written (w_bv (f_world s)) 0 (fi_versions _ _ _ _ Hf)) as PU.
  destruct (index_check_buffer_ok cfg simulation_level dir _ _ _ _ (co_key CO) (container_buffer s) (f_index s) (seg_chunks seg) rest Hb)
    as (cs1 & -> & Hc1 & Hready). step.
  destruct (filter_chunks_ok versions log written s cs1 Hf Hready) as (s1 & r & cs2 & log1 & -> & [Hp (Rb & Ro & Ra & Rf & Rq & Rn) Hrec _ Hc2 Hids Hcnt]).
  { eapply Forall2_checked_forall; [exact Hc1| |exact Hcs]. intros c c' (Hs & _) (Hda & Hfrag & _).
    split; [|unfold frag_ok; assert (fragmented c' = fragmented c) as -> by apply Hs; done]. rewrite (same_chunk_flag _ _ Hs). intros Hfl. apply (data_ok_same c); auto. }
  { unfold zlen in *. by rewrite <- (Forall2_length _ _ _ Hc1). }
  step. assert (Hc : Forall2 checked (seg_chunks seg) cs2) by (by etrans).
  pose proof (normals_same _ _ (Forall2_impl _ _ _ _ Hc (fun _ _ h => proj1 h))) as Hnorm. apply Forall2_length in Hnorm.
  destruct Hp as [Hf1 Hm1 Hfr1]. pose proof (buffer_inv_mono _ _ _ _ _ _ _ Hm1 Hb) as Hb1.
  pose proof (prefetch_units versions log1 (container_buffer s1) written (w_bv (f_world s)) 0 (fi_versions _ _ _ _ Hf1)) as PU1.
  destruct (index_update_buffer_ok cfg simulation_level dir _ _ _ _ (co_key CO) (fun He => co_exact_key CO (proj1 He)) wait_threshold (container_buffer s) (container_buffer s1)
    (set_kv (f_index s1) (ix_kv (f_index s))) (ix_kv (f_index s1)) (seg_chunks seg) cs2 rest) as (full & ix2 & E2 & _ & Hca2 & Hb2).
  { by eapply buffer_inv_tables; [..|exact Hb1]. }
  { eapply Forall2_impl; [exact Hc|]. by intros ? ? [? _]. }
  { exact Hids. }
  { intros fp Hw Hfre. apply Hfr1; [|exact Hfre]. intros Hne. apply Hne. pose proof (with_fp_same fp _ _ (Forall2_impl _ _ _ _ Hc2 (fun _ _ h => proj1 h))) as Hl.
    rewrite Hw in Hl. by apply Forall2_nil_inv_r in Hl. }
  destruct (index_update_buffer_kv _ _ _ _ _ _ E2) as (ix3 & -> & -> & Ek3). step. cbn [set_kv ix_cache] in Hca2.
  destruct (segment_written versions log1 written (set_index s1 ix3) r (set_seg_chunks seg cs2) num segs o')
    as (s3 & E3 & Hf3 & Hfo3 & Ho3 & Hcb3 & Hcs3 & Hbn3 & Hq3 & Hn3 & Hx3 & Hkept); cbn [set_seg_chunks set_index seg_chunks seg_chunk_num container_buffer f_world f_file] in *.
  { by apply finv_index. }
  { done. }
  { by rewrite Rb. }
  { unfold zlen. rewrite <- Hnorm. unfold zlen in Hn. by rewrite <- Hn. }
  { rewrite (file_stream_same checked _ _ (fun _ _ h => conj (proj1 (proj2 (proj2 (proj2 (proj1 h))))) (proj1 (proj2 (proj2 (proj2 (proj2 (proj1 h))))))) Hc). unfold inside in *. cbn. by rewrite Rf. }
  { unfold file_ok in *. cbn. by rewrite Rf. }
  { apply Forall_forall. intros c' Hin. apply list_elem_of_lookup_1 in Hin as [i Hi]. destruct (Forall2_lookup_r _ _ _ _ _ Hc Hi) as (c & Hi0 & Hs & _).
    rewrite Forall_forall in Hcs. destruct (Hcs c (list_elem_of_lookup_2 _ _ _ Hi0)) as (Hda & _ & Hna & Hwf).
    split; [by eapply name_ok_same|]. assert (ck_fp c' = ck_fp c) as -> by apply Hs. split; [done|]. intros Hfl.
    rewrite Forall_forall in Hids. assert (Hh := Hids c' (list_elem_of_lookup_2 _ _ _ Hi) Hfl). assert (Ef : ck_fp c' = ck_fp c) by apply Hs. rewrite Ef in Hh.
    rewrite (same_chunk_flag _ _ Hs) in Hfl. destruct (Hda Hfl) as (Hl & _ & Hsz & Hbs).
    destruct (fi_wok _ _ _ _ Hf1) as [Hsys _]. destruct (holds_range _ _ _ _ _ _ Hsys Hh) as [? Hmaxid]. assert (Esz : ck_size c' = ck_size c) by apply Hs.
    unfold ptr_ok, pointer_ok, cp_ok, chunk_ptr. cbn. rewrite Ef, Esz. unfold count_max, CONTAINER_SIZE, CONTAINER_META_SIZE in *.
    split; [split_and!; [done|unfold in_s; lia..|done]|]. split; [done|]. intros Hlv. symmetry. apply (chunk_bytes_size c). by apply Hbs. }
  { unfold zlen in *. by rewrite <- Hnorm. }
  { done. }
  { done. }
  revert E3. destruct (write_recipe _ _) as [[s4 sid]|]; [|done]. cbn [mbind res_bind]. intros ->. step.
  exists s3, full, log1, (map chunk_ptr (normals cs2)). split; [done|]. split; [split; [exact Hf3| |exact Hfo3]|].
  - rewrite Hcb3. eapply buffer_inv_tables; [..|exact Hb2]; [done|done|]. intros He. by rewrite (Hx3 He).
  - split; [done|]. split; [by apply pointers_of_checked|]. split; [by rewrite Hcb3|]. split; [done|]. split.
    + rewrite Hcs3. unfold zlen in *. by rewrite (Forall2_length _ _ _ Hc1).
    + exists cs2. split; [eapply Forall2_impl; [exact Hc|by intros ? ? [? _]]|]. split; [done|].
      unfold draft_kept, draft_step in *. cbn [set_index f_access f_file f_world] in Hkept. by rewrite Ra, Rf, Rb in Hkept.
Qed.
End FilterInv.

(** ** The named indexes *)

(** C24: every named index that [init_index] knows gets a configuration that the
    backup relies on, whatever the other settings: the keys fit a fingerprint,
    whole fingerprints are keys when the index is exact, and the sampling method
    exists with a ratio it can divide by. Extreme binning, and any other number,
    stops the program. *)
Theorem named_index_config `{SF : !SeqSort fingerprint} `{SA : !SeqSort (fingerprint * fingerprint)} c : 0 < value_length c ->
  (index_specific c ∈ [INDEX_SPECIFIC_DDFS; INDEX_SPECIFIC_BLOCK_LOCALITY_CACHING; INDEX_SPECIFIC_SAMPLED; INDEX_SPECIFIC_SPARSE; INDEX_SPECIFIC_SILO] ->
     exists cfg, init_index_config c = Ok cfg /\ config_ok cfg /\ key_size cfg = fp_size) /\
  (index_specific c ∉ [INDEX_SPECIFIC_NO; INDEX_SPECIFIC_DDFS; INDEX_SPECIFIC_BLOCK_LOCALITY_CACHING; INDEX_SPECIFIC_SAMPLED; INDEX_SPECIFIC_SPARSE; INDEX_SPECIFIC_SILO] ->
     init_index_config c = Err (EExit 1)).
Proof.
  intros Hv. assert (Hm : forall v d, 1 < d -> 1 < more_than_one v d) by (intros v d Hd; unfold more_than_one; destruct (Z.ltb_spec 1 v); lia).
  pose proof (Hm (sampling_1 c) 128 ltac:(lia)) as Hs. unfold init_index_config, apply_specific. split.
  - intros Hin. rewrite !elem_of_cons, elem_of_nil in Hin. destruct Hin as [->|[->|[->|[->|[->|[]]]]]];
      (eexists; split; [reflexivity|]; split; [split|done]; try done; try (by left); try (by right); try (by intros [? ?]);
       (split; [by eexists|]); split; cbn; try lia; try (intros; split; done)).
  - intros Hni. rewrite !not_elem_of_cons in Hni. destruct Hni as (H0 & H1 & H2 & H3 & H4 & H5 & _).
    rewrite !(proj2 (Z.eqb_neq (index_specific c) _)) by done. done.
Qed.

Lemma named_index_config_witness : exists cfg,
  init_index_config (mk_index_config INDEX_SPECIFIC_SPARSE 0 0 0 0 1 0 0 0 3 0 100) = Ok cfg /\ @config_ok std_seq_sort std_seq_sort cfg.
Proof.
  destruct (@named_index_config std_seq_sort std_seq_sort (mk_index_config INDEX_SPECIFIC_SPARSE 0 0 0 0 1 0 0 0 3 0 100)) as [H _]; [done|].
  destruct H as (cfg & E & Hc & _); [decide_it|]. by exists cfg.
Defined.
