(* ===== verification/DedupPhase.v ===== *)
(** The dedup phase: [destor/src/dedup_phase.c].

    The thread cuts the stream into segments ([Segmenting]), marks the duplicate
    chunks of each ([Index]) and sends the segment between two flag chunks; the
    filter phase collects it again. The lock that makes the thread wait for the
    index buffer is in the steps of [Backup]. *)

From S2P Require Import Prelude Glib Destor Container Recipe Segmenting Sampling KvStore Index Filter.

(** [index_lock.wait_threshold] as [start_dedup_phase] sets it. *)
Definition start_dedup_phase (rewrite_algorithm_1 index_segment_max index_segment_algorithm_0 index_segment_algorithm_1 : Z) : Z :=
  if index_segment_algorithm_0 =? INDEX_SEGMENT_CONTENT_DEFINED then s32 (rewrite_algorithm_1 + index_segment_max - 1)
  else if index_segment_algorithm_0 =? INDEX_SEGMENT_FIXED then s32 (rewrite_algorithm_1 + index_segment_algorithm_1 - 1)
  else -1.

Definition flag_chunk (flag : Z) : chunk := SET_CHUNK (new_chunk 0) flag.

(** What is pushed for a segment. *)
Definition send_segment (s : segment) : list chunk :=
  flag_chunk CHUNK_SEGMENT_START :: seg_chunks s ++ [flag_chunk CHUNK_SEGMENT_END].

Section DedupPhase.
Context `{HC : !HashIter fingerprint metaEntry} `{HF : !HashIter (list Z) ()} `{HS : !HashIter Z (gset (list Z))}.
Context `{SF : !SeqSort fingerprint} `{SA : !SeqSort (fingerprint * fingerprint)} `{SS : !SeqSort (Z * gset (list Z))}.
Context (cfg : index_config) (simulation_level wait_threshold : Z) (dir : gmap Z version_files).

(** A segment of [segmenting], under [index_lock]; [None]: the thread waits. *)
Definition dedup_segment (cb : option container) (ix : index) (w : world) (s : segment) : res (option (index * world * segment)) :=
  if 0 <? seg_chunk_num s then index_lookup cfg simulation_level dir wait_threshold cb ix w s else Ok (Some (ix, w, s)).
End DedupPhase.

(** ** Segments through the queue *)

(** The segment as the filter phase sees it. *)
Definition received (s : segment) : segment := mk_segment TEMPORARY_ID (normal_count (seg_chunks s)) (seg_chunks s) None.

Definition no_segment_end (cs : list chunk) : Prop := Forall (fun c => CHECK_CHUNK c CHUNK_SEGMENT_END = false) cs.

Lemma collect_segment_spec cs rest : forall seg, no_segment_end cs -> 0 <= seg_chunk_num seg -> seg_chunk_num seg + normal_count cs < 2 ^ 31 ->
  collect_segment (cs ++ flag_chunk CHUNK_SEGMENT_END :: rest) seg =
  Ok (mk_segment (seg_id seg) (seg_chunk_num seg + normal_count cs) (seg_chunks seg ++ cs) (seg_features seg), rest).
Proof.
  induction cs as [|c cs IH]; intros seg Hc Hn Hlt.
  - rewrite app_nil_r, Z.add_0_r. by destruct seg.
  - apply Forall_cons in Hc as [Hc Hcs]. cbn [app collect_segment]. rewrite Hc.
    assert (En : normal_count (c :: cs) = (if is_file_flag c then 0 else 1) + normal_count cs).
    { unfold normal_count. rewrite filter_cons. destruct (is_file_flag c); [by rewrite decide_False|rewrite decide_True by done; by rewrite zlen_cons, Z.add_comm]. }
    assert (0 <= normal_count cs) by apply zlen_nonneg. rewrite En in Hlt |- *.
    destruct (is_file_flag c); rewrite IH; cbn [seg_id seg_chunk_num seg_chunks seg_features]; try done; try rewrite swrap_id by (unfold in_s; lia); try lia;
      rewrite <- app_assoc; do 3 f_equal; lia.
Qed.

(** The queue of a list of segments is filtered a segment at a time. *)
Lemma filter_segments_send `{HC : !HashIter fingerprint metaEntry} `{HF : !HashIter (list Z) ()}
    `{SF : !SeqSort fingerprint} `{SA : !SeqSort (fingerprint * fingerprint)} cfg fcfg simulation_level wait_threshold ss : forall fuel s,
  Forall (fun seg => no_segment_end (seg_chunks seg) /\ normal_count (seg_chunks seg) < 2 ^ 31) ss -> (length ss <= fuel)%nat ->
  filter_segments cfg fcfg simulation_level wait_threshold (S fuel) s (concat (map send_segment ss)) =
  foldM (fun s seg => '(s, _) ← filter_segment cfg fcfg simulation_level wait_threshold s (received seg); Ok s) s ss.
Proof.
  induction ss as [|seg ss IH]; intros fuel s Hs Hf; [done|]. apply Forall_cons in Hs as [[Hc Hn] Hs]. cbn [length] in Hf.
  destruct fuel as [|fuel]; [lia|]. unfold send_segment at 1. cbn [map concat foldM app filter_segments].
  change (CHECK_CHUNK (flag_chunk CHUNK_SEGMENT_START) CHUNK_SEGMENT_START) with true. cbn [c_assert]. step. rewrite <- app_assoc.
  assert (0 <= normal_count (seg_chunks seg)) by apply zlen_nonneg. cbn [app].
  rewrite collect_segment_spec; [|done|done|cbn; lia]. step. change (mk_segment _ _ _ _) with (received seg).
  destruct (filter_segment _ _ _ _ s (received seg)) as [[s1 full]|]; [|done]. step. apply IH; [done|lia].
Qed.
