(* ===== verification/Backup.v ===== *)
(** A backup: the dedup thread, the rewriting, the filter thread and the append
    thread of the container store over their shared state.

    [b_todo] are the segments still to be looked up, [b_flight] those between the
    lookup and the filter. A step is what a thread does while it holds
    [index_lock] (or the lock of the container queue), so every interleaving of
    the threads is a sequence of steps. *)

From S2P Require Import Prelude Serial CFile Glib Destor Double LruCache Container Recipe Segmenting Sampling KvStore RestoreCache DoRestore RestoreAware Index IndexInv Filter FilterInv DedupPhase.

Record backup := mk_backup {
  b_todo : list segment;
  b_flight : list segment;
  b_filter : filter_state;
  b_written : bool;          (** the append thread has written the first container of its queue *)
}.

(** What the lookup and the append thread change of the state they share with the filter. *)
Definition set_lookup (s : filter_state) (ix : index) (w : world) : filter_state :=
  mk_fstate ix w (f_access s) (container_buffer s) (sb_chunks s) (f_monitor s) (f_har s) (enable_rewrite s) (f_file s) (f_stat s).
Definition set_cs (s : filter_state) (st : cstore) : filter_state := set_storage s st (container_buffer s) (sb_chunks s).

Section Backup.
Context `{HC : !HashIter fingerprint metaEntry} `{HF : !HashIter (list Z) ()} `{HS : !HashIter Z (gset (list Z))}.
Context `{SF : !SeqSort fingerprint} `{SA : !SeqSort (fingerprint * fingerprint)} `{SS : !SeqSort (Z * gset (list Z))}.
Context (cfg : index_config) (fcfg : filter_config) (simulation_level wait_threshold : Z) (dir : gmap Z version_files).

(** What the rewriting may do to a chunk in flight: mark it as fragmented, if an
    algorithm is configured. *)
Definition rewritten (c c' : chunk) : Prop :=
  ck_size c' = ck_size c /\ ck_fp c' = ck_fp c /\ ck_data c' = ck_data c /\ ck_id c' = ck_id c /\ is_dup c' = is_dup c /\
  CHECK_CHUNK c' CHUNK_FILE_START = CHECK_CHUNK c CHUNK_FILE_START /\ CHECK_CHUNK c' CHUNK_FILE_END = CHECK_CHUNK c CHUNK_FILE_END /\
  (fragmented c' = fragmented c \/ rewrite_algorithm_0 fcfg <> REWRITE_NO).

(** The limits of the stores: ids of containers, and the 4 GB that the offset of
    a segment id can address. *)
Definition room (s : filter_state) (seg : segment) : Prop :=
  zlen (fdata (recipe_fp (w_bv (f_world s)))) + cp_len * (seg_chunk_num seg + 2) < 2 ^ 32 /\
  container_count (w_cs (f_world s)) + zlen (seg_chunks seg) < count_max.

(** The steps of the threads, and more: a segment may be filtered as soon as it was
    looked up, although the rewriting may hold some of its chunks back. What holds
    of all states that these steps reach holds of those of the program; that a
    backup ends is shown with the steps that are possible for sure ([released]). *)
Inductive backup_step : backup -> backup -> Prop :=
| step_lookup seg todo fl f w ix wd seg' :
    dedup_segment cfg simulation_level wait_threshold dir (container_buffer f) (f_index f) (f_world f) seg = Ok (Some (ix, wd, seg')) ->
    backup_step (mk_backup (seg :: todo) fl f w) (mk_backup todo (fl ++ [received seg']) (set_lookup f ix wd) w)
| step_rewrite todo fl1 seg fl2 f w cs :
    Forall2 rewritten (seg_chunks seg) cs ->
    backup_step (mk_backup todo (fl1 ++ seg :: fl2) f w) (mk_backup todo (fl1 ++ set_seg_chunks seg cs :: fl2) f w)
| step_filter todo seg fl f w f' full :
    room f seg -> filter_segment cfg fcfg simulation_level wait_threshold f seg = Ok (f', full) ->
    backup_step (mk_backup todo (seg :: fl) f w) (mk_backup todo fl f' w)
| step_append todo fl f st :
    append_write simulation_level (w_cs (f_world f)) = Some (Ok st) ->
    backup_step (mk_backup todo fl f false) (mk_backup todo fl (set_cs f st) true)
| step_pop todo fl f :
    backup_step (mk_backup todo fl f true) (mk_backup todo fl (set_cs f (append_pop (w_cs (f_world f)))) false).

(** The chunks of segments, in order. *)
Definition chunks_of (ss : list segment) : list chunk := concat (map seg_chunks ss).

Definition ptr_key (cp : chunkPointer) : fingerprint * Z := (cp_fp cp, cp_size cp).
Definition chunk_key (c : chunk) : fingerprint * Z := (ck_fp c, ck_size c).

Context `{HCO : !HashIterOk fingerprint metaEntry} `{HFO : !HashIterOk (list Z) ()} `{HSO : !HashIterOk Z (gset (list Z))}.
Context `{SFO : !SeqSortOk fingerprint} `{SAO : !SeqSortOk (fingerprint * fingerprint)} `{SSO : !SeqSortOk (Z * gset (list Z))}.
Context (CO : config_ok cfg) (content : fingerprint -> list Z).
Implicit Types (log : gmap Z container) (versions : gmap Z (list (list chunkPointer))).

(** A segment as [segmenting] hands it over, of chunks as the phases before leave them. *)
Record todo_ok (seg : segment) : Prop := {
  to_new : new_segment_ok seg;
  to_chunks : Forall (fun c => (is_file_flag c = false -> data_ok simulation_level content c) /\ fragmented c = false /\ name_ok c) (seg_chunks seg);
  to_num : seg_chunk_num seg = normal_count (seg_chunks seg);
  to_small : seg_chunk_num seg < 65536;
}.

(** What a version starts from: the directory of its path, the header of its
    metadata, and the access record that an earlier backup left. *)
Record version_start := mk_vstart { vs_path : list Z; vs_head : list Z; vs_access : Z }.

(** The version [b] with the file entries [files] and the segments [segs]. *)
Definition version_written (v0 : version_start) (num : Z) (b : backupVersion) (access : Z) (files : list fileRecipeMeta) (segs : list (list chunkPointer)) : Prop :=
  let ids := map cp_id (concat segs) in
  wstate b num (zlen files) (zlen (concat segs)) (vs_path v0) (vs_head v0 ++ concat (map fm_bytes files)) (segs_bytes segs) (records_of (vs_access v0) ids) /\
  access = last_id (vs_access v0) ids /\ Forall fm_ok files.

(** The invariant: [log] and [versions] are what is stored (see [FilterInv]),
    [segs] the segments of the version being written. *)
Record binv (input : list chunk) (num : Z) (old : gmap Z (list (list chunkPointer))) (v0 : version_start) (b : backup) versions log segs : Prop := {
  bi_filter : filter_ok cfg fcfg simulation_level dir content versions log (b_written b) (concat (map (fun s => normals (seg_chunks s)) (b_flight b))) (b_filter b);
  bi_flight : Forall (seg_input fcfg simulation_level content) (b_flight b);
  bi_todo : Forall todo_ok (b_todo b);
  bi_stream : file_stream (inside (b_filter b)) (chunks_of (b_flight b ++ b_todo b)) = Some false;
  bi_version : versions !! num = Some segs;
  bi_old n : n <> num -> versions !! n = old !! n;
  bi_current : bv_num (w_bv (f_world (b_filter b))) = num;
  bi_keys : map ptr_key (concat segs) ++ map chunk_key (normals (chunks_of (b_flight b ++ b_todo b))) = map chunk_key (normals input);
  bi_files : exists files, version_written v0 num (w_bv (f_world (b_filter b))) (f_access (b_filter b)) files segs /\
    files ++ closed_files (f_file (b_filter b)) (chunks_of (b_flight b ++ b_todo b)) = closed_files None input;
}.

Lemma chunks_of_app l1 l2 : chunks_of (l1 ++ l2) = chunks_of l1 ++ chunks_of l2.
Proof. unfold chunks_of. by rewrite map_app, concat_app. Qed.

Lemma normals_chunks_of ss : concat (map (fun s => normals (seg_chunks s)) ss) = normals (chunks_of ss).
Proof. induction ss as [|s ss IH]; [done|]. unfold chunks_of in *. cbn [map concat]. by rewrite IH, normals_app. Qed.

Lemma file_stream_app cs1 : forall o cs2, file_stream o (cs1 ++ cs2) = (match file_stream o cs1 with Some o1 => file_stream o1 cs2 | None => None end).
Proof.
  induction cs1 as [|c cs1 IH]; intros o cs2; [done|]. cbn [app file_stream].
  destruct o; [destruct (CHECK_CHUNK c CHUNK_FILE_END); [apply IH|destruct (is_file_flag c); [done|apply IH]]|].
  destruct (CHECK_CHUNK c CHUNK_FILE_START); [apply IH|done].
Qed.

Lemma closed_files_app cs1 : forall o cs2, closed_files o (cs1 ++ cs2) = closed_files o cs1 ++ closed_files (file_after o cs1) cs2.
Proof. induction cs1 as [|c cs1 IH]; intros o cs2; [done|]. cbn [app closed_files]. by rewrite IH, app_assoc. Qed.

(** Chunks that differ in ids and other flags only close the same files. *)
Lemma closed_files_same (R : chunk -> chunk -> Prop) cs cs' :
  (forall c c', R c c' -> ck_data c' = ck_data c /\ ck_size c' = ck_size c /\ CHECK_CHUNK c' CHUNK_FILE_END = CHECK_CHUNK c CHUNK_FILE_END) ->
  Forall2 R cs cs' -> forall o, closed_files o cs' = closed_files o cs /\ file_after o cs' = file_after o cs.
Proof.
  intros HR H. induction H as [|c c' cs cs' Hc _ IH]; intros o; [done|]. destruct (HR c c' Hc) as (E1 & E2 & E3).
  assert (Es : file_step o c' = file_step o c) by (unfold file_step; by rewrite E1, E2, E3).
  unfold file_after in *. cbn [closed_files fold_left]. rewrite Es. destruct (IH (file_step o c)) as [-> ->]. split; [|done]. unfold closed_by. by rewrite E3.
Qed.

(** ** A segment is looked up *)

Lemma set_lookup_finv versions log written s ix w : finv cfg fcfg simulation_level dir content versions log written s ->
  wok simulation_level dir versions log (container_buffer s) written w -> cache_ok cfg (holds log (container_buffer s)) (ix_cache ix) ->
  ix_kv ix = ix_kv (f_index s) -> finv cfg fcfg simulation_level dir content versions log written (set_lookup s ix w).
Proof. intros [] Hw Hc Ek. split; cbn [set_lookup f_index f_world container_buffer sb_chunks f_monitor]; rewrite ?Ek; done. Qed.

Lemma open_meta versions log written s con : finv cfg fcfg simulation_level dir content versions log written s -> container_buffer s = Some con ->
  meta_unit (holds log (container_buffer s)) (c_meta con).
Proof.
  intros Hf Hcb fp Hfp. destruct (fi_wok _ _ _ _ _ _ _ _ _ Hf) as [Hs _]. destruct (si_open _ _ Hs con Hcb) as (_ & _ & Hge).
  split; [done|]. exists con. split_and!; [done|done|]. right. exact Hcb.
Qed.

Lemma dedup_segment_ok versions log written f seg flight : filter_ok cfg fcfg simulation_level dir content versions log written flight f -> todo_ok seg ->
  exists r, dedup_segment cfg simulation_level wait_threshold dir (container_buffer f) (f_index f) (f_world f) seg = Ok r /\
    match r with
    | None => 0 < wait_threshold <= buffer_chunk_num (f_index f)
    | Some (ix, w, seg') => filter_ok cfg fcfg simulation_level dir content versions log written (flight ++ normals (seg_chunks seg')) (set_lookup f ix w) /\
        (same_version (w_bv (f_world f)) (w_bv w) /\ container_count (w_cs w) = container_count (w_cs (f_world f))) /\ Forall2 same_chunk (seg_chunks seg) (seg_chunks seg')
    end.
Proof.
  intros [Hf Hb Hfo] [Hnew Hcs Hn Hlt]. unfold dedup_segment. destruct (Z.ltb_spec 0 (seg_chunk_num seg)) as [Hpos|Hpos].
  - pose proof (prefetch_units cfg simulation_level dir content versions log (container_buffer f) written (w_bv (f_world f)) (container_count (w_cs (f_world f))) (fi_versions _ _ _ _ _ _ _ _ _ Hf)) as PU.
    destruct (index_lookup_ok cfg simulation_level dir _ _ _ _ (co_key _ CO) (fun He => co_exact_key _ CO (proj1 He)) (co_length _ CO) wait_threshold
      (container_buffer f) (f_index f) (f_world f) seg flight (co_sampling _ CO)) as (r & E & Hr); try done.
    { intros con. by apply open_meta with (written := written) (versions := versions). }
    { apply Hf. } { apply Hf. } { split; [apply Hf|split; [apply same_version_refl|done]]. }
    exists r. split; [exact E|]. destruct r as [[[ix w] seg']|]; [|exact Hr]. destruct Hr as [(Hb' & Hc' & Hk' & [Hw' Hbn'] & Hs') _].
    split; [|by split]. split; [by apply set_lookup_finv|exact Hb'|exact Hfo].
  - eexists. split; [reflexivity|]. split; [|split; [split; [apply same_version_refl|done]|done]].
    assert (normals (seg_chunks seg) = []) as ->.
    { rewrite Hn in Hpos. change (normal_count (seg_chunks seg)) with (zlen (normals (seg_chunks seg))) in Hpos.
      destruct (normals (seg_chunks seg)) as [|c l]; [done|]. rewrite zlen_cons in Hpos. pose proof (zlen_nonneg l). lia. }
    rewrite app_nil_r. replace (set_lookup f (f_index f) (f_world f)) with f by by destruct f. by split.
Qed.

(** ** The rewriting marks chunks *)

Lemma rewritten_flag c c' : rewritten c c' -> is_file_flag c' = is_file_flag c.
Proof. intros (_&_&_&_&_&E1&E2&_). unfold is_file_flag. by rewrite E1, E2. Qed.

Lemma normals_rewritten cs cs' : Forall2 rewritten cs cs' -> Forall2 rewritten (normals cs) (normals cs').
Proof.
  intros H. induction H as [|c c' cs cs' Hc _ IH]; [constructor|]. unfold normals in *. rewrite !filter_cons.
  rewrite (rewritten_flag _ _ Hc). destruct (decide (is_file_flag c = false)); [by constructor|done].
Qed.

Lemma with_fp_rewritten fp cs cs' : Forall2 rewritten cs cs' -> Forall2 rewritten (with_fp fp cs) (with_fp fp cs').
Proof.
  intros H. induction H as [|c c' cs cs' Hc _ IH]; [constructor|]. unfold with_fp in *. rewrite !filter_cons.
  assert (ck_fp c' = ck_fp c) as -> by apply Hc. destruct (decide (ck_fp c = fp)); [by constructor|done].
Qed.

Lemma buffer_inv_rewritten holds cb ix fl fl' : Forall2 rewritten fl fl' -> buffer_inv cfg holds cb ix fl -> buffer_inv cfg holds cb ix fl'.
Proof.
  intros Hr [Hq Hc Hn]. split.
  - intros fp. eapply (queue_inv_same cfg holds); [|apply Hq]. eapply Forall2_impl; [by apply with_fp_rewritten|]. by intros c c' (_&_&_&_&?&_).
  - apply Forall_forall. intros c' Hin. apply list_elem_of_lookup_1 in Hin as [i Hi]. destruct (Forall2_lookup_r _ _ _ _ _ Hr Hi) as (c & Hi0 & Hcc).
    rewrite Forall_forall in Hc. destruct (Hc c (list_elem_of_lookup_2 _ _ _ Hi0)) as [Hf Hl]. split; [by rewrite (rewritten_flag _ _ Hcc)|].
    destruct Hcc as (_ & E1 & _ & E2 & E3 & _). rewrite E1, E2, E3. exact Hl.
  - rewrite Hn. unfold zlen. by rewrite (Forall2_length _ _ _ Hr).
Qed.

Lemma chunk_key_normals (R : chunk -> chunk -> Prop) cs cs' : (forall c c', R c c' -> is_file_flag c' = is_file_flag c /\ chunk_key c' = chunk_key c) ->
  Forall2 R cs cs' -> map chunk_key (normals cs') = map chunk_key (normals cs).
Proof using.
  intros HR H. induction H as [|c c' cs cs' Hc _ IH]; [done|]. destruct (HR c c' Hc) as [Ef Ek]. unfold normals in *. rewrite !filter_cons, Ef.
  destruct (decide (is_file_flag c = false)); [|done]. cbn [map]. by rewrite Ek, IH.
Qed.

Lemma seg_input_rewritten seg cs : seg_input fcfg simulation_level content seg -> Forall2 rewritten (seg_chunks seg) cs ->
  seg_input fcfg simulation_level content (set_seg_chunks seg cs).
Proof.
  intros [Hc Hn Hlt] Hr. split; cbn [set_seg_chunks seg_chunks seg_chunk_num]; [|by rewrite Hn; unfold zlen; rewrite (Forall2_length _ _ _ (normals_rewritten _ _ Hr))|done].
  apply Forall_forall. intros c' Hin. apply list_elem_of_lookup_1 in Hin as [i Hi]. destruct (Forall2_lookup_r _ _ _ _ _ Hr Hi) as (c & Hi0 & Hcc).
  rewrite Forall_forall in Hc. destruct (Hc c (list_elem_of_lookup_2 _ _ _ Hi0)) as (Hda & Hfr & Hna & Hwf).
  rewrite (rewritten_flag _ _ Hcc). destruct Hcc as (E1 & E2 & E3 & _ & _ & E4 & _ & E5). unfold data_ok, name_ok, frag_ok, chunk_bytes in *.
  rewrite E1, E2, E3, E4. split_and!; try done; try (intros Hfl; by destruct (Hda Hfl) as (?&?&?&?)). intros Hf. destruct E5 as [E5|E5]; [|done]. apply Hfr. by rewrite <- E5.
Qed.

(** ** The invariant is kept *)

Lemma chunks_of_one fl1 seg cs fl2 :
  chunks_of (fl1 ++ set_seg_chunks seg cs :: fl2) = chunks_of fl1 ++ cs ++ chunks_of fl2 /\
  chunks_of (fl1 ++ seg :: fl2) = chunks_of fl1 ++ seg_chunks seg ++ chunks_of fl2.
Proof. by rewrite !chunks_of_app. Qed.

(** A segment of the stream changes in ids and flags. *)
Lemma stream_change (R : chunk -> chunk -> Prop) l1 cs cs' l2 o :
  (forall c c', R c c' -> ck_fp c' = ck_fp c /\ ck_size c' = ck_size c /\ CHECK_CHUNK c' CHUNK_FILE_START = CHECK_CHUNK c CHUNK_FILE_START /\
     CHECK_CHUNK c' CHUNK_FILE_END = CHECK_CHUNK c CHUNK_FILE_END /\ ck_data c' = ck_data c) -> Forall2 R cs cs' ->
  file_stream o (l1 ++ cs' ++ l2) = file_stream o (l1 ++ cs ++ l2) /\
  map chunk_key (normals (l1 ++ cs' ++ l2)) = map chunk_key (normals (l1 ++ cs ++ l2)) /\
  forall r, closed_files r (l1 ++ cs' ++ l2) = closed_files r (l1 ++ cs ++ l2).
Proof using.
  intros HR H. split; [|split]; cycle 2.
  { intros r. rewrite !closed_files_app. destruct (closed_files_same R cs cs') with (o := file_after r l1) as [-> ->]; [|done|done].
    intros c c' Hc. by destruct (HR c c' Hc) as (_&?&_&?&?). }
  - rewrite !file_stream_app. destruct (file_stream o l1) as [o1|]; [|done].
    rewrite !file_stream_app, (file_stream_same R cs cs'); [done| |done]. intros c c' Hc. by destruct (HR c c' Hc) as (_&_&?&?&_).
  - rewrite !normals_app, !map_app, (chunk_key_normals R cs cs'); [done| |done]. intros c c' Hc. destruct (HR c c' Hc) as (E1&E2&E3&E4&_).
    unfold is_file_flag, chunk_key. by rewrite E1, E2, E3, E4.
Qed.

Lemma store_step versions log written written' flight f st : filter_ok cfg fcfg simulation_level dir content versions log written flight f ->
  sys_step simulation_level (mk_sys (w_cs (f_world f)) (container_buffer f) written log) (mk_sys st (container_buffer f) written' log) ->
  filter_ok cfg fcfg simulation_level dir content versions log written' flight (set_cs f st).
Proof.
  intros [[[Hs Hr] HV Hm Hk Hc Ho Hsb Hd Hx Hun] Hb Hfo] Hst. pose proof (sys_step_inv _ _ _ Hs Hst) as Hs'.
  split; [split|exact Hb|exact Hfo]; done.
Qed.

#[local] Instance rewritten_refl : Reflexive rewritten.
Proof. intros c. do 7 (split; [done|]). by left. Qed.

(** The segment in the invariant. *)
Lemma seg_input_received seg seg' : todo_ok seg -> Forall2 same_chunk (seg_chunks seg) (seg_chunks seg') -> seg_input fcfg simulation_level content (received seg').
Proof.
  intros [[_ Hwf _] Hcs Hnum Hlt] Hs.
  assert (Enum : normal_count (seg_chunks seg') = normal_count (seg_chunks seg)).
  { change (zlen (normals (seg_chunks seg')) = zlen (normals (seg_chunks seg))). unfold zlen. by rewrite (Forall2_length _ _ _ (normals_same _ _ Hs)). }
  split; cbn [received seg_chunks seg_chunk_num]; [|done|lia].
  apply Forall_forall. intros c' Hin. apply list_elem_of_lookup_1 in Hin as [i Hi]. destruct (Forall2_lookup_r _ _ _ _ _ Hs Hi) as (c & Hi0 & Hcc).
  rewrite Forall_forall in Hcs, Hwf. destruct (Hcs c (list_elem_of_lookup_2 _ _ _ Hi0)) as (Hda & Hfr & Hna).
  specialize (Hwf c (list_elem_of_lookup_2 _ _ _ Hi0)). rewrite (same_chunk_flag _ _ Hcc).
  split; [intros; by eapply data_ok_same; auto|]. pose proof Hcc as (_ & Efp & _ & _ & _ & Efr).
  split; [intros Hf0; congruence|]. split; [by eapply name_ok_same|]. by rewrite Efp.
Qed.

Lemma binv_lookup input num old v0 seg todo fl f w ix wd seg' versions log segs :
  binv input num old v0 (mk_backup (seg :: todo) fl f w) versions log segs ->
  dedup_segment cfg simulation_level wait_threshold dir (container_buffer f) (f_index f) (f_world f) seg = Ok (Some (ix, wd, seg')) ->
  binv input num old v0 (mk_backup todo (fl ++ [received seg']) (set_lookup f ix wd) w) versions log segs.
Proof.
  intros [Hf Hfl Hto Hst Hv Hold Hn Hk Hfi] E. cbn [b_todo b_flight b_filter b_written] in *.
  apply Forall_cons in Hto as [Hseg Hto]. destruct (dedup_segment_ok versions log w f seg _ Hf Hseg) as (r & E' & Hr).
  rewrite E in E'. injection E' as <-. destruct Hr as (Hf' & [Hver _] & Hs'). assert (Hbn' : bv_num (w_bv wd) = bv_num (w_bv (f_world f))) by (destruct Hver as (? & -> & _); done).
  destruct (stream_change same_chunk (chunks_of fl) (seg_chunks seg) (seg_chunks seg') (chunks_of todo) (inside f)) as (S1 & S2 & S3);
    [by intros c c' (?&?&?&?&?&?)|done|].
  assert (Eo : chunks_of (fl ++ seg :: todo) = chunks_of fl ++ seg_chunks seg ++ chunks_of todo) by apply (chunks_of_one fl seg []).
  assert (En : chunks_of ((fl ++ [received seg']) ++ todo) = chunks_of fl ++ seg_chunks seg' ++ chunks_of todo) by (rewrite <- app_assoc; apply (chunks_of_one fl (received seg') [])).
  rewrite Eo in *. split; cbn [b_todo b_flight b_filter b_written]; rewrite ?En; try done.
  - rewrite map_app, concat_app. cbn [map concat]. rewrite app_nil_r. exact Hf'.
  - apply Forall_app. split; [done|]. apply Forall_singleton. by eapply seg_input_received.
  - exact (eq_trans S1 Hst).
  - by rewrite <- Hn.
  - by rewrite S2.
  - destruct Hfi as (files & [Hw Hac] & Hc). exists files. split; [|by rewrite S3]. split; [|exact Hac]. by eapply same_version_wstate.
Qed.

Lemma binv_rewrite input num old v0 todo fl1 seg fl2 f w cs versions log segs :
  binv input num old v0 (mk_backup todo (fl1 ++ seg :: fl2) f w) versions log segs -> Forall2 rewritten (seg_chunks seg) cs ->
  binv input num old v0 (mk_backup todo (fl1 ++ set_seg_chunks seg cs :: fl2) f w) versions log segs.
Proof.
  intros [Hf Hfl Hto Hst Hv Hold Hn Hk Hfi] Hr. cbn [b_todo b_flight b_filter b_written] in *.
  apply Forall_app in Hfl as [Hfl1 [Hseg Hfl2]%Forall_cons].
  destruct (stream_change rewritten (chunks_of fl1) (seg_chunks seg) cs (chunks_of (fl2 ++ todo)) (inside f)) as (S1 & S2 & S3);
    [by intros c c' (?&?&?&?&?&?&?&?)|done|].
  assert (E1 : chunks_of ((fl1 ++ seg :: fl2) ++ todo) = chunks_of fl1 ++ seg_chunks seg ++ chunks_of (fl2 ++ todo)) by (rewrite <- app_assoc; apply (chunks_of_one fl1 seg [])).
  assert (E2 : chunks_of ((fl1 ++ set_seg_chunks seg cs :: fl2) ++ todo) = chunks_of fl1 ++ cs ++ chunks_of (fl2 ++ todo)) by (rewrite <- app_assoc; apply (chunks_of_one fl1 seg cs)).
  rewrite E1 in *. split; cbn [b_todo b_flight b_filter b_written]; rewrite ?E2; try done.
  - destruct Hf as [Hfv Hb Hfo]. split; [done| |done]. eapply buffer_inv_rewritten; [|exact Hb]. rewrite !normals_chunks_of.
    destruct (chunks_of_one fl1 seg cs fl2) as [-> ->]. apply normals_rewritten. apply Forall2_app; [reflexivity|]. by apply Forall2_app.
  - apply Forall_app. split; [done|]. constructor; [by apply seg_input_rewritten|done].
  - exact (eq_trans S1 Hst).
  - by rewrite S2.
  - destruct Hfi as (files & Hw & Hc). exists files. by rewrite S3.
Qed.

(** The recipe file holds the segments written so far. *)
Lemma recipe_data versions log written f num segs : finv cfg fcfg simulation_level dir content versions log written f ->
  versions !! num = Some segs -> bv_num (w_bv (f_world f)) = num -> fdata (recipe_fp (w_bv (f_world f))) = segs_bytes segs.
Proof.
  intros Hf Hv Hn. destruct (fi_wok _ _ _ _ _ _ _ _ _ Hf) as (_ & _ & _ & segs' & files & chunks & path & meta & records & Hv' & Hw).
  rewrite Hn in Hv'. assert (segs' = segs) as -> by congruence. apply Hw.
Qed.

Lemma binv_filter input num old v0 todo seg fl f w versions log segs :
  binv input num old v0 (mk_backup todo (seg :: fl) f w) versions log segs -> room f seg ->
  exists f' full versions' log' segs', filter_segment cfg fcfg simulation_level wait_threshold f seg = Ok (f', full) /\
    binv input num old v0 (mk_backup todo fl f' w) versions' log' segs' /\
    zlen (fdata (recipe_fp (w_bv (f_world f')))) = zlen (fdata (recipe_fp (w_bv (f_world f)))) + cp_len * (seg_chunk_num seg + 2) /\
    container_count (w_cs (f_world f')) <= container_count (w_cs (f_world f)) + zlen (seg_chunks seg).
Proof.
  intros [Hf Hfl Hto Hst Hv Hold Hn Hk Hfi] [Hroom1 Hroom2]. cbn [b_todo b_flight b_filter b_written] in *.
  apply Forall_cons in Hfl as [Hseg Hfl]. change (chunks_of ((seg :: fl) ++ todo)) with (seg_chunks seg ++ chunks_of (fl ++ todo)) in *.
  rewrite file_stream_app in Hst. destruct (file_stream (inside f) (seg_chunks seg)) as [o1|] eqn:Eo; [|done].
  rewrite (recipe_data _ _ _ _ _ _ (fo_inv _ _ _ _ _ _ _ _ _ _ Hf) Hv Hn) in Hroom1 |- *.
  destruct (filter_segment_ok cfg fcfg simulation_level wait_threshold dir CO content versions log w f seg _ num segs o1 Hf Hseg Eo Hv Hn Hroom1 Hroom2)
    as (f' & full & log' & cps & E & Hf' & Ho' & Hp & _ & Hn' & Hcnt & cs & Hsame & Ecps & (Ha' & Hfile & Hok') & Hkept).
  assert (Hv' : versions' versions num segs cps !! num = Some (segs ++ [cps])) by apply lookup_insert_eq.
  exists f', full, (versions' versions num segs cps), log', (segs ++ [cps]). split; [exact E|]. split; [|split; [|exact Hcnt]]; cycle 1.
  { rewrite (recipe_data _ _ _ _ _ _ (fo_inv _ _ _ _ _ _ _ _ _ _ Hf') Hv' Hn').
    destruct (fi_versions _ _ _ _ _ _ _ _ _ (fo_inv _ _ _ _ _ _ _ _ _ _ Hf') num _ Hv') as (_ & [_ [Hok _]%Forall_cons]%Forall_app & _).
    rewrite zlen_segs_app. unfold segs_bytes at 2. cbn [map concat]. rewrite app_nil_r, zlen_seg_bytes by done.
    assert (zlen cps = seg_chunk_num seg) as ->; [|done]. rewrite (sg_num _ _ _ _ Hseg). apply (f_equal length) in Hp. rewrite !length_map in Hp. unfold zlen. by rewrite Hp. }
  split; cbn [b_todo b_flight b_filter b_written]; try done.
  - by rewrite Ho'.
  - intros n Hne. unfold versions'. rewrite lookup_insert_ne by done. by apply Hold.
  - rewrite concat_app, map_app, <- Hk, <- app_assoc. f_equal. cbn [concat]. rewrite app_nil_r, normals_app, map_app. f_equal. exact Hp.
  - destruct Hfi as (files & (Hw & Hac & Hok) & Hc). exists (files ++ closed_files (f_file f) cs). split.
    + assert (Ec : concat (segs ++ [cps]) = concat segs ++ cps) by by rewrite concat_app; cbn [concat]; rewrite app_nil_r.
      split; [|split]; cbv zeta; rewrite ?Ec, ?map_app, ?concat_app, ?zlen_app, ?records_of_app, ?last_id_app, ?app_assoc.
      * rewrite <- Hac. rewrite Ecps. exact (Hkept _ _ _ _ _ _ Hw).
      * by rewrite <- Hac, Ecps.
      * by apply Forall_app.
    + destruct (closed_files_same same_chunk _ _ (fun c c' h => conj (proj1 (proj2 (proj2 h))) (conj (proj1 h) (proj1 (proj2 (proj2 (proj2 (proj2 h))))))) Hsame (f_file f)) as [Ecl Eaf].
      rewrite closed_files_app in Hc. by rewrite <- app_assoc, Hfile, Ecl, Eaf.
Qed.

Lemma binv_step input num old v0 b b' versions log segs : binv input num old v0 b versions log segs -> backup_step b b' ->
  exists versions' log' segs', binv input num old v0 b' versions' log' segs'.
Proof.
  intros Hb Hstep. destruct Hstep as
    [seg todo fl f w ix wd seg' E|todo fl1 seg fl2 f w cs Hr|todo seg fl f w f' full Hroom E|todo fl f st E|todo fl f].
  - exists versions, log, segs. by eapply binv_lookup.
  - exists versions, log, segs. by eapply binv_rewrite.
  - destruct (binv_filter _ _ _ _ _ _ _ _ _ _ _ _ Hb Hroom) as (f1 & full1 & versions1 & log1 & segs1 & E1 & Hb1 & _).
    rewrite E in E1. injection E1 as <- <-. by exists versions1, log1, segs1.
  - exists versions, log, segs. destruct Hb. split; try done. eapply store_step; [done|]. by apply sys_append.
  - exists versions, log, segs. destruct Hb. split; try done. eapply store_step; [done|]. by apply sys_pop.
Qed.

(** ** The beginning and the end of a backup *)

(** What is stored between two backups: nothing is open. *)
Record store_ok versions log (w : world) (kv : kvstore) : Prop := {
  so_wok : wok simulation_level dir versions log None false w;
  so_versions : versions_ok simulation_level content versions log None;
  so_kv : kv_ok cfg (prefetchable cfg versions log) (unit_has log) kv;
  so_data id con : log !! id = Some con -> container_data simulation_level content con;
  so_complete : exact cfg -> forall id con fp, log !! id = Some con -> is_Some (cm_map (c_meta con) !! fp) -> is_Some (kv !! fp);
  so_unique : exact cfg -> rewrite_algorithm_0 fcfg = REWRITE_NO -> forall id1 id2 fp, holds log None id1 fp -> holds log None id2 fp -> id1 = id2;
}.

(** A backup of the segments [todo] into the new version [num] of the path [name]. *)
Record backup_start (todo : list segment) (num : Z) (name : list Z) (old : gmap Z (list (list chunkPointer))) log ix w : Prop := {
  st_store : store_ok (<[num := []]> old) log w (ix_kv ix);
  st_num : bv_num (w_bv w) = num;
  st_version : exists count, create_backup_version num name = Ok (w_bv w, count);
  st_index : exists dump, init_index cfg dump = Ok ix;
  st_todo : Forall todo_ok todo;
  st_stream : file_stream false (chunks_of todo) = Some false;
}.

Definition backup_init (todo : list segment) ix w (access restore_cache_size : Z) : backup :=
  mk_backup todo [] (start_filter_phase ix w access restore_cache_size) false.

Lemma init_index_fields dump ix : init_index cfg dump = Ok ix ->
  buffered_fingerprints ix = ∅ /\ buffer_chunk_num ix = 0 /\ forall holds, cache_ok cfg holds (ix_cache ix).
Proof using.
  unfold init_index. intros (kv & _ & H)%bind_Ok. apply bind_Ok in H as (c & Hc & H). injection H as <-.
  split_and!; [done|done|]. intros holds. by apply init_fingerprint_cache_ok.
Qed.

Lemma trim_path_inv name path : trim_path (rev name) = Ok path ->
  exists pre rest, name = pre ++ slash :: rest /\ Forall (fun ch => ch <> slash) rest /\ path = pre ++ [slash].
Proof using.
  revert path. induction name as [|ch name IH] using rev_ind; intros path; [done|]. rewrite rev_app_distr. cbn [rev app trim_path].
  destruct (Z.eqb_spec ch slash) as [->|Hne].
  - intros [= <-]. exists name, []. rewrite rev_involutive. by split_and!.
  - intros (pre & rest & -> & Hr & ->)%IH. exists pre, (rest ++ [ch]). rewrite <- app_assoc. split_and!; [done| |done].
    apply Forall_app. split; [done|by apply Forall_singleton].
Qed.

Lemma create_fields num name b count : 0 <= num < 2 ^ 31 -> create_backup_version num name = Ok (b, count) ->
  wstate b num 0 0 (bv_path b) (meta_header b) [] [] /\ trim_path (rev name) = Ok (bv_path b).
Proof using.
  intros Hnum E. pose proof E as E0. unfold create_backup_version in E0. cbn [get_next_version_number] in E0.
  apply bind_Ok in E0 as (path & Ht & E1). destruct (trim_path_inv _ _ Ht) as (pre & rest & -> & Hr & ->).
  destruct (create_spec num pre rest Hnum Hr) as (b' & E' & Hw & _). rewrite E in E'. injection E' as -> _.
  assert (Ep : bv_path b' = pre ++ [slash]) by apply Hw. rewrite Ep. by split.
Qed.

Definition start_of (b : backupVersion) (access : Z) : version_start := mk_vstart (bv_path b) (meta_header b) access.

Lemma start_binv todo num name old log ix w access n : backup_start todo num name old log ix w ->
  binv (chunks_of todo) num old (start_of (w_bv w) access) (backup_init todo ix w access n) (<[num := []]> old) log [].
Proof.
  intros [[Hw HV Hk Hd Hx Hun] Hn [count Hcreate] [dump Hix] Hto Hst]. destruct (init_index_fields dump ix Hix) as (Hb & Hbn & Hc).
  split; cbn [backup_init b_todo b_flight b_filter b_written app map concat]; try done.
  - split; [split|..]; cbn [start_filter_phase f_world f_index f_monitor container_buffer sb_chunks f_file file_ok]; try done.
    + apply init_restore_aware_ok.
    + intros con [[id Hl]|?]; [by eapply Hd|done].
    + split; [|done|done]. intros fp. by rewrite Hb, lookup_empty.
  - apply lookup_insert_eq.
  - intros k Hne. by rewrite lookup_insert_ne.
  - exists []. split; [|done]. destruct (HV num [] (lookup_insert_eq _ _ _)) as (Hrange & _).
    destruct (create_fields num name (w_bv w) count) as [Hwv _]; [lia|done|]. split; [|by split]. cbn [start_of vs_head map concat]. by rewrite app_nil_r.
Qed.

(** The last container is handed over. *)
Lemma filter_finish_ok versions log written s : finv cfg fcfg simulation_level dir content versions log written s ->
  exists s' log', filter_finish cfg s = Ok s' /\ f_world s' = mk_world (w_cs (f_world s')) (w_bv (f_world s)) (w_opened (f_world s)) /\ f_access s' = f_access s /\
    (written = false -> store_ok versions log' (f_world s') (ix_kv (f_index s'))).
Proof.
  intros Hf. unfold filter_finish. pose proof Hf as [[Hs Hr] HV Hm Hk Hc Ho Hsb Hd Hx Hun]. destruct (container_buffer s) as [con|] eqn:Hcb.
  - destruct (container_empty con) eqn:He.
    + exists s, log. split; [done|]. split; [by destruct s as [? []]|]. split; [done|]. intros ->.
      destruct (si_open _ _ Hs con eq_refl) as ([Hmeta _] & Hid & Hge).
      assert (Hm0 : cm_map (c_meta con) = ∅).
      { apply map_size_empty_inv. unfold container_empty in He. apply Z.eqb_eq in He. rewrite (mo_num _ Hmeta) in He. lia. }
      assert (Hmono : holds_mono log (Some con) log None) by (intros id fp; by apply holds_empty).
      split; [split; [|exact Hr]|by eapply versions_ok_mono|done|intros id c Hl; apply Hd; left; by exists id|done|].
      * destruct Hs as [Hcn Hop Hlog Hbuf Hnd Hkept Hwr]. split; cbn [y_st y_open y_written y_log] in *; try done.
        intros id c Hl. destruct (Hlog id c Hl) as (?&?&?&?). split_and!; done || lia.
      * intros He' Hno id1 id2 fp H1 H2. apply (Hun He' Hno id1 id2 fp).
        -- destruct H1 as (? & c & ? & ? & [?|?]); [split; [done|]; exists c; auto|done].
        -- destruct H2 as (? & c & ? & ? & [?|?]); [split; [done|]; exists c; auto|done].
    + destruct (handover_ok cfg fcfg simulation_level dir CO content versions log written s con [] Hf Hcb He) as (ix' & st' & E & Hsub & _ & Hf' & _).
      assert (Hw : w_cs (f_world (if physical cfg then set_index s ix' else s)) = w_cs (f_world s)) by by destruct (physical cfg).
      rewrite E. step. rewrite Hw, Hsub. step. do 2 eexists. split; [reflexivity|]. split; [by destruct (physical cfg)|]. split; [by destruct (physical cfg)|]. intros ->.
      destruct Hf' as [Hw' HV' _ Hk' _ _ _ Hd' Hx' Hun']. cbn [set_storage container_buffer f_index] in *.
      split; [by destruct (physical cfg)|exact HV'|exact Hk'| |exact Hx'|exact Hun'].
      intros id c Hl. apply Hd'. left. by exists id.
  - exists s, log. split; [done|]. split; [by destruct s as [? []]|]. split; [done|]. intros ->. split; try done.
    intros id c Hl. apply Hd. left. by exists id.
Qed.

(** ** A backup completes *)

(** [destor.rewrite_algorithm[1]], the chunks of a full rewriting buffer. *)
Context (rewrite_algorithm_1 : Z).

(** The stores have room for the segments that are left. *)
Definition fits (b : backup) : Prop :=
  let l := b_flight b ++ b_todo b in
  zlen (fdata (recipe_fp (w_bv (f_world (b_filter b))))) + cp_len * (zlen (normals (chunks_of l)) + 2 * zlen l) < 2 ^ 32 /\
  container_count (w_cs (f_world (b_filter b))) + zlen (chunks_of l) < count_max.

Lemma fits_cons b seg l : b_flight b ++ b_todo b = seg :: l -> fits b ->
  let n := zlen (normals (seg_chunks seg)) in
  zlen (fdata (recipe_fp (w_bv (f_world (b_filter b))))) + cp_len * (n + 2) + cp_len * (zlen (normals (chunks_of l)) + 2 * zlen l) < 2 ^ 32 /\
  container_count (w_cs (f_world (b_filter b))) + zlen (seg_chunks seg) + zlen (chunks_of l) < count_max.
Proof using.
  intros E [H1 H2] n. rewrite E in H1, H2. change (chunks_of (seg :: l)) with (seg_chunks seg ++ chunks_of l) in *.
  rewrite normals_app, zlen_app, zlen_cons in H1. rewrite zlen_app in H2. unfold n, cp_len in *. lia.
Qed.

(** The number of chunks of segments, as the index buffer counts them. *)
Definition buffered (ss : list segment) : Z := foldr (fun s n => normal_count (seg_chunks s) + n) 0 ss.

(** The lookups and filterings that are left. *)
Definition weight (b : backup) : nat := 2 * length (b_todo b) + length (b_flight b).

(** The rewriting of [rewrite_algorithm_1] chunks has handed the oldest segment in
    flight over for sure: it holds back less than a full buffer, and nothing after
    the last segment (C10). *)
Definition released (b : backup) : Prop :=
  rewrite_algorithm_0 fcfg = REWRITE_NO \/ b_todo b = [] \/ rewrite_algorithm_1 <= buffered (tail (b_flight b)).

(** A step of the rewriting or of the append thread; a step of the dedup thread,
    or of the filter thread when its segment has been handed over. *)
Definition side_step (b b' : backup) : Prop := backup_step b b' /\ weight b' = weight b.
Definition main_step (b b' : backup) : Prop := backup_step b b' /\ (weight b' < weight b)%nat /\ (b_todo b' = b_todo b -> released b).

(** However the threads run, the backup comes to an end, where [P] holds once the
    append thread is done: whatever the rewriting and the append thread do, the
    dedup or the filter thread can take a step, and after any such step it is so
    again. *)
Inductive completes (P : backup -> Prop) (b : backup) : Prop :=
| completes_end : weight b = O -> (forall b1, rtc side_step b b1 -> exists b2, rtc side_step b1 b2 /\ P b2) -> completes P b
| completes_step : (forall b1, rtc side_step b b1 -> exists b2, main_step b1 b2) ->
    (forall b1 b2, rtc side_step b b1 -> backup_step b1 b2 -> (weight b2 < weight b1)%nat -> completes P b2) -> completes P b.

(** The buffers do not block each other: there is no rewriting, the dedup thread
    never waits, or it waits only with a full rewriting buffer behind the oldest
    segment. *)
Definition unblocked (b : backup) : Prop :=
  rewrite_algorithm_0 fcfg = REWRITE_NO \/ wait_threshold <= 0 \/
  Forall (fun s => normal_count (seg_chunks s) + rewrite_algorithm_1 <= wait_threshold) (b_flight b ++ b_todo b).

Lemma normal_count_same (R : chunk -> chunk -> Prop) cs cs' : (forall c c', R c c' -> is_file_flag c' = is_file_flag c) ->
  Forall2 R cs cs' -> normal_count cs' = normal_count cs.
Proof using.
  intros HR H. unfold normal_count. induction H as [|c c' cs cs' Hc _ IH]; [done|]. rewrite !filter_cons, (HR c c' Hc).
  destruct (decide _); [by rewrite !zlen_cons, IH|done].
Qed.

Lemma unblocked_step input num old v0 b b' versions log segs : binv input num old v0 b versions log segs -> backup_step b b' -> unblocked b -> unblocked b'.
Proof.
  intros Hb Hs [?|[?|Hall]]; [by left|right; by left|]. right; right. destruct Hs as
    [seg todo fl f w ix wd seg' E|todo fl1 seg fl2 f w cs Hr|todo seg fl f w f' full Hroom E|todo fl f st E|todo fl f]; cbn [b_flight b_todo] in *; try done.
  - apply Forall_app in Hall as [Hfl [Hseg Hto]%Forall_cons]. rewrite <- app_assoc. apply Forall_app. split; [done|]. constructor; [|done].
    pose proof (bi_todo _ _ _ _ _ _ _ _ Hb) as [Hok _]%Forall_cons.
    destruct (dedup_segment_ok versions log w f seg _ (bi_filter _ _ _ _ _ _ _ _ Hb) Hok) as (r & E' & Hr). cbn [b_filter] in E'. rewrite E in E'. injection E' as <-.
    destruct Hr as (_ & _ & Hsame). cbn [received seg_chunks]. by rewrite (normal_count_same same_chunk _ _ same_chunk_flag Hsame).
  - rewrite <- app_assoc in *. apply Forall_app in Hall as [Hfl1 [Hseg Hto]%Forall_cons]. apply Forall_app. split; [done|]. constructor; [|done].
    cbn [set_seg_chunks seg_chunks]. by rewrite (normal_count_same rewritten _ _ rewritten_flag Hr).
  - by apply Forall_cons in Hall as [_ Hall].
Qed.

Lemma append_write_count st st' : append_write simulation_level st = Some (Ok st') -> container_count st' <= container_count st.
Proof using.
  unfold append_write. destruct (head (Container.container_buffer st)) as [c|]; [|done]. intros E. injection E as E. unfold write_container in E.
  apply bind_Ok in E as ([] & _ & E). destruct (container_empty c); [injection E as <-; cbn; lia|].
  destruct (simulation_level <? SIMULATION_APPEND).
  - apply bind_Ok in E as (d & _ & E). apply bind_Ok in E as (d' & _ & E). apply bind_Ok in E as (f & _ & E). injection E as <-. cbn. lia.
  - apply bind_Ok in E as (d & _ & E). apply bind_Ok in E as (f & _ & E). injection E as <-. cbn. lia.
Qed.

Lemma fits_lookup input num old v0 seg todo fl f w ix wd seg' versions log segs :
  binv input num old v0 (mk_backup (seg :: todo) fl f w) versions log segs ->
  dedup_segment cfg simulation_level wait_threshold dir (container_buffer f) (f_index f) (f_world f) seg = Ok (Some (ix, wd, seg')) ->
  fits (mk_backup (seg :: todo) fl f w) -> fits (mk_backup todo (fl ++ [received seg']) (set_lookup f ix wd) w).
Proof.
  intros Hb E [H1 H2]. pose proof (binv_lookup _ _ _ _ _ _ _ _ _ _ _ _ _ _ _ Hb E) as Hb'.
  pose proof (bi_todo _ _ _ _ _ _ _ _ Hb) as [Hseg _]%Forall_cons. pose proof (bi_filter _ _ _ _ _ _ _ _ Hb) as Hf. cbn [b_flight b_filter b_written b_todo] in *.
  destruct (dedup_segment_ok versions log w f seg _ Hf Hseg) as (r & E' & Hr). rewrite E in E'. injection E' as <-. destruct Hr as (_ & [_ Hcnt] & Hs).
  pose proof (recipe_data _ _ _ _ _ _ (fo_inv _ _ _ _ _ _ _ _ _ _ Hf) (bi_version _ _ _ _ _ _ _ _ Hb) (bi_current _ _ _ _ _ _ _ _ Hb)) as R1.
  pose proof (recipe_data _ _ _ _ _ _ (fo_inv _ _ _ _ _ _ _ _ _ _ (bi_filter _ _ _ _ _ _ _ _ Hb')) (bi_version _ _ _ _ _ _ _ _ Hb') (bi_current _ _ _ _ _ _ _ _ Hb')) as R2.
  cbn [b_filter] in R2. rewrite <- R1 in R2. destruct (chunks_of_one fl (received seg') [] todo) as [_ En]. destruct (chunks_of_one fl seg [] todo) as [_ Eo].
  split; cbn [b_flight b_todo b_filter]; rewrite <- ?app_assoc, ?R2; cbn [app set_lookup f_world] in *; rewrite ?Hcnt, ?En; rewrite ?Eo in H1, H2; cbn [received seg_chunks] in *.
  - rewrite !normals_app, !zlen_app, !zlen_cons in *. unfold zlen in *. by rewrite <- (Forall2_length _ _ _ (normals_same _ _ Hs)).
  - rewrite !zlen_app in *. unfold zlen in *. by rewrite <- (Forall2_length _ _ _ Hs).
Qed.

Lemma fits_step input num old v0 b b' versions log segs : binv input num old v0 b versions log segs -> backup_step b b' -> fits b -> fits b'.
Proof.
  intros Hb Hstep Hfit. destruct Hstep as
    [seg todo fl f w ix wd seg' E|todo fl1 seg fl2 f w cs Hr|todo seg fl f w f' full Hroom E|todo fl f st E|todo fl f].
  - by eapply fits_lookup.
  - destruct Hfit as [H1 H2]. cbn [b_flight b_todo b_filter] in *. rewrite <- app_assoc in *. cbn [app] in *.
    destruct (chunks_of_one fl1 seg cs (fl2 ++ todo)) as [En Eo]. rewrite Eo in H1, H2. split; cbn [b_flight b_todo b_filter]; rewrite <- ?app_assoc; cbn [app]; rewrite En.
    + rewrite !normals_app, !zlen_app, !zlen_cons in *. unfold zlen in *. by rewrite (Forall2_length _ _ _ (normals_rewritten _ _ Hr)) in H1.
    + rewrite !zlen_app in *. unfold zlen in *. by rewrite (Forall2_length _ _ _ Hr) in H2.
  - destruct (fits_cons (mk_backup todo (seg :: fl) f w) seg (fl ++ todo) eq_refl Hfit) as [H1 H2]. cbn [b_filter] in *.
    pose proof (bi_flight _ _ _ _ _ _ _ _ Hb) as [Hseg _]%Forall_cons.
    destruct (binv_filter _ _ _ _ _ _ _ _ _ _ _ _ Hb Hroom) as (f1 & full1 & _ & _ & _ & E1 & _ & Hrec & Hcnt). rewrite E in E1. injection E1 as <- <-.
    split; cbn [b_flight b_todo b_filter]; [rewrite Hrec, (sg_num _ _ _ _ Hseg)|]; lia.
  - destruct Hfit as [H1 H2]. apply append_write_count in E. split; cbn [b_flight b_todo b_filter set_cs f_world] in *; [done|]. cbn. lia.
  - exact Hfit.
Qed.

(** The oldest segment in flight can be filtered. *)
Lemma first_can_filter input num old v0 todo seg fl f w versions log segs :
  binv input num old v0 (mk_backup todo (seg :: fl) f w) versions log segs -> fits (mk_backup todo (seg :: fl) f w) ->
  released (mk_backup todo (seg :: fl) f w) -> exists b', main_step (mk_backup todo (seg :: fl) f w) b'.
Proof.
  intros Hb Hfit Hrel. destruct (fits_cons (mk_backup todo (seg :: fl) f w) seg (fl ++ todo) eq_refl Hfit) as [H1 H2]. cbn [b_filter] in *.
  pose proof (zlen_nonneg (normals (chunks_of (fl ++ todo)))). pose proof (zlen_nonneg (fl ++ todo)). pose proof (zlen_nonneg (chunks_of (fl ++ todo))).
  pose proof (bi_flight _ _ _ _ _ _ _ _ Hb) as [Hseg _]%Forall_cons.
  assert (Hroom : room f seg) by (split; [rewrite (sg_num _ _ _ _ Hseg)|]; unfold cp_len in *; lia).
  destruct (binv_filter _ _ _ _ _ _ _ _ _ _ _ _ Hb Hroom) as (f' & full & _ & _ & _ & E & _).
  eexists. split; [by eapply step_filter|]. split; [|done]. unfold weight. cbn. lia.
Qed.

(** The next segment can be looked up unless the dedup thread waits. *)
Lemma next_can_lookup input num old v0 seg todo fl f w versions log segs :
  binv input num old v0 (mk_backup (seg :: todo) fl f w) versions log segs -> (0 < wait_threshold -> buffered fl < wait_threshold) ->
  exists b', main_step (mk_backup (seg :: todo) fl f w) b'.
Proof.
  intros Hb Hlt. pose proof (bi_todo _ _ _ _ _ _ _ _ Hb) as [Hseg _]%Forall_cons. pose proof (bi_filter _ _ _ _ _ _ _ _ Hb) as Hf. cbn [b_flight b_filter b_written] in Hf.
  destruct (dedup_segment_ok versions log w f seg _ Hf Hseg) as (r & E & Hr). destruct r as [[[ix wd] seg']|].
  - eexists. split; [by eapply step_lookup|]. split; [unfold weight; cbn; rewrite length_app; cbn; lia|]. cbn. intros E'. exfalso. apply (f_equal length) in E'. cbn in E'. lia.
  - exfalso. rewrite (bi_num _ _ _ _ _ (fo_buffer _ _ _ _ _ _ _ _ _ _ Hf)) in Hr.
    assert (En : zlen (concat (map (fun s => normals (seg_chunks s)) fl)) = buffered fl).
    { clear. induction fl as [|s fl IH]; [done|]. cbn [map concat buffered foldr]. by rewrite zlen_app, IH. }
    rewrite En in Hr. pose proof (zlen_nonneg (concat (map (fun s => normals (seg_chunks s)) fl))) as H0. rewrite En in H0.
    assert (s32 (buffered fl) <= buffered fl); [|lia]. unfold swrap. change (2 ^ (32 - 1)) with (2 ^ 31).
    pose proof (Z.mod_le (buffered fl + 2 ^ 31) (2 ^ 32) ltac:(lia) ltac:(done)). lia.
Qed.

(** The dedup or the filter thread can go on. *)
Lemma main_goes_on input num old v0 b versions log segs : binv input num old v0 b versions log segs -> fits b -> unblocked b -> weight b <> O ->
  exists b', main_step b b'.
Proof.
  intros Hb Hfit Hu Hw. destruct b as [todo fl f w]. destruct fl as [|seg fl].
  - destruct todo as [|seg todo]; [done|]. eapply next_can_lookup; [exact Hb|]. cbn. lia.
  - destruct (decide (rewrite_algorithm_0 fcfg = REWRITE_NO)) as [E|E]; [eapply first_can_filter; [exact Hb|done|by left]|].
    destruct todo as [|s todo]; [eapply first_can_filter; [exact Hb|done|right; by left]|].
    destruct (decide (rewrite_algorithm_1 <= buffered fl)) as [Hge|Hlt]; [eapply first_can_filter; [exact Hb|done|right; by right]|].
    eapply next_can_lookup; [exact Hb|]. intros Hpos. destruct Hu as [?|[?|Hall]]; [done|lia|].
    apply Forall_cons in Hall as [Hseg _]. cbn [buffered foldr]. fold (buffered fl). lia.
Qed.

Lemma side_steps input num old v0 b b' versions log segs : binv input num old v0 b versions log segs -> fits b -> unblocked b -> rtc side_step b b' ->
  weight b' = weight b /\ fits b' /\ unblocked b' /\ exists versions' log' segs', binv input num old v0 b' versions' log' segs'.
Proof.
  intros Hb Hfit Hu Hr. revert versions log segs Hb Hfit Hu. induction Hr as [b|b b1 b2 [Hs Hw] _ IH]; intros versions log segs Hb Hfit Hu.
  - split_and!; [done..|]. by do 3 eexists.
  - destruct (binv_step _ _ _ _ _ _ _ _ _ Hb Hs) as (v1 & l1 & s1 & Hb1). rewrite <- Hw.
    eapply IH; [exact Hb1|eapply fits_step; [exact Hb|done..]|eapply unblocked_step; [exact Hb|done..]].
Qed.

(** The append thread finishes the container it is at. *)
Lemma append_done b : exists b', rtc side_step b b' /\ b_written b' = false /\ b_todo b' = b_todo b /\ b_flight b' = b_flight b.
Proof using.
  destruct b as [todo fl f [|]]; [|by exists (mk_backup todo fl f false)].
  eexists. split; [apply rtc_once; split; [apply step_pop|done]|done].
Qed.

Lemma backup_completes_all n : forall input num old v0 b versions log segs, binv input num old v0 b versions log segs -> fits b -> unblocked b -> weight b = n ->
  forall P : backup -> Prop, (forall b' versions' log' segs', binv input num old v0 b' versions' log' segs' -> rtc backup_step b b' -> weight b' = O -> b_written b' = false -> P b') ->
  completes P b.
Proof.
  induction n as [n IH] using lt_wf_ind. intros input num old v0 b versions log segs Hb Hfit Hu Hn P HP.
  assert (Hrun : forall b1, rtc side_step b b1 -> rtc backup_step b b1) by (intros b1; apply rtc_subrel; by intros ? ? []).
  destruct (decide (weight b = O)) as [E|E].
  - apply completes_end; [done|]. intros b1 Hr. destruct (side_steps _ _ _ _ _ _ _ _ _ Hb Hfit Hu Hr) as (Hw & Hf1 & Hu1 & v1 & l1 & s1 & Hb1).
    destruct (append_done b1) as (b2 & Hr2 & Hw2 & _). exists b2. split; [exact Hr2|].
    destruct (side_steps _ _ _ _ _ _ _ _ _ Hb1 Hf1 Hu1 Hr2) as (Hw' & _ & _ & v2 & l2 & s2 & Hb2).
    eapply HP; [exact Hb2|apply Hrun; by etransitivity|congruence|done].
  - apply completes_step.
    + intros b1 Hr. destruct (side_steps _ _ _ _ _ _ _ _ _ Hb Hfit Hu Hr) as (Hw & Hf1 & Hu1 & v1 & l1 & s1 & Hb1). eapply main_goes_on; [exact Hb1|done..|congruence].
    + intros b1 b2 Hr Hs Hlt. destruct (side_steps _ _ _ _ _ _ _ _ _ Hb Hfit Hu Hr) as (Hw & Hf1 & Hu1 & v1 & l1 & s1 & Hb1).
      destruct (binv_step _ _ _ _ _ _ _ _ _ Hb1 Hs) as (v2 & l2 & s2 & Hb2).
      eapply (IH (weight b2)); [lia|exact Hb2|eapply fits_step; [exact Hb1|done..]|eapply unblocked_step; [exact Hb1|done..]|done|].
      intros b' v' l' s' Hb' Hr' Hw' Hwr. eapply HP; [exact Hb'| |done|done]. etransitivity; [by apply Hrun|]. by eapply rtc_l.
Qed.

Lemma weight_zero b : weight b = O -> b_todo b = [] /\ b_flight b = [].
Proof using. unfold weight. destruct (b_todo b), (b_flight b); cbn; intros; done || lia. Qed.

(** One of its runs. *)
Lemma completes_run P b : completes P b -> exists b', rtc backup_step b b' /\ weight b' = O /\ P b'.
Proof using.
  assert (Hrun : forall b1 b2, rtc side_step b1 b2 -> rtc backup_step b1 b2) by (intros b1 b2; apply rtc_subrel; by intros ? ? []).
  remember (weight b) as n eqn:En. revert b En. induction n as [n IH] using lt_wf_ind. intros b -> [E Hend|Hgo Hnext].
  - destruct (Hend b (rtc_refl _ _)) as (b2 & Hr & HP). exists b2. split; [by apply Hrun|]. split; [|done].
    clear - Hr E. induction Hr as [|b1 b2 b3 [_ Hw] _ IH]; [done|]. apply IH. congruence.
  - destruct (Hgo b (rtc_refl _ _)) as (b2 & Hs & Hlt & _). destruct (IH (weight b2) Hlt b2 eq_refl) as (b' & Hr & Hw & HP); [by eapply Hnext|].
    exists b'. split; [by eapply rtc_l|done].
Qed.

Lemma reachable_binv todo num name old log ix w access n b : backup_start todo num name old log ix w -> rtc backup_step (backup_init todo ix w access n) b ->
  exists versions log' segs, binv (chunks_of todo) num old (start_of (w_bv w) access) b versions log' segs.
Proof.
  intros Hst Hr. pose proof (start_binv todo num name old log ix w access n Hst) as H0.
  assert (H : exists versions log' segs, binv (chunks_of todo) num old (start_of (w_bv w) access) (backup_init todo ix w access n) versions log' segs) by by do 3 eexists.
  clear Hst H0. induction Hr as [|b1 b2 b3 Hs _ IH]; [done|]. apply IH. destruct H as (v & l & s & Hb). by eapply binv_step.
Qed.

(** The store when all the threads are done. *)
Record backup_done (b : backup) (todo : list segment) (num : Z) (old : gmap Z (list (list chunkPointer))) (v0 : version_start) f st segs log : Prop := {
  bd_finish : filter_finish cfg (b_filter b) = Ok f;
  bd_append : append_thread simulation_level (length (Container.container_buffer (w_cs (f_world f)))) (w_cs (f_world f)) = Ok st;
  bd_store : store_ok (<[num := segs]> old) log (mk_world st (w_bv (f_world f)) (w_opened (f_world f))) (ix_kv (f_index f));
  bd_recipe : fdata (recipe_fp (w_bv (f_world f))) = segs_bytes segs;
  bd_empty : Container.container_buffer st = [];
  bd_keys : map ptr_key (concat segs) = map chunk_key (normals (chunks_of todo));
  bd_version : version_written v0 num (w_bv (f_world f)) (f_access f) (closed_files None (chunks_of todo)) segs;
}.

Lemma backup_ends todo num name old log ix w access n b : backup_start todo num name old log ix w ->
  rtc backup_step (backup_init todo ix w access n) b -> b_todo b = [] -> b_flight b = [] -> b_written b = false ->
  exists f st segs log', backup_done b todo num old (start_of (w_bv w) access) f st segs log'.
Proof.
  intros Hst Hr Ht Hfl Hw. destruct (reachable_binv _ _ _ _ _ _ _ _ _ _ Hst Hr) as (versions & log1 & segs & [[Hfi _ _] _ _ _ Hv Hold Hn Hk (files & Hwr & Hcl)]).
  destruct (filter_finish_ok _ _ _ _ Hfi) as (f & log' & E & Ew & Eac & Hso). specialize (Hso Hw).
  assert (Hvs : versions = <[num := segs]> old).
  { apply map_eq. intros k. destruct (decide (k = num)) as [->|Hne]; [by rewrite lookup_insert_eq|rewrite lookup_insert_ne by done; by apply Hold]. }
  pose proof (recipe_data _ _ _ _ _ _ Hfi Hv Hn) as Hrec.
  destruct Hso as [(Hs & Hrc & Hcur) HV Hkv Hd Hx Hun]. destruct (append_thread_spec simulation_level _ _ _ Hs eq_refl) as (st & Ea & Hs' & Hb & Hc).
  exists f, st, segs, log'. split; [exact E|exact Ea| |by rewrite Ew|exact Hb| |].
  - rewrite <- Hvs. split; [split; [exact Hs'|by split]|exact HV|exact Hkv|exact Hd|exact Hx|exact Hun].
  - rewrite Hfl, Ht, app_nil_r in Hk. exact Hk.
  - rewrite Hfl, Ht, app_nil_r in Hcl. subst files. by rewrite Ew, Eac.
Qed.

(** C4: A backup never fails and never gets stuck. In every state the threads can
    reach, whatever their interleaving, the lookup of the next segment, the
    filter of the oldest segment in flight and the append thread run into none of
    their assertions or invalid accesses. As long as the stores have room the
    backup comes to its end, however the threads run and whatever the rewriting
    marks, provided that the two buffers do not block each other ([unblocked]): there is
    no rewriting, or the dedup thread has no threshold to wait at, or the
    threshold leaves room for a segment and a full rewriting buffer. The filter is
    only counted on for a segment that the rewriting has surely handed over. *)
Theorem backup_completes todo num name old log ix w access n b : backup_start todo num name old log ix w ->
  rtc backup_step (backup_init todo ix w access n) b ->
  let f := b_filter b in
  (forall seg rest, b_todo b = seg :: rest ->
     exists r, dedup_segment cfg simulation_level wait_threshold dir (container_buffer f) (f_index f) (f_world f) seg = Ok r) /\
  (forall seg rest, b_flight b = seg :: rest -> room f seg -> exists r, filter_segment cfg fcfg simulation_level wait_threshold f seg = Ok r) /\
  (forall r, append_write simulation_level (w_cs (f_world f)) = Some r -> exists st, r = Ok st) /\
  (fits b -> unblocked b -> completes (fun b' => b_todo b' = [] /\ b_flight b' = [] /\ b_written b' = false) b).
Proof.
  intros Hst Hr f. destruct (reachable_binv _ _ _ _ _ _ _ _ _ _ Hst Hr) as (versions & log1 & segs & Hb). subst f. split; [|split; [|split]].
  - intros seg rest E. pose proof (bi_todo _ _ _ _ _ _ _ _ Hb) as Hto. rewrite E in Hto. apply Forall_cons in Hto as [Hseg _].
    destruct (dedup_segment_ok _ _ _ _ _ _ (bi_filter _ _ _ _ _ _ _ _ Hb) Hseg) as (r & ? & _). by exists r.
  - intros seg rest E Hroom. destruct b as [td fl f wr]. cbn in E, Hroom |- *. subst fl.
    destruct (binv_filter _ _ _ _ _ _ _ _ _ _ _ _ Hb Hroom) as (f' & full & _ & _ & _ & -> & _). by eexists.
  - intros r Ha. destruct (fi_wok _ _ _ _ _ _ _ _ _ (fo_inv _ _ _ _ _ _ _ _ _ _ (bi_filter _ _ _ _ _ _ _ _ Hb))) as [Hs _].
    by eapply sys_inv_append.
  - intros Hfit Hu. apply (backup_completes_all _ _ _ _ _ _ _ _ _ Hb Hfit Hu eq_refl). intros b' _ _ _ _ _ Hw0 Hwr.
    by apply weight_zero in Hw0 as [? ?].
Qed.

(** What a backup leaves. When all its segments are filtered, the filter
    thread and the append thread finish; the recipe is the sequence of the
    fingerprints and sizes of the input, cut into segments, and the stores are
    again in the state in which the next backup may start. *)
Theorem backup_leaves_store todo num name old log ix w access n b : backup_start todo num name old log ix w ->
  rtc backup_step (backup_init todo ix w access n) b -> b_todo b = [] -> b_flight b = [] -> b_written b = false ->
  exists f st segs log', filter_finish cfg (b_filter b) = Ok f /\
    append_thread simulation_level (length (Container.container_buffer (w_cs (f_world f)))) (w_cs (f_world f)) = Ok st /\
    fdata (recipe_fp (w_bv (f_world f))) = segs_bytes segs /\
    map (fun cp => (cp_fp cp, cp_size cp)) (concat segs) = map (fun c => (ck_fp c, ck_size c)) (normals (chunks_of todo)) /\
    store_ok (<[num := segs]> old) log' (mk_world st (w_bv (f_world f)) (w_opened (f_world f))) (ix_kv (f_index f)).
Proof.
  intros Hst Hr Ht Hfl Hw. destruct (backup_ends _ _ _ _ _ _ _ _ _ _ Hst Hr Ht Hfl Hw) as (f & st & segs & log' & []).
  by exists f, st, segs, log'.
Qed.

(** C5: Exact deduplication. With an exact index over containers and no
    rewriting, the recipes of all versions agree on the container of every
    fingerprint: no fingerprint is stored twice. *)
Theorem exact_backup_stores_once todo num name old log ix w access n b : backup_start todo num name old log ix w ->
  rtc backup_step (backup_init todo ix w access n) b -> b_todo b = [] -> b_flight b = [] -> b_written b = false ->
  exact cfg -> rewrite_algorithm_0 fcfg = REWRITE_NO ->
  exists segs, fdata (recipe_fp (w_bv (f_world (b_filter b)))) = segs_bytes segs /\
  forall n1 n2 segs1 segs2 cp1 cp2, <[num := segs]> old !! n1 = Some segs1 -> <[num := segs]> old !! n2 = Some segs2 ->
    cp1 ∈ concat segs1 -> cp2 ∈ concat segs2 -> cp_fp cp1 = cp_fp cp2 -> cp_id cp1 = cp_id cp2.
Proof.
  intros Hst Hr Ht Hfl Hw He Hno. destruct (backup_ends _ _ _ _ _ _ _ _ _ _ Hst Hr Ht Hfl Hw) as (f & st & segs & log' & [Ef _ [_ HV _ _ _ Hun] Hrec _ _ _]).
  exists segs. split.
  - destruct (reachable_binv _ _ _ _ _ _ _ _ _ _ Hst Hr) as (versions & log1 & segs' & [[Hfi _ _] _ _ _ _ _ _ _ _]).
    destruct (filter_finish_ok _ _ _ _ Hfi) as (f0 & ? & E & Ew & _ & _). rewrite Ef in E. injection E as <-. by rewrite Ew in Hrec.
  - intros n1 n2 segs1 segs2 cp1 cp2 E1 E2 H1 H2 Efp. destruct (HV _ _ E1) as (_ & _ & _ & P1), (HV _ _ E2) as (_ & _ & _ & P2).
    unfold pointers_hold in P1, P2. rewrite Forall_forall in P1, P2. apply (Hun He Hno _ _ (cp_fp cp1)); [by apply P1|rewrite Efp; by apply P2].
Qed.

(** ** Restoring *)

(** Every pointer of every recipe can be restored. *)
Lemma pointers_restorable versions log st num segs : sys_inv simulation_level (mk_sys st None false log) ->
  versions_ok simulation_level content versions log None -> (forall id con, log !! id = Some con -> container_data simulation_level content con) ->
  Container.container_buffer st = [] -> simulation_level < SIMULATION_APPEND -> versions !! num = Some segs ->
  Forall (restorable simulation_level content st) (map ptr_chunk (concat segs)).
Proof using.
  intros Hs HV Hd Hb Hlv E. destruct (HV _ _ E) as (_ & _ & _ & Hp). unfold pointers_hold in Hp.
  apply Forall_map. eapply Forall_impl; [exact Hp|]. intros cp [(Hge & con & Hid & Hfp & [Hl|?]) Hsz]; [|done].
  right. split; [done|]. split; [done|]. split; [by apply Hsz|]. exists con. split; [|by split].
  destruct (si_log _ _ Hs _ _ Hl) as (Hok & _). split; [done|by rewrite Hid| |intros fp Hf; by eapply Hd].
  destruct (si_kept _ _ Hs _ _ Hl) as [Hin|Hdisk]; [|done]. cbn in Hin. rewrite Hb in Hin. by apply elem_of_nil in Hin.
Qed.

Lemma store_restorable versions log w kv num segs : store_ok versions log w kv -> Container.container_buffer (w_cs w) = [] ->
  simulation_level < SIMULATION_APPEND -> versions !! num = Some segs ->
  Forall (restorable simulation_level content (w_cs w)) (map ptr_chunk (concat segs)).
Proof using. intros [(Hs & _) HV _ Hd _ _]. by eapply pointers_restorable. Qed.

Definition served_pointer (cp : chunkPointer) (c : chunk) : Prop :=
  ck_size c = cp_size cp /\ chunk_bytes c (ck_size c) = Ok (content (cp_fp cp)).

Lemma delivers_pointers cps out : Forall2 (delivers content) (map ptr_chunk cps) out -> Forall2 served_pointer cps out.
Proof using.
  intros H. change (map ptr_chunk cps) with (ptr_chunk <$> cps) in H. rewrite Forall2_fmap_l in H. eapply Forall2_impl; [exact H|]. intros cp c Hd. unfold delivers in Hd.
  change (is_file_flag (ptr_chunk cp)) with false in Hd. destruct Hd as (_ & H1 & H2). by split.
Qed.

(** The pointers of the recipe serve the bytes of the chunks of the input. *)
Lemma served_input cps cs out : map ptr_key cps = map chunk_key cs -> Forall (fun c => chunk_bytes c (ck_size c) = Ok (content (ck_fp c))) cs ->
  Forall2 served_pointer cps out -> Forall2 (fun c c' => ck_size c' = ck_size c /\ chunk_bytes c' (ck_size c') = chunk_bytes c (ck_size c)) cs out.
Proof using.
  intros Hk Hc H. revert cs Hk Hc. induction H as [|cp c' cps out [Hsz Hb] _ IH]; intros [|c cs] Hk Hc; try done.
  injection Hk as E1 E2 Hk. apply Forall_cons in Hc as [Hc Hcs]. constructor; [|by apply IH]. split; [congruence|]. by rewrite Hb, E1, Hc.
Qed.

Lemma input_bytes todo : simulation_level < SIMULATION_APPEND -> Forall todo_ok todo ->
  Forall (fun c => chunk_bytes c (ck_size c) = Ok (content (ck_fp c))) (normals (chunks_of todo)).
Proof using.
  intros Hlv H. induction H as [|seg todo [_ Hc _ _] _ IH]; [constructor|]. change (chunks_of (seg :: todo)) with (seg_chunks seg ++ chunks_of todo).
  rewrite normals_app. apply Forall_app. split; [|exact IH]. apply Forall_forall. intros c Hin. unfold normals in Hin.
  apply list_elem_of_filter in Hin as [Hf Hin]. rewrite Forall_forall in Hc. destruct (Hc c Hin) as (Hda & _). by apply Hda.
Qed.

(** What is backed up is restored. After a backup the LRU restore cache serves
    every version that the store has, the new one and those of earlier backups,
    from first to last chunk with the bytes of each fingerprint; for the new
    version they are the bytes of the chunks of the input, in order. *)
Theorem backup_then_restore todo num name old log ix w access n b : backup_start todo num name old log ix w ->
  rtc backup_step (backup_init todo ix w access n) b -> b_todo b = [] -> b_flight b = [] -> b_written b = false ->
  simulation_level = SIMULATION_NO ->
  exists f st segs, filter_finish cfg (b_filter b) = Ok f /\
    append_thread simulation_level (length (Container.container_buffer (w_cs (f_world f)))) (w_cs (f_world f)) = Ok st /\
    fdata (recipe_fp (w_bv (f_world f))) = segs_bytes segs /\
    forall n' segs' cache_size stat stack, <[num := segs]> old !! n' = Some segs' ->
    exists out stat' st', lru_restore_thread simulation_level stack cache_size st stat (map ptr_chunk (concat segs')) = Ok (out, stat', st') /\
      Forall2 (fun cp c => ck_size c = cp_size cp /\ chunk_bytes c (ck_size c) = Ok (content (cp_fp cp))) (concat segs') out /\
      (n' = num -> Forall2 (fun c c' => ck_size c' = ck_size c /\ chunk_bytes c' (ck_size c') = chunk_bytes c (ck_size c)) (normals (chunks_of todo)) out).
Proof.
  intros Hst Hr Ht Hfl Hw Hsim. destruct (backup_ends _ _ _ _ _ _ _ _ _ _ Hst Hr Ht Hfl Hw) as (f & st & segs & log' & [Ef Ea Hso Hrec Hb Hk _]).
  exists f, st, segs. do 3 (split; [done|]). intros n' segs' cache_size stat stack E.
  pose proof (store_restorable _ _ _ _ _ _ Hso Hb ltac:(by rewrite Hsim) E) as Hres.
  destruct (lru_restore_delivers simulation_level stack content ltac:(by rewrite Hsim) cache_size st stat _ Hres) as (out & stat' & st' & Eo & Ho).
  apply delivers_pointers in Ho. exists out, stat', st'. split; [exact Eo|]. split; [exact Ho|]. intros ->. rewrite lookup_insert_eq in E. injection E as <-.
  eapply served_input; [exact Hk| |exact Ho]. apply input_bytes; [by rewrite Hsim|apply Hst].
Qed.
End Backup.

(** ** Witnesses *)

Section Demo.
#[local] Existing Instance std_hash_iter.
#[local] Existing Instance std_hash_iter_ok.
#[local] Existing Instance std_seq_sort.
#[local] Existing Instance std_seq_sort_ok.

(** DDFS without rewriting: exact deduplication over containers. *)
Definition demo_index_config : index_config :=
  mk_index_config INDEX_SPECIFIC_DDFS INDEX_CATEGORY_EXACT INDEX_CATEGORY_PHYSICAL_LOCALITY INDEX_SEGMENT_FIXED INDEX_SEGMENT_SELECT_BASE 1
    INDEX_SAMPLING_UNIFORM 1 fp_size 1 1 4.
Definition demo_filter_config : filter_config := mk_filter_config false false (d_of_Z 0) REWRITE_NO.
Definition demo_capping_config : filter_config := mk_filter_config false false (d_of_Z 0) 3.
Definition demo_content (fp : fingerprint) : list Z := [1; 2; 3].

(** A file of two copies of one chunk. *)
Definition demo_file : list chunk :=
  [SET_CHUNK (block_chunk [97; 0]) CHUNK_FILE_START; demo_chunk; demo_chunk; SET_CHUNK (new_chunk 0) CHUNK_FILE_END].
Definition demo_segment : segment := mk_segment TEMPORARY_ID 2 demo_file None.

Lemma demo_init_config : init_index_config demo_index_config = Ok demo_index_config.
Proof. reflexivity. Qed.

Lemma demo_config_ok : config_ok demo_index_config.
Proof.
  split; try done; [by left|]. split; [by eexists|]. split; [done|]. done.
Qed.

Lemma demo_data : data_ok 0 demo_content demo_chunk.
Proof. split_and!; try done. split; [done|decide_it]. Qed.

Lemma demo_todo : todo_ok 0 demo_content demo_segment.
Proof.
  split; [split|..]; [|decide_it|done| |done|done].
  - unfold new_chunks, demo_segment, demo_file. cbn [seg_chunks]. rewrite !Forall_cons. split_and!; try done; intros _; done.
  - unfold demo_segment, demo_file. cbn [seg_chunks]. rewrite !Forall_cons. split_and!; try done; try (intros _; apply demo_data).
    intros _. exists [97; 0]. split; [done|]. by vm_compute.
Qed.

(** An empty store, and the first version for the path "a". *)
Lemma demo_start : exists ix w, backup_start demo_index_config demo_filter_config 0 ∅ demo_content [demo_segment] 0 [97; slash] ∅ ∅ ix w /\
  container_count (w_cs w) = 0 /\ fdata (recipe_fp (w_bv w)) = [].
Proof.
  destruct (create_spec 0 [97] []) as (bv & Hcr & Hw & _); [done|done|].
  assert (Hix : exists ix, init_index demo_index_config None = Ok ix /\ ix_kv ix = ∅) by by eexists.
  destruct Hix as (ix & Hix & Hkv). exists ix, (mk_world demo_store bv NoVersion). split; [|split; [done|apply Hw]].
  split; [|apply Hw|by eexists|by exists None|by apply Forall_singleton; apply demo_todo|done].
  split.
  - split; [|split].
    + eapply (sys_reachable_inv 0 demo_store); [apply container_demo_start|apply rtc_refl].
    + intros num segs [[<- <-]|[_ Hl]]%lookup_insert_Some; [|by rewrite lookup_empty in Hl]. split_and!; [done|intros _; apply Hw|].
      intros Hne. exfalso. apply Hne. apply Hw.
    + split; [done|]. exists []. do 5 eexists. cbn [w_bv]. assert (bv_num bv = 0) as -> by apply Hw. split; [apply lookup_insert_eq|exact Hw].
  - intros num segs [[<- <-]|[_ Hl]]%lookup_insert_Some; [|by rewrite lookup_empty in Hl]. split_and!; try done; constructor.
  - rewrite Hkv. exists ∅. split; [apply represents_empty|]. split; [|split]; intros; set_solver.
  - intros id con H. by rewrite lookup_empty in H.
  - intros _ id con fp H. by rewrite lookup_empty in H.
  - intros _ _ id1 id2 fp (_ & c & _ & _ & [H|H]); [by rewrite lookup_empty in H|done].
Qed.

Lemma demo_start_capping ix w : backup_start demo_index_config demo_filter_config 0 ∅ demo_content [demo_segment] 0 [97; slash] ∅ ∅ ix w ->
  backup_start demo_index_config demo_capping_config 0 ∅ demo_content [demo_segment] 0 [97; slash] ∅ ∅ ix w.
Proof. intros [[H1 H2 H3 H4 H5 H6] H7 H8 H9 H10 H11]. by split; [split|..]. Qed.

Lemma demo_fits ix w : container_count (w_cs w) = 0 -> fdata (recipe_fp (w_bv w)) = [] -> fits (backup_init [demo_segment] ix w TEMPORARY_ID 1).
Proof. intros Hc Hr. split; cbn [backup_init b_flight b_todo b_filter start_filter_phase f_world]; rewrite ?Hr, ?Hc; by vm_compute. Qed.

(** A backup with a rewriting buffer of three chunks and a threshold of five, in any of the states. *)
Lemma demo_completes thr : exists ix w, backup_start demo_index_config demo_filter_config 0 ∅ demo_content [demo_segment] 0 [97; slash] ∅ ∅ ix w /\
  completes demo_index_config demo_filter_config 0 thr ∅ 3 (fun b => b_todo b = [] /\ b_flight b = [] /\ b_written b = false) (backup_init [demo_segment] ix w TEMPORARY_ID 1).
Proof.
  destruct demo_start as (ix & w & Hst & Hc & Hr). exists ix, w. split; [exact Hst|].
  pose proof (start_binv demo_index_config demo_filter_config 0 ∅ demo_content [demo_segment] 0 [97; slash] ∅ ∅ ix w TEMPORARY_ID 1 Hst) as Hb.
  apply (backup_completes_all demo_index_config demo_filter_config 0 thr ∅ demo_config_ok demo_content 3 _ _ _ _ _ _ _ _ _ Hb (demo_fits ix w Hc Hr) (or_introl eq_refl) eq_refl).
  intros b' _ _ _ _ _ Hw0 Hwr. by apply weight_zero in Hw0 as [? ?].
Qed.

(** It runs to the end. *)
Lemma demo_backup : exists ix w b, backup_start demo_index_config demo_filter_config 0 ∅ demo_content [demo_segment] 0 [97; slash] ∅ ∅ ix w /\
  rtc (backup_step demo_index_config demo_filter_config 0 0 ∅) (backup_init [demo_segment] ix w TEMPORARY_ID 1) b /\
  b_todo b = [] /\ b_flight b = [] /\ b_written b = false.
Proof.
  destruct (demo_completes 0) as (ix & w & Hst & Hco). exists ix, w. apply completes_run in Hco as (b & Hrun & _ & H). by exists b.
Qed.

(** With capping, a rewriting buffer of three chunks and a threshold of five: a
    segment of two chunks does not block. *)
Lemma backup_completes_witness : exists ix w,
  completes demo_index_config demo_capping_config 0 5 ∅ 3 (fun b => b_todo b = [] /\ b_flight b = [] /\ b_written b = false) (backup_init [demo_segment] ix w TEMPORARY_ID 1).
Proof.
  destruct demo_start as (ix & w & Hst & Hc & Hr). exists ix, w.
  destruct (backup_completes demo_index_config demo_capping_config 0 5 ∅ demo_config_ok demo_content 3 _ _ _ _ _ _ _ TEMPORARY_ID 1 _ (demo_start_capping _ _ Hst) (rtc_refl _ _)) as (_ & _ & _ & H).
  apply H; [by apply demo_fits|]. right; right. by apply Forall_singleton.
Defined.

Lemma backup_leaves_store_witness : exists b f segs, filter_finish demo_index_config (b_filter b) = Ok f /\
  fdata (recipe_fp (w_bv (f_world f))) = segs_bytes segs /\ map (fun cp => (cp_fp cp, cp_size cp)) (concat segs) = [(ck_fp demo_chunk, 3); (ck_fp demo_chunk, 3)].
Proof.
  destruct demo_backup as (ix & w & b & Hst & Hr & H1 & H2 & H3).
  destruct (backup_leaves_store demo_index_config demo_filter_config 0 0 ∅ demo_config_ok demo_content _ _ _ _ _ _ _ TEMPORARY_ID 1 b Hst Hr H1 H2 H3)
    as (f & st & segs & log & E & _ & Hd & Hk & _). by exists b, f, segs.
Defined.

Lemma exact_backup_stores_once_witness : exists b segs, fdata (recipe_fp (w_bv (f_world (b_filter b)))) = segs_bytes segs /\
  forall cp1 cp2, cp1 ∈ concat segs -> cp2 ∈ concat segs -> cp_fp cp1 = cp_fp cp2 -> cp_id cp1 = cp_id cp2.
Proof.
  destruct demo_backup as (ix & w & b & Hst & Hr & H1 & H2 & H3).
  destruct (exact_backup_stores_once demo_index_config demo_filter_config 0 0 ∅ demo_config_ok demo_content _ _ _ _ _ _ _ TEMPORARY_ID 1 b Hst Hr H1 H2 H3)
    as (segs & Hd & H); [done|done|]. exists b, segs. split; [exact Hd|]. intros cp1 cp2. by apply (H 0 0 segs segs); apply lookup_insert_eq.
Defined.

Lemma backup_then_restore_witness : exists st cps out stat st', lru_restore_thread 0 (fun _ => []) 4 st (mk_rstat 0 0 0) (map ptr_chunk cps) = Ok (out, stat, st') /\
  Forall2 (fun c c' => ck_size c' = ck_size c /\ chunk_bytes c' (ck_size c') = chunk_bytes c (ck_size c)) [demo_chunk; demo_chunk] out.
Proof.
  destruct demo_backup as (ix & w & b & Hst & Hr & H1 & H2 & H3).
  destruct (backup_then_restore demo_index_config demo_filter_config 0 0 ∅ demo_config_ok demo_content _ _ _ _ _ _ _ TEMPORARY_ID 1 b Hst Hr H1 H2 H3 eq_refl)
    as (f & st & segs & _ & _ & _ & H). destruct (H 0 segs 4 (mk_rstat 0 0 0) (fun _ => []) (lookup_insert_eq _ _ _)) as (out & stat & st' & E & _ & Ho).
  exists st, (concat segs), out, stat, st'. split; [exact E|]. exact (Ho eq_refl).
Defined.
End Demo.
