(* ===== verification/Job.v ===== *)
(** Jobs: a backup from what is on the disk to what is on the disk, as
    [do_backup] of [destor/src/do_backup.c] and [destor_write] of
    [destor_server.c] run it, and the restores that follow.

    A process serves one job, so the statics of the modules start afresh: the
    access record is [TEMPORARY_ID], no version is opened for prefetching. *)

From S2P Require Import Prelude Serial CFile Glib Destor Double LruCache Container Recipe Segmenting Sampling KvStore RestoreCache OptRestore DoRestore.
From S2P Require Import RestoreAware Index IndexInv Filter FilterInv DedupPhase Backup.

(** What a destor directory holds: the versions, [backupversion.count],
    [container.pool] and the index. *)
Record disk := mk_disk {
  dk_versions : gmap Z version_files;
  dk_counter : option (list Z);
  dk_pool : option (list Z);
  dk_index : option (list Z);
}.

Section Job.
Context `{HC : !HashIter fingerprint metaEntry} `{HF : !HashIter (list Z) ()} `{HS : !HashIter Z (gset (list Z))} `{HK : !HashIter (list Z) (list Z)}.
Context `{SF : !SeqSort fingerprint} `{SA : !SeqSort (fingerprint * fingerprint)} `{SS : !SeqSort (Z * gset (list Z))}.
Context (cfg : index_config) (fcfg : filter_config) (simulation_level wait_threshold restore_cache_size : Z).

(** [init_recipe_store], [init_container_store], [init_index] and
    [init_backup_jcr]; the number is the next version counter. *)
Definition start_backup (d : disk) (path : list Z) : res (index * world * Z) :=
  let backup_version_count := init_recipe_store (dk_counter d) in
  st ← init_container_store (dk_pool d);
  ix ← init_index cfg (dk_index d);
  '(bv, backup_version_count) ← create_backup_version backup_version_count path;
  Ok (ix, mk_world st bv NoVersion, backup_version_count).

(** [close_index], [close_container_store], [close_recipe_store],
    [update_backup_version] and [free_backup_version]. *)
Definition close_index (ix : index) : list Z := fdata (close_kvstore_htable (kv_of_config cfg) (ix_kv ix)).

Definition finish_backup (d : disk) (s : filter_state) (backup_version_count : Z) : res disk :=
  let index := close_index (f_index s) in
  pool ← close_container_store simulation_level (w_cs (f_world s));
  let counter := close_recipe_store backup_version_count in
  '(bv, _) ← update_backup_version (w_bv (f_world s)) (f_access s);
  Ok (mk_disk (free_backup_version (dk_versions d) bv) (Some counter) (Some (fdata pool)) (Some index)).

(** A run of [do_backup]: the threads in any interleaving, until all have
    stopped. *)
Inductive do_backup (path : list Z) (todo : list segment) (d : disk) : disk -> Prop :=
| do_backup_run ix w count b s d' :
    start_backup d path = Ok (ix, w, count) ->
    rtc (backup_step cfg fcfg simulation_level wait_threshold (dk_versions d)) (backup_init todo ix w TEMPORARY_ID restore_cache_size) b ->
    b_todo b = [] -> b_flight b = [] -> b_written b = false ->
    filter_finish cfg (b_filter b) = Ok s ->
    finish_backup d s count = Ok d' ->
    do_backup path todo d d'.

(** ** What a disk holds *)

Context `{HCO : !HashIterOk fingerprint metaEntry} `{HFO : !HashIterOk (list Z) ()} `{HSO : !HashIterOk Z (gset (list Z))} `{HKO : !HashIterOk (list Z) (list Z)}.
Context `{SFO : !SeqSortOk fingerprint} `{SAO : !SeqSortOk (fingerprint * fingerprint)} `{SSO : !SeqSortOk (Z * gset (list Z))}.
Context (CO : config_ok cfg) (Hvl : value_length cfg < 2 ^ 31) (content : fingerprint -> list Z).

(** A job that was done: the path and the segments that were backed up. *)
Definition job : Type := list Z * list segment.

(** The entries of the files of a job. *)
Definition job_files (j : job) : list fileRecipeMeta := closed_files None (chunks_of j.2).
Definition job_path (j : job) : list Z := match trim_path (rev j.1) with Ok p => p | Err _ => [] end.

(** The directory part of the path is a string of the header, and the counts fit
    their fields. *)
Record job_ok (j : job) : Prop := {
  jo_path : trim_path (rev j.1) = Ok (job_path j);
  jo_name : Forall (fun ch => ch <> 0) j.1 /\ zlen j.1 < 2 ^ 31;
  jo_todo : Forall (todo_ok simulation_level content) j.2;
  jo_stream : file_stream false (chunks_of j.2) = Some false;
  jo_small : zlen (chunks_of j.2) < 2 ^ 31;
}.

(** Version [n] is that of job [j]: its files on disk, and the fingerprints and
    sizes of its recipe are those of the input. *)
Definition version_of (dir : gmap Z version_files) (n : Z) (j : job) (segs : list (list chunkPointer)) : Prop :=
  version_on_disk dir n (job_path j) (job_files j) segs /\ map ptr_key (concat segs) = map chunk_key (normals (chunks_of j.2)).

(** An index file of less than 2 GB. *)
Definition dump_small (d : disk) : Prop := forall data, dk_index d = Some data -> zlen data < 2 ^ 31.

Record disk_ok (h : list job) (d : disk) (versions : gmap Z (list (list chunkPointer))) (log : gmap Z container) : Prop := {
  dk_count : init_recipe_store (dk_counter d) = zlen h;
  dk_jobs : Forall job_ok h;
  dk_version n j : h !! n = Some j -> exists segs, versions !! Z.of_nat n = Some segs /\ version_of (dk_versions d) (Z.of_nat n) j segs;
  dk_only n segs : versions !! n = Some segs -> 0 <= n < zlen h;
  dk_store : exists st, init_container_store (dk_pool d) = Ok st /\ sys_inv simulation_level (mk_sys st None false log);
  dk_kv : dump_small d -> exists kv, init_kvstore (kv_of_config cfg) INDEX_KEY_VALUE_HTABLE (dk_index d) = Ok kv /\
    kv_ok cfg (prefetchable cfg versions log) (unit_has log) kv /\
    (exact cfg -> forall id con fp, log !! id = Some con -> is_Some (cm_map (c_meta con) !! fp) -> is_Some (kv !! fp));
  dk_ptrs : versions_ok simulation_level content versions log None;
  dk_data id con : log !! id = Some con -> container_data simulation_level content con;
  dk_unique : exact cfg -> rewrite_algorithm_0 fcfg = REWRITE_NO -> forall id1 id2 fp, holds log None id1 fp -> holds log None id2 fp -> id1 = id2;
}.

(** ** A job starts *)

Lemma job_start h d versions log path todo : disk_ok h d versions log -> dump_small d -> job_ok (path, todo) -> zlen h < 2 ^ 15 ->
  exists ix w, start_backup d path = Ok (ix, w, zlen h + 1) /\
    backup_start cfg fcfg simulation_level (dk_versions d) content todo (zlen h) path versions log ix w.
Proof.
  intros [Hcnt Hjobs Hver Honly (st & Est & Hs) Hidx Hp Hd Hun] Hdump [Htrim _ Hto Hst _] Hh. pose proof (zlen_nonneg h) as Hh0.
  destruct (Hidx Hdump) as (kv & Ekv & Hkv & Hx).
  destruct (trim_path_inv _ _ Htrim) as (pre & rest & Epath & Hrest & _). cbn [fst] in Epath.
  destruct (create_spec (zlen h) pre rest ltac:(lia) Hrest) as (bv & Ecr & Hw & _). rewrite <- Epath in Ecr.
  assert (Ecnt : s32 (zlen h + 1) = zlen h + 1) by (apply s32_id; lia). rewrite Ecnt in Ecr.
  unfold start_backup. rewrite Est. step. unfold init_index. rewrite Ekv. step.
  assert (Hfc : exists c, init_fingerprint_cache cfg = Ok c).
  { unfold init_fingerprint_cache. destruct (co_category cfg CO) as [-> | ->]; by eexists. }
  destruct Hfc as (c & Efc). rewrite Efc. step. step. rewrite Hcnt, Ecr. step.
  eexists _, _. split; [reflexivity|].
  assert (Hnum : bv_num bv = zlen h) by apply Hw.
  split; cbn [w_bv ix_kv]; [|done|by eexists| |done|done].
  - assert (Hold : forall n segs, versions !! n = Some segs -> n <> zlen h) by (intros n segs E ->; apply Honly in E; lia).
    split; cbn [w_cs w_bv w_opened].
    + split; [exact Hs|]. split.
      * intros n segs. rewrite lookup_insert_Some. intros [[<- <-]|[Hne E]].
        { split_and!; [done|intros _; apply Hw|intros Hne; by destruct Hne]. }
        split_and!; [done|intros Heq; cbn in Heq; congruence|intros _]. pose proof (Honly n segs E) as Hn. destruct (lookup_lt_is_Some_2 h (Z.to_nat n)) as [j Hj]; [unfold zlen in Hn; lia|].
        destruct (Hver _ _ Hj) as (segs' & E' & [[Hf Hnum' [Hpl Hpn] _ [Hfl Hcl] _] _]). rewrite Z2Nat.id in * by lia. assert (segs' = segs) as -> by congruence.
        pose proof (zlen_nonneg (job_files j)). pose proof (zlen_nonneg (concat segs)).
        destruct (open_spec (dk_versions d) _ _ _ _ _ _ _ Hf) as (b & Eo & E1 & _ & _ & _ & _ & _ & E2 & _); [unfold in_s; lia..|done|].
        exists b. split_and!; [done|done|by rewrite E2].
      * split; [done|]. exists []. do 5 eexists. cbn [w_bv]. rewrite Hnum. split; [apply lookup_insert_eq|exact Hw].
    + intros n segs. rewrite lookup_insert_Some. intros [[<- <-]|[Hne E]]; [|by eapply Hp]. split_and!; [lia|lia|constructor|done|constructor].
    + destruct Hkv as (am & H1 & H2 & H3 & H4). exists am. split_and!; [done|done| |done]. intros k l El. eapply Forall_impl; [by eapply H3|].
      intros id. unfold prefetchable. destruct (physical cfg); [done|]. intros (n & s1 & cps & s2 & E & Hr). exists n, s1, cps, s2.
      split; [|done]. rewrite lookup_insert_ne; [done|]. intros E'. by apply (Hold n _ E).
    + exact Hd.
    + exact Hx.
    + exact Hun.
  - exists (dk_index d). unfold init_index. rewrite Ekv. step. rewrite Efc. by step.
Qed.

(** ** The files of a version *)

(** The entries count the chunks of the stream. *)
Lemma closed_files_count cs : forall o, file_stream (match o with Some _ => true | None => false end) cs = Some false ->
  let n := match o with Some r => fm_chunknum r | None => 0 end in 0 <= n -> n + zlen cs < 2 ^ 63 ->
  sum_chunks (closed_files o cs) = (Z.to_nat n + length (normals cs))%nat.
Proof using.
  induction cs as [|c cs IH]; intros o Hst n Hn Hlt; [by destruct o|]. rewrite zlen_cons in Hlt. pose proof (zlen_nonneg cs).
  assert (Enc : normals (c :: cs) = normals [c] ++ normals cs) by apply (normals_app [c] cs).
  cbn [closed_files file_stream] in *. destruct o as [r|].
  - cbn [closed_by file_step] in *. destruct (CHECK_CHUNK c CHUNK_FILE_END) eqn:Ee.
    + assert (normals [c] = []) as Ec by (unfold normals; rewrite filter_cons_False; [done|]; unfold is_file_flag; rewrite Ee; by rewrite orb_true_r).
      cbn [app]. rewrite sum_chunks_cons, (IH None), Enc, Ec by (done || lia). done.
    + destruct (is_file_flag c) eqn:Ef; [done|]. cbn [app]. subst n. rewrite (IH (Some _)); cbn [fm_chunknum]; [|done|rewrite swrap_id by (unfold in_s; lia); lia..].
      rewrite swrap_id by (unfold in_s; lia). rewrite Enc.
      assert (normals [c] = [c]) as -> by (unfold normals; by rewrite filter_cons_True). rewrite length_app. cbn [length]. lia.
  - destruct (CHECK_CHUNK c CHUNK_FILE_START) eqn:Es; [|done]. cbn [closed_by app file_step]. rewrite (IH (Some _)) by (done || cbn; lia).
    assert (normals [c] = []) as Ec by (unfold normals; rewrite filter_cons_False; [done|]; unfold is_file_flag; by rewrite Es).
    by rewrite Enc, Ec.
Qed.

Lemma closed_files_length cs : forall o, (length (closed_files o cs) <= length cs)%nat.
Proof using.
  induction cs as [|c cs IH]; intros o; [done|]. cbn [closed_files length]. rewrite length_app. specialize (IH (file_step o c)).
  assert (length (closed_by o c) <= 1)%nat; [|lia]. unfold closed_by. destruct o; [destruct (CHECK_CHUNK _ _)|]; cbn; lia.
Qed.

(** The version that a backup leaves on disk. *)
Lemma version_finished dir j v0 n b access segs : job_ok j -> 0 <= n < 2 ^ 31 ->
  vs_path v0 = job_path j -> zlen (vs_head v0) = 28 + zlen (job_path j) -> vs_access v0 = TEMPORARY_ID ->
  version_written v0 n b access (job_files j) segs -> Forall seg_ok segs -> zlen (segs_bytes segs) < 2 ^ 32 ->
  map ptr_key (concat segs) = map chunk_key (normals (chunks_of j.2)) ->
  exists b', update_backup_version b access = Ok (b', TEMPORARY_ID) /\ bv_num b' = n /\ version_of (free_backup_version dir b') n j segs.
Proof using.
  intros [Htrim [Hnz Hnl] _ Hst Hsmall] Hn Ep Eh Ea (Hw & -> & Hfo) Hso Hb Hk. rewrite Ea, Ep in *.
  assert (Hids : Forall (fun id => id <> TEMPORARY_ID) (map cp_id (concat segs))).
  { apply Forall_map. eapply Forall_impl; [by apply segs_ptrs|]. intros cp [_ ?]. unfold TEMPORARY_ID. cbn. lia. }
  destruct (update_spec _ (last_id TEMPORARY_ID (map cp_id (concat segs))) _ _ _ _ _ _ _ Hw) as (b' & E & En & Em & Er & Erec).
  exists b'. split; [exact E|]. split; [exact En|]. split; [|exact Hk].
  assert (Hlen : length (concat segs) = length (normals (chunks_of j.2))) by (apply (f_equal length) in Hk; by rewrite !length_map in Hk).
  assert (Hfl : zlen (job_files j) < 2 ^ 31) by (unfold job_files; pose proof (closed_files_length (chunks_of j.2) None); unfold zlen in *; lia).
  assert (Hpl : zlen (job_path j) < 2 ^ 31 /\ Forall (fun ch => ch <> 0) (job_path j)).
  { destruct (trim_path_inv _ _ Htrim) as (pre & rest & Ej & _ & ->). rewrite Ej in Hnz, Hnl. rewrite zlen_app, zlen_cons in Hnl.
    apply Forall_app in Hnz as [H1 _]. rewrite zlen_app. change (zlen [slash]) with 1. pose proof (zlen_nonneg rest). split; [lia|].
    apply Forall_app. split; [done|by repeat constructor]. }
  assert (Hcl : zlen (concat segs) < 2 ^ 28).
  { clear - Hso Hb. enough (cp_len * zlen (concat segs) <= zlen (segs_bytes segs)) by (unfold cp_len in *; lia). clear Hb.
    induction Hso as [|cps segs Hc _ IH]; [done|]. change (segs_bytes (cps :: segs)) with (seg_bytes cps ++ segs_bytes segs). cbn [concat].
    rewrite !zlen_app, zlen_seg_bytes by done. unfold cp_len in *. lia. }
  split; [|done|exact Hpl|done|done|].
  - unfold free_backup_version. rewrite En, lookup_insert_eq, Em, Er, Erec. do 2 f_equal.
    + f_equal. rewrite <- Eh. rewrite zdrop_app_exact; done.
    + by apply final_records.
  - unfold job_files. rewrite (closed_files_count _ None) by (done || lia). by rewrite Hlen.
Qed.

(** ** The index survives the process *)

Lemma prefetchable_range versions log st id : sys_inv simulation_level (mk_sys st None false log) -> prefetchable cfg versions log id -> in_s 64 id.
Proof using.
  intros Hs. unfold prefetchable. destruct (physical cfg).
  - intros [Hge [con Hc]]. destruct (si_log _ _ Hs _ _ Hc) as (_ & _ & _ & ? & ?). pose proof (si_count _ _ Hs) as Hcnt. cbn in *.
    unfold count_max in Hcnt. unfold in_s. lia.
  - intros (n & s1 & cps & s2 & _ & Hn & Ho & Hc & ->). pose proof (zlen_nonneg (segs_bytes s1)). pose proof (zlen_nonneg cps).
    rewrite make_segment_id_value by lia. unfold in_s. lia.
Qed.

Lemma index_entries versions log st kv : sys_inv simulation_level (mk_sys st None false log) -> kv_ok cfg (prefetchable cfg versions log) (unit_has log) kv ->
  forall k v, kv !! k = Some v -> kv_wf (kv_of_config cfg) (k, v).
Proof using CO.
  intros Hs (am & [Hr Hq] & Hk & Hp & _) k v Hv. rewrite Hr in Hv. apply fmap_Some in Hv as (l & El & ->).
  destruct (Hq k l El) as (_ & _ & _ & Hl). pose proof (co_length cfg CO). unfold pad. cbn [kv_of_config index_value_length kv_key_size] in *.
  split; [by apply (Hk k l)|]. split; cbn [snd].
  - unfold zlen. rewrite length_app, length_replicate. cbn. lia.
  - apply Forall_app. split.
    + eapply Forall_impl; [by apply (Hp k l)|]. intros id. by eapply prefetchable_range.
    + apply Forall_replicate. done.
Qed.

Lemma dump_size ht : Z.of_nat (size ht) <= zlen (fdata (close_kvstore_htable (kv_of_config cfg) ht)).
Proof using HKO.
  unfold close_kvstore_htable. change empty_file with (mk_file [] (zlen (@nil Z))). rewrite fwrite_end, <- zlen_app, write_kvs. cbn [app fdata].
  rewrite zlen_app, zlen_le_bytes, <- hash_iter_length. generalize (hash_iter ht). intros l.
  assert (H : Z.of_nat (length l) <= zlen (concat (map (kv_bytes (kv_of_config cfg)) l))); [|lia].
  induction l as [|kv l IH]; [done|]. cbn [map concat length]. rewrite zlen_app. unfold kv_bytes at 1. rewrite !zlen_app, zlen_le_bytes.
  pose proof (zlen_nonneg kv.1). pose proof (zlen_nonneg (concat (map (le_bytes 8) kv.2))). lia.
Qed.

(** ** A job ends *)

Lemma counter_roundtrip n : 0 <= n < 2 ^ 31 -> init_recipe_store (Some (close_recipe_store n)) = n.
Proof using.
  intros Hn. unfold init_recipe_store, close_recipe_store. change empty_file with (mk_file [] (zlen (@nil Z))). rewrite fwrite_end. cbn [app fdata].
  rewrite (fread_obj_has _ 0 _ (le_bytes 4 n)); [|by exists [], []; rewrite app_nil_r|by rewrite !zlen_le_bytes].
  change 32 with (8 * Z.of_nat 4). apply le_load_signed; [lia|unfold in_s; lia].
Qed.

Lemma close_appended st st' : append_thread simulation_level (length (Container.container_buffer st)) st = Ok st' -> Container.container_buffer st' = [] ->
  close_container_store simulation_level st = close_container_store simulation_level st'.
Proof using. intros E Hb. unfold close_container_store. rewrite E, Hb. cbn [length append_thread]. unfold append_write. by rewrite Hb. Qed.

Lemma job_end h d versions log path todo w b s st segs log' : disk_ok h d versions log -> job_ok (path, todo) -> zlen h < 2 ^ 15 ->
  bv_path (w_bv w) = job_path (path, todo) ->
  backup_done cfg fcfg simulation_level (dk_versions d) content b todo (zlen h) versions (start_of (w_bv w) TEMPORARY_ID) s st segs log' ->
  exists d', finish_backup d s (zlen h + 1) = Ok d' /\ disk_ok (h ++ [(path, todo)]) d' (<[zlen h := segs]> versions) log'.
Proof using CO HCO HKO Hvl.
  intros [Hcnt Hjobs Hver Honly _ _ _ _ _] Hj Hh Epath [_ Ea [(Hs & _ & _) HV Hkv Hda Hx Hun] _ Hbuf Hkeys Hwr]. cbn [w_cs] in *.
  pose proof (zlen_nonneg h) as Hh0. destruct (HV (zlen h) segs (lookup_insert_eq _ _ _)) as (_ & Hso & Hbytes & _).
  destruct (version_finished (dk_versions d) (path, todo) (start_of (w_bv w) TEMPORARY_ID) (zlen h) (w_bv (f_world s)) (f_access s) segs)
    as (b' & E & En & Hv); [done|lia|done| |done|exact Hwr|done|done|exact Hkeys|].
  { cbn [start_of vs_head]. by rewrite zlen_meta_header, Epath. }
  destruct (container_reopens simulation_level st log' Hs) as (f & st2 & Ef & Ei & _ & Hs2).
  unfold finish_backup. rewrite (close_appended _ _ Ea Hbuf), Ef. step. rewrite E. step. eexists. split; [reflexivity|].
  assert (Elen : zlen (h ++ [(path, todo)]) = zlen h + 1) by (rewrite zlen_app; done).
  split; cbn [dk_versions dk_counter dk_pool dk_index].
  - rewrite Elen. apply counter_roundtrip. lia.
  - apply Forall_app. split; [done|by apply Forall_singleton].
  - intros n j Hj'. apply lookup_app_Some in Hj' as [Hj'|[Hge Hj']].
    + pose proof (lookup_lt_Some _ _ _ Hj') as Hlt. destruct (Hver n j Hj') as (sg & Esg & [[V1 V2 V3 V4 V5 V6] V7]). exists sg.
      assert (Hne : Z.of_nat n <> zlen h) by (unfold zlen; lia).
      rewrite lookup_insert_ne by done. split; [done|]. split; [|done]. split; [|done..].
      unfold free_backup_version. rewrite En, lookup_insert_ne by done. exact V1.
    + apply list_lookup_singleton_Some in Hj' as [Hn <-]. assert (Z.of_nat n = zlen h) as -> by (unfold zlen; lia).
      exists segs. split; [apply lookup_insert_eq|exact Hv].
  - intros n sg. rewrite Elen, lookup_insert_Some. intros [[<- _]|[_ Esg]]; [lia|]. specialize (Honly n sg Esg). lia.
  - by exists st2.
  - intros Hdump. exists (ix_kv (f_index s)). split; [|by split]. unfold close_index. pose proof (co_length cfg CO) as Hlen. pose proof (co_key cfg CO). apply dump_roundtrip.
    + exact Hlen.
    + cbn. lia.
    + exact HKO.
    + by eapply index_entries.
    + unfold in_s. cbn. lia.
    + pose proof (dump_size (ix_kv (f_index s))). specialize (Hdump _ eq_refl). unfold close_index in Hdump. lia.
  - exact HV.
  - exact Hda.
  - exact Hun.
Qed.

Lemma job_keeps h d versions log path todo d' : disk_ok h d versions log -> dump_small d -> job_ok (path, todo) -> zlen h < 2 ^ 15 ->
  do_backup path todo d d' -> exists versions' log', disk_ok (h ++ [(path, todo)]) d' versions' log'.
Proof using All.
  intros Hd Hdump Hj Hh [ix w count b s d1 Est Hr Ht Hfl Hw Efin Eend].
  destruct (job_start h d versions log path todo Hd Hdump Hj Hh) as (ix0 & w0 & Est0 & Hst). rewrite Est in Est0. injection Est0 as -> -> ->.
  destruct (backup_ends cfg fcfg simulation_level wait_threshold (dk_versions d) CO content _ _ _ _ _ _ _ TEMPORARY_ID restore_cache_size b Hst Hr Ht Hfl Hw)
    as (f & st & segs & log' & Hdone).
  assert (Hp : bv_path (w_bv w0) = job_path (path, todo)).
  { destruct (st_version _ _ _ _ _ _ _ _ _ _ _ _ Hst) as (c & Ec). pose proof (zlen_nonneg h).
    destruct (create_fields (zlen h) path (w_bv w0) c) as [_ Etr]; [lia|exact Ec|]. unfold job_path. cbn [fst]. by rewrite Etr. }
  pose proof (bd_finish _ _ _ _ _ _ _ _ _ _ _ _ _ _ Hdone) as Ef. rewrite Efin in Ef. injection Ef as <-.
  destruct (job_end h d versions log path todo w0 b s st segs log' Hd Hj Hh Hp Hdone) as (d2 & E2 & Hok). rewrite Eend in E2. injection E2 as <-.
  do 2 eexists. exact Hok.
Qed.

(** ** The life of a node *)

(** The jobs that have been done, from an empty directory on. The numbers of
    versions have 15 bits in the ids of segments, and the index fits its dump. *)
Inductive history : list job -> disk -> Prop :=
| history_empty : history [] (mk_disk ∅ None None None)
| history_job h d path todo d' : history h d -> zlen h < 2 ^ 15 -> dump_small d -> job_ok (path, todo) -> do_backup path todo d d' ->
    history (h ++ [(path, todo)]) d'.

Lemma empty_disk_ok : disk_ok [] (mk_disk ∅ None None None) ∅ ∅.
Proof using HCO.
  split; try done.
  - exists (mk_cstore 0 empty_file []). split; [done|]. eapply (sys_reachable_inv simulation_level (mk_cstore 0 empty_file [])); [|apply rtc_refl].
    split; [|done]. unfold count_max. cbn. lia.
  - intros _. exists ∅. split; [done|]. split; [|by intros _ id con fp H]. exists ∅. split; [apply represents_empty|]. by split_and!.
  - intros _ _ id1 id2 fp (_ & c & _ & _ & [H|H]); done.
Qed.

Lemma history_ok h d : history h d -> exists versions log, disk_ok h d versions log.
Proof using All.
  induction 1 as [|h d path todo d' _ (versions & log & IH) Hh Hd Hj Hb]; [do 2 eexists; apply empty_disk_ok|]. by eapply job_keeps.
Qed.

(** The stores have room for the chunks of the job. *)
Definition job_fits (d : disk) (todo : list segment) : Prop :=
  cp_len * (zlen (normals (chunks_of todo)) + 2 * zlen todo) < 2 ^ 32 /\
  forall st, init_container_store (dk_pool d) = Ok st -> container_count st + zlen (chunks_of todo) < count_max.

(** The job at its end: the last steps of [do_backup] leave a disk. *)
Definition job_done (d : disk) (path : list Z) (todo : list segment) (count : Z) (b : backup) : Prop :=
  exists s d', filter_finish cfg (b_filter b) = Ok s /\ finish_backup d s count = Ok d' /\ do_backup path todo d d'.

(** The rewriting buffer, of [rewrite_algorithm_1] chunks, and the index buffer do not
    block each other. *)
Definition job_unblocked (rewrite_algorithm_1 : Z) (todo : list segment) : Prop :=
  rewrite_algorithm_0 fcfg = REWRITE_NO \/ wait_threshold <= 0 \/
  Forall (fun s => normal_count (seg_chunks s) + rewrite_algorithm_1 <= wait_threshold) todo.

Lemma job_completes rewrite_algorithm_1 h d path todo : history h d -> zlen h < 2 ^ 15 -> dump_small d -> job_ok (path, todo) -> job_fits d todo ->
  job_unblocked rewrite_algorithm_1 todo ->
  exists ix w count, start_backup d path = Ok (ix, w, count) /\
    completes cfg fcfg simulation_level wait_threshold (dk_versions d) rewrite_algorithm_1 (job_done d path todo count)
      (backup_init todo ix w TEMPORARY_ID restore_cache_size).
Proof using All.
  intros Hh Hlt Hdump Hj [Hfit1 Hfit2] Hu. destruct (history_ok h d Hh) as (versions & log & Hd).
  destruct (job_start h d versions log path todo Hd Hdump Hj Hlt) as (ix & w & Est & Hst).
  pose proof (start_binv cfg fcfg simulation_level (dk_versions d) content todo (zlen h) path versions log ix w TEMPORARY_ID restore_cache_size Hst) as Hb.
  assert (Hbv : bv_path (w_bv w) = job_path (path, todo) /\ fdata (recipe_fp (w_bv w)) = []).
  { destruct (st_version _ _ _ _ _ _ _ _ _ _ _ _ Hst) as (c & Ec). pose proof (zlen_nonneg h).
    destruct (create_fields (zlen h) path (w_bv w) c) as [Hw Etr]; [lia|exact Ec|]. unfold job_path. cbn [fst]. rewrite Etr. split; [done|apply Hw]. }
  destruct Hbv as [Hp Hrec].
  assert (Hst' : init_container_store (dk_pool d) = Ok (w_cs w)).
  { unfold start_backup in Est. apply bind_Ok in Est as (st & Es & Est). apply bind_Ok in Est as (ix0 & _ & Est). apply bind_Ok in Est as ([bv c] & _ & Est).
    injection Est as _ <- _. exact Es. }
  assert (Hfit : fits (backup_init todo ix w TEMPORARY_ID restore_cache_size)).
  { split; cbn [backup_init b_flight b_todo b_filter start_filter_phase f_world app]; [rewrite Hrec; cbn [zlen]; exact Hfit1|by apply Hfit2]. }
  exists ix, w, (zlen h + 1). split; [exact Est|].
  apply (backup_completes_all cfg fcfg simulation_level wait_threshold (dk_versions d) CO content rewrite_algorithm_1 _ _ _ _ _ _ _ _ _ Hb Hfit Hu eq_refl).
  intros b _ _ _ _ Hrun Hw0 H3. apply weight_zero in Hw0 as [H1 H2].
  destruct (backup_ends cfg fcfg simulation_level wait_threshold (dk_versions d) CO content _ _ _ _ _ _ _ TEMPORARY_ID restore_cache_size b Hst Hrun H1 H2 H3)
    as (s & st & segs & log' & Hdone).
  destruct (job_end h d versions log path todo w b s st segs log' Hd Hj Hlt Hp Hdone) as (d' & E & _).
  exists s, d'. split; [apply Hdone|]. split; [exact E|]. eapply do_backup_run; [exact Est|exact Hrun|done|done|exact H3|apply Hdone|exact E].
Qed.

Lemma job_runs h d path todo : history h d -> zlen h < 2 ^ 15 -> dump_small d -> job_ok (path, todo) -> job_fits d todo ->
  rewrite_algorithm_0 fcfg = REWRITE_NO \/ wait_threshold <= 0 -> exists d', do_backup path todo d d'.
Proof using All.
  intros Hh Hlt Hdump Hj Hfit Hu. destruct (job_completes 0 h d path todo Hh Hlt Hdump Hj Hfit) as (ix & w & count & _ & Hc); [unfold job_unblocked; tauto|].
  apply completes_run in Hc as (b & _ & _ & s & d' & _ & _ & H). by exists d'.
Qed.

(** C3: A backup job comes to its end. From whatever earlier jobs left, for every
    stream that fits, the job starts, and however its threads run and whatever the
    rewriting marks, the dedup or the filter thread can go on until all
    segments are filtered; then the job closes its stores, and the disk it leaves is
    one of [do_backup]. The two buffers must not block each other: there is no
    rewriting, or the dedup thread has no threshold to wait at, or the threshold
    leaves room for a segment and a full rewriting buffer. *)
Theorem backup_job_ends rewrite_algorithm_1 h d path todo : history h d -> zlen h < 2 ^ 15 -> dump_small d -> job_ok (path, todo) -> job_fits d todo ->
  job_unblocked rewrite_algorithm_1 todo ->
  exists ix w count, start_backup d path = Ok (ix, w, count) /\
    completes cfg fcfg simulation_level wait_threshold (dk_versions d) rewrite_algorithm_1 (job_done d path todo count)
      (backup_init todo ix w TEMPORARY_ID restore_cache_size).
Proof using All. apply job_completes. Qed.

Lemma keys_blocks cps cs : map ptr_key cps = map chunk_key cs -> Forall (fun c => chunk_bytes c (ck_size c) = Ok (content (ck_fp c))) cs ->
  Forall2 (fun c bs => chunk_bytes c (ck_size c) = Ok bs) cs (blocks_of content cps).
Proof using.
  revert cs. induction cps as [|cp cps IH]; intros [|c cs] Hk Hc; try done. injection Hk as E1 E2 Hk. apply Forall_cons in Hc as [Hc Hcs].
  cbn [blocks_of map]. constructor; [by rewrite E1|by apply IH].
Qed.
End Job.

Section Restores.
Context `{HC : !HashIter fingerprint metaEntry} `{HF : !HashIter (list Z) ()} `{HS : !HashIter Z (gset (list Z))} `{HK : !HashIter (list Z) (list Z)}.
Context `{SF : !SeqSort fingerprint} `{SA : !SeqSort (fingerprint * fingerprint)} `{SS : !SeqSort (Z * gset (list Z))} `{SR : !SeqSort accessRecords}.
Context `{HCO : !HashIterOk fingerprint metaEntry} `{HFO : !HashIterOk (list Z) ()} `{HSO : !HashIterOk Z (gset (list Z))} `{HKO : !HashIterOk (list Z) (list Z)}.
Context `{SFO : !SeqSortOk fingerprint} `{SAO : !SeqSortOk (fingerprint * fingerprint)} `{SSO : !SeqSortOk (Z * gset (list Z))}.
Context `{SRO : !SeqSortOk accessRecords}.
Context (cfg : index_config) (fcfg : filter_config) (wait_threshold restore_cache_size : Z).
Context (CO : config_ok cfg) (Hvl : value_length cfg < 2 ^ 31) (content : fingerprint -> list Z).

(** A version of one file is sent to the client, whatever the cache. *)
Lemma disk_restores h d versions log n j kind size W stack name : disk_ok cfg fcfg SIMULATION_NO content h d versions log ->
  h !! n = Some j -> length (job_files j) = 1%nat ->
  kind ∈ [RESTORE_CACHE_LRU; RESTORE_CACHE_OPT; RESTORE_CACHE_ASM] -> size <> 0 -> 0 < W < 2 ^ 30 -> zlen name <= 58 ->
  exists st blocks, init_container_store (dk_pool d) = Ok st /\
    Forall2 (fun c bs => chunk_bytes c (ck_size c) = Ok bs) (normals (chunks_of j.2)) blocks /\
    forall fuel, (restore_fuel (dk_versions d) (Z.of_nat n) <= fuel)%nat -> exists stat,
      do_restore fuel SIMULATION_NO kind size W stack (dk_versions d) st (Z.of_nat n) name = Ok (packets name 0 (blocks ++ [[]]), stat).
Proof using All.
  intros Hd Hj Hone Hkind Hsize HW Hname.
  destruct (dk_store _ _ _ _ _ _ _ _ Hd) as (st & Est & Hs). destruct (dk_version _ _ _ _ _ _ _ _ Hd n j Hj) as (segs & Esegs & [Hv Hk]).
  assert (Hb : Container.container_buffer st = []).
  { unfold init_container_store in Est. destruct (dk_pool d); [apply bind_Ok in Est as ([??] & _ & Est)|]; by injection Est as <-. }
  pose proof (pointers_restorable SIMULATION_NO content versions log st (Z.of_nat n) segs Hs (dk_ptrs _ _ _ _ _ _ _ _ Hd) (dk_data _ _ _ _ _ _ _ _ Hd) Hb ltac:(done) Esegs) as Hres.
  destruct (job_files j) as [|r [|]] eqn:Ef; try done.
  exists st, (blocks_of content (concat segs)). split; [exact Est|]. split.
  - apply keys_blocks; [exact Hk|]. pose proof (dk_jobs _ _ _ _ _ _ _ _ Hd) as Hjobs. rewrite Forall_forall in Hjobs.
    apply input_bytes with (simulation_level := SIMULATION_NO); [done|]. apply (Hjobs j). by eapply list_elem_of_lookup_2.
  - intros fuel Hfuel. pose proof (restore_fuel_enough _ _ _ _ _ Hv ltac:(done)) as Henough.
    apply (do_restore_ok fuel kind size W stack content (dk_versions d) st (Z.of_nat n) (job_path j) [r] segs Hkind Hsize HW Hv Hres ltac:(lia) name r Hname eq_refl).
Qed.

Lemma version_restores h d n j kind size W stack name : history cfg fcfg SIMULATION_NO wait_threshold restore_cache_size content h d ->
  h !! n = Some j -> length (job_files j) = 1%nat ->
  kind ∈ [RESTORE_CACHE_LRU; RESTORE_CACHE_OPT; RESTORE_CACHE_ASM] -> size <> 0 -> 0 < W < 2 ^ 30 -> zlen name <= 58 ->
  exists st blocks, init_container_store (dk_pool d) = Ok st /\
    Forall2 (fun c bs => chunk_bytes c (ck_size c) = Ok bs) (normals (chunks_of j.2)) blocks /\
    forall fuel, (restore_fuel (dk_versions d) (Z.of_nat n) <= fuel)%nat -> exists stat,
      do_restore fuel SIMULATION_NO kind size W stack (dk_versions d) st (Z.of_nat n) name = Ok (packets name 0 (blocks ++ [[]]), stat).
Proof using All.
  intros Hh. destruct (history_ok cfg fcfg SIMULATION_NO wait_threshold restore_cache_size CO Hvl content h d Hh) as (versions & log & Hd). by eapply disk_restores.
Qed.

(** C2: What was backed up is restored. After any number of backup jobs, each a
    process of its own with its threads in any interleaving, the restore of any
    of the versions with one file, through any of the caches, sends exactly the
    bytes of the chunks of that job, in order, and the end mark. *)
Theorem every_version_restores h d n j kind size W stack name : history cfg fcfg SIMULATION_NO wait_threshold restore_cache_size content h d ->
  h !! n = Some j -> length (job_files j) = 1%nat ->
  kind ∈ [RESTORE_CACHE_LRU; RESTORE_CACHE_OPT; RESTORE_CACHE_ASM] -> size <> 0 -> 0 < W < 2 ^ 30 -> zlen name <= 58 ->
  exists st blocks fuel0, init_container_store (dk_pool d) = Ok st /\
    Forall2 (fun c bs => chunk_bytes c (ck_size c) = Ok bs) (normals (chunks_of j.2)) blocks /\
    forall fuel, (fuel0 <= fuel)%nat -> exists stat,
      do_restore fuel SIMULATION_NO kind size W stack (dk_versions d) st (Z.of_nat n) name = Ok (packets name 0 (blocks ++ [[]]), stat).
Proof using All.
  intros Hh Hj Hone Hkind Hsize HW Hname.
  destruct (version_restores h d n j kind size W stack name Hh Hj Hone Hkind Hsize HW Hname) as (st & blocks & H). by exists st, blocks, (restore_fuel (dk_versions d) (Z.of_nat n)).
Qed.
End Restores.

(** ** Witnesses *)

Section Demo.
#[local] Existing Instance std_hash_iter.
#[local] Existing Instance std_hash_iter_ok.
#[local] Existing Instance std_seq_sort.
#[local] Existing Instance std_seq_sort_ok.

Definition demo_job : job := ([97; slash], [demo_segment]).

Lemma demo_job_ok : job_ok 0 demo_content demo_job.
Proof.
  split; [done|split; [by repeat constructor|done]|by apply Forall_singleton; apply demo_todo|done|by vm_compute].
Qed.

Lemma demo_job_fits : job_fits (mk_disk ∅ None None None) [demo_segment].
Proof. split; [by vm_compute|]. by intros st [= <-]. Qed.

Lemma demo_small_disk : dump_small (mk_disk ∅ None None None).
Proof. by intros data [=]. Qed.

(** A rewriting buffer of three chunks and a threshold of five. *)
Lemma backup_job_ends_witness : exists ix w count, start_backup demo_index_config (mk_disk ∅ None None None) [97; slash] = Ok (ix, w, count) /\
  completes demo_index_config demo_capping_config 0 5 ∅ 3 (job_done demo_index_config demo_capping_config 0 5 1 (mk_disk ∅ None None None) [97; slash] [demo_segment] count)
    (backup_init [demo_segment] ix w TEMPORARY_ID 1).
Proof.
  apply (backup_job_ends demo_index_config demo_capping_config 0 5 1 demo_config_ok eq_refl demo_content 3 [] (mk_disk ∅ None None None) [97; slash] [demo_segment]
    (history_empty _ _ _ _ _ _) eq_refl demo_small_disk demo_job_ok demo_job_fits).
  right; right. by apply Forall_singleton.
Defined.

(** A node that has done one job. *)
Lemma demo_history : exists d, history demo_index_config demo_filter_config 0 0 1 demo_content [demo_job] d.
Proof.
  pose proof demo_small_disk as Hsmall.
  destruct (job_runs demo_index_config demo_filter_config 0 0 1 demo_config_ok eq_refl demo_content [] (mk_disk ∅ None None None) [97; slash] [demo_segment]
    (history_empty _ _ _ _ _ _) eq_refl Hsmall demo_job_ok demo_job_fits (or_introl eq_refl)) as (d' & Hb).
  exists d'. exact (history_job _ _ _ _ _ _ [] _ _ _ d' (history_empty _ _ _ _ _ _) eq_refl Hsmall demo_job_ok Hb).
Qed.

Lemma every_version_restores_witness : exists d st blocks fuel stat,
  do_restore fuel 0 RESTORE_CACHE_LRU 4 100 (fun _ => []) (dk_versions d) st 0 [97] = Ok (packets [97] 0 (blocks ++ [[]]), stat) /\ length blocks = 2%nat.
Proof.
  destruct demo_history as (d & Hh). exists d.
  destruct (every_version_restores demo_index_config demo_filter_config 0 1 demo_config_ok eq_refl demo_content [demo_job] d 0 demo_job RESTORE_CACHE_LRU 4 100 (fun _ => []) [97]
    Hh eq_refl eq_refl ltac:(decide_it) ltac:(done) ltac:(done) ltac:(done)) as (st & blocks & fuel & _ & Hb & H).
  destruct (H fuel ltac:(reflexivity)) as (stat & E). exists st, blocks, fuel, stat. split; [exact E|]. by apply Forall2_length in Hb.
Defined.
End Demo.
