(* ===== verification/Har.v ===== *)
(** The history of containers: [destor/src/har_rewrite.c] (history-aware
    rewriting) and [destor/src/cma.c] (the container-marker algorithm).

    At its end a backup writes the containers it used little to the file
    [bv<n>.sparse], which the next backup reads, and stamps every container it
    used with its number in the file [manifest], from which a deletion learns the
    containers no younger backup uses. The files are text, in a table by name.
    The table [container_utilization_monitor] maps an id to the bytes used. *)

From Stdlib Require Import SpecFloat.
From S2P Require Import Prelude Glib CFile CText Destor Double Container.

(** [struct containerRecord] of [rewrite_phase.h]. *)
Record containerRecord := mk_record { cr_cid : Z; cr_size : Z; out_of_order : Z }.

#[export] Instance containerRecord_eq_dec : EqDecision containerRecord.
Proof. solve_decision. Defined.

(** The counters of [jcr]. *)
Record har_stat := mk_hstat { total_container_num : Z; sparse_container_num : Z; inherited_sparse_num : Z }.

Abbreviation text_files := (gmap (list Z) (list Z)).

(** ** The sparse containers of a backup *)

Definition sparse_name (working_directory : list Z) (id : Z) : list Z :=
  working_directory ++ lit "recipes/bv" ++ print_int id ++ lit ".sparse".

(** [sscanf(buf, "%lld %d", &record->cid, &record->size)] into a fresh record,
    whose [cid] is then read. *)
Definition scan_record (s : list Z) : res containerRecord :=
  match scan_num 64 s with
  | None => Err EBounds
  | Some (cid, s) => Ok (mk_record cid (match scan_num 32 s with Some (size, _) => size | None => undef end) undef)
  end.

(** The key of a record lies in it: [g_hash_table_insert] for an id of the table
    would free the record that holds the key the table keeps. *)
Fixpoint read_sparse (fuel : nat) (buf : list Z) (fp : file) (t : gmap Z containerRecord) : res (gmap Z containerRecord) :=
  match fuel with
  | O => Err EFuel
  | S fuel =>
      if bool_decide (zdrop (fpos fp) (fdata fp) = []) then Ok t else
      '(buf, fp) ← fgets buf 128 fp;
      line ← cstr buf 0;
      r ← scan_record line;
      match t !! cr_cid r with
      | Some _ => Err EBounds
      | None => read_sparse fuel buf fp (<[cr_cid r := r]> t)
      end
  end.

(** [inherited_sparse_containers], for backup [id]. *)
Definition init_har (working_directory : list Z) (files : text_files) (id : Z) : res (gmap Z containerRecord) :=
  if 0 <? id then
    match files !! sparse_name working_directory (id - 1) with
    | Some text => read_sparse (S (List.length text)) (fresh_bytes 128) (mk_file text 0) ∅
    | None => Ok ∅
    end
  else Ok ∅.

Definition har_check (inherited_sparse_containers : gmap Z containerRecord) (c : chunk) : chunk :=
  if negb (CHECK_CHUNK c CHUNK_FILE_START) && negb (CHECK_CHUNK c CHUNK_FILE_END) && CHECK_CHUNK c CHUNK_DUPLICATE then
    match inherited_sparse_containers !! ck_id c with
    | Some _ => SET_CHUNK c CHUNK_SPARSE
    | None => c
    end
  else c.

(** What the filter phase recorded of a container, as the record of the table. *)
Definition monitor_record (kv : Z * Z) : containerRecord := mk_record kv.1 kv.2 undef.

Definition g_record_cmp (a b : containerRecord) : Z := s32 (cr_size a - cr_size b).

Section Har.
Context `{HM : !HashIter Z Z} `{SR : !SeqSort containerRecord}.
Context (rewrite_har_utilization_threshold rewrite_har_rewrite_limit : double).

Definition is_sparse (size : Z) : bool :=
  d_lt (d_div (d_mul (d_of_Z 1) (d_of_Z size)) (d_of_Z (CONTAINER_SIZE - CONTAINER_META_SIZE))) rewrite_har_utilization_threshold.

(** A round of the loop over the monitor: the sequence, the two sums and the counters. *)
Definition collect_sparse (inherited_sparse_containers : gmap Z containerRecord)
    (t : list containerRecord * Z * Z * har_stat) (cr : containerRecord) : list containerRecord * Z * Z * har_stat :=
  let '(seq, total_size, sparse_size, st) := t in
  let total_size := s64 (total_size + cr_size cr) in
  if is_sparse (cr_size cr) then
    let inherited := match inherited_sparse_containers !! cr_cid cr with Some _ => true | None => false end in
    (insert_sorted g_record_cmp cr seq, total_size, s64 (sparse_size + cr_size cr),
     mk_hstat (total_container_num st) (s32 (sparse_container_num st + 1)) (s32 (inherited_sparse_num st + (if inherited then 1 else 0))))
  else (seq, total_size, sparse_size, st).

(** The expected rewrite ratio exceeds the limit. *)
Definition over_limit (sparse_size total_size : Z) : bool :=
  d_lt rewrite_har_rewrite_limit (d_of_Z 1) &&
  d_gt (d_div (d_mul (d_of_Z sparse_size) (d_of_Z 1)) (d_of_Z total_size)) rewrite_har_rewrite_limit.

(** The loop that trims the last records of the sequence; the iterator before the
    end of an empty sequence has no record. *)
Fixpoint trim_sparse (fuel : nat) (seq : list containerRecord) (sparse_size total_size : Z) : res (list containerRecord) :=
  match fuel with
  | O => Err EFuel
  | S fuel =>
      if over_limit sparse_size total_size then
        r ← deref (last seq);
        trim_sparse fuel (take (List.length seq - 1) seq) (s64 (sparse_size - cr_size r)) total_size
      else Ok seq
  end.

(** [fprintf(fp, "%lld %d\n", r->cid, r->size)] *)
Definition sparse_line (r : containerRecord) : list Z := print_int (cr_cid r) ++ [32] ++ print_int (cr_size r) ++ [10].

(** ** The manifest *)

Definition manifest_name (working_directory : list Z) : list Z := working_directory ++ lit "/manifest".

(** [fscanf(fp, "%lld,%d", &tmp.id, &tmp.time) == 2] *)
Definition scan_manifest (s : list Z) : option (Z * Z * list Z) :=
  match scan_num 64 s with
  | Some (id, 44 :: s) => match scan_num 32 s with Some (time, s) => Some (id, time, s) | None => None end
  | _ => None
  end.

(** The records of the text, in order. *)
Fixpoint read_records (fuel : nat) (s : list Z) : res (list (Z * Z)) :=
  match fuel with
  | O => Err EFuel
  | S fuel =>
      match scan_manifest s with
      | Some (id, time, s) => rs ← read_records fuel s; Ok ((id, time) :: rs)
      | None => Ok []
      end
  end.

Definition manifest_line (r : Z * Z) : list Z := print_int r.1 ++ [44] ++ print_int r.2 ++ [10].
Definition manifest_text (m : gmap Z Z) : list Z := concat (map manifest_line (hash_iter m)).

(** [g_hash_table_insert(manifest, &rec->id, rec)], of a record just allocated. The
    key lies in the value: for an id of the table it would free the value with the
    key it keeps. *)
Definition insert_record (manifest : gmap Z Z) (r : Z * Z) : res (gmap Z Z) :=
  match manifest !! r.1 with
  | Some _ => Err EBounds
  | None => Ok (<[r.1 := r.2]> manifest)
  end.

(** The files and [destor.live_container_num]. *)
Definition update_manifest (working_directory : list Z) (id : Z) (files : text_files) (monitor : gmap Z Z) : res (text_files * Z) :=
  manifest ← match files !! manifest_name working_directory with
    | Some text =>
        rs ← read_records (S (List.length text)) text;
        foldM insert_record ∅ rs
    | None => Ok ∅
    end;
  let manifest := fold_left (fun (m : gmap Z Z) kv => <[kv.1 := id]> m) (hash_iter monitor) manifest in
  Ok (<[manifest_name working_directory := manifest_text manifest]> files, zlen (hash_iter manifest)).

(** What is done with a record: it is reclaimed or remains valid. *)
Definition trunc_round (jobid : Z) : gset Z * gmap Z Z -> Z * Z -> res (gset Z * gmap Z Z) :=
  fun '(inv, m) r => if r.2 <=? jobid then Ok ({[r.1]} ∪ inv, m) else (m ← insert_record m r; Ok (inv, m)).

(** The containers to reclaim, the files and [destor.live_container_num]. *)
Definition trunc_manifest (working_directory : list Z) (jobid : Z) (files : text_files) : res (gset Z * text_files * Z) :=
  match files !! manifest_name working_directory with
  | None => Err (EExit 1)
  | Some text =>
      rs ← read_records (S (List.length text)) text;
      '(invalid_containers, manifest) ← foldM (trunc_round jobid) (∅, ∅) rs;
      Ok (invalid_containers, <[manifest_name working_directory := manifest_text manifest]> files, zlen (hash_iter manifest))
  end.

(** [close_har] of backup [id]: the files, the counters and [destor.live_container_num]. *)
Definition close_har (working_directory : list Z) (id : Z) (inherited_sparse_containers : gmap Z containerRecord)
    (container_utilization_monitor : gmap Z Z) (st : har_stat) (files : text_files) : res (text_files * har_stat * Z) :=
  let records := map monitor_record (hash_iter container_utilization_monitor) in
  let st := mk_hstat (zlen records) (sparse_container_num st) (inherited_sparse_num st) in
  let '(seq, total_size, sparse_size, st) := fold_left (collect_sparse inherited_sparse_containers) records ([], 0, 0, st) in
  seq ← trim_sparse (S (List.length seq)) seq sparse_size total_size;
  let files := <[sparse_name working_directory id := concat (map sparse_line seq)]> files in
  '(files, live) ← update_manifest working_directory id files container_utilization_monitor;
  Ok (files, st, live).
End Har.

(** ** The files are read back *)

Definition record_ok (r : containerRecord) : Prop := 0 <= cr_cid r < 2 ^ 63 /\ 0 <= cr_size r < 2 ^ 31.
Definition stamp_ok (r : Z * Z) : Prop := 0 <= r.1 < 2 ^ 63 /\ 0 <= r.2 < 2 ^ 31.

Lemma print_int_plain n : 0 <= n < 2 ^ 63 ->
  Forall (fun c => is_digit c = true) (print_int n) /\ zlen (print_int n) <= 20 /\ print_int n <> [].
Proof. intros Hn. destruct (print_int_nonneg n Hn) as (c & s & -> & ? & ? & _). by split_and!. Qed.

Lemma sparse_line_scan r : record_ok r -> exists body, sparse_line r = body ++ [10] /\
  Forall (fun c => c <> 10) body /\ Forall (fun c => c <> 0) body /\ zlen body <= 41 /\ body <> [] /\
  scan_record (body ++ [10]) = Ok (mk_record (cr_cid r) (cr_size r) undef).
Proof.
  intros [Hc Hs]. destruct (print_int_plain (cr_cid r)) as (D1 & L1 & N1); [lia|]. destruct (print_int_plain (cr_size r)) as (D2 & L2 & _); [lia|].
  exists (print_int (cr_cid r) ++ [32] ++ print_int (cr_size r)).
  assert (Hd : forall P : Z -> Prop, P 32 -> (forall c, is_digit c = true -> P c) -> Forall P (print_int (cr_cid r) ++ [32] ++ print_int (cr_size r))).
  { intros P Hp Hq. rewrite !Forall_app, Forall_singleton. split_and!; [|done|]; eapply Forall_impl; eauto. }
  split; [unfold sparse_line; by rewrite <- !app_assoc|]. split; [apply Hd; [done|]; by intros c Hx ->|]. split; [apply Hd; [done|]; by intros c Hx ->|].
  split; [rewrite !zlen_app; change (zlen [32]) with 1; lia|]. split; [by destruct (print_int _)|].
  unfold scan_record. rewrite <- !app_assoc. cbn [app]. rewrite scan_num_print by (done || lia).
  rewrite scan_num_space by done. rewrite scan_num_print by (done || lia). done.
Qed.

Definition reread (r : containerRecord) : containerRecord := mk_record (cr_cid r) (cr_size r) undef.

Lemma read_sparse_ok rs : forall fuel buf fp t, Forall record_ok rs -> zlen buf = 128 ->
  at_text fp (concat (map sparse_line rs)) -> (List.length rs < fuel)%nat ->
  NoDup (map cr_cid rs) -> (forall r, r ∈ rs -> t !! cr_cid r = None) ->
  read_sparse fuel buf fp t = Ok (fold_left (fun t r => <[cr_cid r := reread r]> t) rs t).
Proof.
  induction rs as [|r rs IH]; intros fuel buf fp t Hr Hb Hat Hf Hnd Ht; destruct fuel as [|fuel]; try (cbn in Hf; lia); cbn [read_sparse].
  - destruct Hat as [_ ->]. by rewrite bool_decide_true.
  - apply Forall_cons in Hr as [Hr Hrs]. destruct (sparse_line_scan r Hr) as (body & El & H10 & H0 & Hlen & Hne & Hscan).
    cbn [map concat] in Hat. rewrite El, <- app_assoc in Hat.
    rewrite bool_decide_false by (destruct Hat as [_ ->]; by destruct body).
    destruct (fgets_ok buf 128 fp body [10] _ Hat) as (fp' & -> & Hat'); [by left|done|lia|lia|]. step.
    rewrite cstr_line by (try done; by left). step. rewrite Hscan. step. apply NoDup_cons in Hnd as [Hnin Hnd].
    cbn [cr_cid fold_left]. rewrite Ht by left. apply IH; [done| |done|cbn in Hf; lia|done|].
    2: { intros r' Hr'. rewrite lookup_insert_ne; [apply Ht; by right|]. intros E. apply Hnin. rewrite E. by apply list_elem_of_fmap_2. }
    assert (zlen (body ++ [10]) = zlen body + 1) by (rewrite zlen_app; change (zlen [10]) with 1; lia). pose proof (zlen_nonneg body).
    rewrite app_assoc, zlen_app, zlen_cons, zlen_zdrop by lia. lia.
Qed.

Lemma lines_len {A} (f : A -> list Z) l : Forall (fun x => f x <> []) l -> (List.length l <= List.length (concat (map f l)))%nat.
Proof.
  induction 1 as [|x l Hx _ IH]; [done|]. cbn [map concat List.length]. rewrite length_app. destruct (f x); [done|]. cbn. lia.
Qed.

Lemma init_har_reads wd files id rs : 0 < id -> Forall record_ok rs -> NoDup (map cr_cid rs) ->
  files !! sparse_name wd (id - 1) = Some (concat (map sparse_line rs)) ->
  init_har wd files id = Ok (fold_left (fun t r => <[cr_cid r := reread r]> t) rs ∅).
Proof.
  intros Hid Hr Hnd Hf. unfold init_har. rewrite (proj2 (Z.ltb_lt 0 id)), Hf by done.
  apply read_sparse_ok; [done|done|apply at_text_start| |done|by intros; rewrite lookup_empty].
  enough (List.length rs <= List.length (concat (map sparse_line rs)))%nat by lia. apply lines_len. eapply Forall_impl; [exact Hr|].
  intros r Hro. destruct (sparse_line_scan r Hro) as (body & -> & _). by destruct body.
Qed.

Lemma fold_insert_dom (rs : list containerRecord) : forall (t : gmap Z containerRecord) id,
  is_Some (fold_left (fun t r => <[cr_cid r := reread r]> t) rs t !! id) <-> is_Some (t !! id) \/ id ∈ map cr_cid rs.
Proof.
  induction rs as [|r rs IH]; intros t id; cbn [fold_left map].
  - rewrite elem_of_nil. tauto.
  - rewrite IH, elem_of_cons. destruct (decide (cr_cid r = id)) as [->|Hne].
    + rewrite lookup_insert_eq. naive_solver.
    + rewrite lookup_insert_ne by done. naive_solver.
Qed.

Lemma manifest_line_scan r rest : stamp_ok r -> scan_manifest (manifest_line r ++ rest) = Some (r.1, r.2, 10 :: rest).
Proof.
  intros [H1 H2]. unfold scan_manifest, manifest_line. rewrite <- !app_assoc. cbn [app].
  rewrite scan_num_print by (done || lia). rewrite scan_num_print by (done || lia). done.
Qed.

Lemma scan_manifest_nl s : scan_manifest (10 :: s) = scan_manifest s.
Proof. unfold scan_manifest. by rewrite scan_num_space. Qed.

Lemma read_records_text rs : forall fuel, Forall stamp_ok rs -> (List.length rs < fuel)%nat ->
  read_records fuel (concat (map manifest_line rs)) = Ok rs /\ read_records fuel (10 :: concat (map manifest_line rs)) = Ok rs.
Proof.
  induction rs as [|[id time] rs IH]; intros fuel Hr Hf; destruct fuel as [|fuel]; try (cbn in Hf; lia); cbn [read_records]; rewrite scan_manifest_nl.
  - split; reflexivity.
  - apply Forall_cons in Hr as [Hr Hrs]. cbn [map concat]. rewrite manifest_line_scan by done. cbn in Hf.
    destruct (IH fuel Hrs ltac:(lia)) as [_ ->]. by split.
Qed.

(** ** Trimming terminates *)

Definition sizes (rs : list containerRecord) : Z := foldr (fun r n => cr_size r + n) 0 rs.

Lemma sizes_cons r rs : sizes (r :: rs) = cr_size r + sizes rs.
Proof. done. Qed.

Lemma sizes_app rs1 rs2 : sizes (rs1 ++ rs2) = sizes rs1 + sizes rs2.
Proof. induction rs1 as [|r rs1 IH]; [done|]. cbn [app]. rewrite !sizes_cons, IH. lia. Qed.

Lemma sizes_nonneg rs : Forall record_ok rs -> 0 <= sizes rs.
Proof. induction 1 as [|r rs [_ Hs] _ IH]; [done|]. rewrite sizes_cons. lia. Qed.

Lemma sizes_perm rs1 rs2 : rs1 ≡ₚ rs2 -> sizes rs1 = sizes rs2.
Proof. induction 1; rewrite ?sizes_cons; lia. Qed.

Lemma over_limit_zero limit total : d_lt limit (d_of_Z 0) = false -> over_limit limit 0 total = false.
Proof.
  intros Hl. unfold over_limit. apply andb_false_intro2. change (d_mul (d_of_Z 0) (d_of_Z 1)) with (S754_zero false).
  change (d_of_Z 0) with (S754_zero false) in Hl. unfold d_gt, d_lt, d_div in *.
  by destruct (d_of_Z total) as [[]|[]| |[] m e]; destruct limit as [[]|[]| |[] m' e'].
Qed.

(** The result is a prefix that respects the limit, and the longest one. *)
Lemma trim_sparse_ok limit total : d_lt limit (d_of_Z 0) = false -> forall fuel seq,
  Forall record_ok seq -> sizes seq < 2 ^ 63 -> (List.length seq < fuel)%nat ->
  exists kept trimmed, trim_sparse limit fuel seq (sizes seq) total = Ok kept /\ seq = kept ++ trimmed /\
    over_limit limit (sizes kept) total = false /\
    (forall t1 t2, trimmed = t1 ++ t2 -> t1 <> [] -> over_limit limit (sizes (kept ++ t1)) total = true).
Proof.
  intros Hl fuel. induction fuel as [|fuel IH]; intros seq Hr Hs Hf; [lia|]. cbn [trim_sparse].
  destruct (over_limit limit (sizes seq) total) eqn:E.
  - destruct seq as [|r seq _] using rev_ind; [by rewrite over_limit_zero in E|].
    rewrite last_snoc, length_app. cbn [deref List.length]. step. apply Forall_app in Hr as [Hr [Hr1 _]%Forall_cons].
    rewrite take_app_le, take_ge by lia. pose proof (sizes_nonneg seq Hr). destruct Hr1 as [_ Hr1].
    assert (Es : sizes (seq ++ [r]) = sizes seq + cr_size r) by (rewrite sizes_app, sizes_cons; change (sizes []) with 0; lia).
    rewrite Es in *. replace (sizes seq + cr_size r - cr_size r) with (sizes seq) by lia.
    rewrite s64_id by lia. rewrite length_app in Hf. cbn in Hf.
    destruct (IH seq Hr ltac:(lia) ltac:(lia)) as (kept & trimmed & -> & Eseq & Hk & Ht).
    exists kept, (trimmed ++ [r]). rewrite Eseq at 1. rewrite <- app_assoc. split_and!; [done|done|done|].
    intros t1 t2 Et Hne. destruct t2 as [|r2 t2 _] using rev_ind.
    + rewrite app_nil_r in Et. rewrite <- Et, app_assoc, <- Eseq, Es. done.
    + rewrite app_assoc in Et. apply app_inj_tail in Et as [-> ->]. by eapply Ht.
  - exists seq, []. rewrite app_nil_r. split_and!; [done|done|done|]. intros [|??] ? Ht ?; [done|]. discriminate Ht.
Qed.

(** The records the loop over the monitor collects. *)
Lemma collect_sparse_ok `{SO : SeqSortOk containerRecord} threshold inherited records :
  forall seq total sparse st, Forall record_ok records -> Forall record_ok seq ->
  StronglySorted (cmp_le g_record_cmp) seq -> 0 <= total -> total + sizes records < 2 ^ 63 -> sizes seq <= total ->
  sparse = sizes seq ->
  exists seq' total' st', fold_left (collect_sparse threshold inherited) records (seq, total, sparse, st) = (seq', total', sizes seq', st') /\
    seq' ≡ₚ filter (fun r => is_sparse threshold (cr_size r) = true) records ++ seq /\
    StronglySorted (cmp_le g_record_cmp) seq' /\ total' = total + sizes records.
Proof.
  induction records as [|r rs IH]; intros seq total sparse st Hr Hseq Hsort Ht Hlt Hle ->.
  - exists seq, total, st. cbn [fold_left]. change (sizes []) with 0. split_and!; [done|done|done|lia].
  - assert (Hok : Forall record_ok (r :: rs)) by done. apply Forall_cons in Hr as [Hr Hrs]. rewrite sizes_cons in Hlt.
    pose proof (sizes_nonneg rs Hrs). pose proof (sizes_nonneg seq Hseq). destruct Hr as [Hc Hs] eqn:Ehr. clear Ehr.
    assert (Hord : cmp_ok record_ok g_record_cmp).
    { split; unfold g_record_cmp.
      - intros x y [_ ?] [_ ?]. rewrite !s32_id by lia. lia.
      - intros x y z [_ ?] [_ ?] [_ ?]. rewrite !s32_id by lia. lia. }
    cbn [fold_left collect_sparse]. rewrite (s64_id (total + cr_size r)) by lia.
    rewrite filter_cons. destruct (is_sparse threshold (cr_size r)) eqn:Esp.
    + rewrite decide_True by done. rewrite (s64_id (sizes seq + cr_size r)) by lia.
      pose proof (insert_sorted_perm g_record_cmp r seq) as Hp.
      assert (Es : sizes (insert_sorted g_record_cmp r seq) = sizes seq + cr_size r) by (rewrite (sizes_perm _ _ Hp), sizes_cons; lia).
      edestruct (IH (insert_sorted g_record_cmp r seq) (total + cr_size r) (sizes seq + cr_size r)) as (seq' & total' & st' & E & Hp' & Hs' & Et).
      * done.
      * rewrite Hp. by constructor.
      * by eapply insert_sorted_sorted.
      * lia.
      * lia.
      * lia.
      * done.
      * rewrite E. exists seq', total', st'. split_and!; [done| |done|rewrite sizes_cons; lia].
        rewrite Hp', Hp. cbn [app]. by rewrite Permutation_middle.
    + rewrite decide_False by done.
      edestruct (IH seq (total + cr_size r) (sizes seq) st) as (seq' & total' & st' & E & Hp' & Hs' & Et); [done|done|done|lia|lia|lia|done|].
      rewrite E. exists seq', total', st'. split_and!; [done|done|done|rewrite sizes_cons; lia].
Qed.

(** ** The manifest is read *)

Section Manifest.
Context `{HM : !HashIter Z Z}.

(** The manifest file holds the table [m]; an empty one may be missing. *)
Definition manifest_is (wd : list Z) (files : text_files) (m : gmap Z Z) : Prop :=
  files !! manifest_name wd = Some (manifest_text m) \/ (files !! manifest_name wd = None /\ m = ∅).

Context `{HO : !HashIterOk Z Z}.

Definition stamps_ok (m : gmap Z Z) : Prop := map_Forall (fun id time => stamp_ok (id, time)) m.

Lemma stamps_ok_list m : stamps_ok m -> Forall stamp_ok (hash_iter m).
Proof. intros Hm. apply Forall_forall. intros [id time] Hin. apply hash_iter_elem in Hin. by apply Hm. Qed.

Lemma manifest_line_ne r : manifest_line r <> [].
Proof. unfold manifest_line. by destruct (print_int _). Qed.

Lemma read_manifest_text m : stamps_ok m ->
  read_records (S (List.length (manifest_text m))) (manifest_text m) = Ok (hash_iter m).
Proof.
  intros Hm. apply read_records_text; [by apply stamps_ok_list|]. unfold manifest_text.
  enough (List.length (hash_iter m) <= List.length (concat (map manifest_line (hash_iter m))))%nat by lia.
  apply lines_len. apply Forall_true. apply manifest_line_ne.
Qed.

(** The containers of [monitor] are stamped with [id]. *)
Definition stamped (id : Z) (monitor m : gmap Z Z) : gmap Z Z := ((fun _ => id) <$> monitor) ∪ m.

Lemma fold_stamp id l : forall m : gmap Z Z,
  fold_left (fun (m : gmap Z Z) (kv : Z * Z) => <[kv.1 := id]> m) l m = ((fun _ => id) <$> (list_to_map l : gmap Z Z)) ∪ m.
Proof.
  induction l as [|[k v] l IH] using rev_ind; intros m; [cbn; by rewrite fmap_empty, map_empty_union|].
  rewrite fold_left_app, IH. cbn [fold_left fst]. apply map_eq. intros c.
  destruct (decide (c = k)) as [->|Hne].
  - rewrite lookup_insert_eq, lookup_union. rewrite lookup_fmap, list_to_map_app. rewrite lookup_union.
    cbn [list_to_map foldr uncurry fst snd]. rewrite lookup_insert_eq. by destruct (list_to_map l !! k), (m !! k).
  - rewrite lookup_insert_ne, !lookup_union, !lookup_fmap by done. rewrite list_to_map_app, lookup_union.
    cbn [list_to_map foldr uncurry fst snd]. rewrite lookup_insert_ne, lookup_empty by done. by destruct (list_to_map l !! c).
Qed.

Lemma insert_new (m : gmap Z Z) r : m !! r.1 = None -> insert_record m r = Ok (<[r.1 := r.2]> m).
Proof. unfold insert_record. by intros ->. Qed.

(** No id is inserted twice: nothing is freed. *)
Lemma insert_records l : forall m : gmap Z Z, NoDup l.*1 -> (forall c, c ∈ l.*1 -> m !! c = None) ->
  foldM insert_record m l = Ok (fold_left (fun (m : gmap Z Z) r => <[r.1 := r.2]> m) l m).
Proof.
  induction l as [|[k t] l IH]; intros m Hnd Hm; [done|]. apply NoDup_cons in Hnd as [Hk Hnd].
  cbn [foldM fold_left]. rewrite insert_new by (apply Hm; by left). step. apply IH; [done|].
  intros c Hc. rewrite lookup_insert_ne; [apply Hm; by right|]. intros <-. by apply Hk.
Qed.

Lemma update_manifest_ok wd id files monitor m : manifest_is wd files m -> stamps_ok m ->
  update_manifest wd id files monitor =
  Ok (<[manifest_name wd := manifest_text (stamped id monitor m)]> files, Z.of_nat (size (stamped id monitor m))).
Proof.
  intros Hm Hok. unfold update_manifest.
  assert (E : (match files !! manifest_name wd with
    | Some text => rs ← read_records (S (List.length text)) text; foldM insert_record ∅ rs
    | None => Ok ∅ end) = Ok m).
  { destruct Hm as [->|[-> ->]]; [|done]. rewrite read_manifest_text by done. step.
    rewrite insert_records by (apply hash_iter_NoDup || done). by rewrite hash_iter_rebuild. }
  rewrite E. step. rewrite fold_stamp.
  assert ((list_to_map (hash_iter monitor) : gmap Z Z) = monitor) as ->.
  { rewrite <- (list_to_map_to_list monitor) at 2. apply list_to_map_proper; [apply hash_iter_NoDup|apply hash_iter_perm]. }
  unfold zlen. by rewrite hash_iter_length.
Qed.

(** The records with a stamp beyond [jobid]. *)
Definition younger (jobid : Z) (m : gmap Z Z) : gmap Z Z := filter (fun kv => jobid < kv.2) m.

(** The reclaimed containers are the older ones; the others are inserted in the
    order of the text. *)
Lemma trunc_rounds jobid l : forall inv m, NoDup l.*1 -> (forall c, c ∈ l.*1 -> m !! c = None) ->
  foldM (trunc_round jobid) (inv, m) l =
  Ok (fold_left (fun inv r => if r.2 <=? jobid then {[r.1]} ∪ inv else inv) l inv,
      fold_left (fun m r => if r.2 <=? jobid then m else <[r.1 := r.2]> m) l m).
Proof.
  induction l as [|[k t] l IH]; intros inv m Hnd Hm; [done|]. apply NoDup_cons in Hnd as [Hk Hnd].
  cbn [foldM trunc_round fold_left fst snd]. destruct (t <=? jobid).
  - step. apply IH; [done|]. intros c Hc. apply Hm. by right.
  - rewrite insert_new by (apply Hm; by left). step. step. apply IH; [done|].
    intros c Hc. rewrite lookup_insert_ne; [apply Hm; by right|]. intros <-. by apply Hk.
Qed.

Lemma fold_reclaimed jobid l : forall (inv : gset Z) c,
  c ∈ fold_left (fun inv r => if r.2 <=? jobid then {[r.1]} ∪ inv else inv) l inv <->
  c ∈ inv \/ exists time, (c, time) ∈ l /\ time <= jobid.
Proof.
  induction l as [|[k t] l IH]; intros inv c; cbn [fold_left fst snd]; [set_solver|].
  rewrite IH. destruct (Z.leb_spec t jobid); [set_solver|]. split; [set_solver|].
  intros [?|(t' & [[= -> ->]|?]%elem_of_cons & ?)]; [by left|lia|set_solver].
Qed.

Lemma fold_younger jobid l : forall m : gmap Z Z,
  fold_left (fun m r => if r.2 <=? jobid then m else <[r.1 := r.2]> m) l m =
  fold_left (fun (m : gmap Z Z) r => <[r.1 := r.2]> m) (filter (fun r => jobid < r.2) l) m.
Proof.
  induction l as [|[k t] l IH]; intros m; [done|]. rewrite filter_cons. cbn [fold_left fst snd]. rewrite IH.
  destruct (Z.leb_spec t jobid); [by rewrite decide_False by lia|by rewrite decide_True by lia].
Qed.

Lemma younger_rebuild jobid m :
  fold_left (fun (m : gmap Z Z) r => <[r.1 := r.2]> m) (filter (fun r : Z * Z => jobid < r.2) (hash_iter m)) ∅ = younger jobid m.
Proof.
  assert (Hnd : NoDup (filter (fun r : Z * Z => jobid < r.2) (hash_iter m)).*1).
  { eapply sublist_NoDup; [apply (hash_iter_NoDup m)|]. apply fmap_sublist, sublist_filter. }
  apply map_eq. intros c. rewrite fold_insert_lookup by done. rewrite lookup_empty. unfold younger. apply option_eq. intros time.
  rewrite map_lookup_filter_Some. trans ((list_to_map (filter (fun r : Z * Z => jobid < r.2) (hash_iter m)) : gmap Z Z) !! c = Some time).
  - by destruct (_ !! c).
  - rewrite <- elem_of_list_to_map by done. rewrite list_elem_of_filter, hash_iter_elem. cbn. tauto.
Qed.

Lemma trunc_manifest_ok wd jobid files m : files !! manifest_name wd = Some (manifest_text m) -> stamps_ok m ->
  exists inv, trunc_manifest wd jobid files =
    Ok (inv, <[manifest_name wd := manifest_text (younger jobid m)]> files, Z.of_nat (size (younger jobid m))) /\
    forall c, c ∈ inv <-> exists time, m !! c = Some time /\ time <= jobid.
Proof.
  intros Hf Hok. unfold trunc_manifest. rewrite Hf, read_manifest_text by done. step.
  rewrite trunc_rounds by (apply hash_iter_NoDup || done). step. rewrite fold_younger, younger_rebuild.
  eexists. split; [unfold zlen; by rewrite hash_iter_length|].
  intros c. rewrite fold_reclaimed. setoid_rewrite hash_iter_elem. set_solver.
Qed.
End Manifest.

Lemma sparse_manifest wd id : sparse_name wd id <> manifest_name wd.
Proof. unfold sparse_name, manifest_name. intros E. by apply app_inv_head in E. Qed.

(** ** Properties *)

Section Properties.
Context `{HM : !HashIter Z Z} `{SR : !SeqSort containerRecord}.
Context `{HO : !HashIterOk Z Z} `{SO : !SeqSortOk containerRecord}.

(** The records of a monitor. *)
Definition monitor_records (monitor : gmap Z Z) : list containerRecord := map monitor_record (map_to_list monitor).

Lemma monitor_records_NoDup monitor threshold seq :
  seq ≡ₚ filter (fun r => is_sparse threshold (cr_size r) = true) (monitor_records monitor) -> NoDup (map cr_cid seq).
Proof.
  intros ->. eapply sublist_NoDup; [|apply fmap_sublist, sublist_filter]. unfold monitor_records.
  replace (cr_cid <$> map monitor_record (map_to_list monitor)) with ((map_to_list monitor).*1); [apply NoDup_fst_map_to_list|].
  rewrite <- list_fmap_compose. by apply list_fmap_ext.
Qed.

(** C28: closing the history of a backup always ends (its trimming loop stops
    before it runs out of records), unless the limit is negative, when the
    manifest file is missing or holds a table, as the program writes it. What is
    written are sparse containers of the backup, the least used ones, as many as
    the limit on the rewrite ratio allows, and the next backup reads exactly these
    ids. The manifest then is the old one with the containers of the backup
    stamped with its number. *)
Theorem close_har_keeps_sparse wd id inherited monitor st files m threshold limit :
  0 <= id -> d_lt limit (d_of_Z 0) = false -> manifest_is wd files m -> stamps_ok m ->
  Forall record_ok (monitor_records monitor) -> sizes (monitor_records monitor) < 2 ^ 63 ->
  exists files' st' live kept trimmed table,
    close_har threshold limit wd id inherited monitor st files = Ok (files', st', live) /\
    kept ++ trimmed ≡ₚ filter (fun r => is_sparse threshold (cr_size r) = true) (monitor_records monitor) /\
    (forall r t, r ∈ kept -> t ∈ trimmed -> cr_size r <= cr_size t) /\
    over_limit limit (sizes kept) (sizes (monitor_records monitor)) = false /\
    (forall t1 t2, trimmed = t1 ++ t2 -> t1 <> [] -> over_limit limit (sizes (kept ++ t1)) (sizes (monitor_records monitor)) = true) /\
    init_har wd files' (id + 1) = Ok table /\ (forall c, is_Some (table !! c) <-> c ∈ map cr_cid kept) /\
    files' !! manifest_name wd = Some (manifest_text (stamped id monitor m)) /\ live = Z.of_nat (size (stamped id monitor m)).
Proof.
  intros Hid Hl Hm Hst Hok Hlt. unfold close_har. set (st0 := mk_hstat _ _ _).
  assert (Hp : map monitor_record (hash_iter monitor) ≡ₚ monitor_records monitor) by by (unfold monitor_records; rewrite hash_iter_perm).
  destruct (collect_sparse_ok threshold inherited (map monitor_record (hash_iter monitor)) [] 0 0 st0)
    as (seq & total & st' & -> & Hseq & Hsort & ->); [by rewrite Hp|done|constructor|done|by rewrite (sizes_perm _ _ Hp)|done|done|].
  rewrite app_nil_r, Hp in Hseq. rewrite (sizes_perm _ _ Hp), Z.add_0_l.
  assert (Hseq_ok : Forall record_ok seq) by (rewrite Hseq, Forall_forall; intros r [_ Hr]%list_elem_of_filter; rewrite Forall_forall in Hok; auto).
  assert (Hle : forall l, Forall record_ok l -> sizes (filter (fun r => is_sparse threshold (cr_size r) = true) l) <= sizes l).
  { induction 1 as [|r l [_ ?] _ IH]; [done|]. rewrite filter_cons. destruct (decide _); rewrite ?sizes_cons; lia. }
  specialize (Hle _ Hok). rewrite <- (sizes_perm _ _ Hseq) in Hle.
  destruct (trim_sparse_ok limit (sizes (monitor_records monitor)) Hl (S (List.length seq)) seq) as (kept & trimmed & -> & Eseq & Hk & Ht); [done|lia|lia|]. step.
  rewrite (update_manifest_ok wd id _ monitor m) by (try done; unfold manifest_is; rewrite lookup_insert_ne by apply sparse_manifest; done). step.
  assert (Hnd : NoDup (map cr_cid (kept ++ trimmed))) by (rewrite <- Eseq; by eapply monitor_records_NoDup).
  rewrite map_app in Hnd. apply NoDup_app in Hnd as [Hnd _].
  rewrite Eseq in Hseq, Hsort, Hseq_ok. apply Forall_app in Hseq_ok as [Hk_ok Ht_ok].
  eexists _, _, _, kept, trimmed, _. split; [reflexivity|]. split; [done|]. split; [|split; [done|split; [done|split; [|split; [|split]]]]].
  - intros r t Hr Ht'. pose proof (Forall_forall record_ok kept) as [Fk _]. pose proof (Forall_forall record_ok trimmed) as [Ft _].
    destruct (Fk Hk_ok r Hr) as [_ ?]. destruct (Ft Ht_ok t Ht') as [_ ?].
    enough (cmp_le g_record_cmp r t) as Hc by (unfold cmp_le, g_record_cmp in Hc; rewrite s32_id in Hc by lia; lia).
    by apply (StronglySorted_app_1_elem_of _ kept trimmed).
  - apply (init_har_reads _ _ _ kept); [lia|done|done|]. rewrite lookup_insert_ne by (apply not_eq_sym, sparse_manifest). rewrite Z.add_simpl_r. apply lookup_insert_eq.
  - intros c. rewrite fold_insert_dom, lookup_empty. split; [by intros [[? ?]|]|by right].
  - apply lookup_insert_eq.
  - done.
Qed.
End Properties.

(** ** A history of backups and deletions *)

Section History.
Context `{HM : !HashIter Z Z} `{HO : !HashIterOk Z Z}.

Inductive cma_event := CmaBackup (id : Z) (monitor : gmap Z Z) | CmaDelete (jobid : Z).

(** The files and the containers that are reclaimed. *)
Definition cma_step (wd : list Z) (s : text_files * list (gset Z)) (e : cma_event) : res (text_files * list (gset Z)) :=
  let '(files, reclaimed) := s in
  match e with
  | CmaBackup id monitor => '(files, _) ← update_manifest wd id files monitor; Ok (files, reclaimed)
  | CmaDelete jobid => '(inv, files, _) ← trunc_manifest wd jobid files; Ok (files, reclaimed ++ [inv])
  end.

(** Backup [t] uses container [c]. *)
Definition uses (evs : list cma_event) (c t : Z) : Prop := exists monitor, CmaBackup t monitor ∈ evs /\ c ∈ dom monitor.

Definition event_id (e : cma_event) : option Z := match e with CmaBackup id _ => Some id | CmaDelete _ => None end.

(** The ids of backups increase. *)
Record history_ok (evs : list cma_event) : Prop := {
  ho_sorted : StronglySorted Z.lt (omap event_id evs);
  ho_bounds : Forall (fun e => match e with
    | CmaBackup id monitor => 0 <= id < 2 ^ 31 /\ forall c, c ∈ dom monitor -> 0 <= c < 2 ^ 63
    | CmaDelete _ => True end) evs;
}.

(** What the manifest holds after a history. *)
Record cma_inv (wd : list Z) (evs : list cma_event) (files : text_files) (reclaimed : list (gset Z)) (m : gmap Z Z) : Prop := {
  ci_file : manifest_is wd files m;
  ci_some : evs <> [] -> files !! manifest_name wd <> None;
  ci_stamps : stamps_ok m;
  ci_last c t : m !! c = Some t -> uses evs c t /\ forall t', uses evs c t' -> t' <= t;
  ci_all c t : uses evs c t -> is_Some (m !! c) \/ exists inv, inv ∈ reclaimed /\ c ∈ inv;
}.

Lemma uses_snoc_delete evs j c t : uses (evs ++ [CmaDelete j]) c t <-> uses evs c t.
Proof. unfold uses. set_solver. Qed.

Lemma uses_snoc_backup evs id monitor c t :
  uses (evs ++ [CmaBackup id monitor]) c t <-> uses evs c t \/ (t = id /\ c ∈ dom monitor).
Proof. unfold uses. set_solver. Qed.

Lemma history_snoc evs e : history_ok (evs ++ [e]) -> history_ok evs.
Proof.
  intros [Hs Hb]. rewrite omap_app in Hs. split; [by eapply StronglySorted_app_1_l|by apply Forall_app in Hb as [? _]].
Qed.

Lemma uses_older evs id monitor c t : history_ok (evs ++ [CmaBackup id monitor]) -> uses evs c t -> t < id.
Proof.
  intros [Hs _] (mon & Hin & _). rewrite omap_app in Hs. apply (StronglySorted_app_1_elem_of _ _ _ t id Hs); [|by left].
  apply list_elem_of_omap. by exists (CmaBackup t mon).
Qed.

Lemma stamped_lookup id monitor m c t :
  stamped id monitor m !! c = Some t <-> (t = id /\ c ∈ dom monitor) \/ (m !! c = Some t /\ c ∉ dom monitor).
Proof.
  unfold stamped. rewrite lookup_union_Some_raw, !lookup_fmap, elem_of_dom.
  destruct (monitor !! c); cbn; naive_solver.
Qed.

Lemma cma_backup wd evs files reclaimed m id monitor :
  history_ok (evs ++ [CmaBackup id monitor]) -> cma_inv wd evs files reclaimed m ->
  exists files', cma_step wd (files, reclaimed) (CmaBackup id monitor) = Ok (files', reclaimed) /\
    cma_inv wd (evs ++ [CmaBackup id monitor]) files' reclaimed (stamped id monitor m).
Proof.
  intros Hh [Hf Hso Hst Hl Ha]. pose proof (fun c t => uses_older evs id monitor c t Hh) as Hold.
  destruct Hh as [_ [_ [[Hid Hc] _]%Forall_cons]%Forall_app]. cbn [cma_step].
  rewrite (update_manifest_ok wd id files monitor m) by done. step. eexists. split; [reflexivity|]. split.
  - left. apply lookup_insert_eq.
  - intros _. by rewrite lookup_insert_eq.
  - intros c t Ht. apply stamped_lookup in Ht as [[-> Ht]|[Ht _]]; [|by apply Hst]. split; [by apply Hc|done].
  - intros c t Ht. apply stamped_lookup in Ht as [[-> Ht]|[Ht Hn]]; setoid_rewrite uses_snoc_backup.
    + split; [by right|]. intros t' [Hu|[-> _]]; [apply Hold in Hu; lia|lia].
    + destruct (Hl c t Ht) as [Hu Hmax]. split; [by left|]. intros t' [?|[_ ?]]; [auto|done].
  - intros c t Hu. apply uses_snoc_backup in Hu as [Hu|[-> Hu]].
    + destruct (Ha c t Hu) as [[t' Ht']|?]; [|by right]. left. destruct (decide (c ∈ dom monitor)).
      * exists id. apply stamped_lookup. by left.
      * exists t'. apply stamped_lookup. by right.
    + left. exists id. apply stamped_lookup. by left.
Qed.

Lemma cma_delete wd evs files reclaimed m j : evs <> [] -> cma_inv wd evs files reclaimed m ->
  exists files' inv, cma_step wd (files, reclaimed) (CmaDelete j) = Ok (files', reclaimed ++ [inv]) /\
    (forall c, c ∈ inv <-> exists time, m !! c = Some time /\ time <= j) /\
    cma_inv wd (evs ++ [CmaDelete j]) files' (reclaimed ++ [inv]) (younger j m).
Proof.
  intros Hne [Hf Hso Hst Hl Ha]. assert (Hf' : files !! manifest_name wd = Some (manifest_text m)) by (destruct Hf as [?|[? _]]; [done|by destruct (Hso Hne)]).
  destruct (trunc_manifest_ok wd j files m Hf' Hst) as (inv & E & Hinv). cbn [cma_step]. rewrite E. step.
  eexists _, inv. split; [reflexivity|]. split; [done|]. split.
  - left. apply lookup_insert_eq.
  - intros _. by rewrite lookup_insert_eq.
  - intros c t [Ht _]%map_lookup_filter_Some. by apply Hst.
  - intros c t [Ht _]%map_lookup_filter_Some. setoid_rewrite uses_snoc_delete. by apply Hl.
  - intros c t Hu%uses_snoc_delete. destruct (Ha c t Hu) as [[t' Ht']|(inv' & ? & ?)].
    + destruct (Z.leb_spec t' j); [right; exists inv; split; [set_solver|]; apply Hinv; eauto|].
      left. exists t'. by apply map_lookup_filter_Some.
    + right. exists inv'. set_solver.
Qed.

Lemma cma_run_inv wd files evs : files !! manifest_name wd = None -> history_ok evs ->
  (forall j rest, evs <> CmaDelete j :: rest) ->
  exists files' reclaimed m, foldM (cma_step wd) (files, []) evs = Ok (files', reclaimed) /\ cma_inv wd evs files' reclaimed m.
Proof.
  intros Hf. induction evs as [|e evs IH] using rev_ind; intros Hh Hd.
  - exists files, [], ∅. split; [done|]. split; try done; [by right|]. intros c t (mon & Hin & _). by apply elem_of_nil in Hin.
  - destruct IH as (files1 & rec1 & m1 & E & Hi); [by eapply history_snoc| |].
    { intros j rest ->. by apply (Hd j (rest ++ [e])). }
    rewrite foldM_app, E. step. cbn [foldM]. destruct e as [id monitor|j].
    + destruct (cma_backup wd evs files1 rec1 m1 id monitor Hh Hi) as (files2 & -> & Hi2). step. by do 3 eexists.
    + destruct (cma_delete wd evs files1 rec1 m1 j) as (files2 & inv & -> & _ & Hi2); [|done|step; by do 3 eexists].
      intros ->. by apply (Hd j []).
Qed.

(** C22: along every history of backups with increasing numbers and deletions,
    starting without a manifest, no operation fails, and a deletion of the
    backups up to [j] reclaims no container that a younger backup uses, while
    every container that only deleted backups use has been reclaimed by then. *)
Theorem cma_reclaims wd files evs j : files !! manifest_name wd = None ->
  history_ok evs -> evs <> [] -> (forall j rest, evs <> CmaDelete j :: rest) ->
  exists files' reclaimed inv, foldM (cma_step wd) (files, []) (evs ++ [CmaDelete j]) = Ok (files', reclaimed ++ [inv]) /\
    (forall c t, c ∈ inv -> uses evs c t -> t <= j) /\
    (forall c, (exists t, uses evs c t) -> (forall t, uses evs c t -> t <= j) -> exists i, i ∈ reclaimed ++ [inv] /\ c ∈ i).
Proof.
  intros Hf Hh Hne Hd. destruct (cma_run_inv wd files evs Hf Hh Hd) as (files1 & rec1 & m1 & E & Hi).
  destruct (cma_delete wd evs files1 rec1 m1 j Hne Hi) as (files2 & inv & E2 & Hinv & _).
  exists files2, rec1, inv. rewrite foldM_app, E. step. cbn [foldM]. rewrite E2. step. split; [done|].
  destruct Hi as [_ _ _ Hl Ha]. split.
  - intros c t (t' & Ht' & Hle)%Hinv Hu. destruct (Hl c t' Ht') as [_ Hmax]. specialize (Hmax t Hu). lia.
  - intros c [t Hu] Hall. destruct (Ha c t Hu) as [[t' Ht']|(i & ? & ?)]; [|exists i; set_solver].
    exists inv. split; [set_solver|]. apply Hinv. exists t'. split; [done|]. apply Hall. by apply (Hl c t' Ht').
Qed.
End History.

(** ** Concrete runs *)

Definition half : double := d_div (d_of_Z 1) (d_of_Z 2).
Definition twentieth : double := d_div (d_of_Z 1) (d_of_Z 20).
Definition monitor_demo : gmap Z Z := {[ 3 := 100000; 5 := 4000000; 8 := 200000; 9 := 1000000 ]}.

(** The manifest of an earlier backup. *)
Definition table_demo : gmap Z Z := {[ 3 := 1; 7 := 2 ]}.
Definition manifest_demo : text_files := {[ manifest_name (lit "/d/") := @manifest_text std_hash_iter table_demo ]}.

Lemma close_har_keeps_sparse_witness :
  let close := @close_har std_hash_iter std_seq_sort half twentieth (lit "/d/") 4 ∅ monitor_demo (mk_hstat 0 0 0) manifest_demo in
  match close with
  | Ok (files, st, live) => (sparse_container_num st =? 3) && (live =? 5) && bool_decide (files !! sparse_name (lit "/d/") 4 = Some (lit "3 100000" ++ [10]))
  | Err _ => false
  end = true /\
  (exists files' st' live kept trimmed table, close = Ok (files', st', live) /\
    kept ++ trimmed ≡ₚ filter (fun r => is_sparse half (cr_size r) = true) (monitor_records monitor_demo) /\
    (forall r t, r ∈ kept -> t ∈ trimmed -> cr_size r <= cr_size t) /\
    over_limit twentieth (sizes kept) (sizes (monitor_records monitor_demo)) = false /\
    (forall t1 t2, trimmed = t1 ++ t2 -> t1 <> [] -> over_limit twentieth (sizes (kept ++ t1)) (sizes (monitor_records monitor_demo)) = true) /\
    init_har (lit "/d/") files' (4 + 1) = Ok table /\ (forall c, is_Some (table !! c) <-> c ∈ map cr_cid kept) /\
    files' !! manifest_name (lit "/d/") = Some (@manifest_text std_hash_iter (stamped 4 monitor_demo table_demo)) /\
    live = Z.of_nat (size (stamped 4 monitor_demo table_demo))).
Proof.
  split; [vm_compute; reflexivity|].
  apply (@close_har_keeps_sparse std_hash_iter std_seq_sort std_hash_iter_ok std_seq_sort_ok);
    [done|reflexivity|by left| | |vm_compute; reflexivity].
  - unfold stamps_ok, stamp_ok. decide_it.
  - unfold record_ok. decide_it.
Defined.

Definition history_demo : list cma_event :=
  [CmaBackup 0 {[ 1 := 10; 2 := 20 ]}; CmaBackup 1 {[ 2 := 20; 3 := 30 ]}; CmaDelete 0; CmaBackup 2 {[ 3 := 5; 4 := 40 ]}].

Lemma cma_reclaims_witness :
  let run := foldM (@cma_step std_hash_iter (lit "/d")) (∅, []) (history_demo ++ [CmaDelete 1]) in
  match run with Ok (files, out) => bool_decide (out = [{[1]}; {[2]}]) | Err _ => false end = true /\
  (exists files' reclaimed inv, run = Ok (files', reclaimed ++ [inv]) /\
    (forall c t, c ∈ inv -> uses history_demo c t -> t <= 1) /\
    (forall c, (exists t, uses history_demo c t) -> (forall t, uses history_demo c t -> t <= 1) -> exists i, i ∈ reclaimed ++ [inv] /\ c ∈ i)).
Proof.
  split; [vm_compute; reflexivity|].
  apply (@cma_reclaims std_hash_iter std_hash_iter_ok); [done| |done|by intros].
  split; [repeat constructor|]. repeat (apply Forall_cons; split); try done; (split; [lia|intros c Hc; set_unfold; lia]).
Defined.
