(* ===== verification/Rewrite.v ===== *)
(** The rewriting phase: [destor/src/rewrite_phase.c] and the algorithm of
    [destor/src/cfl_rewrite.c].

    Between the lookup and the filter, chunks wait in a rewrite buffer, with the
    bytes the buffer holds of each container in a sequence of records sorted by
    id. An algorithm marks the duplicates whose container contributes too little.
    A thread is a function of the chunks it takes from [dedup_queue], and returns
    those it pushes into [rewrite_queue]. The numbers of chunks in log messages
    are left out. *)

From S2P Require Import Prelude Glib Destor Double Container Har.

(** The fields of [destor] the phase reads. *)
Record rewrite_config := mk_rewrite_config {
  rewrite_algorithm_0 : Z;
  rewrite_algorithm_1 : Z;
  rewrite_cfl_usage_threshold : double;
  rewrite_cbr_limit : double;
  rewrite_cbr_minimal_utility : double;
  rewrite_capping_level : Z;
  rewrite_enable_har : bool;
}.

(** The difference of two [int]s, and of two [int64_t]s converted to [gint]. *)
Definition g_record_descmp_by_length (a b : containerRecord) : Z := s32 (cr_size b - cr_size a).
Definition g_record_cmp_by_id (a b : containerRecord) : Z := s32 (cr_cid a - cr_cid b).

Record rewrite_buffer := mk_rb {
  chunk_queue : list chunk;
  container_record_seq : list containerRecord;
  rb_num : Z;
  rb_size : Z;
}.

Definition init_rewrite_buffer : rewrite_buffer := mk_rb [] [] 0 0.

(** A chunk that marks the boundary of a file or a segment. *)
Definition is_signal (c : chunk) : bool :=
  CHECK_CHUNK c CHUNK_FILE_START || CHECK_CHUNK c CHUNK_FILE_END ||
  CHECK_CHUNK c CHUNK_SEGMENT_START || CHECK_CHUNK c CHUNK_SEGMENT_END.

(** The record the source looks up with: only its [cid] is set. *)
Definition id_record (id : Z) : containerRecord := mk_record id undef undef.

Section RewriteBuffer.
Context `{SL : !SeqLookup containerRecord} `{SR : !SeqSort containerRecord}.
Context (cfg : rewrite_config) (inherited_sparse_containers : gmap Z containerRecord).

(** The bytes of a chunk of container [id] enter the sequence of records. *)
Definition record_add (seq : list containerRecord) (id size : Z) : res (list containerRecord) :=
  match seq_lookup g_record_cmp_by_id (id_record id) seq with
  | None => Ok (insert_sorted g_record_cmp_by_id (mk_record id size 1) seq)
  | Some i =>
      record ← deref (seq !! i);
      _ ← c_assert (cr_cid record =? id);
      Ok (<[i := mk_record (cr_cid record) (s32 (cr_size record + size)) (out_of_order record)]> seq)
  end.

(** The flag tells that the buffer is full. *)
Definition rewrite_buffer_push (b : rewrite_buffer) (c : chunk) : res (rewrite_buffer * bool) :=
  let q := chunk_queue b ++ [c] in
  if is_signal c then Ok (mk_rb q (container_record_seq b) (rb_num b) (rb_size b), false) else
  seq ← (if negb (ck_id c =? TEMPORARY_ID) then
           _ ← c_assert (CHECK_CHUNK c CHUNK_DUPLICATE);
           record_add (container_record_seq b) (ck_id c) (ck_size c)
         else Ok (container_record_seq b));
  let num := s32 (rb_num b + 1) in
  let b := mk_rb q seq num (s32 (rb_size b + ck_size c)) in
  if rewrite_algorithm_1 cfg <=? num then
    _ ← c_assert (num =? rewrite_algorithm_1 cfg); Ok (b, true)
  else Ok (b, false).

Definition rewrite_buffer_top (b : rewrite_buffer) : option chunk := head (chunk_queue b).

(** The bytes of a chunk leave the sequence. *)
Definition record_sub (seq : list containerRecord) (id size : Z) : res (list containerRecord) :=
  match seq_lookup g_record_cmp_by_id (id_record id) seq with
  | None => Err EAssert
  | Some i =>
      record ← deref (seq !! i);
      let record := mk_record (cr_cid record) (s32 (cr_size record - size)) (out_of_order record) in
      Ok (if cr_size record =? 0 then delete i seq else <[i := record]> seq)
  end.

Definition rewrite_buffer_pop (b : rewrite_buffer) : res (rewrite_buffer * option chunk) :=
  match chunk_queue b with
  | [] => Ok (b, None)
  | c :: q =>
      if is_signal c then Ok (mk_rb q (container_record_seq b) (rb_num b) (rb_size b), Some c) else
      '(seq, c') ← (if CHECK_CHUNK c CHUNK_DUPLICATE && negb (ck_id c =? TEMPORARY_ID) then
          seq ← record_sub (container_record_seq b) (ck_id c) (ck_size c);
          Ok (seq, if rewrite_enable_har cfg && CHECK_CHUNK c CHUNK_DUPLICATE then har_check inherited_sparse_containers c else c)
        else Ok (container_record_seq b, c));
      Ok (mk_rb q seq (s32 (rb_num b - 1)) (s32 (rb_size b - ck_size c)), Some c')
  end.

(** [while ((bc = rewrite_buffer_pop())) { mark; sync_queue_push(rewrite_queue, bc); }] *)
Fixpoint drain_loop (fuel : nat) (mark : chunk -> res chunk) (b : rewrite_buffer) : res (rewrite_buffer * list chunk) :=
  match fuel with
  | O => Err EFuel
  | S fuel =>
      '(b, bc) ← rewrite_buffer_pop b;
      match bc with
      | None => Ok (b, [])
      | Some bc => bc ← mark bc; '(b, out) ← drain_loop fuel mark b; Ok (b, bc :: out)
      end
  end.
Definition drain (mark : chunk -> res chunk) (b : rewrite_buffer) : res (rewrite_buffer * list chunk) :=
  drain_loop (S (length (chunk_queue b))) mark b.

(** ** No rewriting *)

(** The thread hands a chunk over, and only then marks it. *)
Inductive action := Push (c : chunk) | Mark (c : chunk).

Definition no_rewrite_round (c : chunk) : list action :=
  Push c :: (if rewrite_enable_har cfg && CHECK_CHUNK c CHUNK_DUPLICATE then [Mark (har_check inherited_sparse_containers c)] else []).
Definition no_rewrite (dedup_queue : list chunk) : list action := concat (map no_rewrite_round dedup_queue).

(** ** Container fragmentation level *)

Definition cfl_mark (out_of_order : bool) (bc : chunk) : res chunk :=
  if is_signal bc then Ok bc else
  if out_of_order && negb (ck_id bc =? TEMPORARY_ID) then
    _ ← c_assert (CHECK_CHUNK bc CHUNK_DUPLICATE); Ok (SET_CHUNK bc CHUNK_OUT_OF_ORDER)
  else Ok bc.

(** The buffer holds too little of its container. *)
Definition cfl_out_of_order (size : Z) : bool :=
  d_lt (d_of_Z size) (d_mul (rewrite_cfl_usage_threshold cfg) (d_of_Z (CONTAINER_SIZE - CONTAINER_META_SIZE))).

Definition cfl_judge (b : rewrite_buffer) : res (rewrite_buffer * list chunk) := drain (cfl_mark (cfl_out_of_order (rb_size b))) b.

(** A round of the loop: [last_id], [buffer_full], the buffer and what has been handed over. *)
Definition cfl_step (s : Z * bool * rewrite_buffer * list chunk) (c : chunk) : res (Z * bool * rewrite_buffer * list chunk) :=
  let '(last_id, buffer_full, b, out) := s in
  '(buffer_full, b, out) ← (if (negb (last_id =? TEMPORARY_ID) && negb (last_id =? ck_id c)) || buffer_full then
      '(b, judged) ← cfl_judge b; Ok (false, b, out ++ judged)
    else Ok (buffer_full, b, out));
  '(b, full) ← rewrite_buffer_push b c;
  Ok (ck_id c, full || buffer_full, b, out).

Definition cfl_rewrite (b : rewrite_buffer) (dedup_queue : list chunk) : res (list chunk) :=
  '(_, _, b, out) ← foldM cfl_step (TEMPORARY_ID, false, b, []) dedup_queue;
  '(_, judged) ← cfl_judge b;
  Ok (out ++ judged).

(** ** Capping *)

(** The loop that copies the first [num] records to the table [top]. *)
Fixpoint copy_top (num : nat) (iter : list containerRecord) (top : gmap Z containerRecord) : res (gmap Z containerRecord) :=
  match num with
  | O => Ok top
  | S num =>
      match iter with
      | [] => Err EAssert
      | record :: iter => copy_top num iter (<[cr_cid record := mk_record (cr_cid record) (cr_size record) 0]> top)
      end
  end.

Definition cap_segment_get_top (b : rewrite_buffer) (top : gmap Z containerRecord) : res (rewrite_buffer * gmap Z containerRecord) :=
  let seq := seq_sort g_record_descmp_by_length (container_record_seq b) in
  let length := zlen seq in
  let num := if rewrite_capping_level cfg <? length then rewrite_capping_level cfg else length in
  top ← copy_top (Z.to_nat num) seq top;
  Ok (mk_rb (chunk_queue b) (seq_sort g_record_cmp_by_id seq) (rb_num b) (rb_size b), top).

Definition not_in_top (top : gmap Z containerRecord) (c : chunk) : chunk :=
  match top !! ck_id c with None => SET_CHUNK c CHUNK_OUT_OF_ORDER | Some _ => c end.

(** The bodies of the two loops that empty the buffer: the second one does not
    test for a duplicate. *)
Definition cap_mark (top : gmap Z containerRecord) (c : chunk) : res chunk :=
  Ok (if negb (is_signal c) && CHECK_CHUNK c CHUNK_DUPLICATE then not_in_top top c else c).
Definition cap_mark_rest (top : gmap Z containerRecord) (c : chunk) : res chunk :=
  Ok (if negb (is_signal c) then not_in_top top c else c).

Definition cap_step (s : rewrite_buffer * list chunk) (c : chunk) : res (rewrite_buffer * list chunk) :=
  let '(b, out) := s in
  '(b, full) ← rewrite_buffer_push b c;
  if negb full then Ok (b, out) else
  '(b, top) ← cap_segment_get_top b ∅;
  '(b, chunks) ← drain (cap_mark top) b;
  Ok (b, out ++ chunks).

Definition cap_rewrite (b : rewrite_buffer) (dedup_queue : list chunk) : res (list chunk) :=
  '(b, out) ← foldM cap_step (b, []) dedup_queue;
  '(b, top) ← cap_segment_get_top b ∅;
  '(_, chunks) ← drain (cap_mark_rest top) b;
  Ok (out ++ chunks).
End RewriteBuffer.

(** ** The records of a buffer *)

(** Ids for which [g_record_cmp_by_id] compares: the difference of two fits a [gint]. *)
Definition id_ok (id : Z) : Prop := 0 <= id < 2 ^ 31.
Definition rec_id_ok (r : containerRecord) : Prop := id_ok (cr_cid r).

Lemma cmp_by_id_ok : cmp_ok rec_id_ok g_record_cmp_by_id.
Proof.
  unfold rec_id_ok, id_ok, g_record_cmp_by_id. split; intros *.
  - intros. rewrite !s32_id by lia. lia.
  - intros ? ? ?. rewrite !s32_id by lia. lia.
Qed.

Lemma cmp_by_id a b : rec_id_ok a -> rec_id_ok b -> g_record_cmp_by_id a b = cr_cid a - cr_cid b.
Proof. unfold rec_id_ok, id_ok, g_record_cmp_by_id. intros. apply s32_id. lia. Qed.

(** Ids that are 2^32 apart are equal for the comparison. *)
Lemma cmp_by_id_wraps id : g_record_cmp_by_id (id_record (id + 2 ^ 32)) (id_record id) = 0.
Proof. unfold g_record_cmp_by_id. cbn [id_record cr_cid]. by replace (id + 2 ^ 32 - id) with (2 ^ 32) by lia. Qed.

Lemma sorted_ids seq : Forall rec_id_ok seq ->
  StronglySorted Z.lt (map cr_cid seq) <-> NoDup (map cr_cid seq) /\ StronglySorted (cmp_le g_record_cmp_by_id) seq.
Proof.
  induction 1 as [|r seq Hr Hs IH]; cbn [map]; [split; [repeat constructor|constructor]|].
  assert (Hc : forall r', r' ∈ seq -> cmp_le g_record_cmp_by_id r r' <-> cr_cid r <= cr_cid r').
  { intros r' Hin. rewrite Forall_forall in Hs. unfold cmp_le. rewrite cmp_by_id by auto. lia. }
  split.
  - intros Ha. apply StronglySorted_inv in Ha as [Ha Hlt]. apply IH in Ha as [? ?]. rewrite Forall_forall in Hlt. split.
    + constructor; [|done]. intros Hin. specialize (Hlt _ Hin). lia.
    + constructor; [done|]. apply Forall_forall. intros r' Hin. apply Hc; [done|]. apply Z.lt_le_incl, Hlt. by apply list_elem_of_fmap_2.
  - intros [Hn Ha]. apply StronglySorted_inv in Ha as [Ha Hle]. apply NoDup_cons in Hn as [Hr' Hn]. constructor; [by apply IH|].
    apply Forall_forall. intros id Hin. assert (id <> cr_cid r) by (intros ->; done). apply list_elem_of_fmap in Hin as (r' & -> & Hin).
    rewrite Forall_forall in Hle. specialize (Hle r' Hin). apply Hc in Hle; [|done]. lia.
Qed.

(** The records hold the bytes [w] of each container that has any. *)
Record records_ok (seq : list containerRecord) (w : Z -> Z) : Prop := {
  ro_sorted : StronglySorted Z.lt (map cr_cid seq);
  ro_ids : Forall rec_id_ok seq;
  ro_size : Forall (fun r => cr_size r = w (cr_cid r) /\ 0 < w (cr_cid r)) seq;
  ro_all id : id_ok id -> 0 < w id -> id ∈ map cr_cid seq;
}.

(** A weight that changes for one id. *)
Definition bump (w : Z -> Z) (id n : Z) : Z -> Z := fun i => if i =? id then w i + n else w i.

Lemma bump_same w id n : bump w id n id = w id + n.
Proof. unfold bump. by rewrite Z.eqb_refl. Qed.

Lemma bump_other w id n i : i <> id -> bump w id n i = w i.
Proof. unfold bump. intros. by rewrite (proj2 (Z.eqb_neq i id)). Qed.

Lemma records_ok_ext seq w1 w2 : (forall id, w1 id = w2 id) -> records_ok seq w1 -> records_ok seq w2.
Proof.
  intros Hw [Hs Hi Hz Ha]. split; [done|done| |].
  - eapply Forall_impl; [exact Hz|]. intros r. cbn. by rewrite Hw.
  - intros id. rewrite <- Hw. apply Ha.
Qed.

Lemma records_empty seq w : (forall id, w id = 0) -> records_ok seq w -> seq = [].
Proof. intros Hw [_ _ Hz _]. destruct seq as [|r seq]; [done|]. apply Forall_cons in Hz as [[_ Hr] _]. rewrite Hw in Hr. lia. Qed.

(** The records around the one of an id. *)
Lemma records_middle l1 r l2 w : records_ok (l1 ++ r :: l2) w ->
  forall r', r' ∈ l1 ++ l2 -> cr_cid r' <> cr_cid r.
Proof.
  intros [Hs Hi _ _] r' Hin E. apply (sorted_ids _ Hi) in Hs as [Hn _].
  rewrite map_app in Hn. cbn [map] in Hn. apply NoDup_app in Hn as (_ & Hd & [Hn _]%NoDup_cons).
  apply elem_of_app in Hin as [Hin|Hin].
  - apply (Hd (cr_cid r')); [by apply list_elem_of_fmap_2|]. rewrite E. by left.
  - apply Hn. rewrite <- E. by apply list_elem_of_fmap_2.
Qed.

Section Records.
Context `{SL : !SeqLookup containerRecord} `{SR : !SeqSort containerRecord}.
Context `{LO : !SeqLookupOk containerRecord} `{SO : !SeqSortOk containerRecord}.

Lemma record_lookup seq w id : records_ok seq w -> id_ok id ->
  match seq_lookup g_record_cmp_by_id (id_record id) seq with
  | Some i => exists l1 r l2, seq = l1 ++ r :: l2 /\ i = length l1 /\ cr_cid r = id
  | None => id ∉ map cr_cid seq
  end.
Proof.
  intros [Hs Hi _ _] Hid. apply (sorted_ids _ Hi) in Hs as [_ Hs].
  pose proof (seq_lookup_sorted rec_id_ok _ (id_record id) _ cmp_by_id_ok Hid Hi Hs) as Hl.
  assert (Hc : forall r, r ∈ seq -> g_record_cmp_by_id r (id_record id) = cr_cid r - id).
  { intros r Hr. rewrite Forall_forall in Hi. by rewrite cmp_by_id by auto. }
  destruct (seq_lookup _ _ _) as [i|].
  - destruct Hl as (r & Hr & E). rewrite Hc in E by by eapply list_elem_of_lookup_2.
    apply list_elem_of_split_length in Hr as (l1 & l2 & -> & ->). exists l1, r, l2. split_and!; [done|done|lia].
  - intros (r & -> & Hr)%list_elem_of_fmap. rewrite Forall_forall in Hl. apply (Hl r Hr). rewrite Hc by done. lia.
Qed.

Lemma records_set l1 r l2 w size o : records_ok (l1 ++ r :: l2) w -> 0 < size ->
  records_ok (l1 ++ mk_record (cr_cid r) size o :: l2) (bump w (cr_cid r) (size - w (cr_cid r))).
Proof.
  intros Hr Hsz. pose proof (records_middle l1 r l2 w Hr) as Hne. destruct Hr as [Hs Hi Hz Ha].
  split.
  - rewrite map_app in *. done.
  - apply Forall_app in Hi as [? [? ?]%Forall_cons]. apply Forall_app. split; [done|]. by constructor.
  - apply Forall_app in Hz as [Hz1 [Hz Hz2]%Forall_cons]. rewrite Forall_forall in Hz1, Hz2. apply Forall_app. split; [|constructor].
    + apply Forall_forall. intros r' Hr'. rewrite bump_other; [by apply Hz1|]. apply Hne. set_solver.
    + cbn [cr_cid cr_size]. rewrite bump_same. lia.
    + apply Forall_forall. intros r' Hr'. rewrite bump_other; [by apply Hz2|]. apply Hne. set_solver.
  - intros id Hid Hw. rewrite map_app in *. cbn [map cr_cid]. destruct (decide (id = cr_cid r)) as [->|Hd]; [set_solver|].
    rewrite bump_other in Hw by done. specialize (Ha id Hid Hw). set_solver.
Qed.

Lemma record_add_ok seq w id size : records_ok seq w -> id_ok id -> 0 < size -> 0 <= w id -> w id + size < 2 ^ 31 ->
  exists seq', record_add seq id size = Ok seq' /\ records_ok seq' (bump w id size).
Proof.
  intros Hr Hid Hsz Hw Hlt. unfold record_add. pose proof (record_lookup seq w id Hr Hid) as Hl.
  destruct (seq_lookup _ _ _) as [i|].
  - destruct Hl as (l1 & r & l2 & -> & -> & <-). rewrite list_lookup_middle by done. cbn [deref]. step. rewrite Z.eqb_refl. cbn [c_assert]. step.
    eexists. split; [reflexivity|]. rewrite insert_app_r_alt, Nat.sub_diag by lia. cbn [insert list_insert].
    destruct (Forall_app (fun r => cr_size r = w (cr_cid r) /\ 0 < w (cr_cid r)) l1 (r :: l2)) as [Fz _].
    destruct (Fz (ro_size _ _ Hr)) as [_ [[Er _] _]%Forall_cons]. rewrite Er, s32_id by lia.
    eapply records_ok_ext; [|apply records_set; [exact Hr|lia]]. intros i. unfold bump. destruct (Z.eqb_spec i (cr_cid r)) as [->|]; lia.
  - eexists. split; [reflexivity|]. pose proof (insert_sorted_perm g_record_cmp_by_id (mk_record id size 1) seq) as Hp.
    destruct Hr as [Hs Hi Hz Ha]. assert (Hw0 : w id = 0).
    { destruct (decide (0 < w id)) as [Hp'|]; [|lia]. by destruct Hl; apply Ha. }
    assert (Hi' : Forall rec_id_ok (insert_sorted g_record_cmp_by_id (mk_record id size 1) seq)) by (rewrite Hp; by constructor).
    split; [|done| |].
    + apply sorted_ids; [done|]. apply (sorted_ids _ Hi) in Hs as [Hn Hs]. split.
      * rewrite Hp. cbn [map cr_cid]. by constructor.
      * eapply insert_sorted_sorted; [exact cmp_by_id_ok|done|done|done].
    + rewrite Hp. constructor; [cbn [cr_cid cr_size]; rewrite bump_same; lia|]. rewrite Forall_forall in Hz |- *. intros r Hin.
      rewrite bump_other; [by apply Hz|]. intros <-. apply Hl. by apply list_elem_of_fmap_2.
    + intros i Hio Hwi. rewrite Hp. cbn [map cr_cid]. destruct (decide (i = id)) as [->|]; [by left|]. right. rewrite bump_other in Hwi by done. by apply Ha.
Qed.

Lemma record_sub_ok seq w id size : records_ok seq w -> id_ok id -> 0 < size <= w id -> w id < 2 ^ 31 ->
  exists seq', record_sub seq id size = Ok seq' /\ records_ok seq' (bump w id (- size)).
Proof.
  intros Hr Hid Hsz Hlt. unfold record_sub. pose proof (record_lookup seq w id Hr Hid) as Hl.
  destruct (seq_lookup _ _ _) as [i|]; [|by destruct Hl; apply (ro_all _ _ Hr); (done || lia)].
  destruct Hl as (l1 & r & l2 & -> & -> & <-). rewrite list_lookup_middle by done. cbn [deref]. step.
  destruct (Forall_app (fun r => cr_size r = w (cr_cid r) /\ 0 < w (cr_cid r)) l1 (r :: l2)) as [Fz _].
  destruct (Fz (ro_size _ _ Hr)) as [Hz1 [[Er _] Hz2]%Forall_cons]. cbn [cr_size cr_cid out_of_order]. rewrite Er, s32_id by lia.
  eexists. split; [reflexivity|]. destruct (Z.eqb_spec (w (cr_cid r) - size) 0) as [E0|E0].
  - pose proof (records_middle l1 r l2 w Hr) as Hne. destruct Hr as [Hs Hi _ Ha]. rewrite delete_middle. apply Forall_app in Hi as [Hi1 [_ Hi2]%Forall_cons].
    assert (Hi : Forall rec_id_ok (l1 ++ l2)) by by apply Forall_app. split; [|done| |].
    + rewrite map_app in *. cbn [map] in Hs. apply StronglySorted_app in Hs as (Hx & Hs1 & Hs2). apply StronglySorted_inv in Hs2 as [Hs2 _].
      apply StronglySorted_app_2; [|done|done]. intros x y Hxi Hy. apply Hx; [done|]. by right.
    + rewrite Forall_forall in Hz1, Hz2. apply Forall_forall. intros r' Hr'. rewrite bump_other by by apply Hne. apply elem_of_app in Hr' as [?|?]; auto.
    + intros i Hio Hwi. destruct (decide (i = cr_cid r)) as [->|Hd]; [rewrite bump_same in Hwi; lia|].
      rewrite bump_other in Hwi by done. specialize (Ha i Hio Hwi). rewrite map_app in *. set_solver.
  - rewrite insert_app_r_alt, Nat.sub_diag by lia. cbn [insert list_insert].
    eapply records_ok_ext; [|apply records_set; [exact Hr|lia]]. intros i. unfold bump. destruct (Z.eqb_spec i (cr_cid r)) as [->|]; lia.
Qed.
End Records.

(** ** The buffer *)

Definition weigh (f : chunk -> bool) (q : list chunk) : Z := foldr (fun c n => (if negb (is_signal c) && f c then ck_size c else 0) + n) 0 q.
(** The bytes of the buffer, those of a container, and the number of its chunks. *)
Definition total (q : list chunk) : Z := weigh (fun _ => true) q.
Definition weight (q : list chunk) (id : Z) : Z := weigh (fun c => ck_id c =? id) q.
Definition ncount (q : list chunk) : Z := zlen (filter (fun c => is_signal c = false) q).

Lemma weigh_app f q1 q2 : weigh f (q1 ++ q2) = weigh f q1 + weigh f q2.
Proof. induction q1 as [|c q1 IH]; [done|]. cbn [app weigh foldr]. unfold weigh in IH. rewrite IH. unfold weigh. lia. Qed.

Lemma weigh_cons f c q : weigh f (c :: q) = (if negb (is_signal c) && f c then ck_size c else 0) + weigh f q.
Proof. done. Qed.

Lemma ncount_app q1 q2 : ncount (q1 ++ q2) = ncount q1 + ncount q2.
Proof. unfold ncount. by rewrite filter_app, zlen_app. Qed.

Lemma ncount_cons c q : ncount (c :: q) = (if is_signal c then 0 else 1) + ncount q.
Proof.
  unfold ncount. rewrite filter_cons. destruct (is_signal c); [by rewrite decide_False|].
  rewrite decide_True, zlen_cons by done. done.
Qed.

Lemma ncount_nonneg q : 0 <= ncount q.
Proof. apply zlen_nonneg. Qed.

(** What [rewrite_buffer_pop] returns for a chunk of the queue. *)
Definition popped (cfg : rewrite_config) (inherited : gmap Z containerRecord) (c : chunk) : chunk :=
  if negb (is_signal c) && CHECK_CHUNK c CHUNK_DUPLICATE && negb (ck_id c =? TEMPORARY_ID) && rewrite_enable_har cfg
  then har_check inherited c else c.

(** ** Marks *)

(** The rewriting only marks chunks as fragmented. *)
Definition marked (c c' : chunk) : Prop := exists f, f ∈ [0; CHUNK_SPARSE; CHUNK_OUT_OF_ORDER; Z.lor CHUNK_SPARSE CHUNK_OUT_OF_ORDER] /\ c' = SET_CHUNK c f.

#[export] Instance marked_refl : Reflexive marked.
Proof. intros c. exists 0. split; [by left|]. destruct c. unfold SET_CHUNK. cbn. by rewrite Z.lor_0_r. Qed.

#[export] Instance marked_trans : Transitive marked.
Proof.
  intros c c1 c2 (f & Hf & ->) (g & Hg & ->). exists (Z.lor f g). split; [|unfold SET_CHUNK; cbn; by rewrite Z.lor_assoc].
  set_unfold. repeat match goal with H : _ \/ _ |- _ => destruct H as [H|H] end; subst; try done; cbn; auto.
Qed.

Lemma marked_sparse c : marked c (SET_CHUNK c CHUNK_SPARSE).
Proof. exists CHUNK_SPARSE. split; [set_solver|done]. Qed.

Lemma marked_out_of_order c : marked c (SET_CHUNK c CHUNK_OUT_OF_ORDER).
Proof. exists CHUNK_OUT_OF_ORDER. split; [set_solver|done]. Qed.

(** A mark changes no other flag. *)
Lemma marked_check c c' g : marked c c' -> Z.land g CHUNK_SPARSE = 0 -> Z.land g CHUNK_OUT_OF_ORDER = 0 -> CHECK_CHUNK c' g = CHECK_CHUNK c g.
Proof.
  intros (f & Hf & ->) H1 H2. rewrite CHECK_SET. rewrite Z.land_comm in H1, H2.
  assert (Z.land f g = 0) as ->; [|by rewrite orb_false_r].
  set_unfold. destruct Hf as [->|[->|[->|[->|[]]]]]; [done|done|done|]. by rewrite Z.land_lor_distr_l, H1, H2.
Qed.

Lemma marked_fields c c' : marked c c' ->
  ck_size c' = ck_size c /\ ck_id c' = ck_id c /\ ck_fp c' = ck_fp c /\ ck_data c' = ck_data c /\ is_signal c' = is_signal c /\
  CHECK_CHUNK c' CHUNK_DUPLICATE = CHECK_CHUNK c CHUNK_DUPLICATE.
Proof.
  intros Hm. pose proof (fun g => marked_check c c' g Hm) as Hc. destruct Hm as (f & _ & ->).
  do 4 (split; [done|]). split; [|by apply Hc]. unfold is_signal. by rewrite !Hc.
Qed.

Lemma har_check_marked inherited c : marked c (har_check inherited c).
Proof. unfold har_check. destruct (_ && _); [|reflexivity]. destruct (_ !! _); [apply marked_sparse|reflexivity]. Qed.

Lemma popped_marked cfg inherited c : marked c (popped cfg inherited c).
Proof. unfold popped. destruct (_ && _); [apply har_check_marked|reflexivity]. Qed.

Lemma forall2_map {A B} (R : A -> B -> Prop) (f : A -> B) l : (forall x, x ∈ l -> R x (f x)) -> Forall2 R l (map f l).
Proof. induction l as [|x l IH]; intros Hx; cbn [map]; constructor; [apply Hx; by left|]. apply IH. intros. apply Hx. by right. Qed.

Section Buffer.
Context `{SL : !SeqLookup containerRecord} `{SR : !SeqSort containerRecord}.
Context `{LO : !SeqLookupOk containerRecord} `{SO : !SeqSortOk containerRecord}.
Context (cfg : rewrite_config) (inherited : gmap Z containerRecord).

(** [M] bounds the size of a chunk, and a full buffer has fewer than 2 GB. *)
Context (M : Z) (HM : 0 < rewrite_algorithm_1 cfg /\ rewrite_algorithm_1 cfg * M < 2 ^ 31).

(** A chunk as the dedup phase hands it over: a container is known for
    duplicates only. *)
Definition chunk_ok (c : chunk) : Prop := is_signal c = false ->
  0 < ck_size c <= M /\ (ck_id c <> TEMPORARY_ID -> CHECK_CHUNK c CHUNK_DUPLICATE = true /\ id_ok (ck_id c)).

Record rb_inv (b : rewrite_buffer) : Prop := {
  rb_chunks : Forall chunk_ok (chunk_queue b);
  rb_num_ok : rb_num b = ncount (chunk_queue b);
  rb_size_ok : rb_size b = total (chunk_queue b);
  rb_bound : ncount (chunk_queue b) <= rewrite_algorithm_1 cfg;
  rb_records : records_ok (container_record_seq b) (weight (chunk_queue b));
}.

Lemma weigh_bounds f q : Forall chunk_ok q -> 0 <= weigh f q <= M * ncount q.
Proof using.
  induction 1 as [|c q Hc _ IH]; [change (ncount []) with 0; cbn [weigh foldr]; lia|]. rewrite weigh_cons, ncount_cons. pose proof (ncount_nonneg q).
  destruct (is_signal c) eqn:E; cbn [negb andb]; [lia|]. destruct (Hc E) as [? _]. destruct (f c); lia.
Qed.

Lemma init_rewrite_buffer_inv : rb_inv init_rewrite_buffer.
Proof using HM.
  split; cbn; [done|done|done|change (ncount []) with 0; lia|]. split; [constructor|done|done|]. intros id _ Hw. cbn in Hw. lia.
Qed.

(** An empty buffer is the initial one. *)
Lemma empty_buffer b : rb_inv b -> chunk_queue b = [] -> b = init_rewrite_buffer.
Proof using.
  intros [_ Hn Hz _ Hr] Hq. rewrite Hq in *. destruct b as [q seq n z]. cbn in *. subst.
  by rewrite (records_empty seq (weight []) (fun _ => eq_refl) Hr).
Qed.

Lemma rewrite_buffer_push_ok b c : rb_inv b -> chunk_ok c -> ncount (chunk_queue b) < rewrite_algorithm_1 cfg ->
  exists b', rewrite_buffer_push cfg b c = Ok (b', negb (is_signal c) && (rewrite_algorithm_1 cfg <=? ncount (chunk_queue b ++ [c]))) /\
    rb_inv b' /\ chunk_queue b' = chunk_queue b ++ [c].
Proof using HM LO SO.
  intros [Hq Hn Hz Hb Hr] Hc Hlt. unfold rewrite_buffer_push.
  assert (Hq' : Forall chunk_ok (chunk_queue b ++ [c])) by (apply Forall_app; split; [done|by constructor]).
  destruct (is_signal c) eqn:Es; cbn [negb andb].
  - eexists. split; [reflexivity|]. split; [|done]. split; cbn [chunk_queue rb_num rb_size container_record_seq]; [done| | | |].
    + rewrite ncount_app, ncount_cons, Es. change (ncount []) with 0. lia.
    + unfold total in *. rewrite weigh_app, weigh_cons, Es. cbn. lia.
    + rewrite ncount_app, ncount_cons, Es. change (ncount []) with 0. lia.
    + eapply records_ok_ext; [|exact Hr]. intros id. unfold weight. rewrite weigh_app, weigh_cons, Es. cbn. lia.
  - destruct (Hc Es) as [Hsz Hid]. pose proof (ncount_nonneg (chunk_queue b)).
    assert (Hnc : ncount (chunk_queue b ++ [c]) = ncount (chunk_queue b) + 1) by (rewrite ncount_app, ncount_cons, Es; done).
    pose proof (fun f => weigh_bounds f _ Hq) as Hw. pose proof (fun f => weigh_bounds f _ Hq') as Hw'. rewrite Hnc in Hw'.
    assert (HM' : M * (ncount (chunk_queue b) + 1) < 2 ^ 31) by nia.
    assert (Hwt : forall id, weight (chunk_queue b ++ [c]) id = if ck_id c =? id then weight (chunk_queue b) id + ck_size c else weight (chunk_queue b) id).
    { intros id. unfold weight. rewrite weigh_app, weigh_cons, Es. cbn [negb andb weigh foldr]. destruct (ck_id c =? id); lia. }
    assert (Hrec : exists seq, (if negb (ck_id c =? TEMPORARY_ID) then
        _ ← c_assert (CHECK_CHUNK c CHUNK_DUPLICATE); record_add (container_record_seq b) (ck_id c) (ck_size c)
        else Ok (container_record_seq b)) = Ok seq /\ records_ok seq (weight (chunk_queue b ++ [c]))).
    { destruct (Z.eqb_spec (ck_id c) TEMPORARY_ID) as [Et|Et]; cbn [negb].
      - eexists. split; [reflexivity|]. destruct Hr as [Hs Hi Hzz Ha]. split; [done|done| |].
        + rewrite Forall_forall in Hzz, Hi |- *. intros r Hin. rewrite Hwt, (proj2 (Z.eqb_neq (ck_id c) (cr_cid r))); [by apply Hzz|].
          specialize (Hi r Hin). unfold rec_id_ok, id_ok, TEMPORARY_ID in *. lia.
        + intros id Hio. rewrite Hwt, (proj2 (Z.eqb_neq (ck_id c) id)) by (unfold id_ok, TEMPORARY_ID in *; lia). by apply Ha.
      - destruct (Hid Et) as [-> Hio]. cbn [c_assert]. step.
        destruct (record_add_ok _ _ (ck_id c) (ck_size c) Hr Hio) as (seq & -> & Hr'); [lia|apply Hw|apply Z.le_lt_trans with (weight (chunk_queue b ++ [c]) (ck_id c)); [rewrite Hwt, Z.eqb_refl; lia|]; destruct (Hw' (fun c' => ck_id c' =? ck_id c)); unfold weight; lia|].
        eexists. split; [reflexivity|]. eapply records_ok_ext; [|exact Hr']. intros id. rewrite Hwt. unfold bump. by rewrite (Z.eqb_sym id). }
    destruct Hrec as (seq & -> & Hr'). step. rewrite Hn, Hz.
    assert (Ht : total (chunk_queue b ++ [c]) = total (chunk_queue b) + ck_size c) by (unfold total; rewrite weigh_app, weigh_cons, Es; cbn; lia).
    pose proof (Hw' (fun _ => true)) as Hwt'. change (weigh (fun _ => true) (chunk_queue b ++ [c])) with (total (chunk_queue b ++ [c])) in Hwt'.
    assert (rewrite_algorithm_1 cfg < 2 ^ 31) by nia.
    rewrite !s32_id by lia. rewrite <- Hnc, <- Ht.
    exists (mk_rb (chunk_queue b ++ [c]) seq (ncount (chunk_queue b ++ [c])) (total (chunk_queue b ++ [c]))).
    split; [|split; [split; cbn [chunk_queue rb_num rb_size container_record_seq]; done || lia|done]].
    destruct (Z.leb_spec (rewrite_algorithm_1 cfg) (ncount (chunk_queue b ++ [c]))); [|done].
    rewrite (proj2 (Z.eqb_eq (ncount (chunk_queue b ++ [c])) (rewrite_algorithm_1 cfg))) by lia. done.
Qed.

Lemma rewrite_buffer_pop_ok b c q : rb_inv b -> chunk_queue b = c :: q ->
  exists b', rewrite_buffer_pop cfg inherited b = Ok (b', Some (popped cfg inherited c)) /\ rb_inv b' /\ chunk_queue b' = q.
Proof using HM LO SO.
  intros [Hq Hn Hz Hb Hr] Eq. unfold rewrite_buffer_pop. rewrite Eq in *. pose proof Hq as [Hc Hq']%Forall_cons.
  pose proof (ncount_cons c q) as Hnc. pose proof (fun f => weigh_cons f c q) as Hwc. pose proof (ncount_nonneg q). unfold popped.
  destruct (is_signal c) eqn:Es; cbn [negb andb] in *.
  - eexists. split; [reflexivity|]. split; [|done]. split; cbn [chunk_queue rb_num rb_size container_record_seq]; [done|lia|rewrite Hz; apply Hwc|lia|].
    eapply records_ok_ext; [|exact Hr]. intros id. apply Hwc.
  - destruct (Hc Es) as [Hsz Hid]. pose proof (fun f => weigh_bounds f _ Hq) as Hw. pose proof (fun f => weigh_bounds f _ Hq') as Hw'.
    assert (HM' : M * ncount (c :: q) < 2 ^ 31) by nia.
    assert (Hwt : forall id, weight (c :: q) id = (if ck_id c =? id then ck_size c else 0) + weight q id) by (intros id; apply Hwc).
    assert (Hrec : exists seq, (if CHECK_CHUNK c CHUNK_DUPLICATE && negb (ck_id c =? TEMPORARY_ID) then
        seq ← record_sub (container_record_seq b) (ck_id c) (ck_size c);
        Ok (seq, if rewrite_enable_har cfg && CHECK_CHUNK c CHUNK_DUPLICATE then har_check inherited c else c)
        else Ok (container_record_seq b, c)) = Ok (seq, if CHECK_CHUNK c CHUNK_DUPLICATE && negb (ck_id c =? TEMPORARY_ID) && rewrite_enable_har cfg then har_check inherited c else c) /\
        records_ok seq (weight q)).
    { destruct (Z.eqb_spec (ck_id c) TEMPORARY_ID) as [Et|Et]; cbn [negb].
      - rewrite andb_false_r. cbn [andb]. eexists. split; [reflexivity|]. destruct Hr as [Hs Hi Hzz Ha]. split; [done|done| |].
        + rewrite Forall_forall in Hzz, Hi |- *. intros r Hin. specialize (Hzz r Hin). rewrite Hwt, (proj2 (Z.eqb_neq (ck_id c) (cr_cid r))) in Hzz; [done|].
          specialize (Hi r Hin). unfold rec_id_ok, id_ok, TEMPORARY_ID in *. lia.
        + intros id Hio Hpos. apply Ha; [done|]. rewrite Hwt. destruct (ck_id c =? id); lia.
      - destruct (Hid Et) as [-> Hio]. cbn [andb].
        pose proof (Hwt (ck_id c)) as Hwi. rewrite Z.eqb_refl in Hwi. pose proof (Hw' (fun c' => ck_id c' =? ck_id c)) as Hwq.
        pose proof (Hw (fun c' => ck_id c' =? ck_id c)) as Hwcq. change (weigh (fun c' => ck_id c' =? ck_id c) q) with (weight q (ck_id c)) in Hwq.
        change (weigh (fun c' => ck_id c' =? ck_id c) (c :: q)) with (weight (c :: q) (ck_id c)) in Hwcq.
        destruct (record_sub_ok _ _ (ck_id c) (ck_size c) Hr Hio) as (seq & -> & Hr'); [lia|lia|]. step.
        eexists. split; [by rewrite andb_true_r|]. eapply records_ok_ext; [|exact Hr']. intros id. unfold bump. rewrite Hwt, (Z.eqb_sym id). destruct (ck_id c =? id); lia. }
    destruct Hrec as (seq & -> & Hr'). step. rewrite Hn, Hz.
    assert (Ht : total (c :: q) = ck_size c + total q) by apply Hwc.
    pose proof (Hw (fun _ => true)) as Hwt1. change (weigh (fun _ => true) (c :: q)) with (total (c :: q)) in Hwt1.
    pose proof (Hw' (fun _ => true)) as Hwt2. change (weigh (fun _ => true) q) with (total q) in Hwt2.
    assert (rewrite_algorithm_1 cfg < 2 ^ 31) by nia. rewrite !s32_id by lia.
    eexists. split; [reflexivity|]. split; [|done]. split; cbn [chunk_queue rb_num rb_size container_record_seq]; done || lia.
Qed.

Lemma rewrite_buffer_pop_nil b : chunk_queue b = [] -> rewrite_buffer_pop cfg inherited b = Ok (b, None).
Proof using. unfold rewrite_buffer_pop. by intros ->. Qed.

Lemma drain_loop_S fuel mark b : drain_loop cfg inherited (S fuel) mark b =
  ('(b, bc) ← rewrite_buffer_pop cfg inherited b;
   match bc with
   | None => Ok (b, [])
   | Some bc => bc ← mark bc; '(b, out) ← drain_loop cfg inherited fuel mark b; Ok (b, bc :: out)
   end).
Proof using. done. Qed.

(** Emptying the buffer ends, and yields its chunks in order. *)
Lemma drain_ok mark f b : rb_inv b -> (forall c, c ∈ chunk_queue b -> mark (popped cfg inherited c) = Ok (f (popped cfg inherited c))) ->
  drain cfg inherited mark b = Ok (init_rewrite_buffer, map (fun c => f (popped cfg inherited c)) (chunk_queue b)).
Proof using HM LO SO.
  intros Hb Hf. unfold drain. remember (chunk_queue b) as q eqn:Hq. symmetry in Hq. revert b Hb Hq.
  induction q as [|c q IH]; intros b Hb Hq; (etransitivity; [exact (drain_loop_S _ mark b)|]).
  - rewrite rewrite_buffer_pop_nil by done. step. by rewrite (empty_buffer b).
  - destruct (rewrite_buffer_pop_ok b c q Hb Hq) as (b' & -> & Hb' & Hq'). step. rewrite Hf by by left. step.
    change (length (c :: q)) with (S (length q)). rewrite (IH ltac:(intros; apply Hf; by right) b' Hb' Hq'). step. done.
Qed.

End Buffer.

(** ** Container fragmentation level: a specification *)

Section Cfl.
Context `{SL : !SeqLookup containerRecord} `{SR : !SeqSort containerRecord}.
Context `{LO : !SeqLookupOk containerRecord} `{SO : !SeqSortOk containerRecord}.
Context (cfg : rewrite_config) (inherited : gmap Z containerRecord).
Context (M : Z) (HM : 0 < rewrite_algorithm_1 cfg /\ rewrite_algorithm_1 cfg * M < 2 ^ 31).

(** The runs of chunks that are judged together: a run ends before a chunk of
    another container, and when it has as many chunks as the buffer. *)
Definition cfl_ends (last_id : Z) (run : list chunk) (c : chunk) : bool :=
  (negb (last_id =? TEMPORARY_ID) && negb (last_id =? ck_id c)) || (rewrite_algorithm_1 cfg <=? ncount run).

Fixpoint cfl_runs (last_id : Z) (run : list chunk) (cs : list chunk) : list (list chunk) :=
  match cs with
  | [] => [run]
  | c :: cs => if cfl_ends last_id run c then run :: cfl_runs (ck_id c) [c] cs else cfl_runs (ck_id c) (run ++ [c]) cs
  end.

(** The duplicates of a run are marked if it has too few bytes. *)
Definition cfl_judged (run : list chunk) : list chunk :=
  map (fun c => let c := popped cfg inherited c in
         if negb (is_signal c) && cfl_out_of_order cfg (total run) && negb (ck_id c =? TEMPORARY_ID) then SET_CHUNK c CHUNK_OUT_OF_ORDER else c) run.

Lemma cfl_judge_ok b : rb_inv cfg M b -> cfl_judge cfg inherited b = Ok (init_rewrite_buffer, cfl_judged (chunk_queue b)).
Proof using HM LO SO.
  intros Hb. unfold cfl_judge, cfl_judged. rewrite (rb_size_ok _ _ _ Hb). pose proof (rb_chunks _ _ _ Hb) as Hq.
  rewrite (drain_ok cfg inherited M HM (cfl_mark (cfl_out_of_order cfg (total (chunk_queue b))))
    (fun c => if negb (is_signal c) && cfl_out_of_order cfg (total (chunk_queue b)) && negb (ck_id c =? TEMPORARY_ID) then SET_CHUNK c CHUNK_OUT_OF_ORDER else c)); [done|done|].
  intros c Hin. rewrite Forall_forall in Hq. specialize (Hq c Hin). destruct (marked_fields _ _ (popped_marked cfg inherited c)) as (_ & Ei & _ & _ & Es & Ed).
  unfold cfl_mark. rewrite Es, Ei, Ed. destruct (is_signal c) eqn:E; [done|]. destruct (Hq E) as [_ Hid]. cbn [negb andb].
  destruct (cfl_out_of_order cfg _); [|done]. destruct (Z.eqb_spec (ck_id c) TEMPORARY_ID); [done|]. cbn [andb negb]. destruct Hid as [-> _]; [done|]. done.
Qed.

Lemma cfl_step_ok last_id b out c : rb_inv cfg M b -> chunk_ok M c ->
  exists b', cfl_step cfg inherited (last_id, rewrite_algorithm_1 cfg <=? ncount (chunk_queue b), b, out) c =
    Ok (ck_id c, rewrite_algorithm_1 cfg <=? ncount (chunk_queue b'), b',
        if cfl_ends last_id (chunk_queue b) c then out ++ cfl_judged (chunk_queue b) else out) /\
    rb_inv cfg M b' /\ chunk_queue b' = if cfl_ends last_id (chunk_queue b) c then [c] else chunk_queue b ++ [c].
Proof using HM LO SO.
  intros Hb Hc. unfold cfl_step. fold (cfl_ends last_id (chunk_queue b) c). destruct (cfl_ends last_id (chunk_queue b) c) eqn:E.
  - rewrite cfl_judge_ok by done. step. step.
    destruct (rewrite_buffer_push_ok cfg M HM init_rewrite_buffer c (init_rewrite_buffer_inv cfg M HM) Hc) as (b' & -> & Hb' & Hq'); [cbn; change (ncount []) with 0; lia|]. step.
    exists b'. split; [|by rewrite Hq']. rewrite Hq', orb_false_r. do 4 f_equal. cbn [chunk_queue init_rewrite_buffer app].
    rewrite ncount_cons. change (ncount []) with 0. destruct (is_signal c); cbn [negb andb]; [|done]. symmetry. apply Z.leb_gt. lia.
  - step. apply orb_false_elim in E as [_ E]. rewrite E. apply Z.leb_gt in E.
    destruct (rewrite_buffer_push_ok cfg M HM b c Hb Hc E) as (b' & -> & Hb' & Hq'). step.
    exists b'. split; [|done]. rewrite Hq', orb_false_r. do 4 f_equal. rewrite ncount_app, ncount_cons. change (ncount []) with 0.
    destruct (is_signal c); cbn [negb andb]; [|done]. symmetry. apply Z.leb_gt. lia.
Qed.

Lemma cfl_loop cs : forall last_id b out, Forall (chunk_ok M) cs -> rb_inv cfg M b ->
  exists s, foldM (cfl_step cfg inherited) (last_id, rewrite_algorithm_1 cfg <=? ncount (chunk_queue b), b, out) cs = Ok s /\
    ('(_, _, b, out) ← Ok s; '(_, judged) ← cfl_judge cfg inherited b; Ok (out ++ judged)) =
    Ok (out ++ concat (map cfl_judged (cfl_runs last_id (chunk_queue b) cs))).
Proof using HM LO SO.
  induction cs as [|c cs IH]; intros last_id b out Hcs Hb; cbn [foldM cfl_runs].
  - eexists. split; [reflexivity|]. step. rewrite cfl_judge_ok by done. step. cbn [map concat]. by rewrite app_nil_r.
  - apply Forall_cons in Hcs as [Hc Hcs]. destruct (cfl_step_ok last_id b out c Hb Hc) as (b' & -> & Hb' & Hq'). step.
    destruct (IH (ck_id c) b' (if cfl_ends last_id (chunk_queue b) c then out ++ cfl_judged (chunk_queue b) else out) Hcs Hb') as (s & -> & Hs).
    exists s. split; [done|]. rewrite Hs, Hq'. destruct (cfl_ends _ _ _); [|done]. cbn [map concat]. by rewrite <- app_assoc.
Qed.

Lemma concat_cfl_runs cs : forall last_id run, concat (cfl_runs last_id run cs) = run ++ cs.
Proof using.
  induction cs as [|c cs IH]; intros last_id run; cbn [cfl_runs]; [done|].
  destruct (cfl_ends _ _ _); [cbn [concat]; by rewrite IH|]. rewrite IH. by rewrite <- app_assoc.
Qed.

(** The chunks of a run that are in a container are all in the same. *)
Definition one_container (run : list chunk) (id : Z) : Prop := Forall (fun c => ck_id c = TEMPORARY_ID \/ ck_id c = id) run.

Lemma cfl_runs_ok cs : forall last_id run, one_container run last_id -> ncount run <= rewrite_algorithm_1 cfg ->
  Forall (fun run => ncount run <= rewrite_algorithm_1 cfg /\ exists id, one_container run id) (cfl_runs last_id run cs).
Proof using HM.
  induction cs as [|c cs IH]; intros last_id run Hr Hn; cbn [cfl_runs]; [constructor; [eauto|done]|].
  destruct (cfl_ends last_id run c) eqn:E.
  - constructor; [eauto|]. apply IH; [constructor; [by right|done]|]. rewrite ncount_cons. change (ncount []) with 0. destruct (is_signal c); lia.
  - apply orb_false_elim in E as [E1 E2]. apply Z.leb_gt in E2. apply IH.
    + apply Forall_app. split; [|constructor; [by right|done]]. eapply Forall_impl; [exact Hr|]. cbn. intros c' [?|?]; [by left|].
      destruct (Z.eqb_spec last_id TEMPORARY_ID); [left; congruence|]. destruct (Z.eqb_spec last_id (ck_id c)); [right; congruence|done].
    + rewrite ncount_app, ncount_cons. change (ncount []) with 0. destruct (is_signal c); lia.
Qed.

Lemma cfl_rewrite_spec cs : Forall (chunk_ok M) cs ->
  cfl_rewrite cfg inherited init_rewrite_buffer cs = Ok (concat (map cfl_judged (cfl_runs TEMPORARY_ID [] cs))) /\
  concat (cfl_runs TEMPORARY_ID [] cs) = cs.
Proof using HM LO SO.
  intros Hcs. split; [|apply concat_cfl_runs]. unfold cfl_rewrite.
  pose proof (cfl_loop cs TEMPORARY_ID init_rewrite_buffer [] Hcs (init_rewrite_buffer_inv cfg M HM)) as (s & E & Hs).
  change (rewrite_algorithm_1 cfg <=? ncount (chunk_queue init_rewrite_buffer)) with (rewrite_algorithm_1 cfg <=? 0) in E.
  rewrite (proj2 (Z.leb_gt (rewrite_algorithm_1 cfg) 0)) in E by lia. rewrite E. exact Hs.
Qed.

(** C26: the CFL algorithm fails on no stream of the dedup phase and hands it over
    run by run: a run has at most the configured number of chunks, those that are
    in a container are in the same one, and exactly they are marked as
    out of order when the run has too few bytes for the container's usage. *)
Theorem cfl_rewrite_runs cs : Forall (chunk_ok M) cs ->
  cfl_rewrite cfg inherited init_rewrite_buffer cs = Ok (concat (map cfl_judged (cfl_runs TEMPORARY_ID [] cs))) /\
  concat (cfl_runs TEMPORARY_ID [] cs) = cs /\
  Forall (fun run => ncount run <= rewrite_algorithm_1 cfg /\ exists id, one_container run id) (cfl_runs TEMPORARY_ID [] cs).
Proof using HM LO SO.
  intros Hcs. destruct (cfl_rewrite_spec cs Hcs) as [E Ec]. split; [done|]. split; [done|].
  apply cfl_runs_ok; [constructor|change (ncount []) with 0; lia].
Qed.
End Cfl.

(** ** Capping: a specification *)

Lemma copy_top_ok num : forall iter top, (num <= length iter)%nat ->
  exists top', copy_top num iter top = Ok top' /\ dom top' = dom top ∪ list_to_set (map cr_cid (take num iter)).
Proof.
  induction num as [|num IH]; intros iter top Hn; [exists top; split; [done|]; cbn; set_solver|].
  destruct iter as [|r iter]; [cbn in Hn; lia|]. cbn [copy_top take map list_to_set].
  destruct (IH iter (<[cr_cid r := mk_record (cr_cid r) (cr_size r) 0]> top)) as (top' & -> & Hd); [cbn in Hn; lia|].
  exists top'. split; [done|]. rewrite Hd, dom_insert_L. set_solver.
Qed.

Definition rec_size_ok (r : containerRecord) : Prop := 0 <= cr_size r < 2 ^ 31.

Lemma cmp_by_length_ok : cmp_ok rec_size_ok g_record_descmp_by_length.
Proof.
  unfold rec_size_ok, g_record_descmp_by_length. split; intros *.
  - intros. rewrite !s32_id by lia. lia.
  - intros ? ? ?. rewrite !s32_id by lia. lia.
Qed.

Section Cap.
Context `{SL : !SeqLookup containerRecord} `{SR : !SeqSort containerRecord}.
Context `{LO : !SeqLookupOk containerRecord} `{SO : !SeqSortOk containerRecord}.
Context (cfg : rewrite_config) (inherited : gmap Z containerRecord).
Context (M : Z) (HM : 0 < rewrite_algorithm_1 cfg /\ rewrite_algorithm_1 cfg * M < 2 ^ 31).

(** The groups of chunks that fill the buffer, and what remains at the end. *)
Fixpoint cap_groups (group : list chunk) (cs : list chunk) : list (list chunk) * list chunk :=
  match cs with
  | [] => ([], group)
  | c :: cs =>
      let group := group ++ [c] in
      if negb (is_signal c) && (rewrite_algorithm_1 cfg <=? ncount group)
      then let '(groups, rest) := cap_groups [] cs in (group :: groups, rest)
      else cap_groups group cs
  end.

(** [kept] are containers of the group with the most bytes, as many as the
    capping level allows. *)
Record cap_kept (group : list chunk) (kept : gset Z) : Prop := {
  kept_size : Z.of_nat (size kept) <= 0 `max` rewrite_capping_level cfg;
  kept_used id : id ∈ kept -> 0 < weight group id;
  kept_most i j : i ∈ kept -> j ∉ kept -> id_ok j -> weight group j <= weight group i;
  kept_all j : j ∉ kept -> id_ok j -> 0 < weight group j -> Z.of_nat (size kept) = 0 `max` rewrite_capping_level cfg;
}.

(** The duplicates in other containers are marked; at the end of the stream the
    unique chunks as well. *)
Definition cap_judged (kept : gset Z) (group : list chunk) : list chunk :=
  map (fun c => let c := popped cfg inherited c in
         if negb (is_signal c) && CHECK_CHUNK c CHUNK_DUPLICATE && bool_decide (ck_id c ∉ kept) then SET_CHUNK c CHUNK_OUT_OF_ORDER else c) group.
Definition cap_judged_rest (kept : gset Z) (group : list chunk) : list chunk :=
  map (fun c => let c := popped cfg inherited c in
         if negb (is_signal c) && bool_decide (ck_id c ∉ kept) then SET_CHUNK c CHUNK_OUT_OF_ORDER else c) group.

Lemma records_size_bound q seq : Forall (chunk_ok M) q -> ncount q <= rewrite_algorithm_1 cfg -> records_ok seq (weight q) -> Forall rec_size_ok seq.
Proof using HM.
  intros Hq Hn Hr. eapply Forall_impl; [apply (ro_size _ _ Hr)|]. intros r [Er Hpos]. unfold rec_size_ok.
  pose proof (weigh_bounds M (fun c => ck_id c =? cr_cid r) q Hq) as Hw. change (weigh _ q) with (weight q (cr_cid r)) in Hw.
  pose proof (ncount_nonneg q). assert (M * ncount q < 2 ^ 31) by nia. lia.
Qed.

(** The first records of the sequence sorted by size. *)
Lemma top_kept q seq sorted : records_ok seq (weight q) -> sorted ≡ₚ seq -> StronglySorted (cmp_le g_record_descmp_by_length) sorted ->
  Forall rec_size_ok sorted ->
  cap_kept q (list_to_set (map cr_cid (take (Z.to_nat (if rewrite_capping_level cfg <? zlen sorted then rewrite_capping_level cfg else zlen sorted)) sorted))).
Proof using.
  clear LO SO HM M SL SR. intros Hr Hp Hs Hsz. set (n := Z.to_nat _).
  assert (Hnd : NoDup (map cr_cid sorted)) by (rewrite Hp; apply (sorted_ids seq (ro_ids _ _ Hr)), (ro_sorted _ _ Hr)).
  assert (Hwt : forall r, r ∈ sorted -> cr_size r = weight q (cr_cid r) /\ 0 < weight q (cr_cid r)).
  { intros r Hin. rewrite Hp in Hin. pose proof (ro_size _ _ Hr) as Hz. rewrite Forall_forall in Hz. by apply Hz. }
  assert (Hall : forall j, id_ok j -> 0 < weight q j -> exists r, r ∈ sorted /\ cr_cid r = j).
  { intros j Hj Hw. pose proof (ro_all _ _ Hr j Hj Hw) as (r & -> & Hin)%list_elem_of_fmap. exists r. by rewrite Hp. }
  rewrite <- (take_drop n sorted), map_app in Hnd. apply NoDup_app in Hnd as (Hnd1 & Hd & _).
  assert (Hn : Z.of_nat (length (take n sorted)) = 0 `max` (rewrite_capping_level cfg `min` zlen sorted)).
  { rewrite length_take. unfold n, zlen. destruct (Z.ltb_spec (rewrite_capping_level cfg) (Z.of_nat (length sorted))); lia. }
  assert (Hsize : Z.of_nat (size (list_to_set (map cr_cid (take n sorted)) : gset Z)) = 0 `max` (rewrite_capping_level cfg `min` zlen sorted)).
  { rewrite size_list_to_set, length_map by done. done. }
  pose proof (zlen_nonneg sorted). split.
  - lia.
  - intros id Hid. apply elem_of_list_to_set, list_elem_of_fmap in Hid as (r & -> & Hin). apply Hwt. rewrite <- (take_drop n sorted). set_solver.
  - intros i j Hi Hj Hjo. apply elem_of_list_to_set, list_elem_of_fmap in Hi as (r & -> & Hin).
    destruct (decide (0 < weight q j)) as [Hw|Hw]; [|destruct (Hwt r); [rewrite <- (take_drop n sorted); set_solver|lia]].
    destruct (Hall j Hjo Hw) as (r' & Hin' & <-). assert (Hdrop : r' ∈ drop n sorted).
    { rewrite <- (take_drop n sorted), elem_of_app in Hin'. destruct Hin' as [Ht|?]; [|done]. destruct Hj. apply elem_of_list_to_set. by apply list_elem_of_fmap_2. }
    rewrite <- (take_drop n sorted) in Hs. pose proof (StronglySorted_app_1_elem_of _ _ _ _ _ Hs Hin Hdrop) as Hc.
    assert (Hr1 : r ∈ sorted) by (rewrite <- (take_drop n sorted); set_solver). destruct (Hwt r Hr1) as [Er _], (Hwt r' Hin') as [Er' _].
    rewrite Forall_forall in Hsz. pose proof (Hsz r Hr1). pose proof (Hsz r' Hin'). unfold rec_size_ok, cmp_le, g_record_descmp_by_length in *.
    rewrite s32_id in Hc by lia. lia.
  - intros j Hj Hjo Hw. destruct (Hall j Hjo Hw) as (r' & Hin' & <-). rewrite Hsize.
    assert (length (take n sorted) < length sorted)%nat; [|unfold zlen in *; lia].
    rewrite <- (take_drop n sorted), elem_of_app in Hin'. destruct Hin' as [Ht|Ht].
    + destruct Hj. apply elem_of_list_to_set. by apply list_elem_of_fmap_2.
    + rewrite length_take. destruct (decide (n < length sorted)%nat); [lia|]. rewrite drop_ge in Ht by lia. by apply elem_of_nil in Ht.
Qed.

Lemma cap_segment_get_top_ok b : rb_inv cfg M b ->
  exists b' top, cap_segment_get_top cfg b ∅ = Ok (b', top) /\ rb_inv cfg M b' /\ chunk_queue b' = chunk_queue b /\ cap_kept (chunk_queue b) (dom top).
Proof using HM SO.
  intros [Hq Hn Hz Hb Hr]. unfold cap_segment_get_top. set (sorted := seq_sort g_record_descmp_by_length (container_record_seq b)).
  assert (Hp : sorted ≡ₚ container_record_seq b) by apply seq_sort_perm.
  pose proof (records_size_bound _ _ Hq Hb Hr) as Hsz. rewrite <- Hp in Hsz.
  destruct (copy_top_ok (Z.to_nat (if rewrite_capping_level cfg <? zlen sorted then rewrite_capping_level cfg else zlen sorted)) sorted ∅) as (top & E & Hd).
  { unfold zlen. destruct (Z.ltb_spec (rewrite_capping_level cfg) (Z.of_nat (length sorted))); lia. }
  rewrite E. step. eexists _, top. split; [reflexivity|]. rewrite dom_empty_L, union_empty_l_L in Hd.
  split; [|split; [done|]].
  - split; cbn [chunk_queue rb_num rb_size container_record_seq]; try done.
    assert (Hp' : seq_sort g_record_cmp_by_id sorted ≡ₚ container_record_seq b) by by rewrite seq_sort_perm.
    destruct Hr as [Hs Hi Hzz Ha]. split; [| | |intros id; rewrite Hp'; apply Ha]; [|by rewrite Hp'..].
    assert (Hi' : Forall rec_id_ok (seq_sort g_record_cmp_by_id sorted)) by by rewrite Hp'. apply sorted_ids; [done|].
    apply (sorted_ids _ Hi) in Hs as [Hnd _]. split; [by rewrite Hp'|]. eapply seq_sort_sorted; [exact cmp_by_id_ok|]. by rewrite Hp.
  - rewrite Hd. eapply top_kept; [exact Hr|done| |done]. eapply seq_sort_sorted; [exact cmp_by_length_ok|]. by rewrite <- Hp.
Qed.

Lemma not_in_top_dom top c : not_in_top top c = if bool_decide (ck_id c ∉ dom top) then SET_CHUNK c CHUNK_OUT_OF_ORDER else c.
Proof using.
  unfold not_in_top. destruct (top !! ck_id c) eqn:E.
  - rewrite bool_decide_false; [done|]. intros Hn. apply Hn, elem_of_dom. by rewrite E.
  - rewrite bool_decide_true; [done|]. by apply not_elem_of_dom.
Qed.

Lemma cap_mark_if top c : cap_mark top c =
  Ok (if negb (is_signal c) && CHECK_CHUNK c CHUNK_DUPLICATE && bool_decide (ck_id c ∉ dom top) then SET_CHUNK c CHUNK_OUT_OF_ORDER else c).
Proof using. unfold cap_mark. destruct (negb (is_signal c) && CHECK_CHUNK c CHUNK_DUPLICATE); cbn [andb]; [by rewrite not_in_top_dom|done]. Qed.

Lemma cap_mark_rest_if top c : cap_mark_rest top c =
  Ok (if negb (is_signal c) && bool_decide (ck_id c ∉ dom top) then SET_CHUNK c CHUNK_OUT_OF_ORDER else c).
Proof using. unfold cap_mark_rest. destruct (negb (is_signal c)); cbn [andb]; [by rewrite not_in_top_dom|done]. Qed.

Lemma cap_loop cs : forall b out, Forall (chunk_ok M) cs -> rb_inv cfg M b -> ncount (chunk_queue b) < rewrite_algorithm_1 cfg ->
  exists b' keeps, foldM (cap_step cfg inherited) (b, out) cs =
      Ok (b', out ++ concat (zip_with cap_judged keeps (cap_groups (chunk_queue b) cs).1)) /\
    Forall2 cap_kept (cap_groups (chunk_queue b) cs).1 keeps /\
    rb_inv cfg M b' /\ chunk_queue b' = (cap_groups (chunk_queue b) cs).2.
Proof using HM LO SO.
  induction cs as [|c cs IH]; intros b out Hcs Hb Hlt; cbn [foldM cap_groups].
  - exists b, []. cbn. rewrite app_nil_r. by split_and!.
  - apply Forall_cons in Hcs as [Hc Hcs]. unfold cap_step at 2.
    destruct (rewrite_buffer_push_ok cfg M HM b c Hb Hc Hlt) as (b1 & -> & Hb1 & Hq1). step.
    destruct (negb (is_signal c) && (rewrite_algorithm_1 cfg <=? ncount (chunk_queue b ++ [c]))) eqn:E; cbn [negb].
    + destruct (cap_segment_get_top_ok b1 Hb1) as (b2 & top & -> & Hb2 & Hq2 & Hk). step.
      rewrite (drain_ok cfg inherited M HM (cap_mark top)
        (fun c => if negb (is_signal c) && CHECK_CHUNK c CHUNK_DUPLICATE && bool_decide (ck_id c ∉ dom top) then SET_CHUNK c CHUNK_OUT_OF_ORDER else c)) by (done || (intros; apply cap_mark_if)).
      step. step. rewrite Hq2, Hq1 in *.
      destruct (IH init_rewrite_buffer (out ++ cap_judged (dom top) (chunk_queue b ++ [c])) Hcs (init_rewrite_buffer_inv cfg M HM)) as (b' & keeps & E' & Hk' & Hb' & Hq'); [cbn; change (ncount []) with 0; lia|].
      cbn [chunk_queue init_rewrite_buffer] in *. destruct (cap_groups [] cs) as [groups rest]. cbn [fst snd] in *.
      exists b', (dom top :: keeps). change (map _ (chunk_queue b ++ [c])) with (cap_judged (dom top) (chunk_queue b ++ [c])). rewrite E'. split; [cbn [zip_with concat]; by rewrite <- app_assoc|]. split; [by constructor|done].
    + step. rewrite <- Hq1. apply IH; [done|done|]. rewrite Hq1. apply andb_false_iff in E. rewrite ncount_app, ncount_cons in *. change (ncount []) with 0 in *.
      destruct (is_signal c); cbn [negb] in E; [lia|]. destruct E as [?|E]; [done|]. apply Z.leb_gt in E. lia.
Qed.

Lemma cap_groups_ok cs : forall group, ncount group < rewrite_algorithm_1 cfg ->
  let '(groups, rest) := cap_groups group cs in
  concat groups ++ rest = group ++ cs /\ Forall (fun g => ncount g = rewrite_algorithm_1 cfg) groups /\ ncount rest < rewrite_algorithm_1 cfg.
Proof using HM.
  induction cs as [|c cs IH]; intros group Hg; cbn [cap_groups]; [by rewrite app_nil_r|].
  assert (Hn : ncount (group ++ [c]) = ncount group + (if is_signal c then 0 else 1)).
  { rewrite ncount_app, ncount_cons. change (ncount []) with 0. destruct (is_signal c); lia. }
  destruct (negb (is_signal c) && (rewrite_algorithm_1 cfg <=? ncount (group ++ [c]))) eqn:E.
  - apply andb_prop in E as [E1 E2]. apply negb_true_iff in E1. rewrite E1 in Hn. apply Z.leb_le in E2.
    specialize (IH [] ltac:(change (ncount []) with 0; lia)). destruct (cap_groups [] cs) as [groups rest]. destruct IH as (IH1 & IH2 & IH3).
    split; [cbn [concat]; by rewrite <- app_assoc, IH1, <- app_assoc|]. split; [constructor; [lia|done]|done].
  - specialize (IH (group ++ [c])). destruct (cap_groups (group ++ [c]) cs) as [groups rest]. rewrite <- app_assoc in IH. apply IH.
    apply andb_false_iff in E. destruct (is_signal c); cbn [negb] in E; [lia|]. destruct E as [?|E]; [done|]. apply Z.leb_gt in E. lia.
Qed.

Lemma cap_rewrite_spec cs : Forall (chunk_ok M) cs ->
  let '(groups, rest) := cap_groups [] cs in
  concat groups ++ rest = cs /\
  exists keeps kept, Forall2 cap_kept groups keeps /\ cap_kept rest kept /\
    cap_rewrite cfg inherited init_rewrite_buffer cs = Ok (concat (zip_with cap_judged keeps groups) ++ cap_judged_rest kept rest).
Proof using HM LO SO.
  intros Hcs. pose proof (cap_groups_ok cs [] ltac:(change (ncount []) with 0; lia)) as Hg. unfold cap_rewrite.
  destruct (cap_loop cs init_rewrite_buffer [] Hcs (init_rewrite_buffer_inv cfg M HM)) as (b & keeps & -> & Hk & Hb & Hq); [cbn; change (ncount []) with 0; lia|].
  cbn [chunk_queue init_rewrite_buffer app] in *. destruct (cap_groups [] cs) as [groups rest]. cbn [fst snd] in *. destruct Hg as (Hg1 & _).
  split; [done|]. step. destruct (cap_segment_get_top_ok b Hb) as (b2 & top & -> & Hb2 & Hq2 & Hkt). step. rewrite Hq in *.
  rewrite (drain_ok cfg inherited M HM (cap_mark_rest top)
    (fun c => if negb (is_signal c) && bool_decide (ck_id c ∉ dom top) then SET_CHUNK c CHUNK_OUT_OF_ORDER else c)) by (done || (intros; apply cap_mark_rest_if)).
  step. exists keeps, (dom top). by rewrite Hq2.
Qed.

(** C25: the capping algorithm fails on no stream of the dedup phase and hands it
    over group by group, a group being the chunks that fill the buffer: of each
    group it keeps the containers with the most bytes, at most as many as the
    capping level, and marks exactly the duplicates in other containers (and, in
    what remains at the end of the stream, the unique chunks too). *)
Theorem cap_rewrite_keeps_top cs : Forall (chunk_ok M) cs ->
  let '(groups, rest) := cap_groups [] cs in
  (concat groups ++ rest = cs /\
   exists keeps kept, Forall2 cap_kept groups keeps /\ cap_kept rest kept /\
     cap_rewrite cfg inherited init_rewrite_buffer cs = Ok (concat (zip_with cap_judged keeps groups) ++ cap_judged_rest kept rest)) /\
  Forall (fun g => ncount g = rewrite_algorithm_1 cfg) groups /\ ncount rest < rewrite_algorithm_1 cfg.
Proof using HM LO SO.
  intros Hcs. pose proof (cap_groups_ok cs [] ltac:(change (ncount []) with 0; lia)) as Hg. pose proof (cap_rewrite_spec cs Hcs) as Hs.
  destruct (cap_groups [] cs) as [groups rest]. split; [exact Hs|apply Hg].
Qed.
End Cap.

(** ** Concrete runs *)

Definition dup_chunk (size id : Z) : chunk := mk_chunk size CHUNK_DUPLICATE id (zeros fp_size) None.
Definition unique_chunk (size : Z) : chunk := mk_chunk size CHUNK_UNIQUE TEMPORARY_ID (zeros fp_size) None.

Definition demo_rewrite (algorithm num : Z) : rewrite_config :=
  mk_rewrite_config algorithm num (d_div (d_of_Z 1) (d_of_Z 2)) (d_div (d_of_Z 1) (d_of_Z 20)) (d_div (d_of_Z 7) (d_of_Z 10)) 1 false.

#[local] Existing Instance std_seq_lookup.
#[local] Existing Instance std_seq_sort.
#[local] Existing Instance std_seq_lookup_ok.
#[local] Existing Instance std_seq_sort_ok.

#[export] Instance chunk_ok_dec M c : Decision (chunk_ok M c).
Proof. unfold chunk_ok, id_ok. apply _. Defined.

Definition demo_chunks : list chunk := [dup_chunk 4000 7; dup_chunk 100 9; unique_chunk 50; dup_chunk 4000 7; dup_chunk 200 8].

Lemma demo_chunks_ok : Forall (chunk_ok 65536) demo_chunks.
Proof. decide_it. Qed.

(** A run of container 7, one of container 9 with a unique chunk, ... *)
Lemma cfl_rewrite_runs_witness :
  map (map ck_size) (cfl_runs (demo_rewrite 1 4) TEMPORARY_ID [] demo_chunks) = [[4000]; [100]; [50; 4000]; [200]] /\
  cfl_rewrite (demo_rewrite 1 4) ∅ init_rewrite_buffer demo_chunks =
    Ok (concat (map (cfl_judged (demo_rewrite 1 4) ∅) (cfl_runs (demo_rewrite 1 4) TEMPORARY_ID [] demo_chunks))).
Proof.
  split; [reflexivity|]. assert (HM : 0 < rewrite_algorithm_1 (demo_rewrite 1 4) /\ rewrite_algorithm_1 (demo_rewrite 1 4) * 65536 < 2 ^ 31) by by split.
  destruct (cfl_rewrite_runs (demo_rewrite 1 4) ∅ 65536 HM demo_chunks demo_chunks_ok) as [E _]. exact E.
Defined.

Lemma cap_rewrite_keeps_top_witness : exists keeps kept,
  Forall2 (cap_kept (demo_rewrite 3 4)) [take 4 demo_chunks] keeps /\ cap_kept (demo_rewrite 3 4) (drop 4 demo_chunks) kept /\
  cap_rewrite (demo_rewrite 3 4) ∅ init_rewrite_buffer demo_chunks =
    Ok (concat (zip_with (cap_judged (demo_rewrite 3 4) ∅) keeps [take 4 demo_chunks]) ++ cap_judged_rest (demo_rewrite 3 4) ∅ kept (drop 4 demo_chunks)).
Proof.
  assert (HM : 0 < rewrite_algorithm_1 (demo_rewrite 3 4) /\ rewrite_algorithm_1 (demo_rewrite 3 4) * 65536 < 2 ^ 31) by by split.
  destruct (cap_rewrite_keeps_top (demo_rewrite 3 4) ∅ 65536 HM demo_chunks demo_chunks_ok) as ((_ & keeps & kept & Hk & Hr & E) & _).
  exists keeps, kept. exact (conj Hk (conj Hr E)).
Defined.
