(* ===== verification/Cbr.v ===== *)
(** Context-based rewriting: [destor/src/cbr_rewrite.c].

    When the rewrite buffer is full, its first chunk is decided on: it is marked
    if the buffer holds little of its container, and if its utility is among the
    highest ones seen so far, which a histogram of 10000 buckets tracks. *)

From S2P Require Import Prelude Glib Destor Double Container Har Rewrite.

Record utility_buckets := mk_ub {
  ub_chunk_num : Z;
  current_utility_threshold : double;
  min_index : Z;
  buckets : list Z;
}.

(** Access to an array, with its bounds. *)
Definition array_get (a : list Z) (i : Z) : res Z :=
  if 0 <=? i then match a !! Z.to_nat i with Some v => Ok v | None => Err EBounds end else Err EBounds.
Definition array_set (a : list Z) (i v : Z) : res (list Z) := _ ← array_get a i; Ok (<[Z.to_nat i := v]> a).

Section Cbr.
Context `{SL : !SeqLookup containerRecord} `{SR : !SeqSort containerRecord}.
Context (cfg : rewrite_config) (inherited_sparse_containers : gmap Z containerRecord).

Definition init_utility_buckets : res utility_buckets :=
  min_index ← (if d_eq (rewrite_cbr_minimal_utility cfg) (d_of_Z 1) then Ok 9999
               else d_to_int (d_mul (rewrite_cbr_minimal_utility cfg) (d_of_Z 10000)));
  Ok (mk_ub 0 (rewrite_cbr_minimal_utility cfg) min_index (zeros 10000)).

(** The utility of rewriting a chunk of a container of which [size] bytes are near. *)
Definition utility_of (size : Z) : double :=
  let coverage := d_div (d_of_Z size) (d_of_Z (CONTAINER_SIZE - CONTAINER_META_SIZE)) in
  if d_ge coverage (d_of_Z 1) then d_of_Z 0 else d_sub (d_of_Z 1) coverage.

(** The position and the record of a container in the buffer. *)
Definition find_record (b : rewrite_buffer) (id : Z) : res (nat * containerRecord) :=
  match seq_lookup g_record_cmp_by_id (id_record id) (container_record_seq b) with
  | None => Err EAssert
  | Some i => record ← deref (container_record_seq b !! i); Ok (i, record)
  end.

Definition get_rewrite_utility (b : rewrite_buffer) (c : chunk) : res double :=
  '(_, record) ← find_record b (ck_id c);
  Ok (utility_of (s32 (cr_size record + ck_size c))).

(** The loop down the histogram. *)
Fixpoint best_index (fuel : nat) (ub : utility_buckets) (best_num current_index count : Z) : res Z :=
  match fuel with
  | O => Err EFuel
  | S fuel =>
      if min_index ub <=? current_index then
        n ← array_get (buckets ub) current_index;
        let count := s32 (count + n) in
        if best_num <=? count then Ok current_index else best_index fuel ub best_num (current_index - 1) count
      else Ok current_index
  end.

Definition utility_buckets_update (ub : utility_buckets) (rewrite_utility : double) : res utility_buckets :=
  let num := s32 (ub_chunk_num ub + 1) in
  index ← (if d_ge rewrite_utility (d_of_Z 1) then Ok 9999 else d_to_int (d_mul rewrite_utility (d_of_Z 10000)));
  n ← array_get (buckets ub) index;
  bs ← array_set (buckets ub) index (s32 (n + 1));
  let ub := mk_ub num (current_utility_threshold ub) (min_index ub) bs in
  if 100 <=? num then
    best_num ← d_to_int (d_mul (d_of_Z num) (rewrite_cbr_limit cfg));
    current_index ← best_index (Z.to_nat 10001) ub best_num 9999 0;
    Ok (mk_ub num (d_div (d_of_Z (current_index + 1)) (d_of_Z 10000)) (min_index ub) bs)
  else Ok ub.

(** The first chunk that is no signal, and the signals before it. *)
Fixpoint skip_signals (fuel : nat) (b : rewrite_buffer) : res (rewrite_buffer * chunk * list chunk) :=
  match fuel with
  | O => Err EFuel
  | S fuel =>
      decision_chunk ← deref (rewrite_buffer_top b);
      if is_signal decision_chunk then
        '(b, _) ← rewrite_buffer_pop cfg inherited_sparse_containers b;
        '(b, c, out) ← skip_signals fuel b;
        Ok (b, c, decision_chunk :: out)
      else Ok (b, decision_chunk, [])
  end.

(** The record and the first chunk of the buffer are changed in place. *)
Definition set_record (b : rewrite_buffer) (i : nat) (r : containerRecord) : rewrite_buffer :=
  mk_rb (chunk_queue b) (<[i := r]> (container_record_seq b)) (rb_num b) (rb_size b).
Definition set_top (b : rewrite_buffer) (c : chunk) : rewrite_buffer :=
  mk_rb (<[0%nat := c]> (chunk_queue b)) (container_record_seq b) (rb_num b) (rb_size b).

(** The decision: the utility and the buffer. *)
Definition cbr_decide (b : rewrite_buffer) (ub : utility_buckets) (c : chunk) : res (double * rewrite_buffer) :=
  if negb (ck_id c =? TEMPORARY_ID) then
    _ ← c_assert (CHECK_CHUNK c CHUNK_DUPLICATE);
    '(i, record) ← find_record b (ck_id c);
    if out_of_order record =? 1 then
      u ← get_rewrite_utility b c;
      if d_lt u (rewrite_cbr_minimal_utility cfg) || d_lt u (current_utility_threshold ub)
      then Ok (u, set_record b i (mk_record (cr_cid record) (cr_size record) 0))
      else Ok (u, set_top b (SET_CHUNK c CHUNK_OUT_OF_ORDER))
    else Ok (d_of_Z 0, b)
  else Ok (d_of_Z 0, b).

Definition cbr_step (s : rewrite_buffer * utility_buckets * list chunk) (c : chunk) : res (rewrite_buffer * utility_buckets * list chunk) :=
  let '(b, ub, out) := s in
  '(b, full) ← rewrite_buffer_push cfg b c;
  if negb full then Ok (b, ub, out) else
  '(b, decision_chunk, signals) ← skip_signals (S (length (chunk_queue b))) b;
  '(rewrite_utility, b) ← cbr_decide b ub decision_chunk;
  ub ← utility_buckets_update ub rewrite_utility;
  '(b, decision_chunk) ← rewrite_buffer_pop cfg inherited_sparse_containers b;
  decision_chunk ← deref decision_chunk;
  Ok (b, ub, out ++ signals ++ [decision_chunk]).

Definition cbr_rewrite (b : rewrite_buffer) (dedup_queue : list chunk) : res (list chunk) :=
  ub ← init_utility_buckets;
  '(b, _, out) ← foldM cbr_step (b, ub, []) dedup_queue;
  '(_, remaining) ← drain cfg inherited_sparse_containers Ok b;
  Ok (out ++ remaining).
End Cbr.

(** ** The histogram *)

Lemma array_get_Ok a i : 0 <= i < zlen a -> exists v, array_get a i = Ok v.
Proof.
  intros Hi. unfold array_get. rewrite (proj2 (Z.leb_le 0 i)) by lia.
  destruct (lookup_lt_is_Some_2 a (Z.to_nat i)) as [v ->]; [unfold zlen in Hi; lia|]. by exists v.
Qed.

Lemma array_set_Ok a i v : 0 <= i < zlen a -> exists a', array_set a i v = Ok a' /\ zlen a' = zlen a.
Proof.
  intros Hi. unfold array_set. destruct (array_get_Ok a i Hi) as (n & ->). step. eexists. split; [reflexivity|]. unfold zlen. by rewrite length_insert.
Qed.

Record ub_ok (n : Z) (ub : utility_buckets) : Prop := {
  ub_num : ub_chunk_num ub = n;
  ub_min : 0 <= min_index ub;
  ub_len : zlen (buckets ub) = 10000;
}.

Lemma best_index_ok ub best fuel : forall i count, ub_ok (ub_chunk_num ub) ub -> -1 <= i < 10000 -> (Z.to_nat (i + 2) <= fuel)%nat ->
  exists k, best_index fuel ub best i count = Ok k.
Proof.
  induction fuel as [|fuel IH]; intros i count Hub Hi Hf; [lia|]. cbn [best_index]. pose proof Hub as [_ Hmin Hlen].
  destruct (Z.leb_spec (min_index ub) i); [|by eexists]. destruct (array_get_Ok (buckets ub) i) as (v & ->); [lia|]. step.
  destruct (best <=? _); [by eexists|]. apply IH; [done|lia|lia].
Qed.

Lemma utility_of_nonneg n : 0 <= n -> nonneg_d (utility_of n).
Proof.
  intros Hn. unfold utility_of. set (cov := d_div _ _). assert (Hc : nonneg_d cov).
  { unfold cov. change (d_of_Z (CONTAINER_SIZE - CONTAINER_META_SIZE)) with (ltac:(let x := eval vm_compute in (d_of_Z (CONTAINER_SIZE - CONTAINER_META_SIZE)) in exact x)).
    apply d_div_nonneg. by apply d_of_Z_nonneg. }
  destruct (d_ge cov (d_of_Z 1)) eqn:E; [done|by apply one_minus_nonneg].
Qed.

Section CbrOk.
Context `{SL : !SeqLookup containerRecord} `{SR : !SeqSort containerRecord}.
Context `{LO : !SeqLookupOk containerRecord} `{SO : !SeqSortOk containerRecord}.
Context (cfg : rewrite_config) (inherited : gmap Z containerRecord).
Context (M : Z) (HM : 0 < rewrite_algorithm_1 cfg /\ rewrite_algorithm_1 cfg * M < 2 ^ 30).
Context (HR : unit_ratio (rewrite_cbr_minimal_utility cfg) = true /\ unit_ratio (rewrite_cbr_limit cfg) = true).

Lemma init_utility_buckets_ok : exists ub, init_utility_buckets cfg = Ok ub /\ ub_ok 0 ub.
Proof using HR.
  destruct HR as [Hm _]. destruct (ratio_nonneg _ Hm) as [Hn Hg]. unfold init_utility_buckets.
  destruct (d_eq _ _) eqn:E.
  - step. eexists. split; [reflexivity|]. split; [done|cbn; lia|]. apply zlen_zeros. lia.
  - destruct (scaled_index _ Hn Hg) as (i & -> & Hi). step. eexists. split; [reflexivity|]. split; [done|cbn; lia|]. apply zlen_zeros. lia.
Qed.

(** The array is never accessed outside its bounds. *)
Lemma utility_buckets_update_ok n ub u : ub_ok n ub -> 0 <= n < 2 ^ 30 -> nonneg_d u ->
  exists ub', utility_buckets_update cfg ub u = Ok ub' /\ ub_ok (n + 1) ub'.
Proof using HR.
  intros Hub Hn Hu. pose proof Hub as [En Hmin Hlen]. destruct HR as [_ Hl]. unfold utility_buckets_update. rewrite En, s32_id by lia.
  assert (Hi : exists i, (if d_ge u (d_of_Z 1) then Ok 9999 else d_to_int (d_mul u (d_of_Z 10000))) = Ok i /\ 0 <= i < 10000).
  { destruct (d_ge u (d_of_Z 1)) eqn:E; [by exists 9999|]. by apply scaled_index. }
  destruct Hi as (i & -> & Hi). step. destruct (array_get_Ok (buckets ub) i) as (v & ->); [lia|]. step.
  destruct (array_set_Ok (buckets ub) i (s32 (v + 1))) as (bs & -> & Hbs); [lia|]. step.
  destruct (100 <=? n + 1); [|eexists; split; [reflexivity|]; split; cbn; lia].
  destruct (ratio_of_count (n + 1) _ ltac:(lia) Hl) as (best & -> & _). step.
  destruct (best_index_ok (mk_ub (n + 1) (current_utility_threshold ub) (min_index ub) bs) best (Z.to_nat 10001) 9999 0) as (k & ->); [split; cbn; lia|lia|lia|].
  step. eexists. split; [reflexivity|]. split; cbn; lia.
Qed.

(** ** The decision *)

Lemma small_buffer : 0 < rewrite_algorithm_1 cfg /\ rewrite_algorithm_1 cfg * M < 2 ^ 31.
Proof using HM. change (2 ^ 31) with (2 * 2 ^ 30). lia. Qed.

Lemma weigh_marked f c c' q : marked c c' -> (f c' = f c) -> weigh f (c' :: q) = weigh f (c :: q).
Proof using. intros Hm Hf. destruct (marked_fields _ _ Hm) as (E & _ & _ & _ & Es & _). by rewrite !weigh_cons, E, Es, Hf. Qed.

Lemma set_top_inv b c q c' : rb_inv cfg M b -> chunk_queue b = c :: q -> marked c c' ->
  rb_inv cfg M (set_top b c') /\ chunk_queue (set_top b c') = c' :: q.
Proof using.
  intros [Hq Hn Hz Hb Hr] Eq Hm. unfold set_top. rewrite Eq in *. cbn [chunk_queue insert list_insert]. split; [|done].
  destruct (marked_fields _ _ Hm) as (Esz & Eid & _ & _ & Es & Ed).
  split; cbn [chunk_queue rb_num rb_size container_record_seq insert list_insert].
  - apply Forall_cons in Hq as [Hc Hq]. constructor; [|done]. unfold chunk_ok. by rewrite Esz, Eid, Es, Ed.
  - by rewrite Hn, !ncount_cons, Es.
  - rewrite Hz. unfold total. by rewrite (weigh_marked _ c c').
  - by rewrite ncount_cons, Es, <- ncount_cons.
  - eapply records_ok_ext; [|exact Hr]. intros id. unfold weight. rewrite (weigh_marked _ c c'); [done|done|]. cbn. by rewrite Eid.
Qed.

Lemma weight_bounds q id : Forall (chunk_ok M) q -> ncount q <= rewrite_algorithm_1 cfg -> 0 <= weight q id < 2 ^ 30.
Proof using HM.
  intros Hq Hn. pose proof (weigh_bounds M (fun c => ck_id c =? id) q Hq) as Hw. change (weigh _ q) with (weight q id) in Hw.
  pose proof (ncount_nonneg q). nia.
Qed.

Lemma find_record_ok b c q : rb_inv cfg M b -> chunk_queue b = c :: q -> is_signal c = false -> ck_id c <> TEMPORARY_ID ->
  exists l1 r l2, find_record b (ck_id c) = Ok (length l1, r) /\ container_record_seq b = l1 ++ r :: l2 /\
    cr_cid r = ck_id c /\ cr_size r = weight (c :: q) (ck_id c) /\ 0 < cr_size r.
Proof using LO.
  intros [Hq _ _ _ Hr] Eq Es Hid. rewrite Eq in *. apply Forall_cons in Hq as [Hc Hq]. destruct (Hc Es) as [Hsz Hio]. destruct (Hio Hid) as [_ Hio'].
  unfold find_record. pose proof (record_lookup _ _ (ck_id c) Hr Hio') as Hl. destruct (seq_lookup _ _ _) as [i|].
  - destruct Hl as (l1 & r & l2 & E & -> & Er). exists l1, r, l2. rewrite E, list_lookup_middle by done. cbn [deref]. step.
    pose proof (ro_size _ _ Hr) as Hz. rewrite E in Hz. apply Forall_app in Hz as [_ [[Hz Hp] _]%Forall_cons]. rewrite Er in Hz, Hp. split_and!; try done. lia.
  - destruct Hl. apply (ro_all _ _ Hr); [done|]. unfold weight. rewrite weigh_cons, Es, Z.eqb_refl. cbn [negb andb].
    pose proof (weigh_bounds M (fun c' => ck_id c' =? ck_id c) q Hq). lia.
Qed.

(** Whether a chunk of a container with [n] bytes in the buffer may be marked. *)
Definition may_mark (n : Z) : Prop := d_lt (utility_of n) (rewrite_cbr_minimal_utility cfg) = false.

Lemma cbr_decide_ok b ub c q : rb_inv cfg M b -> chunk_queue b = c :: q -> is_signal c = false ->
  exists u b' c', cbr_decide cfg b ub c = Ok (u, b') /\ nonneg_d u /\ rb_inv cfg M b' /\ chunk_queue b' = c' :: q /\
    (c' = c \/ (c' = SET_CHUNK c CHUNK_OUT_OF_ORDER /\ ck_id c <> TEMPORARY_ID /\ may_mark (weight (c :: q) (ck_id c) + ck_size c))).
Proof using HM LO SO.
  intros Hb Eq Es. unfold cbr_decide. destruct (Z.eqb_spec (ck_id c) TEMPORARY_ID) as [|Hid]; cbn [negb].
  { exists (d_of_Z 0), b, c. split_and!; try done. by left. }
  destruct (find_record_ok b c q Hb Eq Es Hid) as (l1 & r & l2 & Ef & El & Er & Ez & Hp).
  pose proof (rb_chunks _ _ _ Hb) as Hq. rewrite Eq in Hq. pose proof Hq as [Hc _]%Forall_cons. destruct (Hc Es) as [Hsz [-> _]]; [done|].
  pose proof (rb_bound _ _ _ Hb) as Hn. rewrite Eq in Hn. pose proof (weight_bounds (c :: q) (ck_id c) Hq Hn) as Hw.
  cbn [c_assert]. step. rewrite Ef. step. destruct (Z.eqb_spec (out_of_order r) 1) as [Eo|Eo].
  - unfold get_rewrite_utility. rewrite Ef. step. step. rewrite Ez, s32_id by (change (2 ^ 31) with (2 * 2 ^ 30); pose proof small_buffer; nia).
    pose proof (utility_of_nonneg (weight (c :: q) (ck_id c) + ck_size c) ltac:(lia)) as Hu.
    destruct (d_lt (utility_of (weight (c :: q) (ck_id c) + ck_size c)) (rewrite_cbr_minimal_utility cfg)) eqn:E1; cbn [orb].
    2: destruct (d_lt (utility_of (weight (c :: q) (ck_id c) + ck_size c)) (current_utility_threshold ub)) eqn:E2.
    3: { destruct (set_top_inv b c q (SET_CHUNK c CHUNK_OUT_OF_ORDER) Hb Eq (marked_out_of_order c)) as [Hb' Eq'].
         eexists _, _, (SET_CHUNK c CHUNK_OUT_OF_ORDER). split; [reflexivity|]. split; [done|]. split; [done|]. split; [done|]. by right. }
    all: eexists _, _, c; split; [reflexivity|]; split; [done|]; split; [|split; [done|by left]].
    all: destruct Hb as [H1 H2 H3 H4 H5]; split; cbn [set_record chunk_queue rb_num rb_size container_record_seq]; try done; rewrite El in *.
    all: rewrite insert_app_r_alt, Nat.sub_diag by lia; cbn [insert list_insert]; rewrite ?Ez.
    all: eapply records_ok_ext; [|apply records_set; [exact H5|lia]]; intros id; unfold bump; rewrite Er, Eq; destruct (Z.eqb_spec id (ck_id c)) as [->|]; lia.
  - exists (d_of_Z 0), b, c. split_and!; try done. by left.
Qed.

Lemma popped_signal c : is_signal c = true -> popped cfg inherited c = c.
Proof using. unfold popped. by intros ->. Qed.

Lemma skip_signals_ok fuel : forall b, rb_inv cfg M b -> 0 < ncount (chunk_queue b) -> (length (chunk_queue b) < fuel)%nat ->
  exists b' c q signals, skip_signals cfg inherited fuel b = Ok (b', c, signals) /\ rb_inv cfg M b' /\ chunk_queue b' = c :: q /\
    chunk_queue b = signals ++ c :: q /\ is_signal c = false /\ Forall (fun c => is_signal c = true) signals.
Proof using HM LO SO.
  induction fuel as [|fuel IH]; intros b Hb Hn Hf; [lia|]. cbn [skip_signals]. unfold rewrite_buffer_top.
  destruct (chunk_queue b) as [|c q] eqn:Eq; [change (ncount []) with 0 in Hn; lia|]. cbn [head deref]. step. destruct (is_signal c) eqn:Es.
  - destruct (rewrite_buffer_pop_ok cfg inherited M small_buffer b c q Hb Eq) as (b1 & -> & Hb1 & Eq1). step.
    rewrite ncount_cons, Es in Hn. cbn in Hf. destruct (IH b1 Hb1) as (b2 & c2 & q2 & sigs & -> & Hb2 & Eq2 & E & Es2 & Hs); [by rewrite Eq1|rewrite Eq1; lia|]. step.
    exists b2, c2, q2, (c :: sigs). rewrite Eq1 in E. subst q. split_and!; try done; [cbn [app]; by rewrite E|by constructor].
  - exists b, c, q, []. by split_and!.
Qed.

(** What becomes of the [i]th chunk of the stream: it is marked as out of order
    only if it is a duplicate and the buffer that starts with it holds too little
    of its container. *)
Definition cbr_rel (cs : list chunk) (i : nat) (c c' : chunk) : Prop :=
  c' = popped cfg inherited c \/
  (c' = popped cfg inherited (SET_CHUNK c CHUNK_OUT_OF_ORDER) /\ is_signal c = false /\ ck_id c <> TEMPORARY_ID /\
   exists q rest, drop i cs = c :: q ++ rest /\ ncount (c :: q) = rewrite_algorithm_1 cfg /\ may_mark (weight (c :: q) (ck_id c) + ck_size c)).

(** The chunks of [pre] have been handed over. *)
Definition cbr_done (cs pre out : list chunk) : Prop :=
  length out = length pre /\ forall i c c', pre !! i = Some c -> out !! i = Some c' -> cbr_rel cs i c c'.

Lemma cbr_done_app cs pre out l l' : cbr_done cs pre out -> length l' = length l ->
  (forall i c c', l !! i = Some c -> l' !! i = Some c' -> cbr_rel cs (length pre + i) c c') -> cbr_done cs (pre ++ l) (out ++ l').
Proof using.
  intros [Hlen Hrel] Hl Hr. split; [rewrite !length_app; lia|]. intros i c c' Hc Hc'.
  destruct (decide (i < length pre)%nat) as [Hi|Hi].
  - rewrite lookup_app_l in Hc by done. rewrite lookup_app_l in Hc' by lia. eauto.
  - rewrite lookup_app_r in Hc by lia. rewrite lookup_app_r, Hlen in Hc' by lia.
    replace i with (length pre + (i - length pre))%nat by lia. eauto.
Qed.

Definition cbr_state (cs : list chunk) (s : rewrite_buffer * utility_buckets * list chunk) (seen : list chunk) : Prop :=
  let '(b, ub, out) := s in
  exists pre, seen = pre ++ chunk_queue b /\ cbr_done cs pre out /\ rb_inv cfg M b /\ ncount (chunk_queue b) < rewrite_algorithm_1 cfg /\
    ub_ok (ub_chunk_num ub) ub /\ 0 <= ub_chunk_num ub <= zlen seen.

Lemma cbr_step_ok cs s seen c todo : Forall (chunk_ok M) cs -> zlen cs < 2 ^ 30 -> cs = seen ++ c :: todo -> cbr_state cs s seen ->
  exists s', cbr_step cfg inherited s c = Ok s' /\ cbr_state cs s' (seen ++ [c]).
Proof using HM HR LO SO.
  intros Hcs Hlen Ecs Hs. destruct s as [[b ub] out]. destruct Hs as (pre & Eseen & Hdone & Hb & Hn & Hub & Hcount).
  assert (Hc : chunk_ok M c) by (rewrite Ecs in Hcs; by apply Forall_app in Hcs as [_ [? _]%Forall_cons]).
  unfold cbr_step. destruct (rewrite_buffer_push_ok cfg M small_buffer b c Hb Hc Hn) as (b1 & -> & Hb1 & Eq1). step.
  assert (Hz : zlen (seen ++ [c]) = zlen seen + 1) by (rewrite zlen_app; done).
  destruct (negb (is_signal c) && (rewrite_algorithm_1 cfg <=? ncount (chunk_queue b ++ [c]))) eqn:E; cbn [negb].
  - apply andb_prop in E as [E1 E2]. apply negb_true_iff in E1. apply Z.leb_le in E2.
    assert (Hfull : ncount (chunk_queue b ++ [c]) = rewrite_algorithm_1 cfg).
    { pose proof (rb_bound _ _ _ Hb1) as Hle. rewrite Eq1 in Hle. lia. }
    destruct (skip_signals_ok (S (length (chunk_queue b1))) b1 Hb1) as (b2 & d & q & sigs & -> & Hb2 & Eq2 & Eq12 & Ed & Hsigs); [rewrite Eq1; lia|lia|]. step.
    destruct (cbr_decide_ok b2 ub d q Hb2 Eq2 Ed) as (u & b3 & d' & -> & Hu & Hb3 & Eq3 & Hd). step.
    assert (Hbound : zlen seen + 1 < 2 ^ 30) by (rewrite Ecs, zlen_app, zlen_cons in Hlen; pose proof (zlen_nonneg todo); lia).
    destruct (utility_buckets_update_ok (ub_chunk_num ub) ub u Hub ltac:(lia) Hu) as (ub' & -> & Hub'). step.
    destruct (rewrite_buffer_pop_ok cfg inherited M small_buffer b3 d' q Hb3 Eq3) as (b4 & -> & Hb4 & Eq4). step. cbn [deref]. step.
    eexists. split; [reflexivity|]. rewrite Eq1 in Eq12.
    assert (Esc : seen ++ [c] = (pre ++ sigs ++ [d]) ++ q) by (rewrite Eseen, <- app_assoc, Eq12, <- !app_assoc; done).
    assert (Hns : ncount sigs = 0).
    { clear - Hsigs. induction Hsigs as [|s l Hs _ IH]; [done|]. by rewrite ncount_cons, Hs, IH. }
    assert (Hnq : ncount (d :: q) = rewrite_algorithm_1 cfg) by (rewrite Eq12, ncount_app in Hfull; lia).
    exists (pre ++ sigs ++ [d]). rewrite Eq4. split; [done|]. split; [|split; [done|split; [rewrite ncount_cons, Ed in Hnq; lia|]]].
    2: { rewrite Hz. pose proof (ub_num _ _ Hub') as En. rewrite En. split; [done|lia]. }
    apply cbr_done_app; [done|rewrite !length_app; done|]. intros i x x' Hx Hx'. destruct (decide (i < length sigs)%nat) as [Hi|Hi].
    + rewrite lookup_app_l in Hx by done. rewrite lookup_app_l in Hx' by done. assert (x' = x) as -> by congruence.
      left. rewrite popped_signal; [done|]. rewrite Forall_lookup in Hsigs. eauto.
    + rewrite lookup_app_r in Hx by lia. rewrite lookup_app_r in Hx' by lia. apply list_lookup_singleton_Some in Hx as [Ei <-]. apply list_lookup_singleton_Some in Hx' as [_ <-].
      destruct Hd as [->|(-> & Hid & Hmay)]; [by left|]. right. split; [done|]. split; [done|]. split; [done|]. exists q, todo. split; [|done].
      assert (Ecs' : cs = (pre ++ sigs) ++ d :: q ++ todo) by (rewrite Ecs; change (c :: todo) with ([c] ++ todo); rewrite app_assoc, Esc, <- !app_assoc; done).
      rewrite Ecs'. apply drop_app_length'. rewrite length_app. lia.
  - eexists. split; [reflexivity|]. exists pre. rewrite Eq1. split; [by rewrite Eseen, <- app_assoc|]. do 2 (split; [done|]). split; [|split; [done|lia]].
    apply andb_false_iff in E. rewrite ncount_app, ncount_cons in *. change (ncount []) with 0 in *.
    destruct (is_signal c); cbn [negb] in E; [lia|]. destruct E as [?|E]; [done|]. apply Z.leb_gt in E. lia.
Qed.

Lemma cbr_loop cs : Forall (chunk_ok M) cs -> zlen cs < 2 ^ 30 ->
  exists ub s, init_utility_buckets cfg = Ok ub /\ foldM (cbr_step cfg inherited) (init_rewrite_buffer, ub, []) cs = Ok s /\ cbr_state cs s cs.
Proof using HM HR LO SO.
  intros Hcs Hlen. destruct init_utility_buckets_ok as (ub & E & Hub). exists ub.
  destruct (foldM_steps (cbr_step cfg inherited) (cbr_state cs) cs (init_rewrite_buffer, ub, [])) as (s & Es & Hs).
  - intros. by eapply cbr_step_ok.
  - exists []. split; [done|]. split; [by split|]. split; [apply init_rewrite_buffer_inv, small_buffer|]. split; [cbn; change (ncount []) with 0; lia|].
    rewrite (ub_num _ _ Hub). split; [done|]. rewrite (@zlen_nil chunk). lia.
  - exists s. by split_and!.
Qed.

Lemma cbr_rewrite_rel cs : Forall (chunk_ok M) cs -> zlen cs < 2 ^ 30 ->
  exists out, cbr_rewrite cfg inherited init_rewrite_buffer cs = Ok out /\ cbr_done cs cs out.
Proof using HM HR LO SO.
  intros Hcs Hlen. unfold cbr_rewrite. destruct (cbr_loop cs Hcs Hlen) as (ub & s & -> & E & Hs). step. rewrite E. step.
  destruct s as [[b ub'] out]. destruct Hs as (pre & Ep & Hdone & Hb & _ & _).
  rewrite (drain_ok cfg inherited M small_buffer Ok (fun c => c)) by done. step. eexists. split; [reflexivity|]. rewrite Ep at 2.
  apply cbr_done_app; [done|by rewrite length_map|]. intros i c c' Hc Hc'. left. rewrite list_lookup_fmap, Hc in Hc'. cbn in Hc'. congruence.
Qed.

(** C27: the CBR algorithm fails on no stream of the dedup phase; in particular
    the histogram of utilities is never accessed outside its 10000 buckets. A
    chunk is marked as out of order only if it is a duplicate and the full
    buffer that starts with it holds so little of its container that the utility
    of rewriting it reaches the configured minimum. *)
Theorem cbr_rewrite_decides cs : Forall (chunk_ok M) cs -> zlen cs < 2 ^ 30 ->
  exists out, cbr_rewrite cfg inherited init_rewrite_buffer cs = Ok out /\ length out = length cs /\
    forall i c c', cs !! i = Some c -> out !! i = Some c' -> cbr_rel cs i c c'.
Proof using HM HR LO SO. apply cbr_rewrite_rel. Qed.
End CbrOk.

(** ** A concrete run *)

#[local] Existing Instance std_seq_lookup.
#[local] Existing Instance std_seq_sort.
#[local] Existing Instance std_seq_lookup_ok.
#[local] Existing Instance std_seq_sort_ok.

(** The first two duplicates are marked: the buffer holds little of their containers. *)
Lemma cbr_rewrite_decides_witness :
  match cbr_rewrite (demo_rewrite 2 4) ∅ init_rewrite_buffer demo_chunks with
  | Ok out => bool_decide (map (fun c => Z.land (ck_flag c) CHUNK_OUT_OF_ORDER) out = [1024; 1024; 0; 0; 0])
  | Err _ => false
  end = true /\
  exists out, cbr_rewrite (demo_rewrite 2 4) ∅ init_rewrite_buffer demo_chunks = Ok out /\ length out = length demo_chunks /\
    forall i c c', demo_chunks !! i = Some c -> out !! i = Some c' -> cbr_rel (demo_rewrite 2 4) ∅ demo_chunks i c c'.
Proof.
  split; [vm_compute; reflexivity|].
  assert (HM : 0 < rewrite_algorithm_1 (demo_rewrite 2 4) /\ rewrite_algorithm_1 (demo_rewrite 2 4) * 65536 < 2 ^ 30) by by split.
  assert (HR : unit_ratio (rewrite_cbr_minimal_utility (demo_rewrite 2 4)) = true /\ unit_ratio (rewrite_cbr_limit (demo_rewrite 2 4)) = true) by (split; vm_compute; reflexivity).
  apply (cbr_rewrite_decides (demo_rewrite 2 4) ∅ 65536 HM HR demo_chunks demo_chunks_ok). reflexivity.
Defined.
