(* ===== verification/RewritePhase.v ===== *)
(** The rewriting thread as a whole: [start_rewrite_phase] of
    [destor/src/rewrite_phase.c], what every algorithm does to the stream, and
    how it holds chunks back from the filter phase. *)

From S2P Require Import Prelude Glib Destor Double Container Recipe Segmenting Sampling KvStore Index IndexInv Filter FilterInv DedupPhase Backup Har Rewrite Cbr.

Definition REWRITE_CFL_SELECTIVE_DEDUPLICATION := 1.
Definition REWRITE_CONTEXT_BASED := 2.
Definition REWRITE_CAPPING := 3.

Section Phase.
Context `{SL : !SeqLookup containerRecord} `{SR : !SeqSort containerRecord}.
Context (cfg : rewrite_config) (inherited_sparse_containers : gmap Z containerRecord).

(** The actions of the thread of the configured algorithm on its queue. *)
Definition start_rewrite_phase (dedup_queue : list chunk) : res (list action) :=
  let thread := Rewrite.rewrite_algorithm_0 cfg in
  if thread =? REWRITE_NO then Ok (no_rewrite cfg inherited_sparse_containers dedup_queue)
  else if thread =? REWRITE_CFL_SELECTIVE_DEDUPLICATION then
    out ← cfl_rewrite cfg inherited_sparse_containers init_rewrite_buffer dedup_queue; Ok (map Push out)
  else if thread =? REWRITE_CONTEXT_BASED then
    out ← cbr_rewrite cfg inherited_sparse_containers init_rewrite_buffer dedup_queue; Ok (map Push out)
  else if thread =? REWRITE_CAPPING then
    out ← cap_rewrite cfg inherited_sparse_containers init_rewrite_buffer dedup_queue; Ok (map Push out)
  else Err (EExit 1).

(** The chunks as they are when they are pushed. *)
Definition pushed (l : list action) : list chunk := omap (fun a => match a with Push c => Some c | Mark _ => None end) l.

(** The same threads after the chunks they have taken so far: the chunks that
    wait in the buffer, and those that have been handed over. *)
Definition rewrite_run (taken : list chunk) : res (list chunk * list chunk) :=
  let thread := Rewrite.rewrite_algorithm_0 cfg in
  if thread =? REWRITE_NO then Ok ([], taken)
  else if thread =? REWRITE_CFL_SELECTIVE_DEDUPLICATION then
    '(_, _, b, out) ← foldM (cfl_step cfg inherited_sparse_containers) (TEMPORARY_ID, false, init_rewrite_buffer, []) taken; Ok (chunk_queue b, out)
  else if thread =? REWRITE_CONTEXT_BASED then
    ub ← init_utility_buckets cfg;
    '(b, _, out) ← foldM (cbr_step cfg inherited_sparse_containers) (init_rewrite_buffer, ub, []) taken; Ok (chunk_queue b, out)
  else if thread =? REWRITE_CAPPING then
    '(b, out) ← foldM (cap_step cfg inherited_sparse_containers) (init_rewrite_buffer, []) taken; Ok (chunk_queue b, out)
  else Err (EExit 1).

Context `{LO : !SeqLookupOk containerRecord} `{SO : !SeqSortOk containerRecord}.

(** A configuration the threads can run with: an algorithm, a buffer of less
    than 1 GB, and for CBR ratios between 0 and 1. *)
Record rewrite_ok (M : Z) : Prop := {
  rw_algorithm : 0 <= Rewrite.rewrite_algorithm_0 cfg <= 3;
  rw_buffer : 0 < rewrite_algorithm_1 cfg /\ rewrite_algorithm_1 cfg * M < 2 ^ 30;
  rw_ratios : Rewrite.rewrite_algorithm_0 cfg = REWRITE_CONTEXT_BASED ->
    unit_ratio (rewrite_cbr_minimal_utility cfg) = true /\ unit_ratio (rewrite_cbr_limit cfg) = true;
}.

Context (M : Z) (RO : rewrite_ok M).

Lemma rw_buffer_31 : 0 < rewrite_algorithm_1 cfg /\ rewrite_algorithm_1 cfg * M < 2 ^ 31.
Proof using RO. apply (small_buffer cfg M), (rw_buffer M RO). Qed.

(** What becomes of a chunk: signals are handed over as they are. *)
Definition passed (c c' : chunk) : Prop := marked c c' /\ (is_signal c = true -> c' = c).

#[local] Instance passed_refl : Reflexive passed.
Proof using. intros c. by split. Qed.

#[local] Instance passed_trans : Transitive passed.
Proof using.
  intros c1 c2 c3 [H12 S12] [H23 S23]. split; [by etransitivity|]. intros Hs. specialize (S12 Hs). subst c2. auto.
Qed.

(** The algorithms mark no signal. *)
Lemma passed_if (b : bool) c : (is_signal c = true -> b = false) ->
  passed c (let c' := popped cfg inherited_sparse_containers c in if b then SET_CHUNK c' CHUNK_OUT_OF_ORDER else c').
Proof using.
  intros Hb. cbn. pose proof (popped_marked cfg inherited_sparse_containers c) as Hp. split.
  - destruct b; [|done]. etransitivity; [exact Hp|apply marked_out_of_order].
  - intros Hs. rewrite (Hb Hs). unfold popped. by rewrite Hs.
Qed.

Lemma popped_is_signal c : is_signal (popped cfg inherited_sparse_containers c) = is_signal c.
Proof using. by destruct (marked_fields _ _ (popped_marked cfg inherited_sparse_containers c)) as (_ & _ & _ & _ & ? & _). Qed.

Lemma cfl_judged_passed run : Forall2 passed run (cfl_judged cfg inherited_sparse_containers run).
Proof using. apply forall2_map. intros c _. apply passed_if. intros E. cbn. by rewrite popped_is_signal, E. Qed.

Lemma cap_judged_passed kept group : Forall2 passed group (cap_judged cfg inherited_sparse_containers kept group).
Proof using. apply forall2_map. intros c _. apply passed_if. intros E. cbn. by rewrite popped_is_signal, E. Qed.

Lemma cap_judged_rest_passed kept group : Forall2 passed group (cap_judged_rest cfg inherited_sparse_containers kept group).
Proof using. apply forall2_map. intros c _. apply passed_if. intros E. cbn. by rewrite popped_is_signal, E. Qed.

Lemma concat_passed (gs gs' : list (list chunk)) : Forall2 (Forall2 passed) gs gs' -> Forall2 passed (concat gs) (concat gs').
Proof using. induction 1; cbn [concat]; [constructor|]. by apply Forall2_app. Qed.

Lemma zip_judged_passed groups keeps : length keeps = length groups ->
  Forall2 passed (concat groups) (concat (zip_with (cap_judged cfg inherited_sparse_containers) keeps groups)).
Proof using.
  intros Hl. apply concat_passed. revert keeps Hl. induction groups as [|g gs IH]; intros [|k ks] Hl; cbn; try done; constructor; [apply cap_judged_passed|].
  apply IH. cbn in Hl. lia.
Qed.

Lemma cbr_done_passed cs pre out : cbr_done cfg inherited_sparse_containers cs pre out -> Forall2 passed pre out.
Proof using.
  intros [Hl Hr]. apply Forall2_same_length_lookup_2; [done|]. intros i c c' Hc Hc'. destruct (Hr i c c' Hc Hc') as [->|(-> & Hs & _)].
  - by apply (passed_if false).
  - split; [|by rewrite Hs]. etransitivity; [apply marked_out_of_order|apply popped_marked].
Qed.

Lemma pushed_map out : pushed (map Push out) = out.
Proof using. unfold pushed. induction out as [|c out IH]; [done|]. cbn. by rewrite IH. Qed.

Lemma pushed_no_rewrite cs : pushed (no_rewrite cfg inherited_sparse_containers cs) = cs.
Proof using.
  unfold pushed, no_rewrite, no_rewrite_round. induction cs as [|c cs IH]; [done|]. cbn [map concat app]. cbn.
  f_equal. destruct (_ && _); cbn; exact IH.
Qed.

Lemma rewriting_passes cs : Forall (chunk_ok M) cs -> zlen cs < 2 ^ 30 ->
  exists l, start_rewrite_phase cs = Ok l /\ Forall2 passed cs (pushed l) /\
    (Rewrite.rewrite_algorithm_0 cfg = REWRITE_NO -> pushed l = cs).
Proof using RO LO SO.
  intros Hcs Hlen. pose proof rw_buffer_31 as HM. unfold start_rewrite_phase.
  destruct (Z.eqb_spec (Rewrite.rewrite_algorithm_0 cfg) REWRITE_NO) as [E0|E0].
  { eexists. split; [reflexivity|]. rewrite pushed_no_rewrite. split; [reflexivity|done]. }
  destruct (Z.eqb_spec (Rewrite.rewrite_algorithm_0 cfg) REWRITE_CFL_SELECTIVE_DEDUPLICATION) as [E1|E1].
  { destruct (cfl_rewrite_spec cfg inherited_sparse_containers M HM cs Hcs) as [-> Ec]. step. eexists. split; [reflexivity|]. rewrite pushed_map.
    split; [|done]. rewrite <- Ec at 1. apply concat_passed, forall2_map. intros. apply cfl_judged_passed. }
  destruct (Z.eqb_spec (Rewrite.rewrite_algorithm_0 cfg) REWRITE_CONTEXT_BASED) as [E2|E2].
  { destruct (cbr_rewrite_rel cfg inherited_sparse_containers M (rw_buffer M RO) (rw_ratios M RO E2) cs Hcs Hlen) as (out & -> & Hd). step.
    eexists. split; [reflexivity|]. rewrite pushed_map. split; [by eapply cbr_done_passed|done]. }
  rewrite (proj2 (Z.eqb_eq _ REWRITE_CAPPING)) by (pose proof (rw_algorithm M RO); unfold REWRITE_NO, REWRITE_CFL_SELECTIVE_DEDUPLICATION, REWRITE_CONTEXT_BASED, REWRITE_CAPPING in *; lia).
  pose proof (cap_rewrite_spec cfg inherited_sparse_containers M HM cs Hcs) as Hs. destruct (cap_groups cfg [] cs) as [groups rest].
  destruct Hs as (Ec & keeps & kept & Hk & _ & ->). step. eexists. split; [reflexivity|]. rewrite pushed_map. split; [|done].
  rewrite <- Ec. apply Forall2_app; [|apply cap_judged_rest_passed]. apply zip_judged_passed. by rewrite (Forall2_length _ _ _ Hk).
Qed.

(** C14: the rewriting thread ends without failing on every stream of the dedup
    phase, for each of the four algorithms; it hands over every chunk, in order
    and with its content, size, container and duplicate flag, a normal chunk marked
    at most as sparse or out of order. Without an algorithm the chunks are handed over as
    they are. *)
Theorem rewriting_keeps_stream cs : Forall (chunk_ok M) cs -> zlen cs < 2 ^ 30 ->
  exists l, start_rewrite_phase cs = Ok l /\ Forall2 passed cs (pushed l) /\
    (Rewrite.rewrite_algorithm_0 cfg = REWRITE_NO -> pushed l = cs).
Proof using RO LO SO. apply rewriting_passes. Qed.

(** ** What is held back *)

Definition ends_with_signal (cs : list chunk) : Prop := exists c, last cs = Some c /\ is_signal c = true.

(** What a thread has handed over and what it holds, after the chunks it has
    taken: fewer than a full buffer if the last one is a signal. *)
Definition holds_back (taken held out : list chunk) : Prop :=
  Forall2 passed taken (out ++ held) /\ ncount held <= rewrite_algorithm_1 cfg /\
  (ends_with_signal taken -> ncount held < rewrite_algorithm_1 cfg).

Lemma last_snoc_signal cs c : ends_with_signal (cs ++ [c]) -> is_signal c = true.
Proof using. intros (c' & Hl & Hs). rewrite last_snoc in Hl. congruence. Qed.

Lemma cfl_run_ok cs : Rewrite.rewrite_algorithm_0 cfg = REWRITE_CFL_SELECTIVE_DEDUPLICATION -> Forall (chunk_ok M) cs ->
  exists held out, rewrite_run cs = Ok (held, out) /\ holds_back cs held out.
Proof using RO LO SO.
  intros Ea Hcs. pose proof rw_buffer_31 as HM. unfold rewrite_run. rewrite Ea. cbn [Z.eqb REWRITE_NO REWRITE_CFL_SELECTIVE_DEDUPLICATION Pos.eqb].
  destruct (foldM_run (cfl_step cfg inherited_sparse_containers)
    (fun s seen => let '(_, full, b, out) := s in full = (rewrite_algorithm_1 cfg <=? ncount (chunk_queue b)) /\ rb_inv cfg M b /\
       holds_back seen (chunk_queue b) out) (chunk_ok M) cs (TEMPORARY_ID, false, init_rewrite_buffer, [])) as (s & -> & Hs); [| |done|].
  - intros [[[last_id full] b] out] seen c (-> & Hb & Hm & Hn & _) Hc.
    destruct (cfl_step_ok cfg inherited_sparse_containers M HM last_id b out c Hb Hc) as (b' & -> & Hb' & Hq'). eexists. split; [reflexivity|].
    split; [done|]. split; [done|]. rewrite Hq'. destruct (cfl_ends cfg last_id (chunk_queue b) c) eqn:Ee; split.
    + rewrite <- app_assoc. assert (Hj := cfl_judged_passed (chunk_queue b)). rewrite app_assoc. apply Forall2_app; [|by constructor].
      apply Forall2_app_inv_r in Hm as (t1 & t2 & Hm1 & Hm2 & ->). apply Forall2_app; [done|]. etransitivity; [exact Hm2|exact Hj].
    + split; [rewrite ncount_cons; change (ncount []) with 0; destruct (is_signal c); lia|]. intros Hl%last_snoc_signal.
      rewrite ncount_cons, Hl. change (ncount []) with 0. lia.
    + rewrite app_assoc. apply Forall2_app; [done|by constructor].
    + apply orb_false_elim in Ee as [_ Ee]. apply Z.leb_gt in Ee. rewrite ncount_app, ncount_cons. change (ncount []) with 0.
      split; [destruct (is_signal c); lia|]. intros ->%last_snoc_signal. lia.
  - split; [|split; [by apply init_rewrite_buffer_inv|]]; [symmetry; apply Z.leb_gt; cbn; change (ncount []) with 0; lia|].
    split; [constructor|]. cbn [chunk_queue init_rewrite_buffer]. change (ncount []) with 0. split; [lia|intros _; lia].
  - destruct s as [[[l f] b] out]. destruct Hs as (_ & _ & Hh). step. by do 2 eexists.
Qed.

Lemma cap_run_ok cs : Rewrite.rewrite_algorithm_0 cfg = REWRITE_CAPPING -> Forall (chunk_ok M) cs ->
  exists held out, rewrite_run cs = Ok (held, out) /\ holds_back cs held out.
Proof using RO LO SO.
  intros Ea Hcs. pose proof rw_buffer_31 as HM. unfold rewrite_run. rewrite Ea. cbn [Z.eqb REWRITE_NO REWRITE_CFL_SELECTIVE_DEDUPLICATION REWRITE_CONTEXT_BASED REWRITE_CAPPING Pos.eqb].
  destruct (cap_loop cfg inherited_sparse_containers M HM cs init_rewrite_buffer [] Hcs (init_rewrite_buffer_inv cfg M HM)) as (b & keeps & -> & Hk & Hb & Hq); [cbn; change (ncount []) with 0; lia|].
  step. pose proof (cap_groups_ok cfg M HM cs [] ltac:(change (ncount []) with 0; lia)) as Hg. cbn [chunk_queue init_rewrite_buffer app] in *.
  destruct (cap_groups cfg [] cs) as [groups rest]. cbn [fst snd] in *. destruct Hg as (Ec & _ & Hn). do 2 eexists. split; [reflexivity|]. rewrite Hq. split; [|lia].
  rewrite <- Ec. apply Forall2_app; [|done]. apply zip_judged_passed. by rewrite (Forall2_length _ _ _ Hk).
Qed.

Lemma cbr_run_ok cs : Rewrite.rewrite_algorithm_0 cfg = REWRITE_CONTEXT_BASED -> Forall (chunk_ok M) cs -> zlen cs < 2 ^ 30 ->
  exists held out, rewrite_run cs = Ok (held, out) /\ holds_back cs held out.
Proof using RO LO SO.
  intros Ea Hcs Hlen. pose proof (rw_ratios M RO Ea) as HR. unfold rewrite_run. rewrite Ea. cbn [Z.eqb REWRITE_NO REWRITE_CFL_SELECTIVE_DEDUPLICATION REWRITE_CONTEXT_BASED Pos.eqb].
  destruct (cbr_loop cfg inherited_sparse_containers M (rw_buffer M RO) HR cs Hcs Hlen) as (ub & s & -> & E & Hs). step. rewrite E. step.
  destruct s as [[b ub'] out]. destruct Hs as (pre & Ec & Hd & _ & Hn & _). do 2 eexists. split; [reflexivity|]. split; [|lia].
  rewrite Ec at 1. apply Forall2_app; [by eapply cbr_done_passed|reflexivity].
Qed.

Lemma rewrite_run_ok cs : Forall (chunk_ok M) cs -> zlen cs < 2 ^ 30 ->
  exists held out, rewrite_run cs = Ok (held, out) /\ holds_back cs held out.
Proof using RO LO SO.
  intros Hcs Hlen. pose proof (rw_algorithm M RO) as Ha. pose proof (rw_buffer M RO) as [Hb _].
  assert (Rewrite.rewrite_algorithm_0 cfg = 0 \/ Rewrite.rewrite_algorithm_0 cfg = 1 \/ Rewrite.rewrite_algorithm_0 cfg = 2 \/ Rewrite.rewrite_algorithm_0 cfg = 3) as [E|[E|[E|E]]] by lia.
  - unfold rewrite_run. rewrite E. exists [], cs. split; [done|]. split; [by rewrite app_nil_r|]. change (ncount []) with 0. split; [lia|intros _; lia].
  - by apply cfl_run_ok.
  - by apply cbr_run_ok.
  - by apply cap_run_ok.
Qed.

(** ** Progress of the filter *)

(** A segment as it is sent to the rewriting: no chunk of it is a boundary of segments. *)
Record sent_ok (seg_max : Z) (s : segment) : Prop := {
  sn_chunks : Forall (fun c => chunk_ok M c /\ CHECK_CHUNK c CHUNK_SEGMENT_START = false /\ CHECK_CHUNK c CHUNK_SEGMENT_END = false) (seg_chunks s);
  sn_max : normal_count (seg_chunks s) <= seg_max;
}.

Definition sent (ss : list segment) : list chunk := concat (map send_segment ss).

Lemma ncount_send seg_max s : sent_ok seg_max s -> ncount (send_segment s) = normal_count (seg_chunks s).
Proof using.
  intros [Hs _]. unfold send_segment. rewrite ncount_cons, ncount_app. change (is_signal (flag_chunk CHUNK_SEGMENT_START)) with true. cbn match.
  change (ncount [flag_chunk CHUNK_SEGMENT_END]) with 0. rewrite Z.add_0_l, Z.add_0_r. unfold ncount, normal_count. f_equal.
  induction Hs as [|c cs (_ & H1 & H2) _ IH]; [done|]. rewrite !filter_cons, IH.
  assert (is_signal c = is_file_flag c) as E by (unfold is_signal; by rewrite H1, H2, !orb_false_r). destruct (decide (is_signal c = false)), (decide (is_file_flag c = false)); congruence.
Qed.

Lemma ncount_sent seg_max ss : Forall (sent_ok seg_max) ss -> ncount (sent ss) = buffered ss.
Proof using.
  induction 1 as [|s ss Hs _ IH]; [done|]. unfold sent in *. cbn [map concat buffered foldr]. rewrite ncount_app, IH.
  by rewrite (ncount_send seg_max).
Qed.

Lemma sent_app s1 s2 : sent (s1 ++ s2) = sent s1 ++ sent s2.
Proof using. unfold sent. by rewrite map_app, concat_app. Qed.

Lemma sent_chunks_ok seg_max ss : Forall (sent_ok seg_max) ss -> Forall (chunk_ok M) (sent ss).
Proof using.
  induction 1 as [|s ss [Hs _] _ IH]; [constructor|]. unfold sent in *. cbn [map concat]. apply Forall_app. split; [|done].
  unfold send_segment. constructor; [by intros ?|]. apply Forall_app. split; [|constructor; [by intros ?|done]].
  eapply Forall_impl; [exact Hs|]. by intros c [? _].
Qed.

Lemma sent_ends ss s : ends_with_signal (sent (ss ++ [s])).
Proof using.
  exists (flag_chunk CHUNK_SEGMENT_END). split; [|done]. rewrite sent_app. unfold sent at 2. cbn [map concat]. rewrite app_nil_r. unfold send_segment.
  rewrite app_comm_cons, app_assoc. apply last_snoc.
Qed.

Lemma ncount_passed cs cs' : Forall2 passed cs cs' -> ncount cs' = ncount cs.
Proof using.
  induction 1 as [|c c' cs cs' [Hm _] _ IH]; [done|]. destruct (marked_fields _ _ Hm) as (_ & _ & _ & _ & Es & _). by rewrite !ncount_cons, Es, IH.
Qed.

(** With a full buffer of chunks behind the next segment, the rewriting has handed
    the segment over. *)
Lemma hands_over seg_max filtered next waiting :
  Forall (sent_ok seg_max) (filtered ++ next :: waiting) -> zlen (sent (filtered ++ next :: waiting)) < 2 ^ 30 ->
  rewrite_algorithm_1 cfg <= buffered waiting ->
  exists held out out1 out2, rewrite_run (sent (filtered ++ next :: waiting)) = Ok (held, out) /\
    out = out1 ++ out2 /\ Forall2 passed (sent (filtered ++ [next])) out1.
Proof using RO LO SO.
  intros Hs Hlen Hb.
  destruct (rewrite_run_ok (sent (filtered ++ next :: waiting)) (sent_chunks_ok seg_max _ Hs) Hlen) as (held & out & -> & Hm & _ & Hheld).
  assert (Hn : ncount held < rewrite_algorithm_1 cfg).
  { apply Hheld. destruct (exists_last (l := next :: waiting)) as (l & s & ->); [done|]. rewrite app_assoc. apply sent_ends. }
  change (next :: waiting) with ([next] ++ waiting) in Hm, Hs. rewrite app_assoc, sent_app in Hm. rewrite app_assoc in Hs. apply Forall_app in Hs as [_ Hs2].
  rewrite <- (ncount_sent seg_max waiting Hs2) in Hb.
  pose proof (proj1 (Forall2_app_inv_l _ _ _ _) Hm) as (l1 & l2 & Hm1 & Hm2 & El). pose proof (ncount_passed _ _ Hm2) as E2.
  assert (Hlt : (length l1 <= length out)%nat).
  { destruct (decide (length l1 <= length out)%nat) as [|Hgt]; [done|]. exfalso.
    assert (exists r, held = r ++ l2) as [r ->].
    { exists (drop (length out) l1). assert (E := f_equal (drop (length out)) El). rewrite drop_app_length, drop_app_le in E by lia. done. }
    rewrite ncount_app in Hn. pose proof (ncount_nonneg r). lia. }
  exists held, out, l1, (drop (length l1) out). split; [done|]. split; [|done].
  assert (E := f_equal (take (length l1)) El). rewrite take_app_length, take_app_le in E by lia. rewrite <- E at 1. symmetry. apply take_drop.
Qed.

(** C20: the dedup thread waits when the index buffer holds [wait_threshold]
    chunks. When it holds one chunk more than the threshold that
    [start_dedup_phase] sets, the rewriting, whatever the algorithm, has handed
    over all of the next segment after the segments [filtered] already, up to its
    end: the filter thread can empty the buffer, and the threads do not block each
    other. [waiting] are the other segments sent. *)
Theorem rewriting_releases_segment seg_max filtered next waiting :
  Forall (sent_ok seg_max) (filtered ++ next :: waiting) -> zlen (sent (filtered ++ next :: waiting)) < 2 ^ 30 ->
  start_dedup_phase (rewrite_algorithm_1 cfg) seg_max INDEX_SEGMENT_CONTENT_DEFINED 0 < buffered (next :: waiting) ->
  - 2 ^ 31 <= rewrite_algorithm_1 cfg + seg_max - 1 < 2 ^ 31 ->
  exists held out out1 out2, rewrite_run (sent (filtered ++ next :: waiting)) = Ok (held, out) /\
    out = out1 ++ out2 /\ Forall2 passed (sent (filtered ++ [next])) out1.
Proof using RO LO SO.
  intros Hs Hlen Hb Hmax. unfold start_dedup_phase in Hb. change (INDEX_SEGMENT_CONTENT_DEFINED =? INDEX_SEGMENT_CONTENT_DEFINED) with true in Hb. cbn match in Hb.
  rewrite s32_id in Hb by done. apply (hands_over seg_max); [done|done|]. apply Forall_app in Hs as [_ [[_ Hnext] _]%Forall_cons].
  cbn [buffered foldr] in Hb. fold (buffered waiting) in Hb. lia.
Qed.

(** ** The rewriting step of a backup *)

(** A segment of which the rewriting marked chunks. *)
Definition seg_passed (s s' : segment) : Prop := s' = set_seg_chunks s (seg_chunks s') /\ Forall2 passed (seg_chunks s) (seg_chunks s').

Lemma sent_passed ss : forall out, Forall2 passed (sent ss) out -> exists ss', out = sent ss' /\ Forall2 seg_passed ss ss'.
Proof using.
  induction ss as [|s ss IH]; intros out Hp.
  - apply Forall2_nil_inv_l in Hp as ->. by exists [].
  - unfold sent in Hp. cbn [map concat] in Hp. apply Forall2_app_inv_l in Hp as (o1 & o2 & H1 & H2 & ->). destruct (IH o2 H2) as (ss' & -> & Hss).
    unfold send_segment in H1. apply Forall2_cons_inv_l in H1 as (c1 & o & [_ E1] & H1 & ->). apply Forall2_app_inv_l in H1 as (cs & ends & Hcs & He & ->).
    apply Forall2_cons_inv_l in He as (c2 & n & [_ E2] & He & ->). apply Forall2_nil_inv_l in He as ->.
    rewrite (E1 eq_refl), (E2 eq_refl). exists (set_seg_chunks s cs :: ss'). split; [done|]. by constructor.
Qed.

Lemma marked_rewritten fcfg c c' : marked c c' -> Filter.rewrite_algorithm_0 fcfg <> REWRITE_NO -> rewritten fcfg c c'.
Proof using.
  intros Hm Ha. destruct (marked_fields c c' Hm) as (E1 & E2 & E3 & E4 & _ & E5). do 5 (split; [done|]).
  split; [by apply marked_check|]. split; [by apply marked_check|]. by right.
Qed.

(** What the lookup leaves of a chunk is fit for the rewriting. *)
Lemma looked_up_chunk_ok log cb c : looked_up (holds log cb) c -> 0 < ck_size c <= M -> ck_id c < 2 ^ 31 -> chunk_ok M c.
Proof using.
  intros [_ Hl] Hs Hid _. split; [done|]. intros Hne. unfold is_dup in Hl. destruct (CHECK_CHUNK c CHUNK_DUPLICATE); [|done].
  split; [done|]. destruct Hl as [?|Hh]; [done|]. destruct Hh as (Hge & _). unfold id_ok. lia.
Qed.

(** Of the chunks [taken] the thread has handed [out] over: it is on its way, or at
    the end of its queue. *)
Definition handed_over (ended : Prop) (taken out : list chunk) : Prop :=
  (exists held, rewrite_run taken = Ok (held, out)) \/ (ended /\ exists l, start_rewrite_phase taken = Ok l /\ out = pushed l).

Lemma sent_last ss s out : Forall2 passed (sent (ss ++ [s])) out -> exists ss' s', out = sent (ss' ++ [s']) /\ Forall2 seg_passed ss ss' /\ seg_passed s s'.
Proof using.
  intros Hp. destruct (sent_passed _ _ Hp) as (l & -> & Hl). apply Forall2_app_inv_l in Hl as (ss' & l2 & H1 & H2 & ->).
  apply Forall2_cons_inv_l in H2 as (s' & l3 & H2 & H3 & ->). apply Forall2_nil_inv_l in H3 as ->. by exists ss', s'.
Qed.

Lemma sent_front ss1 ss2 out : Forall2 passed (sent (ss1 ++ ss2)) out -> exists out1 out2, out = out1 ++ out2 /\ Forall2 passed (sent ss1) out1.
Proof using. rewrite sent_app. intros Hp. apply Forall2_app_inv_l in Hp as (o1 & o2 & H1 & _ & ->). by exists o1, o2. Qed.

(** C10: the rewriting thread implements the rewriting step of a backup, and hands a
    segment over when the backup counts on it. When the oldest segment in flight,
    [next], is [released], the thread, which has taken the chunks of the segments
    that were looked up so far, has handed over the segments [filtered] and all
    of [next], up to its end; the segment that it handed over is one that [next]
    becomes by a step of the backup. *)
Theorem rewriting_refines_backup `{HC : !HashIter fingerprint metaEntry} `{HF : !HashIter (list Z) ()} `{HS : !HashIter Z (gset (list Z))}
    `{SF : !SeqSort fingerprint} `{SA : !SeqSort (fingerprint * fingerprint)} `{SS : !SeqSort (Z * gset (list Z))}
    icfg fcfg simulation_level wait_threshold dir seg_max filtered next waiting b :
  Filter.rewrite_algorithm_0 fcfg = Rewrite.rewrite_algorithm_0 cfg -> b_flight b = next :: waiting ->
  Forall (sent_ok seg_max) (filtered ++ b_flight b) -> zlen (sent (filtered ++ b_flight b)) < 2 ^ 30 ->
  released fcfg (rewrite_algorithm_1 cfg) b ->
  exists out filtered' next' rest, handed_over (b_todo b = []) (sent (filtered ++ b_flight b)) out /\
    out = sent (filtered' ++ [next']) ++ rest /\ Forall2 seg_passed filtered filtered' /\ seg_passed next next' /\
    rtc (backup_step icfg fcfg simulation_level wait_threshold dir) b (mk_backup (b_todo b) (next' :: waiting) (b_filter b) (b_written b)).
Proof using RO LO SO.
  intros Ea Ef Hs Hlen Hrel. rewrite Ef in *. destruct b as [todo fl f w]. cbn [b_flight b_todo b_filter b_written] in *. subst fl.
  assert (Hself : forall s, seg_passed s s) by (intros s; split; [by destruct s|reflexivity]).
  destruct (decide (Rewrite.rewrite_algorithm_0 cfg = REWRITE_NO)) as [E0|E0].
  { exists (sent (filtered ++ next :: waiting)), filtered, next, (sent waiting). split; [left; exists []; unfold rewrite_run; by rewrite E0|].
    split; [by rewrite <- sent_app, <- app_assoc|]. split; [by apply Forall_Forall2_diag, Forall_true|]. split; [done|apply rtc_refl]. }
  assert (Hout : exists out out1 out2, handed_over (todo = []) (sent (filtered ++ next :: waiting)) out /\ out = out1 ++ out2 /\ Forall2 passed (sent (filtered ++ [next])) out1).
  { destruct Hrel as [?|[Ht|Hge]]; [congruence| |].
    - cbn [b_todo] in Ht. destruct (rewriting_passes _ (sent_chunks_ok seg_max _ Hs) Hlen) as (l & El & Hp & _).
      change (next :: waiting) with ([next] ++ waiting) in Hp. rewrite app_assoc in Hp. destruct (sent_front _ _ _ Hp) as (o1 & o2 & E & H1).
      exists (pushed l), o1, o2. split; [right; split; [done|by exists l]|done].
    - destruct (hands_over seg_max filtered next waiting Hs Hlen Hge) as (held & out & o1 & o2 & Er & E & H1).
      exists out, o1, o2. split; [left; by exists held|done]. }
  destruct Hout as (out & o1 & o2 & Hh & -> & H1). destruct (sent_last _ _ _ H1) as (filtered' & next' & -> & Hf & Hn).
  exists (sent (filtered' ++ [next']) ++ o2), filtered', next', o2. do 4 (split; [done|]). destruct Hn as [En Hc].
  eapply rtc_once. rewrite En. apply (step_rewrite icfg fcfg simulation_level wait_threshold dir todo [] next waiting f w (seg_chunks next')).
  eapply Forall2_impl; [exact Hc|]. intros c c' [Hm _]. apply marked_rewritten; [done|congruence].
Qed.
End Phase.

(** ** Concrete runs *)

#[local] Existing Instance std_seq_lookup.
#[local] Existing Instance std_seq_sort.
#[local] Existing Instance std_seq_lookup_ok.
#[local] Existing Instance std_seq_sort_ok.

(** A stream with chunks of two containers and a unique chunk. *)
Definition demo_seg (cs : list chunk) : segment := mk_segment TEMPORARY_ID (zlen cs) cs None.
Definition demo_stream : list chunk := sent [demo_seg [dup_chunk 4000 7; dup_chunk 100 9; unique_chunk 50; dup_chunk 4000 7; dup_chunk 200 8]].

Lemma demo_rewrite_ok alg num : 0 <= alg <= 3 -> 0 < num <= 4 -> rewrite_ok (demo_rewrite alg num) 65536.
Proof. intros Ha Hn. split; cbn [demo_rewrite Rewrite.rewrite_algorithm_0 rewrite_algorithm_1]; [done|lia|]. intros _. by split. Qed.

Lemma demo_stream_ok : Forall (chunk_ok 65536) demo_stream.
Proof. decide_it. Qed.

(** The flags that a stream carries after each algorithm: capping keeps container
    7 of the first four chunks. *)
Definition flags_of (l : res (list action)) : res (list Z) := l ← l; Ok (map (fun c => Z.land (ck_flag c) CHUNK_OUT_OF_ORDER) (pushed l)).

Lemma rewriting_keeps_stream_witness :
  flags_of (start_rewrite_phase (demo_rewrite REWRITE_CAPPING 4) ∅ demo_stream) = Ok [0; 0; 1024; 0; 0; 0; 0] /\
  (exists l, start_rewrite_phase (demo_rewrite REWRITE_CONTEXT_BASED 4) ∅ demo_stream = Ok l /\ Forall2 passed demo_stream (pushed l)).
Proof.
  split; [vm_compute; reflexivity|].
  destruct (rewriting_keeps_stream (demo_rewrite REWRITE_CONTEXT_BASED 4) ∅ 65536 (demo_rewrite_ok REWRITE_CONTEXT_BASED 4 ltac:(unfold REWRITE_CONTEXT_BASED; lia) ltac:(lia)) demo_stream demo_stream_ok) as (l & E & Hp & _); [reflexivity|].
  exists l. exact (conj E Hp).
Defined.

Lemma demo_sent_ok cs : Forall (fun c => chunk_ok 65536 c /\ CHECK_CHUNK c CHUNK_SEGMENT_START = false /\ CHECK_CHUNK c CHUNK_SEGMENT_END = false) cs ->
  normal_count cs <= 5 -> sent_ok 65536 5 (demo_seg cs).
Proof. by split. Qed.

Definition demo_segs : list segment :=
  [demo_seg [dup_chunk 4000 7]; demo_seg [unique_chunk 10; unique_chunk 20; dup_chunk 30 7; unique_chunk 40]; demo_seg [dup_chunk 50 9; unique_chunk 60; unique_chunk 70]].

Lemma demo_segs_ok : Forall (sent_ok 65536 5) demo_segs.
Proof. repeat (apply Forall_cons; split; [apply demo_sent_ok; decide_it|]). done. Qed.

(** With a buffer of 2 chunks and segments of at most 5, the threshold is 6: with
    7 chunks waiting, the second segment has been handed over. *)
Lemma rewriting_releases_segment_witness :
  start_dedup_phase 2 5 INDEX_SEGMENT_CONTENT_DEFINED 0 = 6 /\ buffered (drop 1 demo_segs) = 7 /\
  exists held out out1 out2, rewrite_run (demo_rewrite REWRITE_CAPPING 2) ∅ (sent demo_segs) = Ok (held, out) /\
    out = out1 ++ out2 /\ Forall2 passed (sent (take 2 demo_segs)) out1.
Proof.
  split; [reflexivity|]. split; [reflexivity|].
  exact (rewriting_releases_segment (demo_rewrite REWRITE_CAPPING 2) ∅ 65536 (demo_rewrite_ok REWRITE_CAPPING 2 ltac:(unfold REWRITE_CAPPING; lia) ltac:(lia))
    5 (take 1 demo_segs) (demo_seg [unique_chunk 10; unique_chunk 20; dup_chunk 30 7; unique_chunk 40]) (drop 2 demo_segs) demo_segs_ok eq_refl eq_refl ltac:(done)).
Defined.

(** The threshold itself is too low. With segments of one chunk and a buffer of
    two, capping has handed over three of the four items of the second segment
    when the index buffer holds the threshold of 2 chunks (those of the second and
    the third segment): the dedup thread waits for the filter, the filter for the
    end of the segment, and the rewriting for another chunk. *)
Lemma threshold_blocks :
  let segs := map demo_seg [[unique_chunk 10]; [unique_chunk 20]; [unique_chunk 30]] in
  let threshold := start_dedup_phase 2 0 INDEX_SEGMENT_FIXED 1 in
  threshold = 2 /\ buffered (drop 1 segs) = threshold /\
  match rewrite_run (demo_rewrite REWRITE_CAPPING 2) ∅ (sent segs) with
  | Ok (held, out) => bool_decide (out = sent (take 1 segs) ++ [flag_chunk CHUNK_SEGMENT_START; unique_chunk 20])
  | Err _ => false
  end = true.
Proof. split; [reflexivity|]. split; [reflexivity|]. vm_compute. reflexivity. Qed.

(** Capping with a buffer of two chunks, and a fourth segment to be looked up:
    there are three chunks behind the second segment, so it has been handed over. *)
Definition demo_backup_of (todo : list segment) (f : filter_state) : backup := mk_backup todo (drop 1 demo_segs) f false.

Lemma rewriting_refines_backup_witness : exists ix w out filtered' next' rest,
  let b := demo_backup_of [demo_seg [unique_chunk 80]] (start_filter_phase ix w TEMPORARY_ID 1) in
  handed_over (demo_rewrite REWRITE_CAPPING 2) ∅ (b_todo b = []) (sent demo_segs) out /\ out = sent (filtered' ++ [next']) ++ rest /\
  rtc (backup_step (HC := std_hash_iter) (HF := std_hash_iter) (HS := std_hash_iter) demo_index_config
        (mk_filter_config false false (d_of_Z 0) REWRITE_CAPPING) 0 0 ∅)
    b (mk_backup (b_todo b) (next' :: drop 2 demo_segs) (b_filter b) false).
Proof.
  destruct demo_start as (ix & w & _). exists ix, w.
  destruct (rewriting_refines_backup (demo_rewrite REWRITE_CAPPING 2) ∅ 65536 (demo_rewrite_ok REWRITE_CAPPING 2 ltac:(unfold REWRITE_CAPPING; lia) ltac:(lia))
    (HC := std_hash_iter) (HF := std_hash_iter) (HS := std_hash_iter)
    demo_index_config (mk_filter_config false false (d_of_Z 0) REWRITE_CAPPING) 0 0 ∅ 5 (take 1 demo_segs)
    (demo_seg [unique_chunk 10; unique_chunk 20; dup_chunk 30 7; unique_chunk 40]) (drop 2 demo_segs)
    (demo_backup_of [demo_seg [unique_chunk 80]] (start_filter_phase ix w TEMPORARY_ID 1)) eq_refl eq_refl demo_segs_ok eq_refl)
    as (out & filtered' & next' & rest & H1 & H2 & _ & _ & Hr); [right; right; by vm_compute|]. exists out, filtered', next', rest. exact (conj H1 (conj H2 Hr)).
Defined.
