(* ===== verification/Network.v ===== *)
(** Processes that talk through Redis servers: the commands of hiredis that
    [destor_server.c], [do_restore.c], [redis_util.c] and the client use, the
    interleavings of any number of processes, and why the order in which they run
    does not matter.

    Redis is not part of the repository: [Redis] is its interface and [RedisOk]
    its documented behaviour. A state of [R] is that of the servers of all the
    machines together, so an address is the IP of a machine with a key. That a
    connection can be made is part of what is assumed. *)

From S2P Require Import Prelude.

(** ** Redis *)

(** What a key holds. *)
Inductive rvalue := RList (l : list (list Z)) | RStr (s : list Z).

Definition addr : Type := Z * list Z.

(** The replies: BLPOP waits on an empty list, and both commands answer a key of
    the other type with an error. *)
Inductive pop_reply (R : Type) := PopWait | PopWrong | PopGot (v : list Z) (r : R).
Arguments PopWait {R}. Arguments PopWrong {R}. Arguments PopGot {R} _ _.
Inductive get_reply := GetNil | GetWrong | GetStr (s : list Z).

Class Redis (R : Type) := {
  content : R -> gmap addr rvalue;
  rpush : addr -> list Z -> R -> R;
  blpop : addr -> R -> pop_reply R;
  set_key : addr -> list Z -> R -> R;
  get_key : addr -> R -> get_reply;
}.

(** RPUSH appends to the list, which it creates if the key is new; on a string it
    fails. BLPOP takes the first item, and a list that becomes empty goes. SET
    overwrites. *)
Definition pushed_value (v : list Z) (o : option rvalue) : option rvalue :=
  match o with None => Some (RList [v]) | Some (RList l) => Some (RList (l ++ [v])) | Some (RStr s) => Some (RStr s) end.
Definition popped_value (l : list (list Z)) : option rvalue := match l with [] => None | _ => Some (RList l) end.

Class RedisOk (R : Type) `{Redis R} := {
  content_inj r1 r2 : content r1 = content r2 -> r1 = r2;
  content_rpush a v r : content (rpush a v r) = partial_alter (pushed_value v) a (content r);
  blpop_reply a r : match content r !! a with
    | None | Some (RList []) => blpop a r = PopWait
    | Some (RStr _) => blpop a r = PopWrong
    | Some (RList (v :: l)) => exists r', blpop a r = PopGot v r' /\ content r' = partial_alter (fun _ => popped_value l) a (content r)
    end;
  content_set a v r : content (set_key a v r) = <[a := RStr v]> (content r);
  get_key_reply a r : get_key a r = match content r !! a with None => GetNil | Some (RList _) => GetWrong | Some (RStr s) => GetStr s end;
}.

(** Servers that keep exactly what the laws say. *)
Definition std_rpush (a : addr) (v : list Z) (r : gmap addr rvalue) : gmap addr rvalue := partial_alter (pushed_value v) a r.
Definition std_blpop (a : addr) (r : gmap addr rvalue) : pop_reply (gmap addr rvalue) :=
  match r !! a with
  | None | Some (RList []) => PopWait
  | Some (RStr _) => PopWrong
  | Some (RList (v :: l)) => PopGot v (partial_alter (fun _ => popped_value l) a r)
  end.

Definition std_redis : Redis (gmap addr rvalue) := {|
  content r := r; rpush := std_rpush; blpop := std_blpop; set_key a v r := <[a := RStr v]> r;
  get_key a r := match r !! a with None => GetNil | Some (RList _) => GetWrong | Some (RStr s) => GetStr s end |}.

Lemma std_redis_ok : @RedisOk _ std_redis.
Proof.
  split; cbn; try done. intros a r. unfold std_blpop. destruct (r !! a) as [[[|v l]|s]|]; [done| |done..]. by eexists.
Qed.

Section Redis.
Context {R : Type} `{RO : RedisOk R}.
Implicit Types (a b : addr) (r : R).

Lemma rpush_rpush a b v w r : a <> b -> rpush a v (rpush b w r) = rpush b w (rpush a v r).
Proof using RO. intros Hne. apply content_inj. rewrite !content_rpush. by apply partial_alter_partial_alter_ne. Qed.

Lemma rpush_set a b v w r : a <> b -> rpush a v (set_key b w r) = set_key b w (rpush a v r).
Proof using RO.
  intros Hne. apply content_inj. rewrite content_rpush, !content_set, content_rpush. by apply partial_alter_insert_ne.
Qed.

(** What was pushed to a new key is what is taken. *)
Lemma blpop_rpush a v r : content r !! a = None -> blpop a (rpush a v r) = PopGot v r.
Proof using RO.
  intros Ha. pose proof (blpop_reply a (rpush a v r)) as Hb. rewrite content_rpush, lookup_partial_alter_eq, Ha in Hb. cbn in Hb.
  destruct Hb as (r' & -> & E). f_equal. apply content_inj. rewrite E. cbn [popped_value]. apply map_eq. intros k.
  destruct (decide (k = a)) as [->|Hne]; [by rewrite lookup_partial_alter_eq, Ha|]. by rewrite !lookup_partial_alter_ne.
Qed.

Lemma content_rpush_ne a b v r : a <> b -> content (rpush a v r) !! b = content r !! b.
Proof using RO. intros Hne. by rewrite content_rpush, lookup_partial_alter_ne. Qed.

Lemma content_set_ne a b v r : a <> b -> content (set_key a v r) !! b = content r !! b.
Proof using RO. intros Hne. by rewrite content_set, lookup_insert_ne. Qed.

Lemma blpop_wait a r : content r !! a = None -> blpop a r = PopWait.
Proof using RO. intros Ha. pose proof (blpop_reply a r) as Hb. by rewrite Ha in Hb. Qed.

(** Several values are pushed, each to its key. *)
Definition pushes (l : list (addr * list Z)) (r : R) : R := foldl (fun r p => rpush p.1 p.2 r) r l.

Lemma pushes_rpush l : forall a v r, a ∉ l.*1 -> pushes l (rpush a v r) = rpush a v (pushes l r).
Proof using RO.
  induction l as [|[b w] l IH]; intros a v r Ha; [done|]. cbn [fmap list_fmap fst] in Ha. apply not_elem_of_cons in Ha as [Hne Ha].
  unfold pushes in *. cbn [foldl fst snd]. rewrite (rpush_rpush b a) by done. by apply IH.
Qed.

Lemma content_pushes l : forall r b, b ∉ l.*1 -> content (pushes l r) !! b = content r !! b.
Proof using RO.
  induction l as [|[a v] l IH]; intros r b Hb; [done|]. cbn [fmap list_fmap fst] in Hb. apply not_elem_of_cons in Hb as [Hne Hb].
  unfold pushes in *. cbn [foldl fst snd]. rewrite IH by done. by apply content_rpush_ne.
Qed.

Lemma blpop_pushes a v l r : a ∉ l.*1 -> content r !! a = None -> blpop a (pushes ((a, v) :: l) r) = PopGot v (pushes l r).
Proof using RO.
  intros Ha Hr. change (pushes ((a, v) :: l) r) with (pushes l (rpush a v r)). rewrite pushes_rpush by done. apply blpop_rpush.
  by rewrite content_pushes.
Qed.
End Redis.

(** ** Processes *)

(** A process with a result in [A]: what it does next. [Choose] is a step whose
    outcome the process does not determine, as a job of many threads. *)
Inductive io (D A : Type) :=
| Ret (x : A)
| Stop (e : error)
| Rpush (a : addr) (v : list Z) (k : io D A)
| Blpop (a : addr) (k : list Z -> io D A)
| SetKey (a : addr) (v : list Z) (k : io D A)
| GetKey (a : addr) (k : option (list Z) -> io D A)
| Choose (P : D -> Prop) (k : D -> io D A).
Arguments Ret {D A} _. Arguments Stop {D A} _. Arguments Rpush {D A} _ _ _. Arguments Blpop {D A} _ _.
Arguments SetKey {D A} _ _ _. Arguments GetKey {D A} _ _. Arguments Choose {D A} _ _.

Fixpoint io_bind {D A B : Type} (f : A -> io D B) (t : io D A) : io D B :=
  match t with
  | Ret x => f x
  | Stop e => Stop e
  | Rpush a v k => Rpush a v (io_bind f k)
  | Blpop a k => Blpop a (fun v => io_bind f (k v))
  | SetKey a v k => SetKey a v (io_bind f k)
  | GetKey a k => GetKey a (fun o => io_bind f (k o))
  | Choose P k => Choose P (fun d => io_bind f (k d))
  end.

#[export] Instance io_ret D : MRet (io D) := @Ret D.
#[export] Instance io_mbind D : MBind (io D) := @io_bind D.

(** A computation of the process that may fail. *)
Definition lift {D A : Type} (x : res A) : io D A := match x with Ok x => Ret x | Err e => Stop e end.

(** ** Interleavings *)

Section Net.
Context {R : Type} `{RO : RedisOk R} {P D A : Type} `{Countable P}.

(** What runs after a process has ended: a server is started again. *)
Context (spawn : P -> A -> option (io D A)).

Record net := mk_net { store : R; procs : gmap P (io D A) }.
Implicit Types (s : net) (p q : P) (t : io D A) (a : addr).

(** The next step of process [p]; [d] is the outcome if it is a choice. The error
    reply of BLPOP has no elements, and that of GET makes the program exit. *)
Definition react (d : D) (p : P) (t : io D A) (r : R) : option (R * io D A) :=
  match t with
  | Ret x => match spawn p x with Some t => Some (r, t) | None => None end
  | Stop _ => None
  | Rpush a v k => Some (rpush a v r, k)
  | Blpop a k => match blpop a r with PopWait => None | PopWrong => Some (r, Stop ENull) | PopGot v r => Some (r, k v) end
  | SetKey a v k => Some (set_key a v r, k)
  | GetKey a k => Some (r, match get_key a r with GetNil => k None | GetWrong => Stop (EExit (-1)) | GetStr v => k (Some v) end)
  | Choose _ k => Some (r, k d)
  end.

Definition allowed (d : D) (t : io D A) : Prop := match t with Choose Q _ => Q d | _ => True end.

Definition exec (d : D) (p : P) (s : net) : option net :=
  match procs s !! p with
  | Some t => match react d p t (store s) with Some (r, t) => Some (mk_net r (<[p := t]> (procs s))) | None => None end
  | None => None
  end.

Definition step_of (p : P) (s s' : net) : Prop :=
  exists d t, procs s !! p = Some t /\ allowed d t /\ exec d p s = Some s'.
Definition net_step (s s' : net) : Prop := exists p, step_of p s s'.

(** ** Who uses which key *)

Inductive use := Push | Pop | Str.

(** [may u p a]: process [p] uses [a] in the way [u]. A list has one process that
    pushes and one that pops, a string has one process. [msg a v]: the values
    that are pushed to [a]. [fine p x]: the results that [p] may end with. *)
Context (may : use -> P -> addr -> Prop) (msg : addr -> list Z -> Prop) (fine : P -> A -> Prop).

Fixpoint typed (p : P) (t : io D A) : Prop :=
  match t with
  | Ret x => fine p x
  | Stop _ => True
  | Rpush a v k => may Push p a /\ msg a v /\ typed p k
  | Blpop a k => may Pop p a /\ forall v, msg a v -> typed p (k v)
  | SetKey a v k => may Str p a /\ typed p k
  | GetKey a k => may Str p a /\ forall o, typed p (k o)
  | Choose Q k => forall d, Q d -> typed p (k d)
  end.

Record net_ok (s : net) : Prop := {
  no_procs p t : procs s !! p = Some t -> typed p t;
  no_msgs a l : content (store s) !! a = Some (RList l) -> Forall (msg a) l;
}.

Context (Hexcl : forall u1 u2 p1 p2 a, may u1 p1 a -> may u2 p2 a -> p1 = p2 \/ (u1 = Push /\ u2 = Pop) \/ (u1 = Pop /\ u2 = Push)).
Context (Hspawn : forall p x t, fine p x -> spawn p x = Some t -> typed p t).

Lemma react_ok d p t r r' t' : typed p t -> (forall a l, content r !! a = Some (RList l) -> Forall (msg a) l) -> allowed d t ->
  react d p t r = Some (r', t') -> typed p t' /\ (forall a l, content r' !! a = Some (RList l) -> Forall (msg a) l).
Proof using Hspawn RO.
  intros Ht Hm Hd E. destruct t as [x|e|a v k|a k|a v k|a k|Q k]; cbn in *.
  - destruct (spawn p x) eqn:Es; [|done]. injection E as <- <-. split; [by eapply Hspawn|done].
  - done.
  - injection E as <- <-. destruct Ht as (_ & Hv & Ht). split; [done|]. intros b l. rewrite content_rpush, lookup_partial_alter_Some.
    intros [[<- Hb]|[_ Hb]]; [|by apply Hm]. destruct (content r !! a) as [[l'|]|] eqn:Ea; cbn in Hb; [| |injection Hb as <-; by repeat constructor]; [|done].
    injection Hb as <-. apply Forall_app. split; [by apply Hm|by repeat constructor].
  - destruct Ht as [_ Ht]. pose proof (blpop_reply a r) as Hb. destruct (content r !! a) as [[[|v l]|]|] eqn:Ea; [by rewrite Hb in E| | |by rewrite Hb in E].
    + destruct Hb as (r1 & Eb & Ec). rewrite Eb in E. injection E as <- <-. pose proof (Hm a _ Ea) as Hl. apply Forall_cons in Hl as [Hv Hl].
      split; [by apply Ht|]. intros b l'. rewrite Ec, lookup_partial_alter_Some. intros [[<- Hb]|[_ Hb]]; [|by apply Hm].
      destruct l; [done|]. by injection Hb as <-.
    + rewrite Hb in E. by injection E as <- <-.
  - injection E as <- <-. split; [apply Ht|]. intros b l. rewrite content_set, lookup_insert_Some. intros [[_ Hb]|[_ Hb]]; [done|by apply Hm].
  - injection E as <- <-. split; [|done]. destruct Ht as [_ Ht]. by destruct (get_key a r).
  - injection E as <- <-. split; [by apply Ht|done].
Qed.

Lemma net_step_ok p s s' : net_ok s -> step_of p s s' -> net_ok s'.
Proof using Hspawn RO.
  intros [Hp Hm] (d & t & Et & Hd & E). unfold exec in E. rewrite Et in E. destruct (react d p t (store s)) as [[r t']|] eqn:Er; [|done].
  injection E as <-. destruct (react_ok d p t (store s) r t' (Hp p t Et) Hm Hd Er) as [Ht' Hm']. split; cbn; [|exact Hm'].
  intros q u. rewrite lookup_insert_Some. intros [[<- <-]|[_ Hq]]; [done|by apply Hp].
Qed.

(** ** Steps of two processes commute *)

(** The key that a process uses next. *)
Definition target (t : io D A) : option (use * addr) :=
  match t with
  | Rpush a _ _ => Some (Push, a)
  | Blpop a _ => Some (Pop, a)
  | SetKey a _ _ | GetKey a _ => Some (Str, a)
  | Ret _ | Stop _ | Choose _ _ => None
  end.

Lemma typed_target p t u a : typed p t -> target t = Some (u, a) -> may u p a.
Proof using. destruct t; cbn; try done; intros Ht [= <- <-]; apply Ht. Qed.

(** A step looks at its key only and changes no other. *)
Definition touches (r r' : R) (o : option (use * addr)) (f : option rvalue -> option rvalue) : Prop :=
  match o with Some (_, a) => content r' = partial_alter f a (content r) | None => r' = r end.

Lemma react_touches d p t r r' t' : react d p t r = Some (r', t') -> exists f, touches r r' (target t) f /\
  forall r2, (forall u a, target t = Some (u, a) -> content r2 !! a = content r !! a) -> exists r2', react d p t r2 = Some (r2', t') /\ touches r2 r2' (target t) f.
Proof using RO.
  destruct t as [x|e|a v k|a k|a v k|a k|Q k]; cbn; intros E.
  - exists id. destruct (spawn p x); [|done]. injection E as <- <-. split; [done|]. intros r2 _. by exists r2.
  - done.
  - injection E as <- <-. exists (pushed_value v). split; [apply content_rpush|]. intros r2 _. eexists. split; [done|apply content_rpush].
  - pose proof (blpop_reply a r) as Hb. destruct (content r !! a) as [[[|v l]|s]|] eqn:Ea; [by rewrite Hb in E| | |by rewrite Hb in E].
    + destruct Hb as (r1 & Eb & Ec). rewrite Eb in E. injection E as <- <-. exists (fun _ => popped_value l). split; [done|].
      intros r2 Hq. pose proof (blpop_reply a r2) as Hb. rewrite (Hq _ _ eq_refl), Ea in Hb. destruct Hb as (r2' & -> & Hc). by exists r2'.
    + rewrite Hb in E. injection E as <- <-. exists (fun _ => Some (RStr s)). split; [rewrite <- Ea; by rewrite partial_alter_self|].
      intros r2 Hq. specialize (Hq _ _ eq_refl). pose proof (blpop_reply a r2) as Hb'. rewrite Hq, Ea in Hb'. rewrite Hb'. exists r2. split; [done|].
      rewrite <- Ea, <- Hq. by rewrite partial_alter_self.
  - injection E as <- <-. exists (fun _ => Some (RStr v)). split; [apply content_set|]. intros r2 _. eexists. split; [done|apply content_set].
  - injection E as <- <-. exists (fun _ => content r !! a). split; [by rewrite partial_alter_self|]. intros r2 Hq. specialize (Hq _ _ eq_refl). exists r2.
    rewrite !get_key_reply, <- Hq. split; [done|by rewrite partial_alter_self].
  - injection E as <- <-. exists id. split; [done|]. intros r2 _. by exists r2.
Qed.

(** Steps that use different keys commute. *)
Lemma react_apart d p t r r1 t' e q u r2 u' : react d p t r = Some (r1, t') -> react e q u r = Some (r2, u') ->
  (forall k1 k2 a b, target t = Some (k1, a) -> target u = Some (k2, b) -> a <> b) ->
  exists r3, react d p t r2 = Some (r3, t') /\ react e q u r1 = Some (r3, u').
Proof using RO.
  intros Et Eu Hne. destruct (react_touches _ _ _ _ _ _ Et) as (f & Tf & Hf). destruct (react_touches _ _ _ _ _ _ Eu) as (g & Tg & Hg).
  destruct (Hf r2) as (r3 & E3 & T3).
  { intros k a Ea. destruct (target u) as [[k2 b]|]; cbn in Tg; [|by rewrite Tg]. rewrite Tg, lookup_partial_alter_ne; [done|].
    intros ->. by eapply Hne. }
  destruct (Hg r1) as (r4 & E4 & T4).
  { intros k b Eb. destruct (target t) as [[k1 a]|]; cbn in Tf; [|by rewrite Tf]. rewrite Tf, lookup_partial_alter_ne; [done|]. by eapply Hne. }
  enough (r4 = r3) as -> by by exists r3. destruct (target t) as [[k1 a]|], (target u) as [[k2 b]|]; cbn in *; apply content_inj; subst;
    rewrite ?T3, ?T4, ?Tf, ?Tg; try done. by apply partial_alter_partial_alter_ne, not_eq_sym, (Hne k1 k2).
Qed.

(** A push and a pop of the same list commute when the pop need not wait. *)
Lemma react_queue d p a v k r e q k' r2 u' : react e q (Blpop a k') r = Some (r2, u') ->
  exists r3, react d p (Rpush a v k) r2 = Some (r3, k) /\ react e q (Blpop a k') (rpush a v r) = Some (r3, u').
Proof using RO.
  cbn. intros E. pose proof (blpop_reply a r) as Hb. pose proof (blpop_reply a (rpush a v r)) as Hb'. rewrite content_rpush, lookup_partial_alter_eq in Hb'.
  destruct (content r !! a) as [[[|w l]|s]|] eqn:Ea; [by rewrite Hb in E| | |by rewrite Hb in E]; cbn in Hb'.
  - destruct Hb as (r1 & Eb & Ec). rewrite Eb in E. injection E as <- <-. destruct Hb' as (r1' & -> & Ec'). eexists. split; [reflexivity|].
    do 2 f_equal. apply content_inj. rewrite content_rpush, Ec, Ec', !partial_alter_partial_alter_eq. 
    apply partial_alter_ext. intros o _. by destruct l.
  - rewrite Hb in E. rewrite Hb'. injection E as <- <-. eexists. by split.
Qed.

Lemma react_diamond d p t r r1 t' e q u r2 u' : p <> q -> typed p t -> typed q u -> react d p t r = Some (r1, t') -> react e q u r = Some (r2, u') ->
  exists r3, react d p t r2 = Some (r3, t') /\ react e q u r1 = Some (r3, u').
Proof using RO Hexcl.
  intros Hpq Ht Hu Et Eu. destruct (target t) as [[k1 a]|] eqn:E1; [|apply (react_apart d p t r r1 t' e q u r2 u' Et Eu); by rewrite E1].
  destruct (target u) as [[k2 b]|] eqn:E2; [|apply (react_apart d p t r r1 t' e q u r2 u' Et Eu); by rewrite E2].
  destruct (decide (a = b)) as [->|Hne]; [|apply (react_apart d p t r r1 t' e q u r2 u' Et Eu); intros ????; congruence].
  destruct (Hexcl k1 k2 p q b) as [?|[[-> ->]|[-> ->]]]; [by eapply typed_target|by eapply typed_target|done|..].
  - destruct t as [| |a v k| | | |]; try done. injection E1 as ->. destruct u as [| | |a k'| | |]; try done. injection E2 as ->.
    cbn in Et. injection Et as <- <-. eapply react_queue, Eu.
  - destruct u as [| |a v k| | | |]; try done. injection E2 as ->. destruct t as [| | |a k'| | |]; try done. injection E1 as ->.
    cbn in Eu. injection Eu as <- <-. destruct (react_queue e q b v k r d p k' r1 t' Et) as (r3 & ? & ?). by exists r3.
Qed.

Lemma exec_Some d p s s' : exec d p s = Some s' <->
  exists t r t', procs s !! p = Some t /\ react d p t (store s) = Some (r, t') /\ s' = mk_net r (<[p := t']> (procs s)).
Proof using.
  unfold exec. split.
  - destruct (procs s !! p) as [t|]; [|done]. destruct (react d p t (store s)) as [[r t']|] eqn:E; [|done]. intros [= <-]. by exists t, r, t'.
  - by intros (t & r & t' & -> & -> & ->).
Qed.

Lemma step_diamond p q s s1 s2 : net_ok s -> p <> q -> step_of p s s1 -> step_of q s s2 -> exists s3, step_of q s1 s3 /\ step_of p s2 s3.
Proof using RO Hexcl.
  intros [Hp _] Hpq (d & t & Et & Hd & E1) (e & u & Eu & He & E2).
  apply exec_Some in E1 as (t0 & r1 & t' & Et0 & Er1 & ->). apply exec_Some in E2 as (u0 & r2 & u' & Eu0 & Er2 & ->).
  assert (t0 = t) as -> by congruence. assert (u0 = u) as -> by congruence.
  destruct (react_diamond d p t (store s) r1 t' e q u r2 u' Hpq (Hp p t Et) (Hp q u Eu) Er1 Er2) as (r3 & Ep & Eq).
  exists (mk_net r3 (<[q := u']> (<[p := t']> (procs s)))). split.
  - exists e, u. rewrite exec_Some. cbn [procs store]. rewrite !lookup_insert_ne by done. split_and!; [done..|]. by exists u, r3, u'.
  - exists d, t. rewrite exec_Some. cbn [procs store]. rewrite !lookup_insert_ne by done. split_and!; [done..|]. exists t, r3, t'.
    split_and!; [done..|]. f_equal. by apply insert_insert_ne.
Qed.

(** Whether a process can step does not depend on the outcome of a choice, but
    for what the choice allows. *)
Lemma react_enabled d e p t r : is_Some (react d p t r) -> is_Some (react e p t r).
Proof using. by destruct t. Qed.

(** Whatever another process did first, [p] could have gone before it. *)
Lemma step_swap p q s s1 s2 s3 : net_ok s -> p <> q -> step_of p s s1 -> step_of q s s2 -> step_of p s2 s3 ->
  exists s1', step_of p s s1' /\ step_of q s1' s3.
Proof using RO Hexcl.
  intros Hs Hpq (d & t & Et & Hd & E1) Hq (e & t2 & Et2 & He & E3).
  assert (t2 = t) as ->.
  { destruct Hq as (x & u & Eu & _ & Eq). apply exec_Some in Eq as (? & ? & ? & _ & _ & ->). cbn [procs] in Et2. rewrite lookup_insert_ne in Et2 by done. congruence. }
  assert (exists s1', step_of p s s1' /\ exec e p s = Some s1') as (s1' & Hp' & E').
  { apply exec_Some in E1 as (t0 & r1 & t' & Et0 & Er & _). assert (t0 = t) as -> by congruence.
    destruct (react_enabled d e p t (store s) (mk_is_Some _ _ Er)) as [[r' u'] E']. exists (mk_net r' (<[p := u']> (procs s))).
    split; [|apply exec_Some; by exists t, r', u']. exists e, t. split_and!; [done..|]. apply exec_Some. by exists t, r', u'. }
  exists s1'. split; [done|]. destruct Hq as (x & u & Eu & Hx & Eq).
  apply exec_Some in E' as (t0 & r1 & t' & Et0 & Er1 & ->). apply exec_Some in Eq as (u0 & r2 & u' & Eu0 & Er2 & ->).
  assert (t0 = t) as -> by congruence. assert (u0 = u) as -> by congruence.
  destruct (react_diamond e p t (store s) r1 t' x q u r2 u' Hpq (no_procs s Hs p t Et) (no_procs s Hs q u Eu) Er1 Er2) as (r3 & Ep & Eq).
  apply exec_Some in E3 as (t3 & r3' & t3' & Et3 & Er3 & ->). cbn [procs store] in *. rewrite lookup_insert_ne in Et3 by done.
  assert (t3 = t) as -> by congruence. rewrite Ep in Er3. injection Er3 as <- <-.
  exists x, u. cbn [procs]. rewrite lookup_insert_ne by done. split_and!; [done..|]. apply exec_Some. exists u, r3, u'. cbn [procs store].
  rewrite lookup_insert_ne by done. split_and!; [done..|]. f_equal. by apply insert_insert_ne.
Qed.

(** ** One schedule stands for all *)

(** There is a schedule that ends with [Q], whatever the choices, in a state where
    nothing can run. *)
Inductive scheduled (Q : net -> Prop) (s : net) : Prop :=
| scheduled_end : Q s -> (forall s', ~ net_step s s') -> scheduled Q s
| scheduled_step p : (exists s', step_of p s s') -> (forall s', step_of p s s' -> scheduled Q s') -> scheduled Q s.

Lemma scheduled_any Q s q s' : net_ok s -> scheduled Q s -> step_of q s s' -> scheduled Q s'.
Proof using RO Hexcl Hspawn.
  intros Hs Hall. revert s' Hs. induction Hall as [s HQ Hstop|s p [s0 Hen] Hnext IH]; intros s' Hs Hq; [by edestruct Hstop; exists q|].
  destruct (decide (p = q)) as [->|Hpq]; [by apply Hnext|].
  destruct (step_diamond p q s s0 s' Hs Hpq Hen Hq) as (s3 & _ & Hp3). apply (scheduled_step Q s' p); [by exists s3|].
  intros s1 H1. destruct (step_swap p q s s0 s' s1 Hs Hpq Hen Hq H1) as (s1' & Ha & Hb). apply (IH s1' Ha); [|done]. by eapply net_step_ok.
Qed.

Definition stops (s : net) : Prop := Acc (fun s' s => net_step s s') s.

Lemma first_stops p s1 : stops s1 -> forall s, net_ok s -> step_of p s s1 -> (forall s', step_of p s s' -> stops s') -> stops s.
Proof using RO Hexcl Hspawn.
  induction 1 as [s1 _ IH]. intros s Hs H1 Hall. constructor. intros s' [q Hq]. destruct (decide (p = q)) as [->|Hpq]; [by apply Hall|].
  destruct (step_diamond p q s s1 s' Hs Hpq H1 Hq) as (s3 & Hq3 & Hp3). apply (IH s3); [by exists q|by eapply net_step_ok|done|].
  intros s4 H4. destruct (step_swap p q s s1 s' s4 Hs Hpq H1 Hq H4) as (s5 & Ha & Hb). destruct (Hall s5 Ha) as [Hacc]. apply Hacc. by exists q.
Qed.

Lemma scheduled_stops Q s : net_ok s -> scheduled Q s -> stops s.
Proof using RO Hexcl Hspawn.
  intros Hs Hall. revert Hs. induction Hall as [s HQ Hstop|s p [s0 Hen] Hnext IH]; intros Hs.
  - constructor. intros s' H'. by edestruct Hstop.
  - apply (first_stops p s0); [apply IH; [done|by eapply net_step_ok]|done..|]. intros s' H'. apply IH; [done|by eapply net_step_ok].
Qed.

(** If one schedule ends with [Q], then every execution is finite, and one that
    cannot go on has ended with [Q]. *)
Lemma any_schedule Q s : net_ok s -> scheduled Q s -> stops s /\
  forall s', rtc net_step s s' -> (forall s'', ~ net_step s' s'') -> Q s'.
Proof using RO Hexcl Hspawn.
  intros Hs Hall. split; [by eapply scheduled_stops|]. intros s' Hr. induction Hr as [s|s s1 s' [q Hq] _ IH]; intros Hstop.
  - destruct Hall as [HQ _|p [s' Hen] _]; [done|]. by edestruct Hstop; exists p.
  - apply IH; [by eapply net_step_ok|by eapply scheduled_any|done].
Qed.

(** ** Running one process *)

(** The values that a process pushes before it goes on. *)
Fixpoint push_all (l : list (addr * list Z)) (k : io D A) : io D A := match l with [] => k | (a, v) :: l => Rpush a v (push_all l k) end.


(** Without waiting, process [p] gets through [t] with a result in [Q]. *)
Fixpoint runs (t : io D A) (r : R) (Q : A -> R -> Prop) : Prop :=
  match t with
  | Ret x => Q x r
  | Stop _ => False
  | Rpush a v k => runs k (rpush a v r) Q
  | Blpop a k => match blpop a r with PopGot v r => runs (k v) r Q | _ => False end
  | SetKey a v k => runs k (set_key a v r) Q
  | GetKey a k => match get_key a r with GetNil => runs (k None) r Q | GetStr v => runs (k (Some v)) r Q | GetWrong => False end
  | Choose C k => (exists d, C d) /\ forall d, C d -> runs (k d) r Q
  end.

Lemma runs_mono (Q1 Q2 : A -> R -> Prop) t : forall r, (forall x r, Q1 x r -> Q2 x r) -> runs t r Q1 -> runs t r Q2.
Proof using.
  induction t as [x|e|a v k IH|a k IH|a v k IH|a k IH|C k IH]; cbn; intros r HQ Hr; try done; eauto.
  - destruct (blpop a r); try done. eauto.
  - destruct (get_key a r); try done; eauto.
  - destruct Hr as [Hex Hr]. split; [done|]. eauto.
Qed.

Context `{!Inhabited D}.

(** Process [p] runs as far as [t] without waiting. *)
Lemma scheduled_run Q p t : forall s, procs s !! p = Some t ->
  runs t (store s) (fun x r => scheduled Q (mk_net r (<[p := Ret x]> (procs s)))) -> scheduled Q s.
Proof using Inhabited0.
  set (d0 := inhabitant : D).
  assert (Hstep : forall t s r t', procs s !! p = Some t -> (exists d, allowed d t) -> (forall d, allowed d t -> react d p t (store s) = Some (r, t')) ->
    scheduled Q (mk_net r (<[p := t']> (procs s))) -> scheduled Q s).
  { intros u s r t' Eu [d Hd] Hr Hs. apply (scheduled_step Q s p).
    - eexists. exists d, u. split_and!; [done..|]. apply exec_Some. exists u, r, t'. by split_and!; [|apply Hr|].
    - intros s' (e & u' & Eu' & He & E). assert (u' = u) as -> by congruence. apply exec_Some in E as (u'' & r'' & t'' & E'' & Er & ->).
      assert (u'' = u) as -> by congruence. rewrite Hr in Er by done. by injection Er as <- <-. }
  induction t as [x|e|a v k IH|a k IH|a v k IH|a k IH|C k IH]; cbn [runs]; intros s Et Hr.
  - rewrite insert_id in Hr by done. by destruct s.
  - done.
  - eapply Hstep; [exact Et|by exists d0|done|]. apply IH; [apply lookup_insert_eq|]. eapply runs_mono; [|exact Hr]. intros x r. cbn [procs]. by rewrite insert_insert_eq.
  - destruct (blpop a (store s)) as [| |v r] eqn:Eb; try done. eapply Hstep; [exact Et|by exists d0|intros d _; cbn; by rewrite Eb|].
    apply (IH v); [apply lookup_insert_eq|]. eapply runs_mono; [|exact Hr]. intros x r1. cbn [procs]. by rewrite insert_insert_eq.
  - eapply Hstep; [exact Et|by exists d0|done|]. apply IH; [apply lookup_insert_eq|]. eapply runs_mono; [|exact Hr]. intros x r. cbn [procs]. by rewrite insert_insert_eq.
  - destruct (get_key a (store s)) as [| |v] eqn:Eg; try done.
    + eapply Hstep; [exact Et|by exists d0|intros d _; cbn; by rewrite Eg|]. apply (IH None); [apply lookup_insert_eq|]. eapply runs_mono; [|exact Hr].
      intros x r. cbn [procs]. by rewrite insert_insert_eq.
    + eapply Hstep; [exact Et|by exists d0|intros d _; cbn; by rewrite Eg|]. apply (IH (Some v)); [apply lookup_insert_eq|]. eapply runs_mono; [|exact Hr].
      intros x r. cbn [procs]. by rewrite insert_insert_eq.
  - destruct Hr as [[d Hd] Hr]. apply (scheduled_step Q s p).
    + eexists. exists d, (Choose C k). split_and!; [done..|]. apply exec_Some. by exists (Choose C k), (store s), (k d).
    + intros s' (e & u & Eu & He & E). assert (u = Choose C k) as -> by congruence. apply exec_Some in E as (u & r & t' & E & Er & ->).
      assert (u = Choose C k) as -> by congruence. injection Er as <- <-. apply (IH e); [apply lookup_insert_eq|]. eapply runs_mono; [|by apply Hr].
      intros x r. cbn [procs]. by rewrite insert_insert_eq.
Qed.

(** One step, whatever it does. *)
Lemma scheduled_do Q p t r t' s : procs s !! p = Some t -> (forall d, react d p t (store s) = Some (r, t')) -> match t with Choose _ _ => False | _ => True end ->
  scheduled Q (mk_net r (<[p := t']> (procs s))) -> scheduled Q s.
Proof using Inhabited0.
  intros Et Hr Hch Hs. apply (scheduled_step Q s p).
  - eexists. exists inhabitant, t. split_and!; [done|by destruct t|]. apply exec_Some. exists t, r, t'. by split_and!.
  - intros s' (e & u & Eu & He & E). apply exec_Some in E as (u' & r' & t'' & E & Er & ->). assert (u' = t) as -> by congruence.
    rewrite Hr in Er. by injection Er as <- <-.
Qed.

Lemma scheduled_pushes Q p l k : forall s, procs s !! p = Some (push_all l k) -> scheduled Q (mk_net (pushes l (store s)) (<[p := k]> (procs s))) -> scheduled Q s.
Proof using Inhabited0.
  induction l as [|[a v] l IH]; intros s Ep Hs.
  - cbn in *. rewrite insert_id in Hs by done. by destruct s.
  - eapply scheduled_do; [exact Ep|done|done|]. apply IH; cbn [store procs]; [apply lookup_insert_eq|]. rewrite insert_insert_eq. exact Hs.
Qed.

(** Process [p] takes what is there. *)
Lemma scheduled_pop Q p a k v r s : procs s !! p = Some (Blpop a k) -> blpop a (store s) = PopGot v r -> scheduled Q (mk_net r (<[p := k v]> (procs s))) -> scheduled Q s.
Proof using Inhabited0. intros Ep Eb Hs. eapply scheduled_do; [exact Ep|intros d; cbn; by rewrite Eb|done|exact Hs]. Qed.

(** A process that has ended is started again. *)
Lemma scheduled_spawn Q p x t s : procs s !! p = Some (Ret x) -> spawn p x = Some t ->
  scheduled Q (mk_net (store s) (<[p := t]> (procs s))) -> scheduled Q s.
Proof using Inhabited0.
  intros Ep Es Hs. apply (scheduled_step Q s p).
  - eexists. exists inhabitant, (Ret x). split_and!; [done..|]. apply exec_Some. exists (Ret x), (store s), t. split_and!; [done| |done]. cbn. by rewrite Es.
  - intros s' (e & u & Eu & He & E). apply exec_Some in E as (u' & r & t' & E & Er & ->). assert (u' = Ret x) as -> by congruence.
    cbn in Er. rewrite Es in Er. by injection Er as <- <-.
Qed.
End Net.

(** Running a sequence. *)
Lemma runs_bind {R D A B} `{Redis R} (f : A -> io D B) (t : io D A) : forall (r : R) Q,
  runs t r (fun x r => runs (f x) r Q) -> runs (t ≫= f) r Q.
Proof.
  induction t as [x|e|a v k IH|a k IH|a v k IH|a k IH|C k IH]; intros r Q; cbn; try done; eauto.
  - destruct (blpop a r); try done. apply IH.
  - destruct (get_key a r); try done; apply IH.
  - intros [Hex Hr]. split; [done|]. intros d Hd. by apply IH, Hr.
Qed.

Lemma typed_bind {P D A B} may msg (fine : P -> A -> Prop) (fine' : P -> B -> Prop) p (f : A -> io D B) (t : io D A) :
  typed may msg fine p t -> (forall x, fine p x -> typed may msg fine' p (f x)) -> typed may msg fine' p (t ≫= f).
Proof.
  intros Ht Hf. induction t as [x|e|a v k IH|a k IH|a v k IH|a k IH|C k IH]; cbn in *; try done; [by apply Hf|..]; naive_solver.
Qed.

(** A computation in a process of known use of keys. *)
Lemma typed_lift {P D A B} may msg (fine : P -> B -> Prop) p (x : res A) (f : A -> io D B) :
  (forall v, x = Ok v -> typed may msg fine p (f v)) -> typed may msg fine p (lift x ≫= f).
Proof. intros Hf. destruct x as [v|e]; [by apply Hf|done]. Qed.

Lemma typed_push_all {P D A} may msg (fine : P -> A -> Prop) p l (k : io D A) :
  Forall (fun av => may Push p av.1 /\ msg av.1 av.2) l -> typed may msg fine p k -> typed may msg fine p (push_all l k).
Proof. intros Hl Hk. induction Hl as [|[a v] l [Ha Hv] _ IH]; [done|]. by cbn. Qed.

Lemma push_all_bind {D A B} l (k : io D A) (f : A -> io D B) : push_all l k ≫= f = push_all l (k ≫= f).
Proof. induction l as [|[a v] l IH]; [done|]. cbn in *. by rewrite IH. Qed.
