(* ===== verification/Command.v ===== *)
(** The requests that the client, its agent and the nodes send to each other
    through Redis: [destor_cmd] of [destor/src/utils/redis_util.c],
    [destorCommand.cc] and [AgentCommand.cc] of [client/src/protocol].

    The buffer of a command and its [_cmLen] are a [cursor] of [Serial]; the text
    of a request, where it is read, ends with the NUL that hiredis adds. A
    [std::string] or a C string is the list of its bytes without the NUL. *)

From S2P Require Import Prelude Serial Recipe.

Definition MAX_COMMAND_LEN : Z := 4096.

(** [memcpy] of the first [slen] bytes of a string and its NUL. *)
Definition put_text (cmd : cursor) (s : list Z) (slen : Z) : res cursor := bs ← read_bytes (s ++ [0]) 0 slen; put cmd bs.

(** ** The nodes *)

Record destor_cmd := mk_destor_cmd { dc_type : Z; dc_group_name : list Z; dc_size : Z; dc_to_read_filename : list Z; dc_client_ip : Z }.

Definition destor_cmd_init : cursor := mk_cursor (zeros MAX_COMMAND_LEN) 0.

Definition destor_cmd_write_int (cmd : cursor) (value : Z) : res cursor :=
  let tmpv := s32 (htonl (u32 value)) in put cmd (le_bytes 4 tmpv).

Definition destor_cmd_write_uint (cmd : cursor) (value : Z) : res cursor :=
  let tmpv := u32 (htonl value) in put cmd (le_bytes 4 tmpv).

Definition destor_cmd_write_string (cmd : cursor) (s : list Z) : res cursor :=
  let slen := s32 (zlen s) in
  let tmpslen := s32 (htonl (u32 slen)) in
  cmd ← put cmd (le_bytes 4 tmpslen);
  put_text cmd s slen.

Definition destor_cmd_read_int (cmd : cursor) : res (Z * cursor) :=
  '(bs, cmd) ← get cmd 4; let tmpint := s32 (le_val bs) in Ok (s32 (ntohl (u32 tmpint)), cmd).

Definition destor_cmd_read_uint (cmd : cursor) : res (Z * cursor) :=
  '(bs, cmd) ← get cmd 4; let tmpint := le_val bs in Ok (u32 (ntohl tmpint), cmd).

Definition destor_cmd_read_string (cmd : cursor) : res (list Z * cursor) :=
  '(slen, cmd) ← destor_cmd_read_int cmd;
  '(bs, cmd) ← get cmd slen;
  Ok (cstr bs, cmd).

Definition resolve_destor_command_type0 (c : destor_cmd) (cmd : cursor) : res destor_cmd :=
  '(group_name, cmd) ← destor_cmd_read_string cmd;
  '(size, cmd) ← destor_cmd_read_uint cmd;
  Ok (mk_destor_cmd (dc_type c) group_name size (dc_to_read_filename c) (dc_client_ip c)).

Definition resolve_destor_command_type1 (c : destor_cmd) (cmd : cursor) : res destor_cmd :=
  '(to_read_filename, cmd) ← destor_cmd_read_string cmd;
  '(client_ip, cmd) ← destor_cmd_read_uint cmd;
  Ok (mk_destor_cmd (dc_type c) (dc_group_name c) (dc_size c) to_read_filename client_ip).

(** The command is allocated with [calloc]. *)
Definition destor_cmd_init_with_reqstr (reqstr : list Z) : res destor_cmd :=
  let cmd := mk_cursor (reqstr ++ [0]) 0 in
  '(type, cmd) ← destor_cmd_read_int cmd;
  let c := mk_destor_cmd type [] 0 [] 0 in
  if type =? 0 then resolve_destor_command_type0 c cmd
  else if type =? 1 then resolve_destor_command_type1 c cmd
  else Ok c.

(** The size that is written is the field, not the argument. *)
Definition build_destor_command_type0 (c : destor_cmd) (cmd : cursor) (type : Z) (group_name : list Z) (size : Z) : res (destor_cmd * cursor) :=
  let c := mk_destor_cmd type group_name (dc_size c) (dc_to_read_filename c) (dc_client_ip c) in
  cmd ← destor_cmd_write_int cmd (dc_type c);
  cmd ← destor_cmd_write_string cmd (dc_group_name c);
  cmd ← destor_cmd_write_uint cmd (dc_size c);
  Ok (c, cmd).

Definition build_destor_command_type1 (c : destor_cmd) (cmd : cursor) (type : Z) (filename : list Z) (client_ip : Z) : res (destor_cmd * cursor) :=
  let c := mk_destor_cmd type (dc_group_name c) (dc_size c) filename client_ip in
  cmd ← destor_cmd_write_int cmd (dc_type c);
  cmd ← destor_cmd_write_string cmd (dc_to_read_filename c);
  cmd ← destor_cmd_write_uint cmd (dc_client_ip c);
  Ok (c, cmd).

(** ** The client to the nodes *)

Module destorCommand.
(** [new destorCommand()] *)
Definition create : cursor := mk_cursor (zeros MAX_COMMAND_LEN) 0.

Definition writeInt (cmd : cursor) (value : Z) : res cursor :=
  let tmpv := s32 (htonl (u32 value)) in put cmd (le_bytes 4 tmpv).

Definition writeUInt (cmd : cursor) (value : Z) : res cursor :=
  let tmpv := s32 (htonl value) in put cmd (le_bytes 4 tmpv).

Definition writeString (cmd : cursor) (s : list Z) : res cursor :=
  let slen := s32 (zlen s) in
  let tmpslen := s32 (htonl (u32 slen)) in
  cmd ← put cmd (le_bytes 4 tmpslen);
  put_text cmd s slen.

Definition buildType0 (cmd : cursor) (type : Z) (groupName : list Z) (size : Z) : res cursor :=
  cmd ← writeInt cmd type; cmd ← writeString cmd groupName; writeUInt cmd size.

Definition buildType1 (cmd : cursor) (type : Z) (filename : list Z) (ip : Z) : res cursor :=
  cmd ← writeInt cmd type; cmd ← writeString cmd filename; writeUInt cmd ip.

(** What [sendTo] pushes to the key [destor_request]: the first [_cmLen] bytes. *)
Definition message (cmd : cursor) : list Z := ztake (pos cmd) (mem cmd).
End destorCommand.

(** ** The user to the agent *)

Module AgentCommand.
Inductive request := Write (filepath filesaveas : list Z) (filesize : Z) | Read (to_read_filename to_save_as : list Z) | Other (type : Z).

Definition create : cursor := mk_cursor (zeros MAX_COMMAND_LEN) 0.

Definition writeInt (cmd : cursor) (value : Z) : res cursor :=
  let tmpv := s32 (htonl (u32 value)) in put cmd (le_bytes 4 tmpv).

Definition writeString (cmd : cursor) (s : list Z) : res cursor :=
  let slen := s32 (zlen s) in
  let tmpslen := s32 (htonl (u32 slen)) in
  cmd ← put cmd (le_bytes 4 tmpslen);
  put_text cmd s slen.

Definition readInt (cmd : cursor) : res (Z * cursor) :=
  '(bs, cmd) ← get cmd 4; let tmpint := s32 (le_val bs) in Ok (s32 (ntohl (u32 tmpint)), cmd).

Definition readString (cmd : cursor) : res (list Z * cursor) :=
  '(slen, cmd) ← readInt cmd;
  '(sname, cmd) ← get cmd slen;
  Ok (cstr sname, cmd).

Definition buildType0 (cmd : cursor) (type : Z) (filepath saveas : list Z) (filesize : Z) : res cursor :=
  cmd ← writeInt cmd type; cmd ← writeString cmd filepath; cmd ← writeString cmd saveas; writeInt cmd filesize.

Definition buildType1 (cmd : cursor) (type : Z) (filename saveas : list Z) : res cursor :=
  cmd ← writeInt cmd type; cmd ← writeString cmd filename; writeString cmd saveas.

Definition resolveType0 (cmd : cursor) : res request :=
  '(filepath, cmd) ← readString cmd;
  '(filesaveas, cmd) ← readString cmd;
  '(filesize, cmd) ← readInt cmd;
  Ok (Write filepath filesaveas filesize).

Definition resolveType1 (cmd : cursor) : res request :=
  '(to_read_filename, cmd) ← readString cmd;
  '(to_save_as, cmd) ← readString cmd;
  Ok (Read to_read_filename to_save_as).

(** [AgentCommand(char *reqStr)] *)
Definition parse (reqStr : list Z) : res request :=
  let cmd := mk_cursor (reqStr ++ [0]) 0 in
  '(type, cmd) ← readInt cmd;
  if type =? 0 then resolveType0 cmd else if type =? 1 then resolveType1 cmd else Ok (Other type).

Definition message (cmd : cursor) : list Z := ztake (pos cmd) (mem cmd).
End AgentCommand.

(** ** The formats *)

(** A string of a command. *)
Definition text_ok (s : list Z) : Prop := Forall (fun ch => ch <> 0) s /\ zlen s < 2 ^ 31.

Definition text_bytes (s : list Z) : list Z := be_bytes 4 (zlen s) ++ s.

Lemma writes_int v : writes (fun cmd => destor_cmd_write_int cmd v) (be_bytes 4 v).
Proof. exact (writes_codec serial_int32 unserial_int32 (in_s 32) v). Qed.

Lemma writes_uint v : writes (fun cmd => destorCommand.writeUInt cmd v) (be_bytes 4 v).
Proof.
  intros pre rest Hl. unfold destorCommand.writeUInt, htonl. rewrite (le_bytes_swrap 32 4) by lia. rewrite le_bytes_bswap. by apply put_app.
Qed.

Lemma writes_string s : text_ok s -> writes (fun cmd => destor_cmd_write_string cmd s) (text_bytes s).
Proof.
  intros [_ Hl]. pose proof (zlen_nonneg s). unfold destor_cmd_write_string. rewrite (s32_id (zlen s)) by lia.
  apply (writes_bind (fun cmd => destor_cmd_write_int cmd (zlen s)) (fun cmd => put_text cmd s (zlen s))); [apply writes_int|].
  assert (Es : read_bytes (s ++ [0]) 0 (zlen s) = Ok s) by exact (read_bytes_app [] s [0] 0 (zlen s) eq_refl eq_refl).
  unfold put_text. rewrite Es. apply writes_put.
Qed.

Lemma reads_int v : in_s 32 v -> reads destor_cmd_read_int v (be_bytes 4 v).
Proof. exact (reads_codec serial_int32 unserial_int32 (in_s 32) v). Qed.

Lemma reads_uint v : in_u 32 v -> reads destor_cmd_read_uint v (be_bytes 4 v).
Proof. exact (reads_codec serial_uint32 unserial_uint32 (in_u 32) v). Qed.

Lemma cstr_text s : Forall (fun ch => ch <> 0) s -> cstr s = s.
Proof. induction 1 as [|ch s Hc _ IH]; [done|]. cbn [cstr]. destruct (Z.eqb_spec ch 0); [done|]. by rewrite IH. Qed.

Lemma reads_string s : text_ok s -> reads destor_cmd_read_string s (text_bytes s).
Proof.
  intros [Hz Hl]. pose proof (zlen_nonneg s).
  apply (reads_bind destor_cmd_read_int (fun slen cmd => '(bs, cmd) ← get cmd slen; Ok (cstr bs, cmd)) (zlen s)); [apply reads_int; unfold in_s; lia|].
  rewrite <- (app_nil_r s) at 2. apply (reads_bind (fun cmd => get cmd (zlen s)) (fun bs cmd => Ok (cstr bs, cmd)) s); [by apply reads_get|].
  intros pre rest. rewrite cstr_text by done. by rewrite app_nil_r.
Qed.

(** What a writer leaves in a fresh command is what it writes. *)
Lemma message_of f bs cmd : writes f bs -> zlen bs <= MAX_COMMAND_LEN -> f destorCommand.create = Ok cmd -> destorCommand.message cmd = bs.
Proof.
  intros Hw Hl E. pose proof (Hw [] (zeros MAX_COMMAND_LEN) ltac:(by rewrite zlen_zeros)) as E'.
  change (f destorCommand.create = Ok (mk_cursor (([] ++ bs) ++ zdrop (zlen bs) (zeros MAX_COMMAND_LEN)) (zlen ([] ++ bs)))) in E'. rewrite E in E'. injection E' as ->. unfold destorCommand.message. cbn [pos mem app].
  by rewrite ztake_app_exact.
Qed.

(** The requests of the client: the type, the name, a number. *)
Definition request_bytes (type : Z) (name : list Z) (n : Z) : list Z := be_bytes 4 type ++ text_bytes name ++ be_bytes 4 n.

Lemma build_request type name n : text_ok name -> zlen name <= MAX_COMMAND_LEN - 12 ->
  exists cmd, destorCommand.buildType0 destorCommand.create type name n = Ok cmd /\ destorCommand.message cmd = request_bytes type name n.
Proof.
  intros Hn Hl.
  assert (Hw : writes (fun cmd => destorCommand.buildType0 cmd type name n) (request_bytes type name n)).
  { apply (writes_bind (fun cmd => destor_cmd_write_int cmd type) (fun cmd => cmd ← destor_cmd_write_string cmd name; destorCommand.writeUInt cmd n)); [apply writes_int|].
    apply (writes_bind (fun cmd => destor_cmd_write_string cmd name) (fun cmd => destorCommand.writeUInt cmd n)); [by apply writes_string|apply writes_uint]. }
  assert (Hlen : zlen (request_bytes type name n) <= MAX_COMMAND_LEN) by (unfold request_bytes, text_bytes; rewrite !zlen_app, !zlen_be_bytes; lia).
  pose proof (Hw [] (zeros MAX_COMMAND_LEN) ltac:(by rewrite zlen_zeros)) as E. eexists. split; [exact E|]. by eapply message_of.
Qed.

Lemma resolve_request type name n : text_ok name -> in_u 32 n -> type = 0 \/ type = 1 ->
  destor_cmd_init_with_reqstr (request_bytes type name n) =
    Ok (if type =? 0 then mk_destor_cmd 0 name n [] 0 else mk_destor_cmd 1 [] 0 name n).
Proof.
  intros Hn Hu Ht. unfold destor_cmd_init_with_reqstr, request_bytes. rewrite <- !app_assoc.
  pose proof (reads_int type ltac:(unfold in_s; lia) [] (text_bytes name ++ be_bytes 4 n ++ [0])) as E1.
  pose proof (reads_string name Hn (be_bytes 4 type) (be_bytes 4 n ++ [0])) as E2.
  pose proof (reads_uint n Hu (be_bytes 4 type ++ text_bytes name) [0]) as E3. rewrite <- !app_assoc in E3.
  change (zlen (@nil Z)) with 0 in E1. cbn [app] in E1. rewrite E1. step.
  unfold resolve_destor_command_type0, resolve_destor_command_type1.
  destruct Ht as [-> | ->]; cbn [Z.eqb Pos.eqb dc_type dc_group_name dc_size dc_to_read_filename dc_client_ip]; rewrite E2; step; rewrite E3; by step.
Qed.

(** The requests of a user. *)
Lemma agent_reads_string s : text_ok s -> reads AgentCommand.readString s (text_bytes s).
Proof. exact (reads_string s). Qed.

Definition write_bytes_of (filepath saveas : list Z) (filesize : Z) : list Z :=
  be_bytes 4 0 ++ text_bytes filepath ++ text_bytes saveas ++ be_bytes 4 filesize.
Definition read_bytes_of (filename saveas : list Z) : list Z := be_bytes 4 1 ++ text_bytes filename ++ text_bytes saveas.

Lemma writes_user_write filepath saveas filesize : text_ok filepath -> text_ok saveas ->
  writes (fun cmd => AgentCommand.buildType0 cmd 0 filepath saveas filesize) (write_bytes_of filepath saveas filesize).
Proof.
  intros H1 H2. apply (writes_bind (fun cmd => AgentCommand.writeInt cmd 0)
    (fun cmd => cmd ← AgentCommand.writeString cmd filepath; cmd ← AgentCommand.writeString cmd saveas; AgentCommand.writeInt cmd filesize)); [exact (writes_int 0)|].
  apply (writes_bind (fun cmd => AgentCommand.writeString cmd filepath) (fun cmd => cmd ← AgentCommand.writeString cmd saveas; AgentCommand.writeInt cmd filesize));
    [exact (writes_string _ H1)|].
  apply (writes_bind (fun cmd => AgentCommand.writeString cmd saveas) (fun cmd => AgentCommand.writeInt cmd filesize)); [exact (writes_string _ H2)|exact (writes_int _)].
Qed.

Lemma writes_user_read filename saveas : text_ok filename -> text_ok saveas ->
  writes (fun cmd => AgentCommand.buildType1 cmd 1 filename saveas) (read_bytes_of filename saveas).
Proof.
  intros H1 H2. apply (writes_bind (fun cmd => AgentCommand.writeInt cmd 1)
    (fun cmd => cmd ← AgentCommand.writeString cmd filename; AgentCommand.writeString cmd saveas)); [exact (writes_int 1)|].
  apply (writes_bind (fun cmd => AgentCommand.writeString cmd filename) (fun cmd => AgentCommand.writeString cmd saveas)); [exact (writes_string _ H1)|exact (writes_string _ H2)].
Qed.

Lemma parse_write filepath saveas filesize : text_ok filepath -> text_ok saveas -> in_s 32 filesize ->
  AgentCommand.parse (write_bytes_of filepath saveas filesize) = Ok (AgentCommand.Write filepath saveas filesize).
Proof.
  intros H1 H2 H3. unfold AgentCommand.parse, write_bytes_of. rewrite <- !app_assoc.
  pose proof (reads_int 0 ltac:(unfold in_s; lia) [] (text_bytes filepath ++ text_bytes saveas ++ be_bytes 4 filesize ++ [0])) as E1.
  pose proof (reads_string filepath H1 (be_bytes 4 0) (text_bytes saveas ++ be_bytes 4 filesize ++ [0])) as E2.
  pose proof (reads_string saveas H2 (be_bytes 4 0 ++ text_bytes filepath) (be_bytes 4 filesize ++ [0])) as E3. rewrite <- !app_assoc in E3.
  pose proof (reads_int filesize H3 (be_bytes 4 0 ++ text_bytes filepath ++ text_bytes saveas) [0]) as E4. rewrite <- !app_assoc in E4.
  change (zlen (@nil Z)) with 0 in E1. change AgentCommand.readInt with destor_cmd_read_int. cbn [app] in E1. rewrite E1. step.
  unfold AgentCommand.resolveType0. change AgentCommand.readString with destor_cmd_read_string. change AgentCommand.readInt with destor_cmd_read_int.
  cbn [Z.eqb]. rewrite E2. step. rewrite E3. step. rewrite E4. by step.
Qed.

Lemma parse_read filename saveas : text_ok filename -> text_ok saveas -> AgentCommand.parse (read_bytes_of filename saveas) = Ok (AgentCommand.Read filename saveas).
Proof.
  intros H1 H2. unfold AgentCommand.parse, read_bytes_of. rewrite <- !app_assoc.
  pose proof (reads_int 1 ltac:(unfold in_s; lia) [] (text_bytes filename ++ text_bytes saveas ++ [0])) as E1.
  pose proof (reads_string filename H1 (be_bytes 4 1) (text_bytes saveas ++ [0])) as E2.
  pose proof (reads_string saveas H2 (be_bytes 4 1 ++ text_bytes filename) [0]) as E3. rewrite <- !app_assoc in E3.
  change (zlen (@nil Z)) with 0 in E1. change AgentCommand.readInt with destor_cmd_read_int. cbn [app] in E1. rewrite E1. step.
  unfold AgentCommand.resolveType1. change AgentCommand.readString with destor_cmd_read_string. cbn [Z.eqb Pos.eqb]. rewrite E2. step. rewrite E3. by step.
Qed.

(** Beyond the end of the buffer nothing can be written. *)
Lemma put_beyond pre rest bs : zlen rest < zlen bs -> put (mk_cursor (pre ++ rest) (zlen pre)) bs = Err EBounds.
Proof. intros Hl. unfold put, write_bytes. cbn [mem pos]. rewrite zlen_app. by rewrite bool_decide_eq_false_2 by lia. Qed.

(** C33: A request of the client is what the node reads, when its name fits the buffer
    of 4096 bytes; the program does not check that, and writes past the buffer
    when it does not. *)
Theorem request_roundtrip type name n : text_ok name -> in_u 32 n -> type = 0 \/ type = 1 ->
  (zlen name <= MAX_COMMAND_LEN - 12 ->
     exists cmd, destorCommand.buildType0 destorCommand.create type name n = Ok cmd /\ destorCommand.buildType1 destorCommand.create type name n = Ok cmd /\
       destor_cmd_init_with_reqstr (destorCommand.message cmd) = Ok (if type =? 0 then mk_destor_cmd 0 name n [] 0 else mk_destor_cmd 1 [] 0 name n)) /\
  (MAX_COMMAND_LEN - 12 < zlen name -> destorCommand.buildType0 destorCommand.create type name n = Err EBounds).
Proof.
  intros Hn Hu Ht. split.
  - intros Hl. destruct (build_request type name n Hn Hl) as (cmd & E & Em). exists cmd. split_and!; [exact E|exact E|]. rewrite Em. by apply resolve_request.
  - intros Hl. unfold destorCommand.buildType0. pose proof (writes_int type [] (zeros MAX_COMMAND_LEN) ltac:(by rewrite zlen_be_bytes, zlen_zeros)) as E1.
    rewrite app_nil_l in E1. change (destorCommand.writeInt destorCommand.create type = Ok (mk_cursor (be_bytes 4 type ++ zdrop (zlen (be_bytes 4 type)) (zeros MAX_COMMAND_LEN)) (zlen (be_bytes 4 type)))) in E1.
    rewrite E1, (zlen_be_bytes 4 type) at 1. step.
    assert (Ez : zlen (zdrop (Z.of_nat 4) (zeros MAX_COMMAND_LEN)) = 4092) by by vm_compute.
    set (rest := zdrop _ _) in *. clearbody rest. destruct (decide (zlen name <= 4088)) as [Hs|Hs].
    + assert (Et : zlen (text_bytes name) = 4 + zlen name) by (unfold text_bytes; by rewrite zlen_app, zlen_be_bytes).
      pose proof (writes_string name Hn (be_bytes 4 type) rest ltac:(lia)) as E2. cbv beta in E2.
      change (destor_cmd_write_string ?c name) with (destorCommand.writeString c name) in E2. rewrite E2. step.
      apply put_beyond. rewrite zlen_le_bytes, zlen_zdrop; unfold MAX_COMMAND_LEN in *; lia.
    + destruct Hn as [_ Hn]. pose proof (zlen_nonneg name). unfold destorCommand.writeString. rewrite (s32_id (zlen name)) by lia.
      pose proof (writes_int (zlen name) (be_bytes 4 type) rest ltac:(rewrite zlen_be_bytes; lia)) as E2. unfold destor_cmd_write_int in E2. rewrite E2. step.
      assert (Es : read_bytes (name ++ [0]) 0 (zlen name) = Ok name) by exact (read_bytes_app [] name [0] 0 (zlen name) eq_refl eq_refl).
      unfold put_text. rewrite Es. step. rewrite put_beyond; [done|]. rewrite zlen_zdrop; rewrite zlen_be_bytes; lia.
Qed.

Lemma request_roundtrip_witness : exists cmd, destorCommand.buildType0 destorCommand.create 0 [47; 97; 48] 5 = Ok cmd /\
  destor_cmd_init_with_reqstr (destorCommand.message cmd) = Ok (mk_destor_cmd 0 [47; 97; 48] 5 [] 0).
Proof.
  refine (match request_roundtrip 0 [47; 97; 48] 5 (conj _ _) _ (or_introl eq_refl) with conj H _ => match H _ with ex_intro _ cmd (conj E (conj _ F)) => ex_intro _ cmd (conj E F) end end);
    [by repeat constructor|done|done|done].
Defined.
