(* ===== verification/ClientPhase.v ===== *)
(** The phases of the client before grouping: [Reading.cc], [Chunking.cc] and
    [Hashing.cc] of [client/src/common].

    A chunk of the client has no flags and no container; the end of the file is
    the end of the queue. The chunking functions of [rabin_chunking.cc] and
    [ae_chunking.cc] are the text of those of destor with the configuration in
    [chunkMetaData], so they are those of [Chunking]. What [read] returns is a
    parameter: the bytes of each call, or an error. *)

From S2P Require Import Prelude Destor Container Chunking ChunkPhase HashPhase.

Record client_chunk := mk_cchunk { cc_fp : fingerprint; cc_size : Z; cc_data : option (list Z) }.

Definition client_new_chunk (size : Z) : client_chunk :=
  mk_cchunk (zeros fp_size) size (if 0 <? size then Some (fresh_bytes size) else None).

(** ** Reading *)

Inductive read_reply := ReadData (buf : list Z) | ReadError.

(** The loop over [read]: an empty reply is the end of the file, after the last
    reply there is nothing more. *)
Fixpoint client_read_file (replies : list read_reply) : res (list client_chunk) :=
  match replies with
  | [] => Ok []
  | ReadError :: _ => Ok []
  | ReadData buf :: replies =>
      let size := zlen buf in
      if size =? 0 then Ok [] else
      let c := client_new_chunk size in
      d ← deref (cc_data c);
      d ← write_bytes d 0 buf;
      cs ← client_read_file replies;
      Ok (mk_cchunk (cc_fp c) (cc_size c) (Some d) :: cs)
  end.

(** ** Chunking *)

Section Thread.
Context (chunking : list Z -> Z -> res Z) (max_size : Z).

(** [memcpy(leftbuf + leftlen, c->data, c->size); leftlen += c->size] *)
Definition client_append (lb : left_data) (c : client_chunk) : res left_data :=
  data ← match cc_data c with Some d => Ok d | None => Err EAssert end;
  _ ← c_assert (negb (cc_size c =? 0));
  src ← read_bytes data 0 (cc_size c);
  b ← write_bytes (leftbuf lb) (leftlen lb) src;
  Ok (mk_left b (s32 (leftlen lb + cc_size c)) (leftoff lb)).

(** [while (leftlen < chunk_max_size)]: the pops, until the queue has ended. *)
Fixpoint client_fill (c : option client_chunk) (cin : list client_chunk) (lb : left_data) : res (option client_chunk * list client_chunk * left_data) :=
  if leftlen lb <? max_size then
    lb ← shift_left lb;
    match cin with
    | c :: cin => lb ← client_append lb c; client_fill (Some c) cin lb
    | [] => Ok (None, [], lb)
    end
  else Ok (c, cin, lb).

(** The rest of the loop: [c] is what was popped last. *)
Fixpoint client_chunk_loop (fuel : nat) (c : option client_chunk) (cin : list client_chunk) (lb : left_data) : res (list client_chunk) :=
  match fuel with
  | O => Err EFuel
  | S fuel =>
      '(c, cin, lb) ← client_fill c cin lb;
      if (leftlen lb =? 0) && match c with None => true | Some _ => false end then Ok [] else
      chunk_size ← chunking (zdrop (leftoff lb) (leftbuf lb)) (leftlen lb);
      _ ← c_assert (negb (chunk_size =? 0));
      let nc := client_new_chunk (u32 chunk_size) in
      d ← deref (cc_data nc);
      src ← read_bytes (leftbuf lb) (leftoff lb) chunk_size;
      d ← write_bytes d 0 src;
      let lb := mk_left (leftbuf lb) (s32 (leftlen lb - chunk_size)) (s32 (leftoff lb + chunk_size)) in
      cs ← client_chunk_loop fuel c cin lb;
      Ok (mk_cchunk (cc_fp nc) (cc_size nc) (Some d) :: cs)
  end.

Definition client_chunk_thread (fuel : nat) (read_queue : list client_chunk) : res (list client_chunk) :=
  client_chunk_loop fuel None read_queue (mk_left (fresh_bytes (DEFAULT_BLOCK_SIZE + max_size)) 0 0).
End Thread.

(** Rounding, without the assertions of destor. *)
Definition client_round_avg (cfg : chunk_config) : res chunk_config :=
  pwr ← pwr_loop 32 (chunk_avg_size cfg) 0;
  avg ← shl1 (pwr - 1);
  Ok (mk_chunk_config avg (chunk_min_size cfg) (chunk_max_size cfg)).

(** [start_chunk_phase]: [chunkMetaData] and the function [chunking] points to. *)
Definition client_start_chunk_phase (chunk_algorithm : Z) (cfg : chunk_config) : res (chunk_config * (list Z -> Z -> res Z)) :=
  if chunk_algorithm =? CHUNK_RABIN then
    cfg ← client_round_avg cfg; '(T, U, shift) ← chunkAlg_init; Ok (cfg, rabin_chunk_data T U shift cfg)
  else if chunk_algorithm =? CHUNK_NORMALIZED_RABIN then
    cfg ← client_round_avg cfg; '(T, U, shift) ← chunkAlg_init; Ok (cfg, normalized_rabin_chunk_data T U shift cfg)
  else if chunk_algorithm =? CHUNK_TTTD then
    cfg ← client_round_avg cfg; '(T, U, shift) ← chunkAlg_init; Ok (cfg, tttd_chunk_data T U shift cfg)
  else if chunk_algorithm =? CHUNK_FIXED then
    let cfg := mk_chunk_config (chunk_avg_size cfg) (chunk_min_size cfg) (chunk_avg_size cfg) in
    Ok (cfg, fixed_chunk_data cfg)
  else if chunk_algorithm =? CHUNK_FILE then
    let size := 4194304 - 32768 in
    let cfg := mk_chunk_config size (chunk_min_size cfg) size in
    Ok (cfg, fixed_chunk_data cfg)
  else if chunk_algorithm =? CHUNK_AE then Ok (cfg, ae_chunk_data cfg (ae_init cfg))
  else Err (EExit 1).

(** ** Hashing *)

Section Hash.
Context (sha1 : list Z -> fingerprint).

Fixpoint client_sha1_thread (chunk_queue : list client_chunk) : res (list client_chunk) :=
  match chunk_queue with
  | [] => Ok []
  | c :: cs =>
      data ← match cc_data c with Some d => Ok d | None => Err EAssert end;
      bs ← read_bytes data 0 (cc_size c);
      cs ← client_sha1_thread cs;
      Ok (mk_cchunk (sha1 bs) (cc_size c) (cc_data c) :: cs)
  end.

(** The three phases: what the grouping gets. *)
Definition client_chunks (fuel : nat) (chunk_algorithm : Z) (cfg : chunk_config) (replies : list read_reply) : res (list client_chunk) :=
  read_queue ← client_read_file replies;
  '(cfg, chunking) ← client_start_chunk_phase chunk_algorithm cfg;
  chunk_queue ← client_chunk_thread chunking (chunk_max_size cfg) fuel read_queue;
  client_sha1_thread chunk_queue.
End Hash.

(** ** Specification *)

Definition cblock (b : list Z) : client_chunk := mk_cchunk (zeros fp_size) (zlen b) (Some b).
Definition hashed_cblock (sha1 : list Z -> fingerprint) (b : list Z) : client_chunk := mk_cchunk (sha1 b) (zlen b) (Some b).

Lemma client_filled b : b <> [] -> (d ← deref (cc_data (client_new_chunk (zlen b))); write_bytes d 0 b) = Ok b.
Proof.
  intros Hne. assert (0 < zlen b) by (destruct b; [done|rewrite zlen_cons; pose proof (zlen_nonneg b); lia]).
  unfold client_new_chunk. rewrite (proj2 (Z.ltb_lt 0 (zlen b))) by done. cbn [cc_data deref]. step. apply write_all. rewrite zlen_fresh; lia.
Qed.

(** The replies for a file: its bytes in non-empty pieces, and the end. *)
Lemma client_read_ok bs : Forall (fun b => b <> []) bs -> client_read_file (map ReadData bs ++ [ReadData []]) = Ok (map cblock bs).
Proof.
  induction 1 as [|b bs Hb _ IH]; [done|]. cbn [map app client_read_file]. destruct (Z.eqb_spec (zlen b) 0) as [E|_]; [by apply zlen_nil_inv in E|].
  pose proof (client_filled b Hb) as Hd. apply bind_Ok in Hd as (d & -> & Hw). step. rewrite Hw. step. rewrite IH. by step.
Qed.

Section Spec.
Context (chunking : list Z -> Z -> res Z) (max_size : Z).
Context (max_pos : 0 < max_size <= CONTAINER_SIZE - CONTAINER_META_SIZE).
Context `{HC : !Chunker chunking max_size}.

Abbreviation block_ok := (fun b => 0 < zlen b <= DEFAULT_BLOCK_SIZE /\ Forall is_byte b).

Lemma client_append_ok lb d b : left_ok max_size lb d -> leftoff lb = 0 -> zlen d + zlen b <= capacity max_size -> block_ok b ->
  exists lb', client_append lb (cblock b) = Ok lb' /\ left_ok max_size lb' (d ++ b).
Proof using max_pos.
  intros Hl H0 Hs [Hbl Hb]. destruct (append_block_ok max_size max_pos lb d b Hl H0 Hs Hb) as (lb' & E & Hl' & _). exists lb'. split; [|exact Hl'].
  unfold client_append. cbn [cc_data cc_size cblock]. step. destruct (Z.eqb_spec (zlen b) 0); [lia|]. cbn [negb c_assert]. step.
  unfold append_block in E. cbn [ck_data ck_size block_chunk deref] in E. rewrite bind_ret in E. rewrite (lo_len _ _ _ Hl) in E |- *. exact E.
Qed.

(** Filling the buffer. *)
Lemma client_fill_ok bs : Forall block_ok bs -> forall c lb d, left_ok max_size lb d ->
  exists c' lb' d' bs', client_fill max_size c (map cblock bs) lb = Ok (c', map cblock bs', lb') /\ left_ok max_size lb' d' /\
    Forall block_ok bs' /\ d' ++ concat bs' = d ++ concat bs /\ (max_size <= zlen d' \/ (c' = None /\ bs' = [])).
Proof using max_pos.
  induction 1 as [|b bs Hb Hbs IH]; intros c lb d Hl; cbn [map client_fill]; rewrite (lo_len _ _ _ Hl); destruct (Z.ltb_spec (zlen d) max_size).
  - destruct (shift_left_ok max_size lb d Hl) as (lb1 & -> & Hl1 & _). step. exists None, lb1, d, []. split_and!; [done|done|done|done|by right].
  - exists c, lb, d, []. split_and!; [done|done|done|done|by left].
  - destruct (shift_left_ok max_size lb d Hl) as (lb1 & -> & Hl1 & H0). step.
    destruct (client_append_ok lb1 d b Hl1 H0) as (lb2 & -> & Hl2); [unfold capacity; lia|done|]. step.
    destruct (IH (Some (cblock b)) lb2 _ Hl2) as (c' & lb' & d' & bs' & E & H1 & H2 & H3 & H4). exists c', lb', d', bs'.
    split_and!; [exact E|done|done| |done]. rewrite H3. cbn [concat]. by rewrite app_assoc.
  - exists c, lb, d, (b :: bs). split_and!; [done|done|by constructor|done|by left].
Qed.

Lemma client_loop_ok fuel : forall c bs lb d, Forall block_ok bs -> left_ok max_size lb d -> (length (d ++ concat bs) < fuel)%nat ->
  client_chunk_loop chunking max_size fuel c (map cblock bs) lb = Ok (map cblock (chunks_of chunking (d ++ concat bs))).
Proof using max_pos HC.
  induction fuel as [|fuel IH]; intros c bs lb d Hbs Hl Hfuel; [lia|]. cbn [client_chunk_loop].
  destruct (client_fill_ok bs Hbs c lb d Hl) as (c' & lb' & d' & bs' & -> & Hl' & Hbs' & Heq & Hor). step. rewrite <- Heq in *. clear Heq d bs Hbs Hl.
  rewrite (lo_len _ _ _ Hl'). destruct (Z.eqb_spec (zlen d') 0) as [Hz|Hnz].
  - apply zlen_nil_inv in Hz as ->. destruct Hor as [?|[-> ->]]; [change (zlen (@nil Z)) with 0 in *; lia|]. done.
  - cbn [andb]. assert (Hne : d' <> []) by (by intros ->). set (e := SET_CHUNK (new_chunk 0) CHUNK_FILE_END).
    destruct (chunking_buffer chunking max_size max_pos None (map block_chunk bs' ++ [e]) lb' d' bs' e []) as (k & Hk & Hall & Hkd & Hkm);
      [split; [done|done|done|by left]|by destruct Hor as [?|[_ ?]]; [left|right]|done|].
    assert (Hcb : Forall is_byte (d' ++ concat bs')).
    { apply Forall_app. split; [apply Hl'|]. apply Forall_concat. eapply Forall_impl; [exact Hbs'|]. by intros ? []. }
    rewrite (chunks_of_cons chunking max_size _ k Hcb Hall) by (rewrite zlen_app; pose proof (zlen_nonneg (concat bs')); lia).
    rewrite Hk. step. destruct (Z.eqb_spec k 0); [lia|]. cbn [negb c_assert]. step.
    assert (Hzt : zlen (ztake k d') = k) by (by rewrite zlen_ztake by lia). pose proof Hl' as [Hcap Hlen Hoff Hd Hb].
    pose proof (capacity_int max_size max_pos (zlen d') ltac:(lia)) as Hint. pose proof (swrap_range 32 (zlen d') eq_refl) as Hr. rewrite Hint in Hr.
    rewrite (uwrap_id 32 k) by (unfold in_s, in_u in *; lia).
    assert (read_bytes (leftbuf lb') (leftoff lb') k = Ok (ztake k d')) as ->.
    { apply read_bytes_Ok. split_and!; [lia..|]. rewrite <- Hd at 1. rewrite ztake_ztake by lia. f_equal. lia. }
    pose proof (client_filled (ztake k d')) as Hf. rewrite Hzt in Hf. destruct (bind_Ok (deref (cc_data (client_new_chunk k))) (fun d => write_bytes d 0 (ztake k d')) (ztake k d')) as [Hb1 _].
    destruct Hb1 as (f & -> & Hw); [apply Hf; intros E; rewrite E in Hzt; change (zlen (@nil Z)) with 0 in Hzt; lia|]. step. step. rewrite Hw. step.
    assert (Hz : zdrop k (d' ++ concat bs') = zdrop k d' ++ concat bs') by (unfold zdrop, zlen in *; by rewrite drop_app_le by lia).
    rewrite (IH c' bs' _ (zdrop k d')); [step|done| |].
    + rewrite Hz, ztake_prefix by (rewrite ?zlen_app; pose proof (zlen_nonneg (concat bs')); lia). cbn [map]. do 2 f_equal. unfold cblock. by rewrite Hzt.
    + split; cbn [leftbuf leftlen leftoff]; [done| | | |].
      * rewrite zlen_zdrop by lia. apply (capacity_int max_size max_pos). lia.
      * rewrite zlen_zdrop, (capacity_int max_size max_pos) by lia. lia.
      * rewrite (capacity_int max_size max_pos), zlen_zdrop, <- zdrop_zdrop by lia. rewrite ztake_zdrop_comm by lia. by rewrite Hd.
      * by apply Forall_drop.
    + rewrite <- Hz. unfold zdrop. rewrite length_drop. unfold zlen in Hkd. rewrite length_app in *. lia.
Qed.

Lemma client_thread_ok fuel bs : Forall block_ok bs -> (length (concat bs) < fuel)%nat ->
  client_chunk_thread chunking max_size fuel (map cblock bs) = Ok (map cblock (chunks_of chunking (concat bs))).
Proof using max_pos HC.
  intros Hbs Hfuel. unfold client_chunk_thread. rewrite (client_loop_ok fuel None bs _ []); [done|done| |done].
  split; cbn [leftbuf leftlen leftoff]; [|done|change (zlen (@nil Z)) with 0; unfold capacity, DEFAULT_BLOCK_SIZE in *; lia|done|done].
  apply zlen_fresh. unfold capacity, DEFAULT_BLOCK_SIZE. lia.
Qed.
End Spec.

Lemma client_sha1_ok sha1 bs : client_sha1_thread sha1 (map cblock bs) = Ok (map (hashed_cblock sha1) bs).
Proof.
  induction bs as [|b bs IH]; [done|]. cbn [map client_sha1_thread cblock cc_data cc_size]. step. rewrite read_all by done. step. rewrite IH. by step.
Qed.

(** Without the assertions the client starts wherever destor would. *)
Lemma client_start_destor alg cfg cfg' f : start_chunk_phase alg cfg = Ok (cfg', f) -> client_start_chunk_phase alg cfg = Ok (cfg', f).
Proof.
  unfold start_chunk_phase, client_start_chunk_phase, round_avg, client_round_avg.
  assert (Hr : forall (g : chunk_config -> res (chunk_config * (list Z -> Z -> res Z))) r,
    (pwr ← pwr_loop 32 (chunk_avg_size cfg) 0; avg ← shl1 (pwr - 1); let cfg := mk_chunk_config avg (chunk_min_size cfg) (chunk_max_size cfg) in
     _ ← c_assert (chunk_min_size cfg <=? chunk_avg_size cfg); _ ← c_assert (chunk_avg_size cfg <=? chunk_max_size cfg);
     _ ← c_assert (chunk_max_size cfg <=? CONTAINER_SIZE - CONTAINER_META_SIZE); Ok cfg) ≫= g = Ok r ->
    (pwr ← pwr_loop 32 (chunk_avg_size cfg) 0; avg ← shl1 (pwr - 1); Ok (mk_chunk_config avg (chunk_min_size cfg) (chunk_max_size cfg))) ≫= g = Ok r).
  { intros g r. destruct (pwr_loop 32 (chunk_avg_size cfg) 0) as [pwr|]; [|done]. step. step. destruct (shl1 (pwr - 1)) as [avg|]; [|done]. step. step.
    cbn zeta. intros E. apply bind_Ok in E as (c & E & Eg). apply bind_Ok in E as (_ & _ & E). apply bind_Ok in E as (_ & _ & E). apply bind_Ok in E as (_ & _ & E).
    injection E as <-. exact Eg. }
  destruct (alg =? CHUNK_RABIN); [apply Hr|]. destruct (alg =? CHUNK_NORMALIZED_RABIN); [apply Hr|]. destruct (alg =? CHUNK_TTTD); [apply Hr|].
  destruct (alg =? CHUNK_FIXED); [intros E; by apply bind_Ok in E as (_ & _ & E)|]. destruct (alg =? CHUNK_FILE); [done|].
  destruct (alg =? CHUNK_AE); [|done]. intros E. apply bind_Ok in E as (_ & _ & E). by apply bind_Ok in E as (_ & _ & E).
Qed.

(** What the grouping gets for a file. *)
Lemma client_chunks_ok sha1 alg cfg cfg' f bs fuel : start_chunk_phase alg cfg = Ok (cfg', f) -> alg <> CHUNK_AE -> 1 <= chunk_min_size cfg ->
  0 < chunk_avg_size cfg < 2 ^ 31 -> Forall (fun b => 0 < zlen b <= DEFAULT_BLOCK_SIZE /\ Forall is_byte b) bs -> (length (concat bs) < fuel)%nat ->
  client_chunks sha1 fuel alg cfg (map ReadData bs ++ [ReadData []]) = Ok (map (hashed_cblock sha1) (chunks_of f (concat bs))) /\
  concat (chunks_of f (concat bs)) = concat bs /\
  Forall (fun b => 0 < zlen b <= CONTAINER_SIZE - CONTAINER_META_SIZE) (chunks_of f (concat bs)).
Proof.
  intros Hs Hae Hmin Ha Hbs Hfuel. destruct (start_chunk_phase_chunker alg cfg cfg' f Hs Hae Hmin Ha) as [HC Hmax]. split.
  - unfold client_chunks. rewrite client_read_ok; [step|]. 2:{ eapply Forall_impl; [exact Hbs|]. intros b [? _] ->. change (zlen (@nil Z)) with 0 in *. lia. }
    rewrite (client_start_destor _ _ _ _ Hs). step. rewrite (client_thread_ok f _ Hmax) by done. step. apply client_sha1_ok.
  - destruct (chunks_of_spec f (chunk_max_size cfg') (concat bs)) as [H1 H2].
    { apply Forall_concat. eapply Forall_impl; [exact Hbs|]. by intros ? []. }
    split; [done|]. eapply Forall_impl; [exact H2|]. cbv beta. intros b Hb. lia.
Qed.
