(* ===== verification/Routing.v ===== *)
(** Which node a group goes to: [Fingerprint.cc] and [stateful_routing.cc] of
    [client/src/common].

    With stateful routing the members of the sets that Redis keeps, one set of
    features for each node, are an argument, [None] where the command failed, and
    the features that are added are a result; so is the outcome of [rand]. *)

From Stdlib Require Import SpecFloat.
From S2P Require Import Prelude CText Destor Recipe Double.

(** ** Fingerprints *)

Definition FP_LENGTH : Z := 20.

(** The loop of [my_cmp] and [fingerprintCmp]: the first byte that differs. *)
Fixpoint my_cmp (fp1 fp2 : fingerprint) : Z :=
  match fp1, fp2 with
  | a :: fp1, b :: fp2 => if a <? b then -1 else if b <? a then 1 else my_cmp fp1 fp2
  | _, _ => 0
  end.

Definition BYTE_LENGTH : Z := 8.

(** [res ^= fp[j]; res <<= BYTE_LENGTH] *)
Definition mix_byte (fp : fingerprint) (res : Z) (j : nat) : Z := u64 (Z.shiftl (Z.lxor res (nth j fp 0)) BYTE_LENGTH).

(** The inner loop starts again from the first byte: [FP_LENGTH / INT_SIZE]
    times the first [INT_SIZE] bytes. *)
Definition fp2Int (fp : fingerprint) : Z := foldl (mix_byte fp) 0 (concat (replicate 5 [0; 1; 2; 3]%nat)).

Definition consistentHash (fp : fingerprint) (num : Z) : Z :=
  if num =? 0 then 0 else fp2Int fp mod u64 num.

(** ** Stateful routing *)

Record SampleUnit := mk_sample_unit { su_feature : fingerprint; su_size : Z }.

(** A feature as the member of a set. *)
Definition feature_text (fp : fingerprint) : list Z := concat (map (fun b => print_int b ++ [95]) fp).

(** How many members of a node's set the group has, and their sizes. [strcmp]
    looks at a member up to a NUL, the comparison of strings, which is used with a
    cluster, at all of it. *)
Definition match_member (cluster_enabled : Z) (units : list SampleUnit) (acc : Z * Z) (member : list Z) : Z * Z :=
  let member := if cluster_enabled =? 0 then cstr member else member in
  foldl (fun '(num, size) u => if bool_decide (feature_text (su_feature u) = member) then (s32 (num + 1), u64 (size + su_size u)) else (num, size)) acc units.
Definition match_node (cluster_enabled : Z) (units : list SampleUnit) (members : list (list Z)) : Z * Z :=
  foldl (match_member cluster_enabled units) (0, 0) members.

(** The loop over the scores, from the first: the maximum and its node. *)
Fixpoint max_loop (i : Z) (scores : list double) (max_score : double) (select_node : Z) : double * Z :=
  match scores with
  | [] => (max_score, select_node)
  | s :: scores => if d_gt s max_score then max_loop (i + 1) scores s i else max_loop (i + 1) scores max_score select_node
  end.

Fixpoint equal_loop (i : Z) (scores : list double) (max_score : double) : list Z :=
  match scores with
  | [] => []
  | s :: scores => (if d_eq s max_score then [i] else []) ++ equal_loop (i + 1) scores max_score
  end.

(** [rand]: what [rand()] returns. *)
Definition getSelectedNode (rand : Z) (node_score : list double) : Z :=
  let '(max_score, select_node) := max_loop 0 node_score (d_of_Z 0) 0 in
  let equal_max_node := equal_loop 0 node_score max_score in
  if zlen equal_max_node =? 0 then select_node else nth (Z.to_nat (rand mod zlen equal_max_node)) equal_max_node 0.

Section Stateful.
Context (computing_power_vec : list Z).

Definition total_computing_power : Z := foldl (fun t cp => u64 (t + u64 cp)) 0 computing_power_vec.

(** The score of node [i]; its computing power must be configured. *)
Definition node_score (group_size : Z) (i : nat) (m : Z * Z) : res double :=
  cp ← match computing_power_vec !! i with Some cp => Ok cp | None => Err EBounds end;
  Ok (d_mul (d_mul (d_of_Z m.1) (d_div (d_of_Z m.2) (d_of_Z group_size))) (d_div (d_of_Z cp) (d_of_Z total_computing_power))).

Fixpoint node_scores (group_size : Z) (i : nat) (ms : list (Z * Z)) : res (list double) :=
  match ms with
  | [] => Ok []
  | m :: ms => s ← node_score group_size i m; ss ← node_scores group_size (S i) ms; Ok (s :: ss)
  end.

(** The node, [count_byte_for_each_node], and the members that SADD is to add to
    its set; -1 when the set of a node cannot be read or SADD fails ([added] is
    false). *)
Definition getNodeForStatefulRouting (cluster_enabled node_num rand : Z) (added : bool) (members : list (option (list (list Z)))) (units : list SampleUnit) (count : list Z) :
    res (Z * list Z * list (list Z)) :=
  let count := if zlen count =? 0 then zeros node_num else count in
  match mapM id members with
  | None => Ok (-1, count, [])
  | Some members =>
      let group_size := foldl (fun n u => u64 (n + su_size u)) 0 units in
      scores ← node_scores group_size 0 (map (match_node cluster_enabled units) members);
      let selected_node := getSelectedNode rand scores in
      let features := map (fun u => feature_text (su_feature u)) units in
      if negb added then Ok (-1, count, features) else
      n ← match count !! Z.to_nat selected_node with Some n => Ok n | None => Err EBounds end;
      Ok (selected_node, <[Z.to_nat selected_node := s64 (n + group_size)]> count, features)
  end.
End Stateful.

(** ** Consistent hashing *)

Lemma mix_byte_range fp r j : in_u 64 (mix_byte fp r j).
Proof. by apply uwrap_range. Qed.

Lemma fp2Int_range fp : in_u 64 (fp2Int fp).
Proof. unfold fp2Int. cbn [replicate concat app foldl]. apply mix_byte_range. Qed.

(** Only four bytes of the fingerprint count. *)
Lemma fp2Int_prefix fp fp' : take 4 fp = take 4 fp' -> fp2Int fp = fp2Int fp'.
Proof.
  intros E. assert (Hn : forall j, (j < 4)%nat -> nth j fp 0 = nth j fp' 0).
  { intros j Hj. assert (Hd : forall l : list Z, nth j l 0 = nth j (take 4 l) 0).
    { intros l. rewrite <- (take_drop 4 l) at 1. destruct (decide (j < length (take 4 l))%nat) as [Hl|Hl]; [by apply app_nth1|].
      rewrite app_nth2 by lia. rewrite !nth_overflow; [done|lia|]. rewrite length_take, length_drop in *. lia. }
    rewrite (Hd fp), (Hd fp'). by rewrite E. }
  unfold fp2Int, mix_byte. cbn [replicate concat app foldl]. rewrite !(Hn 0%nat), !(Hn 1%nat), !(Hn 2%nat), !(Hn 3%nat) by lia. done.
Qed.

Lemma mix_byte_low fp r j k : 0 <= k <= 8 -> mix_byte fp r j mod 2 ^ k = 0.
Proof.
  intros Hk. unfold mix_byte, uwrap, BYTE_LENGTH. rewrite Z.shiftl_mul_pow2 by done.
  assert (E64 : 2 ^ 64 = 2 ^ (64 - k) * 2 ^ k) by (rewrite <- Z.pow_add_r by lia; f_equal; lia).
  assert (E8 : 2 ^ 8 = 2 ^ (8 - k) * 2 ^ k) by (rewrite <- Z.pow_add_r by lia; f_equal; lia).
  pose proof (Z.pow_pos_nonneg 2 k ltac:(lia) ltac:(lia)). pose proof (Z.pow_pos_nonneg 2 (64 - k) ltac:(lia) ltac:(lia)).
  rewrite E64, E8, Z.mul_assoc, Z.mul_mod_distr_r by lia. apply Z.mod_mul. lia.
Qed.

(** C35: The hash picks a node, but not by the fingerprint: only its first four bytes
    count, and when the number of nodes is a power of two up to 256 every group
    goes to the first node. *)
Theorem consistent_hash_spec fp num : 0 < num < 2 ^ 31 ->
  0 <= consistentHash fp num < num /\ (forall fp', take 4 fp = take 4 fp' -> consistentHash fp num = consistentHash fp' num) /\
  (forall k, 0 <= k <= 8 -> num = 2 ^ k -> consistentHash fp num = 0).
Proof.
  intros Hn. unfold consistentHash. destruct (Z.eqb_spec num 0); [lia|]. rewrite (uwrap_id 64 num) by (unfold in_u; lia). split; [|split].
  - apply Z.mod_pos_bound. lia.
  - intros fp' E. by rewrite (fp2Int_prefix fp fp' E).
  - intros k Hk ->. unfold fp2Int. cbn [replicate concat app foldl]. by apply mix_byte_low.
Qed.

Lemma consistent_hash_spec_witness : consistentHash [1; 2; 3; 4; 5] 4 = 0.
Proof. destruct (consistent_hash_spec [1; 2; 3; 4; 5] 4) as (_ & _ & H); [lia|]. apply (H 2); [lia|done]. Defined.

(** ** The best score *)

Lemma d_gt_irrefl x : d_gt x x = false.
Proof.
  unfold d_gt, SFltb. destruct x as [|[]| |[] m e]; cbn; try done; rewrite Z.compare_refl, Pos.compare_cont_refl; done.
Qed.

Lemma d_gt_trans x y z : d_gt x y = true -> d_gt y z = true -> d_gt x z = true.
Proof.
  assert (Hf : forall s m e s' m' e', d_gt (S754_finite s m e) (S754_finite s' m' e') = true <->
    match s, s' with
    | false, true => True | true, false => False
    | false, false => e' < e \/ (e = e' /\ (m' < m)%positive) | true, true => e < e' \/ (e = e' /\ (m < m')%positive)
    end).
  { intros s m e s' m' e'. unfold d_gt, SFltb. cbn. fold (Pos.compare m' m).
    destruct s, s'; [|done|done|]; destruct (Z.compare_spec e' e); try (split; [done|lia]); try (split; [intros _; lia|done]);
      destruct (Pos.compare_spec m' m); cbn; (split; [try done; intros _; lia|try done; lia]). }
  destruct x as [|[]| |s m e], y as [|[]| |s' m' e'], z as [|[]| |s'' m'' e'']; try done; try (by destruct s); try (by destruct s'); try (by destruct s''); try (by destruct s, s'); try (by destruct s, s''); try (by destruct s', s'').
  rewrite !Hf. destruct s, s', s''; try done; lia.
Qed.

Lemma max_loop_spec scores : forall i mx sel, let '(m, n) := max_loop i scores mx sel in
  (forall s, s ∈ scores -> d_gt s m = false) /\
  (n = sel /\ m = mx \/ d_gt m mx = true /\ i <= n < i + zlen scores /\ scores !! Z.to_nat (n - i) = Some m).
Proof.
  induction scores as [|s scores IH]; intros i mx sel; cbn [max_loop].
  - split; [by intros s Hs; apply not_elem_of_nil in Hs|by left].
  - rewrite zlen_cons. pose proof (zlen_nonneg scores).
    assert (Hnext : forall n : Z, i + 1 <= n -> Z.to_nat (n - i) = S (Z.to_nat (n - (i + 1)))) by lia. destruct (d_gt s mx) eqn:Es.
    + specialize (IH (i + 1) s i). destruct (max_loop (i + 1) scores s i) as [m n]. destruct IH as (H2 & H3). split.
      * intros s' [->|Hs]%elem_of_cons; [|by apply H2]. destruct H3 as [[_ ->]|(Hm & _)]; [apply d_gt_irrefl|].
        destruct (d_gt s m) eqn:E; [|done]. pose proof (d_gt_trans s m s E Hm) as Hc. by rewrite d_gt_irrefl in Hc.
      * right. destruct H3 as [[-> ->]|(Hm & H3 & H4)]; [rewrite Z.sub_diag; split_and!; done || lia|]. split; [by eapply d_gt_trans|]. split; [lia|].
        rewrite Hnext by lia. exact H4.
    + specialize (IH (i + 1) mx sel). destruct (max_loop (i + 1) scores mx sel) as [m n]. destruct IH as (H2 & H3). split.
      * intros s' [->|Hs]%elem_of_cons; [|by apply H2]. destruct H3 as [[_ ->]|(Hm & _)]; [done|].
        destruct (d_gt s m) eqn:E; [|done]. by rewrite (d_gt_trans s m mx E Hm) in Es.
      * destruct H3 as [?|(Hm & H3 & H4)]; [by left|]. right. split; [done|]. split; [lia|]. rewrite Hnext by lia. exact H4.
Qed.

Lemma equal_loop_spec m scores : forall i n, n ∈ equal_loop i scores m <-> i <= n < i + zlen scores /\ exists s, scores !! Z.to_nat (n - i) = Some s /\ d_eq s m = true.
Proof.
  induction scores as [|s scores IH]; intros i n; cbn [equal_loop].
  - rewrite elem_of_nil. change (zlen (@nil double)) with 0. split; [done|]. lia.
  - rewrite zlen_cons. pose proof (zlen_nonneg scores). rewrite elem_of_app, IH.
    assert (Hs : n ∈ (if d_eq s m then [i] else []) <-> n = i /\ d_eq s m = true) by (destruct (d_eq s m); set_solver). rewrite Hs. clear Hs. split.
    + intros [[-> E]|[Hn Hex]].
      * split; [lia|]. rewrite Z.sub_diag. by exists s.
      * split; [lia|]. by replace (Z.to_nat (n - i)) with (S (Z.to_nat (n - (i + 1)))) by lia.
    + intros [Hn (s' & El & E)]. destruct (decide (n = i)) as [->|Hne]; [left; rewrite Z.sub_diag in El; by injection El as ->|]. right.
      split; [lia|]. exists s'. split; [|done]. by replace (Z.to_nat (n - i)) with (S (Z.to_nat (n - (i + 1)))) in El by lia.
Qed.

(** Stateful routing picks a node, whatever [rand] returns, and no node has a
    better score: the score of the node is the best one or, when no score is
    positive, as for a group that no node has a part of, equal to zero or not
    positive. *)
Theorem selected_node_best rand scores : 0 <= rand -> scores <> [] ->
  exists m, 0 <= getSelectedNode rand scores < zlen scores /\ (forall s, s ∈ scores -> d_gt s m = false) /\
    (m = d_of_Z 0 \/ exists s, scores !! Z.to_nat (getSelectedNode rand scores) = Some s /\ (s = m \/ d_eq s m = true)).
Proof.
  intros Hr Hne. unfold getSelectedNode. pose proof (max_loop_spec scores 0 (d_of_Z 0) 0) as Hs. destruct (max_loop 0 scores (d_of_Z 0) 0) as [m n].
  destruct Hs as (Hmax & Hn). exists m. set (eqs := equal_loop 0 scores m). assert (Hpos : 0 < zlen scores) by (destruct scores; [done|rewrite zlen_cons; pose proof (zlen_nonneg scores); lia]).
  destruct (Z.eqb_spec (zlen eqs) 0) as [E|E].
  - split; [destruct Hn as [[-> _]|(_ & Hn & _)]; lia|]. split; [done|]. destruct Hn as [[_ ->]|(_ & Hn & El)]; [by left|]. right.
    rewrite Z.sub_0_r in El. exists m. split; [exact El|by left].
  - pose proof (zlen_nonneg eqs). pose proof (Z.mod_pos_bound rand (zlen eqs) ltac:(lia)) as Hb.
    assert (Hin : nth (Z.to_nat (rand mod zlen eqs)) eqs 0 ∈ eqs) by (apply list_elem_of_In, nth_In; unfold zlen in *; lia).
    apply equal_loop_spec in Hin as [Hin (s & El & Es)]. rewrite Z.add_0_l in Hin. rewrite Z.sub_0_r in El. split; [done|]. split; [done|]. right.
    exists s. split; [exact El|by right].
Qed.

Lemma selected_node_best_witness : exists m, 0 <= getSelectedNode 5 [d_of_Z 1; d_of_Z 3; d_of_Z 2] < 3 /\ (forall s, s ∈ [d_of_Z 1; d_of_Z 3; d_of_Z 2] -> d_gt s m = false).
Proof.
  destruct (selected_node_best 5 [d_of_Z 1; d_of_Z 3; d_of_Z 2]) as (m & H1 & H2 & _); [done|done|]. exists m. split; [exact H1|exact H2].
Defined.
