(* ===== verification/Group.v ===== *)
(** Groups: [Group.cc] of [client/src/common]. The chunks of a file are collected
    in groups of 1024; a group is the unit that is sent to a node and deduplicated
    there. *)

From S2P Require Import Prelude CText Destor Container Recipe Chunking ChunkPhase ClientPhase Double Routing.

Definition DEFAULT_GROUP_SIZE : Z := 1024.
Definition DEFAULT_SAMPLE_UNIT_SIZE : Z := 128.

Record group := mk_group { g_groupName : list Z; g_delegate : fingerprint; g_nodeId : Z; g_size : Z; g_data : list Z }.

(** [string(fileName) + to_string(id)] *)
Definition group_name (fileName : list Z) (id : Z) : list Z := fileName ++ print_int id.

(** [new_group]: the name and the data of [size] bytes; [malloc] does not give a
    negative amount. The other fields are not set. *)
Definition new_group (fileName : list Z) (size id : Z) : res group :=
  if size <? 0 then Err ENull else
  Ok (mk_group (group_name fileName id) (fresh_bytes FP_LENGTH) undef (u32 size) (fresh_bytes size)).

Definition max_fp : fingerprint := replicate 20 255.

(** The test: a full group wants a smaller fingerprint, the group at the end of a
    file one that differs. *)
Definition better (last : option Z) (cmp : Z) : bool := match last with None => cmp <? 0 | Some _ => negb (cmp =? 0) end.

(** The loop that sums the sizes and looks for the delegate. *)
Definition scan_step (last : option Z) (acc : Z * fingerprint) (c : client_chunk) : Z * fingerprint :=
  let '(size, minFingerprint) := acc in
  (u32 (size + cc_size c), if better last (my_cmp (cc_fp c) minFingerprint) then cc_fp c else minFingerprint).
Definition group_scan (last : option Z) (chunkList : list client_chunk) : Z * fingerprint := foldl (scan_step last) (0, max_fp) chunkList.

(** The loop over the sample units: [i] is the index of the first chunk, [last]
    the number of chunks of a group that is not full. *)
Fixpoint sample_units (i : Z) (last : option Z) (su : SampleUnit) (chunkList : list client_chunk) : list SampleUnit :=
  match chunkList with
  | [] => []
  | c :: cs =>
      let su := if i mod DEFAULT_SAMPLE_UNIT_SIZE =? 0 then mk_sample_unit max_fp 0 else su in
      let su := mk_sample_unit (if my_cmp (cc_fp c) (su_feature su) <? 0 then cc_fp c else su_feature su) (u64 (su_size su + cc_size c)) in
      (if ((i + 1) mod DEFAULT_SAMPLE_UNIT_SIZE =? 0) || bool_decide (last = Some (i + 1)) then [su] else []) ++ sample_units (i + 1) last su cs
  end.

(** [memcpy(gp->data + offset, chunkList[i]->data, chunkList[i]->size)] *)
Definition copy_chunk (acc : list Z * Z) (c : client_chunk) : res (list Z * Z) :=
  let '(data, offset) := acc in
  src ← match cc_data c with Some d => Ok d | None => Err EAssert end;
  src ← read_bytes src 0 (cc_size c);
  data ← write_bytes data offset src;
  Ok (data, s32 (offset + cc_size c)).

Section Split.
Context (stateful_routing_enabled nodeNum : Z) {RS : Type} (route : list SampleUnit -> RS -> res (Z * RS)).

(** A group is closed: by the loop when it is full, with [last] chunks at the end
    of the file. The comparison at the end is for equality only. *)
Definition close_group (filename : list Z) (id : Z) (last : option Z) (chunkList : list client_chunk) (rs : RS) : res (group * RS) :=
  let '(size, minFingerprint) := group_scan last chunkList in
  gp ← new_group filename (s32 size) id;
  '(node, rs) ← (if stateful_routing_enabled =? 0 then Ok (consistentHash minFingerprint nodeNum, rs)
                 else route (sample_units 0 last (mk_sample_unit max_fp 0) chunkList) rs);
  '(data, _) ← foldM copy_chunk (g_data gp, 0) chunkList;
  Ok (mk_group (g_groupName gp) minFingerprint (u64 node) (g_size gp) data, rs).

Fixpoint group_loop (filename : list Z) (id : Z) (chunkList : list client_chunk) (hash_queue : list client_chunk) (rs : RS) : res (list group * RS) :=
  match hash_queue with
  | [] =>
      let groupCnt := zlen chunkList in
      if groupCnt =? 0 then Ok ([], rs) else '(gp, rs) ← close_group filename id (Some groupCnt) chunkList rs; Ok ([gp], rs)
  | c :: hash_queue =>
      _ ← c_assert (match cc_data c with Some _ => true | None => false end);
      let chunkList := chunkList ++ [c] in
      if zlen chunkList =? DEFAULT_GROUP_SIZE then
        '(gp, rs) ← close_group filename id None chunkList rs;
        '(gps, rs) ← group_loop filename (s32 (id + 1)) [] hash_queue rs;
        Ok (gp :: gps, rs)
      else group_loop filename id chunkList hash_queue rs
  end.

(** [split2Groups] from what the three phases leave in the hash queue. *)
Definition split2Groups (sha1 : list Z -> fingerprint) (fuel : nat) (chunk_algorithm : Z) (cfg : chunk_config) (replies : list read_reply) (filename : list Z) (rs : RS) :
    res (list group * RS) :=
  hash_queue ← client_chunks sha1 fuel chunk_algorithm cfg replies;
  group_loop filename 0 [] hash_queue rs.

(** ** One group *)

Context (sha1 : list Z -> fingerprint).

Lemma group_scan_size last bs : forall size m, 0 <= size -> size + zlen (concat bs) < 2 ^ 32 ->
  fst (foldl (scan_step last) (size, m) (map (hashed_cblock sha1) bs)) = size + zlen (concat bs).
Proof using.
  induction bs as [|b bs IH]; intros size m H0 Hs; cbn [map foldl concat scan_step hashed_cblock cc_size] in *; [change (zlen (@nil Z)) with 0; cbn; lia|].
  rewrite zlen_app in *. pose proof (zlen_nonneg b). pose proof (zlen_nonneg (concat bs)).
  rewrite IH; rewrite (uwrap_id 32) by (unfold in_u; lia); lia.
Qed.

Lemma copy_chunks bs : forall pre rest, zlen rest = zlen (concat bs) -> zlen pre + zlen rest < 2 ^ 31 ->
  foldM copy_chunk (pre ++ rest, zlen pre) (map (hashed_cblock sha1) bs) = Ok (pre ++ concat bs, zlen (pre ++ concat bs)).
Proof using.
  induction bs as [|b bs IH]; intros pre rest Hr Hs; cbn [map foldM concat].
  - change (zlen (concat [])) with 0 in Hr. apply zlen_nil_inv in Hr as ->. by rewrite app_nil_r.
  - cbn [concat] in Hr. rewrite zlen_app in Hr. pose proof (zlen_nonneg b). pose proof (zlen_nonneg (concat bs)). pose proof (zlen_nonneg pre).
    assert (Hb : copy_chunk (pre ++ rest, zlen pre) (hashed_cblock sha1 b) = Ok ((pre ++ b) ++ zdrop (zlen b) rest, zlen (pre ++ b))).
    { unfold copy_chunk. cbn [hashed_cblock cc_data cc_size]. step. rewrite read_all by done. step. rewrite write_bytes_app by (done || lia). step.
      by rewrite s32_id, zlen_app by lia. }
    rewrite Hb. step. rewrite IH; [by rewrite <- app_assoc| |]; rewrite zlen_zdrop by lia; rewrite ?zlen_app; lia.
Qed.

(** The group of the chunks [bs]. *)
Definition is_group (filename : list Z) (id : Z) (bs : list (list Z)) (gp : group) : Prop :=
  g_groupName gp = group_name filename id /\ g_size gp = zlen (concat bs) /\ g_data gp = concat bs.

Lemma close_group_ok filename id last bs rs : zlen (concat bs) < 2 ^ 31 ->
  (stateful_routing_enabled = 0 \/ forall us, exists n rs', route us rs = Ok (n, rs')) ->
  exists gp rs', close_group filename id last (map (hashed_cblock sha1) bs) rs = Ok (gp, rs') /\ is_group filename id bs gp /\
    g_delegate gp = snd (group_scan last (map (hashed_cblock sha1) bs)) /\
    (stateful_routing_enabled = 0 -> g_nodeId gp = u64 (consistentHash (g_delegate gp) nodeNum)).
Proof using.
  intros Hs Hr. unfold close_group. pose proof (zlen_nonneg (concat bs)) as H0.
  pose proof (group_scan_size last bs 0 max_fp ltac:(lia) ltac:(lia)) as Hsize. change (foldl _ _ _) with (group_scan last (map (hashed_cblock sha1) bs)) in Hsize.
  destruct (group_scan last (map (hashed_cblock sha1) bs)) as [size m]. cbn [fst snd] in *. rewrite Z.add_0_l in Hsize. subst size.
  rewrite s32_id by lia. unfold new_group. destruct (Z.ltb_spec (zlen (concat bs)) 0); [lia|]. step. cbn [g_data g_groupName g_size].
  assert (Hc : foldM copy_chunk (fresh_bytes (zlen (concat bs)), 0) (map (hashed_cblock sha1) bs) = Ok (concat bs, zlen (concat bs))).
  { apply (copy_chunks bs [] (fresh_bytes (zlen (concat bs)))); rewrite zlen_fresh by lia; [done|]. change (zlen (@nil Z)) with 0. lia. }
  rewrite Hc, uwrap_id by (unfold in_u; lia). destruct (Z.eqb_spec stateful_routing_enabled 0) as [E|E].
  - step. step. eexists _, rs. split; [reflexivity|]. by split_and!.
  - destruct Hr as [?|Hr]; [done|]. destruct (Hr (sample_units 0 last (mk_sample_unit max_fp 0) (map (hashed_cblock sha1) bs))) as (n & rs' & ->). step. step.
    eexists _, rs'. split; [reflexivity|]. by split_and!.
Qed.

(** ** A file *)

Definition made (filename : list Z) (id : Z) (last : option Z) (bs : list (list Z)) (gp : group) : Prop :=
  is_group filename id bs gp /\ g_delegate gp = snd (group_scan last (map (hashed_cblock sha1) bs)) /\
  (stateful_routing_enabled = 0 -> g_nodeId gp = u64 (consistentHash (g_delegate gp) nodeNum)).

(** The chunks [bs], from group number [id] on, are in the groups. *)
Inductive grouped (filename : list Z) : Z -> list (list Z) -> list group -> Prop :=
| grouped_none id : grouped filename id [] []
| grouped_last id bs gp : 0 < zlen bs < DEFAULT_GROUP_SIZE -> made filename id (Some (zlen bs)) bs gp -> grouped filename id bs [gp]
| grouped_full id bs bs' gp gps : zlen bs = DEFAULT_GROUP_SIZE -> made filename id None bs gp -> grouped filename (id + 1) bs' gps ->
    grouped filename id (bs ++ bs') (gp :: gps).

(** Chunks of up to two megabytes: a group of them has a size of 31 bits. *)
Definition small_chunks (bs : list (list Z)) : Prop := Forall (fun b => 0 < zlen b < 2 ^ 21) bs.

Lemma small_group bs : small_chunks bs -> zlen bs <= DEFAULT_GROUP_SIZE -> zlen (concat bs) <= 2 ^ 31 - 1024.
Proof using.
  intros Hb Hn. assert (H : zlen (concat bs) <= (2 ^ 21 - 1) * zlen bs); [|unfold DEFAULT_GROUP_SIZE in *; lia].
  clear Hn. induction Hb as [|b bs Hb _ IH]; [done|]. cbn [concat]. rewrite zlen_app, zlen_cons. lia.
Qed.

Lemma group_loop_ok filename bs : (stateful_routing_enabled = 0 \/ forall us rs, exists n rs', route us rs = Ok (n, rs')) ->
  forall pre id rs, small_chunks (pre ++ bs) -> zlen pre < DEFAULT_GROUP_SIZE -> 0 <= id -> id + zlen bs < 2 ^ 31 ->
  exists gps rs', group_loop filename id (map (hashed_cblock sha1) pre) (map (hashed_cblock sha1) bs) rs = Ok (gps, rs') /\ grouped filename id (pre ++ bs) gps.
Proof using.
  intros Hr. induction bs as [|b bs IH]; intros pre id rs Hb Hn Hid Hids; cbn [map group_loop].
  - rewrite app_nil_r in *. assert (Ez : zlen (map (hashed_cblock sha1) pre) = zlen pre) by (unfold zlen; by rewrite length_map). rewrite Ez.
    destruct (Z.eqb_spec (zlen pre) 0) as [E|E]; [apply zlen_nil_inv in E as ->; exists [], rs; split; [done|constructor]|].
    destruct (close_group_ok filename id (Some (zlen pre)) pre rs) as (gp & rs' & -> & Hg); [pose proof (small_group pre Hb ltac:(lia)); lia|naive_solver|]. step.
    exists [gp], rs'. split; [done|]. constructor; [pose proof (zlen_nonneg pre); lia|done].
  - change (cc_data (hashed_cblock sha1 b)) with (Some b). cbn [c_assert]. step. change [hashed_cblock sha1 b] with (map (hashed_cblock sha1) [b]). rewrite <- map_app.
    rewrite zlen_cons in Hids. pose proof (zlen_nonneg bs).
    assert (Ez : zlen (map (hashed_cblock sha1) (pre ++ [b])) = zlen pre + 1) by (unfold zlen; rewrite length_map, length_app; cbn; lia). rewrite Ez.
    change (b :: bs) with ([b] ++ bs) in *. rewrite app_assoc in Hb |- *. assert (El : zlen (pre ++ [b]) = zlen pre + 1) by by rewrite zlen_app.
    destruct (Z.eqb_spec (zlen pre + 1) DEFAULT_GROUP_SIZE) as [E|E].
    + pose proof Hb as Hb0. apply Forall_app in Hb0 as [Hb1 Hb2].
      destruct (close_group_ok filename id None (pre ++ [b]) rs) as (gp & rs1 & -> & Hg); [pose proof (small_group (pre ++ [b]) Hb1 ltac:(lia)); lia|naive_solver|]. step.
      rewrite s32_id by lia. destruct (IH [] (id + 1) rs1) as (gps & rs2 & E2 & Hgs); [done|done|lia|lia|]. cbn [map app] in E2. rewrite E2. step.
      exists (gp :: gps), rs2. split; [done|]. by constructor; [lia| |].
    + apply IH; [done|lia|done|lia].
Qed.

Lemma grouped_data filename id bs gps : grouped filename id bs gps -> concat (map g_data gps) = concat bs.
Proof using.
  induction 1 as [id|id bs gp Hn [(_ & _ & Hd) _]|id bs bs' gp gps Hn [(_ & _ & Hd) _] _ IH]; cbn [map concat]; [done|by rewrite Hd, app_nil_r|].
  by rewrite Hd, IH, concat_app.
Qed.

Lemma grouped_lookup filename id bs gps : grouped filename id bs gps -> forall i gp, gps !! i = Some gp ->
  exists bs', made filename (id + Z.of_nat i) (if bool_decide (zlen bs' = DEFAULT_GROUP_SIZE) then None else Some (zlen bs')) bs' gp /\ 0 < zlen bs' <= DEFAULT_GROUP_SIZE /\
    (forall b, b ∈ bs' -> b ∈ bs) /\ (S i < length gps -> zlen bs' = DEFAULT_GROUP_SIZE)%nat.
Proof using.
  induction 1 as [id|id bs gp Hn Hm|id bs bs' gp gps Hn Hm Hg IH]; intros i gp' Hi; [done|..].
  - destruct i as [|i]; [|done]. injection Hi as <-. exists bs. rewrite bool_decide_eq_false_2 by lia. rewrite Z.add_0_r. split_and!; [done|lia..|done|cbn; lia].
  - destruct i as [|i]; cbn in Hi.
    + injection Hi as <-. exists bs. rewrite bool_decide_eq_true_2 by done. rewrite Z.add_0_r. unfold DEFAULT_GROUP_SIZE in *. split_and!; [done|lia..|intros b ?; apply elem_of_app; by left|done].
    + destruct (IH i gp' Hi) as (bs1 & H1 & H2 & H3 & H4). exists bs1. replace (id + Z.of_nat (S i)) with (id + 1 + Z.of_nat i) by lia.
      split; [exact H1|]. split; [exact H2|]. split; [intros b ?; apply elem_of_app; right; by apply H3|]. cbn [length]. intros ?. apply H4. lia.
Qed.

(** The groups of a file. *)
Lemma split2Groups_ok fuel alg cfg cfg' f bs filename rs : (stateful_routing_enabled = 0 \/ forall us rs, exists n rs', route us rs = Ok (n, rs')) ->
  start_chunk_phase alg cfg = Ok (cfg', f) -> alg <> CHUNK_AE -> 1 <= chunk_min_size cfg -> 0 < chunk_avg_size cfg < 2 ^ 31 -> chunk_max_size cfg' < 2 ^ 21 ->
  Forall (fun b => 0 < zlen b <= DEFAULT_BLOCK_SIZE /\ Forall is_byte b) bs -> zlen (concat bs) < 2 ^ 31 -> (length (concat bs) < fuel)%nat ->
  exists gps rs', split2Groups sha1 fuel alg cfg (map ReadData bs ++ [ReadData []]) filename rs = Ok (gps, rs') /\
    grouped filename 0 (chunks_of f (concat bs)) gps /\ small_chunks (chunks_of f (concat bs)) /\ concat (map g_data gps) = concat bs.
Proof using.
  intros Hr Hs Hae Hmin Ha Hmax Hbs Hlen Hfuel.
  destruct (client_chunks_ok sha1 alg cfg cfg' f bs fuel Hs Hae Hmin Ha Hbs Hfuel) as (Hc & Hcat & _).
  destruct (start_chunk_phase_chunker alg cfg cfg' f Hs Hae Hmin Ha) as [HC Hm].
  destruct (chunks_of_spec f (chunk_max_size cfg') (concat bs)) as [_ Hall].
  { apply Forall_concat. eapply Forall_impl; [exact Hbs|]. by intros ? []. }
  set (cs := chunks_of f (concat bs)) in *.
  assert (Hsmall : small_chunks cs) by (eapply Forall_impl; [exact Hall|]; cbv beta; intros; lia).
  assert (Hn : zlen cs <= zlen (concat bs)).
  { rewrite <- Hcat. clear - Hall. induction Hall as [|b cs Hb _ IH]; [done|]. cbn [concat]. rewrite zlen_app, zlen_cons. lia. }
  destruct (group_loop_ok filename cs Hr [] 0 rs) as (gps & rs' & E & Hg); [done|done|lia|lia|]. exists gps, rs'. unfold split2Groups. rewrite Hc. step.
  split; [exact E|]. split; [exact Hg|]. split; [exact Hsmall|]. by rewrite (grouped_data _ _ _ _ Hg).
Qed.

(** What the rest of the client needs to know of a group. *)
Definition group_ok (filename : list Z) (i : nat) (gp : group) : Prop :=
  g_groupName gp = group_name filename (Z.of_nat i) /\ g_size gp = zlen (g_data gp) /\ 0 < g_size gp <= 2 ^ 31 - 1024 /\
  (stateful_routing_enabled = 0 -> 0 < nodeNum < 2 ^ 31 -> 0 <= g_nodeId gp < nodeNum).

Lemma grouped_facts filename bs gps i gp : grouped filename 0 bs gps -> small_chunks bs -> gps !! i = Some gp -> group_ok filename i gp.
Proof using.
  intros Hg Hb Hi. destruct (grouped_lookup _ _ _ _ Hg i gp Hi) as (bs' & ((Hn & Hs & Hd) & _ & Hid) & Hlen & Hin & _). rewrite Z.add_0_l in Hn.
  assert (Hb' : small_chunks bs') by (apply Forall_forall; intros b ?; pose proof (proj1 (Forall_forall _ _) Hb) as Hf; by apply Hf, Hin).
  pose proof (small_group bs' Hb' ltac:(lia)). split; [exact Hn|]. split; [by rewrite Hs, Hd|]. split.
  - rewrite Hs. split; [|lia]. destruct bs' as [|b bs']; [change (zlen (@nil (list Z))) with 0 in Hlen; lia|]. apply Forall_cons in Hb' as [Hb1 _].
    cbn [concat]. rewrite zlen_app. pose proof (zlen_nonneg (concat bs')). lia.
  - intros E Hnum. rewrite (Hid E). unfold consistentHash. destruct (Z.eqb_spec nodeNum 0); [lia|]. rewrite (uwrap_id 64 nodeNum) by (unfold in_u; lia).
    pose proof (Z.mod_pos_bound (fp2Int (g_delegate gp)) nodeNum ltac:(lia)). rewrite uwrap_id by (unfold in_u; lia). lia.
Qed.

(** C34: Splitting a file loses nothing: the data of the groups, in order, are the
    bytes of the file, whatever the pieces it is read in; group [i] has the name
    of the file with [i] after it and, without stateful routing, one of the
    nodes. *)
Theorem split2Groups_covers fuel alg cfg cfg' f bs filename rs : (stateful_routing_enabled = 0 \/ forall us rs, exists n rs', route us rs = Ok (n, rs')) ->
  start_chunk_phase alg cfg = Ok (cfg', f) -> alg <> CHUNK_AE -> 1 <= chunk_min_size cfg -> 0 < chunk_avg_size cfg < 2 ^ 31 -> chunk_max_size cfg' < 2 ^ 21 ->
  Forall (fun b => 0 < zlen b <= DEFAULT_BLOCK_SIZE /\ Forall is_byte b) bs -> zlen (concat bs) < 2 ^ 31 -> (length (concat bs) < fuel)%nat ->
  exists gps rs', split2Groups sha1 fuel alg cfg (map ReadData bs ++ [ReadData []]) filename rs = Ok (gps, rs') /\
    concat (map g_data gps) = concat bs /\ forall i gp, gps !! i = Some gp -> group_ok filename i gp.
Proof using.
  intros Hr Hs Hae Hmin Ha Hmax Hbs Hlen Hfuel.
  destruct (split2Groups_ok fuel alg cfg cfg' f bs filename rs) as (gps & rs' & E & Hg & Hsm & Hd); [done..|].
  exists gps, rs'. split; [exact E|]. split; [exact Hd|]. intros i gp Hi. by eapply grouped_facts.
Qed.
End Split.

(** ** The delegate *)

Lemma my_cmp_memcmp a b : my_cmp a b = memcmp a b.
Proof. reflexivity. Qed.

Section Delegate.
Context (sha1 : list Z -> fingerprint) (Hsha1 : forall b, fp_wf (sha1 b)).

Lemma fp_length b : length (sha1 b) = 20%nat.
Proof using Hsha1. destruct (Hsha1 b) as [Hl _]. unfold zlen, fp_size in Hl. lia. Qed.

(** A full group: the smallest fingerprint, if it is below [m]. *)
Lemma scan_smallest bs : forall size m, length m = 20%nat -> let r := snd (foldl (scan_step None) (size, m) (map (hashed_cblock sha1) bs)) in
  length r = 20%nat /\ my_cmp r m <= 0 /\ (forall b, b ∈ bs -> my_cmp r (sha1 b) <= 0) /\ (r = m \/ exists b, b ∈ bs /\ r = sha1 b).
Proof using Hsha1.
  induction bs as [|b bs IH]; intros size m Hm; cbn [map foldl].
  - cbn. split_and!; [done|by rewrite my_cmp_memcmp, memcmp_refl|by intros b Hb; apply not_elem_of_nil in Hb|by left].
  - change (scan_step None (size, m) (hashed_cblock sha1 b)) with (u32 (size + zlen b), if my_cmp (sha1 b) m <? 0 then sha1 b else m).
    pose proof (fp_length b) as Hb.
    destruct (Z.ltb_spec (my_cmp (sha1 b) m) 0) as [E|E]; [set (m' := sha1 b)|set (m' := m)];
      (assert (Hm' : length m' = 20%nat) by done; destruct (IH (u32 (size + zlen b)) m' Hm') as (H1 & H2 & H3 & H4); split; [done|]; split; [|split]).
    + rewrite !my_cmp_memcmp in *. apply (memcmp_trans _ m'); [exact (eq_trans H1 (eq_sym Hm'))|by (etrans; [exact Hm'|symmetry; exact Hm || apply fp_length])|exact H2|unfold m'; lia].
    + intros b' [->|Hb']%elem_of_cons; [exact H2|by apply H3].
    + right. destruct H4 as [E4|(b' & Hb' & E4)]; [exists b; split; [by left|exact E4]|exists b'; split; [by right|exact E4]].
    + exact H2.
    + intros b' [->|Hb']%elem_of_cons; [|by apply H3]. rewrite !my_cmp_memcmp in *. apply (memcmp_trans _ m'); [exact (eq_trans H1 (eq_sym Hm'))|by (etrans; [exact Hm'|symmetry; exact Hm || apply fp_length])|exact H2|]. rewrite memcmp_antisym. unfold m'. lia.
    + destruct H4 as [E4|(b' & Hb' & E4)]; [left; exact E4|]. right. exists b'. split; [by right|exact E4].
Qed.

(** The group at the end: whatever came before, the last fingerprint. *)
Lemma scan_last bs b n : forall size m, length m = 20%nat -> snd (foldl (scan_step (Some n)) (size, m) (map (hashed_cblock sha1) (bs ++ [b]))) = sha1 b.
Proof using Hsha1.
  assert (Hone : forall b' m, length m = 20%nat -> (if better (Some n) (my_cmp (sha1 b') m) then sha1 b' else m) = sha1 b').
  { intros b' m Hm. cbn [better]. rewrite my_cmp_memcmp. destruct (Z.eqb_spec (memcmp (sha1 b') m) 0) as [E|E]; [|done].
    apply memcmp_eq in E; [done|]. by rewrite fp_length. }
  induction bs as [|b' bs IH]; intros size m Hm; cbn [app map foldl]; [exact (Hone b m Hm)|].
  change (scan_step (Some n) (size, m) (hashed_cblock sha1 b')) with (u32 (size + zlen b'), if better (Some n) (my_cmp (sha1 b') m) then sha1 b' else m).
  rewrite Hone by done. apply IH, fp_length.
Qed.

(** No fingerprint is larger than that of [UCHAR_MAX]. *)
Lemma largest_fp fp : fp_wf fp -> memcmp max_fp fp <= 0 -> fp = max_fp.
Proof using.
  intros [Hl Hb]. assert (Hlen : length fp = 20%nat) by (unfold zlen, fp_size in Hl; lia). unfold max_fp. clear Hl.
  set (k := 20%nat) in *. clearbody k. revert fp Hb Hlen. induction k as [|k IH]; intros [|x fp] Hb Hlen Hm; try done. apply Forall_cons in Hb as [Hx Hb]. injection Hlen as Hlen. cbn [replicate memcmp] in *.
  unfold is_byte in Hx. destruct (Z.ltb_spec 255 x); [lia|]. destruct (Z.ltb_spec x 255); [lia|]. f_equal; [lia|by apply IH].
Qed.

(** The delegate of a full group is the smallest of its fingerprints, as it is
    meant to be; that of the group at the end of a file is the fingerprint of the
    last chunk, because the test of the loop lacks its [< 0]. *)
Theorem group_delegate bs b n : fp_wf max_fp /\
  let full := snd (group_scan None (map (hashed_cblock sha1) (bs ++ [b]))) in
  (forall b', b' ∈ bs ++ [b] -> my_cmp full (sha1 b') <= 0) /\ (exists b', b' ∈ bs ++ [b] /\ full = sha1 b') /\
  snd (group_scan (Some n) (map (hashed_cblock sha1) (bs ++ [b]))) = sha1 b.
Proof using Hsha1.
  split; [decide_it|]. cbn zeta. unfold group_scan. destruct (scan_smallest (bs ++ [b]) 0 max_fp eq_refl) as (H1 & H2 & H3 & H4).
  split; [exact H3|]. split; [|by apply scan_last].
  destruct H4 as [E|H4]; [|exact H4]. exists b. split; [set_solver|]. etrans; [exact E|]. symmetry. apply largest_fp; [apply Hsha1|].
  rewrite <- my_cmp_memcmp. specialize (H3 b ltac:(set_solver)). etrans; [|exact H3]. by rewrite E.
Qed.
End Delegate.

Lemma group_delegate_witness : snd (group_scan (Some 2) (map (hashed_cblock (fun b => replicate 20 (zlen b mod 256))) ([[7]] ++ [[1; 2]]))) = replicate 20 2.
Proof.
  refine (proj2 (proj2 (proj2 (group_delegate (fun b => replicate 20 (zlen b mod 256)) _ [[7]] [1; 2] 2)))).
  intros b. split; [done|]. apply Forall_replicate. unfold is_byte. pose proof (Z.mod_pos_bound (zlen b) 256). lia.
Defined.

(** A file of five bytes in two pieces, as one group. *)
Lemma split2Groups_covers_witness : exists gps, split2Groups 0 3 (fun _ _ => Err ENull) (fun d => replicate 20 (zlen d)) 10 CHUNK_FIXED (mk_chunk_config 4 1 8)
    (map ReadData [[1; 2]; [3; 4; 5]] ++ [ReadData []]) [47; 97] () = Ok (gps, ()) /\ concat (map g_data gps) = [1; 2; 3; 4; 5].
Proof.
  assert (Hs : start_chunk_phase CHUNK_FIXED (mk_chunk_config 4 1 8) = Ok (mk_chunk_config 4 1 4, fixed_chunk_data (mk_chunk_config 4 1 4))) by reflexivity.
  destruct (split2Groups_covers 0 3 (fun _ _ => Err ENull) (fun d => replicate 20 (zlen d)) 10 CHUNK_FIXED (mk_chunk_config 4 1 8) _ _ [[1; 2]; [3; 4; 5]] [47; 97] ()
    (or_introl eq_refl) Hs) as (gps & [] & E & Hd & _); [discriminate|cbn; lia|cbn; lia|cbn; lia| |vm_compute; done|cbn; lia|].
  - decide_it.
  - exists gps. split; [exact E|exact Hd].
Defined.
