(* ===== verification/Server.v ===== *)
(** The node: [destor/src/destor_server.c]. A process serves one request: it stores
    a group that the client sends, as a backup job, or restores one.

    The phases of a backup before the index, from the packets of the client to
    segments, are functions; the job itself is [Job.do_backup], whose threads make
    it a choice of the process. A restore sends its packets through the Redis
    server of the client. *)

From S2P Require Import Prelude Serial CFile CText Glib Destor LruCache Container Recipe Segmenting Chunking ChunkPhase HashPhase RestoreCache OptRestore DoRestore.
From S2P Require Import Double Sampling KvStore RestoreAware Index IndexInv Filter FilterInv DedupPhase Backup Job Network Command.

Definition MAX_JOB_ID_KEY_LEN : Z := 80.

(** ** Numbers *)

(** The number of digits of [tmpa]. *)
Fixpoint digit_count (fuel : nat) (tmpa len : Z) : res Z :=
  if 0 <? tmpa then match fuel with O => Err EFuel | S fuel => digit_count fuel (tmpa / 10) (len + 1) end else Ok len.

(** [while (a > 0) p[i--] = a % 10 + '0'] *)
Fixpoint put_digits (fuel : nat) (p : list Z) (i a : Z) : res (list Z) :=
  if 0 <? a then
    match fuel with
    | O => Err EFuel
    | S fuel => p ← write_bytes p i [a mod 10 + 48]; put_digits fuel p (i - 1) (a / 10)
    end
  else Ok p.

(** A C string before its terminator. *)
Lemma cstr_app s rest : Forall (fun ch => ch <> 0) s -> Recipe.cstr (s ++ 0 :: rest) = s.
Proof. induction 1 as [|ch s Hc _ IH]; [done|]. cbn [app Recipe.cstr]. destruct (Z.eqb_spec ch 0); [done|]. by rewrite IH. Qed.

Section Server.
Context `{HC : !HashIter fingerprint metaEntry} `{HF : !HashIter (list Z) ()} `{HS : !HashIter Z (gset (list Z))} `{HK : !HashIter (list Z) (list Z)}.
Context `{SF : !SeqSort fingerprint} `{SA : !SeqSort (fingerprint * fingerprint)} `{SS : !SeqSort (Z * gset (list Z))} `{SR : !SeqSort accessRecords}.

(** The terminator is written behind the [len] bytes that were asked for: a fault
    for every number but 0, whose text is a literal. *)
Definition intToChar (a : Z) : res (list Z) :=
  if a =? 0 then Ok (lit "0") else
  len ← digit_count 20 a 0;
  p ← put_digits 20 (zeros len) (len - 1) a;
  p ← write_bytes p len [0];
  Ok (Recipe.cstr p).

Context (cfg : index_config) (fcfg : filter_config) (simulation_level wait_threshold restore_cache_size : Z).
Context (sha1 : list Z -> fingerprint) (chunk_algorithm : Z) (ccfg : chunk_config) (scfg : seg_config).
Context (restore_cache_0 restore_cache_1 restore_opt_window_size : Z) (stack : Z -> fingerprint).
Context (local_ip : Z).

(** ** Receiving a group *)

(** The key of packet [pktid]: [fix] has 20 bytes, the key 21 more than the name. *)
Definition data_key (filename : list Z) (pktid : Z) : res (list Z) :=
  num ← intToChar pktid;
  let fix_ := lit "_data_" ++ num in
  if 20 <? zlen fix_ + 1 then Err EBounds else
  if zlen filename + 1 + 20 <? zlen (filename ++ fix_) + 1 then Err EBounds else Ok (filename ++ fix_).

(** A packet: its size and its bytes; the text of a reply ends with a NUL. *)
Definition read_packet (pkt : list Z) : res chunk :=
  bs ← read_bytes (pkt ++ [0]) 0 4;
  let pkt_size := u32 (ntohl (le_val bs)) in
  let c := new_chunk (s32 pkt_size) in
  src ← read_bytes (pkt ++ [0]) 4 pkt_size;
  match ck_data c with
  | None => if pkt_size =? 0 then Ok c else Err ENull
  | Some d => d ← write_bytes d 0 src; Ok (mk_chunk (ck_size c) (ck_flag c) (ck_id c) (ck_fp c) (Some d))
  end.

(** The replies to the pipelined BLPOPs. *)
Fixpoint read_packets (keys : list (list Z)) : io disk (list chunk) :=
  match keys with
  | [] => Ret []
  | key :: keys => Blpop (local_ip, key) (fun pkt => c ← lift (read_packet pkt); cs ← read_packets keys; Ret (c :: cs))
  end.

(** What [read_data] pushes into the read queue. *)
Definition read_data (filename : list Z) (size : Z) : io disk (list chunk) :=
  c ← lift (filled_chunk (filename ++ [0]));
  let pktnum := size / DEFAULT_BLOCK_SIZE + (if size mod DEFAULT_BLOCK_SIZE =? 0 then 0 else 1) in
  keys ← lift (mapM (data_key filename) (seqZ 0 pktnum));
  blocks ← read_packets keys;
  Ret (SET_CHUNK c CHUNK_FILE_START :: blocks ++ [SET_CHUNK (new_chunk 0) CHUNK_FILE_END]).

(** Rounds enough for the chunk thread: the bytes of the queue. *)
Definition queue_bytes (cs : list chunk) : nat := length (concat (map (fun c => default [] (ck_data c)) cs)).

(** The chunk phase, the hash phase and the segmenting of the dedup phase. *)
Definition dedup_input (read_queue : list chunk) : res (list segment) :=
  '(ccfg, chunking) ← start_chunk_phase chunk_algorithm ccfg;
  s ← chunk_thread chunking (chunk_max_size ccfg) (length read_queue) (S (queue_bytes read_queue)) 0 0 0 read_queue;
  hash_queue ← sha1_thread sha1 (ct_out s);
  segmenting ← init_segmenting_method scfg;
  feed segmenting None hash_queue.

(** ** The requests *)

Definition finished_key (path : list Z) : list Z := path ++ lit "_data_finished".
Definition job_id_key (path : list Z) : list Z := path ++ 95 :: lit "job_id".

(** The report divides by the number of chunks; [jobidkey] has 80 bytes. The
    number of the job is that of its version. *)
Definition destor_write (d : disk) (path : list Z) (size : Z) : io disk disk :=
  read_queue ← read_data path size;
  todo ← lift (dedup_input read_queue);
  Choose (do_backup cfg fcfg simulation_level wait_threshold restore_cache_size path todo d) (fun d' =>
    _ ← lift (if s32 (zlen (normals (chunks_of todo))) =? 0 then Err EArith else Ok ());
    Rpush (local_ip, finished_key path) (le_bytes 4 (s32 (htonl 1)))
      (_ ← lift (if MAX_JOB_ID_KEY_LEN <? zlen (job_id_key path) + 1 then Err EBounds else Ok ());
       let id := init_recipe_store (dk_counter d) in
       SetKey (local_ip, job_id_key path) (le_bytes 4 (s32 (htonl (u32 id)))) (Ret d'))).

(** The commands of a restore, one after the other. *)
Fixpoint send_all (ip : Z) (cmds : list (list Z * list Z)) (k : io disk disk) : io disk disk :=
  match cmds with [] => k | (key, v) :: cmds => Rpush (ip, key) v (send_all ip cmds k) end.

(** [do_restore] opens the stores and closes them; the client's address is that
    of the request. *)
Definition destor_read (d : disk) (client_ip : Z) (filename : list Z) : io disk disk :=
  _ ← lift (if MAX_JOB_ID_KEY_LEN <? zlen (job_id_key filename) + 1 then Err EBounds else Ok ());
  GetKey (local_ip, job_id_key filename) (fun reply =>
    match reply with
    | None => Stop (EExit (-1))
    | Some req_str =>
        bs ← lift (read_bytes (req_str ++ [0]) 0 4);
        let job_id := s32 (ntohl (le_val bs)) in
        let backup_version_count := init_recipe_store (dk_counter d) in
        st ← lift (init_container_store (dk_pool d));
        '(cmds, _) ← lift (do_restore (restore_fuel (dk_versions d) job_id) simulation_level restore_cache_0 restore_cache_1 restore_opt_window_size stack
          (dk_versions d) st job_id filename);
        send_all client_ip cmds
          (pool ← lift (close_container_store simulation_level st);
           Ret (mk_disk (dk_versions d) (Some (close_recipe_store backup_version_count)) (Some (fdata pool)) (dk_index d)))
    end).

(** [destor_server_process] *)
Definition destor_server_process (d : disk) : io disk disk :=
  Blpop (local_ip, lit "destor_request") (fun reqStr =>
    cmd ← lift (destor_cmd_init_with_reqstr reqStr);
    if dc_type cmd =? 0 then destor_write d (dc_group_name cmd) (dc_size cmd)
    else if dc_type cmd =? 1 then destor_read d (dc_client_ip cmd) (dc_to_read_filename cmd)
    else Ret d).

(** ** Numbers and keys *)

Lemma print_nat_len fuel : forall k n, 0 <= n < 10 ^ k -> 1 <= k -> zlen (print_nat fuel n) <= k.
Proof using.
  induction fuel as [|fuel IH]; intros k n Hn Hk; cbn [print_nat]; [change (zlen (@nil Z)) with 0; lia|].
  destruct (Z.ltb_spec n 10) as [|Hge]; [change (zlen [48 + n]) with 1; lia|]. rewrite zlen_app. change (zlen [_]) with 1.
  destruct (decide (k = 1)) as [->|Hk1]; [change (10 ^ 1) with 10 in Hn; lia|].
  assert (E : 10 ^ k = 10 * 10 ^ (k - 1)) by (rewrite <- Z.pow_succ_r by lia; f_equal; lia).
  assert (Hb : 0 <= n / 10 < 10 ^ (k - 1)) by (split; [apply Z.div_pos; lia|apply Z.div_lt_upper_bound; lia]).
  pose proof (IH (k - 1) (n / 10) Hb ltac:(lia)). lia.
Qed.

Lemma digit_count_ok fuel : forall a len, 0 < a < 10 ^ Z.of_nat fuel -> digit_count fuel a len = Ok (len + zlen (print_nat fuel a)).
Proof using.
  induction fuel as [|fuel IH]; intros a len Ha; [change (10 ^ Z.of_nat 0) with 1 in Ha; lia|]. cbn [digit_count print_nat].
  rewrite Nat2Z.inj_succ, Z.pow_succ_r in Ha by lia. destruct (Z.ltb_spec 0 a); [|lia]. destruct (Z.ltb_spec a 10).
  - rewrite Z.div_small by lia. by destruct fuel.
  - rewrite IH; [rewrite zlen_app; change (zlen [_]) with 1; f_equal; lia|]. split; [apply Z.div_str_pos; lia|apply Z.div_lt_upper_bound; lia].
Qed.

Lemma put_digits_ok fuel : forall a u rest, 0 < a < 10 ^ Z.of_nat fuel -> zlen u = zlen (print_nat fuel a) ->
  put_digits fuel (u ++ rest) (zlen u - 1) a = Ok (print_nat fuel a ++ rest).
Proof using.
  induction fuel as [|fuel IH]; intros a u rest Ha Hu; [change (10 ^ Z.of_nat 0) with 1 in Ha; lia|]. cbn [put_digits print_nat] in *.
  rewrite Nat2Z.inj_succ, Z.pow_succ_r in Ha by lia. destruct (Z.ltb_spec 0 a); [|lia].
  assert (Hlast : exists u' x, u = u' ++ [x] /\ zlen u' = zlen u - 1).
  { destruct u as [|x u] using rev_ind.
    - exfalso. destruct (a <? 10); [done|]. rewrite zlen_app in Hu. change (zlen (@nil Z)) with 0 in Hu. change (zlen [_]) with 1 in Hu. pose proof (zlen_nonneg (print_nat fuel (a / 10))). lia.
    - exists u, x. rewrite zlen_app. change (zlen [x]) with 1. split; [done|lia]. }
  destruct Hlast as (u' & x & -> & Hl). rewrite <- app_assoc.
  assert (Hw : forall d, write_bytes (u' ++ [x] ++ rest) (zlen (u' ++ [x]) - 1) [d] = Ok (u' ++ d :: rest)).
  { intros d. rewrite (write_bytes_app u' [d] ([x] ++ rest)); [|lia|rewrite zlen_app; change (zlen [d]) with 1; change (zlen [x]) with 1; pose proof (zlen_nonneg rest); lia].
    rewrite <- app_assoc. do 3 f_equal. }
  rewrite Hw. step. destruct (Z.ltb_spec a 10).
  - rewrite Z.div_small, Z.mod_small by lia. assert (u' = []) as -> by (apply zlen_nil_inv; change (zlen [48 + a]) with 1 in Hu; lia).
    rewrite (Z.add_comm a 48). by destruct fuel.
  - rewrite !zlen_app in Hu. change (zlen [48 + a mod 10]) with 1 in Hu. change (zlen [x]) with 1 in Hu. replace (zlen (u' ++ [x]) - 1 - 1) with (zlen u' - 1) by lia.
    rewrite (IH (a / 10) u' (a mod 10 + 48 :: rest)); [|split; [apply Z.div_str_pos; lia|apply Z.div_lt_upper_bound; lia]|].
    + rewrite <- app_assoc. cbn [app]. by rewrite (Z.add_comm (a mod 10)).
    + lia.
Qed.

Lemma intToChar_overflows a : 0 < a < 2 ^ 32 -> intToChar a = Err EBounds.
Proof using.
  intros Ha. unfold intToChar. destruct (Z.eqb_spec a 0) as [->|Hne]; [lia|].
  assert (Hb : 0 < a < 10 ^ Z.of_nat 20) by (split; [lia|]; transitivity (2 ^ 32); [lia|done]).
  rewrite digit_count_ok by done. step. rewrite Z.add_0_l. set (s := print_nat 20 a).
  assert (Hz : zlen (zeros (zlen s)) = zlen s) by (rewrite zlen_zeros; pose proof (zlen_nonneg s); lia).
  replace (zlen s - 1) with (zlen (zeros (zlen s)) - 1) by lia. rewrite <- (app_nil_r (zeros (zlen s))), zlen_app, Z.add_0_r.
  rewrite put_digits_ok by done. fold s. step. rewrite app_nil_r. unfold write_bytes. by rewrite bool_decide_false by (change (zlen [0]) with 1; lia).
Qed.

Lemma data_key_some name k key : 0 <= k < 2 ^ 32 -> data_key name k = Ok key -> k = 0 /\ key = name ++ lit "_data_" ++ print_int k.
Proof using.
  intros Hk. unfold data_key. destruct (decide (k = 0)) as [->|Hne].
  - change (intToChar 0) with (Ok (lit "0")). step. change (20 <? _) with false. destruct (_ <? _); [done|]. by intros [= <-].
  - by rewrite intToChar_overflows by lia.
Qed.

(** The first packet has a key, and the second none. *)
Lemma data_key_first name : data_key name 0 = Ok (name ++ lit "_data_" ++ print_int 0).
Proof using.
  unfold data_key. change (intToChar 0) with (Ok (lit "0")). step. change (20 <? _) with false. change (lit "_data_" ++ print_int 0) with (lit "_data_0").
  change (lit "_data_" ++ lit "0") with (lit "_data_0"). rewrite zlen_app. change (zlen (lit "_data_0")) with 7.
  destruct (Z.ltb_spec (zlen name + 1 + 20) (zlen name + 7 + 1)); [lia|done].
Qed.

(** No group of more than one packet is received. *)
Lemma read_data_overflows name size : DEFAULT_BLOCK_SIZE < size < 2 ^ 32 -> read_data name size = Stop EBounds.
Proof using.
  intros Hs. unfold read_data. rewrite filled_chunk_ok by by destruct name. cbn [lift mbind io_mbind io_bind]. cbv zeta.
  set (n := size / DEFAULT_BLOCK_SIZE + _). assert (Hlt : 1 < n).
  { subst n. pose proof (Z.div_mod size DEFAULT_BLOCK_SIZE ltac:(done)) as E. pose proof (Z.mod_pos_bound size DEFAULT_BLOCK_SIZE ltac:(done)).
    destruct (Z.eqb_spec (size mod DEFAULT_BLOCK_SIZE) 0); unfold DEFAULT_BLOCK_SIZE in *; lia. }
  rewrite seqZ_cons, seqZ_cons by lia. cbn [mapM]. rewrite data_key_first. step. unfold data_key. by rewrite intToChar_overflows by done.
Qed.
End Server.

Section Demo.
#[local] Existing Instance std_hash_iter.
#[local] Existing Instance std_seq_sort.

End Demo.
