(* ===== verification/Node.v ===== *)
(** What a node does with a request: [Server] against what it is for. The chunks
    of a group that is sent are those of a job, a group that was stored is sent
    back as it was, and a restore leaves the disk as it is. *)

From S2P Require Import Prelude Serial CFile CText Glib Destor LruCache Container Recipe Segmenting Chunking ChunkPhase HashPhase RestoreCache OptRestore DoRestore.
From S2P Require Import Double Sampling KvStore RestoreAware Index IndexInv Filter FilterInv DedupPhase Backup Job Network Command Server.

(** ** The chunks of a group *)

(** Segments of up to 65535 chunks, whose number fits a recipe. *)
Definition seg_config_ok (scfg : seg_config) : Prop :=
  (segment_method scfg = INDEX_SEGMENT_FIXED /\ 0 < segment_size scfg < 65536) \/
  (segment_method scfg = INDEX_SEGMENT_CONTENT_DEFINED /\ segment_size scfg <> 0 /\ 0 < index_segment_min scfg < index_segment_max scfg /\ index_segment_max scfg < 65536).

(** The segments partition the stream, and none is too long. *)
Lemma feed_small scfg cs : seg_config_ok scfg -> Forall (fun c => fp_wf (ck_fp c)) cs ->
  exists f segs, init_segmenting_method scfg = Ok f /\ feed f None cs = Ok segs /\ Backup.chunks_of segs = cs /\
    Forall (fun s => seg_chunk_num s = normal_count (seg_chunks s) /\ seg_chunk_num s < 65536) segs.
Proof.
  intros Hs Hfp.
  assert (Hp : forall P Q f, step_ok false P Q f -> (forall s, P s \/ Q s -> seg_chunk_num s < 65536) ->
    exists segs, feed f None cs = Ok segs /\ Backup.chunks_of segs = cs /\ Forall (fun s => seg_chunk_num s = normal_count (seg_chunks s) /\ seg_chunk_num s < 65536) segs).
  { intros P Q f Hf Hlt. destruct (feed_partition false P Q f Hf cs None I ltac:(done) Hfp ltac:(done)) as (ss & t & E & Hc & Hn & HP & HQ). exists (ss ++ [t]).
    split; [exact E|]. split; [exact Hc|]. apply Forall_app in Hn as [Hn1 Hn2]. apply Forall_app. split.
    - apply Forall_forall. intros s Hin. rewrite Forall_forall in Hn1, HP. split; [by apply Hn1|]. apply Hlt. left. by apply HP.
    - apply Forall_singleton. rewrite Forall_singleton in Hn2. split; [done|]. apply Hlt. by right. }
  unfold init_segmenting_method. destruct Hs as [[-> Hsz]|(-> & Hsz & Hmm & Hmx)].
  - destruct (Hp _ _ _ (segment_fixed_step scfg ltac:(lia))) as (segs & E & Hc & Hn); [intros s; cbn beta; intros [?|?]; lia|]. by eexists _, segs.
  - destruct (Hp _ _ _ (segment_content_step scfg Hsz Hmm ltac:(lia))) as (segs & E & Hc & Hn); [intros s; cbn beta; intros [?|?]; lia|]. by eexists _, segs.
Qed.

Section Input.
Context (sha1 : list Z -> fingerprint) (Hsha1 : forall b, fp_wf (sha1 b)) (chunk_algorithm : Z) (ccfg : chunk_config) (scfg : seg_config).
Context (ccfg' : chunk_config) (f : list Z -> Z -> res Z) (Hs : start_chunk_phase chunk_algorithm ccfg = Ok (ccfg', f)).
Context (Hae : chunk_algorithm <> CHUNK_AE) (Hmin : 1 <= chunk_min_size ccfg) (Ha : 0 < chunk_avg_size ccfg < 2 ^ 31) (Hseg : seg_config_ok scfg).

(** What [read_data] pushes into the read queue. *)
Definition sent_queue (name : list Z) (blocks : list (list Z)) : list chunk :=
  SET_CHUNK (block_chunk (name ++ [0])) CHUNK_FILE_START :: map block_chunk blocks ++ [SET_CHUNK (new_chunk 0) CHUNK_FILE_END].

(** A block as the client sends it. *)
Definition sent_block (b : list Z) : Prop := 0 < zlen b <= DEFAULT_BLOCK_SIZE /\ Forall is_byte b.

Lemma queue_bytes_blocks name blocks : (length (concat blocks) <= queue_bytes (sent_queue name blocks))%nat.
Proof using.
  unfold queue_bytes, sent_queue. cbn [map concat]. rewrite map_app, concat_app, !length_app, map_map. cbn [ck_data block_chunk default].
  rewrite map_id. lia.
Qed.

Lemma backup_file_fps name data : Forall (fun c => fp_wf (ck_fp c)) (backup_file sha1 f name data).
Proof using Hsha1.
  unfold backup_file. assert (Hz : fp_wf (zeros fp_size)) by (split; [done|decide_it]). constructor; [exact Hz|]. apply Forall_app. split.
  - apply Forall_map, Forall_forall. intros b _. apply Hsha1.
  - by apply Forall_singleton.
Qed.

(** The chunks and their fingerprints are those of the file, which is segmented. *)
Lemma dedup_input_feed name blocks : Forall sent_block blocks ->
  dedup_input sha1 chunk_algorithm ccfg scfg (sent_queue name blocks) =
  (segmenting ← init_segmenting_method scfg; feed segmenting None (backup_file sha1 f name (concat blocks))).
Proof using Hsha1 Hs Hae Hmin Ha.
  intros Hb. destruct (start_chunk_phase_chunker _ _ _ _ Hs Hae Hmin Ha) as [HC Hmax].
  set (file := mk_in_file (SET_CHUNK (block_chunk (name ++ [0])) CHUNK_FILE_START) blocks (SET_CHUNK (new_chunk 0) CHUNK_FILE_END)).
  assert (Hwf : in_file_wf file) by done.
  assert (Eq : sent_queue name blocks = concat (map in_file_chunks [file])) by (unfold sent_queue; cbn [map concat]; by rewrite app_nil_r).
  destruct (chunk_thread_ok f (chunk_max_size ccfg') [file] (length (sent_queue name blocks)) (S (queue_bytes (sent_queue name blocks))) HC Hmax) as (s & Er & Eo & _).
  { by apply Forall_singleton. }
  { cbn. lia. }
  { apply Forall_singleton. pose proof (queue_bytes_blocks name blocks). unfold if_data. cbn [if_blocks file]. lia. }
  rewrite <- Eq in Er. unfold dedup_input. rewrite Hs. step. rewrite Er. step. rewrite Eo, sha1_thread_files by by apply Forall_singleton. step.
  cbn [map concat]. rewrite app_nil_r. done.
Qed.

Lemma dedup_input_ok name blocks : Forall sent_block blocks ->
  exists todo, dedup_input sha1 chunk_algorithm ccfg scfg (sent_queue name blocks) = Ok todo /\ Backup.chunks_of todo = backup_file sha1 f name (concat blocks) /\
    Forall (fun s => seg_chunk_num s = normal_count (seg_chunks s) /\ seg_chunk_num s < 65536) todo.
Proof using Hsha1 Hs Hae Hmin Ha Hseg.
  intros Hb. rewrite dedup_input_feed by done.
  destruct (feed_small scfg _ Hseg (backup_file_fps name (concat blocks))) as (g & segs & -> & Ef & Hcs & Hn). step. by exists segs.
Qed.

(** ** The job of a group *)

Context (content : fingerprint -> list Z).

(** The bytes of [data] are known by the fingerprints of its chunks. *)
Definition known (data : list Z) : Prop := forall b, b ∈ ChunkPhase.chunks_of f data -> content (sha1 b) = b.

(** A name that a version can have: with a slash, and short enough for its key. *)
Definition group_name_ok (name : list Z) : Prop := Forall (fun ch => is_byte ch /\ ch <> 0) name /\ slash ∈ name /\ zlen name <= 58.

Lemma trim_path_found name : slash ∈ name -> exists p, trim_path (rev name) = Ok p.
Proof using.
  intros Hin. assert (Hr : slash ∈ rev name) by (rewrite list_elem_of_In, <- in_rev, <- list_elem_of_In; exact Hin). induction (rev name) as [|ch l IH]; [by apply not_elem_of_nil in Hr|].
  cbn [trim_path]. destruct (Z.eqb_spec ch slash) as [E|E]; [by eexists|]. apply elem_of_cons in Hr as [Hr|Hr]; [by destruct E|by apply IH].
Qed.

Lemma backup_file_stream name data : file_stream false (backup_file sha1 f name data) = Some false.
Proof using.
  unfold backup_file. cbn [file_stream]. change (CHECK_CHUNK (SET_CHUNK (block_chunk (name ++ [0])) CHUNK_FILE_START) CHUNK_FILE_START) with true. cbv iota.
  induction (ChunkPhase.chunks_of f data) as [|b bs IH]; [done|]. cbn [map app file_stream]. exact IH.
Qed.

Lemma backup_file_normals name data : normals (backup_file sha1 f name data) = map (hashed_chunk sha1) (ChunkPhase.chunks_of f data).
Proof using.
  unfold backup_file, normals. rewrite filter_cons_False by done. rewrite filter_app. rewrite (filter_cons_False _ (SET_CHUNK (new_chunk 0) CHUNK_FILE_END)) by done.
  rewrite filter_nil, app_nil_r. induction (ChunkPhase.chunks_of f data) as [|b bs IH]; [done|]. cbn [map]. rewrite filter_cons_True by done. by rewrite IH.
Qed.

(** Every chunk of the file of a group is as the phases leave it. *)
Lemma backup_file_chunks name data c : Forall is_byte data -> known data -> group_name_ok name -> c ∈ backup_file sha1 f name data ->
  (is_file_flag c = false -> data_ok SIMULATION_NO content c /\ new_normal c) /\ fragmented c = false /\ FilterInv.name_ok c.
Proof using Hsha1 Hs Hae Hmin Ha.
  intros Hd Hk (Hn & _ & Hlen) [->|[Hin|Hin]%elem_of_app]%elem_of_cons.
  - split; [done|]. split; [done|]. intros _. exists (name ++ [0]). split; [done|].
    rewrite cstr_app by (eapply Forall_impl; [exact Hn|]; by intros ? []). unfold metabufsize. lia.
  - apply list_elem_of_fmap in Hin as (b & -> & Hb). destruct (start_chunk_phase_chunker _ _ _ _ Hs Hae Hmin Ha) as [HC Hmax].
    destruct (chunks_of_spec f (chunk_max_size ccfg') data Hd) as [_ Hall]. rewrite Forall_forall in Hall. specialize (Hall b Hb). cbv beta in Hall.
    destruct (Hsha1 b) as [Hl Hbs]. split; [|by split]. intros _. split; [|done]. split; [exact Hl|]. split; [by split|]. cbn [hashed_chunk ck_size ck_fp]. split; [lia|].
    intros _. unfold chunk_bytes. cbn [ck_data hashed_chunk]. rewrite (Hk b Hb). by apply read_all.
  - apply list_elem_of_singleton in Hin as ->. done.
Qed.

Lemma one_file name data todo : Backup.chunks_of todo = backup_file sha1 f name data -> length (job_files (name, todo)) = 1%nat.
Proof using.
  intros Hc. unfold job_files. cbn [snd]. rewrite Hc. unfold backup_file. cbn [closed_files file_step closed_by app].
  change (CHECK_CHUNK (SET_CHUNK (block_chunk (name ++ [0])) CHUNK_FILE_START) CHUNK_FILE_START) with true. cbv iota.
  match goal with |- length (closed_files (Some ?r) _) = _ => generalize r end. clear. induction (ChunkPhase.chunks_of f data) as [|b bs IH]; intros r; [done|].
  cbn [map app closed_files closed_by file_step]. apply IH.
Qed.

Lemma group_job_ok name data todo : Forall is_byte data -> known data -> group_name_ok name -> zlen (ChunkPhase.chunks_of f data) + 2 < 2 ^ 31 ->
  Backup.chunks_of todo = backup_file sha1 f name data ->
  Forall (fun s => seg_chunk_num s = normal_count (seg_chunks s) /\ seg_chunk_num s < 65536) todo ->
  job_ok SIMULATION_NO content (name, todo) /\ length (job_files (name, todo)) = 1%nat.
Proof using Hsha1 Hs Hae Hmin Ha.
  intros Hd Hk Hname Hlen Hc Hseg'. split; [split|]; cbn [fst snd].
  - unfold job_path. cbn [fst]. destruct (trim_path_found name) as [p ->]; [apply Hname|]. done.
  - destruct Hname as (Hn & _ & Hl). split; [eapply Forall_impl; [exact Hn|]; by intros ? []|lia].
  - rewrite Forall_forall in Hseg' |- *. intros s Hin. destruct (Hseg' s Hin) as [Hnum Hlt].
    assert (Hcs : forall c, c ∈ seg_chunks s -> c ∈ backup_file sha1 f name data).
    { intros c Hc'. rewrite <- Hc. unfold Backup.chunks_of. apply list_elem_of_In, in_concat. exists (seg_chunks s). rewrite <- !list_elem_of_In. split; [|done].
      by apply list_elem_of_fmap_2. }
    assert (Hall := fun c Hc' => backup_file_chunks name data c Hd Hk Hname (Hcs c Hc')). split; [split|..].
    + apply Forall_forall. intros c Hc' Hff. by apply (proj1 (Hall c Hc') Hff).
    + apply Forall_forall. intros c Hc'. pose proof (backup_file_fps name data) as Hf. rewrite Forall_forall in Hf. by apply Hf, Hcs.
    + intros E. rewrite Hnum, E. done.
    + apply Forall_forall. intros c Hc'. destruct (Hall c Hc') as (H1 & H2 & H3). split; [|by split]. intros Hff. by apply H1.
    + exact Hnum.
    + exact Hlt.
  - rewrite Hc. apply backup_file_stream.
  - rewrite Hc. unfold backup_file. rewrite zlen_cons, zlen_app. change (zlen [_]) with 1. unfold zlen in *. rewrite length_map. lia.
  - by apply (one_file name data).
Qed.
End Input.

(** ** Packets *)

(** What the client pushes for a block, and what it makes of it. *)
Definition sent_packet (b : list Z) : list Z := be_bytes 4 (zlen b) ++ b.

Lemma ntohl_be n rest : in_u 32 n -> (bs ← read_bytes (be_bytes 4 n ++ rest) 0 4; Ok (ntohl (le_val bs))) = Ok n.
Proof.
  intros Hn. assert (E : read_bytes (be_bytes 4 n ++ rest) 0 4 = Ok (be_bytes 4 n)) by (apply (read_bytes_app [] (be_bytes 4 n) rest); [done|by rewrite zlen_be_bytes]).
  rewrite E. step. unfold be_bytes. rewrite le_val_rev_bytes. unfold ntohl.
  rewrite bswap_involutive. f_equal. change (8 * Z.of_nat 4) with 32. by apply (uwrap_id 32).
Qed.

Lemma read_packet_ok b : sent_block b -> read_packet (sent_packet b) = Ok (block_chunk b).
Proof.
  intros [Hl _]. unfold DEFAULT_BLOCK_SIZE in Hl. assert (Hu : in_u 32 (zlen b)) by (unfold in_u; lia). unfold read_packet, sent_packet. rewrite <- app_assoc.
  assert (E := ntohl_be (zlen b) (b ++ [0]) Hu). apply bind_Ok in E as (bs & -> & E). injection E as E. step. rewrite E. rewrite (uwrap_id 32) by done.
  rewrite (read_bytes_app (be_bytes 4 (zlen b)) b [0]) by (by rewrite ?zlen_be_bytes). step.
  rewrite s32_id, new_chunk_pos by lia. cbn [ck_data ck_size ck_flag ck_id ck_fp]. rewrite write_all by (rewrite zlen_fresh; lia). step. done.
Qed.

(** ** Texts of numbers *)

Lemma print_int_inj a b : 0 <= a < 2 ^ 63 -> 0 <= b < 2 ^ 63 -> print_int a = print_int b -> a = b.
Proof.
  intros Ha Hb E. destruct (print_int_nonneg a Ha) as (c & s & Ea & _ & _ & Sa). destruct (print_int_nonneg b Hb) as (c' & s' & Eb & _ & _ & Sb).
  rewrite E, Eb in Ea. injection Ea as -> ->. specialize (Sa []). rewrite Sb in Sa. by cbn in Sa.
Qed.

(** The key of packet [k] of a group. *)
Definition packet_key (name : list Z) (k : Z) : list Z := name ++ lit "_data_" ++ print_int k.

Lemma packet_key_inj name a b : 0 <= a < 2 ^ 63 -> 0 <= b < 2 ^ 63 -> packet_key name a = packet_key name b -> a = b.
Proof. intros Ha Hb E. apply app_inv_head in E. apply app_inv_head in E. by apply print_int_inj. Qed.

(** ** The disk after a restore *)

Section Closed.
Context `{HC : !HashIter fingerprint metaEntry} `{HF : !HashIter (list Z) ()} `{HS : !HashIter Z (gset (list Z))} `{HK : !HashIter (list Z) (list Z)}.
Context `{SF : !SeqSort fingerprint} `{SA : !SeqSort (fingerprint * fingerprint)} `{SS : !SeqSort (Z * gset (list Z))} `{SR : !SeqSort accessRecords}.
Context `{HCO : !HashIterOk fingerprint metaEntry} `{HFO : !HashIterOk (list Z) ()} `{HSO : !HashIterOk Z (gset (list Z))} `{HKO : !HashIterOk (list Z) (list Z)}.
Context `{SFO : !SeqSortOk fingerprint} `{SAO : !SeqSortOk (fingerprint * fingerprint)} `{SSO : !SeqSortOk (Z * gset (list Z))}.
Context `{SRO : !SeqSortOk accessRecords}.
Context (cfg : index_config) (fcfg : filter_config) (wait_threshold restore_cache_size : Z).
Context (CO : config_ok cfg) (Hvl : value_length cfg < 2 ^ 31) (content : fingerprint -> list Z).

(** Writing the same bytes at the start of a file again. *)
Lemma rewrite_start data bs : let f := fwrite (mk_file data 0) bs in fdata (fwrite (mk_file (fdata f) 0) bs) = fdata f.
Proof using.
  assert (Ew : forall d, file_write d 0 bs = bs ++ zdrop (zlen bs) d).
  { intros d. unfold file_write, zeros. pose proof (zlen_nonneg d). replace (Z.to_nat (0 - zlen d)) with O by lia. cbn [replicate]. by rewrite app_nil_r, Z.add_0_l. }
  unfold fwrite. cbn [fdata fpos]. rewrite !Ew. by rewrite (zdrop_app_exact (zlen bs)).
Qed.

Lemma pool_reclosed st0 log f st : sys_inv SIMULATION_NO (mk_sys st0 None false log) -> close_container_store SIMULATION_NO st0 = Ok f ->
  init_container_store (Some (fdata f)) = Ok st -> exists pool, close_container_store SIMULATION_NO st = Ok pool /\ fdata pool = fdata f.
Proof using HC HCO.
  intros Hinv Ef Ei. destruct (append_thread_spec SIMULATION_NO _ st0 log Hinv eq_refl) as (st1 & Ha & _ & _ & Hc).
  destruct (container_reopens SIMULATION_NO st0 log Hinv) as (f' & st2 & Ef' & Ei' & Ec & _). rewrite Ef in Ef'. injection Ef' as <-.
  rewrite Ei in Ei'. injection Ei' as <-.
  assert (Hb : Container.container_buffer st = [] /\ fdata (cs_fp st) = fdata f).
  { unfold init_container_store, fread_into, fread in Ei. cbn [fdata fpos] in Ei. destruct (8 <=? _); [|done]. apply bind_Ok in Ei as ([buf g] & E1 & Ei).
    apply bind_Ok in E1 as (m & _ & E1). injection E1 as <- <-. by injection Ei as <-. }
  destruct Hb as [Hb Hd]. unfold close_container_store in *. rewrite Ha in Ef. unfold fseek in *. cbn [Z.ltb Z.compare] in *. rewrite !bind_ret in Ef. injection Ef as <-.
  assert (Ha' : append_thread SIMULATION_NO (length (Container.container_buffer st)) st = Ok st) by (rewrite Hb; cbn; unfold append_write; by rewrite Hb).
  rewrite Ha'. step. step. eexists. split; [reflexivity|]. rewrite Hd, Ec, <- Hc. apply rewrite_start.
Qed.
(** The files that the last job has closed. *)
Lemma job_closed h d path todo d' : history cfg fcfg SIMULATION_NO wait_threshold restore_cache_size content h d -> zlen h < 2 ^ 15 -> dump_small d ->
  job_ok SIMULATION_NO content (path, todo) -> do_backup cfg fcfg SIMULATION_NO wait_threshold restore_cache_size path todo d d' ->
  dk_counter d' = Some (close_recipe_store (zlen h + 1)) /\
  exists st0 log f, sys_inv SIMULATION_NO (mk_sys st0 None false log) /\ close_container_store SIMULATION_NO st0 = Ok f /\ dk_pool d' = Some (fdata f).
Proof using All.
  intros Hh Hlt Hdump Hj [ix w count b s d1 Est Hr Ht Hfl Hw Efin Eend].
  destruct (history_ok cfg fcfg SIMULATION_NO wait_threshold restore_cache_size CO Hvl content h d Hh) as (versions & log & Hd).
  destruct (job_start cfg fcfg SIMULATION_NO CO content h d versions log path todo Hd Hdump Hj Hlt) as (ix0 & w0 & Est0 & Hst). rewrite Est in Est0. injection Est0 as -> -> ->.
  destruct (backup_ends cfg fcfg SIMULATION_NO wait_threshold (dk_versions d) CO content _ _ _ _ _ _ _ TEMPORARY_ID restore_cache_size b Hst Hr Ht Hfl Hw)
    as (f & st & segs & log' & Hdone).
  pose proof (bd_finish _ _ _ _ _ _ _ _ _ _ _ _ _ _ Hdone) as Ef. rewrite Efin in Ef. injection Ef as <-.
  destruct Hdone as [_ Ea [(Hs' & _ & _) _ _ _ _ _] _ Hbuf _ _]. cbn [w_cs] in Hs'. unfold finish_backup in Eend. rewrite (close_appended SIMULATION_NO _ _ Ea Hbuf) in Eend.
  destruct (container_reopens SIMULATION_NO st log' Hs') as (fp & _ & Ec & _). rewrite Ec in Eend. apply bind_Ok in Eend as (fp' & E1 & Eend). injection E1 as <-.
  apply bind_Ok in Eend as ([bv a] & _ & Eend). injection Eend as <-. cbn [dk_counter dk_pool]. split; [done|]. by exists st, log', fp.
Qed.

(** Opening and closing the stores leaves what a job has written. *)
Lemma history_closed h d : history cfg fcfg SIMULATION_NO wait_threshold restore_cache_size content h d -> h <> [] ->
  Some (close_recipe_store (init_recipe_store (dk_counter d))) = dk_counter d /\
  forall st, init_container_store (dk_pool d) = Ok st -> exists pool, close_container_store SIMULATION_NO st = Ok pool /\ Some (fdata pool) = dk_pool d.
Proof using All.
  intros Hh Hne. destruct Hh as [|h d path todo d' Hh Hlt Hdump Hj Hb]; [done|].
  destruct (job_closed h d path todo d' Hh Hlt Hdump Hj Hb) as (-> & st0 & log & f & Hs0 & Ef & ->). pose proof (zlen_nonneg h). split.
  - rewrite counter_roundtrip by lia. done.
  - intros st Ei. destruct (pool_reclosed st0 log f st Hs0 Ef Ei) as (pool & E & Ep). exists pool. by rewrite Ep.
Qed.

Lemma history_count h d : history cfg fcfg SIMULATION_NO wait_threshold restore_cache_size content h d -> init_recipe_store (dk_counter d) = zlen h.
Proof using All. intros Hh. destruct (history_ok cfg fcfg SIMULATION_NO wait_threshold restore_cache_size CO Hvl content h d Hh) as (? & ? & Hd). apply Hd. Qed.
End Closed.

(** ** Requests *)

(** A process that computes. *)
Lemma runs_lift {R D A B} `{Redis R} (x : res A) v (g : A -> io D B) (r : R) Q : x = Ok v -> runs (g v) r Q -> runs (lift x ≫= g) r Q.
Proof. by intros ->. Qed.

Section Serve.
Context {R : Type} `{RO : RedisOk R}.
Context `{HC : !HashIter fingerprint metaEntry} `{HF : !HashIter (list Z) ()} `{HS : !HashIter Z (gset (list Z))} `{HK : !HashIter (list Z) (list Z)}.
Context `{SF : !SeqSort fingerprint} `{SA : !SeqSort (fingerprint * fingerprint)} `{SS : !SeqSort (Z * gset (list Z))} `{SR : !SeqSort accessRecords}.
Context `{HCO : !HashIterOk fingerprint metaEntry} `{HFO : !HashIterOk (list Z) ()} `{HSO : !HashIterOk Z (gset (list Z))} `{HKO : !HashIterOk (list Z) (list Z)}.
Context `{SFO : !SeqSortOk fingerprint} `{SAO : !SeqSortOk (fingerprint * fingerprint)} `{SSO : !SeqSortOk (Z * gset (list Z))}.
Context `{SRO : !SeqSortOk accessRecords}.
Context (cfg : index_config) (fcfg : filter_config) (wait_threshold restore_cache_size : Z).
Context (CO : config_ok cfg) (Hvl : value_length cfg < 2 ^ 31) (bytes_of : fingerprint -> list Z).
Context (sha1 : list Z -> fingerprint) (Hsha1 : forall b, fp_wf (sha1 b)) (chunk_algorithm : Z) (ccfg : chunk_config) (scfg : seg_config).
Context (ccfg' : chunk_config) (f : list Z -> Z -> res Z) (Hs : start_chunk_phase chunk_algorithm ccfg = Ok (ccfg', f)).
Context (Hae : chunk_algorithm <> CHUNK_AE) (Hmin : 1 <= chunk_min_size ccfg) (Ha : 0 < chunk_avg_size ccfg < 2 ^ 31) (Hseg : seg_config_ok scfg).
Context (restore_cache_0 restore_cache_1 window : Z) (stack : Z -> fingerprint).
Context (Hkind : restore_cache_0 ∈ [RESTORE_CACHE_LRU; RESTORE_CACHE_OPT; RESTORE_CACHE_ASM]) (Hcache : restore_cache_1 <> 0) (Hwindow : 0 < window < 2 ^ 30).
Context (Hgo : rewrite_algorithm_0 fcfg = REWRITE_NO \/ wait_threshold <= 0).
Context (ip : Z).

(** *** Receiving *)

Fixpoint packet_cmds (name : list Z) (k : Z) (blocks : list (list Z)) : list (addr * list Z) :=
  match blocks with [] => [] | b :: blocks => ((ip, packet_key name k), sent_packet b) :: packet_cmds name (k + 1) blocks end.

Lemma packet_cmds_keys name blocks : forall k a, a ∈ (packet_cmds name k blocks).*1 -> exists i, k <= i < k + zlen blocks /\ a = (ip, packet_key name i).
Proof using.
  induction blocks as [|b blocks IH]; intros k a Hin; [by apply not_elem_of_nil in Hin|]. cbn [packet_cmds fmap list_fmap fst] in Hin. rewrite zlen_cons. pose proof (zlen_nonneg blocks).
  apply elem_of_cons in Hin as [->|Hin]; [exists k; split; [lia|done]|]. apply IH in Hin as (i & Hi & ->). exists i. split; [lia|done].
Qed.

Lemma packets_read name blocks : forall k (r : R), Forall sent_block blocks -> 0 <= k -> k + zlen blocks < 2 ^ 32 ->
  (forall i, 0 <= i < 2 ^ 63 -> content r !! (ip, packet_key name i) = None) ->
  runs (read_packets ip (map (packet_key name) (seqZ k (zlen blocks)))) (pushes (packet_cmds name k blocks) r) (fun cs r' => cs = map block_chunk blocks /\ r' = r).
Proof using RO.
  induction blocks as [|b blocks IH]; intros k r Hb Hk Hlt Hr; [done|]. rewrite zlen_cons in *. pose proof (zlen_nonneg blocks). apply Forall_cons in Hb as [Hb1 Hb].
  rewrite seqZ_cons by lia. replace (Z.succ k) with (k + 1) by lia. replace (Z.pred (1 + zlen blocks)) with (zlen blocks) by lia.
  cbn [map read_packets packet_cmds runs]. rewrite blpop_pushes; [|intros Hin; apply packet_cmds_keys in Hin as (i & Hi & E); injection E as E; apply packet_key_inj in E; lia|apply Hr; lia].
  eapply runs_lift; [by apply read_packet_ok|]. apply runs_bind. eapply runs_mono; [|apply (IH (k + 1) r); [done|lia|lia|done]].
  intros cs r' [-> ->]. done.
Qed.

(** There is a key for one packet only. *)
Lemma data_keys_ok name n : 0 <= n <= 1 -> mapM (data_key name) (seqZ 0 n) = Ok (map (packet_key name) (seqZ 0 n)).
Proof using.
  intros Hn. destruct (decide (n = 0)) as [->|Hne]; [done|]. replace n with 1 by lia. change (seqZ 0 1) with [0]. cbn [mapM map].
  rewrite data_key_first. by step.
Qed.

Lemma data_keys_packets name l : forall keys, Forall (fun k => 0 <= k < 2 ^ 32) l -> mapM (data_key name) l = Ok keys ->
  Forall (fun key => exists k, key = packet_key name k /\ 0 <= k < 2 ^ 63) keys.
Proof using.
  induction l as [|k l IH]; intros keys Hl E; cbn [mapM] in E; [by injection E as <-|]. apply Forall_cons in Hl as [Hk Hl].
  apply bind_Ok in E as (key & Ek & E). apply bind_Ok in E as (keys' & El & E). injection E as <-.
  destruct (data_key_some name k key Hk Ek) as [_ ->]. constructor; [exists k; split; [done|lia]|by apply IH].
Qed.

(** The number of packets for [size] bytes. *)
Definition packet_count (size : Z) : Z := size / DEFAULT_BLOCK_SIZE + (if size mod DEFAULT_BLOCK_SIZE =? 0 then 0 else 1).

Lemma packet_one size : size <= DEFAULT_BLOCK_SIZE -> packet_count size <= 1.
Proof using.
  unfold packet_count. intros Hs0. destruct (decide (size = DEFAULT_BLOCK_SIZE)) as [->|Hne]; [done|].
  assert (size / DEFAULT_BLOCK_SIZE < 1) by (apply Z.div_lt_upper_bound; [done|lia]). destruct (_ =? 0); lia.
Qed.

Lemma read_data_ok name blocks size (r : R) : Forall sent_block blocks -> zlen blocks = packet_count size -> zlen blocks <= 1 ->
  (forall i, 0 <= i < 2 ^ 63 -> content r !! (ip, packet_key name i) = None) ->
  runs (read_data ip name size) (pushes (packet_cmds name 0 blocks) r) (fun q r' => q = sent_queue name blocks /\ r' = r).
Proof using RO.
  intros Hb Hc Hlt Hr. pose proof (zlen_nonneg blocks). unfold read_data. eapply runs_lift; [apply filled_chunk_ok; by destruct name|]. cbv zeta.
  change (size / DEFAULT_BLOCK_SIZE + _) with (packet_count size). rewrite <- Hc. eapply runs_lift; [apply data_keys_ok; lia|].
  apply runs_bind. eapply runs_mono; [|apply packets_read; [done|lia|lia|done]]. intros cs r' [-> ->]. done.
Qed.

(** *** Storing a group *)

Definition request_addr : addr := (ip, lit "destor_request").
Definition finished_value : list Z := be_bytes 4 1.
Definition job_id_value (n : Z) : list Z := be_bytes 4 n.

Lemma le_htonl v : le_bytes 4 (s32 (htonl (u32 v))) = be_bytes 4 v.
Proof using.
  unfold htonl. rewrite (le_bytes_swrap 32 4) by lia. rewrite le_bytes_bswap. unfold be_bytes. exact (f_equal (@rev Z) (le_bytes_mod 4 v)).
Qed.
(** A group that a node can store, in the block of its packet. *)
Record storable (name : list Z) (blocks : list (list Z)) : Prop := {
  so_name : group_name_ok name;
  so_blocks : Forall sent_block blocks;
  so_some : blocks <> [];
  so_count : zlen blocks = packet_count (zlen (concat blocks));
  so_one : zlen (concat blocks) <= DEFAULT_BLOCK_SIZE;
  so_known : known sha1 f bytes_of (concat blocks);
}.

Lemma blocks_bytes blocks : Forall sent_block blocks -> Forall is_byte (concat blocks) /\ (zlen blocks <= zlen (concat blocks)).
Proof using.
  induction 1 as [|b blocks [Hl Hb] _ [IH1 IH2]]; [done|]. cbn [concat]. rewrite zlen_cons, zlen_app. split; [by apply Forall_app|lia].
Qed.

Lemma chunks_positive data : Forall is_byte data -> zlen (ChunkPhase.chunks_of f data) <= zlen data /\ (data <> [] -> ChunkPhase.chunks_of f data <> []).
Proof using Hs Hae Hmin Ha.
  intros Hd. destruct (start_chunk_phase_chunker _ _ _ _ Hs Hae Hmin Ha) as [HCk Hmax]. destruct (chunks_of_spec f (chunk_max_size ccfg') data Hd) as [Hc Hall]. split.
  - rewrite <- Hc at 2. clear Hc. induction Hall as [|b l Hb _ IH]; [done|]. cbn [concat]. rewrite zlen_cons, zlen_app. lia.
  - intros Hne E. rewrite E in Hc. by rewrite <- Hc in Hne.
Qed.

Lemma slash_key name pre suf : slash ∈ name -> slash ∉ pre -> name ++ suf <> pre.
Proof using. intros Hin Hn <-. apply Hn, elem_of_app. by left. Qed.

Lemma name_text name : group_name_ok name -> text_ok name.
Proof using. intros (Hn & _ & Hl). split; [eapply Forall_impl; [exact Hn|]; by intros ? []|lia]. Qed.

#[local] Abbreviation server := (destor_server_process cfg fcfg SIMULATION_NO wait_threshold restore_cache_size sha1 chunk_algorithm ccfg scfg
  restore_cache_0 restore_cache_1 window stack ip).
#[local] Abbreviation past := (history cfg fcfg SIMULATION_NO wait_threshold restore_cache_size bytes_of).

Lemma request_not_packet name blocks : slash ∈ name -> request_addr ∉ (packet_cmds name 0 blocks).*1.
Proof using.
  intros Hsl Hin. apply packet_cmds_keys in Hin as (i & _ & E). injection E as E. symmetry in E. revert E. apply slash_key; [done|]. decide_it.
Qed.

Lemma node_stores h d name blocks (r : R) : past h d -> zlen h < 2 ^ 15 -> dump_small d -> storable name blocks ->
  (forall todo, dedup_input sha1 chunk_algorithm ccfg scfg (sent_queue name blocks) = Ok todo -> job_fits d todo) ->
  content r !! request_addr = None -> (forall i, 0 <= i < 2 ^ 63 -> content r !! (ip, packet_key name i) = None) ->
  runs (server d) (pushes (packet_cmds name 0 blocks) (rpush request_addr (request_bytes 0 name (zlen (concat blocks))) r))
    (fun d' r' => r' = set_key (ip, job_id_key name) (job_id_value (zlen h)) (rpush (ip, finished_key name) finished_value r) /\
       exists todo, Backup.chunks_of todo = backup_file sha1 f name (concat blocks) /\ past (h ++ [(name, todo)]) d').
Proof using All.
  intros Hh Hlt Hdump [Hname Hb Hne Hcount Hone Hkn] Hfit Hreq Hpk. assert (Hsmall : zlen (concat blocks) <= 2 ^ 31 - 1024) by (unfold DEFAULT_BLOCK_SIZE in Hone; lia).
  assert (Hpkt : zlen blocks <= 1) by (rewrite Hcount; by apply packet_one). destruct (blocks_bytes blocks Hb) as [Hby Hbl].
  pose proof (chunks_positive (concat blocks) Hby) as [Hcl Hcn]. pose proof (zlen_nonneg (concat blocks)) as H0. pose proof (zlen_nonneg h).
  assert (Hsl : slash ∈ name) by apply Hname. unfold destor_server_process. cbn [runs].
  rewrite pushes_rpush by by apply request_not_packet. rewrite blpop_rpush by (rewrite content_pushes by (by apply request_not_packet); exact Hreq).
  eapply runs_lift; [apply (resolve_request 0); [by apply name_text|unfold in_u; lia|by left]|]. cbn [Z.eqb dc_type dc_group_name dc_size].
  unfold destor_write. apply runs_bind. eapply runs_mono; [|apply (read_data_ok name blocks _ r Hb Hcount Hpkt Hpk)]. intros q r' [-> ->].
  destruct (dedup_input_ok sha1 Hsha1 chunk_algorithm ccfg scfg ccfg' f Hs Hae Hmin Ha Hseg name blocks Hb) as (todo & Etodo & Hc & Hseg').
  eapply runs_lift; [exact Etodo|]. cbn [runs].
  destruct (group_job_ok sha1 Hsha1 chunk_algorithm ccfg ccfg' f Hs Hae Hmin Ha bytes_of name (concat blocks) todo) as [Hj _]; [done|done|done|lia|done|done|].
  split; [by apply (job_runs cfg fcfg SIMULATION_NO wait_threshold restore_cache_size CO Hvl bytes_of h); [..|apply Hfit|]|]. intros d' Hd'.
  assert (Hpos : 0 < zlen (normals (Backup.chunks_of todo)) < 2 ^ 31).
  { rewrite Hc, backup_file_normals. unfold zlen in *. rewrite length_map. split; [|lia].
    destruct (ChunkPhase.chunks_of f (concat blocks)); [|cbn; lia]. exfalso. apply Hcn; [|done]. intros E. rewrite E in Hbl. destruct blocks; [done|]. cbn in Hbl. lia. }
  assert (Hh' : past (h ++ [(name, todo)]) d') by by econstructor.
  eapply runs_lift; [rewrite s32_id by lia; destruct (Z.eqb_spec (zlen (normals (Backup.chunks_of todo))) 0); [lia|done]|]. cbn [runs].
  eapply runs_lift.
  { unfold job_id_key. rewrite zlen_app, zlen_cons. change (zlen (lit "job_id")) with 6. destruct Hname as (_ & _ & Hl). unfold MAX_JOB_ID_KEY_LEN. destruct (Z.ltb_spec 80 (zlen name + (1 + 6) + 1)); [lia|done]. }
  cbn [runs]. rewrite (history_count cfg fcfg wait_threshold restore_cache_size CO Hvl bytes_of h d Hh), le_htonl. split; [|by exists todo].
  by do 2 f_equal.
Qed.

(** *** Sending a group back *)

Definition reply_cmds (client_ip : Z) (name : list Z) (blocks : list (list Z)) : list (addr * list Z) :=
  map (fun p => ((client_ip, p.1), p.2)) (packets name 0 (blocks ++ [[]])).

Lemma runs_send_all client_ip cmds (k : io disk disk) Q : forall r : R,
  runs k (pushes (map (fun p => ((client_ip, p.1), p.2)) cmds) r) Q -> runs (send_all client_ip cmds k) r Q.
Proof using. induction cmds as [|[key v] cmds IH]; intros r Hr; [exact Hr|]. cbn [send_all runs]. apply IH. exact Hr. Qed.

Lemma hashed_blocks bs blocks : Forall2 (fun c b => chunk_bytes c (ck_size c) = Ok b) (map (hashed_chunk sha1) bs) blocks -> blocks = bs.
Proof using.
  revert blocks. induction bs as [|b bs IH]; intros blocks Hb; [by apply Forall2_nil_inv_l in Hb|]. cbn [map] in Hb.
  apply Forall2_cons_inv_l in Hb as (b' & l & E & Hl & ->). unfold chunk_bytes in E. cbn [ck_data hashed_chunk ck_size] in E. rewrite read_all in E by done. injection E as <-.
  f_equal. by apply IH.
Qed.

Lemma node_restores h d n name data todo client_ip (r : R) : past h d -> h !! n = Some (name, todo) -> Backup.chunks_of todo = backup_file sha1 f name data ->
  group_name_ok name -> in_u 32 client_ip -> content r !! request_addr = None -> content r !! (ip, job_id_key name) = Some (RStr (job_id_value (Z.of_nat n))) ->
  runs (server d) (rpush request_addr (request_bytes 1 name client_ip) r)
    (fun d' r' => d' = d /\ r' = pushes (reply_cmds client_ip name (ChunkPhase.chunks_of f data)) r).
Proof using All.
  intros Hh Hn Hc Hname Hip Hreq Hid. unfold destor_server_process. cbn [runs]. rewrite blpop_rpush by exact Hreq.
  eapply runs_lift; [apply (resolve_request 1); [by apply name_text|done|by right]|]. cbn [Z.eqb Pos.eqb dc_type dc_client_ip dc_to_read_filename].
  assert (Hlen : zlen h < 2 ^ 31).
  { destruct Hh as [|h0 d0 path todo0 d1 _ Hlt _ _ _]; [done|]. rewrite zlen_app. change (zlen [_]) with 1. lia. }
  assert (Hnr : 0 <= Z.of_nat n < 2 ^ 31) by (apply lookup_lt_Some in Hn; unfold zlen, job in *; lia).
  unfold destor_read. eapply runs_lift.
  { unfold job_id_key. rewrite zlen_app, zlen_cons. change (zlen (lit "job_id")) with 6. destruct Hname as (_ & _ & Hl). unfold MAX_JOB_ID_KEY_LEN. destruct (Z.ltb_spec 80 (zlen name + (1 + 6) + 1)); [lia|done]. }
  cbn [runs]. assert (Eg : get_key (ip, job_id_key name) r = GetStr (job_id_value (Z.of_nat n))) by (rewrite get_key_reply; unfold addr in *; by rewrite Hid).
  rewrite Eg. unfold job_id_value.
  assert (E := ntohl_be (Z.of_nat n) [0] ltac:(unfold in_u; lia)). apply bind_Ok in E as (bs & Eb & E). injection E as E.
  eapply runs_lift; [exact Eb|]. cbv zeta. rewrite E, s32_id by lia.
  destruct (version_restores cfg fcfg wait_threshold restore_cache_size CO Hvl bytes_of h d n (name, todo) restore_cache_0 restore_cache_1 window stack name Hh Hn (one_file sha1 f name data todo Hc)
    Hkind Hcache Hwindow ltac:(apply Hname)) as (st & blocks & Est & Hb & Hr).
  cbn [snd] in Hb. rewrite Hc, backup_file_normals in Hb. apply hashed_blocks in Hb as ->.
  destruct (Hr (restore_fuel (dk_versions d) (Z.of_nat n)) ltac:(done)) as (stat & Er). clear Hr.
  eapply runs_lift; [exact Est|]. eapply runs_lift; [exact Er|]. apply runs_send_all.
  destruct (history_closed cfg fcfg wait_threshold restore_cache_size CO Hvl bytes_of h d Hh) as [Ecnt Epool]; [by destruct h|].
  destruct (Epool st Est) as (pool & Ep & Ep'). eapply runs_lift; [exact Ep|]. cbn [runs]. rewrite Ecnt, Ep'. split; [by destruct d|done].
Qed.
End Serve.
