(* ===== verification/FileRecipe.v ===== *)
(** Which groups a file has, and where they are: [FileRecipe.cc] and
    [redis_cluster.cc] of [client/src/common].

    A recipe is kept in a map of the agent, or in the Redis cluster that all
    clients share. The cluster is not part of the repository: [RedisCluster] is
    its interface and [RedisClusterOk] its documented behaviour. Both ways are
    instances of [RecipeStore], which is what the worker relies on. *)

From S2P Require Import Prelude CText Destor Recipe Double Routing ClientPhase Group.

Record groupMeta := mk_group_meta { gm_groupName : list Z; gm_nodeId : Z }.
Record fileRecipe := mk_file_recipe { fr_filename : list Z; fr_num : Z; fr_gm : list groupMeta }.

Definition genFileRecipe (filename : list Z) (gps : list group) : fileRecipe :=
  mk_file_recipe filename (s32 (zlen gps)) (map (fun gp => mk_group_meta (g_groupName gp) (g_nodeId gp)) gps).

(** ** The map of the agent *)

(** The pointers of the map: [None] is one to a recipe that was freed. *)
Abbreviation recipe_map := (gmap (list Z) (option fileRecipe)).

Definition setFileRecipe (fr : fileRecipe) (name2FileRecipe : recipe_map) : Z * recipe_map := (0, <[fr_filename fr := Some fr]> name2FileRecipe).
Definition getFileRecipe (filename : list Z) (name2FileRecipe : recipe_map) : option (option fileRecipe) := name2FileRecipe !! filename.

(** ** The Redis cluster *)

Inductive cluster_value := CStr (s : list Z) | CHash (h : gmap (list Z) (list Z)).

(** [None] where redis-plus-plus throws, for a key of the other type. *)
Class RedisCluster (C : Type) := {
  cl_content : C -> gmap (list Z) cluster_value;
  cl_set : list Z -> list Z -> C -> bool * C;
  cl_get : list Z -> C -> option (option (list Z));
  cl_hmset : list Z -> list (list Z * list Z) -> C -> option C;
  cl_hmget : list Z -> list (list Z) -> C -> option (list (option (list Z)));
}.

Definition hash_of (o : option cluster_value) : option (gmap (list Z) (list Z)) :=
  match o with None => Some ∅ | Some (CHash h) => Some h | Some (CStr _) => None end.

Class RedisClusterOk (C : Type) `{RedisCluster C} := {
  cl_set_ok k v c : exists c', cl_set k v c = (true, c') /\ cl_content c' = <[k := CStr v]> (cl_content c);
  cl_get_ok k c : cl_get k c = match cl_content c !! k with None => Some None | Some (CStr s) => Some (Some s) | Some (CHash _) => None end;
  cl_hmset_ok k l c : match hash_of (cl_content c !! k) with
    | Some h => exists c', cl_hmset k l c = Some c' /\ cl_content c' = <[k := CHash (list_to_map l ∪ h)]> (cl_content c)
    | None => cl_hmset k l c = None
    end;
  cl_hmget_ok k fs c : cl_hmget k fs c = match hash_of (cl_content c !! k) with Some h => Some (map (fun f => h !! f) fs) | None => None end;
}.

(** A cluster that does exactly this. *)
Definition std_hmset (k : list Z) (l : list (list Z * list Z)) (c : gmap (list Z) cluster_value) : option (gmap (list Z) cluster_value) :=
  match hash_of (c !! k) with Some h => Some (<[k := CHash (list_to_map l ∪ h)]> c) | None => None end.
Definition std_cluster : RedisCluster (gmap (list Z) cluster_value) := {|
  cl_content c := c; cl_set k v c := (true, <[k := CStr v]> c);
  cl_get k c := match c !! k with None => Some None | Some (CStr s) => Some (Some s) | Some (CHash _) => None end;
  cl_hmset := std_hmset;
  cl_hmget k fs c := match hash_of (c !! k) with Some h => Some (map (fun f => h !! f) fs) | None => None end |}.
Lemma std_cluster_ok : @RedisClusterOk _ std_cluster.
Proof. split; cbn; try done; [by eexists|]. intros k l c. unfold std_hmset. destruct (hash_of (c !! k)); [by eexists|done]. Qed.

(** [std::stoi]: a number of an [int] at the start of the text; else it throws,
    and as nothing catches it the program ends as at a failed assertion. *)
Definition stoi (s : list Z) : res Z :=
  let '(sg, s) := signed_digits (skip_space s) in
  match s with
  | c :: _ => if is_digit c then let v := sg * scan_digits 0 s in if bool_decide (in_s 32 v) then Ok v else Err EAssert else Err EAssert
  | [] => Err EAssert
  end.

Section Cluster.
Context {C : Type} `{RC : RedisCluster C}.

Definition hash_key (filename : list Z) (i : Z) : list Z := filename ++ 95 :: print_int i.

(** The loop that stores the groups, from [i] on. *)
Fixpoint set_groups (filename : list Z) (i : Z) (gm : list groupMeta) (c : C) : Z * C :=
  match gm with
  | [] => (0, c)
  | g :: gm =>
      match cl_hmset (hash_key filename i) [(lit "group_name", gm_groupName g); (lit "node_id", print_int (gm_nodeId g))] c with
      | Some c => set_groups filename (i + 1) gm c
      | None => (-1, c)
      end
  end.

Definition setFileRecipeToRedis (fr : fileRecipe) (c : C) : Z * C :=
  let '(ok, c) := cl_set (fr_filename fr) (print_int (fr_num fr)) c in
  if negb ok then (-1, c) else set_groups (fr_filename fr) 0 (take (Z.to_nat (fr_num fr)) (fr_gm fr)) c.

(** The loop that reads [n] groups; [None] is the null pointer that is returned
    when a key is not a hash. A field that is not there is dereferenced. *)
Fixpoint get_groups (filename : list Z) (i : Z) (n : nat) (c : C) : res (option (list groupMeta)) :=
  match n with
  | O => Ok (Some [])
  | S n =>
      match cl_hmget (hash_key filename i) [lit "group_name"; lit "node_id"] c with
      | Some [Some group_name; Some node_id] =>
          node_id ← stoi node_id;
          gm ← get_groups filename (i + 1) n c;
          Ok (match gm with Some gm => Some (mk_group_meta (cstr group_name) (u64 node_id) :: gm) | None => None end)
      | Some _ => Err ENull
      | None => Ok None
      end
  end.

Definition getFileRecipeFromRedis (filename : list Z) (c : C) : res (option fileRecipe) :=
  match cl_get filename c with
  | Some (Some val) =>
      group_num ← stoi val;
      gm ← get_groups filename 0 (Z.to_nat group_num) c;
      Ok (match gm with Some gm => Some (mk_file_recipe (cstr filename) group_num gm) | None => None end)
  | Some None | None => Ok None
  end.
End Cluster.

(** ** What the worker relies on *)

(** [put_recipe]: the recipe is stored, or [assert(ret == 0)] fails. [get_recipe]:
    the recipe that is used, or the null pointer. [free_recipe]: what the release
    of that recipe leaves. *)
Class RecipeStore (T : Type) := {
  put_recipe : fileRecipe -> T -> res T;
  get_recipe : list Z -> T -> res (option fileRecipe);
  free_recipe : list Z -> T -> T;
}.

(** A recipe as the worker makes it: of text and small numbers. *)
Record recipe_ok (fr : fileRecipe) : Prop := {
  cr_num : fr_num fr = zlen (fr_gm fr) /\ zlen (fr_gm fr) < 2 ^ 31;
  cr_name : Forall (fun ch => ch <> 0) (fr_filename fr);
  cr_groups : Forall (fun g => Forall (fun ch => ch <> 0) (gm_groupName g) /\ 0 <= gm_nodeId g < 2 ^ 31) (fr_gm fr);
}.

(** [ready t name]: a recipe of that name can be stored. [recipe_apart]: two names
    do not get in each other's way. [recipe_lasting]: a recipe can be had again
    after it was freed. *)
Class RecipeStoreOk (T : Type) `{RecipeStore T} := {
  recipe_apart : list Z -> list Z -> Prop;
  recipe_lasting : bool;
  ready : T -> list Z -> Prop;
  put_recipe_ok t fr : ready t (fr_filename fr) -> recipe_ok fr -> exists t', put_recipe fr t = Ok t' /\ get_recipe (fr_filename fr) t' = Ok (Some fr) /\
    (forall name, recipe_apart (fr_filename fr) name -> get_recipe name t' = get_recipe name t) /\
    (forall name, name = fr_filename fr \/ recipe_apart (fr_filename fr) name -> ready t name -> ready t' name);
  free_recipe_ok t name n : n <> name \/ recipe_lasting = true -> get_recipe n (free_recipe name t) = get_recipe n t;
  free_recipe_gone t name : get_recipe name (free_recipe name t) = get_recipe name t \/ exists e, get_recipe name (free_recipe name t) = Err e;
  free_recipe_ready t name n : ready t n -> ready (free_recipe name t) n;
}.

(** ** The map is a recipe store *)

#[export] Instance map_recipes : RecipeStore recipe_map := {|
  put_recipe fr t := let '(ret, t) := setFileRecipe fr t in _ ← c_assert (ret =? 0); Ok t;
  get_recipe name t := match getFileRecipe name t with None => Ok None | Some None => Err EBounds | Some (Some fr) => Ok (Some fr) end;
  free_recipe name t := <[name := None]> t |}.

#[export] Program Instance map_recipes_ok : RecipeStoreOk recipe_map := {|
  recipe_apart a b := a <> b;
  recipe_lasting := false;
  ready _ _ := True |}.
Next Obligation.
  intros t fr _ _. eexists. split; [reflexivity|]. cbn. unfold getFileRecipe. rewrite lookup_insert_eq. split; [done|]. split; [|done]. intros name Hne. by rewrite lookup_insert_ne.
Qed.
Next Obligation.
  intros t name n [Hne|]; [|done]. cbn. unfold getFileRecipe. by rewrite lookup_insert_ne.
Qed.
Next Obligation. intros t name. right. cbn. unfold getFileRecipe. rewrite lookup_insert_eq. by eexists. Qed.
Next Obligation. done. Qed.

(** ** The cluster is a recipe store *)

Lemma stoi_uint n : 0 <= n < 2 ^ 64 -> stoi (print_int n) = if bool_decide (n < 2 ^ 31) then Ok n else Err EAssert.
Proof.
  intros Hn. destruct (print_uint n Hn) as (c & s & -> & Hd & _ & Hsc). apply Forall_cons in Hd as [Hc Hd]. destruct (digit_cases c Hc) as (Hsp & _).
  unfold stoi. cbn [skip_space]. rewrite Hsp, signed_digits_digit, Hc by done. specialize (Hsc []). rewrite app_nil_r in Hsc. rewrite Hsc. cbn [scan_digits].
  rewrite Z.mul_1_l. assert (E : in_s 32 n <-> n < 2 ^ 31) by (unfold in_s; change (2 ^ (32 - 1)) with (2 ^ 31); lia). by rewrite (bool_decide_ext _ _ E).
Qed.

Lemma stoi_print n : 0 <= n < 2 ^ 31 -> stoi (print_int n) = Ok n.
Proof. intros Hn. rewrite stoi_uint, bool_decide_eq_true_2 by lia. done. Qed.

Section ClusterOk.
Context {C : Type} `{RCO : RedisClusterOk C}.

#[export] Instance cluster_recipes : RecipeStore C := {|
  put_recipe fr c := let '(ret, c) := setFileRecipeToRedis fr c in _ ← c_assert (ret =? 0); Ok c;
  get_recipe name c := getFileRecipeFromRedis name c;
  free_recipe _ c := c |}.

Definition cluster_apart (a b : list Z) : Prop := a <> b /\ forall i, 0 <= i < 2 ^ 31 -> a <> hash_key b i /\ b <> hash_key a i.

Definition group_stored (c : C) (name : list Z) (i : Z) (g : groupMeta) : Prop :=
  exists h, cl_content c !! hash_key name i = Some (CHash h) /\ h !! lit "group_name" = Some (gm_groupName g) /\ h !! lit "node_id" = Some (print_int (gm_nodeId g)).

Record cluster_holds (c : C) (fr : fileRecipe) : Prop := {
  ch_ok : recipe_ok fr;
  ch_num : cl_content c !! fr_filename fr = Some (CStr (print_int (fr_num fr)));
  ch_groups : forall i g, fr_gm fr !! i = Some g -> group_stored c (fr_filename fr) (Z.of_nat i) g;
}.

Definition cluster_ready (c : C) (name : list Z) : Prop := forall i, 0 <= i < 2 ^ 31 -> is_Some (hash_of (cl_content c !! hash_key name i)).

Lemma hash_key_inj name name' i j : 0 <= i < 2 ^ 31 -> 0 <= j < 2 ^ 31 -> hash_key name i = hash_key name' j -> name = name' /\ i = j.
Proof using.
  intros Hi Hj E. assert (Hr : forall (s s' u u' : list Z), Forall (fun ch => ch <> 95) u -> Forall (fun ch => ch <> 95) u' -> s ++ 95 :: u = s' ++ 95 :: u' -> s = s' /\ u = u').
  { clear. intros s s' u u' Hu Hu' E. assert (E' : rev u ++ 95 :: rev s = rev u' ++ 95 :: rev s') by (apply (f_equal (@rev Z)) in E; rewrite !rev_app_distr in E; cbn in E; by rewrite <- !app_assoc in E).
    assert (Hx : rev u = rev u' /\ rev s = rev s').
    { apply Forall_rev in Hu, Hu'. clear E. revert Hu' E'. generalize (rev u'). induction Hu as [|x l Hx _ IH]; intros l' Hl' E.
      - destruct Hl' as [|y l' Hy]; [by injection E|]. injection E as E _. by destruct Hy.
      - destruct Hl' as [|y l' Hy Hl']; [injection E as E _; by destruct Hx|]. injection E as -> E. destruct (IH l' Hl' E) as [-> ->]. done. }
    destruct Hx as [E1 E2]. by rewrite <- (rev_involutive u), <- (rev_involutive s), E1, E2, !rev_involutive. }
  assert (Hd : forall n, 0 <= n < 2 ^ 31 -> Forall (fun ch => ch <> 95) (print_int n)).
  { intros n Hn. destruct (print_int_nonneg n ltac:(lia)) as (c & s & -> & Hd & _). eapply Forall_impl; [exact Hd|]. intros x Hx ->. done. }
  destruct (Hr name name' (print_int i) (print_int j) (Hd i Hi) (Hd j Hj) E) as [-> Ep]. split; [done|].
  apply (f_equal stoi) in Ep. rewrite !stoi_print in Ep by done. by injection Ep.
Qed.

Lemma hash_key_longer name i : name <> hash_key name i.
Proof using. intros E. apply (f_equal length) in E. unfold hash_key in E. rewrite length_app in E. cbn in E. lia. Qed.

(** The loop over the groups. *)
Lemma set_groups_ok filename gm : forall i c, 0 <= i -> i + zlen gm < 2 ^ 31 -> cluster_ready c filename ->
  exists c', set_groups filename i gm c = (0, c') /\ (forall k, (forall j, i <= j < i + zlen gm -> k <> hash_key filename j) -> cl_content c' !! k = cl_content c !! k) /\
    (forall n g, gm !! n = Some g -> group_stored c' filename (i + Z.of_nat n) g) /\ cluster_ready c' filename.
Proof using RCO.
  induction gm as [|g gm IH]; intros i c Hi Hlt Hr; [by exists c|]. rewrite zlen_cons in *. pose proof (zlen_nonneg gm). cbn [set_groups].
  pose proof (cl_hmset_ok (hash_key filename i) [(lit "group_name", gm_groupName g); (lit "node_id", print_int (gm_nodeId g))] c) as Hs.
  destruct (Hr i ltac:(lia)) as [h Eh]. rewrite Eh in Hs. destruct Hs as (c1 & -> & E1).
  assert (Hr1 : cluster_ready c1 filename).
  { intros j Hj. rewrite E1. destruct (decide (hash_key filename i = hash_key filename j)) as [->|Hne]; [rewrite lookup_insert_eq; by eexists|]. rewrite lookup_insert_ne by done. by apply Hr. }
  destruct (IH (i + 1) c1) as (c' & E & Hk & Hg & Hr'); [lia|lia|done|]. exists c'. split; [exact E|]. split; [|split; [|done]].
  - intros k Hne. rewrite Hk by (intros j Hj; apply Hne; lia). rewrite E1, lookup_insert_ne; [done|]. apply not_eq_sym, Hne. lia.
  - intros [|n] g' Hn; cbn in Hn.
    + injection Hn as <-. exists (list_to_map [(lit "group_name", gm_groupName g); (lit "node_id", print_int (gm_nodeId g))] ∪ h). rewrite Z.add_0_r. split; [|split].
      * rewrite Hk, E1; [apply lookup_insert_eq|]. intros j Hj E2. apply hash_key_inj in E2; lia.
      * apply lookup_union_Some_l. cbn. apply lookup_insert_eq.
      * apply lookup_union_Some_l. cbn. rewrite lookup_insert_ne by done. apply lookup_insert_eq.
    + replace (i + Z.of_nat (S n)) with (i + 1 + Z.of_nat n) by lia. by apply Hg.
Qed.

Lemma group_stored_same c c' name i g : cl_content c' !! hash_key name i = cl_content c !! hash_key name i -> group_stored c name i g -> group_stored c' name i g.
Proof using. intros E (h & H1 & H2 & H3). exists h. by rewrite E. Qed.

Lemma get_groups_ok filename gm c : Forall (fun g => Forall (fun ch => ch <> 0) (gm_groupName g) /\ 0 <= gm_nodeId g < 2 ^ 31) gm -> forall i,
  (forall n g, gm !! n = Some g -> group_stored c filename (i + Z.of_nat n) g) -> get_groups filename i (length gm) c = Ok (Some gm).
Proof using RCO.
  induction 1 as [|g gm [Hn Hid] _ IH]; intros i Hg; [done|]. cbn [length get_groups].
  destruct (Hg 0%nat g eq_refl) as (h & E & E1 & E2). rewrite Z.add_0_r in E. rewrite cl_hmget_ok, E. cbn [hash_of map]. rewrite E1, E2, stoi_print by done. step.
  rewrite IH.
  - step. do 2 f_equal. destruct g as [name id]. cbn in *. rewrite (uwrap_id 64) by (unfold in_u; lia). do 2 f_equal.
    clear - Hn. induction Hn as [|ch s Hc _ IH]; [done|]. cbn [cstr]. destruct (Z.eqb_spec ch 0); [done|]. by rewrite IH.
  - intros n g' Hn'. specialize (Hg (S n) g' Hn'). by replace (i + 1 + Z.of_nat n) with (i + Z.of_nat (S n)) by lia.
Qed.

(** Storing a recipe: its keys are written, no other. *)
Lemma setFileRecipeToRedis_ok c fr : cluster_ready c (fr_filename fr) -> fr_num fr = zlen (fr_gm fr) -> zlen (fr_gm fr) < 2 ^ 31 ->
  exists c', setFileRecipeToRedis fr c = (0, c') /\ cl_content c' !! fr_filename fr = Some (CStr (print_int (fr_num fr))) /\
    (forall i g, fr_gm fr !! i = Some g -> group_stored c' (fr_filename fr) (Z.of_nat i) g) /\ cluster_ready c' (fr_filename fr) /\
    forall k, k <> fr_filename fr -> (forall j, 0 <= j < 2 ^ 31 -> k <> hash_key (fr_filename fr) j) -> cl_content c' !! k = cl_content c !! k.
Proof using RCO.
  intros Hr Hn Hlt. pose proof (zlen_nonneg (fr_gm fr)). unfold setFileRecipeToRedis.
  destruct (cl_set_ok (fr_filename fr) (print_int (fr_num fr)) c) as (c1 & -> & E1). cbn [negb].
  assert (Hr1 : cluster_ready c1 (fr_filename fr)) by (intros j Hj; rewrite E1, lookup_insert_ne by apply hash_key_longer; by apply Hr).
  rewrite take_ge by (unfold zlen in Hn; lia).
  destruct (set_groups_ok (fr_filename fr) (fr_gm fr) 0 c1 ltac:(lia) ltac:(lia) Hr1) as (c' & E & Hk & Hg & Hr'). exists c'. split; [exact E|].
  split; [|split; [exact Hg|split; [done|]]].
  - rewrite Hk, E1; [apply lookup_insert_eq|]. intros j _. apply hash_key_longer.
  - intros k Hne Hj. rewrite Hk by (intros j ?; apply Hj; lia). by rewrite E1, lookup_insert_ne.
Qed.

Lemma getFileRecipeFromRedis_ok c fr : cluster_holds c fr -> getFileRecipeFromRedis (fr_filename fr) c = Ok (Some fr).
Proof using RCO.
  intros [[[Hn Hlt] Hname Hgs] Hnum Hg]. pose proof (zlen_nonneg (fr_gm fr)). unfold getFileRecipeFromRedis. rewrite cl_get_ok, Hnum, Hn, stoi_print by lia. step.
  replace (Z.to_nat (zlen (fr_gm fr))) with (length (fr_gm fr)) by (unfold zlen; lia). rewrite (get_groups_ok _ _ c Hgs 0 Hg). step. do 2 f_equal.
  destruct fr as [name num gm]. cbn in *. rewrite Hn. f_equal. clear - Hname. induction Hname as [|ch s Hc _ IH]; [done|]. cbn [cstr]. destruct (Z.eqb_spec ch 0); [done|]. by rewrite IH.
Qed.

(** A recipe depends on its keys only. *)
Lemma get_same name c c' : cl_content c' !! name = cl_content c !! name -> (forall i, 0 <= i < 2 ^ 31 -> cl_content c' !! hash_key name i = cl_content c !! hash_key name i) ->
  getFileRecipeFromRedis name c' = getFileRecipeFromRedis name c.
Proof using RCO.
  intros E Hi. unfold getFileRecipeFromRedis. rewrite !cl_get_ok, E. destruct (cl_content c !! name) as [[s|]|]; [|done..]. destruct (stoi s) as [num|] eqn:Es; [|done].
  assert (Hnum : num < 2 ^ 31).
  { unfold stoi in Es. destruct (signed_digits (skip_space s)) as [sg [|ch l]]; [done|]. destruct (is_digit ch); [|done]. cbv zeta in Es.
    destruct (bool_decide_reflect (in_s 32 (sg * scan_digits 0 (ch :: l)))) as [Hs|]; [|done]. injection Es as <-. destruct Hs as [_ Hs]. exact Hs. }
  step. enough (Hg : forall n i, 0 <= i -> i + Z.of_nat n <= 2 ^ 31 -> get_groups name i n c' = get_groups name i n c) by by rewrite Hg by lia.
  intros n. induction n as [|n IH]; intros i H0 Hlt; [done|]. cbn [get_groups]. rewrite !cl_hmget_ok, Hi by lia. by rewrite IH by lia.
Qed.

(** What was written to the keys of a name does not matter for a name apart. *)
Lemma get_apart a b c c' : cluster_apart a b -> (forall k, k <> a -> (forall j, 0 <= j < 2 ^ 31 -> k <> hash_key a j) -> cl_content c' !! k = cl_content c !! k) ->
  getFileRecipeFromRedis b c' = getFileRecipeFromRedis b c.
Proof using RCO.
  intros [Hne Ha] Hk. apply get_same.
  - apply Hk; [by apply not_eq_sym|]. intros j Hj. by apply Ha.
  - intros i Hi. apply Hk; [apply not_eq_sym; by apply Ha|]. intros j Hj E'. destruct (hash_key_inj _ _ _ _ Hi Hj E') as [E1 _]. by destruct Hne.
Qed.

#[export] Program Instance cluster_recipes_ok : RecipeStoreOk C := {|
  recipe_apart := cluster_apart;
  recipe_lasting := true;
  ready := cluster_ready |}.
Next Obligation.
  intros c fr Hr Hok. destruct (setFileRecipeToRedis_ok c fr Hr) as (c' & E & Hnum & Hg & Hr' & Hk); [apply Hok..|]. exists c'. cbn. rewrite E. split; [done|]. split; [by apply getFileRecipeFromRedis_ok|]. split.
  - intros name Ha. by apply (get_apart (fr_filename fr)).
  - intros name [->|[Hne Ha]] Hn; [done|]. intros i Hi. rewrite Hk; [by apply Hn|apply not_eq_sym; by apply Ha|]. intros j Hj E'. apply hash_key_inj in E'; [by destruct E'|done|done].
Qed.
Next Obligation. done. Qed.
Next Obligation. intros c name. by left. Qed.
Next Obligation. done. Qed.

(** Reading stops at the first group whose node was not found. *)
Lemma get_groups_bad filename gm c g n : Forall (fun g => 0 <= gm_nodeId g < 2 ^ 64) gm -> gm !! n = Some g -> 2 ^ 31 <= gm_nodeId g -> forall i,
  (forall n g, gm !! n = Some g -> group_stored c filename (i + Z.of_nat n) g) -> get_groups filename i (length gm) c = Err EAssert.
Proof using RCO.
  intros Hid. revert n. induction Hid as [|g0 gm Hid _ IH]; intros n Hn Hbad i Hg; [done|]. cbn [length get_groups].
  destruct (Hg 0%nat g0 eq_refl) as (h & E & E1 & E2). rewrite Z.add_0_r in E. rewrite cl_hmget_ok, E. cbn [hash_of map]. rewrite E1, E2, stoi_uint by done.
  destruct (bool_decide_reflect (gm_nodeId g0 < 2 ^ 31)) as [Hlt|Hge]; [|done]. destruct n as [|n]; [injection Hn as ->; lia|]. step. rewrite (IH n Hn Hbad); [done|].
  intros m g' Hm. specialize (Hg (S m) g' Hm). by replace (i + 1 + Z.of_nat m) with (i + Z.of_nat (S m)) by lia.
Qed.

(** A file with the name of a group's key stands in the way: its number of groups
    is a string under that key, the hash of the group cannot be stored, and
    the recipe is not. *)
Lemma recipe_collides c fr s : cl_content c !! hash_key (fr_filename fr) 0 = Some (CStr s) -> fr_gm fr <> [] -> fr_num fr = zlen (fr_gm fr) ->
  fst (setFileRecipeToRedis fr c) = -1.
Proof using RCO.
  intros E Hne Hn. unfold setFileRecipeToRedis. destruct (cl_set_ok (fr_filename fr) (print_int (fr_num fr)) c) as (c1 & -> & E1). cbn [negb].
  rewrite take_ge by (unfold zlen in Hn; lia). destruct (fr_gm fr) as [|g gm]; [done|]. cbn [set_groups].
  pose proof (cl_hmset_ok (hash_key (fr_filename fr) 0) [(lit "group_name", gm_groupName g); (lit "node_id", print_int (gm_nodeId g))] c1) as Hs.
  rewrite E1, lookup_insert_ne, E in Hs by apply hash_key_longer. cbn [hash_of] in Hs. by rewrite Hs.
Qed.

(** C36: When no string is under the keys of its groups ([cluster_ready]), a recipe
    that is stored in the cluster is the recipe that is read, and the recipes of
    the files whose names are apart are not touched: files whose name is that of a
    group's key, or the other way round, are not apart, and after the recipe
    was stored, a file with the name of the key of one of its groups has none
    any more. A group whose node could not be found, whose number is that of -1, is
    stored all the same, and then nobody can read the recipe: [stoi] throws. *)
Theorem cluster_recipe_roundtrip c fr : cluster_ready c (fr_filename fr) -> Forall (fun ch => ch <> 0) (fr_filename fr) ->
  fr_num fr = zlen (fr_gm fr) -> zlen (fr_gm fr) < 2 ^ 31 -> Forall (fun g => Forall (fun ch => ch <> 0) (gm_groupName g) /\ 0 <= gm_nodeId g < 2 ^ 64) (fr_gm fr) ->
  exists c', setFileRecipeToRedis fr c = (0, c') /\
    (Forall (fun g => gm_nodeId g < 2 ^ 31) (fr_gm fr) -> getFileRecipeFromRedis (fr_filename fr) c' = Ok (Some fr)) /\
    (Exists (fun g => 2 ^ 31 <= gm_nodeId g) (fr_gm fr) -> getFileRecipeFromRedis (fr_filename fr) c' = Err EAssert) /\
    (forall name, cluster_apart (fr_filename fr) name -> getFileRecipeFromRedis name c' = getFileRecipeFromRedis name c) /\
    forall i, 0 <= i < zlen (fr_gm fr) -> getFileRecipeFromRedis (hash_key (fr_filename fr) i) c' = Ok None.
Proof using RCO.
  intros Hr Hname Hn Hlt Hgs. destruct (setFileRecipeToRedis_ok c fr Hr Hn Hlt) as (c' & E & Hnum & Hg & _ & Hk). exists c'. split; [exact E|]. split; [|split; [|split]].
  - intros Hid. apply getFileRecipeFromRedis_ok. split; [split; [done|done|]|done|done]. rewrite Forall_forall in *. intros g Hin. destruct (Hgs g Hin). split; [done|]. split; [lia|by apply Hid].
  - intros Hbad. apply Exists_exists in Hbad as (g & Hin & Hbad). apply list_elem_of_lookup in Hin as [n Hi]. pose proof (zlen_nonneg (fr_gm fr)).
    unfold getFileRecipeFromRedis. rewrite cl_get_ok, Hnum, Hn, stoi_print by lia. step. replace (Z.to_nat (zlen (fr_gm fr))) with (length (fr_gm fr)) by (unfold zlen; lia).
    rewrite (get_groups_bad _ _ c' g n); [done| |done|done|exact Hg]. eapply Forall_impl; [exact Hgs|]. by intros ? [].
  - intros name Ha. by apply (get_apart (fr_filename fr)).
  - intros i Hi. destruct (lookup_lt_is_Some_2 (fr_gm fr) (Z.to_nat i)) as [g Hgi]; [unfold zlen in Hi; lia|].
    destruct (Hg _ g Hgi) as (h & Eh & _). rewrite Z2Nat.id in Eh by lia. unfold getFileRecipeFromRedis. by rewrite cl_get_ok, Eh.
Qed.
End ClusterOk.

(** ** Witnesses *)

Section Demo.
#[local] Existing Instance std_cluster.
#[local] Existing Instance std_cluster_ok.

Definition demo_recipe : fileRecipe := mk_file_recipe [47; 97] 2 [mk_group_meta [47; 97; 48] 1; mk_group_meta [47; 97; 49] 0].

(** The recipe of "/a", after which there is none of "/a_0". *)
Lemma cluster_recipe_roundtrip_witness : exists c, setFileRecipeToRedis demo_recipe (∅ : gmap (list Z) cluster_value) = (0, c) /\
  getFileRecipeFromRedis [47; 97] c = Ok (Some demo_recipe) /\ getFileRecipeFromRedis [47; 97; 95; 48] c = Ok None.
Proof.
  destruct (cluster_recipe_roundtrip (∅ : gmap (list Z) cluster_value) demo_recipe) as (c & E & H & _ & _ & Hc); [|by repeat constructor|done|done|by repeat constructor|].
  - intros i _. cbn. by eexists.
  - exists c. split; [exact E|]. split; [apply H; by repeat constructor|]. by apply (Hc 0).
Defined.
End Demo.
