(* ===== verification/Worker.v ===== *)
(** The agent of a client machine, [Worker.cc] of [client/src/common], and the
    program that gives it its orders, [Client.cc].

    The agent is a state machine: [Idle] it waits for an order, [Receiving] it
    waits for the next packet of a group. [agent_process] is what it does from a
    state to the next; between two states no message is lost, as it is the only
    one that takes them. There is one worker: the queues and the configuration of
    the phases are globals that several workers would share. What [read] returns
    for a file and whether [fopen] can open one are parameters. *)

From S2P Require Import Prelude Serial CText Destor Recipe Double Chunking ChunkPhase ClientPhase Routing Group Network Command FileRecipe.

Section Worker.
Context {D RS T : Type} `{ST : RecipeStore T}.
Context (sha1 : list Z -> fingerprint) (chunk_algorithm stateful_routing_enabled node_num localIP : Z).
Context (route : list SampleUnit -> RS -> res (Z * RS)) (id2Ip : gmap Z Z).
Context (file_reads : list Z -> list (list Z)) (can_open : list Z -> bool).

(** [chunkMetaData], which every file that is written rounds again; the recipes;
    the state of stateful routing; the files of the machine. *)
Record agent := mk_agent { ag_meta : chunk_config; ag_recipes : T; ag_route : RS; ag_files : gmap (list Z) (list Z) }.

Inductive agent_state :=
| Idle (a : agent)
| Receiving (a : agent) (filename saveas : list Z) (w_fp : option (list Z)) (g : groupMeta) (gm : list groupMeta) (pkt_id : Z).

(** ** Writing *)

(** The loop over the packets of a group; [n] rounds are enough. *)
Fixpoint send_packets (n : nat) (ip : Z) (gp : group) (pktid written_size : Z) (k : io D agent_state) : io D agent_state :=
  if written_size <? g_size gp then
    match n with
    | O => Stop EFuel
    | S n =>
        let this_time_size := if DEFAULT_BLOCK_SIZE <=? u32 (g_size gp - written_size) then DEFAULT_BLOCK_SIZE else u32 (g_size gp - written_size) in
        src ← lift (read_bytes (g_data gp) written_size this_time_size);
        Rpush (ip, g_groupName gp ++ lit "_data_" ++ print_int pktid) (le_bytes 4 (htonl this_time_size) ++ src)
          (send_packets n ip gp (s32 (pktid + 1)) (u32 (written_size + this_time_size)) k)
    end
  else k.

Definition node_ip (nodeId : Z) : Z := default 0 (id2Ip !! nodeId).

Definition send_group (gp : group) (k : io D agent_state) : io D agent_state :=
  cmd ← lift (destorCommand.buildType0 destorCommand.create 0 (g_groupName gp) (g_size gp));
  let ip := node_ip (g_nodeId gp) in
  Rpush (ip, lit "destor_request") (destorCommand.message cmd)
    (send_packets (S (Z.to_nat (g_size gp / DEFAULT_BLOCK_SIZE))) ip gp 0 0
      (Blpop (ip, g_groupName gp ++ lit "_data_finished") (fun _ => k))).

Fixpoint send_groups (gps : list group) (k : io D agent_state) : io D agent_state :=
  match gps with [] => k | gp :: gps => send_group gp (send_groups gps k) end.

(** What [read] gives for the file at [filepath]: nothing if it is not there. *)
Definition replies (files : gmap (list Z) (list Z)) (filepath : list Z) : list read_reply :=
  match files !! filepath with Some data => map ReadData (file_reads data) ++ [ReadData []] | None => [] end.

(** Rounds enough for the chunk thread: the bytes that are read. *)
Definition reply_bytes (rs : list read_reply) : nat := length (concat (map (fun r => match r with ReadData b => b | ReadError => [] end) rs)).

Definition clientWrite (a : agent) (filepath filename : list Z) : io D agent_state :=
  let reads := replies (ag_files a) filepath in
  '(gps, rs) ← lift (split2Groups stateful_routing_enabled node_num route sha1 (S (reply_bytes reads)) chunk_algorithm (ag_meta a) reads filename (ag_route a));
  '(meta, _) ← lift (client_start_chunk_phase chunk_algorithm (ag_meta a));
  recipes ← lift (put_recipe (genFileRecipe filename gps) (ag_recipes a));
  send_groups gps (Ret (Idle (mk_agent meta recipes rs (ag_files a)))).

(** ** Reading *)

(** The next round of the loop over the groups, or what follows the loop. *)
Definition next_group (a : agent) (filename saveas : list Z) (w_fp : option (list Z)) (gm : list groupMeta) : io D agent_state :=
  match gm with
  | g :: gm =>
      cmd ← lift (destorCommand.buildType1 destorCommand.create 1 (gm_groupName g) localIP);
      Rpush (node_ip (gm_nodeId g), lit "destor_request") (destorCommand.message cmd) (Ret (Receiving a filename saveas w_fp g gm 0))
  | [] =>
      data ← lift (match w_fp with Some data => Ok data | None => Err ENull end);
      Ret (Idle (mk_agent (ag_meta a) (free_recipe filename (ag_recipes a)) (ag_route a) (<[saveas := data]> (ag_files a))))
  end.

Definition clientRead (a : agent) (filename saveas : list Z) : io D agent_state :=
  fr ← lift (get_recipe filename (ag_recipes a));
  match fr with
  | None => Ret (Idle a)
  | Some fr =>
      let w_fp := if can_open saveas then Some [] else None in
      let files := if can_open saveas then <[saveas := []]> (ag_files a) else ag_files a in
      next_group (mk_agent (ag_meta a) (ag_recipes a) (ag_route a) files) filename saveas w_fp (take (Z.to_nat (fr_num fr)) (fr_gm fr))
  end.

(** One packet: a length of zero ends the group. [new_chunk] of a length below
    zero has no data. *)
Definition receive_packet (w_fp : option (list Z)) (content : list Z) : res (option (option (list Z))) :=
  bs ← read_bytes (content ++ [0]) 0 4;
  let data_len := s32 (ntohl (le_val bs)) in
  if data_len =? 0 then Ok None else
  if data_len <? 0 then Err ENull else
  data ← read_bytes (content ++ [0]) 4 data_len;
  match w_fp with Some w => Ok (Some (Some (w ++ data))) | None => Err ENull end.

(** ** The agent *)

(** [doProcess] prints an error reply and asks again; this cannot be, as the key of
    the orders is only ever a list. *)

Definition agent_process (s : agent_state) : io D agent_state :=
  match s with
  | Idle a =>
      Blpop (localIP, lit "dup_agent_request") (fun reqStr =>
        agCmd ← lift (AgentCommand.parse reqStr);
        match agCmd with
        | AgentCommand.Write filepath filename _ => clientWrite a filepath filename
        | AgentCommand.Read filename saveas => clientRead a filename saveas
        | AgentCommand.Other _ => Ret (Idle a)
        end)
  | Receiving a filename saveas w_fp g gm pkt_id =>
      Blpop (localIP, gm_groupName g ++ 58 :: print_int pkt_id) (fun content =>
        r ← lift (receive_packet w_fp content);
        match r with
        | Some w_fp => Ret (Receiving a filename saveas w_fp g gm (s32 (pkt_id + 1)))
        | None => next_group a filename saveas w_fp gm
        end)
  end.
End Worker.

(** ** The user *)

(** The orders of [Client.cc]: what is sent to the agent of the machine. *)
Inductive order := OWrite (filepath saveas : list Z) (sizeinBytes : Z) | ORead (filename saveas : list Z).

Definition build_order (o : order) : res cursor :=
  match o with
  | OWrite filepath saveas sizeinBytes => AgentCommand.buildType0 AgentCommand.create 0 filepath saveas sizeinBytes
  | ORead filename saveas => AgentCommand.buildType1 AgentCommand.create 1 filename saveas
  end.

(** The program, run for one order after the other. *)
Fixpoint user_process {D A : Type} (localIP : Z) (orders : list order) (k : io D A) : io D A :=
  match orders with
  | [] => k
  | o :: orders => cmd ← lift (build_order o); Rpush (localIP, lit "dup_agent_request") (AgentCommand.message cmd) (user_process localIP orders k)
  end.
