(* ===== verification/Agent.v ===== *)
(** What the agent of a client does: [Worker] in terms of the messages it sends
    and takes, and the groups it makes of a file. *)

From S2P Require Import Prelude Serial CText Destor Container Recipe Double Chunking ChunkPhase HashPhase ClientPhase Routing Group DoRestore Network Command Server Node FileRecipe Worker.

(** ** Orders *)

Definition order_bytes (o : order) : list Z :=
  match o with OWrite filepath saveas size => write_bytes_of filepath saveas size | ORead filename saveas => read_bytes_of filename saveas end.

Definition order_ok (o : order) : Prop :=
  match o with
  | OWrite filepath saveas size => text_ok filepath /\ text_ok saveas /\ in_s 32 size
  | ORead filename saveas => text_ok filename /\ text_ok saveas
  end /\ zlen (order_bytes o) <= MAX_COMMAND_LEN.

Lemma build_order_ok o : order_ok o -> exists cmd, build_order o = Ok cmd /\ AgentCommand.message cmd = order_bytes o.
Proof.
  intros [Ht Hl]. assert (Hw : forall f, writes f (order_bytes o) -> exists cmd, f AgentCommand.create = Ok cmd /\ AgentCommand.message cmd = order_bytes o).
  { intros f Hw. pose proof (Hw [] (zeros MAX_COMMAND_LEN) ltac:(by rewrite zlen_zeros)) as E. eexists. split; [exact E|]. exact (message_of f _ _ Hw Hl E). }
  destruct o as [filepath saveas size|filename saveas].
  - destruct Ht as (H1 & H2 & H3). exact (Hw _ (writes_user_write filepath saveas size H1 H2)).
  - destruct Ht as [H1 H2]. exact (Hw _ (writes_user_read filename saveas H1 H2)).
Qed.

(** ** The packets of a group *)

Fixpoint split_blocks (n : nat) (data : list Z) : list (list Z) :=
  match n with O => [] | S n => if zlen data =? 0 then [] else ztake DEFAULT_BLOCK_SIZE data :: split_blocks n (zdrop DEFAULT_BLOCK_SIZE data) end.

Definition group_blocks (data : list Z) : list (list Z) := split_blocks (S (Z.to_nat (zlen data / DEFAULT_BLOCK_SIZE))) data.

Lemma block_pos : 0 < DEFAULT_BLOCK_SIZE.
Proof. done. Qed.

Lemma zlen_rest n (data : list Z) : zlen data <= DEFAULT_BLOCK_SIZE * Z.of_nat (S n) -> 0 < zlen data ->
  zlen (ztake DEFAULT_BLOCK_SIZE data) = DEFAULT_BLOCK_SIZE `min` zlen data /\ zlen (zdrop DEFAULT_BLOCK_SIZE data) <= DEFAULT_BLOCK_SIZE * Z.of_nat n.
Proof.
  intros Hl H0. pose proof block_pos. unfold zlen, ztake, zdrop in *. rewrite length_take, length_drop. lia.
Qed.

Lemma split_blocks_ok n : forall data, zlen data <= DEFAULT_BLOCK_SIZE * Z.of_nat n -> Forall is_byte data ->
  concat (split_blocks n data) = data /\ Forall sent_block (split_blocks n data) /\ zlen (split_blocks n data) = packet_count (zlen data).
Proof.
  induction n as [|n IH]; intros data Hl Hb; pose proof (zlen_nonneg data); pose proof block_pos; cbn [split_blocks].
  - assert (data = []) as -> by (apply zlen_nil_inv; lia). done.
  - destruct (Z.eqb_spec (zlen data) 0) as [E|E]; [apply zlen_nil_inv in E as ->; done|].
    destruct (zlen_rest n data Hl ltac:(lia)) as [Ht Hd]. destruct (IH (zdrop DEFAULT_BLOCK_SIZE data) Hd) as (IH1 & IH2 & IH3); [by apply Forall_drop|].
    cbn [concat]. rewrite IH1. split; [apply ztake_zdrop|]. split.
    + constructor; [|done]. split; [lia|by apply Forall_take].
    + rewrite zlen_cons, IH3. unfold packet_count. destruct (Z.le_gt_cases DEFAULT_BLOCK_SIZE (zlen data)) as [Hge|Hlt].
      * rewrite zlen_zdrop by lia. set (B := DEFAULT_BLOCK_SIZE) in *. replace (zlen data) with (zlen data - B + 1 * B) at 3 4 by lia. rewrite Z.div_add, Z_mod_plus_full by lia. lia.
      * assert (zdrop DEFAULT_BLOCK_SIZE data = []) as -> by (unfold zdrop; apply drop_ge; unfold zlen in *; lia).
        change (zlen (@nil Z)) with 0. rewrite Z.div_0_l, Zmod_0_l, Z.div_small, (Z.mod_small (zlen data)) by lia. destruct (Z.eqb_spec (zlen data) 0); [lia|done].
Qed.

Lemma group_blocks_ok data : Forall is_byte data ->
  concat (group_blocks data) = data /\ Forall sent_block (group_blocks data) /\ zlen (group_blocks data) = packet_count (zlen data) /\ (data <> [] -> group_blocks data <> []).
Proof.
  intros Hb. pose proof (zlen_nonneg data). pose proof block_pos. destruct (split_blocks_ok (S (Z.to_nat (zlen data / DEFAULT_BLOCK_SIZE))) data) as (H1 & H2 & H3); [|done|].
  - pose proof (Z.div_mod (zlen data) DEFAULT_BLOCK_SIZE ltac:(lia)). pose proof (Z.mod_pos_bound (zlen data) DEFAULT_BLOCK_SIZE ltac:(lia)).
    pose proof (Z.div_pos (zlen data) DEFAULT_BLOCK_SIZE ltac:(lia) ltac:(lia)). lia.
  - split_and!; [done..|]. intros Hne E. unfold group_blocks in *. rewrite E in H1. by rewrite <- H1 in Hne.
Qed.

(** ** What the agent sends *)

Lemma le_htonl_be v : le_bytes 4 (htonl v) = be_bytes 4 v.
Proof. unfold htonl. by rewrite le_bytes_bswap. Qed.

(** A group as [split2Groups] makes it, with a name that a node can use. *)
Record sendable (gp : group) : Prop := {
  se_name : group_name_ok (g_groupName gp);
  se_size : g_size gp = zlen (g_data gp) /\ 0 < g_size gp <= 2 ^ 31 - 1024;
  se_bytes : Forall is_byte (g_data gp);
}.

Section Sends.
Context {D T RS : Type} `{ST : RecipeStore T} (id2Ip : gmap Z Z).
Implicit Types (k : io D (@agent_state RS T)).

Lemma send_packets_eq n ip gp k : forall pre data pktid, g_data gp = pre ++ data -> g_size gp = zlen (g_data gp) -> g_size gp < 2 ^ 31 ->
  zlen data <= DEFAULT_BLOCK_SIZE * Z.of_nat n -> Forall is_byte data -> 0 <= pktid -> pktid + Z.of_nat n < 2 ^ 31 ->
  send_packets n ip gp pktid (zlen pre) k = push_all (packet_cmds ip (g_groupName gp) pktid (split_blocks n data)) k.
Proof using.
  induction n as [|n IH]; intros pre data pktid Hd Hz Hlt Hl Hb Hp Hpn; cbn [send_packets split_blocks]; pose proof (zlen_nonneg data); pose proof (zlen_nonneg pre);
    assert (Hs : g_size gp = zlen pre + zlen data) by (by rewrite Hz, Hd, zlen_app).
  - destruct (Z.ltb_spec (zlen pre) (g_size gp)); [lia|done].
  - destruct (Z.ltb_spec (zlen pre) (g_size gp)) as [Hm|Hm]; destruct (Z.eqb_spec (zlen data) 0) as [E0|E0]; try lia; [|done].
    destruct (zlen_rest n data Hl ltac:(lia)) as [Ht Hr]. pose proof block_pos.
    assert (Eu : u32 (g_size gp - zlen pre) = zlen data) by (rewrite (uwrap_id 32) by (unfold in_u; lia); lia). rewrite Eu. cbv zeta.
    set (len := if DEFAULT_BLOCK_SIZE <=? zlen data then DEFAULT_BLOCK_SIZE else zlen data).
    assert (Elen : len = zlen (ztake DEFAULT_BLOCK_SIZE data)) by (unfold len; destruct (Z.leb_spec DEFAULT_BLOCK_SIZE (zlen data)); lia).
    assert (Er : read_bytes (g_data gp) (zlen pre) len = Ok (ztake DEFAULT_BLOCK_SIZE data)).
    { rewrite Hd. pose proof (read_bytes_app pre (ztake DEFAULT_BLOCK_SIZE data) (zdrop DEFAULT_BLOCK_SIZE data) (zlen pre) len eq_refl Elen) as E.
      rewrite ztake_zdrop in E. exact E. }
    rewrite Er. cbn [lift mbind io_mbind io_bind packet_cmds push_all]. rewrite le_htonl_be, Elen. f_equal.
    rewrite s32_id, (uwrap_id 32) by (unfold in_u; lia). rewrite <- zlen_app. apply IH; [|done|done|exact Hr|by apply Forall_drop|lia|lia].
    rewrite Hd, <- app_assoc. by rewrite ztake_zdrop.
Qed.

Lemma send_group_eq gp k : sendable gp ->
  send_group id2Ip gp k = push_all ((request_addr (node_ip id2Ip (g_nodeId gp)), request_bytes 0 (g_groupName gp) (zlen (g_data gp))) ::
      packet_cmds (node_ip id2Ip (g_nodeId gp)) (g_groupName gp) 0 (group_blocks (g_data gp)))
    (Blpop (node_ip id2Ip (g_nodeId gp), finished_key (g_groupName gp)) (fun _ => k)).
Proof using.
  intros [Hn [Hz Hs] Hb]. destruct (build_request 0 (g_groupName gp) (g_size gp)) as (cmd & E & Em); [by apply name_text|destruct Hn as (_ & _ & Hl); unfold MAX_COMMAND_LEN; lia|].
  unfold send_group. rewrite E. cbn [lift mbind io_mbind io_bind]. cbv zeta. rewrite Em, Hz. cbn [push_all]. f_equal. unfold group_blocks.
  pose proof (zlen_nonneg (g_data gp)). pose proof block_pos.
  pose proof (Z.div_mod (zlen (g_data gp)) DEFAULT_BLOCK_SIZE ltac:(lia)). pose proof (Z.mod_pos_bound (zlen (g_data gp)) DEFAULT_BLOCK_SIZE ltac:(lia)).
  pose proof (Z.div_pos (zlen (g_data gp)) DEFAULT_BLOCK_SIZE ltac:(lia) ltac:(lia)).
  apply (send_packets_eq _ _ gp _ [] (g_data gp) 0); [done|exact Hz|lia|lia|done|lia|]. 
  assert (zlen (g_data gp) / DEFAULT_BLOCK_SIZE < 2 ^ 30) by (apply Z.div_lt_upper_bound; unfold DEFAULT_BLOCK_SIZE; lia). lia.
Qed.

(** The request for a group. *)
Lemma next_group_eq localIP a filename saveas w_fp g gm : text_ok (gm_groupName g) -> zlen (gm_groupName g) <= 58 ->
  next_group (D := D) localIP id2Ip a filename saveas w_fp (g :: gm) =
    push_all [(request_addr (node_ip id2Ip (gm_nodeId g)), request_bytes 1 (gm_groupName g) localIP)] (Ret (Receiving (T := T) (RS := RS) a filename saveas w_fp g gm 0)).
Proof using.
  intros Hn Hl. destruct (build_request 1 (gm_groupName g) localIP) as (cmd & E & Em); [done|unfold MAX_COMMAND_LEN; lia|].
  unfold next_group. change (destorCommand.buildType1 destorCommand.create 1 (gm_groupName g) localIP) with (destorCommand.buildType0 destorCommand.create 1 (gm_groupName g) localIP).
  rewrite E. cbn [lift mbind io_mbind io_bind push_all]. by rewrite Em.
Qed.
End Sends.

(** ** What the agent takes *)

Lemma receive_packet_ok w bs : zlen bs < 2 ^ 31 -> receive_packet (Some w) (le_bytes 4 (s32 (htonl (zlen bs))) ++ bs) = Ok (if zlen bs =? 0 then None else Some (Some (w ++ bs))).
Proof.
  intros Hl. pose proof (zlen_nonneg bs). rewrite (le_bytes_swrap 32 4), le_htonl_be by lia. unfold receive_packet. rewrite <- app_assoc.
  assert (E := ntohl_be (zlen bs) (bs ++ [0]) ltac:(unfold in_u; lia)). apply bind_Ok in E as (b4 & -> & E). injection E as E. step. rewrite E, s32_id by lia.
  destruct (Z.eqb_spec (zlen bs) 0) as [|Hne]; [done|]. destruct (Z.ltb_spec (zlen bs) 0); [lia|].
  rewrite (read_bytes_app (be_bytes 4 (zlen bs)) bs [0]) by (by rewrite ?zlen_be_bytes). by step.
Qed.

(** ** The groups of a file *)

(** Starting the chunk phase again, with what it left of the configuration. *)
Lemma round_avg_again cfg cfg' : 0 < chunk_avg_size cfg < 2 ^ 31 -> round_avg cfg = Ok cfg' ->
  round_avg cfg' = Ok cfg' /\ chunk_min_size cfg' = chunk_min_size cfg /\ 0 < chunk_avg_size cfg' < 2 ^ 31.
Proof.
  intros Ha E. rewrite round_avg_spec in E by done. cbv zeta in E. set (avg := 2 ^ Z.log2 (chunk_avg_size cfg)) in *.
  destruct ((chunk_min_size cfg <=? avg) && (avg <=? chunk_max_size cfg) && (chunk_max_size cfg <=? CONTAINER_SIZE - CONTAINER_META_SIZE)) eqn:Eb; [|done]. injection E as <-.
  cbn [chunk_min_size chunk_avg_size]. assert (Hv : 0 < avg < 2 ^ 31).
  { unfold avg. pose proof (Z.log2_nonneg (chunk_avg_size cfg)). pose proof (Z.log2_spec (chunk_avg_size cfg) ltac:(lia)). split; [apply Z.pow_pos_nonneg; lia|lia]. }
  split; [|by split]. rewrite round_avg_spec by done. cbv zeta. cbn [chunk_min_size chunk_avg_size chunk_max_size]. unfold avg at 1 2 3. rewrite Z.log2_pow2 by apply Z.log2_nonneg.
  fold avg. by rewrite Eb.
Qed.

Lemma start_again alg cfg cfg' f : alg <> CHUNK_AE -> 0 < chunk_avg_size cfg < 2 ^ 31 -> start_chunk_phase alg cfg = Ok (cfg', f) ->
  start_chunk_phase alg cfg' = Ok (cfg', f) /\ chunk_min_size cfg' = chunk_min_size cfg /\ 0 < chunk_avg_size cfg' < 2 ^ 31.
Proof.
  intros Hae Ha. unfold start_chunk_phase.
  assert (Hr : forall (g : chunk_config -> res (chunk_config * (list Z -> Z -> res Z))), (forall c r, g c = Ok r -> r.1 = c) ->
    (c ← round_avg cfg; g c) = Ok (cfg', f) -> (c ← round_avg cfg'; g c) = Ok (cfg', f) /\ chunk_min_size cfg' = chunk_min_size cfg /\ 0 < chunk_avg_size cfg' < 2 ^ 31).
  { intros g Hg E. apply bind_Ok in E as (c & Ec & E). pose proof (Hg _ _ E) as Ecfg. cbn in Ecfg. subst c. destruct (round_avg_again cfg cfg' Ha Ec) as (E1 & E2 & E3).
    rewrite E1. step. by split. }
  assert (Hi : forall (h : list Z -> list Z -> Z -> chunk_config -> list Z -> Z -> res Z) c r, ('(T, U, shift) ← chunkAlg_init; Ok (c, h T U shift c)) = Ok r -> r.1 = c).
  { intros h c r E. apply bind_Ok in E as ([[T U] shift] & _ & E). by injection E as <-. }
  destruct (alg =? CHUNK_RABIN); [apply Hr, (Hi (fun T U s c => rabin_chunk_data T U s c))|].
  destruct (alg =? CHUNK_NORMALIZED_RABIN); [apply Hr, (Hi (fun T U s c => normalized_rabin_chunk_data T U s c))|].
  destruct (alg =? CHUNK_TTTD); [apply Hr, (Hi (fun T U s c => tttd_chunk_data T U s c))|]. clear Hr Hi.
  destruct (alg =? CHUNK_FIXED).
  { intros E. apply bind_Ok in E as ([] & E1 & E). injection E as <- <-. cbn [chunk_avg_size chunk_min_size]. rewrite E1. by step. }
  destruct (alg =? CHUNK_FILE); [intros E; injection E as <- <-; cbn [chunk_avg_size chunk_min_size]; done|].
  rewrite (proj2 (Z.eqb_neq _ _) Hae). done.
Qed.

Section Groups.
Context {RS : Type} (node_num : Z) (route : list SampleUnit -> RS -> res (Z * RS)) (sha1 : list Z -> fingerprint) (rs0 : RS).

(** Without stateful routing the state of the routing plays no part. *)
Lemma close_group_route filename id last cs : exists r : res group, forall rs, close_group 0 node_num route filename id last cs rs = (gp ← r; Ok (gp, rs)).
Proof using.
  unfold close_group. destruct (group_scan last cs) as [size m]. destruct (new_group filename (s32 size) id) as [gp|e]; [|by exists (Err e)].
  change (0 =? 0) with true. cbv iota. destruct (foldM copy_chunk (g_data gp, 0) cs) as [[data off]|e] eqn:E; [|exists (Err e)].
  - eexists (Ok _). intros rs. step. step. rewrite E. step. step. reflexivity.
  - intros rs. step. step. by rewrite E.
Qed.

Lemma group_loop_route filename queue : forall id cs, exists r : res (list group), forall rs, group_loop 0 node_num route filename id cs queue rs = (gps ← r; Ok (gps, rs)).
Proof using.
  induction queue as [|c queue IH]; intros id cs; cbn [group_loop].
  - destruct (zlen cs =? 0); [by exists (Ok [])|]. destruct (close_group_route filename id (Some (zlen cs)) cs) as [[gp|e] Hr]; [exists (Ok [gp])|exists (Err e)]; intros rs; rewrite Hr; by repeat step.
  - destruct (c_assert _) as [u|e]; [|by exists (Err e)]. destruct (zlen (cs ++ [c]) =? DEFAULT_GROUP_SIZE).
    + destruct (close_group_route filename id None (cs ++ [c])) as [[gp|e] Hr]; [|exists (Err e); intros rs; rewrite Hr; by repeat step].
      destruct (IH (s32 (id + 1)) []) as [[gps|e] Hr']; [exists (Ok (gp :: gps))|exists (Err e)]; intros rs; rewrite Hr; step; step; step; rewrite Hr'; by repeat step.
    + destruct (IH id (cs ++ [c])) as [r Hr']. exists r. intros rs. step. apply Hr'.
Qed.

Context (chunk_algorithm : Z) (cfg cfg' : chunk_config) (f : list Z -> Z -> res Z) (Hs : start_chunk_phase chunk_algorithm cfg = Ok (cfg', f)).
Context (Hae : chunk_algorithm <> CHUNK_AE) (Hmin : 1 <= chunk_min_size cfg) (Ha : 0 < chunk_avg_size cfg < 2 ^ 31) (Hmax : chunk_max_size cfg' < 2 ^ 21) (Hnodes : 0 < node_num < 2 ^ 31).

(** The groups of a file with the name and the bytes. *)
Definition file_groups (filename data : list Z) : list group :=
  match group_loop 0 node_num route filename 0 [] (map (hashed_cblock sha1) (chunks_of f data)) rs0 with Ok (gps, _) => gps | Err _ => [] end.

(** A name that a file may be stored under. *)
Definition file_name_ok (name : list Z) : Prop := Forall (fun ch => is_byte ch /\ ch <> 0) name /\ slash ∈ name /\ zlen name <= 48.

Lemma group_name_good name i : file_name_ok name -> 0 <= i < 2 ^ 31 -> group_name_ok (group_name name i).
Proof using.
  intros (Hn & Hsl & Hl) Hi. unfold group_name. assert (Hp : print_int i = print_nat 20 i) by (unfold print_int; by rewrite (proj2 (Z.ltb_ge i 0)) by lia).
  split; [|split].
  - apply Forall_app. split; [done|]. destruct (print_int_nonneg i ltac:(lia)) as (c & s & -> & Hd & _). eapply Forall_impl; [exact Hd|]. intros ch Hc.
    unfold is_digit in Hc. apply andb_prop in Hc. unfold is_byte. lia.
  - apply elem_of_app. by left.
  - rewrite zlen_app. enough (zlen (print_int i) <= 10) by lia. rewrite Hp. apply print_nat_len; [|lia]. split; [lia|]. transitivity (2 ^ 31); [lia|done].
Qed.

Lemma groups_count gps : Forall (fun gp => g_size gp = zlen (g_data gp) /\ 0 < g_size gp) gps -> zlen gps <= zlen (concat (map g_data gps)).
Proof using. induction 1 as [|gp gps [H1 H2] _ IH]; [done|]. cbn [map concat]. rewrite zlen_cons, zlen_app. lia. Qed.

Lemma split_file cfg1 bs filename rs fuel : cfg1 = cfg \/ cfg1 = cfg' -> Forall sent_block bs -> zlen (concat bs) < 2 ^ 31 -> (length (concat bs) < fuel)%nat -> file_name_ok filename ->
  split2Groups 0 node_num route sha1 fuel chunk_algorithm cfg1 (map ReadData bs ++ [ReadData []]) filename rs = Ok (file_groups filename (concat bs), rs) /\
  concat (map g_data (file_groups filename (concat bs))) = concat bs /\ zlen (file_groups filename (concat bs)) < 2 ^ 31 /\
  Forall (fun gp => sendable gp /\ 0 <= g_nodeId gp < node_num) (file_groups filename (concat bs)).
Proof using Hs Hae Hmin Ha Hmax Hnodes.
  intros Hcfg Hb Hlt Hfuel Hname. destruct (start_again chunk_algorithm cfg cfg' f Hae Ha Hs) as (Hs' & Em & Ha').
  assert (Hc1 : start_chunk_phase chunk_algorithm cfg1 = Ok (cfg', f) /\ 1 <= chunk_min_size cfg1 /\ 0 < chunk_avg_size cfg1 < 2 ^ 31) by (destruct Hcfg as [-> | ->]; [done|]; rewrite Em; by split).
  destruct Hc1 as (Hs1 & Hmin1 & Ha1).
  destruct (split2Groups_ok 0 node_num route sha1 fuel chunk_algorithm cfg1 cfg' f bs filename rs) as (gps & rs' & E & Hg & Hsm & Hd); [by left|done..|].
  destruct (client_chunks_ok sha1 chunk_algorithm cfg1 cfg' f bs fuel Hs1 Hae Hmin1 Ha1 Hb Hfuel) as (Hc & _).
  assert (Egps : gps = file_groups filename (concat bs) /\ rs' = rs).
  { unfold split2Groups in E. rewrite Hc in E. rewrite bind_ret in E. unfold file_groups.
    destruct (group_loop_route filename (map (hashed_cblock sha1) (chunks_of f (concat bs))) 0 []) as [r Hr]. rewrite Hr in E |- *.
    destruct r as [gps'|]; [|done]. rewrite bind_ret in E |- *. by injection E as -> ->. }
  destruct Egps as [<- ->]. split; [exact E|]. split; [exact Hd|].
  assert (Hok : forall i gp, gps !! i = Some gp -> group_ok 0 node_num filename i gp) by (intros i gp Hi; by eapply grouped_facts).
  assert (Hcount : zlen gps < 2 ^ 31).
  { enough (zlen gps <= zlen (concat (map g_data gps))) by (rewrite Hd in *; lia). apply groups_count, Forall_lookup. intros i gp Hi. destruct (Hok i gp Hi) as (_ & ? & ? & _). split; [done|lia]. }
  split; [done|]. apply Forall_lookup. intros i gp Hi. destruct (Hok i gp Hi) as (En & Esz & Hsz & Hid). apply lookup_lt_Some in Hi as Hlti. split; [split|].
  - rewrite En. apply group_name_good; [done|]. unfold zlen in Hcount. lia.
  - by split.
  - assert (Hall : Forall is_byte (concat (map g_data gps))) by (rewrite Hd; apply Forall_concat; eapply Forall_impl; [exact Hb|]; by intros ? []).
    rewrite Forall_concat, Forall_map, Forall_lookup in Hall. by apply (Hall i).
  - by apply Hid.
Qed.
End Groups.
