(* ===== verification/Keys.v ===== *)
(** The keys that the machines use: what a key is for can be told from its text,
    so that two programs never use one key for different things. *)

From S2P Require Import Prelude Serial CText Glib Destor LruCache Container Recipe RestoreCache OptRestore DoRestore Network Command Server Node.

Inductive key_use := KRequest | KOrder | KPacket | KReply (name : list Z) | KFinished | KJob | KOther.

Fixpoint drop_digits (s : list Z) : list Z := match s with c :: s' => if is_digit c then drop_digits s' else s | [] => [] end.

(** What the text before a number at the end says. *)
Definition numbered_use (rev_text : list Z) : key_use :=
  match rev_text with 45 :: 58 :: r | 58 :: r => KReply (rev r) | _ => KPacket end.

Definition key_kind (key : list Z) : key_use :=
  if bool_decide (key = lit "destor_request") then KRequest
  else if bool_decide (key = lit "dup_agent_request") then KOrder
  else match rev key with
    | c :: r => if is_digit c then numbered_use (drop_digits r) else match c :: r with 100 :: 101 :: _ => KFinished | 100 :: 105 :: _ => KJob | _ => KOther end
    | [] => KOther
    end.

Lemma drop_digits_app d s : Forall (fun c => is_digit c = true) d -> drop_digits (d ++ s) = drop_digits s.
Proof. induction 1 as [|c d Hc _ IH]; [done|]. cbn [app drop_digits]. by rewrite Hc. Qed.

(** A text with a slash is neither of the fixed keys. *)
Lemma kind_slash name suf : slash ∈ name ->
  key_kind (name ++ suf) = match rev suf ++ rev name with
    | c :: r => if is_digit c then numbered_use (drop_digits r) else match c :: r with 100 :: 101 :: _ => KFinished | 100 :: 105 :: _ => KJob | _ => KOther end
    | [] => KOther
    end.
Proof.
  intros Hsl. unfold key_kind. rewrite !bool_decide_eq_false_2 by (apply slash_key; [done|decide_it]). by rewrite rev_app_distr.
Qed.

(** A number, with or without a sign. *)
Lemma print_int_text n : - 2 ^ 63 < n < 2 ^ 63 -> exists d c, print_int n = (if n <? 0 then [45] else []) ++ d ++ [c] /\ Forall (fun c => is_digit c = true) (d ++ [c]).
Proof.
  intros Hn. assert (H : forall m, 0 <= m < 2 ^ 63 -> exists d c, print_nat 20 m = d ++ [c] /\ Forall (fun c => is_digit c = true) (d ++ [c])).
  { intros m Hm. destruct (print_nat_digits 20 m) as (Hd & _ & Hne); [split; [lia|]; transitivity (2 ^ 63); [lia|done]|].
    destruct (print_nat 20 m) as [|c d _] using rev_ind; [by destruct Hne|]. by exists d, c. }
  unfold print_int. destruct (Z.ltb_spec n 0).
  - destruct (H (- n) ltac:(lia)) as (d & c & E & Hd). exists d, c. by rewrite E.
  - destruct (H n ltac:(lia)) as (d & c & E & Hd). exists d, c. by rewrite E.
Qed.

Lemma kind_numbered name pre n : slash ∈ name -> - 2 ^ 63 < n < 2 ^ 63 ->
  key_kind (name ++ pre ++ print_int n) = numbered_use (drop_digits ((if n <? 0 then [45] else []) ++ rev pre ++ rev name)).
Proof.
  intros Hsl Hn. rewrite kind_slash by done. destruct (print_int_text n Hn) as (d & c & -> & Hd). apply Forall_app in Hd as [Hd Hc]. apply Forall_cons in Hc as [Hc _].
  rewrite !rev_app_distr. cbn [rev app]. rewrite Hc. f_equal. rewrite <- !app_assoc. rewrite drop_digits_app by by apply Forall_rev.
  by destruct (n <? 0).
Qed.

Lemma kind_packet name k : slash ∈ name -> 0 <= k < 2 ^ 63 -> key_kind (packet_key name k) = KPacket.
Proof. intros Hsl Hk. unfold packet_key. rewrite kind_numbered by (done || lia). destruct (Z.ltb_spec k 0); [lia|done]. Qed.

Lemma kind_reply name k : slash ∈ name -> - 2 ^ 63 < k < 2 ^ 63 -> key_kind (name ++ 58 :: print_int k) = KReply name.
Proof.
  intros Hsl Hk. change (58 :: print_int k) with ([58] ++ print_int k). rewrite kind_numbered by done. destruct (k <? 0); cbn [app rev drop_digits is_digit andb Z.leb Z.compare Pos.compare Pos.compare_cont numbered_use]; by rewrite rev_involutive.
Qed.

Lemma kind_finished name : slash ∈ name -> key_kind (finished_key name) = KFinished.
Proof. intros Hsl. unfold finished_key. by rewrite kind_slash. Qed.

Lemma kind_job name : slash ∈ name -> key_kind (job_id_key name) = KJob.
Proof. intros Hsl. unfold job_id_key. by rewrite kind_slash. Qed.

Lemma job_id_key_inj a b : job_id_key a = job_id_key b -> a = b.
Proof. unfold job_id_key. intros E. by apply app_inv_tail in E. Qed.

(** The keys that a restore pushes to are those of its group. *)
Lemma write_chunk_keys level path : forall cs w w', (forall c, c ∈ wr_cmds w -> exists k, - 2 ^ 31 <= k < 2 ^ 31 /\ c.1 = path ++ 58 :: print_int k) -> - 2 ^ 31 <= wr_chunk_num w < 2 ^ 31 ->
  foldM (DoRestore.write_chunk level path) w cs = Ok w' -> forall c, c ∈ wr_cmds w' -> exists k, - 2 ^ 31 <= k < 2 ^ 31 /\ c.1 = path ++ 58 :: print_int k.
Proof.
  assert (Hname : forall k name, pkt_name path k = Ok name -> name = path ++ 58 :: print_int k).
  { intros k name. unfold pkt_name. destruct (_ <? _); [done|]. by intros [= <-]. }
  induction cs as [|ck cs IH]; intros w w' Hw Hk E; cbn [foldM] in E; [by injection E as <-|]. apply bind_Ok in E as (w1 & E1 & E). revert E. apply IH.
  - unfold DoRestore.write_chunk in E1. destruct (CHECK_CHUNK ck CHUNK_FILE_START); [by injection E1 as <-|].
    assert (Hadd : forall name v, name = path ++ 58 :: print_int (wr_chunk_num w) -> forall c, c ∈ wr_cmds w ++ [(name, v)] -> exists k, - 2 ^ 31 <= k < 2 ^ 31 /\ c.1 = path ++ 58 :: print_int k).
    { intros name v -> c [Hc|Hc]%elem_of_app; [by apply Hw|]. apply list_elem_of_singleton in Hc as ->. by exists (wr_chunk_num w). }
    destruct (CHECK_CHUNK ck CHUNK_FILE_END).
    + apply bind_Ok in E1 as ([] & _ & E1). apply bind_Ok in E1 as (name & En & E1). injection E1 as <-. apply Hadd, Hname, En.
    + apply bind_Ok in E1 as ([] & _ & E1). apply bind_Ok in E1 as (name & En & E1). apply bind_Ok in E1 as (bs & _ & E1). injection E1 as <-. apply Hadd, Hname, En.
  - assert (Hs : forall z, - 2 ^ 31 <= s32 z < 2 ^ 31) by (intros z; apply (swrap_range 32 z); lia).
    unfold DoRestore.write_chunk in E1. destruct (CHECK_CHUNK ck CHUNK_FILE_START); [by injection E1 as <-|]. destruct (CHECK_CHUNK ck CHUNK_FILE_END).
    + apply bind_Ok in E1 as ([] & _ & E1). apply bind_Ok in E1 as (name & En & E1). injection E1 as <-. apply Hs.
    + apply bind_Ok in E1 as ([] & _ & E1). apply bind_Ok in E1 as (name & En & E1). apply bind_Ok in E1 as (bs & _ & E1). injection E1 as <-. apply Hs.
Qed.

Lemma do_restore_keys `{HI : !HashIter fingerprint metaEntry} `{SS : !SeqSort accessRecords} fuel level c0 c1 window stack dir st n path cmds stat :
  do_restore fuel level c0 c1 window stack dir st n path = Ok (cmds, stat) -> forall c, c ∈ cmds -> exists k, - 2 ^ 31 <= k < 2 ^ 31 /\ c.1 = path ++ 58 :: print_int k.
Proof.
  unfold do_restore. intros E. apply bind_Ok in E as (bv & _ & E). apply bind_Ok in E as (recipe & _ & E). apply bind_Ok in E as ([[chunks st1] st2] & _ & E).
  apply bind_Ok in E as (cs & E1 & E). injection E as <- _. unfold write_restore_data in E1. apply bind_Ok in E1 as (w & E1 & E2). injection E2 as <-.
  refine (write_chunk_keys level path chunks (mk_writer 0 0 []) w _ _ E1); [|done]. intros c Hc. by apply not_elem_of_nil in Hc.
Qed.
