(* ===== verification/Cluster.v ===== *)
(** All the machines together: a user, the agent of his machine and the nodes, as
    processes that run in any interleaving and talk through Redis. What the user
    stores he gets back.

    The plan of the user is a list of orders. Its meaning is [spec_step]: a write
    keeps the bytes of a file under a name, a read puts them into another file.
    The theorem at the end says that every execution of the whole system ends,
    and that the files of the user's machine are then those of the meaning. *)

From S2P Require Import Prelude Serial CText Glib Destor LruCache Container Recipe Segmenting Sampling KvStore Chunking ChunkPhase HashPhase RestoreCache OptRestore DoRestore Double.
From S2P Require Import RestoreAware Index IndexInv Filter FilterInv DedupPhase Backup Job Network Command ClientPhase Routing Group Server Node FileRecipe Worker Agent Keys.

(** ** Processes *)

Inductive proc := PUser | PAgent | PNode (ip : Z).

#[export] Instance proc_eq_dec : EqDecision proc.
Proof. solve_decision. Defined.
#[export] Instance proc_countable : Countable proc.
Proof.
  refine (inj_countable' (fun p => match p with PUser => None | PAgent => Some None | PNode ip => Some (Some ip) end)
    (fun o => match o with None => PUser | Some None => PAgent | Some (Some ip) => PNode ip end) _). by intros [].
Defined.
#[export] Instance disk_inhabited : Inhabited disk := populate (mk_disk ∅ None None None).

(** What a process ends with: the user for good, the agent between two steps, a
    node after a request. *)
Inductive outcome (T RS : Type) := UserDone | AgentAt (s : @agent_state RS T) | NodeAt (d : disk).
Arguments UserDone {T RS}. Arguments AgentAt {T RS} _. Arguments NodeAt {T RS} _.

Section Cluster.
Context {R : Type} `{RO : RedisOk R} {T RS : Type} `{ST : RecipeStoreOk T}.
Context `{HC : !HashIter fingerprint metaEntry} `{HF : !HashIter (list Z) ()} `{HS : !HashIter Z (gset (list Z))} `{HK : !HashIter (list Z) (list Z)}.
Context `{SF : !SeqSort fingerprint} `{SA : !SeqSort (fingerprint * fingerprint)} `{SS : !SeqSort (Z * gset (list Z))} `{SR : !SeqSort accessRecords}.
Context `{HCO : !HashIterOk fingerprint metaEntry} `{HFO : !HashIterOk (list Z) ()} `{HSO : !HashIterOk Z (gset (list Z))} `{HKO : !HashIterOk (list Z) (list Z)}.
Context `{SFO : !SeqSortOk fingerprint} `{SAO : !SeqSortOk (fingerprint * fingerprint)} `{SSO : !SeqSortOk (Z * gset (list Z))}.
Context `{SRO : !SeqSortOk accessRecords}.

(** The configuration of the nodes. *)
Context (cfg : index_config) (fcfg : filter_config) (wait_threshold restore_cache_size : Z).
Context (CO : config_ok cfg) (Hvl : value_length cfg < 2 ^ 31) (bytes_of : fingerprint -> list Z).
Context (sha1 : list Z -> fingerprint) (Hsha1 : forall b, fp_wf (sha1 b)) (chunk_algorithm : Z) (ccfg : chunk_config) (scfg : seg_config).
Context (ccfg' : chunk_config) (f : list Z -> Z -> res Z) (Hs : start_chunk_phase chunk_algorithm ccfg = Ok (ccfg', f)).
Context (Hae : chunk_algorithm <> CHUNK_AE) (Hmin : 1 <= chunk_min_size ccfg) (Ha : 0 < chunk_avg_size ccfg < 2 ^ 31) (Hseg : seg_config_ok scfg).
Context (restore_cache_0 restore_cache_1 window : Z) (stack : Z -> fingerprint).
Context (Hkind : restore_cache_0 ∈ [RESTORE_CACHE_LRU; RESTORE_CACHE_OPT; RESTORE_CACHE_ASM]) (Hcache : restore_cache_1 <> 0) (Hwindow : 0 < window < 2 ^ 30).

(** The buffers of a backup do not block each other. *)
Context (Hgo : rewrite_algorithm_0 fcfg = REWRITE_NO \/ wait_threshold <= 0).

(** That of the client, without stateful routing. *)
Context (alg node_num localIP : Z) (meta meta' : chunk_config) (fc : list Z -> Z -> res Z) (Hcs : start_chunk_phase alg meta = Ok (meta', fc)).
Context (Hcae : alg <> CHUNK_AE) (Hcmin : 1 <= chunk_min_size meta) (Hca : 0 < chunk_avg_size meta < 2 ^ 31) (Hcmax : chunk_max_size meta' < 2 ^ 21).
Context (Hnodes : 0 < node_num < 2 ^ 31) (HlocalIP : in_u 32 localIP).
Context (route : list SampleUnit -> RS -> res (Z * RS)) (rs0 : RS) (id2Ip : gmap Z Z) (file_reads : list Z -> list (list Z)) (can_open : list Z -> bool).
Context (Hreads : forall data, Forall is_byte data -> concat (file_reads data) = data /\ Forall sent_block (file_reads data)).

(** The machines of the nodes. *)
Context (ips : list Z) (Hips : forall id, 0 <= id < node_num -> node_ip id2Ip id ∈ ips).

#[local] Abbreviation process := (io disk (outcome T RS)).
#[local] Abbreviation server ip := (destor_server_process cfg fcfg SIMULATION_NO wait_threshold restore_cache_size sha1 chunk_algorithm ccfg scfg
  restore_cache_0 restore_cache_1 window stack ip).
#[local] Abbreviation past := (history cfg fcfg SIMULATION_NO wait_threshold restore_cache_size bytes_of).
#[local] Abbreviation worker := (agent_process (D := disk) sha1 alg 0 node_num localIP route id2Ip file_reads can_open).

Definition agent_proc (s : agent_state) : process := worker s ≫= fun s => Ret (AgentAt s).
Definition node_proc (ip : Z) (d : disk) : process := server ip d ≫= fun d => Ret (NodeAt d).

(** A worker goes on, and a server is started again. *)
Definition spawn (p : proc) (x : outcome T RS) : option process :=
  match p, x with PAgent, AgentAt s => Some (agent_proc s) | PNode ip, NodeAt d => Some (node_proc ip d) | _, _ => None end.

(** ** The plan *)

Context (orders : list order) (files0 : gmap (list Z) (list Z)).

Definition spec_step (st : gmap (list Z) (list Z) * gmap (list Z) (list Z)) (o : order) : gmap (list Z) (list Z) * gmap (list Z) (list Z) :=
  let '(names, files) := st in
  match o with
  | OWrite filepath saveas _ => (<[saveas := default [] (files !! filepath)]> names, files)
  | ORead filename saveas => (if recipe_lasting then names else delete filename names, <[saveas := default [] (names !! filename)]> files)
  end.

(** A file is read after it was written, and once only if its recipe does not last. *)
Fixpoint reads_ok (st : gmap (list Z) (list Z) * gmap (list Z) (list Z)) (os : list order) : Prop :=
  match os with
  | [] => True
  | o :: os => match o with ORead filename _ => is_Some (st.1 !! filename) | _ => True end /\ reads_ok (spec_step st o) os
  end.

Definition order_groups (o : order) : list group :=
  match o with OWrite filepath saveas _ => file_groups node_num route sha1 rs0 fc saveas (default [] (files0 !! filepath)) | ORead _ _ => [] end.
Definition plan_groups : list group := concat (map order_groups orders).

Lemma in_plan_groups o gp : o ∈ orders -> gp ∈ order_groups o -> gp ∈ plan_groups.
Proof using.
  intros Ho Hg. unfold plan_groups. apply list_elem_of_In, in_concat. exists (order_groups o). rewrite <- !list_elem_of_In.
  split; [by apply (list_elem_of_fmap_2 order_groups)|done].
Qed.

Definition order_good (t0 : T) (o : order) : Prop :=
  match o with
  | OWrite filepath saveas _ =>
      (exists data, files0 !! filepath = Some data /\ Forall is_byte data /\ zlen data < 2 ^ 31 /\
        (forall gp, gp ∈ file_groups node_num route sha1 rs0 fc saveas data -> known sha1 f bytes_of (g_data gp))) /\
      file_name_ok saveas /\ ready t0 saveas /\
      (forall fp' sv' sz', OWrite fp' sv' sz' ∈ orders -> sv' = saveas \/ recipe_apart saveas sv') /\ (forall fn sv, ORead fn sv ∈ orders -> sv <> filepath)
  | ORead filename saveas => can_open saveas = true
  end.

(** The names of the groups on a machine, in the order they are stored. *)
Definition names_on (ip : Z) (gps : list group) : list (list Z) := map g_groupName (filter (fun gp => node_ip id2Ip (g_nodeId gp) = ip) gps).

Record plan_ok (t0 : T) : Prop := {
  po_orders : Forall (fun o => order_ok o /\ order_good t0 o) orders;
  po_reads : reads_ok (∅, files0) orders;
  po_names : NoDup (map g_groupName plan_groups);
  (** A group fits a packet: a node cannot receive a second one. *)
  po_packets : Forall (fun gp => zlen (g_data gp) <= DEFAULT_BLOCK_SIZE) plan_groups;
  (** Nothing was stored before. *)
  po_fresh : forall filepath saveas size, OWrite filepath saveas size ∈ orders -> get_recipe saveas t0 = Ok None;
  (** The stores of the nodes have room for every group. *)
  po_room : forall ip h d gp rest, past h d -> map fst h ++ g_groupName gp :: rest = names_on ip plan_groups -> gp ∈ plan_groups ->
    zlen h < 2 ^ 15 /\ dump_small d /\ forall todo, dedup_input sha1 chunk_algorithm ccfg scfg (sent_queue (g_groupName gp) (group_blocks (g_data gp))) = Ok todo -> job_fits d todo;
}.

Context (t0 : T) (Hplan : plan_ok t0).

(** ** The groups of the plan *)

Lemma order_write filepath saveas size : OWrite filepath saveas size ∈ orders -> order_good t0 (OWrite filepath saveas size).
Proof using Hplan. intros Hin. pose proof (po_orders t0 Hplan) as Ho. rewrite Forall_forall in Ho. by apply Ho. Qed.

Lemma file_split meta1 data saveas rs : meta1 = meta \/ meta1 = meta' -> Forall is_byte data -> zlen data < 2 ^ 31 -> file_name_ok saveas ->
  let reads := map ReadData (file_reads data) ++ [ReadData []] in
  split2Groups 0 node_num route sha1 (S (reply_bytes reads)) alg meta1 reads saveas rs = Ok (file_groups node_num route sha1 rs0 fc saveas data, rs) /\
  concat (map g_data (file_groups node_num route sha1 rs0 fc saveas data)) = data /\ zlen (file_groups node_num route sha1 rs0 fc saveas data) < 2 ^ 31 /\
  Forall (fun gp => sendable gp /\ 0 <= g_nodeId gp < node_num) (file_groups node_num route sha1 rs0 fc saveas data).
Proof using Hcs Hcae Hcmin Hca Hcmax Hnodes Hreads.
  intros Hm Hb Hl Hn reads. destruct (Hreads data Hb) as [Ec Hsb].
  assert (Hf : (length (concat (file_reads data)) < S (reply_bytes reads))%nat).
  { unfold reply_bytes, reads. rewrite map_app, map_map, map_id, concat_app, length_app. lia. }
  pose proof (split_file node_num route sha1 rs0 alg meta meta' fc Hcs Hcae Hcmin Hca Hcmax Hnodes meta1 (file_reads data) saveas rs (S (reply_bytes reads)) Hm Hsb) as Hsp.
  rewrite Ec in Hsp, Hf. by apply Hsp.
Qed.

Lemma plan_group gp : gp ∈ plan_groups -> exists filepath saveas size data, OWrite filepath saveas size ∈ orders /\ files0 !! filepath = Some data /\
  gp ∈ file_groups node_num route sha1 rs0 fc saveas data.
Proof using Hplan.
  unfold plan_groups. rewrite list_elem_of_In, in_concat. intros (gps & Hg & Hgp). rewrite <- list_elem_of_In in Hg. rewrite <- list_elem_of_In in Hgp. apply list_elem_of_fmap in Hg as (o & -> & Ho).
  destruct o as [fp sv sz|fn sv]; cbn [order_groups] in Hgp; [|by apply not_elem_of_nil in Hgp]. destruct (order_write fp sv sz Ho) as ((data & E & _) & _).
  rewrite E in Hgp. by exists fp, sv, sz, data.
Qed.

Lemma plan_group_ok gp : gp ∈ plan_groups -> sendable gp /\ 0 <= g_nodeId gp < node_num /\ known sha1 f bytes_of (g_data gp).
Proof using Hplan Hcs Hcae Hcmin Hca Hcmax Hnodes Hreads.
  intros Hin. destruct (plan_group gp Hin) as (fp & sv & sz & data & Ho & E & Hg). destruct (order_write fp sv sz Ho) as ((data' & E' & Hb & Hl & Hkn) & Hn & _).
  assert (data' = data) as -> by congruence. destruct (file_split meta data sv rs0) as (_ & _ & _ & Hall); [by left|done..|]. rewrite Forall_forall in Hall.
  destruct (Hall gp Hg). split_and!; [done|lia|lia|by apply Hkn].
Qed.

(** The machine of a group. *)
Definition home_map : gmap (list Z) Z := list_to_map (map (fun gp => (g_groupName gp, node_ip id2Ip (g_nodeId gp))) plan_groups).

Lemma home_of gp : gp ∈ plan_groups -> home_map !! g_groupName gp = Some (node_ip id2Ip (g_nodeId gp)).
Proof using Hplan.
  intros Hin. apply elem_of_list_to_map_1.
  - change (NoDup (map fst (map (fun gp => (g_groupName gp, node_ip id2Ip (g_nodeId gp))) plan_groups))). rewrite map_map. exact (po_names t0 Hplan).
  - by apply (list_elem_of_fmap_2 (fun gp => (g_groupName gp, node_ip id2Ip (g_nodeId gp)))).
Qed.

Lemma same_group gp gp' : gp ∈ plan_groups -> gp' ∈ plan_groups -> g_groupName gp = g_groupName gp' -> gp = gp'.
Proof using Hplan.
  intros H1 H2 E. pose proof (po_names t0 Hplan) as Hn. apply list_elem_of_lookup in H1 as [i Hi]. apply list_elem_of_lookup in H2 as [j Hj].
  assert (i = j) as ->; [|congruence]. eapply (NoDup_lookup _ _ _ (g_groupName gp)); [exact Hn|by rewrite (list_lookup_fmap g_groupName plan_groups), Hi|].
  by rewrite (list_lookup_fmap g_groupName plan_groups), Hj, E.
Qed.

(** What a write does, from any state that the agent can be in. *)
Lemma write_eq a filepath saveas data t' : ag_meta a = meta \/ ag_meta a = meta' -> ag_files a !! filepath = Some data -> Forall is_byte data -> zlen data < 2 ^ 31 ->
  file_name_ok saveas -> put_recipe (genFileRecipe saveas (file_groups node_num route sha1 rs0 fc saveas data)) (ag_recipes a) = Ok t' ->
  clientWrite (D := disk) sha1 alg 0 node_num route id2Ip file_reads a filepath saveas =
    send_groups id2Ip (file_groups node_num route sha1 rs0 fc saveas data) (Ret (Idle (mk_agent meta' t' (ag_route a) (ag_files a)))).
Proof using Hcs Hcae Hcmin Hca Hcmax Hnodes Hreads.
  intros Hm Hf Hb Hl Hn Hp. unfold clientWrite, replies. rewrite Hf. destruct (file_split (ag_meta a) data saveas (ag_route a) Hm Hb Hl Hn) as (E & _). rewrite E.
  cbn [lift mbind io_mbind io_bind]. assert (Ec : client_start_chunk_phase alg (ag_meta a) = Ok (meta', fc)).
  { apply client_start_destor. destruct Hm as [-> | ->]; [done|]. by apply (start_again alg meta meta' fc Hcae Hca Hcs). }
  rewrite Ec. cbn [lift mbind io_mbind io_bind]. by rewrite Hp.
Qed.

(** ** Who uses which key *)

Definition may (u : use) (p : proc) (a : addr) : Prop :=
  match key_kind a.2, u, p with
  | KOrder, Push, PUser | KOrder, Pop, PAgent => a.1 = localIP
  | KRequest, Push, PAgent | KPacket, Push, PAgent | KFinished, Pop, PAgent | KReply _, Pop, PAgent => True
  | KRequest, Pop, PNode ip | KPacket, Pop, PNode ip | KFinished, Push, PNode ip | KJob, Str, PNode ip => a.1 = ip
  | KReply name, Push, PNode ip => home_map !! name = Some ip
  | _, _, _ => False
  end.

Definition msg (a : addr) (v : list Z) : Prop :=
  match key_kind a.2 with
  | KOrder => exists o, o ∈ orders /\ v = order_bytes o
  | KRequest => exists type name n, v = request_bytes type name n /\ group_name_ok name /\ in_u 32 n /\ home_map !! name = Some a.1 /\ (type = 0 \/ (type = 1 /\ n = localIP))
  | _ => True
  end.

Lemma may_excl u1 u2 p1 p2 a : may u1 p1 a -> may u2 p2 a -> p1 = p2 \/ (u1 = Push /\ u2 = Pop) \/ (u1 = Pop /\ u2 = Push).
Proof using. clear HlocalIP. unfold may. intros H1 H2. destruct (key_kind a.2), u1, p1; try done; destruct u2, p2; try done; subst; try (by left); try (right; by left); try (right; by right); left; congruence. Qed.

(** *** The agent *)

Definition group_known (g : groupMeta) : Prop := exists gp, gp ∈ plan_groups /\ g = mk_group_meta (g_groupName gp) (g_nodeId gp).

Definition recipe_known (fr : fileRecipe) : Prop := Forall group_known (take (Z.to_nat (fr_num fr)) (fr_gm fr)).

Definition agent_ok (a : agent (RS := RS)) : Prop :=
  (ag_meta a = meta \/ ag_meta a = meta') /\
  forall filepath saveas size, OWrite filepath saveas size ∈ orders -> ag_files a !! filepath = files0 !! filepath /\ ready (ag_recipes a) saveas /\
    forall fr, get_recipe saveas (ag_recipes a) = Ok (Some fr) -> recipe_known fr.

Definition agent_fine (s : agent_state) : Prop :=
  match s with
  | Idle a => agent_ok a
  | Receiving a filename saveas w_fp g gm pkt_id => agent_ok a /\ ORead filename saveas ∈ orders /\ Forall group_known (g :: gm) /\ - 2 ^ 31 <= pkt_id < 2 ^ 31
  end.

Definition fine (p : proc) (x : outcome T RS) : Prop :=
  match p, x with PUser, UserDone => True | PAgent, AgentAt s => agent_fine s | PNode _, NodeAt _ => True | _, _ => False end.

Lemma group_known_ok g : group_known g -> group_name_ok (gm_groupName g) /\ home_map !! gm_groupName g = Some (node_ip id2Ip (gm_nodeId g)).
Proof using Hplan Hcs Hcae Hcmin Hca Hcmax Hnodes Hreads.
  intros (gp & Hin & ->). destruct (plan_group_ok gp Hin) as ([Hn _ _] & _). split; [exact Hn|by apply home_of].
Qed.

(** The recipe of a file in the plan. *)
Lemma gen_recipe_ok filepath saveas size data : OWrite filepath saveas size ∈ orders -> files0 !! filepath = Some data ->
  let fr := genFileRecipe saveas (file_groups node_num route sha1 rs0 fc saveas data) in
  recipe_ok fr /\ recipe_known fr /\ take (Z.to_nat (fr_num fr)) (fr_gm fr) = fr_gm fr.
Proof using Hplan Hcs Hcae Hcmin Hca Hcmax Hnodes Hreads.
  intros Hin E fr. destruct (order_write _ _ _ Hin) as ((data' & E' & Hb & Hl & _) & Hn & _). assert (data' = data) as -> by congruence.
  destruct (file_split meta data saveas rs0) as (_ & _ & Hcount & Hall); [by left|done..|]. pose proof (zlen_nonneg (file_groups node_num route sha1 rs0 fc saveas data)).
  assert (Hz : zlen (fr_gm fr) = zlen (file_groups node_num route sha1 rs0 fc saveas data)) by (unfold zlen; cbn; by rewrite length_map).
  assert (Hnum : fr_num fr = zlen (fr_gm fr)) by (rewrite Hz; cbn; apply s32_id; lia).
  assert (Et : take (Z.to_nat (fr_num fr)) (fr_gm fr) = fr_gm fr) by (apply take_ge; rewrite Hnum; unfold zlen; lia). split; [split|split].
  - rewrite Hnum, Hz. by split.
  - destruct Hn as (Hn & _). eapply Forall_impl; [exact Hn|]. by intros ? [].
  - cbn. apply Forall_map. eapply Forall_impl; [exact Hall|]. intros gp [[(Hgn & _) _ _] Hid]. cbn. split; [|lia]. eapply Forall_impl; [exact Hgn|]. by intros ? [].
  - unfold recipe_known. rewrite Et. cbn. apply Forall_map, Forall_forall. intros gp Hgp. exists gp. split; [|done]. apply (in_plan_groups _ _ Hin). cbn [order_groups]. by rewrite E.
  - exact Et.
Qed.

(** A file that is read is one that is written. *)
Lemma reads_written os : forall st, reads_ok st os -> forall filename saveas, ORead filename saveas ∈ os -> is_Some (st.1 !! filename) \/ exists filepath size, OWrite filepath filename size ∈ os.
Proof using.
  induction os as [|o os IH]; intros [names files] Hall filename saveas Hin; [by apply not_elem_of_nil in Hin|]. destruct Hall as [Hr Hrs].
  apply elem_of_cons in Hin as [<-|Hin]; [by left|]. destruct (IH _ Hrs filename saveas Hin) as [Hsome|(fp & sz & Hw)].
  - destruct o as [fp sv sz|fn sv]; cbn [spec_step fst] in Hsome.
    + destruct (decide (sv = filename)) as [->|Hne]; [right; exists fp, sz; by left|]. rewrite lookup_insert_ne in Hsome by done. by left.
    + left. cbn. destruct recipe_lasting; [done|]. destruct Hsome as [x Hx]. apply lookup_delete_Some in Hx as [_ Hx]. by exists x.
  - right. exists fp, sz. by right.
Qed.

Lemma read_written filename saveas : ORead filename saveas ∈ orders -> exists filepath size, OWrite filepath filename size ∈ orders.
Proof using Hplan.
  intros Hin. destruct (reads_written orders _ (po_reads t0 Hplan) filename saveas Hin) as [Hs0|?]; [|done]. cbn in Hs0. rewrite lookup_empty in Hs0. by destruct Hs0.
Qed.

(** The state after a recipe was stored or freed, or a file was written. *)
Lemma agent_ok_put a filepath saveas size data : agent_ok a -> OWrite filepath saveas size ∈ orders -> files0 !! filepath = Some data ->
  let fr := genFileRecipe saveas (file_groups node_num route sha1 rs0 fc saveas data) in
  exists t', put_recipe fr (ag_recipes a) = Ok t' /\ agent_ok (mk_agent meta' t' (ag_route a) (ag_files a)) /\ get_recipe saveas t' = Ok (Some fr) /\
    forall name, recipe_apart saveas name -> get_recipe name t' = get_recipe name (ag_recipes a).
Proof using Hplan Hcs Hcae Hcmin Hca Hcmax Hnodes Hreads.
  intros [_ Ha'] Hin E fr. destruct (gen_recipe_ok _ _ _ _ Hin E) as (Hok & Hkn & _). fold fr in Hok, Hkn. destruct (Ha' _ _ _ Hin) as (_ & Hrd & _).
  destruct (put_recipe_ok (ag_recipes a) fr Hrd Hok) as (t' & Ep & Eg & Hap & Hrd'). exists t'. split; [exact Ep|]. split; [|by split]. split; [by right|].
  intros fp' sv' sz' Hin'. destruct (Ha' _ _ _ Hin') as (Hf' & Hr' & Hg'). destruct (order_write _ _ _ Hin) as (_ & _ & _ & Hapart & _). cbn [ag_files ag_recipes].
  split; [done|]. destruct (Hapart _ _ _ Hin') as [->|Hsv].
  - split; [apply Hrd'; [by left|done]|]. intros fr' Ef. change saveas with (fr_filename fr) in Ef. rewrite Eg in Ef. by injection Ef as <-.
  - split; [apply Hrd'; [by right|done]|]. by rewrite Hap.
Qed.

Lemma agent_ok_read a filename saveas data : agent_ok a -> ORead filename saveas ∈ orders ->
  agent_ok (mk_agent (ag_meta a) (free_recipe filename (ag_recipes a)) (ag_route a) (<[saveas := data]> (ag_files a))).
Proof using Hplan.
  intros [Hm Ha'] Hin. split; [done|]. intros fp sv sz Hin'. destruct (Ha' _ _ _ Hin') as (Hf' & Hr' & Hg'). destruct (order_write _ _ _ Hin') as (_ & _ & _ & _ & Hfr). cbn [ag_files ag_recipes].
  rewrite lookup_insert_ne by by eapply Hfr. split; [done|]. split; [by apply free_recipe_ready|]. intros fr Eg. apply Hg'.
  destruct (decide (sv = filename)) as [->|Hne].
  - destruct (free_recipe_gone (ag_recipes a) filename) as [E|[e E]]; congruence.
  - rewrite free_recipe_ok in Eg by by left. done.
Qed.

Lemma agent_ok_open a filename saveas : agent_ok a -> ORead filename saveas ∈ orders -> agent_ok (mk_agent (ag_meta a) (ag_recipes a) (ag_route a) (<[saveas := []]> (ag_files a))).
Proof using Hplan.
  intros [Hm Ha'] Hin. split; [done|]. intros fp sv sz Hin'. destruct (Ha' _ _ _ Hin') as (Hf' & Hr' & Hg'). destruct (order_write _ _ _ Hin') as (_ & _ & _ & _ & Hfr). cbn [ag_files ag_recipes].
  rewrite lookup_insert_ne by by eapply Hfr. done.
Qed.

(** *** What the processes do with the keys *)

Lemma kind_request : key_kind (lit "destor_request") = KRequest.
Proof using. done. Qed.

Lemma kind_order : key_kind (lit "dup_agent_request") = KOrder.
Proof using. done. Qed.

Lemma typed_send_all {A} (fin : proc -> A -> Prop) p ip cmds (k : io disk disk) (g : disk -> io disk A) :
  Forall (fun c => may Push p (ip, c.1) /\ msg (ip, c.1) c.2) cmds -> typed may msg (fun _ _ => True) p k -> typed may msg (fun _ _ => True) p (send_all ip cmds k).
Proof using. intros Hc Hk. induction Hc as [|[key v] cmds [H1 H2] _ IH]; [exact Hk|]. by split_and!. Qed.

Lemma typed_read_packets ip name keys : Forall (fun key => exists k, key = packet_key name k /\ 0 <= k < 2 ^ 63) keys -> slash ∈ name ->
  typed may msg (fun _ _ => True) (PNode ip) (read_packets ip keys).
Proof using.
  intros Hk Hsl. induction Hk as [|key keys (k & -> & Hk) _ IH]; [done|]. cbn [read_packets typed]. split.
  - unfold may. cbn [snd fst]. by rewrite kind_packet.
  - intros v _. apply typed_lift. intros c _. eapply typed_bind; [exact IH|]. done.
Qed.

Lemma packets_few n : in_u 32 n -> 0 <= packet_count n < 2 ^ 32.
Proof using.
  unfold in_u. intros Hn. unfold packet_count. pose proof (Z.div_pos n DEFAULT_BLOCK_SIZE ltac:(lia) ltac:(done)).
  assert (n / DEFAULT_BLOCK_SIZE < 2 ^ 31) by (apply Z.div_lt_upper_bound; [done|]; unfold DEFAULT_BLOCK_SIZE; lia). destruct (_ =? 0); lia.
Qed.

Lemma node_write_typed ip d name n : group_name_ok name -> in_u 32 n -> typed may msg (fun _ _ => True) (PNode ip)
  (destor_write cfg fcfg SIMULATION_NO wait_threshold restore_cache_size sha1 chunk_algorithm ccfg scfg ip d name n).
Proof using All.
  intros (Hn & Hsl & Hl) Hu. unfold destor_write. eapply (typed_bind _ _ (fun _ _ => True)).
  - unfold read_data. apply typed_lift. intros c _. cbv zeta. change (n / DEFAULT_BLOCK_SIZE + _) with (packet_count n). pose proof (packets_few n Hu).
    apply typed_lift. intros keys Ek. eapply (typed_bind _ _ (fun _ _ => True)); [|done].
    apply (typed_read_packets ip name); [|done]. eapply data_keys_packets; [|exact Ek]. apply Forall_forall. intros k Hk. apply elem_of_seqZ in Hk. lia.
  - intros q _. apply typed_lift. intros todo _. cbn [typed]. intros d' _. apply typed_lift. intros _ _. cbn [typed]. split; [|split].
    + unfold may. cbn [snd fst]. by rewrite kind_finished.
    + unfold msg. cbn [snd]. by rewrite kind_finished.
    + apply typed_lift. intros _ _. cbn [typed]. split; [|done]. unfold may. cbn [snd fst]. by rewrite kind_job.
Qed.

Lemma node_read_typed ip d name : group_name_ok name -> home_map !! name = Some ip -> typed may msg (fun _ _ => True) (PNode ip)
  (destor_read SIMULATION_NO restore_cache_0 restore_cache_1 window stack ip d localIP name).
Proof using All.
  intros (Hn & Hsl & Hl) Hh. unfold destor_read. apply typed_lift. intros _ _. cbn [typed]. split.
  - unfold may. cbn [snd fst]. by rewrite kind_job.
  - intros [v|]; [|done]. apply typed_lift. intros bs _. cbv zeta. apply typed_lift. intros st _. apply typed_lift. intros [cmds stat] E.
    apply (typed_send_all (fun _ _ => True) _ _ _ _ (fun d => Ret d)).
    + apply Forall_forall. intros c Hc. destruct (do_restore_keys _ _ _ _ _ _ _ _ _ _ _ _ E c Hc) as (k & Hk & ->). unfold may, msg. cbn [snd fst].
      by rewrite kind_reply by (done || lia).
    + apply typed_lift. done.
Qed.

Lemma node_typed ip d : typed may msg fine (PNode ip) (node_proc ip d).
Proof using All.
  unfold node_proc. eapply (typed_bind _ _ (fun _ _ => True)); [|done]. unfold destor_server_process. cbn [typed]. split; [done|].
  intros v Hv. unfold msg in Hv. cbn [snd fst] in Hv. rewrite kind_request in Hv. destruct Hv as (type & name & n & -> & Hn & Hu & Hh & Ht).
  rewrite resolve_request; [|by apply name_text|done|naive_solver]. cbn [lift mbind io_mbind io_bind]. destruct Ht as [-> |[-> ->]].
  - by apply node_write_typed.
  - by apply node_read_typed.
Qed.

Lemma send_groups_typed gps (k : io disk (@agent_state RS T)) : Forall (fun gp => gp ∈ plan_groups) gps ->
  typed may msg (fun _ s => agent_fine s) PAgent k -> typed may msg (fun _ s => agent_fine s) PAgent (send_groups id2Ip gps k).
Proof using All.
  intros Hg Hk. induction Hg as [|gp gps Hin _ IH]; [exact Hk|]. cbn [send_groups]. destruct (plan_group_ok gp Hin) as (Hs' & _). rewrite send_group_eq by done.
  destruct Hs' as [Hn [Hz Hsz] Hb]. pose proof Hn as (_ & Hsl & _). apply typed_push_all.
  - constructor; cbn [fst snd].
    + split; [done|]. exists 0, (g_groupName gp), (zlen (g_data gp)). split_and!; [done|done|unfold in_u; lia|by apply home_of|by left].
    + apply Forall_forall. intros [a v] Hav. assert (Ha' : a ∈ (packet_cmds (node_ip id2Ip (g_nodeId gp)) (g_groupName gp) 0 (group_blocks (g_data gp))).*1) by by apply (list_elem_of_fmap_2 fst _ (a, v)).
      apply packet_cmds_keys in Ha' as (i & Hi & ->). destruct (group_blocks_ok (g_data gp) Hb) as (_ & _ & Hc & _). pose proof (packets_few (zlen (g_data gp)) ltac:(unfold in_u; lia)).
      unfold may, msg. cbn [fst snd]. by rewrite kind_packet by (done || lia).
  - cbn [typed]. split; [|done]. unfold may. cbn [snd fst]. by rewrite kind_finished.
Qed.

Lemma next_group_typed a filename saveas w_fp gm : agent_ok a -> ORead filename saveas ∈ orders -> Forall group_known gm ->
  typed may msg (fun _ s => agent_fine s) PAgent (next_group (D := disk) localIP id2Ip a filename saveas w_fp gm).
Proof using All.
  intros Hok Hin Hg. destruct Hg as [|g gm Hg Hgm].
  - unfold next_group. apply typed_lift. intros data _. cbn [typed agent_fine]. by apply agent_ok_read.
  - destruct (group_known_ok g Hg) as [Hn Hh]. rewrite next_group_eq; [|by apply name_text|by apply Hn]. cbn [push_all typed]. split; [done|]. split.
    + exists 1, (gm_groupName g), localIP. split_and!; [done..|by right].
    + split; [done|]. split; [done|]. split; [by constructor|done].
Qed.

Lemma worker_typed s : agent_fine s -> typed may msg (fun _ s => agent_fine s) PAgent (worker s).
Proof using All.
  intros Hf. destruct s as [a|a filename saveas w_fp g gm pkt_id]; cbn [agent_process typed].
  - split; [done|]. intros v (o & Ho & ->). pose proof (po_orders t0 Hplan) as Hall. rewrite Forall_forall in Hall. destruct (Hall o Ho) as [[Hto _] Hg].
    destruct o as [fp sv sz|fn sv]; cbn [order_bytes] in *.
    + destruct Hto as (H1 & H2 & H3). rewrite parse_write by done. cbn [lift mbind io_mbind io_bind]. destruct Hg as ((data & E & Hb & Hl & _) & Hn & _).
      destruct Hf as [Hm Hf]. destruct (Hf _ _ _ Ho) as (Ef & _). destruct (agent_ok_put a fp sv sz data (conj Hm Hf) Ho E) as (t' & Ep & Hok' & _).
      rewrite (write_eq a fp sv data t') by (done || congruence). apply send_groups_typed; [|done]. apply Forall_forall. intros gp Hgp. apply (in_plan_groups _ _ Ho). cbn [order_groups]. by rewrite E.
    + destruct Hto as (H1 & H2). rewrite parse_read by done. cbn [lift mbind io_mbind io_bind]. unfold clientRead. apply typed_lift. intros [fr|] Er; [|done].
      cbv zeta. cbn [order_good] in Hg. rewrite Hg. apply next_group_typed; [by eapply agent_ok_open|done|]. destruct (read_written fn sv Ho) as (fp & sz & Hw).
      destruct Hf as [_ Hf]. destruct (Hf _ _ _ Hw) as (_ & _ & Hk). by apply Hk.
  - destruct Hf as (Hok & Hin & Hg & Hid). apply Forall_cons in Hg as [Hg Hgm]. destruct (group_known_ok g Hg) as [(_ & Hsl & _) _]. split.
    + unfold may. cbn [snd fst]. by rewrite kind_reply by (done || lia).
    + intros v _. apply typed_lift. intros [w|] _; [|by apply next_group_typed]. cbn [typed agent_fine]. split_and!; [done|done|by constructor|..]; apply (swrap_range 32); lia.
Qed.

Lemma agent_typed s : agent_fine s -> typed may msg fine PAgent (agent_proc s).
Proof using All.
  intros Hf. unfold agent_proc. eapply typed_bind; [by apply worker_typed|]. done.
Qed.

Lemma user_typed os : (forall o, o ∈ os -> o ∈ orders) -> typed may msg fine PUser (user_process localIP os (Ret UserDone) : process).
Proof using All.
  induction os as [|o os IH]; intros Hin; [done|]. cbn [user_process]. assert (Ho : o ∈ orders) by (apply Hin; by left).
  pose proof (po_orders t0 Hplan) as Hall. rewrite Forall_forall in Hall. destruct (Hall o Ho) as [Hok _]. destruct (build_order_ok o Hok) as (cmd & -> & Em).
  cbn [lift mbind io_mbind io_bind typed]. rewrite Em. split; [done|]. split; [by exists o|]. apply IH. intros o' Ho'. apply Hin. by right.
Qed.

Lemma spawn_typed p x t : fine p x -> spawn p x = Some t -> typed may msg fine p t.
Proof using All.
  destruct p as [| |ip], x as [|s|d]; try done; intros Hf [= <-]; [by apply agent_typed|apply node_typed].
Qed.

(** ** One schedule *)

#[local] Abbreviation net := (net (R := R) (P := proc) (D := disk) (A := outcome T RS)).
#[local] Abbreviation scheduled := (scheduled (R := R) (D := disk) spawn).
#[local] Abbreviation returns := (fun s : @agent_state RS T => Ret (D := disk) (AgentAt (RS := RS) s)).

(** Between two steps of the agent: the groups [G] are stored, and the nodes wait.
    The key of a stored group holds the number of its job. *)
Definition job_known (r : R) (G : list group) (ip : Z) (n : nat) (j : job) : Prop :=
  exists gp, gp ∈ G /\ j.1 = g_groupName gp /\ Backup.chunks_of j.2 = backup_file sha1 f (g_groupName gp) (g_data gp) /\
    content r !! (ip, job_id_key (g_groupName gp)) = Some (RStr (job_id_value (Z.of_nat n))).

Record nodes_ok (G : list group) (s : net) : Prop := {
  no_node ip : ip ∈ ips -> exists h d, procs s !! PNode ip = Some (node_proc ip d) /\ past h d /\ map fst h = names_on ip G /\
    forall n j, h !! n = Some j -> job_known (store s) G ip n j;
  no_quiet a : key_kind a.2 <> KOrder -> key_kind a.2 <> KJob -> content (store s) !! a = None;
  no_only ip t : procs s !! PNode ip = Some t -> ip ∈ ips;
}.

Lemma nodes_ok_agent G s t : nodes_ok G s -> nodes_ok G (mk_net (store s) (<[PAgent := t]> (procs s))).
Proof using All.
  intros [H1 H2 H3]. split; cbn [procs store].
  - intros ip Hip. by rewrite lookup_insert_ne by done; apply H1.
  - done.
  - intros ip u. rewrite lookup_insert_ne by done. apply H3.
Qed.

Lemma names_on_app ip G gp : names_on ip (G ++ [gp]) = names_on ip G ++ if decide (node_ip id2Ip (g_nodeId gp) = ip) then [g_groupName gp] else [].
Proof using All.
  unfold names_on. rewrite filter_app, map_app. f_equal. destruct (decide _) as [E|E]; [by rewrite filter_cons_True|by rewrite filter_cons_False].
Qed.

(** A node runs a request and is started again. *)
Lemma scheduled_node Q ip d (C : disk -> R -> Prop) s : procs s !! PNode ip = Some (node_proc ip d) -> runs (server ip d) (store s) C ->
  (forall d' r', C d' r' -> scheduled Q (mk_net r' (<[PNode ip := node_proc ip d']> (procs s)))) -> scheduled Q s.
Proof using All.
  intros Ep Hr Hs'. eapply (scheduled_run spawn Q); [exact Ep|]. apply runs_bind. eapply runs_mono; [|exact Hr]. intros d' r' Hc. cbn [runs].
  eapply (scheduled_spawn spawn Q); cbn [procs]; [apply lookup_insert_eq|done|]. cbn [store]. rewrite insert_insert_eq. by apply Hs'.
Qed.

(** *** A group is stored *)

Lemma node_of gp : gp ∈ plan_groups -> node_ip id2Ip (g_nodeId gp) ∈ ips.
Proof using All. intros Hin. destruct (plan_group_ok gp Hin) as (_ & Hid & _). by apply Hips. Qed.

Lemma group_storable gp : gp ∈ plan_groups -> storable bytes_of sha1 f (g_groupName gp) (group_blocks (g_data gp)).
Proof using All.
  intros Hin. destruct (plan_group_ok gp Hin) as ([Hn [Hz Hsz] Hb] & _ & Hk). destruct (group_blocks_ok (g_data gp) Hb) as (E & Hsb & Hc & Hne). split.
  - done.
  - done.
  - apply Hne. intros E0. rewrite E0 in Hz. change (zlen (@nil Z)) with 0 in Hz. lia.
  - by rewrite Hc, E.
  - rewrite E. pose proof (po_packets t0 Hplan) as Hp. rewrite Forall_forall in Hp. by apply Hp.
  - by rewrite E.
Qed.

Lemma node_quiet G s ip name : nodes_ok G s -> slash ∈ name ->
  content (store s) !! request_addr ip = None /\ (forall i, 0 <= i < 2 ^ 63 -> content (store s) !! (ip, packet_key name i) = None) /\
  content (store s) !! (ip, finished_key name) = None.
Proof using All.
  intros [_ Hq _] Hsl. split_and!; [by apply Hq|intros i Hi|]; apply Hq; cbn [snd]; rewrite ?kind_packet, ?kind_finished by done; done.
Qed.

(** The key of the job does not belong to an older group. *)
Lemma job_known_kept r r' G ip n j : (forall gp, gp ∈ G -> content r' !! (ip, job_id_key (g_groupName gp)) = content r !! (ip, job_id_key (g_groupName gp))) ->
  job_known r G ip n j -> forall G', (forall gp, gp ∈ G -> gp ∈ G') -> job_known r' G' ip n j.
Proof using All. intros Hr (gp & Hin & E & Hc & Hv) G' HG. exists gp. rewrite Hr by done. split_and!; [by apply HG|done..]. Qed.

Lemma in_plan G gp rest : plan_groups = G ++ gp :: rest -> gp ∈ plan_groups.
Proof using. intros ->. apply elem_of_app. right. by left. Qed.

Lemma group_new G gp rest gp' : plan_groups = G ++ gp :: rest -> gp' ∈ G -> g_groupName gp' <> g_groupName gp.
Proof using All.
  intros Ep Hin E. pose proof (po_names t0 Hplan) as Hn. rewrite Ep, map_app in Hn. apply NoDup_app in Hn as (_ & Hn & _). apply (Hn (g_groupName gp')).
  - by apply (list_elem_of_fmap_2 g_groupName).
  - rewrite E. by left.
Qed.

(** What storing a group leaves: its job is the next of its node. *)
Lemma nodes_ok_stored G gp rest s h d todo d' t : nodes_ok G s -> plan_groups = G ++ gp :: rest -> let ip := node_ip id2Ip (g_nodeId gp) in
  past h d -> map fst h = names_on ip G -> (forall n j, h !! n = Some j -> job_known (store s) G ip n j) ->
  Backup.chunks_of todo = backup_file sha1 f (g_groupName gp) (g_data gp) -> past (h ++ [(g_groupName gp, todo)]) d' ->
  nodes_ok (G ++ [gp]) (mk_net (set_key (ip, job_id_key (g_groupName gp)) (job_id_value (zlen h)) (store s)) (<[PAgent := t]> (<[PNode ip := node_proc ip d']> (procs s)))).
Proof using All.
  intros [Hnode Hq Hon] Ep ip Hh Hnames Hjobs Hc Hh'. assert (Hin : gp ∈ plan_groups) by by eapply in_plan.
  destruct (plan_group_ok gp Hin) as ([(_ & Hsl & _) _ _] & _). assert (Hkeep : forall ip' gp', gp' ∈ G ->
    content (set_key (ip, job_id_key (g_groupName gp)) (job_id_value (zlen h)) (store s)) !! (ip', job_id_key (g_groupName gp')) = content (store s) !! (ip', job_id_key (g_groupName gp'))).
  { intros ip' gp' Hin'. apply content_set_ne. intros E. injection E as _ E. apply job_id_key_inj in E. by eapply group_new. }
  split; cbn [procs store].
  - intros ip' Hip'. rewrite lookup_insert_ne by done. rewrite names_on_app. fold ip. destruct (decide (ip = ip')) as [<-|Hne].
    + rewrite lookup_insert_eq. exists (h ++ [(g_groupName gp, todo)]), d'. split_and!; [done|done|rewrite map_app; by f_equal|]. intros n j Hn. apply lookup_app_Some in Hn as [Hn|[Hn1 Hn]].
      * eapply job_known_kept; [by apply Hkeep|by apply Hjobs|]. intros; apply elem_of_app; by left.
      * apply list_lookup_singleton_Some in Hn as [Hn <-]. exists gp. cbn [fst snd]. split_and!; [apply elem_of_app; right; by left|done|done|]. replace (Z.of_nat n) with (zlen h) by (unfold zlen; lia).
        rewrite content_set. apply lookup_insert_eq.
    + rewrite lookup_insert_ne by congruence. rewrite app_nil_r. destruct (Hnode ip' Hip') as (h1 & d1 & E1 & E2 & E3 & E4). exists h1, d1. split_and!; [done..|]. intros n j Hn.
      eapply job_known_kept; [by apply Hkeep|by apply E4|]. intros; apply elem_of_app; by left.
  - intros a H1 H2. rewrite content_set_ne; [by apply Hq|]. intros <-. apply H2. cbn [snd]. by apply kind_job.
  - intros ip' u. rewrite lookup_insert_ne by done. rewrite lookup_insert_Some. intros [[[= <-] _]|[_ Hu]]; [by apply node_of|by eapply Hon].
Qed.

(** The state outside of the nodes that storing leaves as it is. *)
Definition same_user (s s' : net) : Prop :=
  procs s' !! PUser = procs s !! PUser /\ content (store s') !! (localIP, lit "dup_agent_request") = content (store s) !! (localIP, lit "dup_agent_request").

Lemma write_group Q G gp rest k s : nodes_ok G s -> plan_groups = G ++ gp :: rest -> procs s !! PAgent = Some (send_group id2Ip gp k ≫= returns) ->
  (forall s', nodes_ok (G ++ [gp]) s' -> procs s' !! PAgent = Some (k ≫= returns) -> same_user s s' -> scheduled Q s') -> scheduled Q s.
Proof using All.
  intros Hok Ep Ea Hk. assert (Hin : gp ∈ plan_groups) by by eapply in_plan. pose proof (group_storable gp Hin) as Hst. destruct (plan_group_ok gp Hin) as (Hsend & _).
  rewrite send_group_eq, push_all_bind in Ea by done. set (ip := node_ip id2Ip (g_nodeId gp)) in *. set (name := g_groupName gp) in *.
  destruct (no_node G s Hok ip (node_of gp Hin)) as (h & d & Ed & Hh & Hnames & Hjobs).
  assert (Hsl : slash ∈ name) by apply (so_name _ _ _ _ _ Hst). destruct (node_quiet G s ip name Hok Hsl) as (Hq1 & Hq2 & Hq3).
  destruct (po_room t0 Hplan ip h d gp (names_on ip rest) Hh) as (Hlt & Hdump & Hfit); [|done|].
  { unfold names_on. rewrite Ep, filter_app, map_app, filter_cons_True by done. rewrite Hnames. done. }
  destruct (group_blocks_ok (g_data gp) (se_bytes gp Hsend)) as (Ec & _).
  eapply (scheduled_pushes spawn Q); [exact Ea|]. set (s1 := mk_net _ _). assert (Es1 : store s1 = pushes (packet_cmds ip name 0 (group_blocks (g_data gp))) (rpush (request_addr ip) (request_bytes 0 name (zlen (concat (group_blocks (g_data gp))))) (store s))) by by rewrite Ec.
  eapply (scheduled_node Q ip d); [cbn [procs s1]; by rewrite lookup_insert_ne|rewrite Es1; by apply (node_stores cfg fcfg wait_threshold restore_cache_size CO Hvl bytes_of sha1 Hsha1 chunk_algorithm ccfg scfg ccfg' f Hs Hae Hmin Ha Hseg restore_cache_0 restore_cache_1 window stack Hkind Hcache Hwindow Hgo ip h)|].
  intros d' r' (-> & todo & Hc & Hh'). rewrite Ec in Hc.
  assert (Hne : (ip, finished_key name) <> (ip, job_id_key name)) by (intros E; injection E as E; apply (f_equal key_kind) in E; by rewrite kind_finished, kind_job in E).
  rewrite <- rpush_set by done. eapply (scheduled_pop spawn Q PAgent); cbn [procs store s1].
  - rewrite lookup_insert_ne by done. apply lookup_insert_eq.
  - apply blpop_rpush. by rewrite content_set_ne.
  - apply Hk; cbn [procs].
    + rewrite insert_insert_ne by done. rewrite insert_insert_eq. rewrite insert_insert_ne by done. by eapply nodes_ok_stored.
    + apply lookup_insert_eq.
    + split; cbn [procs store]; [by rewrite !lookup_insert_ne|]. apply content_set_ne. intros E. injection E as _ E. apply (f_equal key_kind) in E. by rewrite kind_job in E.
Qed.

Lemma write_groups Q k gps : forall G rest s, nodes_ok G s -> plan_groups = G ++ gps ++ rest -> procs s !! PAgent = Some (send_groups id2Ip gps k ≫= returns) ->
  (forall s', nodes_ok (G ++ gps) s' -> procs s' !! PAgent = Some (k ≫= returns) -> same_user s s' -> scheduled Q s') -> scheduled Q s.
Proof using All.
  induction gps as [|gp gps IH]; intros G rest s Hok Ep Ea Hk.
  - apply Hk; [by rewrite app_nil_r|done|done].
  - eapply write_group; [exact Hok|exact Ep|exact Ea|]. intros s1 Hok1 Ea1 Hu. eapply (IH (G ++ [gp]) rest); [exact Hok1|by rewrite Ep, <- app_assoc|exact Ea1|].
    intros s2 Hok2 Ea2 Hu2. apply Hk; [by rewrite <- app_assoc in Hok2|done|]. destruct Hu, Hu2. split; congruence.
Qed.

(** *** A group is sent back *)

Lemma receive_blocks Q a filename saveas g gm blocks : forall k w r s, let name := gm_groupName g in
  procs s !! PAgent = Some (Ret (AgentAt (Receiving a filename saveas (Some w) g gm k))) -> slash ∈ name ->
  store s = pushes (map (fun p => ((localIP, p.1), p.2)) (packets name k (blocks ++ [[]]))) r ->
  (forall i, 0 <= i < 2 ^ 31 -> content r !! (localIP, name ++ 58 :: print_int i) = None) -> 0 <= k -> k + zlen blocks < 2 ^ 31 - 1 -> Forall (fun b => 0 < zlen b < 2 ^ 31) blocks ->
  scheduled Q (mk_net r (<[PAgent := next_group localIP id2Ip a filename saveas (Some (w ++ concat blocks)) gm ≫= returns]> (procs s))) -> scheduled Q s.
Proof using All.
  intros k w r s name. revert k w s.
  assert (Hkeys : forall l k i, 0 <= i < k -> k + zlen l < 2 ^ 62 -> (localIP, name ++ 58 :: print_int i) ∉ (map (fun p => ((localIP, p.1), p.2)) (packets name k l)).*1).
  { induction l as [|b l IH]; intros k i Hi Hk Hin; [by apply not_elem_of_nil in Hin|]. rewrite zlen_cons in Hk. pose proof (zlen_nonneg l).
    cbn [packets packet map fmap list_fmap fst snd] in Hin. apply elem_of_cons in Hin as [E|Hin]; [|by eapply (IH (k + 1) i); [lia|lia|exact Hin]].
    injection E as E. apply app_inv_head in E. injection E as E. apply print_int_inj in E; lia. }
  assert (Hone : forall k w s bs l, procs s !! PAgent = Some (Ret (AgentAt (Receiving a filename saveas (Some w) g gm k))) -> 
    store s = pushes (map (fun p => ((localIP, p.1), p.2)) (packets name k (bs :: l))) r -> (forall i, 0 <= i < 2 ^ 31 -> content r !! (localIP, name ++ 58 :: print_int i) = None) ->
    0 <= k -> k + zlen l < 2 ^ 31 - 1 -> zlen bs < 2 ^ 31 ->
    scheduled Q (mk_net (pushes (map (fun p => ((localIP, p.1), p.2)) (packets name (k + 1) l)) r) (<[PAgent := (if zlen bs =? 0 then next_group localIP id2Ip a filename saveas (Some w) gm
      else Ret (Receiving a filename saveas (Some (w ++ bs)) g gm (k + 1))) ≫= returns]> (procs s))) -> scheduled Q s).
  { intros k w s bs l Ea Es Hr Hk Hkl Hbs Hn. pose proof (zlen_nonneg l). eapply (scheduled_spawn spawn Q); [exact Ea|done|].
    eapply (scheduled_pop spawn Q PAgent); cbn [procs store]; [apply lookup_insert_eq| |].
    - rewrite Es. cbn [packets packet map fst snd]. apply blpop_pushes; [|apply Hr; lia]. apply Hkeys; lia.
    - rewrite insert_insert_eq. rewrite receive_packet_ok by done. rewrite s32_id by lia. destruct (zlen bs =? 0); exact Hn. }
  induction blocks as [|b blocks IH]; intros k w s Ea Hsl Es Hr Hk Hkl Hall Hn.
  - eapply Hone; [exact Ea|exact Es|exact Hr|done|done|done|]. change (zlen [] =? 0) with true. cbn [packets map pushes foldl]. by rewrite app_nil_r in Hn.
  - apply Forall_cons in Hall as [Hb Hall]. rewrite zlen_cons in Hkl. pose proof (zlen_nonneg blocks). eapply (Hone k w s b (blocks ++ [[]])); [exact Ea|exact Es|exact Hr|done| |lia|].
    { rewrite zlen_app. change (zlen [[]]) with 1. lia. }
    destruct (Z.eqb_spec (zlen b) 0); [lia|]. eapply IH; cbn [procs store]; [apply lookup_insert_eq|done|done|done|lia|lia|done|]. rewrite insert_insert_eq. cbn [concat] in Hn. by rewrite <- app_assoc.
Qed.

(** The job of a stored group. *)
Lemma group_job G rest s gp : nodes_ok G s -> plan_groups = G ++ rest -> gp ∈ G -> let ip := node_ip id2Ip (g_nodeId gp) in
  exists h d n todo, procs s !! PNode ip = Some (node_proc ip d) /\ past h d /\ h !! n = Some (g_groupName gp, todo) /\
    Backup.chunks_of todo = backup_file sha1 f (g_groupName gp) (g_data gp) /\ content (store s) !! (ip, job_id_key (g_groupName gp)) = Some (RStr (job_id_value (Z.of_nat n))).
Proof using All.
  intros Hok Ep Hin ip. assert (Hpl : forall gp, gp ∈ G -> gp ∈ plan_groups) by (intros gp' ?; rewrite Ep; apply elem_of_app; by left).
  destruct (no_node G s Hok ip (node_of gp (Hpl gp Hin))) as (h & d & Ed & Hh & Hnames & Hjobs).
  assert (Hname : g_groupName gp ∈ map fst h).
  { rewrite Hnames. unfold names_on. apply (list_elem_of_fmap_2 g_groupName). apply list_elem_of_filter. by split. }
  apply list_elem_of_lookup in Hname as [n Hn]. apply list_lookup_fmap_Some in Hn as ([name todo] & E & Hn). cbn [fst] in E. subst name.
  exists h, d, n, todo. destruct (Hjobs n _ Hn) as (gp' & Hin' & E & Hc & Hv). cbn [fst snd] in *.
  assert (gp = gp') as <- by (apply same_group; [by apply Hpl|by apply Hpl|done]). by split_and!.
Qed.

Definition meta_of (gp : group) : groupMeta := mk_group_meta (g_groupName gp) (g_nodeId gp).

Lemma read_group Q G rest gp gm a filename saveas w s : nodes_ok G s -> plan_groups = G ++ rest -> gp ∈ G ->
  procs s !! PAgent = Some (next_group localIP id2Ip a filename saveas (Some w) (meta_of gp :: gm) ≫= returns) ->
  (forall s', nodes_ok G s' -> procs s' !! PAgent = Some (next_group localIP id2Ip a filename saveas (Some (w ++ g_data gp)) gm ≫= returns) -> same_user s s' -> scheduled Q s') -> scheduled Q s.
Proof using All.
  intros Hok Ep Hin Ea Hk. assert (Hpl : gp ∈ plan_groups) by (rewrite Ep; apply elem_of_app; by left).
  destruct (group_job G rest s gp Hok Ep Hin) as (h & d & n & todo & Ed & Hh & Hn & Hc & Hv). set (ip := node_ip id2Ip (g_nodeId gp)) in *.
  destruct (plan_group_ok gp Hpl) as ([Hname [Hz Hsz] Hb] & _). assert (Hsl : slash ∈ g_groupName gp) by apply Hname. destruct (node_quiet G s ip _ Hok Hsl) as (Hq1 & _ & _).
  rewrite next_group_eq, push_all_bind in Ea; [|by apply name_text|by apply Hname]. cbn [meta_of gm_groupName gm_nodeId] in Ea. fold ip in Ea.
  eapply (scheduled_pushes spawn Q); [exact Ea|]. cbn [pushes foldl fst snd].
  eapply (scheduled_node Q ip d); cbn [procs store]; [by rewrite lookup_insert_ne|by apply (node_restores cfg fcfg wait_threshold restore_cache_size CO Hvl bytes_of sha1 Hsha1 chunk_algorithm ccfg scfg ccfg' f Hs Hae Hmin Ha Hseg restore_cache_0 restore_cache_1 window stack Hkind Hcache Hwindow Hgo ip h d n (g_groupName gp) (g_data gp) todo)|].
  intros d' r' [-> ->]. destruct (start_chunk_phase_chunker _ _ _ _ Hs Hae Hmin Ha) as [HCk Hmax]. destruct (chunks_of_spec f (chunk_max_size ccfg') (g_data gp) Hb) as [Hcat Hall].
  eapply (receive_blocks Q a filename saveas (meta_of gp) gm (ChunkPhase.chunks_of f (g_data gp)) 0 w (store s)); cbn [procs store].
  - rewrite lookup_insert_ne by done. apply lookup_insert_eq.
  - done.
  - done.
  - intros i Hi. apply (no_quiet G s Hok); cbn [snd meta_of gm_groupName]; rewrite kind_reply by (done || lia); done.
  - done.
  - destruct (chunks_positive chunk_algorithm ccfg ccfg' f Hs Hae Hmin Ha (g_data gp) Hb) as [Hlen _]. lia.
  - eapply Forall_impl; [exact Hall|]. cbv beta. intros b ?. unfold CONTAINER_SIZE, CONTAINER_META_SIZE in *. lia.
  - rewrite Hcat. apply Hk; cbn [procs].
    + rewrite insert_insert_ne by done. rewrite insert_insert_eq. rewrite insert_id by (by rewrite lookup_insert_ne). by apply nodes_ok_agent.
    + apply lookup_insert_eq.
    + split; cbn [procs store]; [by rewrite !lookup_insert_ne|done].
Qed.

Lemma read_groups Q G rest a filename saveas gps : forall w s, nodes_ok G s -> plan_groups = G ++ rest -> Forall (fun gp => gp ∈ G) gps ->
  procs s !! PAgent = Some (next_group localIP id2Ip a filename saveas (Some w) (map meta_of gps) ≫= returns) ->
  (forall s', nodes_ok G s' -> procs s' !! PAgent = Some (next_group localIP id2Ip a filename saveas (Some (w ++ concat (map g_data gps))) [] ≫= returns) -> same_user s s' -> scheduled Q s') -> scheduled Q s.
Proof using All.
  induction gps as [|gp gps IH]; intros w s Hok Ep Hin Ea Hk.
  - apply Hk; [done|by rewrite app_nil_r|done].
  - apply Forall_cons in Hin as [Hgp Hin]. eapply (read_group Q G rest gp (map meta_of gps)); [done..|exact Ea|]. intros s1 Hok1 Ea1 Hu1.
    apply (IH (w ++ g_data gp) s1); [done..|]. intros s2 Hok2 Ea2 Hu2. apply Hk; [done| |].
    + by rewrite <- app_assoc in Ea2.
    + destruct Hu1, Hu2. split; congruence.
Qed.

(** *** An order is carried out *)

Definition order_addr : addr := (localIP, lit "dup_agent_request").

Definition order_process (a : agent) (o : order) : io disk (@agent_state RS T) :=
  match o with
  | OWrite filepath saveas _ => clientWrite sha1 alg 0 node_num route id2Ip file_reads a filepath saveas
  | ORead filename saveas => clientRead localIP id2Ip can_open a filename saveas
  end.

Lemma nodes_ok_store G s r' : nodes_ok G s -> (forall b, b <> order_addr -> content r' !! b = content (store s) !! b) -> nodes_ok G (mk_net r' (procs s)).
Proof using All.
  intros [H1 H2 H3] Hr. split; cbn [procs store].
  - intros ip Hip. destruct (H1 ip Hip) as (h & d & E1 & E2 & E3 & E4). exists h, d. split_and!; [done..|]. intros n j Hn.
    destruct (E4 n j Hn) as (gp & Hg & Ej & Hc & Hv). exists gp. split_and!; [done..|]. rewrite Hr; [done|]. intros E. injection E as -> E. apply (f_equal (@rev Z)) in E.
    unfold job_id_key in E. by rewrite rev_app_distr in E.
  - intros a Ha1 Ha2. rewrite Hr; [by apply H2|]. intros ->. by apply Ha1.
  - done.
Qed.

Lemma take_order Q G s a o os : o ∈ orders -> nodes_ok G s -> procs s !! PAgent = Some (agent_proc (Idle a)) -> content (store s) !! order_addr = popped_value (map order_bytes (o :: os)) ->
  (forall r', let s' := mk_net r' (<[PAgent := order_process a o ≫= returns]> (procs s)) in nodes_ok G s' -> content r' !! order_addr = popped_value (map order_bytes os) -> scheduled Q s') -> scheduled Q s.
Proof using All.
  intros Ho Hok Ea Ec Hk. pose proof (po_orders t0 Hplan) as Hall. rewrite Forall_forall in Hall. destruct (Hall o Ho) as [[Hto _] _].
  pose proof (blpop_reply order_addr (store s)) as Hb. unfold addr in *. rewrite Ec in Hb. cbn [map popped_value] in Hb. destruct Hb as (r' & Eb & Er).
  eapply (scheduled_pop spawn Q PAgent); [exact Ea|exact Eb|].
  assert (Et : forall t, (match o with OWrite fp sv _ => clientWrite sha1 alg 0 node_num route id2Ip file_reads a fp sv | ORead fn sv => clientRead localIP id2Ip can_open a fn sv end ≫= returns = t -> 
    scheduled Q (mk_net r' (<[PAgent := t]> (procs s))))).
  { intros t <-. apply Hk.
    - apply (nodes_ok_store G (mk_net (store s) _)); [by apply nodes_ok_agent|]. cbn [store]. intros b Hb. unfold addr in *. by rewrite Er, lookup_partial_alter_ne.
    - unfold addr in *. by rewrite Er, lookup_partial_alter_eq. }
  apply Et. destruct o as [fp sv sz|fn sv]; cbn [order_bytes order_ok] in *.
  - destruct Hto as (H1 & H2 & H3). by rewrite parse_write.
  - destruct Hto as (H1 & H2). by rewrite parse_read.
Qed.

(** *** The whole plan *)

Definition meaning (os : list order) : gmap (list Z) (list Z) * gmap (list Z) (list Z) := foldl spec_step (∅, files0) os.

(** After the orders [past_orders], with [os] still to come. *)
Record running (past_orders os : list order) (s : net) (a : agent) : Prop := {
  rn_orders : orders = past_orders ++ os;
  rn_nodes : nodes_ok (concat (map order_groups past_orders)) s;
  rn_user : procs s !! PUser = Some (Ret UserDone);
  rn_agent : procs s !! PAgent = Some (agent_proc (Idle a));
  rn_todo : content (store s) !! order_addr = popped_value (map order_bytes os);
  rn_ok : agent_ok a;
  rn_files : ag_files a = (meaning past_orders).2;
  rn_reads : reads_ok (meaning past_orders) os;
  rn_names name data : (meaning past_orders).1 !! name = Some data -> (exists fp sz, OWrite fp name sz ∈ orders) /\
    exists gps, Forall (fun gp => gp ∈ concat (map order_groups past_orders)) gps /\ concat (map g_data gps) = data /\ zlen gps < 2 ^ 31 /\
      get_recipe name (ag_recipes a) = Ok (Some (genFileRecipe name gps));
}.

Lemma groups_of_plan past_orders o os : orders = past_orders ++ o :: os ->
  plan_groups = concat (map order_groups past_orders) ++ order_groups o ++ concat (map order_groups os) /\
  concat (map order_groups (past_orders ++ [o])) = concat (map order_groups past_orders) ++ order_groups o.
Proof using All.
  intros E. unfold plan_groups. rewrite E, !map_app, !concat_app. cbn [map concat]. by rewrite app_nil_r.
Qed.

Lemma meaning_snoc past_orders o : meaning (past_orders ++ [o]) = spec_step (meaning past_orders) o.
Proof using All. unfold meaning. by rewrite foldl_app. Qed.

Lemma run_write Q filepath saveas size past_orders os s a : running past_orders (OWrite filepath saveas size :: os) s a ->
  (forall s' a', running (past_orders ++ [OWrite filepath saveas size]) os s' a' -> scheduled Q s') -> scheduled Q s.
Proof using All.
  intros Hr Hk. set (o := OWrite filepath saveas size) in *. pose proof (rn_orders _ _ _ _ Hr) as Eo. assert (Hin : o ∈ orders) by (rewrite Eo; apply elem_of_app; right; by left).
  destruct (groups_of_plan past_orders o os Eo) as [Ep Eg]. destruct (order_write _ _ _ Hin) as ((data & Ed & Hb & Hl & _) & Hn & _ & Hapart & _).
  destruct (proj2 (rn_ok _ _ _ _ Hr) _ _ _ Hin) as (Ef & _). destruct (agent_ok_put a _ _ _ _ (rn_ok _ _ _ _ Hr) Hin Ed) as (t' & Et & Hok' & Eget & Hget).
  destruct (file_split meta data saveas rs0) as (_ & Hcat & Hcount & _); [by left|done..|]. set (gps := file_groups node_num route sha1 rs0 fc saveas data) in *.
  assert (Egps : order_groups o = gps) by (cbn [order_groups o]; by rewrite Ed). rewrite Egps in *.
  apply (take_order Q (concat (map order_groups past_orders)) s a o os Hin (rn_nodes _ _ _ _ Hr) (rn_agent _ _ _ _ Hr) (rn_todo _ _ _ _ Hr)). intros r' s1 Hok1 Ec1.
  eapply (write_groups Q (Ret (Idle (mk_agent meta' t' (ag_route a) (ag_files a)))) gps _ _ s1 Hok1 Ep).
  { cbn [procs s1]. rewrite lookup_insert_eq. cbn [order_process o]. by rewrite (write_eq a filepath saveas data t' (proj1 (rn_ok _ _ _ _ Hr))) by (done || congruence). }
  intros s2 Hok2 Ea2 [Eu2 Ec2]. eapply (scheduled_spawn spawn Q); [exact Ea2|done|]. eapply Hk. split; cbn [procs store ag_files ag_recipes].
  - by rewrite Eo, <- app_assoc.
  - rewrite Eg. by apply nodes_ok_agent.
  - rewrite lookup_insert_ne by done. rewrite Eu2. cbn [procs s1]. rewrite lookup_insert_ne by done. apply (rn_user _ _ _ _ Hr).
  - apply lookup_insert_eq.
  - etransitivity; [exact Ec2|exact Ec1].
  - exact Hok'.
  - rewrite meaning_snoc, (rn_files _ _ _ _ Hr). by destruct (meaning past_orders).
  - rewrite meaning_snoc. apply (rn_reads _ _ _ _ Hr).
  - intros name dt. rewrite meaning_snoc. pose proof (rn_files _ _ _ _ Hr) as Efs. pose proof (rn_names _ _ _ _ Hr) as Hnames. destruct (meaning past_orders) as [names files].
    cbn [spec_step o fst snd] in *. rewrite <- Efs, Ef, Ed. cbn [default]. rewrite Eg. intros Hdt. apply lookup_insert_Some in Hdt as [[<- <-]|[Hne Hdt]].
    + split; [by exists filepath, size|]. exists gps. split_and!; [|done..]. apply Forall_forall. intros gp Hgp. apply elem_of_app. by right.
    + destruct (Hnames name dt Hdt) as ((fp' & sz' & Hw) & gps' & Hg' & Hc' & Hz' & Er'). split; [by exists fp', sz'|]. exists gps'. split_and!; [|done|done|].
      * eapply Forall_impl; [exact Hg'|]. intros gp Hgp. apply elem_of_app. by left.
      * rewrite Hget; [done|]. by destruct (Hapart fp' name sz' Hw) as [->|?].
Qed.

Lemma run_read Q filename saveas past_orders os s a : running past_orders (ORead filename saveas :: os) s a ->
  (forall s' a', running (past_orders ++ [ORead filename saveas]) os s' a' -> scheduled Q s') -> scheduled Q s.
Proof using All.
  intros Hr Hk. set (o := ORead filename saveas) in *. pose proof (rn_orders _ _ _ _ Hr) as Eo. assert (Hin : o ∈ orders) by (rewrite Eo; apply elem_of_app; right; by left).
  destruct (groups_of_plan past_orders o os Eo) as [Ep Eg]. pose proof (po_orders t0 Hplan) as Hall. rewrite Forall_forall in Hall. destruct (Hall o Hin) as [_ Hopen]. cbn [order_good o] in Hopen.
  pose proof (rn_reads _ _ _ _ Hr) as [[data Hdata] Hreads']. destruct (rn_names _ _ _ _ Hr filename data Hdata) as (_ & gps & Hg & Hc & Hz & Er).
  set (a1 := mk_agent (ag_meta a) (ag_recipes a) (ag_route a) (<[saveas := []]> (ag_files a))).
  apply (take_order Q (concat (map order_groups past_orders)) s a o os Hin (rn_nodes _ _ _ _ Hr) (rn_agent _ _ _ _ Hr) (rn_todo _ _ _ _ Hr)). intros r' s1 Hok1 Ec1.
  eapply (read_groups Q _ _ a1 filename saveas gps [] s1 Hok1 Ep Hg).
  { cbn [procs s1]. rewrite lookup_insert_eq. cbn [order_process o]. unfold clientRead. rewrite Er. cbn [lift mbind io_mbind io_bind]. rewrite Hopen. cbn [genFileRecipe fr_num fr_gm].
    pose proof (zlen_nonneg gps). rewrite s32_id by lia. rewrite take_ge; [done|]. rewrite length_map. unfold zlen. lia. }
  intros s2 Hok2 Ea2 [Eu2 Ec2]. rewrite Hc in Ea2. eapply (scheduled_spawn spawn Q); [exact Ea2|done|]. eapply Hk. split; cbn [procs store ag_files ag_recipes a1].
  - by rewrite Eo, <- app_assoc.
  - rewrite Eg. cbn [order_groups o]. rewrite app_nil_r. by apply nodes_ok_agent.
  - rewrite lookup_insert_ne by done. rewrite Eu2. cbn [procs s1]. rewrite lookup_insert_ne by done. apply (rn_user _ _ _ _ Hr).
  - apply lookup_insert_eq.
  - etransitivity; [exact Ec2|exact Ec1].
  - apply (agent_ok_read a1); [|exact Hin]. eapply agent_ok_open; [apply (rn_ok _ _ _ _ Hr)|exact Hin].
  - rewrite meaning_snoc, (rn_files _ _ _ _ Hr). destruct (meaning past_orders) as [names files]. cbn [spec_step o fst snd app] in *. rewrite insert_insert_eq, Hdata. done.
  - rewrite meaning_snoc. exact Hreads'.
  - intros name dt. rewrite meaning_snoc. pose proof (rn_names _ _ _ _ Hr) as Hnames. destruct (meaning past_orders) as [names files]. cbn [spec_step o fst snd] in *. rewrite Eg. cbn [order_groups o]. rewrite app_nil_r.
    intros Hdt. destruct (recipe_lasting) eqn:El.
    + destruct (Hnames name dt Hdt) as (Hw & gps' & Hg' & Hc' & Hz' & Er'). split; [done|]. exists gps'. split_and!; [done..|]. etransitivity; [apply free_recipe_ok; by right|exact Er'].
    + apply lookup_delete_Some in Hdt as [Hne Hdt]. destruct (Hnames name dt Hdt) as (Hw & gps' & Hg' & Hc' & Hz' & Er'). split; [done|]. exists gps'. split_and!; [done..|].
      etransitivity; [apply free_recipe_ok; left; by apply not_eq_sym|exact Er'].
Qed.

(** What every execution comes to: the agent waits, with the files of the meaning,
    and no order and no request is left. *)
Definition finished (s : net) : Prop :=
  exists a, procs s !! PAgent = Some (agent_proc (Idle a)) /\ ag_files a = (meaning orders).2 /\
    forall addr, content (store s) !! addr <> None -> key_kind addr.2 = KJob \/ (key_kind addr.2 = KOrder /\ addr <> order_addr).

Lemma run_stuck s a past_orders : running past_orders [] s a -> (forall p t, procs s !! p = Some t -> match p with PNode ip => ip ∈ ips | _ => True end) -> forall s', ~ net_step spawn s s'.
Proof using All.
  intros Hr Hp s' (p & d & t & Et & _ & E). unfold exec in E. rewrite Et in E. destruct p as [| |ip].
  - rewrite (rn_user _ _ _ _ Hr) in Et. by injection Et as <-.
  - rewrite (rn_agent _ _ _ _ Hr) in Et. injection Et as <-. pose proof (rn_todo _ _ _ _ Hr) as Ec. cbn [map popped_value] in Ec. unfold order_addr in Ec.
    unfold agent_proc in E. cbn [agent_process mbind io_mbind io_bind react] in E. by rewrite (blpop_wait _ _ Ec) in E.
  - pose proof (Hp _ _ Et) as Hip. destruct (no_node _ _ (rn_nodes _ _ _ _ Hr) ip Hip) as (h & dk & Ed & _). rewrite Ed in Et. injection Et as <-.
    assert (Ec : content (store s) !! (ip, lit "destor_request") = None) by by apply (no_quiet _ _ (rn_nodes _ _ _ _ Hr)).
    unfold node_proc in E. cbn [destor_server_process mbind io_mbind io_bind react] in E. by rewrite (blpop_wait _ _ Ec) in E.
Qed.

Lemma run_orders os : forall past_orders s a, running past_orders os s a -> scheduled finished s.
Proof using All.
  induction os as [|o os IH]; intros past_orders s a Hr.
  - apply scheduled_end.
    + pose proof (rn_orders _ _ _ _ Hr) as Eo. rewrite app_nil_r in Eo. exists a. split; [apply (rn_agent _ _ _ _ Hr)|]. rewrite Eo. split; [apply (rn_files _ _ _ _ Hr)|].
      intros b Hb. destruct (decide (b = order_addr)) as [->|Hne]; [by destruct Hb; apply (rn_todo _ _ _ _ Hr)|].
      pose proof (no_quiet _ _ (rn_nodes _ _ _ _ Hr) b) as Hq. destruct (key_kind b.2); try (by destruct Hb; apply Hq); [by right|by left].
    + eapply run_stuck; [exact Hr|]. intros [| |ip] t Et; [done..|]. by eapply (no_only _ _ (rn_nodes _ _ _ _ Hr)).
  - destruct o as [fp sv sz|fn sv].
    + eapply run_write; [exact Hr|]. intros s' a' Hr'. by eapply IH.
    + eapply run_read; [exact Hr|]. intros s' a' Hr'. by eapply IH.
Qed.

(** *** The start *)

(** Every machine with an empty disk, and the user with all of the orders. *)
Definition start_procs (rs : RS) : gmap proc process :=
  <[PUser := user_process localIP orders (Ret UserDone)]> (<[PAgent := agent_proc (Idle (mk_agent meta t0 rs files0))]>
    (set_to_map (fun ip => (PNode ip, node_proc ip (mk_disk ∅ None None None))) (list_to_set ips : gset Z))).

Lemma start_node rs ip t : start_procs rs !! PNode ip = Some t <-> ip ∈ ips /\ t = node_proc ip (mk_disk ∅ None None None).
Proof using All.
  unfold start_procs. rewrite !lookup_insert_ne by done. rewrite lookup_set_to_map.
  - split.
    + intros (x & Hx & E). injection E as -> <-. split; [by apply elem_of_list_to_set in Hx|done].
    + intros [Hin ->]. exists ip. split; [by apply elem_of_list_to_set|done].
  - intros x y _ _ E. by injection E.
Qed.

Lemma user_eq os : (forall o, o ∈ os -> o ∈ orders) -> user_process localIP os (Ret UserDone) = push_all (map (fun o => (order_addr, order_bytes o)) os) (Ret UserDone) :> process.
Proof using All.
  induction os as [|o os IH]; intros Hin; [done|]. pose proof (po_orders t0 Hplan) as Hall. rewrite Forall_forall in Hall. destruct (Hall o) as [Hok _]; [apply Hin; by left|].
  destruct (build_order_ok o Hok) as (cmd & E & Em). cbn [user_process]. rewrite E. cbn [lift mbind io_mbind io_bind map push_all]. rewrite Em. unfold order_addr at 1. f_equal. apply IH. intros o' Ho'. apply Hin. by right.
Qed.

Lemma content_orders os : forall l r, content r !! order_addr = popped_value l ->
  content (pushes (map (fun o => (order_addr, order_bytes o)) os) r) !! order_addr = popped_value (l ++ map order_bytes os) /\
  forall b, b <> order_addr -> content (pushes (map (fun o => (order_addr, order_bytes o)) os) r) !! b = content r !! b.
Proof using All.
  induction os as [|o os IH]; intros l r Hl; [by rewrite app_nil_r|]. unfold pushes in *. cbn [map foldl fst snd].
  destruct (IH (l ++ [order_bytes o]) (rpush order_addr (order_bytes o) r)) as [H1 H2].
  - rewrite content_rpush, lookup_partial_alter_eq. etransitivity; [apply f_equal; exact Hl|]. by destruct l.
  - split; [by rewrite H1, <- app_assoc|]. intros b Hb. rewrite H2 by done. by apply content_rpush_ne, not_eq_sym.
Qed.

Lemma start_agent rs : agent_ok (mk_agent meta t0 rs files0).
Proof using All.
  split; [by left|]. intros fp sv sz Hin. cbn [ag_files ag_recipes]. split; [done|]. split; [apply (order_write _ _ _ Hin)|].
  intros fr E. rewrite (po_fresh t0 Hplan _ _ _ Hin) in E. done.
Qed.

Lemma start_ok rs r0 : content r0 = ∅ -> net_ok may msg fine (mk_net r0 (start_procs rs)).
Proof using All.
  intros E0. split; cbn [procs store].
  - intros [| |ip] t Et.
    + unfold start_procs in Et. rewrite lookup_insert_eq in Et. injection Et as <-. by apply user_typed.
    + unfold start_procs in Et. rewrite lookup_insert_ne, lookup_insert_eq in Et by done. injection Et as <-. apply agent_typed. apply start_agent.
    + apply start_node in Et as [_ ->]. apply node_typed.
  - intros a l. rewrite E0, lookup_empty. done.
Qed.

Lemma start_scheduled rs r0 : content r0 = ∅ -> scheduled finished (mk_net r0 (start_procs rs)).
Proof using All.
  intros E0. assert (E0' : forall a, content r0 !! a = None) by (intros a; by rewrite E0, lookup_empty).
  eapply (scheduled_pushes spawn finished PUser (map (fun o => (order_addr, order_bytes o)) orders)); cbn [procs store].
  { unfold start_procs. rewrite lookup_insert_eq. f_equal. by apply user_eq. }
  destruct (content_orders orders [] r0 (E0' _)) as [H1 H2]. apply (run_orders orders [] _ (mk_agent meta t0 rs files0)).
  assert (Hon : forall ip t, start_procs rs !! PNode ip = Some t <-> (<[PUser := Ret UserDone]> (start_procs rs)) !! PNode ip = Some t) by (intros ip t; by rewrite lookup_insert_ne).
  split; cbn [procs store].
  - done.
  - split; cbn [procs store].
    + intros ip Hip. exists [], (mk_disk ∅ None None None). split_and!; [by apply Hon, start_node|constructor|done|done].
    + intros a Ha1 _. rewrite H2; [apply E0'|]. intros ->. by apply Ha1.
    + intros ip t Et. apply Hon, start_node in Et. apply Et.
  - apply lookup_insert_eq.
  - unfold start_procs. by rewrite insert_insert_eq, lookup_insert_ne, lookup_insert_eq.
  - exact H1.
  - apply start_agent.
  - done.
  - exact (po_reads t0 Hplan).
  - intros name data. cbn. by rewrite lookup_empty.
Qed.

(** C1: What the user stores he gets back. In whatever order the user, the agent and
    the servers of the nodes run, and whatever the threads of a backup job do, the
    system comes to rest, and then the files of the user's machine are those that
    the orders mean: a file that was read is the one that was written under the
    name. No request and no packet is left over.

    The plan and the machines are such that this can be: every machine starts empty;
    the groups go to nodes without stateful routing; chunking is not AE, and
    segments are of a fixed or bounded number of chunks; the two buffers of a backup
    do not block each other (no rewriting, or no threshold). By [plan_ok] a file is
    read after it was written and no order writes over a file that is still to be
    stored; the names of groups differ, names of files have a slash and are short;
    every group fits one packet of 1 MB (a node cannot receive a second one: C39);
    equal fingerprints mean equal chunks; and the stores of the nodes have room. *)
Theorem files_survive rs r0 : content r0 = ∅ ->
  stops spawn (mk_net r0 (start_procs rs)) /\
  forall s, rtc (net_step spawn) (mk_net r0 (start_procs rs)) s -> (forall s', ~ net_step spawn s s') -> finished s.
Proof using All.
  intros E0. exact (any_schedule spawn may msg fine may_excl spawn_typed finished _ (start_ok rs r0 E0) (start_scheduled rs r0 E0)).
Qed.
End Cluster.

(** ** Witness *)

Section Demo.
#[local] Existing Instance std_hash_iter.
#[local] Existing Instance std_hash_iter_ok.
#[local] Existing Instance std_seq_sort.
#[local] Existing Instance std_seq_sort_ok.
#[local] Existing Instance std_redis.
#[local] Existing Instance std_redis_ok.

(** Fingerprints from which the bytes of small chunks can be had. *)
Definition demo_sha1 (b : list Z) : fingerprint := (zlen b mod 256) :: take 19 (map (fun x => x mod 256) b ++ replicate 19 0).
Definition demo_bytes_of (fp : fingerprint) : list Z := match fp with n :: fp => ztake n fp | [] => [] end.

Lemma demo_sha1_ok b : fp_wf (demo_sha1 b).
Proof.
  assert (Hm : forall x, is_byte (x mod 256)) by (intros x; unfold is_byte; pose proof (Z.mod_pos_bound x 256); lia). split.
  - unfold zlen, demo_sha1, fp_size. cbn [length]. rewrite length_take, length_app, length_replicate. lia.
  - constructor; [apply Hm|]. apply Forall_take, Forall_app. split; [|by apply Forall_replicate]. apply Forall_map, Forall_forall. intros x _. apply Hm.
Qed.

Definition demo_chunking : chunk_config := mk_chunk_config 4 1 8.
Definition demo_chunking' : chunk_config := mk_chunk_config 4 1 4.
Definition demo_segments : seg_config := mk_seg_config INDEX_SEGMENT_FIXED 10 0 0.

Lemma demo_starts : start_chunk_phase CHUNK_FIXED demo_chunking = Ok (demo_chunking', fixed_chunk_data demo_chunking').
Proof. reflexivity. Qed.

Definition demo_route (_ : list SampleUnit) (_ : ()) : res (Z * ()) := Err ENull.
Definition demo_ips : gmap Z Z := {[0 := 7; 1 := 8; 2 := 9]}.

(** The file "/a" has 1025 chunks, two groups, and "/x" one; the three groups are on
    three nodes. They are stored as "/b" and "/y" and read into "/c" and "/z". *)
Definition demo_big : list Z := concat (replicate 1024 [1; 2; 3; 4]).
Definition demo_orders : list order := [OWrite [47; 97] [47; 98] 4097; OWrite [47; 120] [47; 121] 1; ORead [47; 98] [47; 99]; ORead [47; 121] [47; 122]].
Definition demo_files : gmap (list Z) (list Z) := {[ [47; 97] := demo_big ++ [2]; [47; 120] := [1] ]}.

Definition demo_groups : list group := plan_groups demo_sha1 3 (fixed_chunk_data demo_chunking') demo_route () demo_orders demo_files.
Definition demo_group_list : list group :=
  [mk_group [47; 98; 48] (demo_sha1 [1; 2; 3; 4]) 1 4096 demo_big; mk_group [47; 98; 49] (demo_sha1 [2]) 2 1 [2]; mk_group [47; 121; 48] (demo_sha1 [1]) 0 1 [1]].

Lemma demo_groups_eq : demo_groups = demo_group_list.
Proof. vm_compute. reflexivity. Qed.

Lemma demo_known gp : gp ∈ demo_groups -> known demo_sha1 (fixed_chunk_data demo_chunking') demo_bytes_of (g_data gp).
Proof.
  rewrite demo_groups_eq. intros Hin b Hb. revert b Hb. apply Forall_forall. revert gp Hin. apply Forall_forall. decide_it.
Qed.

(** A node gets one group. *)
Lemma demo_names ip : (length (names_on demo_ips ip demo_group_list) <= 1)%nat.
Proof.
  unfold names_on, demo_group_list. rewrite !filter_cons, filter_nil. cbn [g_nodeId].
  change (node_ip demo_ips 1) with 8. change (node_ip demo_ips 2) with 9. change (node_ip demo_ips 0) with 7.
  repeat case_decide; subst; try done; cbn; lia.
Qed.

Lemma demo_reads data : Forall is_byte data -> concat (group_blocks data) = data /\ Forall sent_block (group_blocks data).
Proof. intros Hb. destruct (group_blocks_ok data Hb) as (H1 & H2 & _). done. Qed.

Lemma demo_write fp sv sz : OWrite fp sv sz ∈ demo_orders -> (fp = [47; 97] /\ sv = [47; 98]) \/ (fp = [47; 120] /\ sv = [47; 121]).
Proof.
  unfold demo_orders. rewrite !elem_of_cons, elem_of_nil. intros [E|[E|[E|[E|E]]]]; [injection E as -> -> ->; by left|injection E as -> -> ->; by right|done..].
Qed.

Lemma demo_read fn sv : ORead fn sv ∈ demo_orders -> sv = [47; 99] \/ sv = [47; 122].
Proof.
  unfold demo_orders. rewrite !elem_of_cons, elem_of_nil. intros [E|[E|[E|[E|E]]]]; [done..|injection E as -> ->; by left|injection E as -> ->; by right|done].
Qed.

(** A file of the plan. *)
Lemma demo_good fp sv sz data : OWrite fp sv sz ∈ demo_orders -> demo_files !! fp = Some data -> Forall is_byte data -> zlen data < 2 ^ 31 ->
  order_good demo_bytes_of demo_sha1 (fixed_chunk_data demo_chunking') 3 (fixed_chunk_data demo_chunking') demo_route () (fun _ => true) demo_orders demo_files (∅ : recipe_map) (OWrite fp sv sz).
Proof.
  intros Hin Ef Hb Hl. split_and!.
  - exists data. split_and!; [done..|]. intros gp Hgp. apply demo_known. eapply in_plan_groups; [exact Hin|]. cbn [order_groups]. rewrite Ef. exact Hgp.
  - destruct (demo_write _ _ _ Hin) as [[_ ->]|[_ ->]]; (split_and!; [repeat constructor; unfold is_byte; lia|by left|done]).
  - done.
  - intros fp' sv' sz' Hin'. destruct (demo_write _ _ _ Hin) as [[_ ->]|[_ ->]], (demo_write _ _ _ Hin') as [[_ ->]|[_ ->]]; by (left + right).
  - intros fn sv' Hr. destruct (demo_write _ _ _ Hin) as [[-> _]|[-> _]], (demo_read _ _ Hr) as [-> | ->]; done.
Qed.

(** A job on an empty disk. *)
Definition small_input (gp : group) : bool :=
  match (segmenting ← init_segmenting_method demo_segments; feed segmenting None (backup_file demo_sha1 (fixed_chunk_data demo_chunking') (g_groupName gp) (g_data gp))) with
  | Ok todo => (cp_len * (zlen (normals (Backup.chunks_of todo)) + 2 * zlen todo) <? 2 ^ 32) && (zlen (Backup.chunks_of todo) <? count_max)
  | Err _ => true
  end.

Lemma demo_small : forallb small_input demo_group_list = true.
Proof. vm_compute. reflexivity. Qed.

Lemma demo_groups_bytes : Forall (fun gp => Forall is_byte (g_data gp)) demo_group_list.
Proof. decide_it. Qed.

Lemma demo_groups_fit gp todo : gp ∈ demo_group_list ->
  dedup_input demo_sha1 CHUNK_FIXED demo_chunking demo_segments (sent_queue (g_groupName gp) (group_blocks (g_data gp))) = Ok todo -> job_fits (mk_disk ∅ None None None) todo.
Proof.
  intros Hin E. pose proof demo_small as Hs. rewrite forallb_forall in Hs. pose proof Hin as Hx. apply list_elem_of_In, Hs in Hx.
  assert (Hb : Forall is_byte (g_data gp)) by exact (proj1 (Forall_forall _ _) demo_groups_bytes gp Hin).
  destruct (demo_reads _ Hb) as [Ec Hsb].
  rewrite (dedup_input_feed demo_sha1 demo_sha1_ok CHUNK_FIXED demo_chunking demo_segments _ _ demo_starts) in E by done. rewrite Ec in E.
  unfold small_input in Hx. rewrite E in Hx. apply andb_true_iff in Hx as [H1%Z.ltb_lt H2%Z.ltb_lt]. split; [exact H1|]. intros st Ei. injection Ei as <-. exact H2.
Qed.

Lemma demo_plan : plan_ok demo_index_config demo_filter_config 0 1 demo_bytes_of demo_sha1 CHUNK_FIXED demo_chunking demo_segments (fixed_chunk_data demo_chunking')
  3 (fixed_chunk_data demo_chunking') demo_route () demo_ips (fun _ => true) demo_orders demo_files (∅ : recipe_map).
Proof.
  assert (Htext : forall n, 0 < n -> text_ok [47; n]) by (intros n Hn; split; [|done]; repeat constructor; lia).
  split.
  - assert (Hok : forall o, o ∈ demo_orders -> order_ok o).
    { unfold demo_orders. intros o. rewrite !elem_of_cons, elem_of_nil. intros [->|[->|[->|[->|[]]]]]; (split; [|by vm_compute]); cbn; split_and?; try (by apply Htext); done. }
    apply Forall_forall. intros o Ho. split; [by apply Hok|]. destruct o as [fp sv sz|fn sv]; [|done].
    destruct (demo_write _ _ _ Ho) as [[-> ->]|[-> ->]]; (eapply demo_good; [done|reflexivity|decide_it|by vm_compute]).
  - split; [done|]. split; [done|]. split; [by eexists|]. split; [by eexists|done].
  - fold demo_groups. rewrite demo_groups_eq. decide_it.
  - fold demo_groups. rewrite demo_groups_eq. decide_it.
  - done.
  - intros ip h d gp rest Hh Hn Hin. fold demo_groups in Hn, Hin. rewrite demo_groups_eq in Hn, Hin.
    assert (h = []) as ->.
    { destruct h as [|j h]; [done|]. apply (f_equal length) in Hn. rewrite length_app in Hn. pose proof (demo_names ip). cbn [length map] in *. lia. }
    inversion Hh as [|h0 d0 path todo d' ? ? ? ? ? E]; [|by destruct h0]. subst d. split; [done|]. split; [by intros data [=]|]. intros todo E. by eapply demo_groups_fit.
Qed.

Definition demo_server_procs := start_procs demo_index_config demo_filter_config 0 1 demo_sha1 CHUNK_FIXED demo_chunking demo_segments
  RESTORE_CACHE_LRU 4 100 (fun _ => []) CHUNK_FIXED 3 4 demo_chunking demo_route demo_ips group_blocks (fun _ => true) [7; 8; 9] demo_orders demo_files (∅ : recipe_map) ().
Definition demo_spawn := spawn (T := recipe_map) demo_index_config demo_filter_config 0 1 demo_sha1 CHUNK_FIXED demo_chunking demo_segments
  RESTORE_CACHE_LRU 4 100 (fun _ => []) CHUNK_FIXED 3 4 demo_route demo_ips group_blocks (fun _ => true).
Definition demo_finished := finished (T := recipe_map) demo_sha1 CHUNK_FIXED 3 4 demo_route demo_ips group_blocks (fun _ => true) demo_orders demo_files.

(** The user has his bytes in "/c" and "/z". *)
Lemma files_survive_witness : stops demo_spawn (mk_net (∅ : gmap addr rvalue) demo_server_procs) /\
  (forall s, rtc (net_step demo_spawn) (mk_net ∅ demo_server_procs) s -> (forall s', ~ net_step demo_spawn s s') -> demo_finished s) /\
  snd (meaning (T := recipe_map) demo_files demo_orders) !! [47; 99] = Some (demo_big ++ [2]) /\
  snd (meaning (T := recipe_map) demo_files demo_orders) !! [47; 122] = Some [1].
Proof.
  destruct (files_survive demo_index_config demo_filter_config 0 1 demo_config_ok eq_refl demo_bytes_of demo_sha1 demo_sha1_ok
    CHUNK_FIXED demo_chunking demo_segments demo_chunking' _ demo_starts ltac:(done) ltac:(done) ltac:(done) (or_introl (conj eq_refl (conj eq_refl eq_refl))) RESTORE_CACHE_LRU 4 100 (fun _ => []) ltac:(decide_it) ltac:(done) ltac:(done) (or_introl eq_refl)
    CHUNK_FIXED 3 4 demo_chunking demo_chunking' _ demo_starts ltac:(done) ltac:(done) ltac:(done) ltac:(done) ltac:(done) ltac:(done) demo_route () demo_ips group_blocks (fun _ => true) demo_reads [7; 8; 9]
    ltac:(intros id Hid; assert (id = 0 \/ id = 1 \/ id = 2) as [-> | [-> | ->]] by lia; decide_it) demo_orders demo_files (∅ : recipe_map) demo_plan () (∅ : gmap addr rvalue) eq_refl) as [H1 H2].
  split; [exact H1|]. split; [exact H2|]. split; vm_compute; reflexivity.
Defined.
End Demo.
