(* ===== verification/Delete.v ===== *)
(** The deletion of a backup: [destor/src/do_delete.c].

    A deletion takes the containers that only deleted backups use off the
    manifest (cma.c, in [Har]) and removes what the index maps to them, or to the
    segments of the deleted version; the containers themselves stay in the pool.
    The mark [deleted] of the version is set in memory only: [open_backup_version]
    opens the files for reading, so the writes of [update_backup_version] fail,
    and the files of the version are what they were. *)

From S2P Require Import Prelude Serial CFile CText Glib Destor Double LruCache Container Recipe Segmenting Sampling KvStore RestoreCache OptRestore DoRestore.
From S2P Require Import RestoreAware Index IndexInv Filter FilterInv DedupPhase Backup Job Har.

Section Delete.
Context `{HC : !HashIter fingerprint metaEntry} `{HM : !HashIter Z Z} `{HU : !HashIter Z ()} `{HP : !HashIter fingerprint chunkPointer} `{HK : !HashIter (list Z) (list Z)}.
Context (cfg : index_config) (simulation_level : Z).

Definition delete_an_entry (id : Z) (ix : index) (fp : fingerprint) : res index := index_delete cfg ix fp id.

(** A round of the loop over [invalid_containers]. *)
Definition reclaim_container (s : index * cstore) (id : Z) : res (index * cstore) :=
  let '(ix, st) := s in
  '(cm, st) ← retrieve_container_meta_by_id simulation_level st id;
  ix ← foldM (delete_an_entry id) ix (container_meta_foreach cm);
  Ok (ix, st).

(** [while((sr = read_next_segment(bv)))]: a segment takes bytes of the recipe,
    so the length of the recipe is enough. *)
Fixpoint reclaim_segments (fuel : nat) (ix : index) (bv : option backupVersion) : res index :=
  match fuel with
  | O => Err EFuel
  | S fuel =>
      '(sr, bv) ← read_next_segment bv;
      match sr with
      | None => Ok ix
      | Some sr => ix ← foldM (delete_an_entry (sr_id sr)) ix (segment_recipe_foreach sr); reclaim_segments fuel ix bv
      end
  end.

(** The table in the order it is iterated. *)
Definition containers_iter (invalid_containers : gset Z) : list Z := (hash_iter (gset_to_gmap tt invalid_containers)).*1.

Definition log_name : list Z := lit "delete.log".
Definition log_line (jobid live footprint : Z) : list Z :=
  print_int jobid ++ [32] ++ print_int live ++ [32] ++ print_int footprint ++ [10].
Definition did_name (working_directory : list Z) (jobid : Z) : list Z := working_directory ++ lit "recipes/delete_" ++ print_int jobid ++ lit ".id".
Definition did_line (id : Z) : list Z := print_int id ++ [10].

(** The index and the pool after the entries are deleted. *)
Definition delete_entries (jobid : Z) (invalid_containers : gset Z) (d : disk) (ix : index) : res (index * option (list Z)) :=
  if category_1 cfg =? INDEX_CATEGORY_PHYSICAL_LOCALITY then
    st ← init_container_store (dk_pool d);
    _ ← open_backup_version (dk_versions d) jobid;
    '(ix, st) ← foldM reclaim_container (ix, st) (containers_iter invalid_containers);
    pool ← close_container_store simulation_level st;
    Ok (ix, Some (fdata pool))
  else if category_1 cfg =? INDEX_CATEGORY_LOGICAL_LOCALITY then
    bv ← open_backup_version (dk_versions d) jobid;
    ix ← reclaim_segments (S (length (fdata (recipe_fp bv)))) ix (Some bv);
    Ok (ix, dk_pool d)
  else Err (EExit 1).

(** The disk of the node and its text files. *)
Definition do_delete (working_directory : list Z) (jobid : Z) (d : disk) (files : text_files) : res (disk * text_files) :=
  '(invalid_containers, files, live) ← trunc_manifest working_directory jobid files;
  ix ← init_index cfg (dk_index d);
  let backup_version_count := init_recipe_store (dk_counter d) in
  '(ix, pool) ← delete_entries jobid invalid_containers d ix;
  let counter := close_recipe_store backup_version_count in
  let index := close_index cfg ix in
  let log := default [] (files !! log_name) ++ log_line jobid live (kv_footprint (kv_of_config cfg) (ix_kv ix)) in
  let files := <[log_name := log]> files in
  let files := <[did_name working_directory jobid := concat (map did_line (containers_iter invalid_containers))]> files in
  Ok (mk_disk (dk_versions d) (Some counter) pool (Some index), files).

(** ** The loop over the segments ends *)

(** A stream that was read from [f] to [g]. *)
Definition reads_on (f g : file) : Prop := fdata g = fdata f /\ fpos f <= fpos g <= zlen (fdata f).

Lemma reads_on_trans f g h : reads_on f g -> reads_on g h -> reads_on f h.
Proof using. intros [E1 H1] [E2 H2]. split; [congruence|]. rewrite E1 in H2. lia. Qed.

Lemma fread_obj_on f buf r bs g : 0 <= fpos f <= zlen (fdata f) -> fread_obj f buf = (r, bs, g) ->
  reads_on f g /\ (r = 0 \/ r = 1 /\ fpos g = fpos f + zlen buf).
Proof using.
  intros Hf. unfold fread_obj, fread. intros [= <- _ <-].
  assert (Hz : 0 <= zlen (ztake (zlen buf) (zdrop (fpos f) (fdata f))) <= zlen (fdata f) - fpos f).
  { split; [apply zlen_nonneg|]. rewrite <- zlen_zdrop by done. unfold zlen, ztake. rewrite length_take. lia. }
  split; [split; cbn; [done|lia]|]. cbn [fpos]. destruct (Z.eqb_spec (zlen (ztake (zlen buf) (zdrop (fpos f) (fdata f)))) (zlen buf)) as [->|]; [by right|by left].
Qed.

Lemma fread_obj_len f buf r bs g : fread_obj f buf = (r, bs, g) -> zlen bs = zlen buf.
Proof using.
  unfold fread_obj, fread. intros [= _ <- _]. set (n := zlen (ztake _ _)). assert (0 <= n <= zlen buf).
  { unfold n. split; [apply zlen_nonneg|]. unfold zlen, ztake. rewrite length_take. lia. }
  rewrite zlen_app, zlen_zdrop by done. unfold n. lia.
Qed.

Lemma read_cp_on f c r c' g : 0 <= fpos f <= zlen (fdata f) -> zlen (b_fp c) = fp_size -> read_cp f c = (r, c', g) ->
  reads_on f g /\ (r = 3 -> fpos f < fpos g).
Proof using.
  intros Hf Hc. unfold read_cp. destruct (fread_obj f _) as [[r1 b1] f1] eqn:E1. destruct (fread_obj f1 _) as [[r2 b2] f2] eqn:E2. destruct (fread_obj f2 _) as [[r3 b3] f3] eqn:E3.
  intros [= <- _ <-]. apply fread_obj_on in E1 as [H1 R1]; [|done]. destruct H1 as [D1 P1].
  apply fread_obj_on in E2 as [H2 R2]; [|rewrite D1; lia]. destruct H2 as [D2 P2]. rewrite D1 in D2, P2.
  apply fread_obj_on in E3 as [H3 R3]; [|rewrite D2; lia]. destruct H3 as [D3 P3]. rewrite D2 in D3, P3. unfold fp_size in Hc.
  split; [split; [done|lia]|]. intros. lia.
Qed.

Lemma read_kvpairs_on n : forall f kv kv' g, 0 <= fpos f <= zlen (fdata f) -> read_kvpairs n f kv = Ok (kv', g) -> reads_on f g.
Proof using.
  induction n as [|n IH]; intros f kv kv' g Hf; cbn [read_kvpairs]; [intros [= _ <-]; split; [done|lia]|].
  destruct (read_cp f fresh_cp) as [[r c] f1] eqn:E. apply read_cp_on in E as [[D P] _]; [|done|by apply zlen_fresh].
  intros (? & _ & H)%bind_Ok. apply IH in H; [|rewrite D; lia]. by eapply reads_on_trans; [|exact H].
Qed.

Lemma read_kvpairs_error n : forall f kv e, read_kvpairs n f kv = Err e -> e = EAssert.
Proof using.
  induction n as [|n IH]; intros f kv e; cbn [read_kvpairs]; [done|]. destruct (read_cp f fresh_cp) as [[r c] f1].
  destruct (TEMPORARY_ID <? _); cbn; [apply IH|congruence].
Qed.

(** A segment is at least as long as its flag. *)
Lemma next_segment_on b : 0 <= fpos (recipe_fp b) <= zlen (fdata (recipe_fp b)) ->
  match read_next_segment (Some b) with
  | Ok (Some sr, Some b') => reads_on (recipe_fp b) (recipe_fp b') /\ fpos (recipe_fp b) < fpos (recipe_fp b')
  | Ok (Some sr, None) => False
  | Ok (None, _) => True
  | Err e => e = EAssert
  end.
Proof using.
  intros Hb. cbn [read_next_segment]. destruct (read_cp (recipe_fp b) fresh_cp) as [[ret flag] f] eqn:E.
  pose proof E as E'. apply read_cp_on in E' as [H Hlt]; [|done|by apply zlen_fresh]. destruct (Z.eqb_spec ret 3) as [->|]; [|done]. specialize (Hlt eq_refl). cbn [negb orb].
  destruct (negb _); [done|]. unfold read_segment_body. destruct H as [D P]. destruct (read_kvpairs _ f _) as [[kv f1]|e] eqn:Ek; [|by apply read_kvpairs_error in Ek].
  step. apply read_kvpairs_on in Ek as [D1 P1]; [|rewrite D; lia]. destruct (read_cp f1 flag) as [[r2 flag2] f2] eqn:E2. destruct (c_assert _) eqn:Ea; [|unfold c_assert in Ea; cbn; destruct (_ =? _); congruence].
  step. step. cbn [recipe_fp bv_set_recipe]. assert (Hfl : zlen (b_fp flag) = fp_size).
  { clear - E. unfold read_cp in E. destruct (fread_obj (recipe_fp b) _) as [[r1 b1] g1] eqn:E1. destruct (fread_obj g1 _) as [[? ?] g2]. destruct (fread_obj g2 _) as [[? ?] g3].
    injection E as _ <- _. cbn [b_fp]. apply fread_obj_len in E1. rewrite E1. by apply zlen_fresh. }
  rewrite D in D1, P1. apply read_cp_on in E2 as [[D2 P2] _]; [|rewrite D1; lia|done]. rewrite D1 in D2, P2. split; [split; [done|lia]|lia].
Qed.

Lemma index_delete_error ix fp id e : index_delete cfg ix fp id = Err e -> e <> EFuel.
Proof using.
  assert (Hd : forall n fuel i l e, delete_id fuel i n id l = Err e -> e <> EFuel).
  { intros n. induction fuel as [|fuel IH]; intros i l e0; cbn [delete_id]; [done|]. destruct (l !! Z.to_nat i); cbn; [|congruence]. destruct (_ =? id); [|apply IH].
    destruct (i =? n - 1); [done|]. destruct (_ !! Z.to_nat (i + 1)); cbn; [|congruence]. destruct (_ =? TEMPORARY_ID); cbn; [|congruence]. by destruct (_ && _). }
  unfold index_delete, kvstore_htable_delete, get_key, read_bytes. case_bool_decide; cbn; [|congruence]. destruct (ix_kv ix !! _); cbn; [|done].
  destruct (delete_id _ _ _ _ _) eqn:E; cbn; [|intros [= <-]; by eapply Hd]. destruct (head _); cbn; congruence.
Qed.

Lemma delete_all_error id fps : forall ix e, foldM (delete_an_entry id) ix fps = Err e -> e <> EFuel.
Proof using.
  induction fps as [|fp fps IH]; intros ix e; [done|]. cbn [foldM]. change (delete_an_entry id ix fp) with (index_delete cfg ix fp id).
  destruct (index_delete cfg ix fp id) eqn:E; cbn; [apply IH|intros [= <-]; by eapply index_delete_error].
Qed.

Lemma reclaim_segments_ends fuel : forall ix b, 0 <= fpos (recipe_fp b) <= zlen (fdata (recipe_fp b)) ->
  zlen (fdata (recipe_fp b)) - fpos (recipe_fp b) < Z.of_nat fuel -> reclaim_segments fuel ix (Some b) <> Err EFuel.
Proof using.
  induction fuel as [|fuel IH]; intros ix b Hb Hf; [lia|]. cbn [reclaim_segments]. pose proof (next_segment_on b Hb) as H.
  destruct (read_next_segment (Some b)) as [[[sr|] bv]|e]; [|done|by subst]. destruct bv as [b'|]; [|done]. destruct H as [[D P] Hlt]. step.
  destruct (foldM _ _ _) as [ix'|e] eqn:E; [|intros [= ->]; by eapply delete_all_error]. step. apply IH; rewrite D; lia.
Qed.

(** ** What is deleted from the index *)

Context `{SF : !SeqSort fingerprint} `{SA : !SeqSort (fingerprint * fingerprint)}.
Context `{HCO : !HashIterOk fingerprint metaEntry} `{HMO : !HashIterOk Z Z} `{HUO : !HashIterOk Z ()} `{HKO : !HashIterOk (list Z) (list Z)}.
Context (CO : config_ok cfg) (X : exact cfg) (Hone : value_length cfg = 1).

#[local] Abbreviation kvc := (kv_of_config cfg).

(** The entries that map to a container of [inv] are gone. *)
Definition pruned (inv : gset Z) (am : gmap key (list Z)) : gmap key (list Z) := filter (fun kv => Forall (fun id => id ∉ inv) kv.2) am.

Lemma queue_single am kv k l : represents kvc kv am -> am !! k = Some l -> exists id, l = [id] /\ id <> TEMPORARY_ID.
Proof using Hone.
  intros [_ Hq] Hl. destruct (Hq k l Hl) as (Hne & _ & Ht & Hlen). cbn [kv_of_config index_value_length] in Hlen. rewrite Hone in Hlen.
  destruct l as [|id [|? ?]]; [done| |cbn in Hlen; lia]. exists id. split; [done|]. intros ->. apply Ht. by left.
Qed.

(** Deleting a container from the entries of its fingerprints. *)
Lemma delete_fps id : id <> TEMPORARY_ID -> forall fps ix am, represents kvc (ix_kv ix) am -> Forall (fun fp => zlen fp = key_size cfg) fps ->
  exists ix' am', foldM (delete_an_entry id) ix fps = Ok ix' /\ represents kvc (ix_kv ix') am' /\
    forall k, am' !! k = if decide (k ∈ fps /\ am !! k = Some [id]) then None else am !! k.
Proof using Hone CO.
  intros Hid. induction fps as [|fp fps IH]; intros ix am Hr Hf.
  { exists ix, am. split; [done|]. split; [done|]. intros k. rewrite decide_False; [done|]. by intros [?%elem_of_nil _]. }
  apply Forall_cons in Hf as [Hfp Hf]. cbn [foldM]. change (delete_an_entry id ix fp) with (index_delete cfg ix fp id). unfold index_delete.
  assert (Ha : kv_allowed kvc am (KvDelete fp id)).
  { split; [done|]. split; [done|]. intros l Hl Hin. destruct (queue_single am _ _ _ Hr Hl) as (x & -> & _). by apply list_elem_of_singleton in Hin as ->. }
  destruct (delete_represents kvc ltac:(cbn; pose proof (co_length cfg CO); lia) ltac:(cbn; pose proof (co_key cfg CO); lia) _ am fp id Hr Ha) as (ht & -> & Hr'). step. step.
  destruct (IH (set_kv ix ht) (kv_spec kvc am (KvDelete fp id)) Hr' Hf) as (ix' & am' & E & Hr2 & Hk). exists ix', am'. split; [exact E|]. split; [exact Hr2|].
  assert (Hs : forall k, kv_spec kvc am (KvDelete fp id) !! k = if decide (k = fp /\ am !! k = Some [id]) then None else am !! k).
  { intros k. cbn [kv_spec]. destruct (am !! fp) as [l|] eqn:El.
    - destruct (queue_single am _ _ _ Hr El) as (x & -> & _). destruct (decide (id ∈ [x])) as [Hin%list_elem_of_singleton|Hn].
      + subst x. rewrite decide_True by done. destruct (decide (k = fp)) as [->|Hne].
        * rewrite lookup_delete_eq, decide_True by done. done.
        * rewrite lookup_delete_ne, decide_False by naive_solver. done.
      + rewrite decide_False; [done|]. intros [-> Hx]. apply Hn. rewrite El in Hx. injection Hx as ->. by left.
    - rewrite decide_False; [done|]. intros [-> Hx]. congruence. }
  intros k. rewrite Hk, !Hs. destruct (decide (k = fp /\ am !! k = Some [id])) as [[-> Hx]|Hn].
  - rewrite (decide_True (P := fp ∈ fp :: fps /\ _)) by (split; [by left|done]). by case_decide.
  - destruct (decide (k ∈ fps /\ am !! k = Some [id])) as [[Hin Hx]|Hn2].
    + rewrite decide_True; [done|]. split; [by right|done].
    + rewrite decide_False; [done|]. intros [[->|Hin]%elem_of_cons Hx]; [by apply Hn|by apply Hn2].
Qed.

Lemma foreach_fps cm k : k ∈ container_meta_foreach cm <-> is_Some (cm_map cm !! k).
Proof using HCO.
  unfold container_meta_foreach. rewrite list_elem_of_fmap. split.
  - intros ([fp me] & -> & Hin%hash_iter_elem). by exists me.
  - intros [me Hme]. exists (k, me). split; [done|]. by apply hash_iter_elem.
Qed.

Lemma pruned_lookup inv am k l : pruned inv am !! k = Some l <-> am !! k = Some l /\ Forall (fun id => id ∉ inv) l.
Proof using. unfold pruned. by rewrite map_lookup_filter_Some. Qed.

(** Reclaiming one container. *)
Lemma reclaim_one log ix st am id con : sys_inv simulation_level (mk_sys st None false log) -> log !! id = Some con -> represents kvc (ix_kv ix) am ->
  (forall k l, am !! k = Some l -> Forall (fun id => unit_has log id k) l) ->
  exists ix' st', reclaim_container (ix, st) id = Ok (ix', st') /\ sys_inv simulation_level (mk_sys st' None false log) /\ represents kvc (ix_kv ix') (pruned {[id]} am).
Proof using All.
  intros Hs Hl Hr Hu. destruct (si_log _ _ Hs id con Hl) as ([Hok _] & _ & Hid & Hge & _).
  destruct (sys_inv_meta simulation_level _ id con Hs Hl) as (st' & E). cbn [y_st] in E. unfold reclaim_container. rewrite E. step.
  destruct (delete_fps id ltac:(unfold TEMPORARY_ID; lia) (container_meta_foreach (c_meta con)) ix am Hr) as (ix' & am' & E' & Hr' & Hk).
  { apply Forall_forall. intros fp [me Hme]%foreach_fps. rewrite (co_exact_key cfg CO) by apply X. by apply (mo_entry _ Hok fp me). }
  exists ix', st'. rewrite E'. step. split; [done|]. split.
  - by apply (sys_step_inv simulation_level (mk_sys st None false log)), (sys_retrieve simulation_level st id (c_meta con)).
  - assert (am' = pruned {[id]} am) as ->; [|done]. apply map_eq. intros k. apply option_eq. intros l. rewrite Hk, pruned_lookup.
    destruct (decide _) as [[Hin Hx]|Hn].
    + split; [done|]. intros [Hl' Hall]. rewrite Hx in Hl'. injection Hl' as <-. apply Forall_cons in Hall as [Hall _]. set_solver.
    + split; [|by intros [? _]]. intros Hl'. split; [done|]. destruct (queue_single am _ _ _ Hr Hl') as (x & -> & _). apply Forall_singleton.
      intros ->%elem_of_singleton. apply Hn. split; [|done]. specialize (Hu k _ Hl'). apply Forall_singleton in Hu as (con' & Hc & Hm).
      rewrite Hl in Hc. injection Hc as <-. by apply foreach_fps.
Qed.

Lemma reclaim_all log : forall ids ix st am, sys_inv simulation_level (mk_sys st None false log) -> Forall (fun id => is_Some (log !! id)) ids -> represents kvc (ix_kv ix) am ->
  (forall k l, am !! k = Some l -> Forall (fun id => unit_has log id k) l) ->
  exists ix' st', foldM reclaim_container (ix, st) ids = Ok (ix', st') /\ sys_inv simulation_level (mk_sys st' None false log) /\
    represents kvc (ix_kv ix') (pruned (list_to_set ids) am).
Proof using All.
  induction ids as [|id ids IH]; intros ix st am Hs Hl Hr Hu.
  { exists ix, st. split; [done|]. split; [done|]. assert (pruned (list_to_set []) am = am) as ->; [|done]. apply map_filter_id. intros k l _. apply Forall_forall. set_solver. }
  apply Forall_cons in Hl as [[con Hc] Hl]. destruct (reclaim_one log ix st am id con Hs Hc Hr Hu) as (ix1 & st1 & E & Hs1 & Hr1). cbn [foldM]. rewrite E. step.
  destruct (IH ix1 st1 _ Hs1 Hl Hr1) as (ix2 & st2 & E2 & Hs2 & Hr2); [intros k l [? _]%pruned_lookup; by apply Hu|].
  exists ix2, st2. split; [exact E2|]. split; [exact Hs2|].
  assert (pruned (list_to_set (id :: ids)) am = pruned (list_to_set ids) (pruned {[id]} am)) as ->; [|done].
  apply map_eq. intros k. apply option_eq. intros l. rewrite !pruned_lookup, !Forall_forall. cbn [list_to_set]. set_solver.
Qed.

(** ** The disk after a deletion *)

Lemma pad_single id : pad kvc [id] = [id].
Proof using Hone. unfold pad. cbn [kv_of_config index_value_length]. by rewrite Hone. Qed.

Lemma pruned_represents kv kv' inv am : represents kvc kv am -> represents kvc kv' (pruned inv am) ->
  forall k v, kv' !! k = Some v <-> kv !! k = Some v /\ Forall (fun id => id ∉ inv) v.
Proof using Hone.
  intros Hr Hr' k v. rewrite (proj1 Hr), (proj1 Hr'), !fmap_Some. split.
  - intros (l & [Hl Hf]%pruned_lookup & ->). destruct (queue_single am kv k l Hr Hl) as (id & -> & _). rewrite pad_single. split; [|done].
    exists [id]. by rewrite pad_single.
  - intros [(l & Hl & ->) Hf]. destruct (queue_single am kv k l Hr Hl) as (id & -> & _). rewrite pad_single in Hf.
    exists [id]. split; [by apply pruned_lookup|done].
Qed.

Lemma containers_iter_elem inv id : id ∈ containers_iter inv <-> id ∈ inv.
Proof using HUO.
  unfold containers_iter. rewrite list_elem_of_fmap. split.
  - intros ([x []] & -> & Hin%hash_iter_elem). by apply lookup_gset_to_gmap_Some in Hin as [? _].
  - intros Hin. exists (id, tt). split; [done|]. apply hash_iter_elem. by apply lookup_gset_to_gmap_Some.
Qed.

(** The manifest is not one of the other files. *)
Lemma manifest_not_log wd : manifest_name wd <> log_name.
Proof using. intros E. apply (f_equal last) in E. unfold manifest_name in E. rewrite last_app in E. discriminate E. Qed.

Lemma manifest_not_did wd jobid : manifest_name wd <> did_name wd jobid.
Proof using. intros E%app_inv_head. discriminate E. Qed.
End Delete.

Section Deletion.
Context `{HC : !HashIter fingerprint metaEntry} `{HM : !HashIter Z Z} `{HU : !HashIter Z ()} `{HP : !HashIter fingerprint chunkPointer} `{HK : !HashIter (list Z) (list Z)}.
Context `{HF : !HashIter (list Z) ()} `{HS : !HashIter Z (gset (list Z))}.
Context `{SF : !SeqSort fingerprint} `{SA : !SeqSort (fingerprint * fingerprint)} `{SS : !SeqSort (Z * gset (list Z))} `{SR : !SeqSort accessRecords}.
Context `{HCO : !HashIterOk fingerprint metaEntry} `{HMO : !HashIterOk Z Z} `{HUO : !HashIterOk Z ()} `{HKO : !HashIterOk (list Z) (list Z)}.
Context `{HFO : !HashIterOk (list Z) ()} `{HSO : !HashIterOk Z (gset (list Z))}.
Context `{SFO : !SeqSortOk fingerprint} `{SAO : !SeqSortOk (fingerprint * fingerprint)} `{SSO : !SeqSortOk (Z * gset (list Z))}.
Context `{SRO : !SeqSortOk accessRecords}.
Context (cfg : index_config) (fcfg : filter_config) (content : fingerprint -> list Z).
Context (CO : config_ok cfg) (X : exact cfg) (Hone : value_length cfg = 1).

#[local] Abbreviation delete_backup := (do_delete cfg SIMULATION_NO).
#[local] Abbreviation open_index d := (init_kvstore (kv_of_config cfg) INDEX_KEY_VALUE_HTABLE (dk_index d)).

(** Version [n] of the disk is sent to the client as the data of job [j],
    whatever the cache. *)
Definition sends_version (d : disk) (n : nat) (j : job) : Prop :=
  forall kind size W stack name, kind ∈ [RESTORE_CACHE_LRU; RESTORE_CACHE_OPT; RESTORE_CACHE_ASM] -> size <> 0 -> 0 < W < 2 ^ 30 -> zlen name <= 58 ->
  exists st blocks, init_container_store (dk_pool d) = Ok st /\
    Forall2 (fun c bs => chunk_bytes c (ck_size c) = Ok bs) (normals (chunks_of j.2)) blocks /\
    forall fuel, (restore_fuel (dk_versions d) (Z.of_nat n) <= fuel)%nat -> exists stat,
      do_restore fuel SIMULATION_NO kind size W stack (dk_versions d) st (Z.of_nat n) name = Ok (packets name 0 (blocks ++ [[]]), stat).

(** A version that the jobs left can be opened. *)
Lemma deleted_version_opens h d versions log n j : disk_ok cfg fcfg SIMULATION_NO content h d versions log -> h !! n = Some j -> zlen h < 2 ^ 31 ->
  exists bv, open_backup_version (dk_versions d) (Z.of_nat n) = Ok bv.
Proof using All.
  intros Hd Hj Hh. destruct (dk_version _ _ _ _ _ _ _ _ Hd n j Hj) as (segs & _ & [[Hf _ [Hpl Hpn] _ [Hfl Hcl] _] _]).
  pose proof (lookup_lt_Some _ _ _ Hj) as Hlt. unfold zlen in Hh. pose proof (zlen_nonneg (job_files j)). pose proof (zlen_nonneg (concat segs)).
  destruct (open_spec (dk_versions d) _ _ _ _ _ _ _ Hf) as (b & Eo & _); [unfold in_s; lia..|done|]. by exists b.
Qed.

(** The loop over the reclaimed containers, from the disk to the disk. *)
Lemma entries_deleted h d versions log jobid j inv ix am :
  disk_ok cfg fcfg SIMULATION_NO content h d versions log -> h !! jobid = Some j -> zlen h < 2 ^ 31 -> (forall c, c ∈ inv -> is_Some (log !! c)) ->
  represents (kv_of_config cfg) (ix_kv ix) am -> (forall k l, am !! k = Some l -> Forall (fun id => unit_has log id k) l) ->
  exists ix' pool, delete_entries cfg SIMULATION_NO (Z.of_nat jobid) inv d ix = Ok (ix', Some pool) /\ represents (kv_of_config cfg) (ix_kv ix') (pruned inv am) /\
    exists st, init_container_store (Some pool) = Ok st /\ sys_inv SIMULATION_NO (mk_sys st None false log).
Proof using All.
  intros Hd Hj Hh Hinv Hr Hu. destruct (dk_store _ _ _ _ _ _ _ _ Hd) as (st & Est & Hs). destruct (deleted_version_opens h d versions log jobid j Hd Hj Hh) as (bv & Eo).
  unfold delete_entries. destruct X as [_ X2]. rewrite X2. cbn [Z.eqb]. change (INDEX_CATEGORY_PHYSICAL_LOCALITY =? INDEX_CATEGORY_PHYSICAL_LOCALITY) with true. cbv beta iota.
  rewrite Est. step. rewrite Eo. step.
  destruct (reclaim_all cfg SIMULATION_NO CO X Hone log (containers_iter inv) ix st am Hs) as (ix' & st' & E & Hs' & Hr'); [|done|done|].
  { apply Forall_forall. intros c Hc%containers_iter_elem. by apply Hinv. }
  rewrite E. step. destruct (container_reopens SIMULATION_NO st' log Hs') as (f & st2 & Ef & Ei & _ & Hs2). rewrite Ef. step.
  exists ix', (fdata f). split; [done|]. split; [|by exists st2].
  assert (list_to_set (containers_iter inv) = inv) as <-; [|done]. apply set_eq. intros c. by rewrite elem_of_list_to_set, containers_iter_elem.
Qed.

(** The index with the entries that are left. *)
Lemma index_opens d kv : open_index d = Ok kv -> exists ix, init_index cfg (dk_index d) = Ok ix /\ ix_kv ix = kv.
Proof using CO.
  intros E. unfold init_index. rewrite E. step. unfold init_fingerprint_cache. destruct (co_category cfg CO) as [-> | ->]; by eexists.
Qed.

Lemma pruned_entries versions log kv inv am : represents (kv_of_config cfg) kv (pruned inv am) ->
  (forall k l, am !! k = Some l -> zlen k = key_size cfg) -> (forall k l, am !! k = Some l -> Forall (prefetchable cfg versions log) l) ->
  (exact cfg -> forall (k : list Z) l, am !! k = Some l -> Forall (fun id => unit_has log id k) l) ->
  kv_ok cfg (prefetchable cfg versions log) (unit_has log) kv.
Proof using.
  intros Hr Hk Hp Hu. exists (pruned inv am). split; [exact Hr|]. split; [intros k l [? _]%pruned_lookup; by eapply Hk|].
  split; [intros k l [? _]%pruned_lookup; by eapply Hp|]. intros HX k l [? _]%pruned_lookup. by apply (Hu HX).
Qed.

Lemma index_reopens versions log st kv inv am : sys_inv SIMULATION_NO (mk_sys st None false log) -> represents (kv_of_config cfg) kv (pruned inv am) ->
  (forall k l, am !! k = Some l -> zlen k = key_size cfg) -> (forall k l, am !! k = Some l -> Forall (prefetchable cfg versions log) l) ->
  (exact cfg -> forall (k : list Z) l, am !! k = Some l -> Forall (fun id => unit_has log id k) l) -> Z.of_nat (size kv) < 2 ^ 31 ->
  init_kvstore (kv_of_config cfg) INDEX_KEY_VALUE_HTABLE (Some (fdata (close_kvstore_htable (kv_of_config cfg) kv))) = Ok kv.
Proof using CO Hone HKO.
  intros Hs Hr Hk Hp Hu Hn. pose proof (co_length cfg CO). pose proof (co_key cfg CO). apply dump_roundtrip; [cbn; lia|cbn; lia|exact HKO| |unfold in_s; cbn; lia|exact Hn].
  eapply (index_entries cfg SIMULATION_NO CO versions log st); [exact Hs|]. by eapply pruned_entries.
Qed.

(** Entries are only removed. *)
Lemma pruned_size (kv kv' : kvstore) (inv : gset Z) : (forall k v, kv' !! k = Some v <-> kv !! k = Some v /\ Forall (fun id : Z => id ∉ inv) v) -> Z.of_nat (size kv') <= Z.of_nat (size kv).
Proof using.
  intros H. apply inj_le. rewrite <- !size_dom. apply subseteq_size. intros k [v Hv]%elem_of_dom. apply H in Hv as [Hv _]. apply elem_of_dom. by exists v.
Qed.

(** A node between two jobs: its disk is that of the jobs [h] but for the index,
    whose entries [kv] may be fewer than those of the jobs. *)
Record node_ok (h : list job) (d : disk) (versions : gmap Z (list (list chunkPointer))) (log : gmap Z container) (kv : kvstore) : Prop := {
  no_disk : exists index, disk_ok cfg fcfg SIMULATION_NO content h (mk_disk (dk_versions d) (dk_counter d) (dk_pool d) index) versions log;
  no_index : open_index d = Ok kv;
  no_entries : kv_ok cfg (prefetchable cfg versions log) (unit_has log) kv;
  no_small : Z.of_nat (size kv) < 2 ^ 31;
}.

(** The keys that are read are as many as the file says. *)
Lemma read_kvs_size n : forall f (ht ht' : kvstore), read_kvs (kv_of_config cfg) n f ht = Ok ht' -> (size ht' <= size ht + n)%nat.
Proof using.
  induction n as [|n IH]; intros f ht ht'; cbn [read_kvs]; [intros [= <-]; lia|].
  intros ([[k v] g] & _ & E)%bind_Ok. apply IH in E. pose proof (map_size_insert k v ht). destruct (ht !! k); cbn in *; lia.
Qed.

(** After a job every node is one. *)
Lemma job_node h d versions log : disk_ok cfg fcfg SIMULATION_NO content h d versions log -> dump_small d -> exists kv, node_ok h d versions log kv.
Proof using.
  intros Hd Hs. destruct (dk_kv _ _ _ _ _ _ _ _ Hd Hs) as (kv & E & Hkv & _). exists kv. split; [exists (dk_index d); by destruct d|exact E|exact Hkv|].
  unfold init_kvstore in E. change (INDEX_KEY_VALUE_HTABLE =? INDEX_KEY_VALUE_HTABLE) with true in E. cbv beta iota in E. unfold init_kvstore_htable in E.
  destruct (dk_index d) as [data|]; [|injection E as <-; by rewrite map_size_empty]. destruct (fread_obj _ _) as [[r n] f]. apply read_kvs_size in E.
  rewrite map_size_empty in E. pose proof (swrap_range 32 (le_val n) ltac:(lia)) as Hr. unfold in_s in Hr. lia.
Qed.

(** C6: With an exact index over containers with one value per fingerprint
    ([value_length] is 1), and a manifest of containers of the pool, the deletion of
    a version reclaims exactly the containers that the manifest stamps with that
    version or an older one; afterwards the index is what it was without the entries
    of these containers, and the manifest what it was without them. The pool keeps
    the containers and the files of the version are not touched, so every version
    of one file, the deleted one too, is still restored to its data, and further
    versions can be deleted. (A version of more files is not restored at all, before
    or after: C32.) *)
Theorem deletion_prunes_index wd jobid h j d versions log kv files m :
  node_ok h d versions log kv -> zlen h < 2 ^ 31 -> h !! jobid = Some j ->
  files !! manifest_name wd = Some (manifest_text m) -> stamps_ok m -> (forall c, is_Some (m !! c) -> is_Some (log !! c)) ->
  exists d' files' (inv : gset Z) kv', delete_backup wd (Z.of_nat jobid) d files = Ok (d', files') /\
    (forall c, c ∈ inv <-> exists time, m !! c = Some time /\ time <= Z.of_nat jobid) /\
    files' !! manifest_name wd = Some (manifest_text (younger (Z.of_nat jobid) m)) /\
    node_ok h d' versions log kv' /\ (forall k v, kv' !! k = Some v <-> kv !! k = Some v /\ Forall (fun id => id ∉ inv) v) /\
    dk_versions d' = dk_versions d /\
    (forall n j, h !! n = Some j -> length (job_files j) = 1%nat -> sends_version d' n j).
Proof using All.
  intros [(index & Hd) Ekv (am & Hr & Hk & Hp & Hu) Hsmall] Hh Hj Hm Hst Hlog. destruct (trunc_manifest_ok wd (Z.of_nat jobid) files m Hm Hst) as (inv & Et & Hinv).
  destruct (index_opens d kv Ekv) as (ix & Eix & Eikv). rewrite <- Eikv in Hr.
  destruct (entries_deleted h _ versions log jobid j inv ix am Hd Hj Hh) as (ix' & pool & E & Hr' & st & Ei & Hs); [|exact Hr|by apply Hu|].
  { intros x (t & Hx & _)%Hinv. apply Hlog. by exists t. }
  change (delete_entries cfg SIMULATION_NO (Z.of_nat jobid) inv d ix = Ok (ix', Some pool)) in E.
  unfold do_delete. rewrite Et. step. rewrite Eix. step. rewrite E. step. eexists _, _, inv, (ix_kv ix'). split; [reflexivity|].
  assert (Hspec := pruned_represents cfg Hone _ _ inv am Hr Hr'). rewrite Eikv in Hspec.
  assert (Hcnt : init_recipe_store (dk_counter d) = zlen h) by exact (dk_count _ _ _ _ _ _ _ _ Hd). rewrite Hcnt.
  assert (Hd' : disk_ok cfg fcfg SIMULATION_NO content h (mk_disk (dk_versions d) (Some (close_recipe_store (zlen h))) (Some pool) index) versions log).
  { destruct Hd as [K1 K2 K3 K4 K5 K6 K7 K8 K9]. split; [|exact K2|exact K3|exact K4|by exists st|exact K6|exact K7|exact K8|exact K9].
    apply counter_roundtrip. pose proof (zlen_nonneg h). lia. }
  split; [exact Hinv|]. split; [|split; [split; cbn [dk_versions dk_counter dk_pool dk_index]; [by exists index| | |]|split; [exact Hspec|split; [done|]]]].
  - rewrite lookup_insert_ne by (apply not_eq_sym, manifest_not_did). rewrite lookup_insert_ne by (apply not_eq_sym, manifest_not_log). apply lookup_insert_eq.
  - apply (index_reopens versions log st (ix_kv ix') inv am Hs Hr' Hk Hp Hu). eapply Z.le_lt_trans; [|exact Hsmall]. by apply pruned_size with (inv := inv).
  - by apply (pruned_entries versions log (ix_kv ix') inv am).
  - eapply Z.le_lt_trans; [|exact Hsmall]. by apply pruned_size with (inv := inv).
  - intros n j' Hj' Hf kind size W stack name H1 H2 H3 H4.
    by apply (disk_restores cfg fcfg 0 0 CO ltac:(rewrite Hone; lia) content h _ versions log n j' kind size W stack name Hd').
Qed.
End Deletion.

(** ** A concrete run *)

Section Demo.
#[local] Existing Instance std_hash_iter.
#[local] Existing Instance std_hash_iter_ok.
#[local] Existing Instance std_seq_sort.
#[local] Existing Instance std_seq_sort_ok.

#[local] Abbreviation open_demo d := (init_kvstore (kv_of_config demo_index_config) INDEX_KEY_VALUE_HTABLE (dk_index d)).

(** A node that has done one job, whose index has one entry. *)
Lemma demo_node : exists d versions log c fp, node_ok demo_index_config demo_filter_config demo_content [demo_job] d versions log {[ fp := [c] ]} /\
  is_Some (log !! c) /\ 0 <= c < 2 ^ 63.
Proof.
  destruct demo_history as (d & Hh). destruct (Job.history_ok demo_index_config demo_filter_config 0 0 1 demo_config_ok eq_refl demo_content _ d Hh) as (versions & log & Hd).
  destruct (dk_version _ _ _ _ _ _ _ _ Hd 0%nat demo_job eq_refl) as (segs & Hv & _ & Hk).
  destruct (concat segs) as [|cp cps] eqn:Ec; [done|]. destruct (dk_ptrs _ _ _ _ _ _ _ _ Hd _ _ Hv) as (_ & _ & _ & Hp). rewrite Ec in Hp.
  apply Forall_cons in Hp as [[(Hge & con & Hid & [me Hme] & [Hl|]) _] _]; [|done]. destruct (dk_store _ _ _ _ _ _ _ _ Hd) as (st & Est & Hi).
  destruct (si_log _ _ Hi _ _ Hl) as ([Hok _] & _ & _ & _ & Hlt). pose proof (si_count _ _ Hi) as Hc. cbn in Hlt, Hc. unfold count_max in Hc.
  destruct (mo_entry _ Hok _ _ Hme) as (_ & Hlen & _). set (fp := cp_fp cp) in *. set (c := cp_id cp) in *.
  set (kv := {[ fp := [c] ]} : kvstore). assert (Hr : represents (kv_of_config demo_index_config) kv kv).
  { split.
    - intros k. unfold kv. destruct (decide (k = fp)) as [->|Hne]; [by rewrite lookup_singleton_eq|by rewrite lookup_singleton_ne].
    - intros k l [<- <-]%lookup_singleton_Some. split; [done|]. split; [apply NoDup_singleton|]. split; [|cbn; lia]. intros Ht%list_elem_of_singleton. unfold TEMPORARY_ID in Ht. lia. }
  assert (Hu : unit_has log c fp) by (exists con; split; [exact Hl|by exists me]).
  assert (Hkv : kv_ok demo_index_config (prefetchable demo_index_config versions log) (unit_has log) kv).
  { exists kv. split; [exact Hr|]. split; [|split].
    - intros k l [<- <-]%lookup_singleton_Some. exact Hlen.
    - intros k l [<- <-]%lookup_singleton_Some. apply Forall_singleton. split; [exact Hge|by exists con].
    - intros _ k l [<- <-]%lookup_singleton_Some. by apply Forall_singleton. }
  exists (mk_disk (dk_versions d) (dk_counter d) (dk_pool d) (Some (fdata (close_kvstore_htable (kv_of_config demo_index_config) kv)))), versions, log, c, fp.
  split; [|split; [by exists con|lia]]. split; cbn [dk_versions dk_counter dk_pool dk_index].
  - exists (dk_index d). by destruct d.
  - apply dump_roundtrip; [cbn; lia|cbn; unfold fp_size; lia|exact std_hash_iter_ok| |unfold in_s; cbn; lia|unfold kv; by rewrite map_size_singleton].
    eapply (index_entries demo_index_config 0 demo_config_ok versions log st); [exact Hi|exact Hkv].
  - exact Hkv.
  - by rewrite map_size_singleton.
Qed.

Lemma deletion_prunes_index_witness : exists d d' files' kv' c fp,
  open_demo d = Ok {[ fp := [c] ]} /\ do_delete demo_index_config 0 [] 0 d {[ manifest_name [] := manifest_text {[ c := 0 ]} ]} = Ok (d', files') /\
  open_demo d' = Ok kv' /\ kv' !! fp = None /\ sends_version d' 0 demo_job.
Proof.
  destruct demo_node as (d & versions & log & c & fp & Hn & Hl & Hc).
  destruct (deletion_prunes_index demo_index_config demo_filter_config demo_content demo_config_ok (conj eq_refl eq_refl) eq_refl [] 0 [demo_job] demo_job d versions log _
    {[ manifest_name [] := manifest_text {[ c := 0 ]} ]} {[ c := 0 ]} Hn) as (d' & files' & inv & kv' & E & Hinv & _ & Hn' & Hkv & _ & Hsend).
  - reflexivity.
  - reflexivity.
  - apply lookup_insert_eq.
  - apply map_Forall_singleton. split; cbn [fst snd]; lia.
  - intros x [y Hx]. apply lookup_singleton_Some in Hx as [<- _]. exact Hl.
  - exists d, d', files', kv', c, fp. split; [exact (no_index _ _ _ _ _ _ _ _ Hn)|]. split; [exact E|]. split; [exact (no_index _ _ _ _ _ _ _ _ Hn')|].
    split; [|exact (Hsend 0%nat demo_job eq_refl eq_refl)]. destruct (kv' !! fp) as [v|] eqn:Ev; [|reflexivity]. apply Hkv in Ev as [Hv Hf].
    rewrite lookup_singleton_eq in Hv. injection Hv as <-. apply Forall_cons in Hf as [Hf _]. exfalso. apply Hf, Hinv. exists 0. split; [apply lookup_insert_eq|lia].
Defined.
End Demo.
