(* ===== verification/Fsl.v ===== *)
(** Traces of the File systems and Storage Lab: [read_fsl_trace] of
    [destor/src/fsl/read_fsl_trace.c].

    The hash file is read through the library libhashfile, which is bundled:
    [HashFile] are the functions that are used and [HashFileOk] is what its header
    documents of them, over the files and chunks that are still to come. *)

From S2P Require Import Prelude CText Destor Container ReadPhase FilterInv.

(** [struct chunk_info], of which the hash and the size are used. *)
Record chunk_info := mk_ci { ci_hash : list Z; ci_size : Z }.

Class HashFile (H : Type) := {
  hashfile_open : list Z -> option H;
  hashfile_chunking_method_str : H -> Z;
  hashfile_hashing_method_str : H -> Z;
  hashfile_hash_size : H -> Z;
  hashfile_next_file : H -> Z * H;
  hashfile_curfile_path : H -> list Z;
  hashfile_next_chunk : H -> option chunk_info * H;
}.

(** A file of a trace: its path and its chunks. *)
Abbreviation hashed_file := (list Z * list chunk_info)%type.

(** The chunks of the current file and the files that are left. An [errno] of the
    library, a negative result, is not part of it. *)
Class HashFileOk (H : Type) `{HashFile H} := {
  hf_chunks : H -> list chunk_info;
  hf_files : H -> list hashed_file;
  hf_next_file h : match hf_files h with
    | [] => (hashfile_next_file h).1 = 0
    | (path, cs) :: fs => exists r h', hashfile_next_file h = (r, h') /\ 0 < r /\ hashfile_curfile_path h' = path /\
        hf_chunks h' = cs /\ hf_files h' = fs /\ hashfile_hash_size h' = hashfile_hash_size h
    end;
  hf_next_chunk h : match hf_chunks h with
    | [] => exists h', hashfile_next_chunk h = (None, h') /\ hf_files h' = hf_files h /\ hashfile_hash_size h' = hashfile_hash_size h
    | ci :: cs => exists h', hashfile_next_chunk h = (Some ci, h') /\ hf_chunks h' = cs /\ hf_files h' = hf_files h /\ hashfile_hash_size h' = hashfile_hash_size h
    end;
}.

Section Fsl.
Context {H : Type} `{HF : HashFile H}.

(** [memset(c->fp, 0, sizeof(fingerprint)); memcpy(c->fp, ci->hash, hash_size / 8)] *)
Definition fsl_chunk (handle : H) (ci : chunk_info) : res chunk :=
  let c := new_chunk 0 in
  hash ← read_bytes (ci_hash ci) 0 (hashfile_hash_size handle / 8);
  fp ← write_bytes (zeros fp_size) 0 hash;
  Ok (mk_chunk (s32 (ci_size ci)) (ck_flag c) (ck_id c) fp (ck_data c)).

(** The inner loop, which ends with a null pointer. *)
Fixpoint fsl_chunks (fuel : nat) (handle : H) : res (list chunk * H) :=
  match fuel with
  | O => Err EFuel
  | S fuel =>
      match hashfile_next_chunk handle with
      | (None, handle) => Ok ([], handle)
      | (Some ci, handle) => c ← fsl_chunk handle ci; '(cs, handle) ← fsl_chunks fuel handle; Ok (c :: cs, handle)
      end
  end.

(** The outer loop: what is pushed into [trace_queue]. *)
Fixpoint fsl_files (files chunks : nat) (handle : H) : res (list chunk) :=
  match files with
  | O => Err EFuel
  | S files =>
      let '(ret, handle) := hashfile_next_file handle in
      if ret <? 0 then Err (EExit 1) else
      if ret =? 0 then Ok [] else
      start ← filled_chunk (hashfile_curfile_path handle ++ [0]);
      '(cs, handle) ← fsl_chunks chunks handle;
      rest ← fsl_files files chunks handle;
      Ok (SET_CHUNK start CHUNK_FILE_START :: cs ++ SET_CHUNK (new_chunk 0) CHUNK_FILE_END :: rest)
  end.

Definition read_fsl_trace (files chunks : nat) (path : list Z) : res (list chunk) :=
  match hashfile_open path with
  | None => Err (EExit 1)
  | Some handle =>
      if hashfile_chunking_method_str handle <? 0 then Err (EExit 1) else
      if hashfile_hashing_method_str handle <? 0 then Err (EExit 1) else
      fsl_files files chunks handle
  end.

(** ** The stream *)

Context `{HO : !HashFileOk H}.

(** A chunk of the trace: its hash, with zeros after it. *)
Definition fsl_normal (ci : chunk_info) : chunk :=
  mk_chunk (s32 (ci_size ci)) CHUNK_UNIQUE TEMPORARY_ID (ci_hash ci ++ zeros (fp_size - zlen (ci_hash ci))) None.
Definition fsl_stream (fs : list hashed_file) : list chunk :=
  concat (map (fun f : hashed_file =>
    SET_CHUNK (block_chunk (f.1 ++ [0])) CHUNK_FILE_START ::
    map fsl_normal f.2 ++ [SET_CHUNK (new_chunk 0) CHUNK_FILE_END]) fs).

Lemma fsl_chunk_ok handle ci : zlen (ci_hash ci) = hashfile_hash_size handle / 8 ->
  fsl_chunk handle ci = if zlen (ci_hash ci) <=? fp_size then Ok (fsl_normal ci) else Err EBounds.
Proof.
  intros Hl. unfold fsl_chunk. rewrite <- Hl. unfold read_bytes. rewrite bool_decide_eq_true_2 by (pose proof (zlen_nonneg (ci_hash ci)); lia). step.
  rewrite zdrop_0, ztake_ge by lia. unfold write_bytes. rewrite zlen_zeros by done. pose proof (zlen_nonneg (ci_hash ci)).
  destruct (Z.leb_spec (zlen (ci_hash ci)) fp_size).
  - rewrite bool_decide_eq_true_2 by lia. step. unfold fsl_normal. do 2 f_equal. rewrite ztake_0. cbn [app]. f_equal.
    unfold zdrop, zeros. rewrite drop_replicate. f_equal. lia.
  - by rewrite bool_decide_eq_false_2 by lia.
Qed.

(** A hash has as many bytes as the header of the hash file says. *)
Definition hashes_sized (handle : H) (cs : list chunk_info) : Prop := Forall (fun ci => zlen (ci_hash ci) = hashfile_hash_size handle / 8) cs.
Definition fits_fp (cs : list chunk_info) : bool := forallb (fun ci => zlen (ci_hash ci) <=? fp_size) cs.

Lemma fsl_chunks_ok : forall fuel handle, hashes_sized handle (hf_chunks handle) -> (length (hf_chunks handle) < fuel)%nat ->
  if fits_fp (hf_chunks handle)
  then exists handle', fsl_chunks fuel handle = Ok (map fsl_normal (hf_chunks handle), handle') /\ hf_files handle' = hf_files handle /\ hashfile_hash_size handle' = hashfile_hash_size handle
  else fsl_chunks fuel handle = Err EBounds.
Proof.
  unfold hashes_sized, fits_fp. induction fuel as [|fuel IH]; intros handle Hh Hf; [lia|]. cbn [fsl_chunks]. pose proof (hf_next_chunk handle) as Hn.
  destruct (hf_chunks handle) as [|ci cs].
  - destruct Hn as (h' & -> & Ef & Es). cbn [forallb map]. eauto.
  - destruct Hn as (h' & -> & Ec & Ef & Es). apply Forall_cons in Hh as [Hci Hcs]. cbn [forallb map]. rewrite fsl_chunk_ok by by rewrite Es.
    destruct (zlen (ci_hash ci) <=? fp_size); cbn [andb]; [|done]. step. specialize (IH h'). rewrite Ec, Es in IH. specialize (IH Hcs ltac:(cbn in Hf; lia)).
    destruct (forallb _ cs); [destruct IH as (h2 & -> & E2 & Es2)|by rewrite IH]. step. exists h2. split; [done|]. split; congruence.
Qed.

Lemma fsl_files_ok chunks : forall files handle, Forall (fun f : hashed_file => hashes_sized handle f.2 /\ (length f.2 < chunks)%nat) (hf_files handle) ->
  (length (hf_files handle) < files)%nat ->
  fsl_files files chunks handle = if forallb (fun f : hashed_file => fits_fp f.2) (hf_files handle) then Ok (fsl_stream (hf_files handle)) else Err EBounds.
Proof.
  induction files as [|files IH]; intros handle Hh Hf; [lia|]. cbn [fsl_files]. pose proof (hf_next_file handle) as Hn.
  destruct (hf_files handle) as [|[path cs] fs].
  - destruct (hashfile_next_file handle) as [r h']. cbn in Hn. by subst r.
  - destruct Hn as (r & h' & -> & Hr & Ep & Ec & Ef & Es). apply Forall_cons in Hh as [[Hsz Hlen] Hfs]. rewrite (proj2 (Z.ltb_ge r 0)), (proj2 (Z.eqb_neq r 0)) by lia.
    rewrite Ep, filled_chunk_ok by by destruct path. step.
    pose proof (fsl_chunks_ok chunks h') as Hc. unfold hashes_sized in Hc. rewrite Ec, Es in Hc. specialize (Hc Hsz Hlen). cbn [forallb snd].
    destruct (fits_fp cs); cbn [andb]; [|by rewrite Hc]. destruct Hc as (h2 & -> & Ef2 & Es2). step. rewrite Ef in Ef2.
    specialize (IH h2). rewrite Ef2 in IH. rewrite IH; [|eapply Forall_impl; [exact Hfs|]; unfold hashes_sized; cbn beta; rewrite Es2; tauto|cbn in Hf; lia].
    destruct (forallb _ fs); [|done]. step. unfold fsl_stream. cbn [map concat app]. do 2 f_equal. by rewrite <- app_assoc.
Qed.

(** The stream has every file between a start and an end. *)
Lemma fsl_stream_ok fs : file_stream false (fsl_stream fs) = Some false.
Proof.
  unfold fsl_stream. induction fs as [|[path cs] fs IH]; [done|]. cbn [map concat fst snd app]. cbn [file_stream].
  change (CHECK_CHUNK (SET_CHUNK (block_chunk (path ++ [0])) CHUNK_FILE_START) CHUNK_FILE_START) with true. cbv beta iota. rewrite <- app_assoc.
  induction cs as [|ci cs IHc]; [exact IH|]. cbn [map app file_stream]. exact IHc.
Qed.

(** C40: A hash file is replayed as it is: [read_fsl_trace] hands over every file in
    order, its path with the terminator, its chunks with their sizes and their
    hashes padded with zeros to a fingerprint, and its end; the stream has the
    shape the next phases rely on. A hash of more than 20 bytes, which the format
    allows, is written past the fingerprint of the chunk. *)
Theorem fsl_trace_replayed path handle files chunks : hashfile_open path = Some handle ->
  0 <= hashfile_chunking_method_str handle -> 0 <= hashfile_hashing_method_str handle ->
  Forall (fun f : hashed_file => hashes_sized handle f.2 /\ (length f.2 < chunks)%nat) (hf_files handle) -> (length (hf_files handle) < files)%nat ->
  file_stream false (fsl_stream (hf_files handle)) = Some false /\
  read_fsl_trace files chunks path =
    if forallb (fun f : hashed_file => forallb (fun ci => zlen (ci_hash ci) <=? fp_size) f.2) (hf_files handle)
    then Ok (fsl_stream (hf_files handle)) else Err EBounds.
Proof.
  intros Ho Hc Hm Hf Hl. split; [apply fsl_stream_ok|]. unfold read_fsl_trace. rewrite Ho, !(proj2 (Z.ltb_ge _ 0)) by done. by apply fsl_files_ok.
Qed.
End Fsl.

(** ** A library that reads from memory *)

Record mem_file := mk_mem { mf_bits : Z; mf_path : list Z; mf_chunks : list chunk_info; mf_files : list hashed_file }.

Definition mem_hash_file (fs : list hashed_file) (bits : Z) : HashFile mem_file := {|
  hashfile_open _ := Some (mk_mem bits [] [] fs);
  hashfile_chunking_method_str _ := 0;
  hashfile_hashing_method_str _ := 0;
  hashfile_hash_size := mf_bits;
  hashfile_next_file h := match mf_files h with [] => (0, h) | (path, cs) :: fs => (1, mk_mem (mf_bits h) path cs fs) end;
  hashfile_curfile_path := mf_path;
  hashfile_next_chunk h := match mf_chunks h with [] => (None, h) | ci :: cs => (Some ci, mk_mem (mf_bits h) (mf_path h) cs (mf_files h)) end;
|}.

Lemma mem_hash_file_ok fs bits : @HashFileOk mem_file (mem_hash_file fs bits).
Proof.
  apply (@Build_HashFileOk mem_file (mem_hash_file fs bits) mf_chunks mf_files).
  - intros [b p cs [|[path cs'] fs']]; cbn; [done|]. by do 2 eexists.
  - intros [b p [|ci cs] fs']; cbn; by eexists.
Defined.

(** A file of one chunk with a hash of 48 bits, and one with a hash of 256. *)
Definition demo_trace (n : Z) : list hashed_file := [([97], [mk_ci (replicate (Z.to_nat n) 7) 4096])].

Lemma fsl_trace_replayed_witness :
  @read_fsl_trace mem_file (mem_hash_file (demo_trace 6) 48) 2 2 [] = Ok (fsl_stream (demo_trace 6)) /\
  @read_fsl_trace mem_file (mem_hash_file (demo_trace 32) 256) 2 2 [] = Err EBounds.
Proof.
  split.
  - apply (@fsl_trace_replayed mem_file (mem_hash_file (demo_trace 6) 48) (mem_hash_file_ok _ _) [] (mk_mem 48 [] [] (demo_trace 6)) 2 2); [reflexivity|done|done| |cbn; lia].
    apply Forall_singleton. split; [apply Forall_singleton; reflexivity|cbn; lia].
  - apply (@fsl_trace_replayed mem_file (mem_hash_file (demo_trace 32) 256) (mem_hash_file_ok _ _) [] (mk_mem 256 [] [] (demo_trace 32)) 2 2); [reflexivity|done|done| |cbn; lia].
    apply Forall_singleton. split; [apply Forall_singleton; reflexivity|cbn; lia].
Defined.
