(* ===== verification/Bloom.v ===== *)
(** The Bloom filter of [destor/src/utils/bloom_filter.c].

    The filter is the array that the caller allocates and clears: its bytes by
    index, where a byte that is not in the map is zero. The hash functions read
    [len] bytes of the word; what they give is an [unsigned int]. *)

From S2P Require Import Prelude Chunking.

Definition FILTER_SIZE : Z := 30.
Definition NUM_HASHES : Z := 4.
Definition FILTER_SIZE_BYTES : Z := Z.shiftl 1 (FILTER_SIZE - 3).
Definition FILTER_BITMASK : Z := Z.shiftl 1 FILTER_SIZE - 1.

(** ** Hash functions *)

Definition RSHash (str : list Z) : Z :=
  fst (foldl (fun '(hash, a) ch => (u32 (hash * a + ch), u32 (a * 378551))) (0, 63689) str).

Definition JSHash (str : list Z) : Z :=
  foldl (fun hash ch => Z.lxor hash (u32 (u32 (Z.shiftl hash 5) + ch + Z.shiftr hash 2))) 1315423911 str.

Definition HighBits : Z := u32 (Z.shiftl (2 ^ 32 - 1) (32 - 4)).

Definition PJWHash (str : list Z) : Z :=
  foldl (fun hash ch =>
    let hash := u32 (u32 (Z.shiftl hash 4) + ch) in
    let test := Z.land hash HighBits in
    if negb (test =? 0) then Z.land (Z.lxor hash (Z.shiftr test 24)) (u32 (Z.lnot HighBits)) else hash) 0 str.

Definition SDBMHash (str : list Z) : Z :=
  foldl (fun hash ch => u32 (ch + u32 (Z.shiftl hash 6) + u32 (Z.shiftl hash 16) - hash)) 0 str.

Definition DJBHash (str : list Z) : Z :=
  foldl (fun hash ch => u32 (u32 (Z.shiftl hash 5) + hash + ch)) 5381 str.

Definition DEKHash (str : list Z) : Z :=
  foldl (fun hash ch => Z.lxor (Z.lxor (u32 (Z.shiftl hash 5)) (Z.shiftr hash 27)) ch) (u32 (zlen str)) str.

Definition FNVHash (str : list Z) : Z :=
  foldl (fun hash ch => Z.lxor (u32 (hash * 2166136261)) ch) 0 str.

Definition hash_func : list (list Z -> Z) := [RSHash; DJBHash; FNVHash; JSHash; PJWHash; SDBMHash; DEKHash].

(** ** The filter *)

Definition used_hashes : list (list Z -> Z) := ztake NUM_HASHES hash_func.

(** [(hash >> FILTER_SIZE) ^ (hash & FILTER_BITMASK)] *)
Definition fold_hash (hash : Z) : Z := Z.lxor (Z.shiftr hash FILTER_SIZE) (Z.land hash FILTER_BITMASK).

Definition filter_byte (filter : gmap Z Z) (i : Z) : res Z :=
  if (0 <=? i) && (i <? FILTER_SIZE_BYTES) then Ok (default 0 (filter !! i)) else Err EBounds.

Definition insert_bit (word : list Z) (filter : gmap Z Z) (h : list Z -> Z) : res (gmap Z Z) :=
  let hash := fold_hash (h word) in
  b ← filter_byte filter (Z.shiftr hash 3);
  Ok (<[Z.shiftr hash 3 := u8 (Z.lor b (Z.shiftl 1 (Z.land hash 7)))]> filter).

Definition insert_word (filter : gmap Z Z) (str : list Z) (len : Z) : res (gmap Z Z) :=
  word ← read_bytes str 0 (u32 len);
  foldM (insert_bit word) filter used_hashes.

Fixpoint test_bits (filter : gmap Z Z) (word : list Z) (hs : list (list Z -> Z)) : res Z :=
  match hs with
  | [] => Ok 1
  | h :: hs =>
      let hash := fold_hash (h word) in
      b ← filter_byte filter (Z.shiftr hash 3);
      if Z.land b (Z.shiftl 1 (Z.land hash 7)) =? 0 then Ok 0 else test_bits filter word hs
  end.

Definition in_dict (filter : gmap Z Z) (str : list Z) (len : Z) : res Z :=
  word ← read_bytes str 0 (u32 len);
  test_bits filter word used_hashes.

(** ** The positions of a word *)

Definition positions (word : list Z) : list Z := map (fun h => fold_hash (h word)) used_hashes.

Lemma foldl_u32 (f : Z -> Z -> Z) : (forall x ch, in_u 32 x -> is_byte ch -> in_u 32 (f x ch)) ->
  forall str x, Forall is_byte str -> in_u 32 x -> in_u 32 (foldl f x str).
Proof. intros Hf str x Hs. revert x. induction Hs as [|ch str Hc _ IH]; intros x Hx; [done|]. by apply IH, Hf. Qed.

Lemma byte_u32 ch : is_byte ch -> in_u 32 ch.
Proof. unfold is_byte, in_u. lia. Qed.

Lemma lxor_u32 a b : in_u 32 a -> in_u 32 b -> in_u 32 (Z.lxor a b).
Proof. intros Ha Hb. by apply lxor_bound. Qed.

Lemma shiftr_u32 a n : 0 <= n -> in_u 32 a -> in_u 32 (Z.shiftr a n).
Proof.
  unfold in_u. intros Hn Ha. rewrite Z.shiftr_div_pow2 by done. pose proof (Z.pow_pos_nonneg 2 n ltac:(lia) Hn). split; [apply Z.div_pos; lia|].
  apply Z.div_lt_upper_bound; [lia|]. nia.
Qed.

(** Every hash is an [unsigned int]. *)
Lemma hashes_u32 word : Forall is_byte word -> Forall (fun h : list Z -> Z => in_u 32 (h word)) hash_func.
Proof.
  intros Hb. assert (Hu : forall z, in_u 32 (u32 z)) by (intros z; by apply uwrap_range). unfold hash_func. rewrite !Forall_cons. split; [|split; [|split; [|split; [|split; [|split; [|split; [|by constructor]]]]]]].
  - unfold RSHash. assert (H : forall str p, in_u 32 (fst p) -> in_u 32 (fst (foldl (fun '(hash, a) ch => (u32 (hash * a + ch), u32 (a * 378551))) p str))).
    { clear - Hu. induction str as [|ch str IH]; intros [x a] Hx; [done|]. apply IH. apply Hu. }
    by apply H.
  - apply foldl_u32; [intros x ch _ _; apply Hu|done|done].
  - apply foldl_u32; [|done|done]. intros x ch _ Hc. apply lxor_u32; [apply Hu|by apply byte_u32].
  - apply foldl_u32; [|done|done]. intros x ch Hx _. apply lxor_u32; [done|apply Hu].
  - apply foldl_u32; [|done|done]. intros x ch _ _. cbv zeta. destruct (negb _); [|apply Hu].
    assert (Hl : forall a b, 0 <= a -> in_u 32 b -> in_u 32 (Z.land a b)).
    { clear. unfold in_u. intros a b Ha Hb. split; [apply Z.land_nonneg; lia|]. destruct (decide (Z.land a b = 0)) as [->|Hne]; [lia|]. apply Z.log2_lt_pow2; [pose proof (Z.land_nonneg a b); lia|].
      pose proof (Z.log2_land a b Ha ltac:(lia)). destruct (decide (b = 0)) as [->|Hb0]; [by rewrite Z.land_0_r in Hne|]. pose proof (Z.log2_lt_pow2 b 32 ltac:(lia)). lia. }
    apply Hl; [|apply Hu]. apply Z.lxor_nonneg. split; intros _; [|apply Hu]. apply Z.shiftr_nonneg, Z.land_nonneg. left. apply Hu.
  - apply foldl_u32; [intros x ch _ _; apply Hu|done|done].
  - apply foldl_u32; [|done|apply Hu]. intros x ch Hx Hc. apply lxor_u32; [|by apply byte_u32]. apply lxor_u32; [apply Hu|]. by apply shiftr_u32.
Qed.

Lemma fold_hash_range hash : in_u 32 hash -> in_u 30 (fold_hash hash).
Proof.
  intros Hh. unfold fold_hash, FILTER_SIZE, FILTER_BITMASK. apply lxor_bound; [done| |].
  - rewrite Z.shiftr_div_pow2 by done. unfold in_u in Hh. split; [apply Z.div_pos; lia|]. apply Z.div_lt_upper_bound; lia.
  - change (Z.shiftl 1 FILTER_SIZE - 1) with (Z.ones 30). rewrite Z.land_ones by done. apply Z.mod_pos_bound. lia.
Qed.

Lemma positions_range word : Forall is_byte word -> Forall (in_u 30) (positions word).
Proof.
  intros Hb. unfold positions. apply Forall_map. eapply Forall_impl; [apply Forall_take, (hashes_u32 word Hb)|]. intros h Hh. by apply fold_hash_range.
Qed.

(** ** What the filter says *)

Definition set_of (words : list (list Z)) : gset Z := list_to_set (concat (map positions words)).

(** The filter holds the positions in [S]. *)
Definition represents_bits (filter : gmap Z Z) (S : gset Z) : Prop :=
  (forall i b, filter !! i = Some b -> is_byte b) /\
  forall p, in_u 30 p -> Z.testbit (default 0 (filter !! Z.shiftr p 3)) (Z.land p 7) = bool_decide (p ∈ S).

Lemma position_split p : Z.shiftr p 3 = p / 8 /\ Z.land p 7 = p mod 8.
Proof. split; [by apply Z.shiftr_div_pow2|]. change 7 with (Z.ones 3). by rewrite Z.land_ones. Qed.

Lemma filter_byte_ok filter p : in_u 30 p -> filter_byte filter (Z.shiftr p 3) = Ok (default 0 (filter !! Z.shiftr p 3)).
Proof.
  intros Hp. destruct (position_split p) as [-> _]. unfold filter_byte, in_u in *. change FILTER_SIZE_BYTES with 134217728.
  pose proof (Z.div_pos p 8 ltac:(lia) ltac:(lia)). pose proof (Z.div_lt_upper_bound p 8 134217728 ltac:(lia) ltac:(lia)). by rewrite (proj2 (Z.leb_le _ _)), (proj2 (Z.ltb_lt _ _)) by lia.
Qed.

Lemma bit_set b k : 0 <= k < 8 -> is_byte b -> is_byte (Z.lor b (Z.shiftl 1 k)) /\ forall j, 0 <= j -> Z.testbit (Z.lor b (Z.shiftl 1 k)) j = Z.testbit b j || (j =? k).
Proof.
  intros Hk Hb. rewrite Z.shiftl_1_l. split.
  - apply (lor_bound b (2 ^ k) 8); [done|exact Hb|]. pose proof (Z.pow_lt_mono_r 2 k 8 ltac:(lia) ltac:(lia) ltac:(lia)). pose proof (Z.pow_pos_nonneg 2 k). lia.
  - intros j Hj. rewrite Z.lor_spec, Z.pow2_bits_eqb by lia. by rewrite (Z.eqb_sym k).
Qed.

Lemma bit_test b k : 0 <= k -> (Z.land b (Z.shiftl 1 k) =? 0) = negb (Z.testbit b k).
Proof.
  intros Hk. rewrite Z.shiftl_1_l. destruct (Z.testbit b k) eqn:E; cbn [negb].
  - apply Z.eqb_neq. intros H0. apply (f_equal (fun z => Z.testbit z k)) in H0. by rewrite Z.land_spec, E, Z.pow2_bits_true, Z.bits_0 in H0.
  - apply Z.eqb_eq, Z.bits_inj'. intros n Hn. rewrite Z.land_spec, Z.pow2_bits_eqb, Z.bits_0 by lia. destruct (Z.eqb_spec k n) as [->|]; [by rewrite E|by rewrite andb_false_r].
Qed.

Lemma insert_bit_ok filter S word h : represents_bits filter S -> in_u 30 (fold_hash (h word)) ->
  exists filter', insert_bit word filter h = Ok filter' /\ represents_bits filter' ({[fold_hash (h word)]} ∪ S).
Proof.
  intros [Hb Hr] Hp. set (p := fold_hash (h word)) in *. unfold insert_bit. cbv zeta. fold p. rewrite filter_byte_ok by done. step. eexists. split; [reflexivity|].
  set (b := default 0 (filter !! Z.shiftr p 3)). assert (Hbb : is_byte b) by (unfold b; destruct (filter !! _) eqn:E; [by eapply Hb|done]).
  assert (Hk : 0 <= Z.land p 7 < 8) by (rewrite (proj2 (position_split p)); apply Z.mod_pos_bound; lia).
  destruct (bit_set b (Z.land p 7) Hk Hbb) as [Hby Hbit]. assert (Hw : u8 (Z.lor b (Z.shiftl 1 (Z.land p 7))) = Z.lor b (Z.shiftl 1 (Z.land p 7))) by (apply uwrap_id; exact Hby).
  rewrite Hw. split.
  - intros i c [[_ <-]|[_ Hc]]%lookup_insert_Some; [done|by eapply Hb].
  - intros q Hq. assert (Hj : 0 <= Z.land q 7) by (rewrite (proj2 (position_split q)); apply Z.mod_pos_bound; lia). destruct (decide (Z.shiftr p 3 = Z.shiftr q 3)) as [E|E].
    + rewrite E, lookup_insert_eq. cbn [default]. rewrite Hbit by done. unfold b. rewrite E, Hr by done.
      destruct (Z.eqb_spec (Z.land q 7) (Z.land p 7)) as [E2|E2].
      * rewrite orb_true_r, bool_decide_eq_true_2; [done|]. apply elem_of_union_l, elem_of_singleton. rewrite (proj1 (position_split p)), (proj1 (position_split q)) in E. rewrite (proj2 (position_split p)), (proj2 (position_split q)) in E2.
        rewrite (Z.div_mod q 8), (Z.div_mod p 8) by lia. lia.
      * rewrite orb_false_r. apply bool_decide_ext. rewrite elem_of_union, elem_of_singleton. split; [by right|]. by intros [->|?].
    + rewrite lookup_insert_ne, Hr by done. apply bool_decide_ext. rewrite elem_of_union, elem_of_singleton. split; [by right|]. by intros [->|?].
Qed.

Lemma insert_word_ok filter S word : represents_bits filter S -> Forall is_byte word -> zlen word < 2 ^ 32 ->
  exists filter', insert_word filter word (zlen word) = Ok filter' /\ represents_bits filter' (list_to_set (positions word) ∪ S).
Proof.
  intros Hr Hb Hl. pose proof (zlen_nonneg word). unfold insert_word. rewrite (uwrap_id 32) by (unfold in_u; lia). rewrite read_all by done. step.
  pose proof (positions_range word Hb) as Hp. unfold positions in *. revert filter S Hr. induction used_hashes as [|h hs IH]; intros filter S Hr.
  - exists filter. split; [done|]. cbn [map list_to_set]. by rewrite union_empty_l_L.
  - cbn [map] in Hp. apply Forall_cons in Hp as [Hp1 Hp]. destruct (insert_bit_ok filter S word h Hr Hp1) as (filter1 & E1 & Hr1). destruct (IH Hp filter1 _ Hr1) as (filter2 & E2 & Hr2).
    exists filter2. cbn [foldM]. rewrite E1. step. split; [exact E2|]. cbn [map list_to_set]. by replace ({[fold_hash (h word)]} ∪ list_to_set (map (fun h => fold_hash (h word)) hs) ∪ S)
      with (list_to_set (map (fun h => fold_hash (h word)) hs) ∪ ({[fold_hash (h word)]} ∪ S)) by set_solver.
Qed.

Lemma in_dict_ok filter S word : represents_bits filter S -> Forall is_byte word -> zlen word < 2 ^ 32 ->
  in_dict filter word (zlen word) = Ok (if bool_decide (Forall (fun p => p ∈ S) (positions word)) then 1 else 0).
Proof.
  intros [_ Hr] Hb Hl. pose proof (zlen_nonneg word). unfold in_dict. rewrite (uwrap_id 32) by (unfold in_u; lia). rewrite read_all by done. step.
  pose proof (positions_range word Hb) as Hp. unfold positions in *. induction used_hashes as [|h hs IH]; [done|]. cbn [map] in *. apply Forall_cons in Hp as [Hp1 Hp].
  cbn [test_bits]. rewrite filter_byte_ok by done. step. rewrite bit_test by (rewrite (proj2 (position_split _)); apply Z.mod_pos_bound; lia). rewrite Hr by done.
  destruct (bool_decide_reflect (fold_hash (h word) ∈ S)) as [Hin|Hin]; cbn [negb].
  - rewrite IH by done. by rewrite (bool_decide_ext _ (Forall (fun p => p ∈ S) (fold_hash (h word) :: map (fun h => fold_hash (h word)) hs))) by (rewrite Forall_cons; tauto).
  - rewrite bool_decide_eq_false_2; [done|]. rewrite Forall_cons. tauto.
Qed.

(** Several words, one after the other. *)
Definition insert_words (filter : gmap Z Z) (words : list (list Z)) : res (gmap Z Z) := foldM (fun filter w => insert_word filter w (zlen w)) filter words.

Lemma insert_words_ok words : forall filter S, represents_bits filter S -> Forall (fun w => Forall is_byte w /\ zlen w < 2 ^ 32) words ->
  exists filter', insert_words filter words = Ok filter' /\ represents_bits filter' (set_of words ∪ S).
Proof.
  induction words as [|w words IH]; intros filter S Hr Hw; [exists filter; split; [done|]; unfold set_of; cbn; by rewrite union_empty_l_L|].
  apply Forall_cons in Hw as [[Hb Hl] Hw]. destruct (insert_word_ok filter S w Hr Hb Hl) as (f1 & E1 & Hr1). destruct (IH f1 _ Hr1 Hw) as (f2 & E2 & Hr2). exists f2.
  unfold insert_words in *. cbn [foldM]. rewrite E1. step. split; [exact E2|]. unfold set_of in *. cbn [map concat]. rewrite list_to_set_app_L.
  by replace (list_to_set (positions w) ∪ list_to_set (concat (map positions words)) ∪ S) with (list_to_set (concat (map positions words)) ∪ (list_to_set (positions w) ∪ S)) by set_solver.
Qed.

Lemma empty_filter : represents_bits ∅ ∅.
Proof. split; [intros i b H; by rewrite lookup_empty in H|]. intros p Hp. rewrite lookup_empty. cbn [default]. rewrite Z.bits_0. symmetry. by apply bool_decide_eq_false_2. Qed.

(** C37: The filter has no false negatives, and says exactly what its bits say: after
    words were inserted, a word is found if each of its four positions is one of a
    word that was inserted, as is the case for the words themselves. No access is
    outside of the array. *)
Theorem bloom_filter_answers words : Forall (fun w => Forall is_byte w /\ zlen w < 2 ^ 32) words ->
  exists filter, insert_words ∅ words = Ok filter /\
    (forall w, w ∈ words -> in_dict filter w (zlen w) = Ok 1) /\
    (forall w, Forall is_byte w -> zlen w < 2 ^ 32 ->
       in_dict filter w (zlen w) = Ok (if bool_decide (Forall (fun p => Exists (fun w' => p ∈ positions w') words) (positions w)) then 1 else 0)).
Proof.
  intros Hw. destruct (insert_words_ok words ∅ ∅ empty_filter Hw) as (filter & E & Hr). exists filter. split; [exact E|].
  assert (Hset : forall p, p ∈ set_of words ∪ ∅ <-> Exists (fun w' => p ∈ positions w') words).
  { intros p. unfold set_of. rewrite union_empty_r_L, elem_of_list_to_set, list_elem_of_In, in_concat, Exists_exists. split.
    - intros (ps & Hps & Hp). rewrite <- list_elem_of_In in Hps. rewrite <- list_elem_of_In in Hp. apply list_elem_of_fmap in Hps as (w & -> & Hin). by exists w.
    - intros (w & Hin & Hp). exists (positions w). rewrite <- !list_elem_of_In. split; [by apply (list_elem_of_fmap_2 positions)|done]. }
  assert (Hq : forall w, Forall is_byte w -> zlen w < 2 ^ 32 ->
    in_dict filter w (zlen w) = Ok (if bool_decide (Forall (fun p => Exists (fun w' => p ∈ positions w') words) (positions w)) then 1 else 0)).
  { intros w Hb Hl. rewrite (in_dict_ok filter _ w Hr Hb Hl). assert (Hx : Forall (fun p => p ∈ set_of words ∪ ∅) (positions w) <-> Forall (fun p => Exists (fun w' => p ∈ positions w') words) (positions w)) by (rewrite !Forall_forall; split; intros H p Hp; by apply Hset, H).
    by rewrite (bool_decide_ext _ _ Hx). }
  split; [|exact Hq]. intros w Hin. rewrite Forall_forall in Hw. destruct (Hw w Hin) as [Hb Hl]. rewrite Hq by done. rewrite bool_decide_eq_true_2; [done|].
  apply Forall_forall. intros p Hp. apply Exists_exists. by exists w.
Qed.

Lemma bloom_filter_answers_witness : exists filter, insert_words ∅ [[116; 101; 115; 116]; [119]] = Ok filter /\
  in_dict filter [116; 101; 115; 116] 4 = Ok 1 /\ in_dict filter [98; 97; 122] 3 = Ok 0.
Proof.
  destruct (bloom_filter_answers [[116; 101; 115; 116]; [119]]) as (filter & E & H1 & H2); [by decide_it|]. exists filter. split; [exact E|]. split.
  - apply (H1 [116; 101; 115; 116]). by left.
  - etrans; [apply (H2 [98; 97; 122]); [decide_it|done]|]. by vm_compute.
Defined.
