(* ===== verification/Sds.v ===== *)
(** The dynamic strings of [destor/src/utils/sds.c], as far as destor uses them on
    text: splitting, trimming, quoting and unquoting.

    A string is the list of its bytes; a C string that is scanned ends with it.
    [sdssplitargs] walks a line by a pointer: what is left of the line stands for
    the pointer. *)

From S2P Require Import Prelude CFile CText.
From S2P Require Recipe.

(** ** Characters of the C locale *)

Definition is_upper (c : Z) : bool := (65 <=? c) && (c <=? 90).
Definition tolower (c : Z) : Z := if is_upper c then c + 32 else c.
Definition isxdigit (c : Z) : bool := is_digit c || ((65 <=? c) && (c <=? 70)) || ((97 <=? c) && (c <=? 102)).
Definition isprint (c : Z) : bool := (32 <=? c) && (c <=? 126).

(** A C string is compared up to its end. *)
Definition strcasecmp_eq (a b : list Z) : bool := bool_decide (map tolower (Recipe.cstr a) = map tolower (Recipe.cstr b)).

Definition sdstolower (s : list Z) : list Z := map tolower s.

(** [sdscpy] and [sdscat] measure what they copy with [strlen]. *)
Definition sdscpy (s t : list Z) : list Z := Recipe.cstr t.
Definition sdscat (s t : list Z) : list Z := s ++ Recipe.cstr t.

(** ** Splitting and trimming *)

(** The loop over [j], [cur] being the bytes from [start] to [j] and [skip] the
    part of a separator that is still to be passed over. *)
Fixpoint split_loop (sep : list Z) (skip : nat) (cur s : list Z) : list (list Z) :=
  match s with
  | [] => [cur]
  | c :: s' =>
      match skip with
      | S skip => split_loop sep skip cur s'
      | O => if has_prefix sep s then cur :: split_loop sep (length sep - 1) [] s' else split_loop sep O (cur ++ [c]) s'
      end
  end.

Definition sdssplitlen (s sep : list Z) : option (list (list Z)) :=
  if zlen sep <? 1 then None else match s with [] => Some [] | _ => Some (split_loop sep O [] s) end.

(** [strchr(cset, c)] finds the terminator, too. *)
Definition strchr (cset : list Z) (c : Z) : bool := (c =? 0) || bool_decide (c ∈ cset).

Fixpoint trim_left (cset s : list Z) : list Z := match s with c :: s' => if strchr cset c then trim_left cset s' else s | [] => [] end.

(** [while(ep > sp && strchr(cset, *ep)) ep--], on the reversed string. *)
Fixpoint trim_right (cset rs : list Z) : list Z :=
  match rs with c :: (_ :: _) as rs' => if strchr cset c then trim_right cset rs' else rs | _ => rs end.

Definition sdstrim (s cset : list Z) : list Z := rev (trim_right cset (rev (trim_left cset s))).

(** ** Quoting *)

Definition hex_digit (v : Z) : Z := if v <? 10 then 48 + v else 87 + v.

Definition hex_digit_to_int (c : Z) : Z :=
  if is_digit c then c - 48 else if (97 <=? c) && (c <=? 102) then c - 87 else if (65 <=? c) && (c <=? 70) then c - 55 else 0.

(** One byte of [sdscatrepr]. *)
Definition repr_char (c : Z) : list Z :=
  if (c =? 92) || (c =? 34) then [92; c]
  else if c =? 10 then [92; 110]
  else if c =? 13 then [92; 114]
  else if c =? 9 then [92; 116]
  else if c =? 7 then [92; 97]
  else if c =? 8 then [92; 98]
  else if isprint c then [c]
  else [92; 120; hex_digit (c / 16); hex_digit (c mod 16)].

Definition sdscatrepr (s p : list Z) : list Z := s ++ 34 :: concat (map repr_char p) ++ [34].

(** ** The arguments of a line *)

Inductive quotes := Unquoted | InQuotes | InSingleQuotes.

(** The character of an escape, but for that of a hexadecimal number. *)
Definition unescape (c : Z) : Z :=
  if c =? 110 then 10 else if c =? 114 then 13 else if c =? 116 then 9 else if c =? 98 then 8 else if c =? 97 then 7 else c.

(** After a closing quote a space or nothing follows. *)
Definition closing (current s : list Z) : option (list Z * list Z) :=
  match s with y :: _ => if is_space y then Some (current, s) else None | [] => Some (current, s) end.

(** [while(!done)]: the token and what is left of the line; [None] goes to [err]. *)
Fixpoint get_token (q : quotes) (current s : list Z) {struct s} : option (list Z * list Z) :=
  match q, s with
  | InQuotes, [] | InSingleQuotes, [] => None
  | Unquoted, [] => Some (current, [])
  | InQuotes, c :: s1 =>
      if c =? 92 then
        match s1 with
        | [] => get_token q (current ++ [c]) s1
        | x :: s2 =>
            match s2 with
            | h1 :: h2 :: s4 =>
                if (x =? 120) && isxdigit h1 && isxdigit h2
                then get_token q (current ++ [u8 (hex_digit_to_int h1 * 16 + hex_digit_to_int h2)]) s4
                else get_token q (current ++ [unescape x]) s2
            | _ => get_token q (current ++ [unescape x]) s2
            end
        end
      else if c =? 34 then closing current s1
      else get_token q (current ++ [c]) s1
  | InSingleQuotes, c :: s1 =>
      match s1 with
      | x :: s2 =>
          if (c =? 92) && (x =? 39) then get_token q (current ++ [39]) s2
          else if c =? 39 then closing current s1
          else get_token q (current ++ [c]) s1
      | [] => if c =? 39 then closing current s1 else get_token q (current ++ [c]) s1
      end
  | Unquoted, c :: s1 =>
      if (c =? 32) || (c =? 10) || (c =? 13) || (c =? 9) then Some (current, s1)
      else if c =? 34 then get_token InQuotes current s1
      else if c =? 39 then get_token InSingleQuotes current s1
      else get_token Unquoted (current ++ [c]) s1
  end.

(** [while(1)]: every round takes a byte of the line, so its length is enough. *)
Fixpoint split_args (fuel : nat) (vector : list (list Z)) (s : list Z) : res (option (list (list Z))) :=
  match skip_space s with
  | [] => Ok (Some vector)
  | s =>
      match fuel with
      | O => Err EFuel
      | S fuel => match get_token Unquoted [] s with None => Ok None | Some (current, s) => split_args fuel (vector ++ [current]) s end
      end
  end.

(** [None] is the null pointer: the quotes of the line are not balanced. *)
Definition sdssplitargs (line : list Z) : res (option (list (list Z))) := split_args (length line) [] (Recipe.cstr line).

(** ** Splitting ends *)

Lemma closing_len cur s tok rest : closing cur s = Some (tok, rest) -> rest = s.
Proof. destruct s as [|y s]; cbn; [by intros [= _ <-]|]. destruct (is_space y); [by intros [= _ <-]|done]. Qed.

Lemma get_token_len s : forall q cur tok rest, get_token q cur s = Some (tok, rest) -> (length rest <= length s - 1)%nat \/ (length rest = length s /\ q = Unquoted /\ s = []).
Proof.
  assert (H : forall n s q cur tok rest, (length s <= n)%nat -> get_token q cur s = Some (tok, rest) -> (length rest <= length s - 1)%nat).
  { clear. induction n as [|n IH]; intros s q cur tok rest Hl E.
    - destruct s; [|cbn in Hl; lia]. destruct q; cbn in E; try done. by injection E as _ <-.
    - destruct s as [|c s1]; [destruct q; cbn in E; try done; by injection E as _ <-|]. cbn [length] in *.
      assert (G : forall q cur s2, (length s2 <= length s1)%nat -> get_token q cur s2 = Some (tok, rest) -> (length rest <= S (length s1) - 1)%nat).
      { intros q2 cur2 s2 H2 E2. pose proof (IH s2 q2 cur2 tok rest ltac:(lia) E2). lia. }
      destruct q; cbn [get_token] in E.
      + destruct (_ || (c =? 9)); [injection E as _ <-; lia|]. destruct (c =? 34); [by eapply G|]. destruct (c =? 39); by eapply G.
      + destruct (c =? 92).
        * destruct s1 as [|x s2]; [by eapply G|]. destruct s2 as [|h1 [|h2 s4]]; try (eapply G; [|exact E]; cbn; lia).
          destruct ((x =? 120) && isxdigit h1 && isxdigit h2); (eapply G; [|exact E]; cbn; lia).
        * destruct (c =? 34); [|by eapply G]. apply closing_len in E as ->. lia.
      + destruct s1 as [|x s2].
        * destruct (c =? 39); [apply closing_len in E as ->; cbn; lia|by eapply G].
        * destruct ((c =? 92) && (x =? 39)); [eapply G; [|exact E]; cbn; lia|]. destruct (c =? 39); [apply closing_len in E as ->; cbn; lia|by eapply G]. }
  intros q cur tok rest E. left. by eapply H.
Qed.

Lemma split_args_ends fuel : forall vector s, (length s <= fuel)%nat -> exists o, split_args fuel vector s = Ok o.
Proof.
  induction fuel as [|fuel IH]; intros vector s Hl; cbn [split_args].
  - destruct s; [|cbn in Hl; lia]. by eexists.
  - pose proof (skip_space_len s). destruct (skip_space s) as [|c s'] eqn:E; [by eexists|]. destruct (get_token Unquoted [] (c :: s')) as [[tok rest]|] eqn:Et; [|by eexists].
    destruct (get_token_len _ _ _ _ _ Et) as [Hr|(_ & _ & ?)]; [|done]. apply IH. cbn [length] in *. lia.
Qed.

Lemma cstr_len s : (length (Recipe.cstr s) <= length s)%nat.
Proof. induction s as [|c s IH]; [done|]. cbn [Recipe.cstr]. destruct (c =? 0); cbn; lia. Qed.

Lemma sdssplitargs_ends line : exists o, sdssplitargs line = Ok o.
Proof. apply split_args_ends, cstr_len. Qed.

(** ** Unquoting what was quoted *)

Lemma hex_back v : 0 <= v < 16 -> isxdigit (hex_digit v) = true /\ hex_digit_to_int (hex_digit v) = v.
Proof.
  intros Hv. assert (H : Forall (fun v => isxdigit (hex_digit v) = true /\ hex_digit_to_int (hex_digit v) = v) (seqZ 0 16)) by decide_it.
  rewrite Forall_forall in H. apply H, elem_of_seqZ. lia.
Qed.

(** One byte goes through. *)
Lemma get_repr c cur rest : is_byte c -> get_token InQuotes cur (repr_char c ++ rest) = get_token InQuotes (cur ++ [c]) rest.
Proof.
  intros Hc. unfold repr_char.
  assert (Hesc : forall x, x <> 120 -> get_token InQuotes cur ([92; x] ++ rest) = get_token InQuotes (cur ++ [unescape x]) rest).
  { intros x Hx. cbn [app get_token]. rewrite Z.eqb_refl. destruct rest as [|h1 [|h2 s4]]; [done|done|]. by rewrite (proj2 (Z.eqb_neq x 120)). }
  destruct (Z.eqb_spec c 92) as [->|H1]; cbn [orb]; [by rewrite Hesc|]. destruct (Z.eqb_spec c 34) as [->|H2]; cbn [orb]; [by rewrite Hesc|].
  destruct (Z.eqb_spec c 10) as [->|]; [by rewrite Hesc|]. destruct (Z.eqb_spec c 13) as [->|]; [by rewrite Hesc|]. destruct (Z.eqb_spec c 9) as [->|]; [by rewrite Hesc|].
  destruct (Z.eqb_spec c 7) as [->|]; [by rewrite Hesc|]. destruct (Z.eqb_spec c 8) as [->|]; [by rewrite Hesc|].
  destruct (isprint c).
  - cbn [app get_token]. by rewrite (proj2 (Z.eqb_neq c 92)), (proj2 (Z.eqb_neq c 34)).
  - unfold is_byte in Hc. destruct (hex_back (c / 16)) as [A1 A2]; [split; [apply Z.div_pos; lia|apply Z.div_lt_upper_bound; lia]|].
    destruct (hex_back (c mod 16)) as [B1 B2]; [apply Z.mod_pos_bound; lia|]. cbn [app get_token]. rewrite !Z.eqb_refl, A1, B1. cbn [andb]. rewrite A2, B2.
    replace (c / 16 * 16 + c mod 16) with c by (pose proof (Z.div_mod c 16); lia). by rewrite (uwrap_id 8) by (unfold in_u; lia).
Qed.

Lemma get_quoted p : forall cur rest, Forall is_byte p -> closing (cur ++ p) rest = Some (cur ++ p, rest) ->
  get_token InQuotes cur (concat (map repr_char p) ++ 34 :: rest) = Some (cur ++ p, rest).
Proof.
  induction p as [|c p IH]; intros cur rest Hp Hc.
  - cbn [map concat app]. rewrite app_nil_r in *. exact Hc.
  - apply Forall_cons in Hp as [Hb Hp]. cbn [map concat]. rewrite <- app_assoc, get_repr by done. rewrite IH; [by rewrite <- app_assoc|done|by rewrite <- app_assoc].
Qed.

(** The arguments, quoted, with spaces between them. *)
Fixpoint quoted_line (args : list (list Z)) : list Z :=
  match args with [] => [] | [a] => sdscatrepr [] a | a :: args => sdscatrepr [] a ++ 32 :: quoted_line args end.

Lemma quoted_cons a args : exists rest, quoted_line (a :: args) = 34 :: concat (map repr_char a) ++ 34 :: rest /\
  (rest = [] /\ args = [] \/ rest = 32 :: quoted_line args /\ args <> []).
Proof.
  destruct args as [|b args].
  - exists []. split; [done|by left].
  - exists (32 :: quoted_line (b :: args)). split; [|by right]. cbn [quoted_line]. unfold sdscatrepr. cbn [app]. by rewrite <- app_assoc.
Qed.

Lemma split_quoted args : forall fuel vector, Forall (Forall is_byte) args -> (length (quoted_line args) <= fuel)%nat -> split_args fuel vector (quoted_line args) = Ok (Some (vector ++ args)).
Proof.
  induction args as [|a args IH]; intros fuel vector Hb Hl.
  - destruct fuel; cbn; by rewrite app_nil_r.
  - apply Forall_cons in Hb as [Ha Hb]. destruct (quoted_cons a args) as (rest & Eq & Hr). rewrite Eq in *. destruct fuel as [|fuel]; [cbn in Hl; lia|].
    cbn [split_args skip_space]. change (is_space 34) with false. cbv iota. cbn [get_token Z.eqb Pos.eqb orb].
    rewrite get_quoted; [|done|by destruct Hr as [[-> _]|[-> _]]]. cbn [app]. cbn [length] in Hl. rewrite length_app in Hl. cbn [length] in Hl.
    destruct Hr as [[-> ->]|[-> _]].
    + destruct fuel; done.
    + assert (Es : forall fuel v, split_args fuel v (32 :: quoted_line args) = split_args fuel v (quoted_line args)) by by intros [].
      rewrite Es, IH; [by rewrite <- app_assoc|done|]. cbn [length] in Hl. lia.
Qed.

(** What is quoted has no NUL. *)
Lemma quoted_text args : Forall (Forall is_byte) args -> Forall (fun c => c <> 0) (quoted_line args).
Proof.
  assert (Hc : forall c, is_byte c -> Forall (fun c => c <> 0) (repr_char c)).
  { intros c Hc. assert (H : Forall (fun c => Forall (fun c => c <> 0) (repr_char c)) (seqZ 0 256)) by decide_it. rewrite Forall_forall in H. apply H, elem_of_seqZ. unfold is_byte in Hc. lia. }
  assert (Hr : forall a, Forall is_byte a -> Forall (fun c => c <> 0) (sdscatrepr [] a)).
  { intros a Ha. unfold sdscatrepr. cbn [app]. constructor; [done|]. apply Forall_app. split; [|by repeat constructor]. apply Forall_concat, Forall_map. eapply Forall_impl; [exact Ha|exact Hc]. }
  induction 1 as [|a args Ha Hargs IH]; [constructor|]. destruct args as [|b args]; [by apply Hr|]. cbn [quoted_line]. apply Forall_app. split; [by apply Hr|]. by constructor.
Qed.

(** C38: [sdscatrepr] is undone by [sdssplitargs], as the comment of the latter says:
    any list of strings of any bytes, each quoted, is the list of arguments of the
    line. On every line, [sdssplitargs] comes to an end. *)
Theorem quoting_roundtrip : (forall line, exists o, sdssplitargs line = Ok o) /\
  forall args, Forall (Forall is_byte) args -> sdssplitargs (quoted_line args) = Ok (Some args).
Proof.
  split; [exact sdssplitargs_ends|]. intros args Hb. unfold sdssplitargs. rewrite Recipe.cstr_id by by apply quoted_text. by rewrite split_quoted.
Qed.

Example args_demo : sdssplitargs (lit "fingerprint-index exact 'block locality caching' ") = Ok (Some [lit "fingerprint-index"; lit "exact"; lit "block locality caching"]).
Proof. reflexivity. Qed.

Lemma quoting_roundtrip_witness : Forall (Forall is_byte) [lit "working-directory"; [0; 10; 34; 92; 255]] /\
  sdssplitargs (quoted_line [lit "working-directory"; [0; 10; 34; 92; 255]]) = Ok (Some [lit "working-directory"; [0; 10; 34; 92; 255]]).
Proof.
  assert (H : Forall (Forall is_byte) [lit "working-directory"; [0; 10; 34; 92; 255]]) by decide_it. split; [exact H|]. exact (proj2 quoting_roundtrip _ H).
Defined.
