(* ===== verification/Config.v ===== *)
(** The configuration of destor and its statistics: [config.c], and [destor_start]
    and [destor_shutdown] of [destor.c].

    The global [struct destor] is a function from its members, by type: the ints,
    the doubles, the strings and the statistics. Where the other files take a part
    of the configuration as a record, the section "What the phases read" says which
    members it is made of. [inet_addr] of the sockets library is a parameter; of
    the numbers that [atof] reads only decimal ones are modelled. *)

From Stdlib Require Import SpecFloat.
From stdpp Require Import functions.
From S2P Require Import Prelude CFile CText Glib Destor Double Segmenting Sampling KvStore Chunking ChunkPhase Index IndexInv Filter RewritePhase FilterInv Node DoRestore Sds.

(** ** The members *)

Inductive int_member :=
| simulation_level | trace_format | verbosity
| chunk_algorithm | chunk_max_size_ | chunk_min_size_ | chunk_avg_size_
| restore_cache_0 | restore_cache_1 | restore_opt_window_size
| index_category_0 | index_category_1 | index_specific_ | index_cache_size_ | index_bloom_filter_size
| index_sampling_method_0 | index_sampling_method_1 | index_key_value_store | index_value_length | index_key_size_
| index_segment_algorithm_0 | index_segment_algorithm_1 | index_segment_min_ | index_segment_max_
| index_segment_selection_method_0 | index_segment_selection_method_1 | index_segment_prefech
| rewrite_algorithm_0_ | rewrite_algorithm_1_ | rewrite_enable_cfl_switch | rewrite_capping_level_
| rewrite_enable_har | rewrite_enable_cache_aware | backup_retention_time
| local_ip_ | oec_pktsize | oec_agent_ip.
Inductive real_member :=
| rewrite_cfl_require | rewrite_cfl_usage_threshold | rewrite_cbr_limit | rewrite_cbr_minimal_utility
| rewrite_har_utilization_threshold | rewrite_har_rewrite_limit.
Inductive text_member := working_directory | local_ip_str | ecid_pool | oec_mode.
Inductive stat_member :=
| chunk_num | stored_chunk_num | data_size | stored_data_size | zero_chunk_num | zero_chunk_size
| rewritten_chunk_num | rewritten_chunk_size | index_memory_footprint | live_container_num.

#[export] Instance int_member_dec : EqDecision int_member. Proof. solve_decision. Defined.
#[export] Instance real_member_dec : EqDecision real_member. Proof. solve_decision. Defined.
#[export] Instance text_member_dec : EqDecision text_member. Proof. solve_decision. Defined.
#[export] Instance stat_member_dec : EqDecision stat_member. Proof. solve_decision. Defined.

Record destor := mk_destor { ints : int_member -> Z; reals : real_member -> double; texts : text_member -> list Z; stats : stat_member -> Z }.

Definition set (m : int_member) (v : Z) (d : destor) : destor := mk_destor (<[m := v]> (ints d)) (reals d) (texts d) (stats d).
Definition set_real (m : real_member) (v : double) (d : destor) : destor := mk_destor (ints d) (<[m := v]> (reals d)) (texts d) (stats d).
Definition set_text (m : text_member) (v : list Z) (d : destor) : destor := mk_destor (ints d) (reals d) (<[m := v]> (texts d)) (stats d).
Definition set_stat (m : stat_member) (v : Z) (d : destor) : destor := mk_destor (ints d) (reals d) (texts d) (<[m := v]> (stats d)).

(** A global object starts as zeros. *)
Definition zero_destor : destor := mk_destor (fun _ => 0%Z) (fun _ => S754_zero false) (fun _ => []) (fun _ => 0%Z).

Definition DESTOR_DEBUG := 0.
Definition DESTOR_VERBOSE := 1.
Definition DESTOR_NOTICE := 2.
Definition DESTOR_WARNING := 3.
Definition TRACE_DESTOR := 0.
Definition TRACE_FSL := 1.
Definition DESTOR_CONFIGLINE_MAX := 1024.

(** ** Numbers *)

(** [m * 10^e], rounded to nearest. *)
Definition decimal (m e : Z) : double :=
  match m with
  | Zpos p => if 0 <=? e then d_of_Z (m * 10 ^ e) else match 10 ^ (- e) with Zpos q => SFdiv 53 1024 (S754_finite false p 0) (S754_finite false q 0) | _ => S754_nan end
  | _ => S754_zero false
  end.

Fixpoint take_digits (s : list Z) : list Z := match s with c :: s => if is_digit c then c :: take_digits s else [] | [] => [] end.

(** The exponent of a decimal number, if there is one. *)
Definition scan_exponent (s : list Z) : Z :=
  match s with
  | c :: s => if (c =? 101) || (c =? 69) then let '(sg, s) := signed_digits s in sg * scan_digits 0 (take_digits s) else 0
  | [] => 0
  end.

Definition atof (s : list Z) : double :=
  let '(sg, s) := signed_digits (skip_space (Recipe.cstr s)) in
  let whole := take_digits s in
  let s := skip_digits s in
  let '(frac, s) := match s with c :: s' => if c =? 46 then (take_digits s', skip_digits s') else ([], s) | [] => ([], s) end in
  let v := if bool_decide (whole ++ frac = []) then S754_zero false else decimal (scan_digits 0 (whole ++ frac)) (scan_exponent s - zlen frac) in
  if sg =? -1 then SFopp v else v.

Definition yesnotoi (s : list Z) : Z := if strcasecmp_eq s (lit "yes") then 1 else if strcasecmp_eq s (lit "no") then 0 else -1.

(** ** Directives *)

(** A chain of comparisons with the values of a member. *)
Fixpoint choose (s : list Z) (l : list (list Z * Z)) : res Z :=
  match l with [] => Err (EExit 1) | (name, v) :: l => if strcasecmp_eq s name then Ok v else choose s l end.

Section Config.
Context (inet_addr : list Z -> Z).

(** The specific indexes, each with the categories it asserts. *)
Definition load_specific (s : list Z) (d : destor) : res destor :=
  let category c0 c1 := c_assert ((ints d index_category_0 =? c0) && (ints d index_category_1 =? c1)) in
  if strcasecmp_eq s (lit "ddfs") then _ ← category INDEX_CATEGORY_EXACT INDEX_CATEGORY_PHYSICAL_LOCALITY; Ok (set index_specific_ INDEX_SPECIFIC_DDFS d)
  else if strcasecmp_eq s (lit "sampled index") then _ ← category INDEX_CATEGORY_NEAR_EXACT INDEX_CATEGORY_PHYSICAL_LOCALITY; Ok (set index_specific_ INDEX_SPECIFIC_SAMPLED d)
  else if strcasecmp_eq s (lit "block locality caching") then _ ← category INDEX_CATEGORY_EXACT INDEX_CATEGORY_LOGICAL_LOCALITY; Ok (set index_specific_ INDEX_SPECIFIC_BLOCK_LOCALITY_CACHING d)
  else if strcasecmp_eq s (lit "extreme binning") then _ ← category INDEX_CATEGORY_NEAR_EXACT INDEX_CATEGORY_LOGICAL_LOCALITY; Ok (set index_specific_ INDEX_SPECIFIC_EXTREME_BINNING d)
  else if strcasecmp_eq s (lit "sparse index") then _ ← category INDEX_CATEGORY_NEAR_EXACT INDEX_CATEGORY_LOGICAL_LOCALITY; Ok (set index_specific_ INDEX_SPECIFIC_SPARSE d)
  else if strcasecmp_eq s (lit "silo") then _ ← category INDEX_CATEGORY_NEAR_EXACT INDEX_CATEGORY_LOGICAL_LOCALITY; Ok (set index_specific_ INDEX_SPECIFIC_SILO d)
  else Err (EExit 1).

(** A line of the file that is not empty, with its arguments. An error prints the
    line and makes the program exit. *)
Definition load_directive (argv : list (list Z)) (d : destor) : res destor :=
  let argc := zlen argv in
  let arg k := nth k argv [] in
  let named name := strcasecmp_eq (sdstolower (arg O)) name in
  if named (lit "working-directory") && (argc =? 2) then Ok (set_text working_directory (sdscat (sdscpy (texts d working_directory) (arg 1%nat)) (lit "/")) d)
  else if named (lit "simulation-level") && (argc =? 2) then
    v ← choose (arg 1%nat) [(lit "all", SIMULATION_ALL); (lit "append", SIMULATION_APPEND); (lit "restore", SIMULATION_RESTORE); (lit "no", SIMULATION_NO)]; Ok (set simulation_level v d)
  else if named (lit "trace-format") && (argc =? 2) then v ← choose (arg 1%nat) [(lit "destor", TRACE_DESTOR); (lit "fsl", TRACE_FSL)]; Ok (set trace_format v d)
  else if named (lit "log-level") && (argc =? 2) then
    v ← choose (arg 1%nat) [(lit "debug", DESTOR_DEBUG); (lit "verbose", DESTOR_VERBOSE); (lit "notice", DESTOR_NOTICE); (lit "warning", DESTOR_WARNING)]; Ok (set verbosity v d)
  else if named (lit "chunk-algorithm") && (argc =? 2) then
    v ← choose (arg 1%nat) [(lit "fixed", CHUNK_FIXED); (lit "rabin", CHUNK_RABIN); (lit "normalized rabin", CHUNK_NORMALIZED_RABIN); (lit "tttd", CHUNK_TTTD); (lit "file", CHUNK_FILE); (lit "ae", CHUNK_AE)];
    Ok (set chunk_algorithm v d)
  else if named (lit "chunk-avg-size") && (argc =? 2) then Ok (set chunk_avg_size_ (atoi (arg 1%nat)) d)
  else if named (lit "chunk-max-size") && (argc =? 2) then Ok (set chunk_max_size_ (atoi (arg 1%nat)) d)
  else if named (lit "chunk-min-size") && (argc =? 2) then Ok (set chunk_min_size_ (atoi (arg 1%nat)) d)
  else if named (lit "fingerprint-index") && (3 <=? argc) then
    c0 ← choose (arg 1%nat) [(lit "exact", INDEX_CATEGORY_EXACT); (lit "near-exact", INDEX_CATEGORY_NEAR_EXACT)];
    c1 ← choose (arg 2%nat) [(lit "physical", INDEX_CATEGORY_PHYSICAL_LOCALITY); (lit "logical", INDEX_CATEGORY_LOGICAL_LOCALITY)];
    let d := set index_category_1 c1 (set index_category_0 c0 d) in
    if 3 <? argc then load_specific (arg 3%nat) d else Ok d
  else if named (lit "fingerprint-index-cache-size") && (argc =? 2) then Ok (set index_cache_size_ (atoi (arg 1%nat)) d)
  else if named (lit "fingerprint-index-key-value") && (argc =? 2) then v ← choose (arg 1%nat) [(lit "htable", INDEX_KEY_VALUE_HTABLE)]; Ok (set index_key_value_store v d)
  else if named (lit "fingerprint-index-key-size") && (argc =? 2) then Ok (set index_key_size_ (atoi (arg 1%nat)) d)
  else if named (lit "fingerprint-index-value-length") && (argc =? 2) then Ok (set index_value_length (atoi (arg 1%nat)) d)
  else if named (lit "fingerprint-index-bloom-filter") && (argc =? 2) then Ok (set index_bloom_filter_size (atoi (arg 1%nat)) d)
  else if named (lit "fingerprint-index-sampling-method") && (2 <=? argc) then
    v ← choose (arg 1%nat) [(lit "optmin", INDEX_SAMPLING_OPTIMIZED_MIN); (lit "random", INDEX_SAMPLING_RANDOM); (lit "min", INDEX_SAMPLING_MIN); (lit "uniform", INDEX_SAMPLING_UNIFORM)];
    Ok (set index_sampling_method_1 (if 2 <? argc then atoi (arg 2%nat) else 0) (set index_sampling_method_0 v d))
  else if named (lit "fingerprint-index-segment-algorithm") && (2 <=? argc) then
    v ← choose (arg 1%nat) [(lit "fixed", INDEX_SEGMENT_FIXED); (lit "file-defined", INDEX_SEGMENT_FILE_DEFINED); (lit "content-defined", INDEX_SEGMENT_CONTENT_DEFINED)];
    let d := set index_segment_algorithm_0 v d in
    if 2 <? argc then _ ← c_assert (negb (v =? INDEX_SEGMENT_FILE_DEFINED)); Ok (set index_segment_algorithm_1 (atoi (arg 2%nat)) d) else Ok d
  else if named (lit "fingerprint-index-segment-boundary") && (argc =? 3) then Ok (set index_segment_max_ (atoi (arg 2%nat)) (set index_segment_min_ (atoi (arg 1%nat)) d))
  else if named (lit "fingerprint-index-segment-selection") && (2 <=? argc) then
    let d := set index_segment_selection_method_1 1 d in
    v ← choose (arg 1%nat) [(lit "base", INDEX_SEGMENT_SELECT_BASE); (lit "top", INDEX_SEGMENT_SELECT_TOP); (lit "mix", INDEX_SEGMENT_SELECT_MIX)];
    let d := set index_segment_selection_method_0 v d in
    Ok (if (v =? INDEX_SEGMENT_SELECT_TOP) && (2 <? argc) then set index_segment_selection_method_1 (atoi (arg 2%nat)) d else d)
  else if named (lit "fingerprint-index-segment-prefetching") && (argc =? 2) then Ok (set index_segment_prefech (atoi (arg 1%nat)) d)
  else if named (lit "rewrite-algorithm") && (2 <=? argc) then
    v ← choose (arg 1%nat) [(lit "no", REWRITE_NO); (lit "cfl-based selective deduplication", REWRITE_CFL_SELECTIVE_DEDUPLICATION); (lit "cfl", REWRITE_CFL_SELECTIVE_DEDUPLICATION);
      (lit "context-based rewriting", REWRITE_CONTEXT_BASED); (lit "cbr", REWRITE_CONTEXT_BASED); (lit "capping", REWRITE_CAPPING); (lit "cap", REWRITE_CAPPING)];
    Ok (set rewrite_algorithm_1_ (if 2 <? argc then atoi (arg 2%nat) else 1024) (set rewrite_algorithm_0_ v d))
  else if named (lit "rewrite-enable-cfl-switch") && (argc =? 2) then Ok (set rewrite_enable_cfl_switch (yesnotoi (arg 1%nat)) d)
  else if named (lit "rewrite-cfl-require") && (argc =? 2) then Ok (set_real rewrite_cfl_require (atof (arg 1%nat)) d)
  else if named (lit "rewrite-cfl-usage-threshold") && (argc =? 2) then Ok (set_real rewrite_cfl_usage_threshold (atof (arg 1%nat)) d)
  else if named (lit "rewrite-cbr-limit") && (argc =? 2) then Ok (set_real rewrite_cbr_limit (atof (arg 1%nat)) d)
  else if named (lit "rewrite-cbr-minimal-utility") && (argc =? 2) then Ok (set_real rewrite_cbr_minimal_utility (atof (arg 1%nat)) d)
  else if named (lit "rewrite-capping-level") && (argc =? 2) then Ok (set rewrite_capping_level_ (atoi (arg 1%nat)) d)
  else if named (lit "rewrite-enable-har") && (argc =? 2) then Ok (set rewrite_enable_har (yesnotoi (arg 1%nat)) d)
  else if named (lit "rewrite-har-utilization-threshold") && (argc =? 2) then Ok (set_real rewrite_har_utilization_threshold (atof (arg 1%nat)) d)
  else if named (lit "rewrite-har-rewrite-limit") && (argc =? 2) then Ok (set_real rewrite_har_rewrite_limit (atof (arg 1%nat)) d)
  else if named (lit "rewrite-enable-cache-aware") && (argc =? 2) then Ok (set rewrite_enable_cache_aware (yesnotoi (arg 1%nat)) d)
  else if named (lit "restore-cache") && (argc =? 3) then
    v ← choose (arg 1%nat) [(lit "lru", RESTORE_CACHE_LRU); (lit "optimal cache", RESTORE_CACHE_OPT); (lit "opt", RESTORE_CACHE_OPT); (lit "forward assembly", RESTORE_CACHE_ASM); (lit "asm", RESTORE_CACHE_ASM)];
    Ok (set restore_cache_1 (atoi (arg 2%nat)) (set restore_cache_0 v d))
  else if named (lit "restore-opt-window-size") && (argc =? 2) then Ok (set restore_opt_window_size (atoi (arg 1%nat)) d)
  else if named (lit "backup-retention-time") && (argc =? 2) then Ok (set backup_retention_time (atoi (arg 1%nat)) d)
  else if named (lit "local_ip") && (argc =? 2) then Ok (set local_ip_ (u32 (inet_addr (arg 1%nat))) (set_text local_ip_str (Recipe.cstr (arg 1%nat)) d))
  else if named (lit "oec_pktsize") && (argc =? 2) then Ok (set oec_pktsize (atoi (arg 1%nat)) d)
  else if named (lit "ecid_pool") && (argc =? 2) then Ok (set_text ecid_pool (Recipe.cstr (arg 1%nat)) d)
  else if named (lit "oec_mode") && (argc =? 2) then Ok (set_text oec_mode (Recipe.cstr (arg 1%nat)) d)
  else if named (lit "oec_agent_ip") && (argc =? 2) then Ok (set oec_agent_ip (u32 (inet_addr (arg 1%nat))) d)
  else Err (EExit 1).

(** A line of the file. *)
Definition load_line (d : destor) (line : list Z) : res destor :=
  let line := sdstrim line (lit " " ++ [9; 13; 10]) in
  match line with
  | [] => Ok d
  | c :: _ =>
      if (c =? 35) || (c =? 0) then Ok d else
      argv ← sdssplitargs line;
      match argv with None => Err (EExit 1) | Some [] => Ok d | Some argv => load_directive argv d end
  end.

Definition load_config_from_string (config : list Z) (d : destor) : res destor :=
  match sdssplitlen (Recipe.cstr config) [10] with None => Ok d | Some lines => foldM load_line d lines end.

(** [while (fgets(buf, DESTOR_CONFIGLINE_MAX + 1, fp) != NULL)], of what is left. *)
Fixpoint read_config (fuel : nat) (config text : list Z) : res (list Z) :=
  match take_line (Z.to_nat DESTOR_CONFIGLINE_MAX) text with
  | [] => Ok config
  | bs => match fuel with O => Err EFuel | S fuel => read_config fuel (sdscat config bs) (drop (length bs) text) end
  end.

Definition load_config (file : option (list Z)) (d : destor) : res destor :=
  match file with
  | None => Ok d
  | Some text => config ← read_config (length text) [] text; load_config_from_string config d
  end.

(** ** Starting and shutting down *)

Definition check_simulation_level (last_level current_level : Z) : res unit :=
  if ((last_level <=? SIMULATION_RESTORE) && (SIMULATION_APPEND <=? current_level)) || ((SIMULATION_APPEND <=? last_level) && (current_level <=? SIMULATION_RESTORE))
  then Err (EExit 1) else Ok ().

Definition default_ints : list (int_member * Z) :=
  [(simulation_level, SIMULATION_NO); (trace_format, TRACE_DESTOR); (verbosity, DESTOR_WARNING);
   (chunk_algorithm, CHUNK_RABIN); (chunk_max_size_, 65536); (chunk_min_size_, 1024); (chunk_avg_size_, 8192);
   (restore_cache_0, RESTORE_CACHE_LRU); (restore_cache_1, 1024); (restore_opt_window_size, 1000000);
   (index_category_0, INDEX_CATEGORY_NEAR_EXACT); (index_category_1, INDEX_CATEGORY_PHYSICAL_LOCALITY); (index_specific_, INDEX_SPECIFIC_NO);
   (index_key_value_store, INDEX_KEY_VALUE_HTABLE); (index_key_size_, 20); (index_value_length, 1); (index_cache_size_, 4096);
   (index_segment_algorithm_0, INDEX_SEGMENT_FIXED); (index_segment_algorithm_1, 1024); (index_segment_min_, 128); (index_segment_max_, 10240);
   (index_sampling_method_0, INDEX_SAMPLING_UNIFORM); (index_sampling_method_1, 1); (index_value_length, 1);
   (index_segment_selection_method_0, INDEX_SEGMENT_SELECT_TOP); (index_segment_selection_method_1, 1); (index_segment_prefech, 0);
   (rewrite_algorithm_0_, REWRITE_NO); (rewrite_algorithm_1_, 1024); (rewrite_enable_har, 0); (rewrite_enable_cache_aware, 0); (backup_retention_time, -1)].

Definition set_defaults (d : destor) : destor :=
  let d := set_text working_directory (lit "/home/openec/working/") d in
  let d := foldl (fun d '(m, v) => set m v d) d default_ints in
  set_real rewrite_har_rewrite_limit (decimal 5 (-2)) (set_real rewrite_har_utilization_threshold (decimal 5 (-1)) d).

Definition stat_size (m : stat_member) : nat := match m with index_memory_footprint | live_container_num => 4 | _ => 8 end.
Definition stat_members : list stat_member :=
  [chunk_num; stored_chunk_num; data_size; stored_data_size; zero_chunk_num; zero_chunk_size; rewritten_chunk_num; rewritten_chunk_size; index_memory_footprint; live_container_num].

Definition read_stat (s : destor * file) (m : stat_member) : destor * file :=
  let '(d, fp) := s in
  let '(_, bs, fp) := fread_obj fp (le_bytes (stat_size m) (stats d m)) in
  (set_stat m (swrap (8 * Z.of_nat (stat_size m)) (le_val bs)) d, fp).

(** An [int] on the stack, whose value is indeterminate unless it is read. *)
Definition read_local (fp : file) : res (Z * file) :=
  let '(n, bs, fp) := fread_obj fp (fresh_bytes 4) in if n =? 1 then Ok (s32 (le_val bs), fp) else Err EBounds.

Definition destor_start (config_file stat_file : option (list Z)) (d : destor) : res destor :=
  d ← load_config config_file (set_defaults d);
  match stat_file with
  | Some data =>
      let '(d, fp) := foldl read_stat (d, mk_file data 0) stat_members in
      '(last_retention_time, fp) ← read_local fp;
      _ ← c_assert (last_retention_time =? ints d backup_retention_time);
      '(last_level, fp) ← read_local fp;
      _ ← check_simulation_level last_level (ints d simulation_level);
      Ok d
  | None => Ok (foldl (fun d m => set_stat m 0 d) d stat_members)
  end.

(** What is written to [destor.stat]. *)
Definition destor_shutdown (d : destor) : list Z :=
  concat (map (fun m => le_bytes (stat_size m) (stats d m)) stat_members) ++ le_bytes 4 (ints d backup_retention_time) ++ le_bytes 4 (ints d simulation_level).
End Config.

(** ** What the phases read *)

Definition index_config_of (d : destor) : index_config :=
  mk_index_config (ints d index_specific_) (ints d index_category_0) (ints d index_category_1) (ints d index_segment_algorithm_0)
    (ints d index_segment_selection_method_0) (ints d index_segment_selection_method_1) (ints d index_sampling_method_0) (ints d index_sampling_method_1)
    (ints d index_key_size_) (ints d index_value_length) (ints d index_segment_prefech) (ints d index_cache_size_).
Definition chunk_config_of (d : destor) : chunk_config := mk_chunk_config (ints d chunk_avg_size_) (ints d chunk_min_size_) (ints d chunk_max_size_).
Definition filter_config_of (d : destor) : filter_config :=
  mk_filter_config (negb (ints d rewrite_enable_cache_aware =? 0)) (negb (ints d rewrite_enable_cfl_switch =? 0)) (reals d rewrite_cfl_require) (ints d rewrite_algorithm_0_).

(** [init_index] may change the algorithm before the segments are cut. *)
Definition seg_config_of (d : destor) (c : index_config) : seg_config :=
  mk_seg_config (segment_algorithm_0 c) (ints d index_segment_algorithm_1) (ints d index_segment_min_) (ints d index_segment_max_).

(** ** The type of the configuration *)

(** The values of a member that names an alternative. *)
Definition values (m : int_member) : option (list Z) :=
  match m with
  | simulation_level => Some [SIMULATION_ALL; SIMULATION_APPEND; SIMULATION_RESTORE; SIMULATION_NO]
  | trace_format => Some [TRACE_DESTOR; TRACE_FSL]
  | verbosity => Some [DESTOR_DEBUG; DESTOR_VERBOSE; DESTOR_NOTICE; DESTOR_WARNING]
  | chunk_algorithm => Some [CHUNK_FIXED; CHUNK_RABIN; CHUNK_NORMALIZED_RABIN; CHUNK_TTTD; CHUNK_FILE; CHUNK_AE]
  | restore_cache_0 => Some [RESTORE_CACHE_LRU; RESTORE_CACHE_OPT; RESTORE_CACHE_ASM]
  | index_category_0 => Some [INDEX_CATEGORY_EXACT; INDEX_CATEGORY_NEAR_EXACT]
  | index_category_1 => Some [INDEX_CATEGORY_PHYSICAL_LOCALITY; INDEX_CATEGORY_LOGICAL_LOCALITY]
  | index_specific_ => Some [INDEX_SPECIFIC_NO; INDEX_SPECIFIC_DDFS; INDEX_SPECIFIC_EXTREME_BINNING; INDEX_SPECIFIC_SILO; INDEX_SPECIFIC_SPARSE; INDEX_SPECIFIC_SAMPLED; INDEX_SPECIFIC_BLOCK_LOCALITY_CACHING]
  | index_sampling_method_0 => Some [INDEX_SAMPLING_OPTIMIZED_MIN; INDEX_SAMPLING_RANDOM; INDEX_SAMPLING_MIN; INDEX_SAMPLING_UNIFORM]
  | index_key_value_store => Some [INDEX_KEY_VALUE_HTABLE]
  | index_segment_algorithm_0 => Some [INDEX_SEGMENT_FIXED; INDEX_SEGMENT_FILE_DEFINED; INDEX_SEGMENT_CONTENT_DEFINED]
  | index_segment_selection_method_0 => Some [INDEX_SEGMENT_SELECT_BASE; INDEX_SEGMENT_SELECT_TOP; INDEX_SEGMENT_SELECT_MIX]
  | rewrite_algorithm_0_ => Some [REWRITE_NO; REWRITE_CFL_SELECTIVE_DEDUPLICATION; REWRITE_CONTEXT_BASED; REWRITE_CAPPING]
  | rewrite_enable_cfl_switch | rewrite_enable_har | rewrite_enable_cache_aware => Some [1; 0; -1]
  | _ => None
  end.

Definition valid (m : int_member) (v : Z) : Prop :=
  match values m with
  | Some l => v ∈ l
  | None => match m with local_ip_ | oec_agent_ip => in_u 32 v | _ => in_s 32 v end
  end.

Definition stat_valid (m : stat_member) (v : Z) : Prop := in_s (8 * Z.of_nat (stat_size m)) v.

#[export] Instance valid_dec m v : Decision (valid m v).
Proof. unfold valid. destruct (values m); [apply _|]. destruct m; apply _. Defined.

(** Every member has a value of its type, and only the selection of the top
    segments has a number of segments of its own. *)
Record typed (d : destor) : Prop := {
  ty_ints m : valid m (ints d m);
  ty_stats m : stat_valid m (stats d m);
  ty_select : ints d index_segment_selection_method_0 = INDEX_SEGMENT_SELECT_TOP \/ ints d index_segment_selection_method_1 = 1;
}.

(** ** A configuration is read or refused *)

Definition loads (d : destor) (r : res destor) : Prop :=
  match r with Ok d' => typed d' /\ stats d' = stats d | Err e => e = EExit 1 \/ e = EAssert end.

Lemma choose_values s l : match choose s l with Ok v => v ∈ map snd l | Err e => e = EExit 1 end.
Proof.
  induction l as [|[name v] l IH]; [done|]. cbn [choose map snd]. destruct (strcasecmp_eq s name); [by left|].
  destruct (choose s l); [by right|done].
Qed.

Lemma atoi_int s : in_s 32 (atoi s).
Proof. unfold atoi. destruct (signed_digits _). by apply swrap_range. Qed.

Lemma yesnotoi_values s : yesnotoi s ∈ [1; 0; -1].
Proof. unfold yesnotoi. repeat destruct (strcasecmp_eq _ _); decide_it. Qed.

Lemma insert_same (m : int_member) v (f : int_member -> Z) : (<[m := v]> f) m = v.
Proof. apply fn_lookup_insert. Qed.
Lemma insert_other (m m' : int_member) v (f : int_member -> Z) : m <> m' -> (<[m := v]> f) m' = f m'.
Proof. intros. by apply fn_lookup_insert_ne. Qed.

(** The members of a typed configuration that can be set one by one. *)
Definition alone (m : int_member) : Prop := m <> index_segment_selection_method_0 /\ m <> index_segment_selection_method_1.

Lemma set_valid m v d : valid m v -> (forall k, valid k (ints d k)) -> forall k, valid k (ints (set m v d) k).
Proof. intros Hv Hd k. cbn [set ints]. destruct (decide (m = k)) as [<-|Hk]; [by rewrite insert_same|by rewrite insert_other]. Qed.

Lemma set_typed m v d : alone m -> valid m v -> typed d -> typed (set m v d).
Proof.
  intros [H0 H1] Hv [Hi Hs Ht]. split; [by apply set_valid|done|]. cbn [set ints]. by rewrite !insert_other.
Qed.

Lemma loads_set d m v : alone m -> valid m v -> typed d -> loads d (Ok (set m v d)).
Proof. intros. split; [by apply set_typed|done]. Qed.
Lemma loads_real d m v : typed d -> loads d (Ok (set_real m v d)).
Proof. by intros [? ? ?]. Qed.
Lemma loads_text d m v : typed d -> loads d (Ok (set_text m v d)).
Proof. by intros [? ? ?]. Qed.
Lemma loads_exit d : loads d (Err (EExit 1)).
Proof. by left. Qed.
Lemma loads_choose d s l f : (forall v, v ∈ map snd l -> loads d (f v)) -> loads d (choose s l ≫= f).
Proof. intros Hf. pose proof (choose_values s l) as H. destruct (choose s l); [by apply Hf|subst; by left]. Qed.
Lemma loads_assert d b (f : res destor) : (b = true -> loads d f) -> loads d (c_assert b ≫= fun _ => f).
Proof. destruct b; [by intros H; apply H|by right]. Qed.
Lemma loads_stats d d1 r : stats d1 = stats d -> loads d1 r -> loads d r.
Proof. intros E. unfold loads. by rewrite E. Qed.
Lemma loads_if d (b : bool) r1 r2 : loads d r1 -> loads d r2 -> loads d (if b then r1 else r2).
Proof. by destruct b. Qed.

(** A directive that sets one member, or several typed ones in turn. *)
Ltac alone_it := split; discriminate.
Ltac member :=
  repeat match goal with
  | |- typed (set _ _ _) => apply set_typed; [alone_it| |]
  | |- loads _ (Ok (set _ _ _)) => apply loads_set; [alone_it| |]
  | |- loads _ (Ok (set_real _ _ _)) => apply loads_real
  | |- loads _ (Ok (set_text _ _ _)) => apply loads_text
  | |- loads _ (Err (EExit 1)) => apply loads_exit
  | |- loads _ (choose _ _ ≫= _) => apply loads_choose; intros ? ?
  | |- loads _ (c_assert _ ≫= _) => apply loads_assert; intros ?
  | |- valid _ (atoi _) => apply atoi_int
  | |- valid _ (yesnotoi _) => apply yesnotoi_values
  | |- valid _ (u32 _) => by apply uwrap_range
  | |- typed _ => assumption
  end.

Lemma loads_two d m1 v1 m2 v2 : alone m1 -> alone m2 -> valid m1 v1 -> valid m2 v2 -> typed d -> loads d (Ok (set m2 v2 (set m1 v1 d))).
Proof. intros. split; [|done]. apply set_typed; [done..|]. by apply set_typed. Qed.

(** The number of a segment selection is reset before the method is set. *)
Lemma loads_selection d (b : bool) v k : typed d -> in_s 32 k -> valid index_segment_selection_method_0 v ->
  loads d (Ok (if (v =? INDEX_SEGMENT_SELECT_TOP) && b then set index_segment_selection_method_1 k (set index_segment_selection_method_0 v (set index_segment_selection_method_1 1 d))
    else set index_segment_selection_method_0 v (set index_segment_selection_method_1 1 d))).
Proof.
  intros [Hi Hs Ht] Hk Hv. assert (H1 : forall m, valid m (ints (set index_segment_selection_method_0 v (set index_segment_selection_method_1 1 d)) m)).
  { apply set_valid; [done|]. by apply set_valid; [by apply (bool_decide_unpack _)|]. }
  split; [|by destruct (_ && _)]. destruct (v =? INDEX_SEGMENT_SELECT_TOP) eqn:Et; cbn [andb].
  - apply Z.eqb_eq in Et. destruct b; (split; [..|left; done]; try done). by apply set_valid.
  - split; [done..|by right].
Qed.

Section Loads.
Context (inet_addr : list Z -> Z).
#[local] Abbreviation directive := (load_directive inet_addr).

Lemma load_specific_loads s d : typed d -> loads d (load_specific s d).
Proof. intros Hd. unfold load_specific. repeat (apply loads_if; [member; by apply (bool_decide_unpack _)|]). member. Qed.

Lemma atoi_or (b : bool) s k : in_s 32 k -> in_s 32 (if b then atoi s else k).
Proof. destruct b; [intros _; apply atoi_int|done]. Qed.

(** A value of a chain of comparisons that has two names for a value. *)
Lemma listed m l v : v ∈ l -> Forall (valid m) l -> valid m v.
Proof. intros Hv Hl. by apply (proj1 (Forall_forall _ _) Hl). Qed.
Ltac listed := eapply listed; [eassumption|by apply (bool_decide_unpack _)].

Lemma load_directive_loads argv d : typed d -> loads d (directive argv d).
Proof.
  intros Hd. unfold load_directive. cbv zeta.
  repeat (apply loads_if; [solve [member; done]|]).
  apply loads_if.
  { member. match goal with |- loads _ (if _ then _ else Ok ?d1) => apply (loads_stats _ d1); [done|]; assert (typed d1) by (member; done) end.
    apply loads_if; [by apply load_specific_loads|done]. }
  repeat (apply loads_if; [solve [member; done]|]).
  apply loads_if; [member; apply loads_two; [alone_it..|done|by apply atoi_or|done]|].
  apply loads_if.
  { member. apply loads_if; [member|by member]. apply loads_two; [alone_it..|done|by apply atoi_int|done]. }
  apply loads_if; [apply loads_two; [alone_it..|apply atoi_int|apply atoi_int|done]|].
  apply loads_if; [apply loads_choose; intros v Hv; apply loads_selection; [done|apply atoi_int|done]|].
  repeat (apply loads_if; [solve [member; done]|]).
  apply loads_if; [member; apply loads_two; [alone_it..|listed|by apply atoi_or|done]|].
  repeat (apply loads_if; [solve [member; done]|]).
  apply loads_if; [member; apply loads_two; [alone_it..|listed|by apply atoi_int|done]|].
  repeat (apply loads_if; [solve [member; done]|]).
  apply loads_if; [split; [|done]; apply (set_typed local_ip_); [alone_it|by apply uwrap_range|by destruct Hd]|].
  repeat (apply loads_if; [solve [member; done]|]).
  member.
Qed.

Lemma load_line_loads d line : typed d -> loads d (load_line inet_addr d line).
Proof.
  intros Hd. assert (loads d (Ok d)) by done. unfold load_line. destruct (sdstrim _ _) as [|c l]; [done|]. apply loads_if; [done|].
  destruct (sdssplitargs_ends (c :: l)) as (o & ->). step. destruct o as [[|a argv]|]; [done| |by left]. by apply load_directive_loads.
Qed.

Lemma load_string_loads config d : typed d -> loads d (load_config_from_string inet_addr config d).
Proof.
  intros Hd. unfold load_config_from_string. destruct (sdssplitlen _ _) as [lines|]; [|done].
  revert d Hd. induction lines as [|line lines IH]; intros d Hd; [done|]. cbn [foldM].
  pose proof (load_line_loads d line Hd) as H. destruct (load_line _ _ _) as [d1|e]; [|done]. destruct H as [H1 H2]. step.
  apply (loads_stats _ d1); [done|by apply IH].
Qed.

Lemma take_line_len n l : (length (take_line n l) <= length l)%nat.
Proof. revert l. induction n as [|n IH]; intros [|c l]; cbn [take_line]; try (cbn; lia). case (c =? 10); cbn [length]; [lia|]. pose proof (IH l). lia. Qed.

Lemma read_config_ends fuel : forall config text, (length text <= fuel)%nat -> exists s, read_config fuel config text = Ok s.
Proof.
  assert (Ht : forall text, take_line (Z.to_nat DESTOR_CONFIGLINE_MAX) text = [] -> text = []).
  { intros [|c l]; [done|]. change (Z.to_nat DESTOR_CONFIGLINE_MAX) with (S 1023). cbn [take_line]. by case (c =? 10). }
  induction fuel as [|fuel IH]; intros config text Hl; cbn [read_config].
  - destruct text; [|cbn in Hl; lia]. change (take_line _ []) with (@nil Z). by exists config.
  - destruct (take_line _ text) as [|c bs] eqn:E; [by exists config|]. apply IH.
    pose proof (take_line_len (Z.to_nat DESTOR_CONFIGLINE_MAX) text) as H. rewrite E in H. rewrite length_drop. cbn [length] in *. lia.
Qed.

Lemma load_config_loads file d : typed d -> loads d (load_config inet_addr file d).
Proof.
  intros Hd. destruct file as [text|]; [|done]. cbn [load_config]. destruct (read_config_ends (length text) [] text) as (s & ->); [lia|]. step.
  by apply load_string_loads.
Qed.
End Loads.

(** ** The statistics *)

Lemma read_stat_frame s m : ints (read_stat s m).1 = ints s.1 /\ reals (read_stat s m).1 = reals s.1 /\ texts (read_stat s m).1 = texts s.1.
Proof. destruct s as [d fp]. unfold read_stat. destruct (fread_obj _ _) as [[? ?] ?]. done. Qed.

Lemma read_stats_frame ms : forall s, ints (foldl read_stat s ms).1 = ints s.1 /\ reals (foldl read_stat s ms).1 = reals s.1 /\ texts (foldl read_stat s ms).1 = texts s.1.
Proof.
  induction ms as [|m ms IH]; intros s; [done|]. cbn [foldl]. destruct (IH (read_stat s m)) as (-> & -> & ->). apply read_stat_frame.
Qed.

Lemma set_stat_valid m v d : stat_valid m v -> (forall k, stat_valid k (stats d k)) -> forall k, stat_valid k (stats (set_stat m v d) k).
Proof.
  intros Hv Hd k. cbn [set_stat stats]. destruct (decide (m = k)) as [<-|Hk]; [by rewrite fn_lookup_insert|by rewrite fn_lookup_insert_ne].
Qed.

Lemma read_stats_valid ms : forall s, (forall k, stat_valid k (stats s.1 k)) -> forall k, stat_valid k (stats (foldl read_stat s ms).1 k).
Proof.
  induction ms as [|m ms IH]; intros [d fp] Hd; [done|]. cbn [foldl]. apply IH. unfold read_stat. destruct (fread_obj _ _) as [[? ?] ?].
  apply set_stat_valid; [|done]. apply swrap_range. by destruct m.
Qed.

(** A read of what the file still has. *)
Lemma fread_obj_within data off buf : 0 <= off -> off + zlen buf <= zlen data ->
  exists bs, fread_obj (mk_file data off) buf = (1, bs, mk_file data (off + zlen buf)).
Proof.
  intros H0 H1. pose proof (zlen_nonneg buf). set (bs := ztake (zlen buf) (zdrop off data)).
  assert (Hb : zlen bs = zlen buf) by (apply zlen_ztake; rewrite zlen_zdrop; lia).
  exists bs. rewrite <- Hb. apply fread_obj_has; [|done]. exists (ztake off data), (zdrop (zlen buf) (zdrop off data)). split; [|by apply zlen_ztake; lia].
  unfold bs. by rewrite !ztake_zdrop.
Qed.

Definition stats_size (ms : list stat_member) : Z := foldr (fun m n => Z.of_nat (stat_size m) + n) 0 ms.

Lemma read_stats_within ms : forall d data off, 0 <= off -> off + stats_size ms <= zlen data ->
  (foldl read_stat (d, mk_file data off) ms).2 = mk_file data (off + stats_size ms).
Proof.
  induction ms as [|m ms IH]; intros d data off H0 H1; [cbn; do 2 f_equal; lia|]. cbn [foldl stats_size foldr] in *. fold (stats_size ms) in *.
  assert (0 <= stats_size ms) by (clear; induction ms as [|m ms IH]; cbn; [lia|fold (stats_size ms); lia]).
  unfold read_stat at 2. destruct (fread_obj_within data off (le_bytes (stat_size m) (stats d m))) as (bs & ->); [done|rewrite zlen_le_bytes; lia|].
  rewrite zlen_le_bytes, IH by lia. f_equal. lia.
Qed.

Lemma read_local_within data off : 0 <= off -> off + 4 <= zlen data -> exists v, read_local (mk_file data off) = Ok (v, mk_file data (off + 4)).
Proof.
  intros. unfold read_local. destruct (fread_obj_within data off (fresh_bytes 4)) as (bs & ->); [done|by rewrite zlen_fresh|]. rewrite zlen_fresh by lia. eauto.
Qed.

Lemma read_local_error fp e : read_local fp = Err e -> e = EBounds.
Proof. unfold read_local. destruct (fread_obj _ _) as [[n bs] f]. destruct (n =? 1); congruence. Qed.

Lemma defaults_typed : typed (set_defaults zero_destor).
Proof. split; [intros []; decide_it|intros []; decide_it|left; reflexivity]. Qed.

Lemma reset_stats d : typed d -> typed (foldl (fun d m => set_stat m 0 d) d stat_members).
Proof. intros [Hi Hs Ht]. split; [done| |done]. unfold stat_members. cbn [foldl]. repeat (apply set_stat_valid; [decide_it|]). done. Qed.

Lemma typed_stats d d' : typed d -> ints d' = ints d -> (forall m, stat_valid m (stats d' m)) -> typed d'.
Proof. intros [Hi Hs Ht] E H. split; [by rewrite E|done|by rewrite !E]. Qed.

(** The statistics that were written are read back. *)
Lemma read_stats_written d ms : (forall k, stat_valid k (stats d k)) -> forall d1 pre rest,
  let data := pre ++ concat (map (fun m => le_bytes (stat_size m) (stats d m)) ms) ++ rest in
  exists d', foldl read_stat (d1, mk_file data (zlen pre)) ms = (d', mk_file data (zlen pre + stats_size ms)) /\
    forall k, stats d' k = if bool_decide (k ∈ ms) then stats d k else stats d1 k.
Proof.
  intros Hd. induction ms as [|m ms IH]; intros d1 pre rest data.
  { exists d1. cbn [stats_size foldr foldl]. by rewrite Z.add_0_r. }
  cbn [foldl]. unfold read_stat at 2. rewrite (fread_obj_has data (zlen pre) _ (le_bytes (stat_size m) (stats d m))); [|exists pre; eexists; split; [unfold data; cbn [map concat]; by rewrite <- app_assoc|done]|by rewrite !zlen_le_bytes].
  rewrite le_load_signed by (exact (Hd m) || (destruct m; cbn; lia)).
  destruct (IH (set_stat m (stats d m) d1) (pre ++ le_bytes (stat_size m) (stats d m)) rest) as (d' & E & Ek). exists d'. split.
  - replace data with ((pre ++ le_bytes (stat_size m) (stats d m)) ++ concat (map (fun k => le_bytes (stat_size k) (stats d k)) ms) ++ rest)
      by (unfold data; cbn [map concat]; by rewrite <- !app_assoc).
    rewrite zlen_app, zlen_le_bytes in E. rewrite zlen_le_bytes, E. cbn [stats_size foldr]. by rewrite Z.add_assoc.
  - intros k. rewrite Ek. cbn [set_stat stats]. destruct (decide (k = m)) as [->|Hk].
    + rewrite fn_lookup_insert, (bool_decide_eq_true_2 (m ∈ m :: ms)) by by left. by case_bool_decide.
    + rewrite fn_lookup_insert_ne by done. assert (k ∈ m :: ms <-> k ∈ ms) as Hm by set_solver. by rewrite (bool_decide_ext _ _ Hm).
Qed.

Lemma read_local_written v pre rest : in_s 32 v -> read_local (mk_file (pre ++ le_bytes 4 v ++ rest) (zlen pre)) = Ok (v, mk_file (pre ++ le_bytes 4 v ++ rest) (zlen pre + 4)).
Proof.
  intros Hv. unfold read_local. rewrite (fread_obj_has _ _ _ (le_bytes 4 v)) by (by apply file_has_mid || by rewrite zlen_le_bytes).
  rewrite zlen_le_bytes. change 32 with (8 * Z.of_nat 4). by rewrite le_load_signed by (lia || done).
Qed.

(** A simulation that writes no data and one that does must not follow each other. *)
Lemma check_levels a b : valid simulation_level a -> valid simulation_level b ->
  check_simulation_level a b = if bool_decide (a <= SIMULATION_RESTORE <-> b <= SIMULATION_RESTORE) then Ok () else Err (EExit 1).
Proof.
  intros Ha Hb. cbn in Ha, Hb. rewrite !elem_of_cons, elem_of_nil in Ha, Hb.
  destruct Ha as [-> | [-> | [-> | [-> |[]]]]], Hb as [-> | [-> | [-> | [-> |[]]]]]; reflexivity.
Qed.

Lemma level_int a : valid simulation_level a -> in_s 32 a.
Proof. intros Ha. assert (Hl : Forall (in_s 32) [SIMULATION_ALL; SIMULATION_APPEND; SIMULATION_RESTORE; SIMULATION_NO]) by decide_it. by apply (proj1 (Forall_forall _ _) Hl). Qed.

Lemma all_stats m : m ∈ stat_members.
Proof. destruct m; decide_it. Qed.

Lemma zlen_stats d ms : zlen (concat (map (fun m => le_bytes (stat_size m) (stats d m)) ms)) = stats_size ms.
Proof. induction ms as [|m ms IH]; [done|]. cbn [map concat stats_size foldr]. rewrite zlen_app, zlen_le_bytes. by f_equal. Qed.

(** C12: The members of the configuration have values of their types. Whatever the
    bytes of the configuration file are, reading it ends, and a configuration
    whose members are in the ranges of their types and in the lists of their
    alternatives is left so (with the statistics unchanged), or the program
    ends with status 1, or an assertion fails; no access is out of bounds and no
    loop runs on. From the defaults of [destor_start] on, whatever the two files
    are, the node starts with such a configuration and statistics or stops in
    one of these ways; only a statistics file of less than 80 bytes makes it
    read a variable that was not set. *)
Theorem config_typed inet_addr :
  (forall text d, typed d -> match load_config_from_string inet_addr text d with Ok d' => typed d' /\ stats d' = stats d | Err e => e = EExit 1 \/ e = EAssert end) /\
  forall config_file stat_file,
    match destor_start inet_addr config_file stat_file zero_destor with
    | Ok d => typed d
    | Err e => e = EExit 1 \/ e = EAssert \/ (e = EBounds /\ exists data, stat_file = Some data /\ zlen data < 80)
    end.
Proof.
  split; [intros text d Hd; exact (load_string_loads inet_addr text d Hd)|]. intros cfile sfile. unfold destor_start.
  pose proof (load_config_loads inet_addr cfile _ defaults_typed) as H. destruct (load_config _ _ _) as [d|e]; [|cbn in *; tauto]. destruct H as [Hd _]. step.
  destruct sfile as [data|]; [|by apply reset_stats].
  pose proof (read_stats_frame stat_members (d, mk_file data 0)) as (Hi & _). pose proof (read_stats_valid stat_members (d, mk_file data 0) (ty_stats d Hd)) as Hv.
  pose proof (read_stats_within stat_members d data 0) as Hw. destruct (foldl _ _ _) as [d1 fp]. cbn [fst snd] in *. change (0 + stats_size stat_members) with 72 in Hw.
  pose proof (typed_stats d d1 Hd Hi Hv) as H1. destruct (read_local fp) as [[v fp1]|e] eqn:E1.
  - step. destruct (v =? _); [|cbn; tauto]. cbn [c_assert]. step. destruct (read_local fp1) as [[l fp2]|e] eqn:E2.
    + step. unfold check_simulation_level. destruct (_ || _); cbn; [tauto|done].
    + apply read_local_error in E2 as He. cbn. right. right. split; [done|]. exists data. split; [done|]. destruct (decide (zlen data < 80)) as [|Hn]; [done|exfalso].
      rewrite Hw in E1 by lia. destruct (read_local_within data 72) as (? & E); [lia..|]. rewrite E in E1. injection E1 as <- <-.
      destruct (read_local_within data (72 + 4)) as (? & E'); [lia..|]. congruence.
  - apply read_local_error in E1 as He. cbn. right. right. split; [done|]. exists data. split; [done|]. destruct (decide (zlen data < 80)) as [|Hn]; [done|exfalso].
    rewrite Hw in E1 by lia. destruct (read_local_within data 72) as (? & E'); [lia..|]. congruence.
Qed.

Lemma config_typed_witness : typed (set chunk_algorithm CHUNK_TTTD (set_defaults zero_destor)) /\
  match load_config_from_string (fun _ => 0) (lit "rewrite-algorithm cfl 4") (set chunk_algorithm CHUNK_TTTD (set_defaults zero_destor)) with Ok d' => typed d' | Err _ => False end.
Proof.
  assert (Ht : typed (set chunk_algorithm CHUNK_TTTD (set_defaults zero_destor))) by (apply set_typed; [alone_it|decide_it|apply defaults_typed]).
  split; [exact Ht|]. pose proof (proj1 (config_typed (fun _ => 0)) (lit "rewrite-algorithm cfl 4") _ Ht) as H.
  destruct (load_config_from_string _ _ _) as [d'|e] eqn:E; [exact (proj1 H)|]. vm_compute in E. discriminate E.
Defined.

(** [destor_start] on the file that [destor_shutdown] wrote. *)
Lemma start_written inet_addr d d0 d1 config_file : typed d -> typed d1 -> load_config inet_addr config_file (set_defaults d0) = Ok d1 -> exists d',
  destor_start inet_addr config_file (Some (destor_shutdown d)) d0 =
    (if bool_decide (ints d backup_retention_time = ints d1 backup_retention_time) then
       if bool_decide (ints d simulation_level <= SIMULATION_RESTORE <-> ints d1 simulation_level <= SIMULATION_RESTORE) then Ok d' else Err (EExit 1)
     else Err EAssert) /\
  (forall m, stats d' m = stats d m) /\ ints d' = ints d1 /\ reals d' = reals d1 /\ texts d' = texts d1.
Proof.
  intros Hd H1 E. unfold destor_start, destor_shutdown. rewrite E. step.
  pose proof all_stats as Ha. pose proof (zlen_stats d stat_members) as HS. revert Ha HS. generalize stat_members as ms. intros ms Ha HS.
  destruct (read_stats_written d ms (ty_stats d Hd) d1 [] (le_bytes 4 (ints d backup_retention_time) ++ le_bytes 4 (ints d simulation_level))) as (d' & Er & Ek).
  cbn [app] in Er. change (zlen (@nil Z)) with 0 in Er. set (S := concat _) in *. exists d'.
  pose proof (read_stats_frame ms (d1, mk_file (S ++ le_bytes 4 (ints d backup_retention_time) ++ le_bytes 4 (ints d simulation_level)) 0)) as (Fi & Fr & Ft).
  rewrite Er in Fi, Fr, Ft |- *. cbn [fst] in Fi, Fr, Ft. cbv beta iota. split; [|split; [intros m; rewrite Ek; by rewrite (bool_decide_eq_true_2 _ (Ha m))|done]].
  rewrite <- HS, Z.add_0_l, read_local_written by exact (ty_ints d Hd backup_retention_time). step. rewrite Fi.
  case_bool_decide as Et; [rewrite (proj2 (Z.eqb_eq _ _)) by done|by rewrite (proj2 (Z.eqb_neq _ _)) by done].
  cbn [c_assert]. step. replace (zlen S + 4) with (zlen (S ++ le_bytes 4 (ints d backup_retention_time))) by (by rewrite zlen_app, zlen_le_bytes).
  rewrite app_assoc, <- (app_nil_r (le_bytes 4 (ints d simulation_level))), read_local_written by (apply level_int, (ty_ints d Hd)).
  step. rewrite check_levels by (apply (ty_ints d Hd simulation_level) || apply (ty_ints d1 H1 simulation_level)). by case_bool_decide.
Qed.

(** C17: What a node writes when it shuts down is what the next one starts with. Of a
    typed configuration [d], the file that [destor_shutdown] writes gives the next
    node, whatever its configuration file says, the same ten statistics, if the
    retention times are equal and the simulation levels agree on whether data is
    stored; with another retention time the assertion fails, and with a
    conflicting level it exits. *)
Theorem stat_roundtrip inet_addr d d0 d1 config_file : typed d -> typed d1 ->
  load_config inet_addr config_file (set_defaults d0) = Ok d1 ->
  let start := destor_start inet_addr config_file (Some (destor_shutdown d)) d0 in
  let same_side := ints d simulation_level <= SIMULATION_RESTORE <-> ints d1 simulation_level <= SIMULATION_RESTORE in
  (ints d backup_retention_time <> ints d1 backup_retention_time -> start = Err EAssert) /\
  (ints d backup_retention_time = ints d1 backup_retention_time -> ~ same_side -> start = Err (EExit 1)) /\
  (ints d backup_retention_time = ints d1 backup_retention_time -> same_side ->
    exists d', start = Ok d' /\ (forall m, stats d' m = stats d m) /\ ints d' = ints d1 /\ reals d' = reals d1 /\ texts d' = texts d1).
Proof.
  intros Hd H1 E start same. destruct (start_written inet_addr d d0 d1 config_file Hd H1 E) as (d' & Es & Hs). unfold start. rewrite Es. split; [|split].
  - intros Hn. by rewrite bool_decide_eq_false_2.
  - intros Ht Hn. by rewrite bool_decide_eq_true_2, bool_decide_eq_false_2.
  - intros Ht Hn. rewrite !bool_decide_eq_true_2 by done. by exists d'.
Qed.

Lemma stat_roundtrip_witness :
  let d := set_stat chunk_num 7 (set_defaults zero_destor) in
  exists d1, load_config (fun _ => 0) (Some (lit "simulation-level restore")) (set_defaults zero_destor) = Ok d1 /\
    exists d', destor_start (fun _ => 0) (Some (lit "simulation-level restore")) (Some (destor_shutdown d)) zero_destor = Ok d' /\ stats d' chunk_num = 7.
Proof.
  cbv zeta. set (d := set_stat chunk_num 7 (set_defaults zero_destor)).
  assert (Ht : typed d) by (split; [intros []; decide_it|intros []; decide_it|left; reflexivity]).
  destruct (load_config (fun _ => 0) (Some (lit "simulation-level restore")) (set_defaults zero_destor)) as [d1|e] eqn:E; [|vm_compute in E; discriminate E].
  pose proof (load_config_loads (fun _ => 0) (Some (lit "simulation-level restore")) _ defaults_typed) as H. rewrite E in H. destruct H as [H1 _].
  assert (Hl : match load_config (fun _ => 0) (Some (lit "simulation-level restore")) (set_defaults zero_destor) with Ok d1 => (ints d1 backup_retention_time, ints d1 simulation_level) | Err _ => (0, 0) end = (-1, 1)) by (vm_compute; reflexivity).
  rewrite E in Hl. injection Hl as Hr Hs. exists d1. split; [reflexivity|].
  destruct (stat_roundtrip (fun _ => 0) d zero_destor d1 _ Ht H1 E) as (_ & _ & Hd).
  destruct Hd as (d' & Es & Ek & _); [rewrite Hr; reflexivity|rewrite Hs; split; intros _; discriminate|]. exists d'. split; [exact Es|rewrite Ek; reflexivity].
Defined.
